(* ===== verification/_CoqProject ===== *)
-Q . S2P
Prelude.v
BitUtils.v
Leb128.v
Utf.v
HashSet.v
HashSetFacts.v
HashSetSpec.v
JavaString.v
JavaStringFacts.v
JavaStringSpec.v
InternTable.v
InternTableFacts.v
InternTableSpec.v
Descriptors.v
MirrorClass.v
FieldLayout.v
FieldLayoutFacts.v
ObjectLayout.v
ObjectLayoutFacts.v
ReferenceVisits.v
ClassSize.v
Transaction.v
TransactionFacts.v
TransactionSpec.v
RegType.v
RegTypeFacts.v
SampleLinker.v
RegTypeSoundness.v
LockWord.v
DexInstructionList.v
DexInstruction.v
ShadowFrame.v
ExceptionTable.v
StaticVerifier.v
StaticVerifierFacts.v
VerifierFailures.v
RegisterLine.v
CodeFlow.v
FlowFacts.v
CodeFlowResults.v
Interpreter.v
InterpreterFacts.v
InterpreterSoundness.v
CodeFlowContract.v
InterpreterResults.v
IndirectReferenceTable.v
IndirectReferenceTableFacts.v
IndirectReferenceTableSpec.v
JniEnv.v
JniEnvRefinement.v
MagicDivision.v
X86Division.v
ParallelMove.v
ParallelMoveFacts.v
Monitor.v
MonitorInvariant.v
MonitorRefinement.v
MonitorLiveness.v
