(* ===== verification/Prelude.v ===== *)
(** * A verification development of the Android Runtime (ART)

    The program under [src/] is the managed runtime of Android: it loads dex
    files, verifies their bytecode, and runs it by interpretation or after
    compilation.  This library models the path of untrusted bytecode to its
    execution (decoding, the two passes of the verifier, the interpreter), the
    data encodings they stand on, the objects, strings, locks and references that
    code works with at run time, the transactions in which it runs at compile
    time, and two parts of the optimizing compiler.  Definitions carry the
    names of the source and translate it function by function; integers are [Z]
    with the wrap-around of their C++ type written out.

    ** Parts, files and sources

    Encodings and basics:
    - [Prelude]: machine integers ([wrap_u], [wrap_s] and their notations), the
      tactics, hints and lemmas the other files share.
    - [BitUtils]: [runtime/base/bit_utils.h].
    - [Leb128]: [runtime/leb128.h], on a memory of bytes; [LebCodec] is the
      interface a codec offers to readers of encoded streams.
    - [Utf]: [runtime/utf.cc], [utf-inl.h], [utf.h], modified UTF-8 strings;
      [Descriptors]: the tests of names and descriptors of [runtime/utils.cc].
    - [LockWord]: [runtime/lock_word.h], [lock_word-inl.h], the 32-bit word in
      front of every object.
    - [DexInstructionList], [DexInstruction]: [runtime/dex_instruction_list.h],
      [dex_instruction.h], [dex_instruction.cc], [dex_instruction-inl.h]; an
      instruction is a function from offsets to 16-bit code units.
    - [ExceptionTable]: code items, try items and catch handlers of
      [runtime/dex_file.h], [dex_file.cc] and [ArtMethod::FindCatchBlock] of
      [runtime/art_method.cc].

    The verifier ([runtime/verifier/]):
    - [StaticVerifier], [StaticVerifierFacts], [VerifierFailures]:
      [method_verifier.cc] up to the data flow analysis, in a state monad ([V]),
      the checks of the method itself and the recording of failures.
    - [MirrorClass]: the queries of [runtime/mirror/class.h], [class-inl.h] and
      [class.cc] on a table of classes, and [RegType::ClassJoin].
    - [RegType], [RegTypeFacts], [RegTypeSoundness], [SampleLinker]: [reg_type.h],
      [reg_type.cc], [reg_type_cache.cc] and their [-inl.h]; a register type is an
      entry of the cache, computations that may add entries are in the monad [C].
      [RegTypeFacts] says what a type means for a reference and proves the
      operations sound against the laws of the class linker ([LinkerLaws]), which
      [SampleLinker] satisfies.
    - [RegisterLine]: [register_line.h], [register_line.cc]; [FlowState] is the
      state of the pass and [F] its monad.
    - [CodeFlow], [FlowFacts], [CodeFlowResults]: [VerifyCodeFlow] of
      [method_verifier.cc], one table entry per [case] of
      [CodeFlowVerifyInstruction]; what its computations leave alone; methods it
      accepts and rejects.

    Objects and strings:
    - [FieldLayout], [FieldLayoutFacts]: how [LinkFields] of
      [runtime/class_linker.cc] sorts fields and places them, gaps included;
      [ObjectLayout], [ObjectLayoutFacts]: the linking of the fields of a class
      and its superclasses, the sizes of class objects of
      [runtime/mirror/class-inl.h] and the reference offsets; [ReferenceVisits]:
      the references the collector visits ([mirror/object-inl.h],
      [object-refvisitor-inl.h]); [ClassSize]: the two computations of the size
      of a class.
    - [HashSet], [HashSetFacts], [HashSetSpec]: [runtime/base/hash_set.h], the open
      addressing table; the classes [SetFns] and [LoadFactors] are what its
      template parameters and floating point factors supply, [SetLaws] and
      [LoadLaws] what the theorems ask of them.
    - [JavaString], [JavaStringFacts], [JavaStringSpec]: [runtime/mirror/string.h],
      [string-inl.h], [string.cc] and the [String.equals] of
      [compiler/optimizing/intrinsics_x86_64.cc], on the bytes of the object.
    - [InternTable], [InternTableFacts], [InternTableSpec]: [runtime/intern_table.cc]
      on hash sets of strings, and the string log of [runtime/transaction.cc].
    - [Transaction], [TransactionFacts], [TransactionSpec]: the other logs of
      [runtime/transaction.cc], the setters of [mirror/object-inl.h],
      [mirror/array-inl.h] and [mirror/dex_cache-inl.h] that fill them, and
      [FILL_ARRAY_DATA] of the interpreter; a heap is a finite map of objects
      whose cells hold bits.

    Execution:
    - [ShadowFrame]: [runtime/interpreter/shadow_frame.h], the interpreter's
      registers with their parallel array of references.
    - [Interpreter]: [runtime/interpreter/interpreter_switch_impl.cc] with
      [interpreter_common.h], [safe_math.h]; one table entry per [case], in a
      state and error monad ([M]).  The class [Runtime] holds what the rest of the
      runtime supplies (exception objects, class tests).
    - [InterpreterFacts], [InterpreterSoundness], [InterpreterResults]: the rules of
      the monad and the theorems about the interpreter.  The class [FlowContract]
      is what the interpreter asks of the data flow pass, [CodeFlowContract] shows
      that the pass keeps it.
    - [IndirectReferenceTable] with [Facts] and [Spec]:
      [runtime/indirect_reference_table.cc]; [JniEnv], [JniEnvRefinement]: the local
      references of [runtime/jni_env_ext.cc] and [jni_internal.cc] on top of it.
    - [Monitor], [MonitorInvariant], [MonitorRefinement], [MonitorLiveness]:
      [runtime/monitor.cc] with the parts of [thread.cc] and [mirror/object.cc] it
      uses, as a step relation of any number of threads on one object.

    The compiler ([compiler/optimizing/]):
    - [MagicDivision], [X86Division]: [code_generator_utils.cc] and the division
      by constants of [code_generator_x86_64.cc], with a model of the emitted
      instructions.
    - [ParallelMove], [ParallelMoveFacts]: [parallel_move_resolver.cc] and the moves
      and exchanges [code_generator_x86_64.cc] emits for it.

    The parts meet as in the program: the verifier and the interpreter decode with
    [DexInstruction], both read the handler tables of [ExceptionTable], whose lists
    are LEB128 encoded; the data flow pass starts from the state the static pass
    leaves; the interpreter works on a [ShadowFrame]; JNI references are entries
    of the reference tables and monitors start from lock words; the intern table is
    made of hash sets of strings, hashed and compared as [Utf] and [JavaString]
    say.

    ** What the theorems show

    - Verified code is safe to interpret: acceptance by the static verifier gives
      in-range operands and targets for every instruction of the sweep
      ([static_verification_sound]); the interpreter obeys the descriptor table
      ([interpreter_respects_descriptors]); the data flow pass reaches every
      instruction execution can go on at ([accepted_flow_contract]); so for methods
      both passes accept whole runs ([accepted_run_safe]) never leave the frame or
      the code.
    - The register types of the data flow pass are sound: assignability
      ([register_type_assignable_sound]), merges ([register_type_merge_sound]) and
      class joins ([class_join_upper_bound]) never lose a value.
    - The interpreter computes what the Java language says for integer instructions
      and switches, and exception delivery finds the right handler.
    - Monitors refine an abstract reentrant lock with wait sets and hash codes
      under every interleaving ([monitor_refines_spec]), a free lock is taken
      ([free_lock_is_taken]), and where notifications can be lost is shown.
    - JNI local references refine a stack of frames
      ([jni_local_references_refine]) on top of the life cycle of table entries
      ([indirect_reference_lifetime]).
    - Parallel moves are performed as if at once ([parallel_move_performed]), and
      division by constants computes Java's quotient and remainder
      ([integer_division_correct]).
    - Fields are laid out without overlap ([instance_fields_laid_out]), the collector
      visits each reference field once ([references_visited]) and the two
      computations of the size of a class agree ([class_size_agrees]).
    - Hash sets refine multisets ([hash_set_refines_multiset]) and survive their
      memory image ([hash_set_memory_roundtrip]); strings are their UTF-16 units
      whatever the compression ([strings_built_from_units],
      [strings_read_as_units]); interning gives one string per text
      ([interning_canonical]) through sweeps ([sweep_keeps_marked]), lookups by
      UTF-8 ([utf8_lookup_agrees]) and rollbacks ([rollback_restores_interns]).
    - Rolling back a transaction restores the heap ([rollback_restores_heap]), and
      its logs follow objects that move ([logs_follow_objects]).  The first theorem
      excludes three kinds of writes; [failed_cas_overwrites],
      [filled_array_keeps_data] and [float_elements_converted] show that the code
      does not restore them.
    - Decoders invert their encodings (instructions, LEB128, modified UTF-8, lock
      words), with exact sizes and no access outside them.

    ** Fuel

    Loops that are not structural take fuel computed from their input: five bytes
    for a LEB128 value, the remaining units or bytes for the sweeps, the size of
    the range plus one for the binary searches, the encoded count plus two for
    handler lists, the longest chain of classes for walks up the hierarchy, the
    number of buckets for probing and iteration in a hash set, its size and buckets
    for a sweep, the size of a gap for splitting it, 32 bits for reference
    offsets.
    Theorems show that it never runs out (totality is part of the statements).
    [ExecuteSwitchImpl] takes its fuel from outside, since bytecode may loop; its
    theorem holds for every fuel.  The work list of the data flow pass takes fuel
    too; running out is a verdict of its own ([None]) and not acceptance.

    ** Limits of the model

    Memory outside arrays is a total function from addresses to bytes, so reads
    are not faults of the model; frames, flag arrays and heap arrays are lists,
    and access outside them is an explicit failure.  Instrumentation, JIT,
    suspension and moving of objects are left out of the interpreter, as are
    invocation, allocation, field access, class tests, monitors and floating point
    (their opcodes end in [NotModelled]).  The data flow pass has no verdict on
    methods with field accesses and invocations ([FNotModelled]): they need the
    resolution of fields and methods.  Monitors are interleaved between accesses
    to shared state under sequential consistency.  The operations of the intern
    table and the writes of a transaction are sequential, as its lock and the
    compiler's use of transactions make them.  Load factors are abstract, with laws
    that hold for factors up to 0.998.  The hypotheses of a theorem
    name what other parts of the runtime supply.

    ** Not modelled

    The garbage collector, class loading and the linking of methods, the other passes and code
    generators of the compiler, JIT, debugger, tools and the file formats of
    compiled code: they need models of machine code, of the heap layout, or of the
    operating system.  The dex file verifier and the remaining handlers of the
    interpreter could be added on the same foundations. *)
From stdpp Require Export base list numbers.
From Stdlib Require Export ZArith Lia Bool.

#[export] Set Default Goal Selector "1".

(** ** Fixed-width integers

    A C++ integer is a [Z]; a conversion to a [w]-bit type is an explicit
    wrap.  Signed arithmetic wraps in two's complement, which is what the
    compilers the runtime is built with produce. *)

Declare Scope art_scope.
Delimit Scope art_scope with art.
Open Scope Z_scope.

Definition wrap_u (w z : Z) : Z := z mod 2 ^ w.
Definition wrap_s (w z : Z) : Z := (z + 2 ^ (w - 1)) mod 2 ^ w - 2 ^ (w - 1).

#[global] Arguments wrap_u : simpl never.
#[global] Arguments wrap_s : simpl never.

Definition in_u (w z : Z) : Prop := 0 <= z < 2 ^ w.
Definition in_s (w z : Z) : Prop := - 2 ^ (w - 1) <= z < 2 ^ (w - 1).

#[global] Instance in_u_dec w z : Decision (in_u w z).
Proof. unfold in_u. apply _. Defined.
#[global] Instance in_s_dec w z : Decision (in_s w z).
Proof. unfold in_s. apply _. Defined.

Notation u8 := (wrap_u 8).
Notation u16 := (wrap_u 16).
Notation u32 := (wrap_u 32).
Notation u64 := (wrap_u 64).
Notation s8 := (wrap_s 8).
Notation s16 := (wrap_s 16).
Notation s32 := (wrap_s 32).
Notation s64 := (wrap_s 64).

Infix "&&&" := Z.land (at level 40, left associativity) : art_scope.
Infix "|||" := Z.lor (at level 50, left associativity) : art_scope.
Infix "^^^" := Z.lxor (at level 49, left associativity) : art_scope.
Infix "<<" := Z.shiftl (at level 34, left associativity) : art_scope.
Infix ">>" := Z.shiftr (at level 34, left associativity) : art_scope.
Open Scope art_scope.

Create HintDb art.

(** ** Tactics *)

(** Linear arithmetic with division and remainder by constants. *)
Ltac zdiv := Z.to_euclidean_division_equations; lia.

(** Evaluates the closed powers of two of a goal and its hypotheses. *)
Ltac pows :=
  repeat match goal with
  | |- context [2 ^ ?k] =>
      let v := eval vm_compute in (2 ^ k) in
      match v with Z.pos _ => idtac | Z0 => idtac end;
      change (2 ^ k) with v
  | H : context [2 ^ ?k] |- _ =>
      let v := eval vm_compute in (2 ^ k) in
      match v with Z.pos _ => idtac | Z0 => idtac end;
      change (2 ^ k) with v in H
  end.

(** Unfolds ranges and wraps at their widths, then decides by arithmetic. *)
Ltac wrap_unfold := unfold in_u, in_s, wrap_u, wrap_s in *; pows.
Ltac wraps := wrap_unfold; zdiv.

(** Opens the conjunctions and existentials of the context. *)
Ltac split_hyps :=
  repeat match goal with
  | H : _ /\ _ |- _ => destruct H
  | H : exists _, _ |- _ => destruct H
  end.

(** Turns boolean comparisons of the context and the goal into propositions. *)
Ltac bools :=
  repeat match goal with
  | H : (_ && _)%bool = true |- _ => apply andb_true_iff in H; destruct H
  | H : (_ || _)%bool = false |- _ => apply orb_false_iff in H; destruct H
  | H : negb _ = true |- _ => apply negb_true_iff in H
  | H : negb _ = false |- _ => apply negb_false_iff in H
  | H : (_ =? _) = true |- _ => apply Z.eqb_eq in H
  | H : (_ =? _) = false |- _ => apply Z.eqb_neq in H
  | H : (_ <? _) = true |- _ => apply Z.ltb_lt in H
  | H : (_ <? _) = false |- _ => apply Z.ltb_ge in H
  | H : (_ <=? _) = true |- _ => apply Z.leb_le in H
  | H : (_ <=? _) = false |- _ => apply Z.leb_gt in H
  end.

(** Case analysis on the innermost condition of the goal. *)
Ltac case_if :=
  match goal with
  | |- context [if ?b then _ else _] =>
      lazymatch b with context [if _ then _ else _] => fail | _ => idtac end;
      let E := fresh "E" in destruct b eqn:E
  end.

(** ** Wraps *)

Lemma wrap_u_range w z : 0 <= w -> in_u w (wrap_u w z).
Proof. intros. apply Z.mod_pos_bound. lia. Qed.

Lemma wrap_s_range w z : 0 < w -> in_s w (wrap_s w z).
Proof.
  intros Hw. unfold in_s, wrap_s.
  pose proof (Z.mod_pos_bound (z + 2 ^ (w - 1)) (2 ^ w)) as Hb.
  assert (2 ^ w = 2 * 2 ^ (w - 1)) by
    (rewrite <- Z.pow_succ_r by lia; f_equal; lia).
  assert (0 < 2 ^ (w - 1)) by lia. lia.
Qed.

Lemma wrap_u_id w z : in_u w z -> wrap_u w z = z.
Proof. intros H. apply Z.mod_small. exact H. Qed.

Lemma wrap_s_id w z : 0 < w -> in_s w z -> wrap_s w z = z.
Proof.
  intros Hw H. unfold in_s, wrap_s in *.
  assert (2 ^ w = 2 * 2 ^ (w - 1)) by
    (rewrite <- Z.pow_succ_r by lia; f_equal; lia).
  rewrite Z.mod_small; lia.
Qed.

Lemma wrap_u_wrap_u w z : 0 <= w -> wrap_u w (wrap_u w z) = wrap_u w z.
Proof. intros. apply wrap_u_id, wrap_u_range. lia. Qed.

Lemma wrap_s_wrap_s w z : 0 < w -> wrap_s w (wrap_s w z) = wrap_s w z.
Proof. intros. apply wrap_s_id, wrap_s_range; lia. Qed.

Lemma wrap_s_wrap_u w z : 0 < w -> wrap_s w (wrap_u w z) = wrap_s w z.
Proof. intros. unfold wrap_s, wrap_u. rewrite Zplus_mod_idemp_l. lia. Qed.

Lemma wrap_u_wrap_s w z : 0 < w -> wrap_u w (wrap_s w z) = wrap_u w z.
Proof.
  intros. unfold wrap_s, wrap_u. rewrite Zminus_mod_idemp_l. f_equal. lia.
Qed.

(** Two integers with the same residue have the same signed value. *)
Lemma wrap_s_congr w a b :
  0 < w -> wrap_u w a = wrap_u w b -> wrap_s w a = wrap_s w b.
Proof.
  intros Hw H. rewrite <- (wrap_s_wrap_u w a), <- (wrap_s_wrap_u w b) by lia.
  by rewrite H.
Qed.

Lemma wrap_u_congr w a b :
  0 < w -> wrap_s w a = wrap_s w b -> wrap_u w a = wrap_u w b.
Proof.
  intros Hw H. rewrite <- (wrap_u_wrap_s w a), <- (wrap_u_wrap_s w b) by lia.
  by rewrite H.
Qed.

(** Wrapping an operand of a wrapped sum is invisible. *)
Lemma wrap_s_add_l w a b : 0 < w -> wrap_s w (wrap_s w a + b) = wrap_s w (a + b).
Proof.
  intros Hw. apply wrap_s_congr; [done|]. unfold wrap_u.
  rewrite <- Zplus_mod_idemp_l, (wrap_u_wrap_s w a Hw : _ mod _ = _ mod _). by rewrite Zplus_mod_idemp_l.
Qed.

Lemma wrap_s_sub_l w a b : 0 < w -> wrap_s w (wrap_s w a - b) = wrap_s w (a - b).
Proof. intros. rewrite <- !Z.add_opp_r. by apply wrap_s_add_l. Qed.

Lemma wrap_s_sub_r w a b : 0 < w -> wrap_s w (a - wrap_s w b) = wrap_s w (a - b).
Proof.
  intros Hw. apply wrap_s_congr; [done|]. unfold wrap_u.
  rewrite <- Zminus_mod_idemp_r, (wrap_u_wrap_s w b Hw : _ mod _ = _ mod _). by rewrite Zminus_mod_idemp_r.
Qed.

Lemma wrap_s_narrow w w' z : 0 < w <= w' -> wrap_s w (wrap_s w' z) = wrap_s w z.
Proof.
  intros Hw. apply wrap_s_congr; [lia|]. unfold wrap_u, wrap_s at 1.
  rewrite Zminus_mod, <- (Znumtheory.Zmod_div_mod (2 ^ w) (2 ^ w')).
  - rewrite <- Zminus_mod. f_equal. lia.
  - lia.
  - lia.
  - exists (2 ^ (w' - w)). rewrite <- Z.pow_add_r by lia. f_equal. lia.
Qed.

(** A signed wrap is the unsigned one, less [2^w] above the sign bit. *)
Lemma wrap_s_alt w z :
  0 < w ->
  wrap_s w z =
  (if wrap_u w z <? 2 ^ (w - 1) then wrap_u w z else wrap_u w z - 2 ^ w).
Proof.
  intros Hw.
  rewrite <- (wrap_s_wrap_u w z) by lia.
  pose proof (wrap_u_range w z ltac:(lia)) as Hr. unfold in_u in Hr.
  generalize dependent (wrap_u w z). intros u Hr.
  assert (2 ^ w = 2 * 2 ^ (w - 1)) as E by
    (rewrite <- Z.pow_succ_r by lia; f_equal; lia).
  unfold wrap_s. case_if; bools.
  - rewrite Z.mod_small; lia.
  - replace (u + 2 ^ (w - 1)) with (u - 2 ^ (w - 1) + 1 * 2 ^ w) by lia.
    rewrite Z.mod_add by lia. rewrite Z.mod_small; lia.
Qed.

(** ** Bit operations as arithmetic *)

Lemma land_ones_mod a k : 0 <= k -> a &&& (2 ^ k - 1) = a mod 2 ^ k.
Proof.
  intros. rewrite <- Z.land_ones by lia. f_equal. rewrite Z.ones_equiv. lia.
Qed.

Lemma land_shiftl_disjoint a b k :
  0 <= k -> 0 <= a < 2 ^ k -> a &&& (b << k) = 0.
Proof.
  intros Hk Ha. apply Z.bits_inj'. intros n Hn.
  rewrite Z.land_spec, Z.bits_0.
  destruct (Z.lt_ge_cases n k).
  - by rewrite Z.shiftl_spec_low, andb_false_r by lia.
  - rewrite <- (Z.mod_small a (2 ^ k)) by lia.
    by rewrite Z.mod_pow2_bits_high by lia.
Qed.

Lemma lor_shiftl a b k :
  0 <= k -> 0 <= a < 2 ^ k -> a ||| (b << k) = a + b * 2 ^ k.
Proof.
  intros Hk Ha. rewrite <- Z.shiftl_mul_pow2 by lia. symmetry.
  apply Z.add_nocarry_lor, land_shiftl_disjoint; lia.
Qed.

Lemma shiftl_lor a b k :
  0 <= k -> 0 <= a < 2 ^ k -> (b << k) ||| a = a + b * 2 ^ k.
Proof. intros. rewrite Z.lor_comm. by apply lor_shiftl. Qed.

(** Disjoint bit fields add up, in the form a rewriting needs: the upper
    field is a multiple of [2 ^ k]. *)
Lemma lor_multiple a b k :
  0 <= k -> 0 <= a < 2 ^ k -> b mod 2 ^ k = 0 -> a ||| b = a + b.
Proof.
  intros Hk Ha Hb.
  assert (b = (b / 2 ^ k) << k) as E.
  { rewrite Z.shiftl_mul_pow2 by lia. pose proof (Z.div_mod b (2 ^ k)). lia. }
  rewrite E at 1. rewrite lor_shiftl by lia.
  rewrite Z.shiftl_mul_pow2 in E by lia. lia.
Qed.

Lemma lor_range w a b : 0 <= w -> in_u w a -> in_u w b -> in_u w (a ||| b).
Proof.
  unfold in_u. intros Hw Ha Hb.
  assert (0 <= a ||| b) by (apply Z.lor_nonneg; lia).
  split; [done|].
  destruct (Z.eq_dec (a ||| b) 0) as [->|]; [lia|].
  apply Z.log2_lt_pow2; [lia|]. rewrite Z.log2_lor by lia.
  destruct (Z.eq_dec a 0) as [->|]; destruct (Z.eq_dec b 0) as [->|];
    simpl in *; try lia;
    apply Z.max_lub_lt; try (apply Z.log2_lt_pow2; lia); try done;
    change (Z.log2 0) with 0;
    destruct (Z.eq_dec w 0) as [->|]; change (2 ^ 0) with 1 in *; lia.
Qed.

Lemma land_range w a b : 0 <= w -> in_u w a -> 0 <= b -> in_u w (a &&& b).
Proof.
  unfold in_u. intros Hw Ha Hb.
  assert (0 <= a &&& b) by (apply Z.land_nonneg; lia).
  split; [done|].
  assert (a &&& b <= a); [|lia].
  assert (a = (a &&& b) + Z.ldiff a b) as E.
  { rewrite Z.add_nocarry_lor.
    - apply Z.bits_inj'. intros n Hn.
      rewrite Z.lor_spec, Z.land_spec, Z.ldiff_spec.
      by destruct (Z.testbit a n), (Z.testbit b n).
    - apply Z.bits_inj'. intros n Hn.
      rewrite !Z.land_spec, Z.ldiff_spec, Z.bits_0.
      by destruct (Z.testbit a n), (Z.testbit b n). }
  assert (0 <= Z.ldiff a b) by (apply Z.ldiff_nonneg; lia). lia.
Qed.

(** The bits of a wrapped word. *)
Lemma testbit_high_u w x i : in_u w x -> 0 <= w <= i -> Z.testbit x i = false.
Proof.
  intros Hx Hi. rewrite <- (wrap_u_id w x Hx). apply Z.mod_pow2_bits_high. lia.
Qed.

Lemma testbit_low_u w x i : 0 <= i < w -> Z.testbit (wrap_u w x) i = Z.testbit x i.
Proof. intros. apply Z.mod_pow2_bits_low. lia. Qed.

Lemma testbit_low_s w x i : 0 <= i < w -> Z.testbit (wrap_s w x) i = Z.testbit x i.
Proof.
  intros. rewrite <- (testbit_low_u w (wrap_s w x)) by lia.
  by rewrite wrap_u_wrap_s, testbit_low_u by lia.
Qed.

(** Wrapping an operand of [lor] at the width of the result is invisible. *)
Lemma wrap_u_lor_s w x y : 0 < w -> wrap_u w (x ||| wrap_s w y) = wrap_u w (x ||| y).
Proof.
  intros Hw. apply Z.bits_inj'. intros i Hi. destruct (Z.lt_ge_cases i w).
  - by rewrite !testbit_low_u, !Z.lor_spec, testbit_low_s by lia.
  - by rewrite !(testbit_high_u w) by (try apply wrap_u_range; lia).
Qed.

(** A single-bit test as arithmetic. *)
Lemma land_pow2_test x k : 0 <= k -> (x &&& 2 ^ k =? 0) = ((x / 2 ^ k) mod 2 =? 0).
Proof.
  intros Hk. rewrite <- Z.shiftr_div_pow2, <- Z.bit0_mod, Z.shiftr_spec, Z.add_0_l by lia.
  assert (x &&& 2 ^ k = (if Z.testbit x k then 2 ^ k else 0)) as ->.
  { apply Z.bits_inj'. intros i Hi. rewrite Z.land_spec, Z.pow2_bits_eqb by lia.
    destruct (Z.eqb_spec k i) as [<-|Hne]; rewrite ?andb_true_r, ?andb_false_r.
    - destruct (Z.testbit x k); [by rewrite Z.pow2_bits_true|by rewrite Z.bits_0].
    - destruct (Z.testbit x k); [by rewrite Z.pow2_bits_false|by rewrite Z.bits_0]. }
  destruct (Z.testbit x k); simpl; [apply Z.eqb_neq; lia|done].
Qed.

(** Rewrites the bit operations by constants into arithmetic. *)
Ltac bits_arith :=
  repeat match goal with
  | |- context [?a >> ?k] => rewrite (Z.shiftr_div_pow2 a k) by lia
  | |- context [?a << ?k] => rewrite (Z.shiftl_mul_pow2 a k) by lia
  end; pows.

#[export] Hint Resolve wrap_u_range wrap_s_range lor_range land_range : art.
#[export] Hint Rewrite Z.shiftr_spec Z.shiftl_spec Z.land_spec Z.lor_spec
  Z.lxor_spec Z.lnot_spec using lia : art_bits.
