(* ===== verification/BitUtils.v ===== *)
(** * Bit utilities ([runtime/base/bit_utils.h])

    The constexpr helpers the rest of the runtime is written with.  A template
    parameter [T] is its width [w] (and, where the code distinguishes it, its
    signedness); the compiler builtins are defined from their documentation. *)
From S2P Require Import Prelude.

(** ** Compiler builtins *)

(** [__builtin_clz] / [__builtin_clzll]: leading zeros of a non-zero word. *)
Definition builtin_clz (w x : Z) : Z := w - 1 - Z.log2 x.

(** [__builtin_ctz] / [__builtin_ctzll]: trailing zeros of a non-zero word. *)
Fixpoint pos_ctz (p : positive) : Z :=
  match p with
  | xO p' => 1 + pos_ctz p'
  | _ => 0
  end.
Definition builtin_ctz (x : Z) : Z :=
  match x with Z.pos p | Z.neg p => pos_ctz p | Z0 => 0 end.

(** [__builtin_popcount] / [__builtin_popcountll]. *)
Fixpoint pos_popcount (p : positive) : Z :=
  match p with
  | xH => 1
  | xO p' => pos_popcount p'
  | xI p' => 1 + pos_popcount p'
  end.
Definition builtin_popcount (x : Z) : Z :=
  match x with Z.pos p => pos_popcount p | _ => 0 end.

(** [__builtin_bswap16/32/64]: the [n] bytes of [x] in reverse order. *)
Fixpoint builtin_bswap (n : nat) (x : Z) : Z :=
  match n with
  | O => 0
  | S n' => ((x &&& 255) << (8 * Z.of_nat n')) ||| builtin_bswap n' (x >> 8)
  end.

(** ** Counting bits *)

(** Anything that is not four bytes wide goes to the 64-bit builtin. *)
Definition CLZ (w x : Z) : Z :=
  if w =? 32 then builtin_clz 32 x else builtin_clz 64 x.
Definition JAVASTYLE_CLZ (w x : Z) : Z := if x =? 0 then w else CLZ w (wrap_u w x).
Definition CTZ (w x : Z) : Z := builtin_ctz x.
Definition JAVASTYLE_CTZ (w x : Z) : Z := if x =? 0 then w else CTZ w (wrap_u w x).
Definition POPCOUNT (w x : Z) : Z :=
  if w =? 32 then builtin_popcount (u32 x) else builtin_popcount (u64 x).
Definition BSWAP (w x : Z) : Z :=
  if w =? 16 then builtin_bswap 2 x
  else if w =? 32 then builtin_bswap 4 x
  else builtin_bswap 8 x.
Definition MostSignificantBit (w value : Z) : Z :=
  if value =? 0 then -1 else w - 1 - CLZ w value.
Definition LeastSignificantBit (w value : Z) : Z :=
  if value =? 0 then -1 else CTZ w value.
Definition MinimumBitsToStore (w value : Z) : Z := MostSignificantBit w value + 1.

(** ** Powers of two and rounding *)

Definition RoundUpToPowerOfTwo (w x : Z) : Z :=
  if x <? 2 then x else wrap_u w (1 << (w - CLZ w (wrap_u w (x - 1)))).
Definition IsPowerOfTwo (x : Z) : bool := x &&& (x - 1) =? 0.
Definition WhichPowerOf2 (w x : Z) : Z := CTZ w x.
Definition RoundDown (w x n : Z) : Z := wrap_u w (x &&& wrap_u w (- n)).
Definition RoundUp (w x n : Z) : Z := RoundDown w (wrap_u w (x + n - 1)) n.
Definition AlignDown (x n : Z) : Z := RoundDown 64 x n.
Definition AlignUp (x n : Z) : Z := RoundUp 64 x n.
Definition IsAligned (n x : Z) : bool := x &&& (n - 1) =? 0.
Definition IsAlignedParam (x n : Z) : bool := x &&& (n - 1) =? 0.

(** ** Halves of words *)

Definition Low16Bits (value : Z) : Z := u16 value.
Definition High16Bits (value : Z) : Z := u16 (value >> 16).
Definition Low32Bits (value : Z) : Z := u32 value.
Definition High32Bits (value : Z) : Z := u32 (value >> 32).

(** ** Ranges *)

Definition GetIntLimit (w bits : Z) : Z := wrap_u w (1 << (bits - 1)).
Definition IsInt (w kBits value : Z) : bool :=
  if kBits =? w then true
  else (- GetIntLimit w kBits <=? value) && (value <? GetIntLimit w kBits).
Definition IsUint (w kBits value : Z) : bool :=
  (0 <=? value) &&
  ((kBits =? w) ||
   (wrap_u w value <=? wrap_u w (GetIntLimit w kBits * 2 - 1))).
Definition IsAbsoluteUint (w kBits value : Z) : bool :=
  if kBits =? w then true
  else IsUint w kBits
         (if value <? 0 then wrap_u w (wrap_u w (-1 - value) + 1) else wrap_u w value).
Definition MaxUint (w bits : Z) : Z :=
  if bits =? w then 2 ^ w - 1 else wrap_u w (wrap_u w (u64 (1 << bits)) - 1).
Definition MaxInt (w bits : Z) : Z :=
  if bits =? w then 2 ^ (w - 1) - 1
  else if bits =? 1 then 0 else wrap_s w (MaxUint w (bits - 1)).
Definition MinInt (w bits : Z) : Z :=
  if bits =? w then - 2 ^ (w - 1)
  else if bits =? 1 then -1 else -1 - MaxInt w bits.

(** ** Bit tricks *)

Definition LowestOneBitValue (w opnd : Z) : Z := wrap_s w (opnd &&& wrap_s w (- opnd)).
Definition HighestOneBitValue (w opnd : Z) : Z :=
  if opnd =? 0 then 0
  else let bit_position := w - (CLZ w (wrap_u w opnd) + 1) in
       wrap_s w (u64 (1 << bit_position)).
Definition Rot (w : Z) (left : bool) (opnd distance : Z) : Z :=
  let mask := w - 1 in
  let unsigned_right_shift := if left then (- distance) &&& mask else distance &&& mask in
  let signed_left_shift := if left then distance &&& mask else (- distance) &&& mask in
  wrap_s w ((wrap_u w opnd >> unsigned_right_shift)
            ||| wrap_u w (opnd << signed_left_shift)).

Definition ReverseBits32 (opnd : Z) : Z :=
  let opnd := ((opnd >> 1) &&& 0x55555555) ||| u32 ((opnd &&& 0x55555555) << 1) in
  let opnd := ((opnd >> 2) &&& 0x33333333) ||| u32 ((opnd &&& 0x33333333) << 2) in
  let opnd := ((opnd >> 4) &&& 0x0F0F0F0F) ||| u32 ((opnd &&& 0x0F0F0F0F) << 4) in
  let opnd := ((opnd >> 8) &&& 0x00FF00FF) ||| u32 ((opnd &&& 0x00FF00FF) << 8) in
  (opnd >> 16) ||| u32 (opnd << 16).

Definition ReverseBits64 (opnd : Z) : Z :=
  let opnd := u64 ((opnd &&& 0x5555555555555555) << 1) ||| ((opnd >> 1) &&& 0x5555555555555555) in
  let opnd := u64 ((opnd &&& 0x3333333333333333) << 2) ||| ((opnd >> 2) &&& 0x3333333333333333) in
  let opnd := u64 ((opnd &&& 0x0f0f0f0f0f0f0f0f) << 4) ||| ((opnd >> 4) &&& 0x0f0f0f0f0f0f0f0f) in
  let opnd := u64 ((opnd &&& 0x00ff00ff00ff00ff) << 8) ||| ((opnd >> 8) &&& 0x00ff00ff00ff00ff) in
  u64 (opnd << 48) ||| u64 ((opnd &&& 0xffff0000) << 16)
    ||| ((opnd >> 16) &&& 0xffff0000) ||| (opnd >> 48).

(** ** Counting lemmas *)

Lemma CLZ32_spec x : 0 < x -> CLZ 32 x = 31 - Z.log2 x.
Proof. intros. unfold CLZ, builtin_clz. simpl. lia. Qed.

Lemma CLZ64_spec x : 0 < x -> CLZ 64 x = 63 - Z.log2 x.
Proof. intros. unfold CLZ, builtin_clz. simpl. lia. Qed.

Lemma log2_bound x w : 0 < x < 2 ^ w -> 0 <= Z.log2 x < w.
Proof.
  intros. split; [apply Z.log2_nonneg|].
  apply Z.log2_lt_pow2; lia.
Qed.

(** The trailing-zero count splits a word into an odd part and a power of two. *)
Lemma pos_ctz_spec p : exists q, Z.pos p = (2 * q + 1) * 2 ^ pos_ctz p /\ 0 <= q /\ 0 <= pos_ctz p.
Proof.
  induction p as [p IH|p IH|]; simpl pos_ctz.
  - exists (Z.pos p). change (2 ^ 0) with 1. lia.
  - destruct IH as (q & E & Hq & Hc). exists q. split; [|lia].
    rewrite Z.pow_add_r, Z.pow_1_r by lia. lia.
  - exists 0. change (2 ^ 0) with 1. lia.
Qed.

Lemma builtin_ctz_spec x :
  x <> 0 -> exists q, x = (2 * q + 1) * 2 ^ builtin_ctz x /\ 0 <= builtin_ctz x.
Proof.
  intros Hx. destruct x as [|p|p]; simpl; [lia| |];
    destruct (pos_ctz_spec p) as (q & E & Hq & Hc).
  - exists q. lia.
  - exists (- q - 1). split; [|lia]. rewrite <- Pos2Z.opp_pos, E. lia.
Qed.

Lemma builtin_ctz_pow2 k : 0 <= k -> builtin_ctz (2 ^ k) = k.
Proof.
  intros Hk. destruct (builtin_ctz_spec (2 ^ k)) as (q & E & Hc); [lia|].
  set (c := builtin_ctz (2 ^ k)) in *.
  destruct (Z.lt_trichotomy c k) as [H|[H|H]]; [exfalso| done |exfalso].
  - replace k with (c + 1 + (k - c - 1)) in E by lia.
    rewrite !Z.pow_add_r, Z.pow_1_r in E by lia.
    assert (2 * 2 ^ (k - c - 1) = 2 * q + 1); [|lia].
    apply (Z.mul_cancel_r _ _ (2 ^ c)); lia.
  - replace c with (k + 1 + (c - k - 1)) in E by lia.
    rewrite !Z.pow_add_r, Z.pow_1_r in E by lia.
    assert (0 < 2 ^ (c - k - 1)) by lia. assert (0 < 2 ^ k) by lia.
    assert (1 = (2 * q + 1) * (2 * 2 ^ (c - k - 1))); [|lia].
    apply (Z.mul_cancel_r _ _ (2 ^ k)); lia.
Qed.

(** ** Rounding *)

Lemma land_neg_pow2 w x k :
  0 <= k <= w -> in_u w x -> x &&& wrap_u w (- 2 ^ k) = x - x mod 2 ^ k.
Proof.
  intros Hk Hx.
  assert (x - x mod 2 ^ k = (x >> k) << k) as ->.
  { rewrite Z.shiftl_mul_pow2, Z.shiftr_div_pow2 by lia.
    pose proof (Z.div_mod x (2 ^ k)). lia. }
  apply Z.bits_inj'. intros i Hi. unfold wrap_u.
  rewrite Z.land_spec.
  replace (- 2 ^ k) with ((-1) << k) by (rewrite Z.shiftl_mul_pow2; lia).
  destruct (Z.lt_ge_cases i w).
  - rewrite Z.mod_pow2_bits_low by lia.
    rewrite !Z.shiftl_spec by lia. destruct (Z.lt_ge_cases i k).
    + by rewrite !(Z.testbit_neg_r _ (i - k)), andb_false_r by lia.
    + rewrite Z.shiftr_spec, Z.bits_m1, andb_true_r by lia. f_equal. lia.
  - rewrite Z.mod_pow2_bits_high, andb_false_r by lia.
    rewrite Z.shiftl_spec, Z.shiftr_spec by lia.
    replace (i - k + k) with i by lia.
    rewrite <- (wrap_u_id w x Hx). unfold wrap_u. symmetry.
    apply Z.mod_pow2_bits_high. lia.
Qed.

Lemma RoundDown_spec w x k :
  0 <= k <= w -> in_u w x -> RoundDown w x (2 ^ k) = x - x mod 2 ^ k.
Proof.
  intros Hk Hx. unfold RoundDown. rewrite land_neg_pow2 by done.
  apply wrap_u_id. unfold in_u in *.
  pose proof (Z.mod_pos_bound x (2 ^ k)).
  pose proof (Z.mod_le x (2 ^ k)). lia.
Qed.

Lemma RoundUp_eq w x k :
  0 <= k <= w -> 0 <= x -> in_u w (x + 2 ^ k - 1) ->
  RoundUp w x (2 ^ k) = (x + 2 ^ k - 1) - (x + 2 ^ k - 1) mod 2 ^ k.
Proof. intros. unfold RoundUp. by rewrite wrap_u_id, RoundDown_spec. Qed.

Lemma IsAligned_spec k x : 0 <= k -> IsAligned (2 ^ k) x = (x mod 2 ^ k =? 0).
Proof. intros. unfold IsAligned. by rewrite land_ones_mod. Qed.

(** [RoundUp] with a power of two [n] returns the least multiple of [n]
    that is not below [x], whenever that multiple's computation does not
    overflow the type; a value the alignment test accepts is returned as is. *)
Theorem RoundUp_least w x k :
  0 <= k <= w -> 0 <= x -> in_u w (x + 2 ^ k - 1) ->
  let r := RoundUp w x (2 ^ k) in
  IsAligned (2 ^ k) r = true /\ x <= r /\
  (forall y, IsAligned (2 ^ k) y = true -> x <= y -> r <= y) /\
  (r = x <-> IsAligned (2 ^ k) x = true).
Proof.
  intros Hk Hx Ho r. subst r. rewrite RoundUp_eq by done.
  setoid_rewrite IsAligned_spec; [|lia..]. setoid_rewrite Z.eqb_eq.
  set (n := 2 ^ k) in *. assert (0 < n) by (unfold n; lia). clearbody n.
  pose proof (Z.div_mod (x + n - 1) n ltac:(lia)) as E.
  pose proof (Z.mod_pos_bound (x + n - 1) n ltac:(lia)) as B.
  set (q := (x + n - 1) / n) in *. set (m := (x + n - 1) mod n) in *.
  replace (x + n - 1 - m) with (q * n) by lia.
  assert (forall y, y mod n = 0 -> x <= y -> q * n <= y) as Hl.
  { intros y Hy Hxy. pose proof (Z.div_mod y n ltac:(lia)) as Ey.
    assert (n * q < n * (y / n + 1)) as Hq by lia.
    apply Z.mul_lt_mono_pos_l in Hq; [|done].
    assert (n * q <= n * (y / n)) by (apply Z.mul_le_mono_nonneg_l; lia). lia. }
  repeat split; try done.
  - apply Z.mod_mul. lia.
  - lia.
  - intros E0. rewrite <- E0. apply Z.mod_mul. lia.
  - intros Hm. specialize (Hl x Hm). lia.
Qed.

(** The runtime rounds the 13 bytes of an object up to the 8-byte grid. *)
Lemma RoundUp_least_witness :
  RoundUp 64 13 8 = 16 /\ IsAligned 8 (RoundUp 64 13 8) = true.
Proof.
  split; [reflexivity|].
  refine (proj1 (RoundUp_least 64 13 3 _ _ _)); unfold in_u; lia.
Defined.

(** ** Powers of two *)

Lemma IsPowerOfTwo_pow2 k : 0 <= k -> IsPowerOfTwo (2 ^ k) = true.
Proof.
  intros. unfold IsPowerOfTwo. rewrite land_ones_mod by lia.
  by rewrite Z.mod_same by lia.
Qed.

Lemma IsPowerOfTwo_spec x :
  0 < x -> IsPowerOfTwo x = true -> x = 2 ^ Z.log2 x.
Proof.
  unfold IsPowerOfTwo. intros Hx H. apply Z.eqb_eq in H.
  pose proof (Z.log2_spec x Hx) as [Hl Hu].
  destruct (Z.eq_dec x (2 ^ Z.log2 x)) as [|Hn]; [done|exfalso].
  assert (0 < 2 ^ Z.log2 x) by (apply Z.pow_pos_nonneg; [lia|apply Z.log2_nonneg]).
  assert (Z.testbit (x &&& (x - 1)) (Z.log2 x) = true) as Hb.
  { rewrite Z.land_spec, Z.bit_log2 by lia. simpl.
    replace (Z.log2 x) with (Z.log2 (x - 1)); [apply Z.bit_log2; lia|].
    apply Z.log2_unique; [apply Z.log2_nonneg|lia]. }
  by rewrite H, Z.bits_0 in Hb.
Qed.

Lemma WhichPowerOf2_spec w x :
  0 < x -> IsPowerOfTwo x = true -> x = 2 ^ WhichPowerOf2 w x.
Proof.
  intros Hx H. apply IsPowerOfTwo_spec in H; [|done].
  unfold WhichPowerOf2, CTZ. rewrite H at 2. rewrite builtin_ctz_pow2; [done|].
  apply Z.log2_nonneg.
Qed.

(** [RoundUpToPowerOfTwo] of a 32- or 64-bit [x] with
    [1 <= x <= 2^(w-1)] is the least power of two not below [x]: it is a power
    of two by [IsPowerOfTwo], it is at least [x] and below [2 * x]. *)
Theorem RoundUpToPowerOfTwo_least w x :
  w = 32 \/ w = 64 -> 1 <= x <= 2 ^ (w - 1) ->
  let r := RoundUpToPowerOfTwo w x in
  IsPowerOfTwo r = true /\ x <= r < 2 * x /\ r = 2 ^ WhichPowerOf2 w r.
Proof.
  intros Hw Hx r.
  assert (exists k, 0 <= k /\ r = 2 ^ k /\ x <= 2 ^ k < 2 * x) as (k & Hk & -> & Hr).
  { unfold r, RoundUpToPowerOfTwo. case_if; bools.
    - exists 0. change (2 ^ 0) with 1. lia.
    - assert (2 ^ w = 2 * 2 ^ (w - 1)) as Ew by (destruct Hw as [-> | ->]; reflexivity).
      rewrite (wrap_u_id w (x - 1)) by (unfold in_u; lia).
      assert (w - CLZ w (x - 1) = Z.log2 (x - 1) + 1) as ->.
      { destruct Hw as [-> | ->]; [rewrite CLZ32_spec|rewrite CLZ64_spec]; lia. }
      pose proof (Z.log2_spec (x - 1) ltac:(lia)) as [Hl Hu].
      assert (0 < 2 ^ Z.log2 (x - 1)) by (apply Z.pow_pos_nonneg; [lia|apply Z.log2_nonneg]).
      assert (Z.log2 (x - 1) < w - 1) by (apply Z.log2_lt_pow2; lia).
      pose proof (Z.log2_nonneg (x - 1)).
      rewrite <- Z.add_1_r in Hu.
      assert (2 ^ (Z.log2 (x - 1) + 1) = 2 * 2 ^ Z.log2 (x - 1)) as E2
        by (rewrite Z.pow_add_r by lia; lia).
      assert (2 ^ (Z.log2 (x - 1) + 1) < 2 ^ w) by (apply Z.pow_lt_mono_r; lia).
      exists (Z.log2 (x - 1) + 1).
      rewrite Z.shiftl_1_l, wrap_u_id by (unfold in_u; lia). lia. }
  split; [by apply IsPowerOfTwo_pow2|]. split; [done|].
  unfold WhichPowerOf2, CTZ. by rewrite builtin_ctz_pow2.
Qed.

Lemma RoundUpToPowerOfTwo_least_witness :
  RoundUpToPowerOfTwo 32 1000 = 1024 /\
  IsPowerOfTwo (RoundUpToPowerOfTwo 32 1000) = true.
Proof.
  split; [reflexivity|].
  refine (proj1 (RoundUpToPowerOfTwo_least 32 1000 _ _)); [by left|lia].
Defined.

(** ** Ranges *)

Lemma GetIntLimit_spec w bits : 0 < bits <= w -> GetIntLimit w bits = 2 ^ (bits - 1).
Proof.
  intros. unfold GetIntLimit. rewrite Z.shiftl_1_l. apply wrap_u_id. unfold in_u.
  assert (2 ^ (bits - 1) < 2 ^ w) by (apply Z.pow_lt_mono_r; lia). lia.
Qed.

Lemma IsInt_spec w kBits value :
  0 < kBits <= w -> in_s w value -> IsInt w kBits value = true <-> in_s kBits value.
Proof.
  intros Hk Hv. unfold IsInt. case_if; bools; [by subst|].
  rewrite GetIntLimit_spec by lia. rewrite andb_true_iff, Z.leb_le, Z.ltb_lt.
  unfold in_s. lia.
Qed.

(** ** Reversal *)

(** One bit of the masked exchange that both reversal routines iterate. *)
Lemma swap_bits_spec w s m x i :
  0 <= i < w -> 0 < s ->
  Z.testbit (((x >> s) &&& m) ||| wrap_u w ((x &&& m) << s)) i =
  (Z.testbit m i && Z.testbit x (i + s))
  || (Z.testbit m (i - s) && Z.testbit x (i - s)).
Proof.
  intros Hi Hs. unfold wrap_u.
  rewrite Z.lor_spec, Z.land_spec, Z.shiftr_spec, Z.mod_pow2_bits_low by lia.
  rewrite Z.shiftl_spec, Z.land_spec by lia.
  by rewrite (andb_comm (Z.testbit x (i + s))), (andb_comm (Z.testbit x (i - s))).
Qed.

(** Splits a bounded index into its values. *)
Lemma index_split i n : 0 <= i < Z.of_nat (S n) -> i = Z.of_nat n \/ 0 <= i < Z.of_nat n.
Proof. lia. Qed.

Ltac each_index H n :=
  lazymatch n with
  | O => exfalso; simpl in H; lia
  | S ?n' =>
      apply (index_split _ n') in H; destruct H as [-> | H]; [|each_index H n']
  end.

(** Evaluates the bits of the constant masks and the index arithmetic. *)
Ltac mask_bits :=
  repeat match goal with
  | |- context [Z.testbit (Z.pos ?m) ?i] =>
      let b := eval vm_compute in (Z.testbit (Z.pos m) i) in
      change (Z.testbit (Z.pos m) i) with b
  end;
  repeat match goal with
  | |- context [Z.testbit ?x (?a + ?b)] =>
      let v := eval vm_compute in (a + b) in change (Z.testbit x (a + b)) with (Z.testbit x v)
  | |- context [Z.testbit ?x (?a - ?b)] =>
      let v := eval vm_compute in (a - b) in change (Z.testbit x (a - b)) with (Z.testbit x v)
  end;
  cbn [andb orb]; rewrite ?orb_false_r, ?andb_false_r, ?andb_true_r, ?orb_false_r.

Lemma swap_bits_high w s m x i :
  0 <= w <= i -> in_u w m ->
  Z.testbit (((x >> s) &&& m) ||| wrap_u w ((x &&& m) << s)) i = false.
Proof.
  intros Hi Hm. rewrite Z.lor_spec, Z.land_spec, (testbit_high_u w m) by done.
  by rewrite andb_false_r, (testbit_high_u w) by (try apply wrap_u_range; lia).
Qed.

Lemma ReverseBits32_bit x i :
  in_u 32 x -> 0 <= i < 32 -> Z.testbit (ReverseBits32 x) i = Z.testbit x (31 - i).
Proof.
  intros Hx Hi. unfold ReverseBits32. cbv zeta. change 32 with (Z.of_nat 32) in Hi.
  rewrite Z.lor_spec, Z.shiftr_spec by lia.
  rewrite (testbit_low_u 32), Z.shiftl_spec by lia.
  each_index Hi 32%nat; mask_bits;
    rewrite ?(Z.testbit_neg_r _ (Z.neg _)) by lia;
    rewrite ?swap_bits_high by (unfold in_u; lia);
    repeat (rewrite swap_bits_spec by lia; mask_bits); reflexivity.
Qed.

(** The same two facts with the operands in the 64-bit routine's order. *)
Lemma swap_bits_spec' w s m x i :
  0 <= i < w -> 0 < s ->
  Z.testbit (wrap_u w ((x &&& m) << s) ||| ((x >> s) &&& m)) i =
  (Z.testbit m i && Z.testbit x (i + s))
  || (Z.testbit m (i - s) && Z.testbit x (i - s)).
Proof. intros. rewrite Z.lor_comm. by apply swap_bits_spec. Qed.

Lemma swap_bits_high' w s m x i :
  0 <= w <= i -> in_u w m ->
  Z.testbit (wrap_u w ((x &&& m) << s) ||| ((x >> s) &&& m)) i = false.
Proof. intros. rewrite Z.lor_comm. by apply swap_bits_high. Qed.

(** The last step of the 64-bit routine exchanges four half-words. *)
Lemma exchange_halves_spec m y i :
  0 <= i < 64 ->
  Z.testbit (u64 (y << 48) ||| u64 ((y &&& m) << 16) ||| ((y >> 16) &&& m) ||| (y >> 48)) i =
  Z.testbit y (i - 48) || (Z.testbit y (i - 16) && Z.testbit m (i - 16))
  || (Z.testbit y (i + 16) && Z.testbit m i) || Z.testbit y (i + 48).
Proof.
  intros Hi. rewrite !Z.lor_spec, !testbit_low_u by lia.
  by rewrite !Z.shiftl_spec, !Z.land_spec, !Z.shiftr_spec by lia.
Qed.

Lemma ReverseBits64_bit x i :
  in_u 64 x -> 0 <= i < 64 -> Z.testbit (ReverseBits64 x) i = Z.testbit x (63 - i).
Proof.
  intros Hx Hi. unfold ReverseBits64. cbv zeta. rewrite exchange_halves_spec by lia.
  change 64 with (Z.of_nat 64) in Hi.
  each_index Hi 64%nat; mask_bits;
    rewrite ?(Z.testbit_neg_r _ (Z.neg _)) by lia;
    repeat first
      [ rewrite swap_bits_spec' by lia; mask_bits
      | rewrite swap_bits_high' by (unfold in_u; lia); mask_bits ];
    reflexivity.
Qed.

(** [ReverseBits32] and [ReverseBits64] reverse the bits of a word: bit
    [i] of the result is bit [w - 1 - i] of the operand, for every bit of
    every operand. *)
Theorem ReverseBits_correct x :
  (in_u 32 x -> forall i, 0 <= i < 32 ->
     Z.testbit (ReverseBits32 x) i = Z.testbit x (31 - i)) /\
  (in_u 64 x -> forall i, 0 <= i < 64 ->
     Z.testbit (ReverseBits64 x) i = Z.testbit x (63 - i)).
Proof. split; intros; [by apply ReverseBits32_bit|by apply ReverseBits64_bit]. Qed.

Lemma ReverseBits_correct_witness :
  ReverseBits32 1 = 2 ^ 31 /\ Z.testbit (ReverseBits64 8) 60 = true.
Proof.
  split; [reflexivity|].
  rewrite (proj2 (ReverseBits_correct 8) ltac:(unfold in_u; lia) 60 ltac:(lia)).
  reflexivity.
Defined.

(** ** Rotation *)

Lemma rot_distance_masks w d :
  w = 32 \/ w = 64 ->
  d &&& (w - 1) = d mod w /\ (- d) &&& (w - 1) = (- d) mod w.
Proof.
  intros [-> | ->]; split;
    [ apply (land_ones_mod _ 5) | apply (land_ones_mod _ 5)
    | apply (land_ones_mod _ 6) | apply (land_ones_mod _ 6) ]; lia.
Qed.

Lemma rot_bits w x r i :
  w = 32 \/ w = 64 -> 0 <= i < w ->
  Z.testbit ((wrap_u w x >> (r mod w)) ||| wrap_u w (x << ((- r) mod w))) i =
  Z.testbit x ((i + r) mod w).
Proof.
  intros Hw Hi. assert (0 < w) by lia.
  pose proof (Z.mod_pos_bound r w ltac:(lia)) as Hr.
  pose proof (Z.mod_pos_bound (- r) w ltac:(lia)) as Hl.
  rewrite Z.lor_spec, Z.shiftr_spec, (testbit_low_u w (_ << _)), Z.shiftl_spec by lia.
  rewrite <- Zplus_mod_idemp_r.
  destruct (Z.eq_dec (r mod w) 0) as [E|E].
  - rewrite (Z.mod_opp_l_z r w ltac:(lia) E), E, Z.add_0_r, Z.sub_0_r.
    by rewrite testbit_low_u, Z.mod_small, orb_diag by lia.
  - rewrite Z.mod_opp_l_nz by lia. destruct (Z.lt_ge_cases (i + r mod w) w).
    + rewrite testbit_low_u, (Z.mod_small (i + _)) by lia.
      by rewrite (Z.testbit_neg_r x (i - _)), orb_false_r by lia.
    + rewrite (testbit_high_u w) by (try apply wrap_u_range; lia). simpl. f_equal.
      replace (i + r mod w) with (i + r mod w - w + 1 * w) by lia.
      rewrite Z.mod_add, (Z.mod_small (_ - w)) by lia. lia.
Qed.

(** [Rot] rotates: bit [i] of the result is bit [(i + d) mod w] of the
    operand for a right rotation by [d] and bit [(i - d) mod w] for a left one,
    for every (also negative or oversized) distance, distance 0 included. *)
Theorem Rot_correct w left opnd distance i :
  w = 32 \/ w = 64 -> 0 <= i < w ->
  Z.testbit (Rot w left opnd distance) i =
  Z.testbit opnd ((i + (if left then - distance else distance)) mod w).
Proof.
  intros Hw Hi. unfold Rot. rewrite testbit_low_s by lia.
  destruct (rot_distance_masks w distance Hw) as [E1 E2].
  destruct left; rewrite E1, E2; [|by apply rot_bits].
  rewrite <- (Z.opp_involutive distance) at 2. by apply rot_bits.
Qed.

Lemma Rot_correct_witness :
  Rot 32 false 1 1 = - 2 ^ 31 /\ Z.testbit (Rot 32 true 1 35) 3 = true.
Proof.
  split; [reflexivity|].
  rewrite (Rot_correct 32 true 1 35 3 ltac:(by left) ltac:(lia)). reflexivity.
Defined.
