(* ===== verification/Leb128.v ===== *)
(** * LEB128 integers ([runtime/leb128.h])

    The variable-length integers of the DEX and OAT formats.  A pointer is an
    address into a byte memory [mem]; the decoders thread the pointer and the
    encoders thread the memory, as the code does through [*data] and [dest].
    The [std::vector] encoders are the same loops over a list of bytes. *)
From S2P Require Import Prelude BitUtils.

(** ** Byte memory *)

Definition mem := Z -> Z.
Definition store (m : mem) (a v : Z) : mem := fun x => if x =? a then v else m x.
Definition bytes_ok (m : mem) : Prop := forall a, in_u 8 (m a).

(** ** Decoding *)

Definition DecodeUnsignedLeb128 (m : mem) (data : Z) : Z * Z :=
  let ptr := data in
  let result := m ptr in let ptr := ptr + 1 in
  if 0x7f <? result then
    let cur := m ptr in let ptr := ptr + 1 in
    let result := (result &&& 0x7f) ||| ((cur &&& 0x7f) << 7) in
    if 0x7f <? cur then
      let cur := m ptr in let ptr := ptr + 1 in
      let result := result ||| ((cur &&& 0x7f) << 14) in
      if 0x7f <? cur then
        let cur := m ptr in let ptr := ptr + 1 in
        let result := result ||| ((cur &&& 0x7f) << 21) in
        if 0x7f <? cur then
          let cur := m ptr in let ptr := ptr + 1 in
          let result := result ||| s32 (cur << 28) in
          (u32 result, ptr)
        else (u32 result, ptr)
      else (u32 result, ptr)
    else (u32 result, ptr)
  else (u32 result, ptr).

(** [None] is the [false] return: neither [*data] nor [*out] is written. *)
Definition DecodeUnsignedLeb128Checked (m : mem) (data end_ : Z) : option (Z * Z) :=
  let ptr := data in
  if end_ <=? ptr then None else
  let result := m ptr in let ptr := ptr + 1 in
  if 0x7f <? result then
    if end_ <=? ptr then None else
    let cur := m ptr in let ptr := ptr + 1 in
    let result := (result &&& 0x7f) ||| ((cur &&& 0x7f) << 7) in
    if 0x7f <? cur then
      if end_ <=? ptr then None else
      let cur := m ptr in let ptr := ptr + 1 in
      let result := result ||| ((cur &&& 0x7f) << 14) in
      if 0x7f <? cur then
        if end_ <=? ptr then None else
        let cur := m ptr in let ptr := ptr + 1 in
        let result := result ||| ((cur &&& 0x7f) << 21) in
        if 0x7f <? cur then
          if end_ <=? ptr then None else
          let cur := m ptr in let ptr := ptr + 1 in
          let result := result ||| s32 (cur << 28) in
          Some (u32 result, ptr)
        else Some (u32 result, ptr)
      else Some (u32 result, ptr)
    else Some (u32 result, ptr)
  else Some (u32 result, ptr).

Definition DecodeUnsignedLeb128P1 (m : mem) (data : Z) : Z * Z :=
  let '(v, ptr) := DecodeUnsignedLeb128 m data in (s32 (u32 (v - 1)), ptr).

(** Sign extension of the low [32 - k] bits: [(result << k) >> k] on int32_t. *)
Definition sign_shift (k result : Z) : Z := s32 (result << k) >> k.

Definition DecodeSignedLeb128 (m : mem) (data : Z) : Z * Z :=
  let ptr := data in
  let result := m ptr in let ptr := ptr + 1 in
  if result <=? 0x7f then (sign_shift 25 result, ptr)
  else
    let cur := m ptr in let ptr := ptr + 1 in
    let result := (result &&& 0x7f) ||| ((cur &&& 0x7f) << 7) in
    if cur <=? 0x7f then (sign_shift 18 result, ptr)
    else
      let cur := m ptr in let ptr := ptr + 1 in
      let result := result ||| ((cur &&& 0x7f) << 14) in
      if cur <=? 0x7f then (sign_shift 11 result, ptr)
      else
        let cur := m ptr in let ptr := ptr + 1 in
        let result := result ||| ((cur &&& 0x7f) << 21) in
        if cur <=? 0x7f then (sign_shift 4 result, ptr)
        else
          let cur := m ptr in let ptr := ptr + 1 in
          let result := result ||| s32 (cur << 28) in
          (result, ptr).

Definition DecodeSignedLeb128Checked (m : mem) (data end_ : Z) : option (Z * Z) :=
  let ptr := data in
  if end_ <=? ptr then None else
  let result := m ptr in let ptr := ptr + 1 in
  if result <=? 0x7f then Some (s32 (u32 (sign_shift 25 result)), ptr)
  else
    if end_ <=? ptr then None else
    let cur := m ptr in let ptr := ptr + 1 in
    let result := (result &&& 0x7f) ||| ((cur &&& 0x7f) << 7) in
    if cur <=? 0x7f then Some (s32 (u32 (sign_shift 18 result)), ptr)
    else
      if end_ <=? ptr then None else
      let cur := m ptr in let ptr := ptr + 1 in
      let result := result ||| ((cur &&& 0x7f) << 14) in
      if cur <=? 0x7f then Some (s32 (u32 (sign_shift 11 result)), ptr)
      else
        if end_ <=? ptr then None else
        let cur := m ptr in let ptr := ptr + 1 in
        let result := result ||| ((cur &&& 0x7f) << 21) in
        if cur <=? 0x7f then Some (s32 (u32 (sign_shift 4 result)), ptr)
        else
          if end_ <=? ptr then None else
          let cur := m ptr in let ptr := ptr + 1 in
          let result := result ||| s32 (cur << 28) in
          Some (s32 (u32 result), ptr).

(** ** Sizes *)

Definition UnsignedLeb128Size (data : Z) : Z :=
  let x := u32 (6 + 32 - CLZ 32 (data ||| 1)) in u32 (x * 37) >> 8.

Definition SignedLeb128Size (data : Z) : Z :=
  let data := data ^^^ (data >> 31) in
  let x := u32 (1 + 6 + 32 - CLZ 32 (u32 data ||| 1)) in u32 (x * 37) >> 8.

(** ** Encoding *)

(** The loops shift seven bits out of a 32-bit value per turn, so five turns
    are enough; [None] stands for running out of them. *)
Definition leb_fuel : nat := 5.

Fixpoint EncodeUnsigned_loop (fuel : nat) (m : mem) (dest out value : Z) : option (mem * Z) :=
  match fuel with
  | O => None
  | S fuel =>
      if value =? 0 then Some (store m dest out, dest + 1)
      else EncodeUnsigned_loop fuel (store m dest (u8 (out ||| 0x80))) (dest + 1)
             (u8 (value &&& 0x7f)) (value >> 7)
  end.
Definition EncodeUnsignedLeb128 (m : mem) (dest value : Z) : option (mem * Z) :=
  EncodeUnsigned_loop leb_fuel m dest (u8 (value &&& 0x7f)) (value >> 7).

Fixpoint PushUnsigned_loop (fuel : nat) (dest : list Z) (out value : Z) : option (list Z) :=
  match fuel with
  | O => None
  | S fuel =>
      if value =? 0 then Some (dest ++ [out])
      else PushUnsigned_loop fuel (dest ++ [u8 (out ||| 0x80)])
             (u8 (value &&& 0x7f)) (value >> 7)
  end.
Definition EncodeUnsignedLeb128_vector (dest : list Z) (value : Z) : option (list Z) :=
  PushUnsigned_loop leb_fuel dest (u8 (value &&& 0x7f)) (value >> 7).

(** [UpdateUnsignedLeb128]: the padding loop runs once per spare byte. *)
Fixpoint Update_loop (fuel : nat) (m : mem) (end_ old_end : Z) : option mem :=
  match fuel with
  | O => None
  | S fuel =>
      if end_ <? old_end then
        let m := store m (end_ - 1) (u8 (m (end_ - 1) ||| 0x80)) in
        let m := store m end_ 0 in
        Update_loop fuel m (end_ + 1) old_end
      else Some m
  end.
Definition UpdateUnsignedLeb128 (m : mem) (dest value : Z) : option mem :=
  let '(_, old_end) := DecodeUnsignedLeb128 m dest in
  '(m, end_) ← EncodeUnsignedLeb128 m dest value;
  Update_loop leb_fuel m end_ old_end.

Fixpoint EncodeSigned_loop (fuel : nat) (m : mem) (dest out value extra_bits : Z)
    : option (mem * Z) :=
  match fuel with
  | O => None
  | S fuel =>
      if extra_bits =? 0 then Some (store m dest out, dest + 1)
      else
        let m := store m dest (u8 (out ||| 0x80)) in
        let value := value >> 7 in
        EncodeSigned_loop fuel m (dest + 1) (u8 (value &&& 0x7f)) value (extra_bits >> 7)
  end.
Definition EncodeSignedLeb128 (m : mem) (dest value : Z) : option (mem * Z) :=
  let extra_bits := u32 (value ^^^ (value >> 31)) >> 6 in
  EncodeSigned_loop leb_fuel m dest (u8 (value &&& 0x7f)) value extra_bits.

Fixpoint PushSigned_loop (fuel : nat) (dest : list Z) (out value extra_bits : Z)
    : option (list Z) :=
  match fuel with
  | O => None
  | S fuel =>
      if extra_bits =? 0 then Some (dest ++ [out])
      else
        let dest := dest ++ [u8 (out ||| 0x80)] in
        let value := value >> 7 in
        PushSigned_loop fuel dest (u8 (value &&& 0x7f)) value (extra_bits >> 7)
  end.
Definition EncodeSignedLeb128_vector (dest : list Z) (value : Z) : option (list Z) :=
  let extra_bits := u32 (value ^^^ (value >> 31)) >> 6 in
  PushSigned_loop leb_fuel dest (u8 (value &&& 0x7f)) value extra_bits.

(** ** [Leb128Encoder]: a vector and the four operations that append to it *)

Definition PushBackUnsigned (data : list Z) (value : Z) : option (list Z) :=
  EncodeUnsignedLeb128_vector data value.
Fixpoint InsertBackUnsigned (data : list Z) (vs : list Z) : option (list Z) :=
  match vs with
  | [] => Some data
  | v :: vs => data ← PushBackUnsigned data v; InsertBackUnsigned data vs
  end.
Definition PushBackSigned (data : list Z) (value : Z) : option (list Z) :=
  EncodeSignedLeb128_vector data value.
Fixpoint InsertBackSigned (data : list Z) (vs : list Z) : option (list Z) :=
  match vs with
  | [] => Some data
  | v :: vs => data ← PushBackSigned data v; InsertBackSigned data vs
  end.

(** ** Bytes in memory *)

Fixpoint bytes_at (m : mem) (a : Z) (l : list Z) : Prop :=
  match l with
  | [] => True
  | b :: l => m a = b /\ bytes_at m (a + 1) l
  end.

Fixpoint store_list (m : mem) (a : Z) (l : list Z) : mem :=
  match l with
  | [] => m
  | b :: l => store_list (store m a b) (a + 1) l
  end.

Lemma store_same m a v : store m a v a = v.
Proof. unfold store. by rewrite Z.eqb_refl. Qed.

Lemma store_other m a v x : x <> a -> store m a v x = m x.
Proof. intros. unfold store. by rewrite (proj2 (Z.eqb_neq x a)). Qed.

Lemma store_list_outside m a l x :
  x < a \/ a + Z.of_nat (length l) <= x -> store_list m a l x = m x.
Proof.
  revert m a. induction l as [|b l IH]; intros m a Hx; simpl in *; [done|].
  rewrite IH by lia. apply store_other. lia.
Qed.

Lemma bytes_at_store_list m a l : bytes_at (store_list m a l) a l.
Proof.
  revert m a. induction l as [|b l IH]; intros m a; simpl; [done|]. split; [|apply IH].
  rewrite store_list_outside by lia. apply store_same.
Qed.

Lemma bytes_at_ext m m' a l :
  (forall x, a <= x < a + Z.of_nat (length l) -> m' x = m x) ->
  bytes_at m a l -> bytes_at m' a l.
Proof.
  revert a. induction l as [|b l IH]; intros a Hx; simpl in *; [done|].
  intros [<- H]. split; [apply Hx; lia|]. apply IH; [|done]. intros. apply Hx. lia.
Qed.

Lemma bytes_at_app m a l l' :
  bytes_at m a (l ++ l') <-> bytes_at m a l /\ bytes_at m (a + Z.of_nat (length l)) l'.
Proof.
  revert a. induction l as [|b l IH]; intros a; simpl.
  - rewrite Z.add_0_r. tauto.
  - rewrite IH. replace (a + 1 + Z.of_nat (length l)) with (a + Z.of_nat (S (length l))) by lia.
    tauto.
Qed.

(** ** Seven-bit groups *)

Lemma low7 v : u8 (v &&& 0x7f) = v mod 128.
Proof.
  replace 0x7f with (2 ^ 7 - 1) by reflexivity. rewrite land_ones_mod by lia.
  apply wrap_u_id. unfold in_u. pows. zdiv.
Qed.

Lemma land_7f v : v &&& 0x7f = v mod 128.
Proof. apply (land_ones_mod v 7). lia. Qed.

Lemma continuation b : 0 <= b < 128 -> u8 (b ||| 0x80) = b + 128.
Proof.
  intros. rewrite (lor_multiple b 0x80 7) by (pows; zdiv). apply wrap_u_id. unfold in_u. lia.
Qed.

Lemma shiftr7 v : v >> 7 = v / 128.
Proof. by rewrite Z.shiftr_div_pow2. Qed.

(** The encoding with [n] continuation bytes; it is the shortest one exactly
    when the last group is not zero. *)
Fixpoint leb_groups (n : nat) (v : Z) : list Z :=
  match n with
  | O => [v mod 128]
  | S n => (v mod 128 + 128) :: leb_groups n (v / 128)
  end.

Lemma leb_groups_length n v : length (leb_groups n v) = S n.
Proof. revert v. induction n; intros; simpl; congruence. Qed.

(** A longer encoding: flag the last byte and append a zero group. *)
Lemma leb_groups_pad n v :
  0 <= v < 2 ^ (7 * Z.of_nat (S n)) ->
  exists l b, leb_groups n v = l ++ [b] /\ 0 <= b < 128 /\ length l = n /\
              leb_groups (S n) v = l ++ [b + 128; 0].
Proof.
  revert v. induction n as [|n IH]; intros v Hv.
  - exists [], (v mod 128). change (2 ^ (7 * Z.of_nat 1)) with 128 in Hv.
    repeat split; try zdiv. simpl.
    by rewrite (Z.div_small v), (Z.mod_small v 128) by lia.
  - destruct (IH (v / 128)) as (l & b & E & Hb & Hl & E').
    { split; [apply Z.div_pos; lia|]. apply Z.div_lt_upper_bound; [lia|].
      replace (7 * Z.of_nat (S (S n))) with (7 + 7 * Z.of_nat (S n)) in Hv by lia.
      rewrite Z.pow_add_r in Hv by lia. lia. }
    exists (v mod 128 + 128 :: l), b. simpl in *. repeat split; try lia; congruence.
Qed.

(** ** The loops write the groups *)

Lemma EncodeUnsigned_loop_vector fuel m dest out v l :
  EncodeUnsigned_loop fuel m dest out v =
  (fun l' => (store_list m dest l', dest + Z.of_nat (length l'))) <$>
    PushUnsigned_loop fuel [] out v /\
  PushUnsigned_loop fuel l out v = app l <$> PushUnsigned_loop fuel [] out v.
Proof.
  revert m dest out v l. induction fuel as [|f IH]; intros m dest out v l; [done|]. simpl.
  case_if; [done|]. split.
  - rewrite (proj1 (IH _ _ _ _ [])), (proj2 (IH m dest _ _ [u8 (out ||| 128)])).
    destruct (PushUnsigned_loop f [] _ _); [|done]. simpl. do 2 f_equal. lia.
  - rewrite (proj2 (IH m dest _ _ (l ++ _))), (proj2 (IH m dest _ _ [u8 (out ||| 128)])).
    destruct (PushUnsigned_loop f [] _ _); [|done]. simpl. by rewrite <- app_assoc.
Qed.

Lemma PushUnsigned_loop_groups n fuel v :
  (n < fuel)%nat -> 0 <= v < 2 ^ (7 * Z.of_nat (S n)) ->
  (n <> O -> 2 ^ (7 * Z.of_nat n) <= v) ->
  PushUnsigned_loop fuel [] (v mod 128) (v >> 7) = Some (leb_groups n v).
Proof.
  revert fuel v. induction n as [|n IH]; intros fuel v Hf Hv Hm;
    (destruct fuel as [|f]; [lia|]); simpl PushUnsigned_loop; rewrite shiftr7.
  - change (2 ^ (7 * Z.of_nat 1)) with 128 in Hv. by rewrite Z.div_small by lia.
  - specialize (Hm ltac:(done)).
    replace (7 * Z.of_nat (S n)) with (7 + 7 * Z.of_nat n) in Hm by lia.
    replace (7 * Z.of_nat (S (S n))) with (7 + 7 * Z.of_nat (S n)) in Hv by lia.
    rewrite Z.pow_add_r in Hv, Hm by lia. change (2 ^ 7) with 128 in *.
    assert (2 ^ (7 * Z.of_nat n) <= v / 128) by (apply Z.div_le_lower_bound; lia).
    assert (0 < 2 ^ (7 * Z.of_nat n)) by lia.
    rewrite (proj2 (Z.eqb_neq (v / 128) 0)) by lia.
    rewrite continuation, low7 by zdiv.
    rewrite (proj2 (EncodeUnsigned_loop_vector f (fun _ => 0) 0 _ _ _)), IH.
    + done.
    + lia.
    + split; [lia|]. apply Z.div_lt_upper_bound; lia.
    + done.
Qed.

(** ** What the decoders compute *)

(** The sums that the shifts and masks of the decoders assemble. *)
Lemma assemble2 a b :
  (a &&& 0x7f) ||| ((b &&& 0x7f) << 7) = a mod 128 + b mod 128 * 2 ^ 7.
Proof. rewrite !land_7f. apply lor_shiftl; pows; zdiv. Qed.

Lemma assemble x c k : 0 <= k -> 0 <= x < 2 ^ k ->
  x ||| ((c &&& 0x7f) << k) = x + c mod 128 * 2 ^ k.
Proof. intros. rewrite !land_7f. by apply lor_shiftl. Qed.

(** The unsigned decoder as a sum of groups, by the number of bytes read. *)
Lemma DecodeUnsignedLeb128_eq m a :
  bytes_ok m ->
  DecodeUnsignedLeb128 m a =
  (let b0 := m a in let b1 := m (a + 1) in let b2 := m (a + 2) in
   let b3 := m (a + 3) in let b4 := m (a + 4) in
   let v1 := b0 mod 128 + b1 mod 128 * 2 ^ 7 in
   let v2 := v1 + b2 mod 128 * 2 ^ 14 in
   let v3 := v2 + b3 mod 128 * 2 ^ 21 in
   if b0 <? 128 then (b0, a + 1)
   else if b1 <? 128 then (v1, a + 2)
   else if b2 <? 128 then (v2, a + 3)
   else if b3 <? 128 then (v3, a + 4)
   else (u32 (v3 + b4 * 2 ^ 28), a + 5)).
Proof.
  intros Hm. unfold DecodeUnsignedLeb128. cbv zeta.
  replace (a + 1 + 1) with (a + 2) by lia. replace (a + 2 + 1) with (a + 3) by lia.
  replace (a + 3 + 1) with (a + 4) by lia. replace (a + 4 + 1) with (a + 5) by lia.
  pose proof (Hm a) as H0. pose proof (Hm (a + 1)) as H1. pose proof (Hm (a + 2)) as H2.
  pose proof (Hm (a + 3)) as H3. pose proof (Hm (a + 4)) as H4.
  generalize dependent (m a). generalize dependent (m (a + 1)).
  generalize dependent (m (a + 2)). generalize dependent (m (a + 3)).
  generalize dependent (m (a + 4)). intros b4 H4 b3 H3 b2 H2 b1 H1 b0 H0.
  wrap_unfold.
  assert (forall b, (0x7f <? b) = negb (b <? 128)) as Hn.
  { intros b. destruct (Z.ltb_spec b 128), (Z.ltb_spec 127 b); simpl; lia. }
  rewrite !Hn, !if_negb.
  rewrite assemble2, (assemble _ b2), (assemble _ b3) by (pows; zdiv).
  change (?x mod 4294967296) with (u32 x).
  repeat case_if; bools; try (rewrite wrap_u_id by (unfold in_u; pows; zdiv); done).
  f_equal. change (((?x + 2147483648) mod 4294967296) - 2147483648) with (s32 x).
  rewrite wrap_u_lor_s by lia. f_equal. apply lor_shiftl; pows; zdiv.
Qed.

Lemma flagged_mod x : (x mod 128 + 128) mod 128 = x mod 128.
Proof. zdiv. Qed.

Lemma flagged_test x : (x mod 128 + 128 <? 128) = false.
Proof. apply Z.ltb_ge. zdiv. Qed.

Lemma last_test x : (x mod 128 <? 128) = true.
Proof. apply Z.ltb_lt. zdiv. Qed.

(** Addresses [a + 1 + 1 + ...] as [a + k]. *)
Ltac norm_addr H :=
  rewrite <- ?Z.add_assoc in H; change (1 + 1) with 2 in H; change (1 + 2) with 3 in H;
  change (1 + 3) with 4 in H.

(** Reading back any group encoding, the shortest or a padded one. *)
Lemma DecodeUnsignedLeb128_groups n v m a :
  bytes_ok m -> (n <= 4)%nat -> in_u 32 v -> v < 2 ^ (7 * Z.of_nat (S n)) ->
  bytes_at m a (leb_groups n v) ->
  DecodeUnsignedLeb128 m a = (v, a + Z.of_nat (S n)).
Proof.
  intros Hm Hn Hv Hb H. rewrite DecodeUnsignedLeb128_eq by done.
  unfold in_u in Hv.
  do 5 (destruct n as [|n]; [
    simpl in H; norm_addr H; split_hyps;
    repeat match goal with E : m _ = _ |- _ => rewrite E; clear E end; cbv zeta;
    rewrite ?flagged_test, ?last_test, ?flagged_mod, ?Zmod_mod;
    pows; f_equal; try (rewrite wrap_u_id by wraps); zdiv|]).
  lia.
Qed.

Lemma DecodeUnsignedLeb128_range m a v e :
  bytes_ok m -> DecodeUnsignedLeb128 m a = (v, e) ->
  in_u 32 v /\ a + 1 <= e <= a + 5 /\ v < 2 ^ (7 * (e - a)).
Proof.
  intros Hm. rewrite DecodeUnsignedLeb128_eq by done.
  pose proof (Hm a) as H0. pose proof (Hm (a + 4)) as H4. wrap_unfold. cbv zeta.
  repeat case_if; bools; intros [= <- <-];
    match goal with |- context [7 * (a + ?k - a)] =>
      replace (a + k - a) with k by lia end; pows; zdiv.
Qed.

(** The number of groups of the shortest encoding. *)
Lemma shortest_groups v :
  in_u 32 v ->
  exists n, (n <= 4)%nat /\ 0 <= v < 2 ^ (7 * Z.of_nat (S n)) /\
            (n <> O -> 2 ^ (7 * Z.of_nat n) <= v).
Proof.
  intros Hv. unfold in_u in Hv. pows.
  destruct (Z.lt_ge_cases v 128); [exists 0%nat; simpl; lia|].
  destruct (Z.lt_ge_cases v 16384); [exists 1%nat; simpl; lia|].
  destruct (Z.lt_ge_cases v 2097152); [exists 2%nat; simpl; lia|].
  destruct (Z.lt_ge_cases v 268435456); [exists 3%nat; simpl; lia|exists 4%nat; simpl; lia].
Qed.

Lemma log2_lor_1 v : 0 <= v -> Z.log2 (v ||| 1) = Z.log2 v.
Proof. intros. rewrite Z.log2_lor by lia. pose proof (Z.log2_nonneg v). change (Z.log2 1) with 0. lia. Qed.

(** [(x * 37) >> 8] is [x / 7] on the range the size functions use. *)
Lemma mul37_div7 x : 0 <= x <= 85 -> u32 (x * 37) >> 8 = x / 7.
Proof. intros. rewrite Z.shiftr_div_pow2 by lia. wraps. Qed.

Lemma UnsignedLeb128Size_groups n v :
  in_u 32 v -> 0 <= v < 2 ^ (7 * Z.of_nat (S n)) -> (n <> O -> 2 ^ (7 * Z.of_nat n) <= v) ->
  UnsignedLeb128Size v = Z.of_nat (S n).
Proof.
  intros Hv Hu Hl. unfold in_u in Hv. unfold UnsignedLeb128Size.
  assert (0 < v ||| 1).
  { assert (0 <= v ||| 1) by (apply Z.lor_nonneg; lia).
    assert (v ||| 1 <> 0) by (rewrite Z.lor_eq_0_iff; lia). lia. }
  rewrite CLZ32_spec, log2_lor_1 by lia.
  pose proof (Z.log2_nonneg v).
  destruct (Z.eq_dec v 0) as [->|Hz].
  { destruct n; [done|]. specialize (Hl ltac:(done)).
    assert (0 < 2 ^ (7 * Z.of_nat (S n))) by lia. lia. }
  assert (Z.log2 v < 7 * Z.of_nat (S n)) by (apply Z.log2_lt_pow2; lia).
  assert (Z.log2 v < 32) by (apply Z.log2_lt_pow2; lia).
  assert (7 * Z.of_nat n <= Z.log2 v).
  { destruct n; [lia|]. apply Z.log2_le_pow2; [lia|]. by apply Hl. }
  rewrite (wrap_u_id 32 (6 + 32 - _)) by (unfold in_u; lia).
  rewrite mul37_div7 by lia. zdiv.
Qed.

Lemma leb_groups_bytes n v : Forall (in_u 8) (leb_groups n v).
Proof.
  revert v. induction n as [|n IH]; intros v; simpl; constructor; try constructor;
    try wraps. apply IH.
Qed.

Lemma bytes_ok_store_list m a l :
  bytes_ok m -> Forall (in_u 8) l -> bytes_ok (store_list m a l).
Proof.
  intros Hm Hl. revert m a Hm. induction Hl as [|b l Hb Hl IH]; intros m a Hm; simpl; [done|].
  apply IH. intros x. unfold store. by case_if.
Qed.

(** What the unsigned encoder leaves in memory. *)
Lemma EncodeUnsignedLeb128_spec m dest v n :
  in_u 32 v -> (n <= 4)%nat -> 0 <= v < 2 ^ (7 * Z.of_nat (S n)) ->
  (n <> O -> 2 ^ (7 * Z.of_nat n) <= v) ->
  EncodeUnsignedLeb128 m dest v =
  Some (store_list m dest (leb_groups n v), dest + Z.of_nat (S n)).
Proof.
  intros Hv Hn Hu Hl. unfold EncodeUnsignedLeb128.
  rewrite (proj1 (EncodeUnsigned_loop_vector _ _ _ _ _ [])), low7.
  rewrite (PushUnsigned_loop_groups n) by (try done; unfold leb_fuel; lia). simpl.
  by rewrite leb_groups_length.
Qed.

(** ** Theorems on unsigned values *)

(** C39. Unsigned LEB128 round trip: encoding any [uint32_t] at [dest]
    terminates, writes exactly [UnsignedLeb128Size] bytes and nothing outside
    them, and decoding at [dest] reads the value back and stops at the
    encoder's end pointer. *)
Theorem unsigned_leb128_roundtrip m dest v :
  bytes_ok m -> in_u 32 v ->
  exists m' e, EncodeUnsignedLeb128 m dest v = Some (m', e) /\
    e = dest + UnsignedLeb128Size v /\
    DecodeUnsignedLeb128 m' dest = (v, e) /\
    bytes_ok m' /\
    (forall x, x < dest \/ e <= x -> m' x = m x).
Proof.
  intros Hm Hv. destruct (shortest_groups v Hv) as (n & Hn & Hu & Hl).
  exists (store_list m dest (leb_groups n v)), (dest + Z.of_nat (S n)).
  assert (bytes_ok (store_list m dest (leb_groups n v)))
    by (apply bytes_ok_store_list; [done|apply leb_groups_bytes]).
  split; [by apply EncodeUnsignedLeb128_spec|].
  split; [by rewrite (UnsignedLeb128Size_groups n)|].
  split; [apply DecodeUnsignedLeb128_groups; try done; [lia|apply bytes_at_store_list]|].
  split; [done|].
  intros x Hx. apply store_list_outside. rewrite leb_groups_length. lia.
Qed.

(** The three bytes of 624485, the example of the LEB128 literature. *)
Lemma unsigned_leb128_roundtrip_witness :
  exists m' e, EncodeUnsignedLeb128 (fun _ => 0) 100 624485 = Some (m', e) /\
    DecodeUnsignedLeb128 m' 100 = (624485, e) /\ e = 103 /\
    EncodeUnsignedLeb128_vector [] 624485 = Some [0xE5; 0x8E; 0x26].
Proof.
  destruct (unsigned_leb128_roundtrip (fun _ => 0) 100 624485) as (m' & e & H1 & H2 & H3 & _).
  - intros a. unfold in_u. lia.
  - unfold in_u. lia.
  - exists m', e. split; [exact H1|]. split; [exact H3|].
    split; [rewrite H2; reflexivity|reflexivity].
Defined.

(** ** What the signed decoder computes *)

Lemma sign_shift_spec k r :
  k = 25 \/ k = 18 \/ k = 11 \/ k = 4 -> sign_shift k r = wrap_s (32 - k) r.
Proof.
  unfold sign_shift. intros [->|[->|[->| ->]]];
    rewrite Z.shiftl_mul_pow2, Z.shiftr_div_pow2 by lia; wraps.
Qed.

Lemma top_group b : s32 (b << 28) = wrap_s 4 b << 28.
Proof. rewrite !Z.shiftl_mul_pow2 by lia. wraps. Qed.

Lemma DecodeSignedLeb128_eq m a :
  bytes_ok m ->
  DecodeSignedLeb128 m a =
  (let b0 := m a in let b1 := m (a + 1) in let b2 := m (a + 2) in
   let b3 := m (a + 3) in let b4 := m (a + 4) in
   let v1 := b0 mod 128 + b1 mod 128 * 2 ^ 7 in
   let v2 := v1 + b2 mod 128 * 2 ^ 14 in
   let v3 := v2 + b3 mod 128 * 2 ^ 21 in
   if b0 <? 128 then (wrap_s 7 b0, a + 1)
   else if b1 <? 128 then (wrap_s 14 v1, a + 2)
   else if b2 <? 128 then (wrap_s 21 v2, a + 3)
   else if b3 <? 128 then (wrap_s 28 v3, a + 4)
   else (v3 + wrap_s 4 b4 * 2 ^ 28, a + 5)).
Proof.
  intros Hm. unfold DecodeSignedLeb128. cbv zeta.
  replace (a + 1 + 1) with (a + 2) by lia. replace (a + 2 + 1) with (a + 3) by lia.
  replace (a + 3 + 1) with (a + 4) by lia. replace (a + 4 + 1) with (a + 5) by lia.
  pose proof (Hm a) as H0. pose proof (Hm (a + 3)) as H3.
  unfold in_u in H0, H3. pows.
  assert (forall b, (b <=? 0x7f) = (b <? 128)) as Hn.
  { intros b. destruct (Z.ltb_spec b 128), (Z.leb_spec b 127); lia. }
  rewrite !Hn, assemble2, (assemble _ (m (a + 2))), (assemble _ (m (a + 3))) by (pows; zdiv).
  rewrite !sign_shift_spec by lia. repeat case_if; try done.
  by rewrite top_group, lor_shiftl by (pows; zdiv).
Qed.

Lemma DecodeSignedLeb128_range m a : bytes_ok m -> in_s 32 (DecodeSignedLeb128 m a).1.
Proof.
  intros Hm. rewrite DecodeSignedLeb128_eq by done.
  pose proof (Hm a) as H0. wrap_unfold. cbv zeta.
  repeat case_if; bools; cbn [fst]; zdiv.
Qed.

(** The values [n + 1] groups can hold, the fifth group being cut at 32 bits. *)
Definition fits_signed (n : nat) (v : Z) : Prop :=
  match n with
  | 4%nat => in_s 32 v
  | _ => in_s (7 * Z.of_nat (S n)) v
  end.

Lemma DecodeSignedLeb128_groups n v m a :
  bytes_ok m -> (n <= 4)%nat -> fits_signed n v -> bytes_at m a (leb_groups n v) ->
  DecodeSignedLeb128 m a = (v, a + Z.of_nat (S n)).
Proof.
  intros Hm Hn Hv H. rewrite DecodeSignedLeb128_eq by done.
  do 5 (destruct n as [|n]; [
    simpl in H, Hv; norm_addr H; split_hyps;
    repeat match goal with E : m _ = _ |- _ => rewrite E; clear E end; cbv zeta;
    rewrite ?flagged_test, ?last_test, ?flagged_mod, ?Zmod_mod;
    f_equal; wraps|]).
  lia.
Qed.

(** ** The signed loops write the groups *)

Lemma EncodeSigned_loop_vector fuel m dest out v e l :
  EncodeSigned_loop fuel m dest out v e =
  (fun l' => (store_list m dest l', dest + Z.of_nat (length l'))) <$>
    PushSigned_loop fuel [] out v e /\
  PushSigned_loop fuel l out v e = app l <$> PushSigned_loop fuel [] out v e.
Proof.
  revert m dest out v e l. induction fuel as [|f IH]; intros m dest out v e l; [done|]. simpl.
  case_if; [done|]. split.
  - rewrite (proj1 (IH _ _ _ _ _ [])), (proj2 (IH m dest _ _ _ [u8 (out ||| 128)])).
    destruct (PushSigned_loop f [] _ _ _); [|done]. simpl. do 2 f_equal. lia.
  - rewrite (proj2 (IH m dest _ _ _ (l ++ _))), (proj2 (IH m dest _ _ _ [u8 (out ||| 128)])).
    destruct (PushSigned_loop f [] _ _ _); [|done]. simpl. by rewrite <- app_assoc.
Qed.

Lemma PushSigned_loop_groups n fuel v e :
  (n < fuel)%nat -> 0 <= e < 2 ^ (7 * Z.of_nat n) ->
  (n <> O -> 2 ^ (7 * (Z.of_nat n - 1)) <= e) ->
  PushSigned_loop fuel [] (v mod 128) v e = Some (leb_groups n v).
Proof.
  revert fuel v e. induction n as [|n IH]; intros fuel v e Hf He Hm;
    (destruct fuel as [|f]; [lia|]); simpl PushSigned_loop.
  - by replace e with 0 by (simpl in He; lia).
  - specialize (Hm ltac:(done)).
    replace (Z.of_nat (S n) - 1) with (Z.of_nat n) in Hm by lia.
    replace (7 * Z.of_nat (S n)) with (7 + 7 * Z.of_nat n) in He by lia.
    rewrite Z.pow_add_r in He by lia. change (2 ^ 7) with 128 in *.
    assert (0 < 2 ^ (7 * Z.of_nat n)) by lia.
    rewrite (proj2 (Z.eqb_neq e 0)) by lia.
    rewrite continuation, low7, !shiftr7 by zdiv.
    rewrite (proj2 (EncodeSigned_loop_vector f (fun _ => 0) 0 _ _ _ _)), IH; [done|lia| |].
    + split; [apply Z.div_pos; lia|]. apply Z.div_lt_upper_bound; lia.
    + intros Hn. apply Z.div_le_lower_bound; [lia|].
      replace (7 * Z.of_nat n) with (7 + 7 * (Z.of_nat n - 1)) in Hm by lia.
      rewrite Z.pow_add_r in Hm by lia. lia.
Qed.

(** The magnitude [value ^ (value >> 31)] that both signed routines size by. *)
Lemma sign_magnitude v :
  in_s 32 v -> v ^^^ (v >> 31) = (if v <? 0 then - v - 1 else v).
Proof.
  unfold in_s. intros Hv. pows. rewrite Z.shiftr_div_pow2 by lia. pows. case_if; bools.
  - replace (v / 2147483648) with (-1) by zdiv.
    rewrite Z.lxor_m1_r. unfold Z.lnot. lia.
  - replace (v / 2147483648) with 0 by zdiv. by rewrite Z.lxor_0_r.
Qed.

Definition magnitude (v : Z) : Z := if v <? 0 then - v - 1 else v.

(** The number of groups of the shortest signed encoding. *)
Lemma shortest_signed_groups v :
  in_s 32 v ->
  exists n, (n <= 4)%nat /\ fits_signed n v /\
    0 <= magnitude v >> 6 < 2 ^ (7 * Z.of_nat n) /\
    (n <> O -> 2 ^ (7 * (Z.of_nat n - 1)) <= magnitude v >> 6) /\
    SignedLeb128Size v = Z.of_nat (S n).
Proof.
  intros Hv. unfold SignedLeb128Size. rewrite sign_magnitude by done.
  change (if v <? 0 then - v - 1 else v) with (magnitude v).
  assert (0 <= magnitude v < 2 ^ 31) as Hm
    by (unfold magnitude, in_s in *; pows; case_if; bools; lia).
  rewrite (Z.shiftr_div_pow2 (magnitude v)), (wrap_u_id 32 (magnitude v)) by (unfold in_u; pows; lia).
  assert (0 < magnitude v ||| 1) as Hp.
  { assert (0 <= magnitude v ||| 1) by (apply Z.lor_nonneg; lia).
    assert (magnitude v ||| 1 <> 0) by (rewrite Z.lor_eq_0_iff; lia). lia. }
  rewrite CLZ32_spec, log2_lor_1 by lia.
  pose proof (Z.log2_nonneg (magnitude v)).
  assert (Z.log2 (magnitude v) < 31).
  { destruct (Z.eq_dec (magnitude v) 0) as [->|]; [done|]. apply Z.log2_lt_pow2; lia. }
  rewrite (wrap_u_id 32 (1 + 6 + 32 - _)), mul37_div7 by (unfold in_u; lia).
  assert (forall k, 0 <= k -> 2 ^ k <= magnitude v -> k <= Z.log2 (magnitude v)) as Hlo
    by (intros; apply Z.log2_le_pow2; lia).
  assert (forall k, 0 < k -> magnitude v < 2 ^ k -> Z.log2 (magnitude v) < k) as Hhi.
  { intros k Hk Hlt. destruct (Z.eq_dec (magnitude v) 0) as [->|]; [done|].
    apply Z.log2_lt_pow2; lia. }
  assert (forall k, magnitude v < 2 ^ k -> - 2 ^ k <= v < 2 ^ k) as Hfit
    by (intros k; unfold magnitude; case_if; bools; lia).
  destruct (Z.lt_ge_cases (magnitude v) (2 ^ 6));
  [exists 0%nat | destruct (Z.lt_ge_cases (magnitude v) (2 ^ 13));
  [exists 1%nat | destruct (Z.lt_ge_cases (magnitude v) (2 ^ 20));
  [exists 2%nat | destruct (Z.lt_ge_cases (magnitude v) (2 ^ 27));
  [exists 3%nat | exists 4%nat]]]];
    repeat match goal with
    | H : magnitude v < 2 ^ ?k |- _ =>
        pose proof (Hhi k ltac:(lia) H); pose proof (Hfit k H); clear Hhi
    | H : 2 ^ ?k <= magnitude v |- _ => pose proof (Hlo k ltac:(lia) H); clear Hlo
    end; simpl fits_signed; unfold in_s in *; pows; repeat split; try lia; try zdiv.
Qed.

Lemma EncodeSignedLeb128_spec m dest v n :
  in_s 32 v -> (n <= 4)%nat -> 0 <= magnitude v >> 6 < 2 ^ (7 * Z.of_nat n) ->
  (n <> O -> 2 ^ (7 * (Z.of_nat n - 1)) <= magnitude v >> 6) ->
  EncodeSignedLeb128 m dest v =
    Some (store_list m dest (leb_groups n v), dest + Z.of_nat (S n)) /\
  forall l, EncodeSignedLeb128_vector l v = Some (l ++ leb_groups n v).
Proof.
  intros Hv Hn Hu Hl. unfold EncodeSignedLeb128, EncodeSignedLeb128_vector.
  rewrite sign_magnitude by done.
  change (if v <? 0 then - v - 1 else v) with (magnitude v).
  rewrite (wrap_u_id 32 (magnitude v)) by (unfold magnitude, in_s, in_u in *; pows; case_if; bools; lia).
  assert (PushSigned_loop leb_fuel [] (v mod 128) v (magnitude v >> 6) =
          Some (leb_groups n v)) as E
    by (apply PushSigned_loop_groups; try done; unfold leb_fuel; lia).
  split; [|intros l].
  - rewrite (proj1 (EncodeSigned_loop_vector _ _ _ _ _ _ [])), low7, E. simpl.
    by rewrite leb_groups_length.
  - by rewrite (proj2 (EncodeSigned_loop_vector _ m dest _ _ _ _)), low7, E.
Qed.

(** Signed LEB128 round trip: encoding any [int32_t] at [dest]
    terminates, writes exactly [SignedLeb128Size] bytes and nothing outside
    them, and decoding at [dest] reads the value back, sign included, and stops
    at the encoder's end pointer. *)
Theorem signed_leb128_roundtrip m dest v :
  bytes_ok m -> in_s 32 v ->
  exists m' e, EncodeSignedLeb128 m dest v = Some (m', e) /\
    e = dest + SignedLeb128Size v /\
    DecodeSignedLeb128 m' dest = (v, e) /\
    bytes_ok m' /\
    (forall x, x < dest \/ e <= x -> m' x = m x).
Proof.
  intros Hm Hv. destruct (shortest_signed_groups v Hv) as (n & Hn & Hf & Hu & Hl & Hs).
  exists (store_list m dest (leb_groups n v)), (dest + Z.of_nat (S n)).
  assert (bytes_ok (store_list m dest (leb_groups n v)))
    by (apply bytes_ok_store_list; [done|apply leb_groups_bytes]).
  split; [by apply EncodeSignedLeb128_spec|]. split; [by rewrite Hs|].
  split; [apply DecodeSignedLeb128_groups; try done; apply bytes_at_store_list|].
  split; [done|].
  intros x Hx. apply store_list_outside. rewrite leb_groups_length. lia.
Qed.

Lemma signed_leb128_roundtrip_witness :
  exists m' e, EncodeSignedLeb128 (fun _ => 0) 8 (-128) = Some (m', e) /\
    DecodeSignedLeb128 m' 8 = (-128, e) /\ e = 10.
Proof.
  destruct (signed_leb128_roundtrip (fun _ => 0) 8 (-128)) as (m' & e & H1 & H2 & H3 & _).
  - intros a. unfold in_u. lia.
  - unfold in_s. lia.
  - exists m', e. split; [exact H1|]. split; [exact H3|rewrite H2; reflexivity].
Defined.

(** The bounds-checked decoders agree with the unchecked ones: each
    succeeds exactly when the unchecked decoder would stop at or before [end],
    with the same value and pointer, for every memory content. *)
Theorem checked_decoders_agree m data end_ :
  bytes_ok m ->
  DecodeUnsignedLeb128Checked m data end_ =
    (if (DecodeUnsignedLeb128 m data).2 <=? end_
     then Some (DecodeUnsignedLeb128 m data) else None) /\
  DecodeSignedLeb128Checked m data end_ =
    (if (DecodeSignedLeb128 m data).2 <=? end_
     then Some (DecodeSignedLeb128 m data) else None).
Proof.
  intros Hm. pose proof (DecodeSignedLeb128_range m data Hm) as Hr. revert Hr.
  split; revert Hr;
    [ unfold DecodeUnsignedLeb128Checked, DecodeUnsignedLeb128
    | unfold DecodeSignedLeb128Checked, DecodeSignedLeb128 ]; cbv zeta;
    repeat case_if; cbn [fst snd] in *; intros Hr; bools; try lia; try done;
    by rewrite wrap_s_wrap_u, wrap_s_id.
Qed.

(** A truncated two-byte encoding is refused, the complete one accepted. *)
Lemma checked_decoders_agree_witness :
  let m := fun _ => 0x80 in
  DecodeUnsignedLeb128Checked m 0 2 = None /\
  DecodeUnsignedLeb128Checked m 0 5 = Some (DecodeUnsignedLeb128 m 0).
Proof.
  intros m. split; [reflexivity|].
  refine (eq_trans (proj1 (checked_decoders_agree m 0 5 _)) _); [|reflexivity].
  intros a. unfold in_u, m. lia.
Defined.

(** ** In-place update *)

Lemma Update_loop_spec k fuel m dest n v old_end :
  bytes_ok m -> 0 <= v < 2 ^ (7 * Z.of_nat (S n)) ->
  bytes_at m dest (leb_groups n v) -> (k < fuel)%nat ->
  old_end = dest + Z.of_nat (S n) + Z.of_nat k ->
  exists m', Update_loop fuel m (dest + Z.of_nat (S n)) old_end = Some m' /\
    bytes_ok m' /\ bytes_at m' dest (leb_groups (n + k) v) /\
    (forall x, x < dest \/ old_end <= x -> m' x = m x).
Proof.
  revert fuel m n. induction k as [|k IH]; intros fuel m n Hm Hv Hb Hf ->;
    (destruct fuel as [|f]; [lia|]); simpl Update_loop.
  - rewrite (proj2 (Z.ltb_ge _ _)) by lia. exists m.
    rewrite Nat.add_0_r. auto.
  - rewrite (proj2 (Z.ltb_lt _ _)) by lia.
    destruct (leb_groups_pad n v Hv) as (l & b & E & Hb7 & Hl & E').
    rewrite E in Hb. apply bytes_at_app in Hb. rewrite Hl in Hb. destruct Hb as [Hb1 [Hb2 _]].
    replace (dest + Z.of_nat (S n) - 1) with (dest + Z.of_nat n) by lia.
    rewrite Hb2, continuation by done.
    set (m1 := store _ _ _).
    destruct (IH f m1 (S n)) as (m' & H1 & H2 & H3 & H4).
    + intros x. unfold m1, store. repeat case_if; try apply Hm; unfold in_u; pows; lia.
    + split; [lia|]. apply Z.lt_le_trans with (1 := proj2 Hv). apply Z.pow_le_mono_r; lia.
    + rewrite E'. apply bytes_at_app. rewrite Hl. split.
      * eapply bytes_at_ext; [|exact Hb1]. rewrite Hl. intros x Hx. unfold m1, store.
        repeat case_if; bools; lia.
      * simpl. unfold m1, store. repeat split; repeat case_if; bools; lia.
    + lia.
    + lia.
    + exists m'. replace (dest + Z.of_nat (S n) + 1) with (dest + Z.of_nat (S (S n))) by lia.
      split; [rewrite <- H1; f_equal; lia|]. split; [done|].
      split; [by replace (n + S k)%nat with (S n + k)%nat by lia|].
      intros x Hx. rewrite H4 by lia. unfold m1, store. repeat case_if; bools; lia.
Qed.

(** [UpdateUnsignedLeb128] with a value that is not larger than the encoded
    one terminates and overwrites in place: afterwards the same address decodes
    to the new value, the encoding still occupies exactly the old bytes, and no
    other byte changed. *)
Theorem update_unsigned_leb128_in_place m dest v old old_end :
  bytes_ok m -> DecodeUnsignedLeb128 m dest = (old, old_end) -> 0 <= v <= old ->
  exists m', UpdateUnsignedLeb128 m dest v = Some m' /\
    DecodeUnsignedLeb128 m' dest = (v, old_end) /\
    (forall x, x < dest \/ old_end <= x -> m' x = m x).
Proof.
  intros Hm Ho Hv. unfold UpdateUnsignedLeb128. rewrite Ho.
  destruct (DecodeUnsignedLeb128_range m dest old old_end Hm Ho) as (Hr & He & Hs).
  assert (in_u 32 v) as Hv32 by (unfold in_u in *; lia).
  destruct (shortest_groups v Hv32) as (n & Hn & Hu & Hl).
  rewrite (EncodeUnsignedLeb128_spec m dest v n) by done. simpl.
  set (m1 := store_list m dest (leb_groups n v)).
  assert (Z.of_nat n < old_end - dest) as Hlen.
  { destruct n; [lia|]. specialize (Hl ltac:(done)).
    assert (2 ^ (7 * Z.of_nat (S n)) < 2 ^ (7 * (old_end - dest))) as Hp by lia.
    apply Z.pow_lt_mono_r_iff in Hp; lia. }
  destruct (Update_loop_spec (Z.to_nat (old_end - dest - Z.of_nat (S n))) leb_fuel m1 dest n v
              old_end) as (m' & H1 & H2 & H3 & H4); try done.
  - apply bytes_ok_store_list; [done|apply leb_groups_bytes].
  - apply bytes_at_store_list.
  - unfold leb_fuel. lia.
  - lia.
  - exists m'. split; [done|]. split.
    + rewrite (DecodeUnsignedLeb128_groups
        (n + Z.to_nat (old_end - dest - Z.of_nat (S n))) v m' dest H2) by
        (try exact H3; try done; try lia;
         apply Z.lt_le_trans with (1 := proj2 Hu); apply Z.pow_le_mono_r; lia).
      f_equal. lia.
    + intros x Hx. rewrite H4 by done. apply store_list_outside.
      rewrite leb_groups_length. lia.
Qed.

(** Overwriting the three bytes of 624485 with 5 keeps three bytes. *)
Lemma update_unsigned_leb128_in_place_witness :
  let m := store_list (fun _ => 0) 0 [0xE5; 0x8E; 0x26] in
  exists m', UpdateUnsignedLeb128 m 0 5 = Some m' /\ DecodeUnsignedLeb128 m' 0 = (5, 3).
Proof.
  intros m.
  destruct (update_unsigned_leb128_in_place m 0 5 624485 3) as (m' & H1 & H2 & _).
  - apply bytes_ok_store_list; [intros a; unfold in_u; lia|].
    repeat constructor; unfold in_u; lia.
  - reflexivity.
  - lia.
  - exists m'. split; [exact H1|exact H2].
Defined.

(** ** Streams: the encoder class against the decoders *)

(** What a reader of a LEB128 stream relies on: pushing a value appends some
    bytes, and the decoder at their address returns the value and the address
    just past them. *)
Class LebCodec (push : list Z -> Z -> option (list Z)) (decode : mem -> Z -> Z * Z)
    (valid : Z -> Prop) : Prop := {
  codec_law : forall v, valid v ->
    exists bs, (forall l, push l v = Some (l ++ bs)) /\
      forall m a, bytes_ok m -> bytes_at m a bs ->
        decode m a = (v, a + Z.of_nat (length bs))
}.

#[export] Instance unsigned_codec :
  LebCodec PushBackUnsigned DecodeUnsignedLeb128 (in_u 32).
Proof.
  constructor. intros v Hv. destruct (shortest_groups v Hv) as (n & Hn & Hu & Hl).
  exists (leb_groups n v). split; [intros l|intros m a Hm Hb].
  - unfold PushBackUnsigned, EncodeUnsignedLeb128_vector.
    rewrite (proj2 (EncodeUnsigned_loop_vector _ (fun _ => 0) 0 _ _ _)), low7.
    by rewrite (PushUnsigned_loop_groups n) by (try done; unfold leb_fuel; lia).
  - rewrite leb_groups_length. apply DecodeUnsignedLeb128_groups; try done. lia.
Qed.

#[export] Instance signed_codec :
  LebCodec PushBackSigned DecodeSignedLeb128 (in_s 32).
Proof.
  constructor. intros v Hv. destruct (shortest_signed_groups v Hv) as (n & Hn & Hf & Hu & Hl & _).
  exists (leb_groups n v). split; [intros l|intros m a Hm Hb].
  - by apply (EncodeSignedLeb128_spec (fun _ => 0) 0).
  - rewrite leb_groups_length. by apply DecodeSignedLeb128_groups.
Qed.

(** Reading [n] values in a row, as the readers of encoded arrays do. *)
Fixpoint decode_many (decode : mem -> Z -> Z * Z) (n : nat) (m : mem) (a : Z) : list Z * Z :=
  match n with
  | O => ([], a)
  | S n =>
      let '(v, a) := decode m a in
      let '(vs, a) := decode_many decode n m a in (v :: vs, a)
  end.

Section Stream.
Context {push decode valid} `{!LebCodec push decode valid}.

Fixpoint push_all (data vs : list Z) : option (list Z) :=
  match vs with
  | [] => Some data
  | v :: vs => data ← push data v; push_all data vs
  end.

Lemma push_all_stream vs : Forall valid vs ->
  exists bs, (forall data, push_all data vs = Some (data ++ bs)) /\
    forall m a, bytes_ok m -> bytes_at m a bs ->
      decode_many decode (length vs) m a = (vs, a + Z.of_nat (length bs)).
Proof.
  induction 1 as [|v vs Hv _ (bs & Hp & Hd)].
  - exists []. split; intros; simpl; [by rewrite app_nil_r|f_equal; lia].
  - destruct (codec_law v Hv) as (b1 & Hp1 & Hd1). exists (b1 ++ bs). split.
    + intros data. simpl. rewrite Hp1. simpl. by rewrite Hp, <- app_assoc.
    + intros m a Hm Hb. apply bytes_at_app in Hb as [Hb1 Hb2]. simpl.
      rewrite (Hd1 m a), (Hd m) by done. f_equal. rewrite length_app. lia.
Qed.
End Stream.

Lemma InsertBackUnsigned_push_all data vs :
  InsertBackUnsigned data vs = push_all (push := PushBackUnsigned) data vs.
Proof.
  revert data. induction vs as [|v vs IH]; intros data; simpl; [done|].
  destruct (PushBackUnsigned data v); simpl; auto.
Qed.

Lemma InsertBackSigned_push_all data vs :
  InsertBackSigned data vs = push_all (push := PushBackSigned) data vs.
Proof.
  revert data. induction vs as [|v vs IH]; intros data; simpl; [done|].
  destruct (PushBackSigned data v); simpl; auto.
Qed.

(** A [Leb128Encoder] that is given a range of unsigned and then a range of
    signed values appends a byte string from which consecutive decodes recover
    both ranges in order and end exactly at its end; what was in the vector
    before stays in front. *)
Theorem leb128_encoder_stream data us ss :
  Forall (in_u 32) us -> Forall (in_s 32) ss ->
  exists d1 bs, InsertBackUnsigned data us = Some d1 /\
    InsertBackSigned d1 ss = Some (data ++ bs) /\
    forall m a, bytes_ok m -> bytes_at m a bs ->
      exists mid, decode_many DecodeUnsignedLeb128 (length us) m a = (us, mid) /\
        decode_many DecodeSignedLeb128 (length ss) m mid = (ss, a + Z.of_nat (length bs)).
Proof.
  intros Hu Hs.
  destruct (push_all_stream (decode := DecodeUnsignedLeb128) us Hu) as (b1 & Hp1 & Hd1).
  destruct (push_all_stream (decode := DecodeSignedLeb128) ss Hs) as (b2 & Hp2 & Hd2).
  exists (data ++ b1), (b1 ++ b2).
  rewrite InsertBackUnsigned_push_all, InsertBackSigned_push_all, Hp1, Hp2, <- app_assoc.
  do 2 (split; [done|]). intros m a Hm Hb. apply bytes_at_app in Hb as [Hb1 Hb2].
  exists (a + Z.of_nat (length b1)). rewrite Hd1, Hd2 by done. split; [done|].
  f_equal. rewrite length_app. lia.
Qed.

Lemma leb128_encoder_stream_witness :
  exists d1 bs, InsertBackUnsigned [7] [300; 0] = Some d1 /\
    InsertBackSigned d1 [-2] = Some (7 :: bs) /\ bs = [0xAC; 0x02; 0x00; 0x7E].
Proof.
  destruct (leb128_encoder_stream [7] [300; 0] [-2]) as (d1 & bs & H1 & H2 & _).
  - repeat constructor; unfold in_u; lia.
  - repeat constructor; unfold in_s; lia.
  - exists d1, bs. split; [exact H1|]. split; [exact H2|].
    vm_compute in H1. injection H1 as <-. vm_compute in H2. by injection H2.
Defined.
