(* ===== verification/Utf.v ===== *)
(** * Modified UTF-8 ([runtime/utf.cc], [runtime/utf-inl.h], [runtime/utf.h])

    Conversion between the modified UTF-8 of DEX files and JNI and the UTF-16
    code units of [java.lang.String], the sizes the callers allocate by, the
    string hashes and the two comparison routines.  A [const char*] is the list
    of the bytes from the pointer on (a C string ends with its zero byte), a
    read beyond the list is [None]. *)
From S2P Require Import Prelude.

(** ** Code units *)

Definition GetTrailingUtf16Char (maybe_pair : Z) : Z := u16 (maybe_pair >> 16).
Definition GetLeadingUtf16Char (maybe_pair : Z) : Z := u16 (maybe_pair &&& 0x0000FFFF).

Definition read_byte (p : list Z) : option (Z * list Z) :=
  match p with b :: p => Some (b, p) | [] => None end.

Definition GetUtf16FromUtf8 (p : list Z) : option (Z * list Z) :=
  '(one, p) ← read_byte p;
  if one &&& 0x80 =? 0 then Some (one, p) else
  '(two, p) ← read_byte p;
  if one &&& 0x20 =? 0 then Some (((one &&& 0x1f) << 6) ||| (two &&& 0x3f), p) else
  '(three, p) ← read_byte p;
  if one &&& 0x10 =? 0 then
    Some (((one &&& 0x0f) << 12) ||| ((two &&& 0x3f) << 6) ||| (three &&& 0x3f), p) else
  '(four, p) ← read_byte p;
  let code_point := ((one &&& 0x0f) << 18) ||| ((two &&& 0x3f) << 12)
                    ||| ((three &&& 0x3f) << 6) ||| (four &&& 0x3f) in
  let surrogate_pair := 0 in
  let surrogate_pair := surrogate_pair ||| (u32 ((code_point >> 10) + 0xd7c0) &&& 0xffff) in
  let surrogate_pair := surrogate_pair ||| u32 (u32 ((code_point &&& 0x03ff) + 0xdc00) << 16) in
  Some (surrogate_pair, p).

(** ** Counting *)

(** The loop over [byte_count] bytes reads only leading bytes; the pointer may
    be stepped beyond the end by a truncated sequence, as in the source. *)
Fixpoint CountModifiedUtf8Chars_loop (fuel : nat) (utf8 : list Z) (byte_count len : Z)
    : option Z :=
  match fuel with
  | O => None
  | S fuel =>
      if 0 <? byte_count then
        '(ic, utf8) ← read_byte utf8;
        let len := len + 1 in
        if ic &&& 0x80 =? 0 then CountModifiedUtf8Chars_loop fuel utf8 (byte_count - 1) len else
        let utf8 := drop 1 utf8 in
        if ic &&& 0x20 =? 0 then CountModifiedUtf8Chars_loop fuel utf8 (byte_count - 2) len else
        let utf8 := drop 1 utf8 in
        if ic &&& 0x10 =? 0 then CountModifiedUtf8Chars_loop fuel utf8 (byte_count - 3) len else
        let utf8 := drop 1 utf8 in
        CountModifiedUtf8Chars_loop fuel utf8 (byte_count - 4) (len + 1)
      else Some len
  end.
Definition CountModifiedUtf8Chars (utf8 : list Z) (byte_count : Z) : option Z :=
  CountModifiedUtf8Chars_loop (S (length utf8)) utf8 byte_count 0.

Fixpoint CountUtf8Bytes (chars : list Z) : Z :=
  match chars with
  | [] => 0
  | ch :: chars =>
      if negb (ch =? 0) && (ch <? 0x80) then 1 + CountUtf8Bytes chars
      else if ch <? 0x800 then 2 + CountUtf8Bytes chars
      else if (0xd800 <=? ch) && (ch <? 0xdc00) then
        match chars with
        | ch2 :: chars' =>
            if (0xdc00 <=? ch2) && (ch2 <? 0xe000) then 4 + CountUtf8Bytes chars'
            else 3 + CountUtf8Bytes chars
        | [] => 3 + CountUtf8Bytes chars
        end
      else 3 + CountUtf8Bytes chars
  end.

(** ** Conversion to UTF-16 *)

Definition emit_utf16 (ch : Z) : list Z :=
  let leading := GetLeadingUtf16Char ch in
  let trailing := GetTrailingUtf16Char ch in
  leading :: (if negb (trailing =? 0) then [trailing] else []).

(** The C-string overload. *)
Fixpoint cstr_to_utf16_loop (fuel : nat) (p : list Z) : option (list Z) :=
  match fuel with
  | O => None
  | S fuel =>
      '(c, _) ← read_byte p;
      if c =? 0 then Some [] else
      '(ch, p) ← GetUtf16FromUtf8 p;
      out ← cstr_to_utf16_loop fuel p;
      Some (emit_utf16 ch ++ out)
  end.
Definition ConvertModifiedUtf8ToUtf16_cstr (utf8_data_in : list Z) : option (list Z) :=
  cstr_to_utf16_loop (S (length utf8_data_in)) utf8_data_in.

(** The loops of the counted overload; [avail] is [in_end - p]. *)
Fixpoint ascii_to_utf16 (p : list Z) (avail : nat) : option (list Z) :=
  match avail with
  | O => Some []
  | S avail =>
      '(c, p) ← read_byte p; out ← ascii_to_utf16 p avail; Some (u16 (s8 c) :: out)
  end.
Fixpoint utf8_to_utf16_loop (fuel : nat) (p : list Z) (avail : Z) : option (list Z) :=
  match fuel with
  | O => None
  | S fuel =>
      if 0 <? avail then
        '(ch, p') ← GetUtf16FromUtf8 p;
        out ← utf8_to_utf16_loop fuel p'
                (avail - (Z.of_nat (length p) - Z.of_nat (length p')));
        Some (emit_utf16 ch ++ out)
      else Some []
  end.
Definition ConvertModifiedUtf8ToUtf16 (out_chars : Z) (utf8_data_in : list Z) (in_bytes : Z)
    : option (list Z) :=
  if out_chars =? in_bytes then ascii_to_utf16 utf8_data_in (Z.to_nat in_bytes)
  else utf8_to_utf16_loop (S (length utf8_data_in)) utf8_data_in in_bytes.

(** ** Conversion to modified UTF-8 *)

Fixpoint utf16_to_utf8_loop (utf16_in : list Z) : list Z :=
  match utf16_in with
  | [] => []
  | ch :: rest =>
      let single :=
        (if 0x07ff <? ch then
           [u8 ((ch >> 12) ||| 0xe0); u8 (((ch >> 6) &&& 0x3f) ||| 0x80);
            u8 ((ch &&& 0x3f) ||| 0x80)]
         else [u8 ((ch >> 6) ||| 0xc0); u8 ((ch &&& 0x3f) ||| 0x80)]) in
      if (0 <? ch) && (ch <=? 0x7f) then u8 ch :: utf16_to_utf8_loop rest
      else if (0xd800 <=? ch) && (ch <=? 0xdbff) then
        match rest with
        | ch2 :: rest' =>
            if (0xdc00 <=? ch2) && (ch2 <=? 0xdfff) then
              let code_point := u32 ((ch << 10) + ch2 - 0x035fdc00) in
              [u8 ((code_point >> 18) ||| 0xf0); u8 (((code_point >> 12) &&& 0x3f) ||| 0x80);
               u8 (((code_point >> 6) &&& 0x3f) ||| 0x80); u8 ((code_point &&& 0x3f) ||| 0x80)]
              ++ utf16_to_utf8_loop rest'
            else single ++ utf16_to_utf8_loop rest
        | [] => single ++ utf16_to_utf8_loop rest
        end
      else single ++ utf16_to_utf8_loop rest
  end.
Definition ConvertUtf16ToModifiedUtf8 (byte_count : Z) (utf16_in : list Z) : list Z :=
  if byte_count =? Z.of_nat (length utf16_in) then u8 <$> utf16_in
  else utf16_to_utf8_loop utf16_in.

(** ** Hashes *)

Fixpoint utf16_hash_loop (hash : Z) (chars : list Z) : Z :=
  match chars with
  | [] => hash
  | c :: chars => utf16_hash_loop (u32 (hash * 31 + c)) chars
  end.
Definition ComputeUtf16Hash (chars : list Z) : Z := s32 (utf16_hash_loop 0 chars).

Fixpoint utf8_hash_loop (fuel : nat) (hash : Z) (utf8 : list Z) (utf16_length : Z) : option Z :=
  match fuel with
  | O => None
  | S fuel =>
      if utf16_length =? 0 then Some hash else
      '(pair_, utf8) ← GetUtf16FromUtf8 utf8;
      let first := GetLeadingUtf16Char pair_ in
      let hash := u32 (hash * 31 + first) in
      let utf16_length := u64 (utf16_length - 1) in
      let second := GetTrailingUtf16Char pair_ in
      if negb (second =? 0)
      then utf8_hash_loop fuel (u32 (hash * 31 + second)) utf8 (u64 (utf16_length - 1))
      else utf8_hash_loop fuel hash utf8 utf16_length
  end.
Definition ComputeUtf16HashFromModifiedUtf8 (utf8 : list Z) (utf16_length : Z) : option Z :=
  s32 <$> utf8_hash_loop (S (length utf8)) 0 utf8 utf16_length.

(** [char] is signed on the x86 targets. *)
Fixpoint ComputeModifiedUtf8Hash_loop (hash : Z) (chars : list Z) : option Z :=
  match chars with
  | [] => None
  | c :: chars =>
      if c =? 0 then Some hash else ComputeModifiedUtf8Hash_loop (u32 (hash * 31 + s8 c)) chars
  end.
Definition ComputeModifiedUtf8Hash (chars : list Z) : option Z :=
  (fun hash => u32 (s32 hash)) <$> ComputeModifiedUtf8Hash_loop 0 chars.

(** ** Comparison *)

Fixpoint CompareModifiedUtf8ToUtf16_loop (fuel : nat) (utf8 utf16 : list Z) : option Z :=
  match fuel with
  | O => None
  | S fuel =>
      '(c, _) ← read_byte utf8;
      if c =? 0 then Some (if decide (utf16 = []) then 0 else -1) else
      match utf16 with
      | [] => Some 1
      | rhs :: utf16 =>
          '(pair_, utf8) ← GetUtf16FromUtf8 utf8;
          let lhs := GetLeadingUtf16Char pair_ in
          if negb (lhs =? rhs) then Some (if rhs <? lhs then 1 else -1) else
          let lhs2 := GetTrailingUtf16Char pair_ in
          if negb (lhs2 =? 0) then
            match utf16 with
            | [] => Some 1
            | rhs2 :: utf16 =>
                if negb (lhs2 =? rhs2) then Some (if rhs2 <? lhs2 then 1 else -1)
                else CompareModifiedUtf8ToUtf16_loop fuel utf8 utf16
            end
          else CompareModifiedUtf8ToUtf16_loop fuel utf8 utf16
      end
  end.
Definition CompareModifiedUtf8ToUtf16AsCodePointValues (utf8 utf16 : list Z) : option Z :=
  CompareModifiedUtf8ToUtf16_loop (S (length utf8)) utf8 utf16.

Fixpoint CompareUtf8_loop (fuel : nat) (utf8_1 utf8_2 : list Z) : option Z :=
  match fuel with
  | O => None
  | S fuel =>
      '(c1, _) ← read_byte utf8_1;
      '(c2, _) ← read_byte utf8_2;
      if c1 =? 0 then Some (if c2 =? 0 then 0 else -1)
      else if c2 =? 0 then Some 1 else
      '(c1, utf8_1) ← GetUtf16FromUtf8 utf8_1;
      '(c2, utf8_2) ← GetUtf16FromUtf8 utf8_2;
      if c1 =? c2 then CompareUtf8_loop fuel utf8_1 utf8_2 else
      let leading_surrogate_diff := u32 (GetLeadingUtf16Char c1 - GetLeadingUtf16Char c2) in
      if negb (leading_surrogate_diff =? 0) then Some (s32 leading_surrogate_diff)
      else Some (GetTrailingUtf16Char c1 - GetTrailingUtf16Char c2)
  end.
Definition CompareModifiedUtf8ToModifiedUtf8AsUtf16CodePointValues (utf8_1 utf8_2 : list Z)
    : option Z :=
  CompareUtf8_loop (S (length utf8_1)) utf8_1 utf8_2.

(** ** Bit fields of the encoded forms *)

Lemma land_3f x : x &&& 0x3f = x mod 64.
Proof. apply (land_ones_mod x 6). lia. Qed.
Lemma land_1f x : x &&& 0x1f = x mod 32.
Proof. apply (land_ones_mod x 5). lia. Qed.
Lemma land_0f x : x &&& 0x0f = x mod 16.
Proof. apply (land_ones_mod x 4). lia. Qed.
Lemma land_3ff x : x &&& 0x03ff = x mod 1024.
Proof. apply (land_ones_mod x 10). lia. Qed.
Lemma land_ffff x : x &&& 0xffff = x mod 65536.
Proof. apply (land_ones_mod x 16). lia. Qed.
Lemma test_80 x : (x &&& 0x80 =? 0) = ((x / 128) mod 2 =? 0).
Proof. apply (land_pow2_test x 7). lia. Qed.
Lemma test_20 x : (x &&& 0x20 =? 0) = ((x / 32) mod 2 =? 0).
Proof. apply (land_pow2_test x 5). lia. Qed.
Lemma test_10 x : (x &&& 0x10 =? 0) = ((x / 16) mod 2 =? 0).
Proof. apply (land_pow2_test x 4). lia. Qed.

(** A tag byte: the flag bits [c] above the [k] payload bits. *)
Lemma tag_byte x c k :
  0 <= k -> 0 <= x < 2 ^ k -> c mod 2 ^ k = 0 -> 0 <= x + c < 256 -> u8 (x ||| c) = x + c.
Proof. intros. rewrite (lor_multiple x c k) by done. by apply wrap_u_id. Qed.

Create HintDb utf_bits.
#[export] Hint Rewrite land_3f land_1f land_0f land_3ff land_ffff test_80 test_20 test_10 : utf_bits.

(** Decides the tests on a leading byte of known range. *)
Ltac eval_tests :=
  repeat match goal with
  | |- context [?a mod 2 =? 0] =>
      first [ rewrite (proj2 (Z.eqb_eq (a mod 2) 0)) by zdiv
            | rewrite (proj2 (Z.eqb_neq (a mod 2) 0)) by zdiv ]
  end.

Lemma get_one_byte ch tl : 0 <= ch < 0x80 -> GetUtf16FromUtf8 (u8 ch :: tl) = Some (ch, tl).
Proof.
  intros. unfold GetUtf16FromUtf8. simpl. rewrite wrap_u_id by (unfold in_u; lia).
  autorewrite with utf_bits. by eval_tests.
Qed.

Lemma get_two_bytes ch tl :
  0 <= ch <= 0x07ff ->
  GetUtf16FromUtf8 (u8 ((ch >> 6) ||| 0xc0) :: u8 ((ch &&& 0x3f) ||| 0x80) :: tl)
  = Some (ch, tl).
Proof.
  intros. rewrite Z.shiftr_div_pow2, land_3f by lia. pows.
  rewrite (tag_byte _ 0xc0 6), (tag_byte _ 0x80 6) by (pows; zdiv).
  unfold GetUtf16FromUtf8. simpl. autorewrite with utf_bits. eval_tests.
  rewrite shiftl_lor by (pows; zdiv). pows. do 2 f_equal. zdiv.
Qed.

Lemma get_three_bytes ch tl :
  0x07ff < ch < 2 ^ 16 ->
  GetUtf16FromUtf8 (u8 ((ch >> 12) ||| 0xe0) :: u8 (((ch >> 6) &&& 0x3f) ||| 0x80)
                      :: u8 ((ch &&& 0x3f) ||| 0x80) :: tl)
  = Some (ch, tl).
Proof.
  intros. rewrite !Z.shiftr_div_pow2, !land_3f by lia. pows.
  rewrite (tag_byte _ 0xe0 4), !(tag_byte _ 0x80 6) by (pows; zdiv).
  unfold GetUtf16FromUtf8. simpl. autorewrite with utf_bits. eval_tests.
  rewrite <- Z.lor_assoc, !shiftl_lor by (rewrite ?shiftl_lor by (pows; zdiv); pows; zdiv).
  pows. do 2 f_equal. zdiv.
Qed.

(** The code point of a surrogate pair. *)
Definition pair_code_point (ch ch2 : Z) : Z := (ch - 0xd800) * 1024 + (ch2 - 0xdc00) + 0x10000.

Lemma get_four_bytes ch ch2 tl :
  0xd800 <= ch <= 0xdbff -> 0xdc00 <= ch2 <= 0xdfff ->
  let code_point := u32 ((ch << 10) + ch2 - 0x035fdc00) in
  GetUtf16FromUtf8
    (u8 ((code_point >> 18) ||| 0xf0) :: u8 (((code_point >> 12) &&& 0x3f) ||| 0x80)
     :: u8 (((code_point >> 6) &&& 0x3f) ||| 0x80) :: u8 ((code_point &&& 0x3f) ||| 0x80) :: tl)
  = Some (ch + ch2 * 2 ^ 16, tl).
Proof.
  intros H1 H2. rewrite Z.shiftl_mul_pow2 by lia. intros cp.
  assert (cp = pair_code_point ch ch2) as -> by (unfold cp, pair_code_point; wraps).
  remember (pair_code_point ch ch2) as c eqn:Ec. unfold pair_code_point in Ec.
  rewrite !Z.shiftr_div_pow2, !land_3f by lia. pows.
  rewrite (tag_byte _ 0xf0 4), !(tag_byte _ 0x80 6) by (pows; zdiv).
  unfold GetUtf16FromUtf8. simpl. autorewrite with utf_bits. eval_tests.
  set (b1 := c / 262144). set (b2 := (c / 4096) mod 64). set (b3 := (c / 64) mod 64).
  assert ((((b1 + 240) mod 16) << 18) ||| (((b2 + 128) mod 64) << 12)
          ||| (((b3 + 128) mod 64) << 6) ||| ((c mod 64 + 128) mod 64) = c) as ->.
  { rewrite <- !Z.lor_assoc.
    rewrite (shiftl_lor _ _ 6) by (pows; zdiv). pows.
    rewrite (shiftl_lor _ _ 12) by (pows; zdiv). pows.
    rewrite (shiftl_lor _ _ 18) by (pows; subst b1 b2 b3; zdiv). pows. subst b1 b2 b3. zdiv. }
  rewrite Z.lor_0_l, Z.shiftr_div_pow2 by lia. pows.
  rewrite (wrap_u_id 32 (c mod 1024 + _)), (wrap_u_id 32 (c / 1024 + _)) by wraps.
  rewrite (Z.mod_small (c / 1024 + 55232)) by zdiv.
  rewrite Z.shiftl_mul_pow2 by lia.
  rewrite wrap_u_id by wraps. rewrite <- Z.shiftl_mul_pow2, lor_shiftl by (pows; zdiv).
  do 2 f_equal. zdiv.
Qed.

(** ** One step of the encoder and what every decoder makes of it *)

Definition is_high (c : Z) : Prop := 0xd800 <= c <= 0xdbff.
Definition is_low (c : Z) : Prop := 0xdc00 <= c <= 0xdfff.

(** [c] is the packed form of the one or two code units [us]. *)
Inductive packs : list Z -> Z -> Prop :=
| packs_one c : in_u 16 c -> packs [c] c
| packs_two h l : is_high h -> is_low l -> packs [h; l] (h + l * 2 ^ 16).

(** The bytes [bs] encode the first units [us] of [us ++ rest]. *)
Record encodes (us bs : list Z) (c : Z) : Prop := {
  enc_packs : packs us c;
  enc_bytes : Forall (fun b => 0 < b < 256) bs;
  enc_get : forall tl, GetUtf16FromUtf8 (bs ++ tl) = Some (c, tl);
  enc_count : forall fuel tl n len, 0 <= n ->
    CountModifiedUtf8Chars_loop (S fuel) (bs ++ tl) (Z.of_nat (length bs) + n) len =
    CountModifiedUtf8Chars_loop fuel tl n (len + Z.of_nat (length us));
  enc_ascii : (length us <= length bs)%nat /\
    (length us = length bs -> bs = us /\ Forall (fun b => 0 < b < 128) us)
}.

Ltac byte_range := repeat constructor; wraps.

Lemma count_step fuel b bs tl n len (k : nat) :
  0 <= n -> length bs = k ->
  (k = 0%nat /\ (b / 128) mod 2 = 0 \/
   k = 1%nat /\ (b / 128) mod 2 <> 0 /\ (b / 32) mod 2 = 0 \/
   k = 2%nat /\ (b / 128) mod 2 <> 0 /\ (b / 32) mod 2 <> 0 /\ (b / 16) mod 2 = 0 \/
   k = 3%nat /\ (b / 128) mod 2 <> 0 /\ (b / 32) mod 2 <> 0 /\ (b / 16) mod 2 <> 0) ->
  CountModifiedUtf8Chars_loop (S fuel) (b :: bs ++ tl) (Z.of_nat (S (length bs)) + n) len =
  CountModifiedUtf8Chars_loop fuel tl n (len + (if Nat.eqb k 3 then 2 else 1)).
Proof.
  intros Hn <- Hk. simpl CountModifiedUtf8Chars_loop.
  rewrite (proj2 (Z.ltb_lt _ _)) by lia. autorewrite with utf_bits.
  destruct bs as [|x1 [|x2 [|x3 [|x4 bs]]]]; simpl length in *;
    (destruct Hk as [(E & H1)|[(E & H1 & H2)|[(E & H1 & H2 & H3)|(E & H1 & H2 & H3)]]];
     [try discriminate E ..]; eval_tests; simpl; rewrite ?drop_0; f_equal; lia).
Qed.

Lemma encodes_one ch : 0 < ch < 0x80 -> encodes [ch] [u8 ch] ch.
Proof.
  intros H. rewrite wrap_u_id by (unfold in_u; lia). constructor.
  - constructor. unfold in_u. pows. lia.
  - byte_range.
  - intros tl. rewrite <- (wrap_u_id 8 ch) at 1 by (unfold in_u; lia).
    apply get_one_byte. lia.
  - intros. apply (count_step _ ch [] tl n len 0); [done|done|]. left. split; [done|zdiv].
  - split; [done|]. intros _. split; [done|]. constructor; [lia|constructor].
Qed.

Lemma encodes_two ch :
  0 <= ch <= 0x07ff -> encodes [ch] [u8 ((ch >> 6) ||| 0xc0); u8 ((ch &&& 0x3f) ||| 0x80)] ch.
Proof.
  intros H. constructor.
  - constructor. unfold in_u. pows. lia.
  - rewrite Z.shiftr_div_pow2, land_3f by lia. pows.
    rewrite (tag_byte _ 0xc0 6), (tag_byte _ 0x80 6) by (pows; zdiv). byte_range.
  - intros tl. by apply get_two_bytes.
  - intros. apply (count_step _ _ [_] tl n len 1); [done|done|]. right. left.
    rewrite Z.shiftr_div_pow2, (tag_byte _ 0xc0 6) by (pows; zdiv). pows. zdiv.
  - split; simpl; lia.
Qed.

Lemma encodes_three ch :
  0x07ff < ch < 2 ^ 16 ->
  encodes [ch] [u8 ((ch >> 12) ||| 0xe0); u8 (((ch >> 6) &&& 0x3f) ||| 0x80);
                u8 ((ch &&& 0x3f) ||| 0x80)] ch.
Proof.
  intros H. constructor.
  - constructor. unfold in_u. pows. lia.
  - rewrite !Z.shiftr_div_pow2, !land_3f by lia. pows.
    rewrite (tag_byte _ 0xe0 4), !(tag_byte _ 0x80 6) by (pows; zdiv). byte_range.
  - intros tl. by apply get_three_bytes.
  - intros. apply (count_step _ _ [_; _] tl n len 2); [done|done|]. do 2 right. left.
    rewrite Z.shiftr_div_pow2, (tag_byte _ 0xe0 4) by (pows; zdiv). pows. zdiv.
  - split; simpl; lia.
Qed.

Lemma encodes_four ch ch2 :
  is_high ch -> is_low ch2 ->
  let code_point := u32 ((ch << 10) + ch2 - 0x035fdc00) in
  encodes [ch; ch2]
    [u8 ((code_point >> 18) ||| 0xf0); u8 (((code_point >> 12) &&& 0x3f) ||| 0x80);
     u8 (((code_point >> 6) &&& 0x3f) ||| 0x80); u8 ((code_point &&& 0x3f) ||| 0x80)]
    (ch + ch2 * 2 ^ 16).
Proof.
  intros H1 H2 cp. unfold is_high, is_low in *.
  assert (0x10000 <= cp <= 0x10ffff) as Hc
    by (unfold cp; rewrite Z.shiftl_mul_pow2 by lia; wraps).
  constructor.
  - by constructor.
  - rewrite !Z.shiftr_div_pow2, !land_3f by lia. pows.
    rewrite (tag_byte _ 0xf0 4), !(tag_byte _ 0x80 6) by (pows; zdiv). byte_range.
  - intros tl. by apply get_four_bytes.
  - intros. apply (count_step _ _ [_; _; _] tl n len 3); [done|done|]. do 3 right.
    rewrite Z.shiftr_div_pow2, (tag_byte _ 0xf0 4) by (pows; zdiv). pows. zdiv.
  - split; simpl; lia.
Qed.

(** Well-formed UTF-16: every surrogate is half of a pair. *)
Definition high_b (c : Z) : bool := (0xd800 <=? c) && (c <=? 0xdbff).
Definition low_b (c : Z) : bool := (0xdc00 <=? c) && (c <=? 0xdfff).
Fixpoint well_paired (s : list Z) : bool :=
  match s with
  | [] => true
  | c :: s =>
      if high_b c then match s with l :: s' => low_b l && well_paired s' | [] => false end
      else negb (low_b c) && well_paired s
  end.

(** The sizing and the encoding loop test the same ranges. *)
Lemma ascii_test ch :
  0 <= ch -> negb (ch =? 0) && (ch <? 0x80) = (0 <? ch) && (ch <=? 0x7f).
Proof.
  intros. destruct (Z.eqb_spec ch 0), (Z.ltb_spec ch 0x80), (Z.ltb_spec 0 ch),
    (Z.leb_spec ch 0x7f); simpl; lia.
Qed.

Lemma surrogate_test n ch : (ch <? n) = (ch <=? n - 1).
Proof. destruct (Z.ltb_spec ch n), (Z.leb_spec ch (n - 1)); lia. Qed.

(** Every non-empty sequence of code units splits off one encoded step. *)
Lemma encode_step s :
  Forall (in_u 16) s -> s <> [] ->
  exists us bs c rest, s = us ++ rest /\ encodes us bs c /\
    utf16_to_utf8_loop s = bs ++ utf16_to_utf8_loop rest /\
    CountUtf8Bytes s = Z.of_nat (length bs) + CountUtf8Bytes rest /\
    (well_paired s = true -> well_paired rest = true /\ (us = [c] -> high_b c = false)).
Proof.
  intros Hs Hne. destruct s as [|ch s]; [done|]. apply Forall_cons_1 in Hs as [Hc Hs].
  unfold in_u in Hc. cbn [utf16_to_utf8_loop CountUtf8Bytes well_paired].
  unfold high_b, low_b in *.
  rewrite ascii_test, (surrogate_test 0xdc00) by lia. change (0xdc00 - 1) with 0xdbff.
  destruct ((0 <? ch) && (ch <=? 0x7f)) eqn:E1.
  { exists [ch], [u8 ch], ch, s. bools. rewrite (proj2 (Z.leb_gt 0xd800 ch)) by lia.
    split; [done|]. split; [apply encodes_one; lia|]. do 2 (split; [done|]).
    intros Hw. apply andb_true_iff in Hw as [_ Hw]. done. }
  destruct (Z.le_gt_cases ch 0x07ff).
  { eexists [ch], _, ch, s. split; [done|]. split; [apply encodes_two; lia|].
    rewrite (proj2 (Z.leb_gt 0xd800 ch)), (proj2 (Z.ltb_ge 0x07ff ch)),
      (proj2 (Z.ltb_lt ch 0x800)) by lia. do 2 (split; [done|]).
    intros Hw. apply andb_true_iff in Hw as [_ Hw]. done. }
  rewrite (proj2 (Z.ltb_lt 0x07ff ch)), (proj2 (Z.ltb_ge ch 0x800)) by lia.
  destruct ((0xd800 <=? ch) && (ch <=? 0xdbff)) eqn:E2;
    [destruct s as [|ch2 s];
      [|rewrite (surrogate_test 0xe000); change (0xe000 - 1) with 0xdfff;
        destruct ((0xdc00 <=? ch2) && (ch2 <=? 0xdfff)) eqn:E3]|].
  2: { eexists [ch; ch2], _, _, s. bools. split; [done|]. by split; [apply encodes_four|]. }
  all: eexists [ch], _, ch, _; split; [done|]; split; [apply encodes_three; lia|];
    do 2 (split; [done|]); intros Hw; try done.
  apply andb_true_iff in Hw as [_ Hw]. done.
Qed.

Lemma packs_nonempty us c : packs us c -> (0 < length us)%nat.
Proof. intros []; simpl; lia. Qed.

(** Induction along the encoder's steps. *)
Lemma utf16_ind (P : list Z -> Prop) :
  P [] ->
  (forall us bs c rest, Forall (in_u 16) rest -> encodes us bs c ->
     utf16_to_utf8_loop (us ++ rest) = bs ++ utf16_to_utf8_loop rest ->
     CountUtf8Bytes (us ++ rest) = Z.of_nat (length bs) + CountUtf8Bytes rest ->
     (well_paired (us ++ rest) = true ->
        well_paired rest = true /\ (us = [c] -> high_b c = false)) ->
     P rest -> P (us ++ rest)) ->
  forall s, Forall (in_u 16) s -> P s.
Proof.
  intros H0 Hstep s. remember (length s) as n eqn:Hn.
  revert s Hn. induction n as [n IH] using lt_wf_ind. intros s -> Hs.
  destruct (decide (s = [])) as [->|Hne]; [done|].
  destruct (encode_step s Hs Hne) as (us & bs & c & rest & -> & He & Hl & Hc & Hw).
  apply Forall_app in Hs as [_ Hr].
  apply (Hstep us bs c rest); try done. apply (IH (length rest)); try done.
  pose proof (packs_nonempty us c (enc_packs _ _ _ He)). rewrite length_app. lia.
Qed.

Lemma packs_units us c :
  packs us c -> emit_utf16 c = us /\ GetLeadingUtf16Char c = default 0 (us !! 0%nat) /\
                GetTrailingUtf16Char c = default 0 (us !! 1%nat).
Proof.
  unfold emit_utf16, GetLeadingUtf16Char, GetTrailingUtf16Char.
  change 0x0000FFFF with 0xffff.
  intros [c' Hc|h l Hh Hl]; rewrite land_ffff, Z.shiftr_div_pow2 by lia;
    unfold is_high, is_low, in_u in *; pows; simpl.
  - rewrite (wrap_u_id 16 (c' mod _)), Z.mod_small by wraps.
    rewrite Z.div_small by lia. by rewrite wrap_u_id by wraps.
  - replace ((h + l * 65536) / 65536) with l by zdiv.
    replace ((h + l * 65536) mod 65536) with h by zdiv.
    rewrite !wrap_u_id by wraps. by rewrite (proj2 (Z.eqb_neq l 0)) by lia.
Qed.

Lemma encodes_bytes_nonempty us bs c : encodes us bs c -> (0 < length bs)%nat.
Proof.
  intros H. destruct (enc_ascii _ _ _ H) as [Hl _].
  pose proof (packs_nonempty _ _ (enc_packs _ _ _ H)). lia.
Qed.

(** The encoding as the callers make it: sized by [CountUtf8Bytes]. *)
Definition to_modified_utf8 (s : list Z) : list Z :=
  ConvertUtf16ToModifiedUtf8 (CountUtf8Bytes s) s.

Lemma utf8_loop_length s :
  Forall (in_u 16) s -> Z.of_nat (length (utf16_to_utf8_loop s)) = CountUtf8Bytes s.
Proof.
  revert s. apply utf16_ind; [done|]. intros us bs c rest _ _ -> -> _ IH.
  rewrite length_app. lia.
Qed.

Lemma utf8_loop_bytes s :
  Forall (in_u 16) s -> Forall (fun b => 0 < b < 256) (utf16_to_utf8_loop s).
Proof.
  revert s. apply utf16_ind; [constructor|]. intros us bs c rest _ He -> _ _ IH.
  apply Forall_app. split; [apply (enc_bytes _ _ _ He)|done].
Qed.

(** The sizes agree only on all-ASCII strings, so the fast paths are exact. *)
Lemma utf8_loop_ascii s :
  Forall (in_u 16) s ->
  (length s <= length (utf16_to_utf8_loop s))%nat /\
  (length s = length (utf16_to_utf8_loop s) ->
     utf16_to_utf8_loop s = s /\ Forall (fun b => 0 < b < 128) s).
Proof.
  revert s. apply utf16_ind; [done|]. intros us bs c rest _ He -> _ _ [IH1 IH2].
  destruct (enc_ascii _ _ _ He) as [H1 H2]. rewrite !length_app. split; [lia|]. intros E.
  destruct H2 as [-> H2]; [lia|]. destruct IH2 as [IH2 IH3]; [lia|].
  rewrite IH2. split; [done|]. by apply Forall_app.
Qed.

Lemma to_modified_utf8_loop s :
  Forall (in_u 16) s -> to_modified_utf8 s = utf16_to_utf8_loop s.
Proof.
  intros Hs. unfold to_modified_utf8, ConvertUtf16ToModifiedUtf8. case_if; [|done]. bools.
  rewrite <- utf8_loop_length in E by done.
  destruct (utf8_loop_ascii s Hs) as [_ H]. destruct H as [-> H]; [lia|].
  clear -H. induction H as [|b s Hb _ IH]; [done|].
  rewrite fmap_cons, IH. f_equal. apply wrap_u_id. unfold in_u. lia.
Qed.

#[local] Opaque emit_utf16 GetUtf16FromUtf8 GetLeadingUtf16Char GetTrailingUtf16Char.

(** ** The decoders on encoded strings *)

Lemma encodes_head us bs c :
  encodes us bs c -> exists b p, bs = b :: p /\ (b =? 0) = false.
Proof.
  intros He. pose proof (encodes_bytes_nonempty _ _ _ He). pose proof (enc_bytes _ _ _ He) as Hb.
  destruct bs as [|b p]; [simpl in *; lia|]. apply Forall_cons_1 in Hb as [Hb _].
  eexists _, _. split; [done|]. apply Z.eqb_neq. lia.
Qed.

Lemma cstr_to_utf16_encoded s :
  Forall (in_u 16) s -> forall fuel, (length (utf16_to_utf8_loop s) < fuel)%nat ->
  cstr_to_utf16_loop fuel (utf16_to_utf8_loop s ++ [0]) = Some s.
Proof.
  revert s. apply (utf16_ind (fun s => forall fuel, _ -> _)); [by intros [|f]; [lia|]|].
  intros us bs c rest Hr He El _ _ IH [|f]; rewrite El, length_app; [lia|]. intros Hf.
  simpl. rewrite <- app_assoc.
  destruct (encodes_head _ _ _ He) as (b & p & -> & Eb).
  pose proof (enc_get _ _ _ He (utf16_to_utf8_loop rest ++ [0])) as Hg.
  simpl in Hf, Hg |- *. rewrite Eb, Hg. simpl. rewrite IH by (simpl in Hf; lia). simpl.
  by rewrite (proj1 (packs_units _ _ (enc_packs _ _ _ He))).
Qed.

Lemma utf8_to_utf16_encoded s tl :
  Forall (in_u 16) s -> forall fuel, (length (utf16_to_utf8_loop s) < fuel)%nat ->
  utf8_to_utf16_loop fuel (utf16_to_utf8_loop s ++ tl) (CountUtf8Bytes s) = Some s.
Proof.
  revert s. apply (utf16_ind (fun s => forall fuel, _ -> _)); [by intros [|f]; [lia|]|].
  intros us bs c rest Hr He El Ec _ IH [|f]; rewrite El, Ec, length_app; [lia|]. intros Hf.
  simpl utf8_to_utf16_loop. pose proof (encodes_bytes_nonempty _ _ _ He).
  pose proof (utf8_loop_length rest Hr).
  rewrite <- app_assoc, (proj2 (Z.ltb_lt _ _)), (enc_get _ _ _ He) by lia. simpl.
  rewrite (length_app bs).
  replace (Z.of_nat (length bs) + CountUtf8Bytes rest - _) with (CountUtf8Bytes rest) by lia.
  rewrite IH by lia. simpl. by rewrite (proj1 (packs_units _ _ (enc_packs _ _ _ He))).
Qed.

Lemma CountModifiedUtf8Chars_encoded s tl :
  Forall (in_u 16) s -> forall fuel len, (length (utf16_to_utf8_loop s) < fuel)%nat ->
  CountModifiedUtf8Chars_loop fuel (utf16_to_utf8_loop s ++ tl) (CountUtf8Bytes s) len =
  Some (len + Z.of_nat (length s)).
Proof.
  revert s. apply (utf16_ind (fun s => forall fuel len, _ -> _)).
  { intros [|f] len Hf; [lia|]. simpl. f_equal. lia. }
  intros us bs c rest Hr He El Ec _ IH [|f] len; rewrite El, Ec, length_app; [lia|]. intros Hf.
  pose proof (utf8_loop_length rest Hr). pose proof (encodes_bytes_nonempty _ _ _ He).
  rewrite <- app_assoc, (enc_count _ _ _ He), IH by lia. f_equal. rewrite length_app. lia.
Qed.

Lemma ascii_to_utf16_ascii s tl :
  Forall (fun b => 0 < b < 128) s -> ascii_to_utf16 (s ++ tl) (length s) = Some s.
Proof.
  induction 1 as [|b s Hb _ IH]; [done|]. simpl. rewrite IH. simpl.
  by rewrite wrap_s_id, wrap_u_id by (unfold in_u, in_s; pows; lia).
Qed.

(** The counted routines read nothing after the encoded bytes. *)
Lemma CountModifiedUtf8Chars_prefix s tl :
  Forall (in_u 16) s ->
  CountModifiedUtf8Chars (utf16_to_utf8_loop s ++ tl) (CountUtf8Bytes s) = Some (Z.of_nat (length s)).
Proof.
  intros Hs. unfold CountModifiedUtf8Chars.
  rewrite CountModifiedUtf8Chars_encoded by (rewrite ?length_app; done || lia). done.
Qed.

Lemma ConvertModifiedUtf8ToUtf16_prefix s tl :
  Forall (in_u 16) s ->
  ConvertModifiedUtf8ToUtf16 (Z.of_nat (length s)) (utf16_to_utf8_loop s ++ tl) (CountUtf8Bytes s) = Some s.
Proof.
  intros Hs. pose proof (utf8_loop_length s Hs) as Hl. unfold ConvertModifiedUtf8ToUtf16.
  case_if; bools; [|apply utf8_to_utf16_encoded; [done|rewrite length_app; lia]].
  destruct (utf8_loop_ascii s Hs) as [_ H]. destruct H as [-> H]; [lia|].
  rewrite <- E, Nat2Z.id. by apply ascii_to_utf16_ascii.
Qed.

(** C28. Modified UTF-8 round trip: any sequence of 16-bit code units, unpaired
    surrogates and zeros included, is encoded into exactly [CountUtf8Bytes]
    bytes none of which is zero; [CountModifiedUtf8Chars] of them is the number
    of code units; and both decoders, the counted one with its ASCII fast path
    and the C-string one, give the code units back. *)
Theorem modified_utf8_roundtrip s :
  Forall (in_u 16) s ->
  let n := CountUtf8Bytes s in
  let utf8 := ConvertUtf16ToModifiedUtf8 n s in
  Z.of_nat (length utf8) = n /\ Forall (fun b => 0 < b < 256) utf8 /\
  CountModifiedUtf8Chars utf8 n = Some (Z.of_nat (length s)) /\
  ConvertModifiedUtf8ToUtf16 (Z.of_nat (length s)) utf8 n = Some s /\
  ConvertModifiedUtf8ToUtf16_cstr (utf8 ++ [0]) = Some s.
Proof.
  intros Hs n utf8. subst utf8 n. fold (to_modified_utf8 s).
  rewrite to_modified_utf8_loop by done. pose proof (utf8_loop_length s Hs) as Hl.
  split; [done|]. split; [by apply utf8_loop_bytes|].
  split; [apply CountModifiedUtf8Chars_prefix with (tl := []) in Hs; by rewrite app_nil_r in Hs|].
  split; [|apply cstr_to_utf16_encoded; [done|rewrite length_app; simpl; lia]].
  pose proof (ConvertModifiedUtf8ToUtf16_prefix s [] Hs) as H. by rewrite app_nil_r in H.
Qed.

(** An ASCII letter, U+0000, an emoji and an unpaired surrogate. *)
Lemma modified_utf8_roundtrip_witness :
  let s := [0x41; 0; 0xd83d; 0xde00; 0xd800] in
  ConvertUtf16ToModifiedUtf8 (CountUtf8Bytes s) s =
    [0x41; 0xc0; 0x80; 0xf0; 0x9f; 0x98; 0x80; 0xed; 0xa0; 0x80] /\
  ConvertModifiedUtf8ToUtf16_cstr (ConvertUtf16ToModifiedUtf8 (CountUtf8Bytes s) s ++ [0])
  = Some s.
Proof.
  intros s. split; [reflexivity|].
  refine (proj2 (proj2 (proj2 (proj2 (modified_utf8_roundtrip s _))))).
  repeat constructor; unfold in_u; lia.
Defined.

(** ** Hashes *)

Lemma utf16_hash_loop_app h us rest :
  utf16_hash_loop h (us ++ rest) = utf16_hash_loop (utf16_hash_loop h us) rest.
Proof. revert h. induction us; intros; simpl; auto. Qed.

Lemma utf8_hash_encoded s :
  Forall (in_u 16) s -> forall fuel h tl, (length (utf16_to_utf8_loop s) < fuel)%nat ->
  in_u 64 (Z.of_nat (length s)) ->
  utf8_hash_loop fuel h (utf16_to_utf8_loop s ++ tl) (Z.of_nat (length s)) =
  Some (utf16_hash_loop h s).
Proof.
  revert s. apply (utf16_ind (fun s => forall fuel h tl, _ -> _ -> _)).
  { by intros [|f] h tl Hf _; [lia|]. }
  intros us bs c rest Hr He El _ _ IH [|f] h tl; rewrite El, length_app; [lia|]. intros Hf Hn.
  simpl utf8_hash_loop. pose proof (encodes_bytes_nonempty _ _ _ He).
  rewrite <- app_assoc, (enc_get _ _ _ He). simpl.
  destruct (packs_units _ _ (enc_packs _ _ _ He)) as (_ & -> & ->).
  rewrite utf16_hash_loop_app, length_app in *. clear El.
  unfold in_u in Hn, IH. destruct (enc_packs _ _ _ He) as [c' Hc|hi lo Hh Hlo]; simpl in *.
  - replace (u64 _) with (Z.of_nat (length rest)) by wraps.
    by rewrite IH by lia.
  - unfold is_low in Hlo. rewrite (proj2 (Z.eqb_neq lo 0)) by lia. simpl.
    replace (u64 (u64 _ - 1)) with (Z.of_nat (length rest)) by wraps.
    by rewrite IH by lia.
Qed.

(** Hashing without conversion: the hash computed from the modified UTF-8
    bytes of a string is [String.hashCode] of its code units, for strings up to
    the size of the address space; it stops after the last code unit and reads
    nothing after the encoded bytes. *)
Theorem utf8_hash_is_utf16_hash s tl :
  Forall (in_u 16) s -> in_u 64 (Z.of_nat (length s)) ->
  ComputeUtf16HashFromModifiedUtf8 (ConvertUtf16ToModifiedUtf8 (CountUtf8Bytes s) s ++ tl)
    (Z.of_nat (length s)) = Some (ComputeUtf16Hash s).
Proof.
  intros Hs Hn. fold (to_modified_utf8 s). rewrite to_modified_utf8_loop by done.
  unfold ComputeUtf16HashFromModifiedUtf8.
  rewrite utf8_hash_encoded by (try done; rewrite length_app; lia). done.
Qed.

Lemma utf8_hash_is_utf16_hash_witness :
  let s := [0x68; 0xe9; 0xd83d; 0xde00] in
  ComputeUtf16HashFromModifiedUtf8 (ConvertUtf16ToModifiedUtf8 (CountUtf8Bytes s) s ++ []) 4
  = Some (ComputeUtf16Hash s) /\ ComputeUtf16Hash s = 5095076.
Proof.
  intros s. split; [|reflexivity].
  refine (utf8_hash_is_utf16_hash s [] _ _); [repeat constructor; unfold in_u; lia|].
  unfold in_u. simpl. lia.
Defined.

(** ** Comparison *)

(** Lexicographic order of code units, the order of [String.compareTo]. *)
Fixpoint compare_units (s t : list Z) : Z :=
  match s, t with
  | [], [] => 0
  | [], _ :: _ => -1
  | _ :: _, [] => 1
  | a :: s, b :: t => if a =? b then compare_units s t else if b <? a then 1 else -1
  end.

Lemma compare_to_utf16_encoded s :
  Forall (in_u 16) s -> forall fuel t, (length (utf16_to_utf8_loop s) < fuel)%nat ->
  CompareModifiedUtf8ToUtf16_loop fuel (utf16_to_utf8_loop s ++ [0]) t =
  Some (compare_units s t).
Proof.
  revert s. apply (utf16_ind (fun s => forall fuel t, _ -> _)).
  { intros [|f] t Hf; [lia|]. by destruct t. }
  intros us bs c rest Hr He El _ _ IH [|f] t; rewrite El, length_app; [lia|]. intros Hf.
  rewrite <- app_assoc. destruct (encodes_head _ _ _ He) as (b & p & -> & Eb).
  pose proof (enc_get _ _ _ He (utf16_to_utf8_loop rest ++ [0])) as Hg.
  simpl in Hf, Hg |- *. rewrite Eb. destruct (packs_units _ _ (enc_packs _ _ _ He)) as (_ & E1 & E2).
  destruct t as [|rhs t].
  { by destruct (enc_packs _ _ _ He). }
  rewrite Hg. simpl. rewrite E1, E2. clear El.
  destruct (enc_packs _ _ _ He) as [c' Hc|hi lo Hh Hlo]; simpl.
  - destruct (c' =? rhs); simpl; [apply IH; lia|done].
  - destruct (hi =? rhs); simpl; [|done]. unfold is_low in Hlo.
    rewrite (proj2 (Z.eqb_neq lo 0)) by lia. simpl. destruct t as [|rhs2 t]; [done|].
    destruct (lo =? rhs2); simpl; [apply IH; lia|done].
Qed.

Lemma packs_inj us us' c : packs us c -> packs us' c -> us = us'.
Proof. intros H H'. by rewrite <- (proj1 (packs_units _ _ H)), (proj1 (packs_units _ _ H')). Qed.

Lemma compare_units_app us s t : compare_units (us ++ s) (us ++ t) = compare_units s t.
Proof. induction us; simpl; [done|]. by rewrite Z.eqb_refl. Qed.

Lemma if_some (b : bool) (x y : Z) :
  Some (if b then x else y) = (if b then Some x else Some y).
Proof. by destruct b. Qed.

(** The result of the byte-to-byte comparison at the first difference. *)
Lemma first_difference us us' c c' s t :
  packs us c -> packs us' c' -> c <> c' ->
  (us = [c] -> high_b c = false) -> (us' = [c'] -> high_b c' = false) ->
  let d := u32 (GetLeadingUtf16Char c - GetLeadingUtf16Char c') in
  Z.sgn (if negb (d =? 0) then s32 d
         else GetTrailingUtf16Char c - GetTrailingUtf16Char c') =
  compare_units (us ++ s) (us' ++ t).
Proof.
  intros H H' Hne Hp Hp'.
  destruct (packs_units _ _ H) as (_ & -> & ->), (packs_units _ _ H') as (_ & -> & ->).
  assert (forall a b, 0 <= a < 2 ^ 16 -> 0 <= b < 2 ^ 16 -> a <> b ->
    negb (u32 (a - b) =? 0) = true /\
    Z.sgn (s32 (u32 (a - b))) = (if b <? a then 1 else -1)) as Hd.
  { intros a b Ha Hb Hab. split; [apply negb_true_iff, Z.eqb_neq; wraps|].
    rewrite wrap_s_wrap_u, wrap_s_id by (unfold in_s; pows; lia). case_if; bools; lia. }
  destruct H as [a Ha|h l Hh Hl], H' as [b Hb|h' l' Hh' Hl']; simpl;
    unfold in_u, is_high, is_low in *; pows.
  - destruct (Hd a b) as [-> ->]; [pows; lia..|]. by rewrite (proj2 (Z.eqb_neq a b)).
  - assert (a <> h') by (intros ->; specialize (Hp eq_refl); unfold high_b in Hp;
      apply andb_false_iff in Hp as [Hp|Hp]; bools; lia).
    destruct (Hd a h') as [-> ->]; [pows; lia..|]. by rewrite (proj2 (Z.eqb_neq a h')).
  - assert (h <> b) by (intros ->; specialize (Hp' eq_refl); unfold high_b in Hp';
      apply andb_false_iff in Hp' as [Hp'|Hp']; bools; lia).
    destruct (Hd h b) as [-> ->]; [pows; lia..|]. by rewrite (proj2 (Z.eqb_neq h b)).
  - destruct (Z.eqb_spec h h') as [->|Hn].
    + rewrite Z.sub_diag. simpl. rewrite (proj2 (Z.eqb_neq l l')) by lia.
      case_if; bools; lia.
    + by destruct (Hd h h') as [-> ->]; [pows; lia..|].
Qed.

Lemma compare_utf8_encoded s :
  Forall (in_u 16) s -> forall fuel t, (length (utf16_to_utf8_loop s) < fuel)%nat ->
  Forall (in_u 16) t -> well_paired s = true -> well_paired t = true ->
  exists r, CompareUtf8_loop fuel (utf16_to_utf8_loop s ++ [0]) (utf16_to_utf8_loop t ++ [0])
            = Some r /\ Z.sgn r = compare_units s t.
Proof.
  revert s. apply (utf16_ind (fun s => forall fuel t, _ -> _ -> _ -> _ -> _)).
  { intros [|f] t Hf Ht _ Wt; [lia|].
    destruct (decide (t = [])) as [->|Hne]; [by eexists|].
    destruct (encode_step t Ht Hne) as (us & bs & c & rest & -> & He & -> & _ & _).
    destruct (encodes_head _ _ _ He) as (b & p & -> & Eb). eexists. simpl. rewrite Eb.
    split; [done|]. by destruct (enc_packs _ _ _ He). }
  intros us bs c rest Hr He El _ Hw IH [|f] t; rewrite El, length_app; [lia|].
  intros Hf Ht Ws Wt. destruct (Hw Ws) as [Wr Hc]. rewrite <- app_assoc.
  destruct (encodes_head _ _ _ He) as (b & p & -> & Eb).
  pose proof (enc_get _ _ _ He (utf16_to_utf8_loop rest ++ [0])) as Hg.
  destruct (decide (t = [])) as [->|Hne].
  { exists 1. simpl. rewrite Eb. split; [done|]. by destruct (enc_packs _ _ _ He). }
  destruct (encode_step t Ht Hne) as (us' & bs' & c' & rest' & -> & He' & -> & _ & Hw').
  destruct (Hw' Wt) as [Wr' Hc']. rewrite <- app_assoc.
  destruct (encodes_head _ _ _ He') as (b' & p' & -> & Eb').
  pose proof (enc_get _ _ _ He' (utf16_to_utf8_loop rest' ++ [0])) as Hg'.
  simpl in Hf, Hg, Hg' |- *. rewrite Eb, Eb', Hg. simpl. rewrite Hg'. simpl.
  apply Forall_app in Ht as [_ Ht]. destruct (Z.eqb_spec c c') as [->|Hcc].
  - rewrite (packs_inj us us' c' (enc_packs _ _ _ He) (enc_packs _ _ _ He')), compare_units_app.
    apply IH; try done. lia.
  - eexists. split; [by rewrite <- (if_some (negb _))|].
    apply first_difference; try done; [apply (enc_packs _ _ _ He)|apply (enc_packs _ _ _ He')].
Qed.

(** Both comparison routines order strings as [String.compareTo] does, by
    code units.  Against UTF-16 the result is exactly -1, 0 or 1, for any code
    units; between two encoded strings whose surrogates are paired the sign of
    the result is that order. *)
Theorem utf8_comparisons_order_by_code_units s t :
  Forall (in_u 16) s -> Forall (in_u 16) t ->
  let enc x := ConvertUtf16ToModifiedUtf8 (CountUtf8Bytes x) x ++ [0] in
  CompareModifiedUtf8ToUtf16AsCodePointValues (enc s) t = Some (compare_units s t) /\
  (well_paired s = true -> well_paired t = true ->
   exists r, CompareModifiedUtf8ToModifiedUtf8AsUtf16CodePointValues (enc s) (enc t) = Some r /\
     Z.sgn r = compare_units s t).
Proof.
  intros Hs Ht enc. subst enc. cbv beta. fold (to_modified_utf8 s) (to_modified_utf8 t).
  rewrite !to_modified_utf8_loop by done. split.
  - apply compare_to_utf16_encoded; [done|]. rewrite length_app. simpl. lia.
  - intros. apply compare_utf8_encoded; try done. rewrite length_app. simpl. lia.
Qed.

Lemma utf8_comparisons_order_by_code_units_witness :
  let enc x := ConvertUtf16ToModifiedUtf8 (CountUtf8Bytes x) x ++ [0] in
  CompareModifiedUtf8ToUtf16AsCodePointValues (enc [0xd83d; 0xde00]) [0xffff] = Some (-1) /\
  exists r, CompareModifiedUtf8ToModifiedUtf8AsUtf16CodePointValues
              (enc [0xd83d; 0xde00]) (enc [0xffff]) = Some r /\ Z.sgn r = -1.
Proof.
  destruct (utf8_comparisons_order_by_code_units [0xd83d; 0xde00] [0xffff]) as [H1 H2].
  - repeat constructor; unfold in_u; lia.
  - repeat constructor; unfold in_u; lia.
  - split; [exact H1|]. apply H2; reflexivity.
Defined.

(** Without the pairing the byte-to-byte comparison is not that order: a pair
    against an unpaired high surrogate that is followed by U+E000. *)
Lemma utf8_comparison_unpaired :
  let enc x := ConvertUtf16ToModifiedUtf8 (CountUtf8Bytes x) x ++ [0] in
  let s := [0xd800; 0xdc00] in let t := [0xd800; 0xe000] in
  CompareModifiedUtf8ToModifiedUtf8AsUtf16CodePointValues (enc s) (enc t) = Some 0xdc00 /\
  CompareModifiedUtf8ToUtf16AsCodePointValues (enc s) t = Some (-1).
Proof. split; reflexivity. Qed.
