(* ===== verification/HashSet.v ===== *)
(** * Hash sets ([runtime/base/hash_set.h])

    An array of slots with linear probing.  The template's function objects and
    the arithmetic of load factors, which are doubles, are classes.  Every access
    to a slot is checked against the array and every loop has fuel, both failing
    with [None].  Indexes and counts are bounded by the length of an array in
    memory, so [size_t] does not wrap. *)
From S2P Require Import Prelude.

(** [EmptyFn] and [HashFn]. *)
Class SetFns (T : Type) := {
  IsEmpty : T -> bool;
  MakeEmpty : T;
  hashfn : T -> Z
}.

(** An object's bytes in memory, as [reinterpret_cast] sees them. *)
Class Stored (A : Type) := {
  sizeof : nat;
  store : A -> list Z;
  load : list Z -> A
}.
#[global] Hint Mode Stored ! : typeclass_instances.

(** A little-endian [uint64_t]. *)
Fixpoint le_bytes (k : nat) (z : Z) : list Z :=
  match k with
  | O => []
  | S k => z mod 2 ^ 8 :: le_bytes k (z / 2 ^ 8)
  end.
Fixpoint le_value (bytes : list Z) : Z :=
  match bytes with
  | [] => 0
  | b :: bytes => b + 2 ^ 8 * le_value bytes
  end.
#[export] Instance uint64_stored : Stored Z :=
  { sizeof := 8; store := le_bytes 8; load := le_value }.

(** [static_cast<size_t>(n / f)], [static_cast<size_t>(n * f)], the mean of two
    factors and whether [n / num_buckets] exceeds one. *)
Class LoadFactors (F : Type) := {
  size_div : Z -> F -> Z;
  size_mul : Z -> F -> Z;
  mean : F -> F -> F;
  load_exceeds : Z -> Z -> F -> bool
}.

Definition kMinBuckets : Z := 1000.

Record HashSet (T F : Type) := mkSet {
  num_elements_ : Z;
  num_buckets_ : Z;
  elements_until_expand_ : Z;
  owns_data_ : bool;
  data_ : list T;
  min_load_factor_ : F;
  max_load_factor_ : F
}.
Arguments mkSet {T F}.
Arguments num_elements_ {T F}.
Arguments num_buckets_ {T F}.
Arguments elements_until_expand_ {T F}.
Arguments owns_data_ {T F}.
Arguments data_ {T F}.
Arguments min_load_factor_ {T F}.
Arguments max_load_factor_ {T F}.

Section HashSet.
Context {T F : Type} {fns : SetFns T} {factors : LoadFactors F}.
Implicit Types hs : HashSet T F.

Definition with_data (data : list T) hs : HashSet T F :=
  mkSet (num_elements_ hs) (num_buckets_ hs) (elements_until_expand_ hs) (owns_data_ hs) data
    (min_load_factor_ hs) (max_load_factor_ hs).
Definition with_elements (n : Z) hs : HashSet T F :=
  mkSet n (num_buckets_ hs) (elements_until_expand_ hs) (owns_data_ hs) (data_ hs)
    (min_load_factor_ hs) (max_load_factor_ hs).
Definition with_limit (n : Z) hs : HashSet T F :=
  mkSet (num_elements_ hs) (num_buckets_ hs) n (owns_data_ hs) (data_ hs)
    (min_load_factor_ hs) (max_load_factor_ hs).

(** [HashSet(double min_load_factor, double max_load_factor)] *)
Definition new_set (min_load_factor max_load_factor : F) : HashSet T F :=
  mkSet 0 0 0 false [] min_load_factor max_load_factor.

Definition Size hs : Z := num_elements_ hs.
Definition NumBuckets hs : Z := num_buckets_ hs.
Definition Empty hs : bool := Size hs =? 0.

(** ** Slots *)

Definition ElementForIndex hs (index : Z) : option T :=
  if 0 <=? index then data_ hs !! Z.to_nat index else None.
Definition set_slot hs (index : Z) (x : T) : option (HashSet T F) :=
  _ ← ElementForIndex hs index;
  Some (with_data (<[Z.to_nat index := x]> (data_ hs)) hs).

Definition IsFreeSlot hs (index : Z) : option bool := IsEmpty <$> ElementForIndex hs index.

Definition IndexForHash hs (hash : Z) : Z :=
  if num_buckets_ hs =? 0 then 0 else hash mod num_buckets_ hs.

Definition NextIndex hs (index : Z) : Z :=
  let index := index + 1 in if num_buckets_ hs <=? index then 0 else index.

(** ** Storage *)

Definition AllocateStorage (num_buckets : Z) hs : HashSet T F :=
  mkSet (num_elements_ hs) num_buckets (elements_until_expand_ hs) true
    (replicate (Z.to_nat num_buckets) MakeEmpty) (min_load_factor_ hs) (max_load_factor_ hs).
Definition DeallocateStorage hs : HashSet T F :=
  mkSet (num_elements_ hs) 0 (elements_until_expand_ hs) false []
    (min_load_factor_ hs) (max_load_factor_ hs).
Definition Clear hs : HashSet T F := with_limit 0 (with_elements 0 (DeallocateStorage hs)).

(** ** Lookup *)

Fixpoint FindIndex_loop (fuel : nat) hs (pred : T -> bool) (index : Z) : option Z :=
  slot ← ElementForIndex hs index;
  if IsEmpty slot then Some (NumBuckets hs)
  else if pred slot then Some index
  else
    match fuel with
    | O => None
    | S fuel => FindIndex_loop fuel hs pred (NextIndex hs index)
    end.

(** [pred] compares a slot with the key. *)
Definition FindIndex hs (pred : T -> bool) (hash : Z) : option Z :=
  if NumBuckets hs =? 0 then Some 0
  else FindIndex_loop (Z.to_nat (NumBuckets hs)) hs pred (IndexForHash hs hash).
Definition FindWithHash hs (pred : T -> bool) (hash : Z) : option Z := FindIndex hs pred hash.
(** [it = set.Find(key)] and whether [it != set.end()]. *)
Definition find_slot hs (pred : T -> bool) (hash : Z) : option (option Z) :=
  it ← FindWithHash hs pred hash;
  Some (if it =? NumBuckets hs then None else Some it).

Fixpoint FirstAvailableSlot_loop (fuel : nat) hs (index : Z) : option Z :=
  slot ← ElementForIndex hs index;
  if negb (IsEmpty slot) then
    match fuel with
    | O => None
    | S fuel => FirstAvailableSlot_loop fuel hs (NextIndex hs index)
    end
  else Some index.
Definition FirstAvailableSlot hs (index : Z) : option Z :=
  FirstAvailableSlot_loop (Z.to_nat (NumBuckets hs)) hs index.

(** ** Growth *)

(** [data_[FirstAvailableSlot(IndexForHash(hash))] = element] *)
Definition place hs (element : T) (hash : Z) : option (HashSet T F) :=
  index ← FirstAvailableSlot hs (IndexForHash hs hash);
  set_slot hs index element.

Fixpoint reinsert (old_data : list T) hs : option (HashSet T F) :=
  match old_data with
  | [] => Some hs
  | element :: old_data =>
      hs ← (if negb (IsEmpty element) then place hs element (hashfn element) else Some hs);
      reinsert old_data hs
  end.

Definition Resize (new_size : Z) hs : option (HashSet T F) :=
  let new_size := if new_size <? kMinBuckets then kMinBuckets else new_size in
  let old_data := data_ hs in
  hs ← reinsert old_data (AllocateStorage new_size hs);
  Some (with_limit (size_mul (NumBuckets hs) (max_load_factor_ hs)) hs).

Definition Expand hs : option (HashSet T F) := Resize (size_div (Size hs) (min_load_factor_ hs)) hs.
Definition ShrinkToMaximumLoad hs : option (HashSet T F) :=
  Resize (size_div (Size hs) (max_load_factor_ hs)) hs.

(** The loop of [Reserve] deals with rounding errors. *)
Fixpoint Reserve_loop (fuel : nat) hs (num_elements num_buckets : Z) : option Z :=
  if size_mul num_buckets (max_load_factor_ hs) <=? num_elements + 1 then
    match fuel with
    | O => None
    | S fuel => Reserve_loop fuel hs num_elements (num_buckets + 1)
    end
  else Some num_buckets.
Definition Reserve (fuel : nat) (num_elements : Z) hs : option (HashSet T F) :=
  num_buckets ← Reserve_loop fuel hs num_elements (size_div num_elements (max_load_factor_ hs));
  if NumBuckets hs <? num_buckets then Resize num_buckets hs else Some hs.

Definition SetLoadFactor (min_load_factor max_load_factor : F) hs : option (HashSet T F) :=
  let hs := mkSet (num_elements_ hs) (num_buckets_ hs)
              (size_mul (NumBuckets hs) max_load_factor) (owns_data_ hs) (data_ hs)
              min_load_factor max_load_factor in
  if load_exceeds (Size hs) (NumBuckets hs) (max_load_factor_ hs)
  then Resize (size_div (Size hs) (mean (min_load_factor_ hs) (max_load_factor_ hs))) hs
  else Some hs.

Definition InsertWithHash (element : T) (hash : Z) hs : option (HashSet T F) :=
  hs ← (if elements_until_expand_ hs <=? num_elements_ hs then Expand hs else Some hs);
  hs ← place hs element hash;
  Some (with_elements (num_elements_ hs + 1) hs).
Definition Insert (element : T) hs : option (HashSet T F) :=
  InsertWithHash element (hashfn element) hs.

(** ** Iterators

    An iterator of a set is an index. *)

(** [do { ++index; } while (index < num_buckets && hash_set->IsFreeSlot(index))] *)
Fixpoint NextNonEmptySlot_loop (fuel : nat) hs (index : Z) : option Z :=
  let index := index + 1 in
  if index <? NumBuckets hs then
    free ← IsFreeSlot hs index;
    if (free : bool) then
      match fuel with
      | O => None
      | S fuel => NextNonEmptySlot_loop fuel hs index
      end
    else Some index
  else Some index.
Definition NextNonEmptySlot hs (index : Z) : option Z :=
  NextNonEmptySlot_loop (Z.to_nat (NumBuckets hs)) hs index.

Definition begin hs : option Z :=
  if negb (num_buckets_ hs =? 0) then
    free ← IsFreeSlot hs 0;
    if (free : bool) then NextNonEmptySlot hs 0 else Some 0
  else Some 0.
Definition end_ hs : Z := NumBuckets hs.

(** ** Removal *)

(** [while (true)] of [Erase]: the set and whether the slot was filled again. *)
Fixpoint Erase_loop (fuel : nat) hs (empty_index next_index : Z) (filled : bool) :
    option (HashSet T F * bool) :=
  let next_index := NextIndex hs next_index in
  next_element ← ElementForIndex hs next_index;
  if IsEmpty next_element then
    hs ← set_slot hs empty_index MakeEmpty;
    Some (hs, filled)
  else
    match fuel with
    | O => None
    | S fuel =>
        let next_ideal_index := IndexForHash hs (hashfn next_element) in
        let unwrapped_next_index :=
          if next_index <? empty_index then next_index + NumBuckets hs else next_index in
        let unwrapped_next_ideal_index :=
          if next_ideal_index <? empty_index then next_ideal_index + NumBuckets hs
          else next_ideal_index in
        if (unwrapped_next_ideal_index <=? empty_index)
           || (unwrapped_next_index <? unwrapped_next_ideal_index) then
          hs ← set_slot hs empty_index next_element;
          Erase_loop fuel hs next_index next_index true
        else Erase_loop fuel hs empty_index next_index filled
    end.
Definition Erase (it : Z) hs : option (HashSet T F * Z) :=
  '(hs, filled) ← Erase_loop (Z.to_nat (NumBuckets hs)) hs it it false;
  let hs := with_elements (num_elements_ hs - 1) hs in
  it ← (if negb filled then NextNonEmptySlot hs it else Some it);
  Some (hs, it).

(** ** Measurements *)

Fixpoint probe_distance (num_buckets i : Z) (data : list T) (total : Z) : Z :=
  match data with
  | [] => total
  | element :: data =>
      let total :=
        if negb (IsEmpty element) then
          let ideal_location := if num_buckets =? 0 then 0 else hashfn element mod num_buckets in
          if i <? ideal_location then total + (i + num_buckets - ideal_location)
          else total + (i - ideal_location)
        else total in
      probe_distance num_buckets (i + 1) data total
  end.
Definition TotalProbeDistance hs : Z := probe_distance (NumBuckets hs) 0 (data_ hs) 0.

(** The number of elements that would be inserted elsewhere. *)
Fixpoint Verify_loop (num : nat) (i : Z) hs (errors : Z) : option Z :=
  match num with
  | O => Some errors
  | S num =>
      element ← ElementForIndex hs i;
      if negb (IsEmpty element) then
        without ← set_slot hs i MakeEmpty;
        first_slot ← FirstAvailableSlot without (IndexForHash without (hashfn element));
        Verify_loop num (i + 1) hs (if negb (i =? first_slot) then errors + 1 else errors)
      else Verify_loop num (i + 1) hs errors
  end.
Definition Verify hs : option Z := Verify_loop (Z.to_nat (num_buckets_ hs)) 0 hs 0.

(** ** Copies *)

(** The elements are copied in order. *)
Definition copy other : option (HashSet T F) :=
  data ← mapM (ElementForIndex other) (seqZ 0 (NumBuckets other));
  Some (mkSet (num_elements_ other) (NumBuckets other) (elements_until_expand_ other) true data
          (min_load_factor_ other) (max_load_factor_ other)).

(** The new set and what is left of the other. *)
Definition move other : HashSet T F * HashSet T F :=
  (other, mkSet 0 0 0 false [] (min_load_factor_ other) (max_load_factor_ other)).

(** ** Sets in memory *)

(** Nothing is written without a pointer; a write out of the buffer fails. *)
Definition WriteToBytes {A} `{!Stored A} (ptr : option (list Z)) (offset : nat) (n : A) :
    option (option (list Z) * nat) :=
  match ptr with
  | Some buffer =>
      if (offset + sizeof (A := A) <=? length buffer)%nat
      then Some (Some (take offset buffer ++ store n ++ drop (offset + sizeof (A := A)) buffer),
                 (offset + sizeof (A := A))%nat)
      else None
  | None => Some (None, (offset + sizeof (A := A))%nat)
  end.

Definition ReadFromBytes {A} `{!Stored A} (ptr : list Z) (offset : nat) : option (A * nat) :=
  if (offset + sizeof (A := A) <=? length ptr)%nat
  then Some (load (take (sizeof (A := A)) (drop offset ptr)), (offset + sizeof (A := A))%nat)
  else None.

Context `{!Stored T, !Stored F}.

Fixpoint write_elements (data : list T) (ptr : option (list Z)) (offset : nat) :
    option (option (list Z) * nat) :=
  match data with
  | [] => Some (ptr, offset)
  | x :: data =>
      '(ptr, offset) ← WriteToBytes ptr offset x;
      write_elements data ptr offset
  end.
Definition WriteToMemory hs (ptr : option (list Z)) : option (option (list Z) * nat) :=
  '(ptr, offset) ← WriteToBytes ptr 0 (u64 (num_elements_ hs));
  '(ptr, offset) ← WriteToBytes ptr offset (u64 (num_buckets_ hs));
  '(ptr, offset) ← WriteToBytes ptr offset (u64 (elements_until_expand_ hs));
  '(ptr, offset) ← WriteToBytes ptr offset (min_load_factor_ hs);
  '(ptr, offset) ← WriteToBytes ptr offset (max_load_factor_ hs);
  write_elements (data_ hs) ptr offset.

Fixpoint read_elements (num : nat) (ptr : list Z) (offset : nat) : option (list T * nat) :=
  match num with
  | O => Some ([], offset)
  | S num =>
      '(x, offset) ← ReadFromBytes ptr offset;
      '(data, offset) ← read_elements num ptr offset;
      Some (x :: data, offset)
  end.

(** [HashSet(const uint8_t* ptr, bool make_copy_of_data, size_t* read_count)]:
    without a copy the slots are those of the memory.  It aborts when there are
    more elements than buckets. *)
Definition read_set (ptr : list Z) (make_copy_of_data : bool) : option (HashSet T F * nat) :=
  '(num_elements, offset) ← ReadFromBytes ptr 0;
  '(num_buckets, offset) ← ReadFromBytes ptr offset;
  if negb (num_elements <=? num_buckets) then None
  else
    '(limit, offset) ← ReadFromBytes ptr offset;
    '(min_load_factor, offset) ← ReadFromBytes ptr offset;
    '(max_load_factor, offset) ← ReadFromBytes ptr offset;
    '(data, offset) ← read_elements (Z.to_nat num_buckets) ptr offset;
    Some (mkSet num_elements num_buckets limit make_copy_of_data data min_load_factor max_load_factor,
          offset).

End HashSet.
