(* ===== verification/HashSetFacts.v ===== *)
(** * Facts about hash sets

    The probing invariant that [hash_set.h] states for [Erase], that its loops
    end, and that every operation keeps it. *)
From S2P Require Import Prelude HashSet.

(** ** Distances around the table *)

(** Steps from slot [j] forward to slot [i] of [n]. *)
Definition dist (n j i : Z) : Z := if j <=? i then i - j else i - j + n.

Definition slot_of (n i : Z) : Prop := 0 <= i < n.

(** Linear arithmetic with distances. *)
Ltac dists :=
  unfold dist, slot_of in *;
  repeat match goal with
  | |- context [if ?b then _ else _] => destruct b eqn:?
  | H : context [if ?b then _ else _] |- _ => destruct b eqn:?
  end; bools; try lia.

Lemma dist_range n j i : slot_of n j -> slot_of n i -> 0 <= dist n j i < n.
Proof. intros. dists. Qed.

Lemma dist_zero n j i : slot_of n j -> slot_of n i -> dist n j i = 0 <-> i = j.
Proof. intros. dists. Qed.

Lemma dist_inj n j i i' : slot_of n j -> slot_of n i -> slot_of n i' -> dist n j i = dist n j i' -> i = i'.
Proof. intros. dists. Qed.

Section Facts.
Context {T F : Type} {fns : SetFns T} {factors : LoadFactors F}.
Implicit Types hs : HashSet T F.
Implicit Types data : list T.

(** ** Slots *)

Definition at_slot data (i : Z) : T := nth (Z.to_nat i) data MakeEmpty.
Definition full data (i : Z) : Prop := IsEmpty (at_slot data i) = false.
#[export] Instance full_dec data i : Decision (full data i).
Proof. unfold full. apply _. Defined.

Definition elements data : list T := filter (fun x => IsEmpty x = false) data.

(** The slot an element is probed from. *)
Definition ideal (n : Z) (x : T) : Z := hashfn x mod n.

(** "There's no empty slots from the ideal index of an element to its actual
    location." *)
Definition probed (n : Z) data : Prop :=
  forall i m, slot_of n i -> slot_of n m -> full data i ->
    dist n (ideal n (at_slot data i)) m < dist n (ideal n (at_slot data i)) i -> full data m.

Class SetLaws : Prop := {
  IsEmpty_MakeEmpty : IsEmpty MakeEmpty = true;
  hashfn_nonneg : forall x : T, 0 <= hashfn x
}.
Context {laws : SetLaws}.

Lemma ideal_slot n x : 0 < n -> slot_of n (ideal n x).
Proof. intros. apply Z.mod_pos_bound. lia. Qed.

Lemma ElementForIndex_at hs i :
  slot_of (Z.of_nat (length (data_ hs))) i -> ElementForIndex hs i = Some (at_slot (data_ hs) i).
Proof.
  unfold ElementForIndex, at_slot. intros [H0 Hn]. rewrite (proj2 (Z.leb_le 0 i) H0).
  destruct (lookup_lt_is_Some_2 (data_ hs) (Z.to_nat i)) as [x Hx]; [lia|].
  rewrite Hx. f_equal. symmetry. by apply nth_lookup_Some.
Qed.

Lemma set_slot_at hs i x :
  slot_of (Z.of_nat (length (data_ hs))) i ->
  set_slot hs i x = Some (with_data (<[Z.to_nat i := x]> (data_ hs)) hs).
Proof. intros H. unfold set_slot. by rewrite ElementForIndex_at. Qed.

Lemma at_slot_eq data i x :
  slot_of (Z.of_nat (length data)) i -> at_slot (<[Z.to_nat i := x]> data) i = x.
Proof.
  intros [? ?]. apply nth_lookup_Some. rewrite list_lookup_insert_eq; [done|lia].
Qed.

Lemma at_slot_ne data i j x : 0 <= i -> 0 <= j -> i <> j -> at_slot (<[Z.to_nat i := x]> data) j = at_slot data j.
Proof.
  intros. unfold at_slot. rewrite !nth_lookup, list_lookup_insert_ne; [done|]. lia.
Qed.

Lemma elements_cons x data :
  elements (x :: data) = if IsEmpty x then elements data else x :: elements data.
Proof.
  unfold elements. destruct (IsEmpty x) eqn:E.
  - rewrite filter_cons_False by congruence. done.
  - rewrite filter_cons_True by done. done.
Qed.

(** The elements with one slot written. *)
Lemma elements_insert data i x :
  slot_of (Z.of_nat (length data)) i ->
  (if IsEmpty (at_slot data i) then [] else [at_slot data i]) ++ elements (<[Z.to_nat i := x]> data) ≡ₚ
  (if IsEmpty x then [] else [x]) ++ elements data.
Proof.
  unfold slot_of, at_slot. intros [H0 Hn]. assert (Z.to_nat i < length data)%nat as Hi by lia.
  clear H0 Hn. revert Hi. generalize (Z.to_nat i). intros k. revert k.
  induction data as [|y data IH]; intros k Hk; simpl in *; [lia|]. destruct k as [|k]; simpl.
  - rewrite !elements_cons. destruct (IsEmpty x), (IsEmpty y); simpl; try done. constructor.
  - rewrite !elements_cons. specialize (IH k ltac:(lia)).
    destruct (IsEmpty y); [done|]. rewrite <- !Permutation_middle. by rewrite IH.
Qed.

Lemma full_count data :
  (forall i, slot_of (Z.of_nat (length data)) i -> full data i) -> length (elements data) = length data.
Proof.
  induction data as [|x data IH]; intros H; [done|].
  assert (IsEmpty x = false) as Hx by (apply (H 0); unfold slot_of; simpl; lia).
  rewrite elements_cons, Hx. simpl. f_equal. apply IH. intros i Hi.
  specialize (H (i + 1)). unfold full, at_slot, slot_of in *.
  replace (Z.to_nat (i + 1)) with (S (Z.to_nat i)) in H by lia. simpl in H. apply H. lia.
Qed.

Lemma elements_length data : (length (elements data) <= length data)%nat.
Proof. apply length_filter. Qed.

(** A table that is not full has a free slot. *)
Lemma free_slot data :
  (length (elements data) < length data)%nat ->
  exists z, slot_of (Z.of_nat (length data)) z /\ ~ full data z.
Proof.
  induction data as [|x data IH]; intros H; simpl in *; [lia|].
  rewrite elements_cons in H. destruct (IsEmpty x) eqn:E.
  - exists 0. unfold slot_of, full, at_slot. simpl. rewrite E. split; [lia|done].
  - simpl in H. destruct IH as (z & Hz & Hf); [lia|]. exists (z + 1).
    unfold slot_of, full, at_slot in *. replace (Z.to_nat (z + 1)) with (S (Z.to_nat z)) by lia.
    split; [lia|done].
Qed.

(** ** Probing *)

Definition sized hs : Prop := Z.of_nat (length (data_ hs)) = num_buckets_ hs.
Definition has_free hs : Prop := exists z, slot_of (num_buckets_ hs) z /\ ~ full (data_ hs) z.

Lemma ElementForIndex_sized hs i :
  sized hs -> slot_of (num_buckets_ hs) i -> ElementForIndex hs i = Some (at_slot (data_ hs) i).
Proof. intros Hs Hi. apply ElementForIndex_at. by rewrite Hs. Qed.

Lemma NextIndex_slot hs i : slot_of (num_buckets_ hs) i -> slot_of (num_buckets_ hs) (NextIndex hs i).
Proof. unfold NextIndex. intros. dists. Qed.

(** One more step from [j], unless the table has been gone round. *)
Lemma NextIndex_dist hs j i :
  let n := num_buckets_ hs in
  slot_of n j -> slot_of n i -> dist n j i + 1 < n -> dist n j (NextIndex hs i) = dist n j i + 1.
Proof. unfold NextIndex. intros. dists. Qed.

(** The slots from [j] up to [x] satisfy [P]. *)
Definition passed (n j x : Z) (P : Z -> Prop) : Prop :=
  forall m, slot_of n m -> dist n j m < dist n j x -> P m.

Lemma passed_next hs j x (P : Z -> Prop) :
  let n := num_buckets_ hs in
  slot_of n j -> slot_of n x -> passed n j x P -> P x ->
  (exists z, slot_of n z /\ ~ P z) ->
  dist n j x + 1 < n /\ passed n j (NextIndex hs x) P.
Proof.
  intros n Hj Hx Hp HPx (z & Hz & HnP).
  assert (dist n j x + 1 < n) as Hlt.
  { destruct (Z.lt_ge_cases (dist n j x + 1) n) as [|Hge]; [done|]. exfalso. apply HnP.
    pose proof (dist_range n j x Hj Hx). pose proof (dist_range n j z Hj Hz).
    destruct (Z.eq_dec (dist n j z) (dist n j x)) as [E|E].
    - by rewrite (dist_inj n j z x Hj Hz Hx E).
    - apply Hp; [done|lia]. }
  split; [done|]. intros m Hm Hd. subst n. rewrite (NextIndex_dist hs j x) in Hd by done.
  destruct (Z.eq_dec (dist (num_buckets_ hs) j m) (dist (num_buckets_ hs) j x)) as [E|E].
  - by rewrite (dist_inj _ j m x Hj Hm Hx E).
  - apply Hp; [done|lia].
Qed.

Lemma passed_start n j (P : Z -> Prop) : slot_of n j -> passed n j j P.
Proof.
  intros Hj m Hm Hd. pose proof (dist_range n j m Hj Hm).
  assert (dist n j j = 0) by (by apply dist_zero). lia.
Qed.

Lemma FirstAvailableSlot_loop_spec fuel hs j x :
  let n := num_buckets_ hs in
  sized hs -> has_free hs -> slot_of n j -> slot_of n x ->
  passed n j x (full (data_ hs)) -> n - dist n j x <= Z.of_nat fuel + 1 ->
  exists z, FirstAvailableSlot_loop fuel hs x = Some z /\ slot_of n z /\ ~ full (data_ hs) z /\
    passed n j z (full (data_ hs)).
Proof.
  intros n Hs Hfree Hj. revert x. induction fuel as [|fuel IH]; intros x Hx Hp Hf;
    cbn [FirstAvailableSlot_loop]; rewrite ElementForIndex_sized by done; simpl;
    destruct (IsEmpty (at_slot (data_ hs) x)) eqn:E; simpl;
    try (exists x; split_and!; try done; unfold full; congruence);
    destruct (passed_next hs j x (full (data_ hs))) as [Hd Hp']; try done; fold n in Hd; [lia|].
  apply IH; [by apply NextIndex_slot|done|]. subst n. rewrite NextIndex_dist by done. lia.
Qed.

Lemma FirstAvailableSlot_spec hs j :
  let n := num_buckets_ hs in
  sized hs -> has_free hs -> slot_of n j ->
  exists z, FirstAvailableSlot hs j = Some z /\ slot_of n z /\ ~ full (data_ hs) z /\
    passed n j z (full (data_ hs)).
Proof.
  intros n Hs Hf Hj. apply FirstAvailableSlot_loop_spec; try done; [by apply passed_start|].
  pose proof (dist_range n j j Hj Hj). unfold NumBuckets. fold n. unfold slot_of in Hj. lia.
Qed.

Lemma FindIndex_loop_spec fuel hs pred j x :
  let n := num_buckets_ hs in
  let miss m := full (data_ hs) m /\ pred (at_slot (data_ hs) m) = false in
  sized hs -> has_free hs -> slot_of n j -> slot_of n x ->
  passed n j x miss -> n - dist n j x <= Z.of_nat fuel + 1 ->
  exists i, FindIndex_loop fuel hs pred x = Some i /\
    ((i = n /\ exists z, slot_of n z /\ ~ full (data_ hs) z /\ passed n j z miss) \/
     (slot_of n i /\ full (data_ hs) i /\ pred (at_slot (data_ hs) i) = true)).
Proof.
  intros n miss Hs Hfree Hj. revert x. induction fuel as [|fuel IH]; intros x Hx Hp Hf;
    cbn [FindIndex_loop]; rewrite ElementForIndex_sized by done; simpl;
    destruct (IsEmpty (at_slot (data_ hs) x)) eqn:E; simpl;
    try (exists n; split; [done|]; left; split; [done|]; exists x; split_and!; try done; unfold full; congruence);
    destruct (pred (at_slot (data_ hs) x)) eqn:Ep;
    try (exists x; split; [done|]; by right);
    destruct (passed_next hs j x miss) as [Hd Hp']; try done;
    try (destruct Hfree as (z & Hz & Hnf); exists z; split; [done|]; by intros [? _]);
    fold n in Hd; [lia|].
  apply IH; [by apply NextIndex_slot|done|]. subst n. rewrite NextIndex_dist by done. lia.
Qed.

Lemma at_slot_elem data i : slot_of (Z.of_nat (length data)) i -> full data i -> at_slot data i ∈ elements data.
Proof.
  intros [? ?] Hf. unfold elements. apply list_elem_of_filter. split; [done|].
  apply list_elem_of_In. unfold at_slot. apply nth_In. lia.
Qed.

Lemma elem_at_slot data x : x ∈ elements data -> exists i, slot_of (Z.of_nat (length data)) i /\ full data i /\ at_slot data i = x.
Proof.
  unfold elements. rewrite list_elem_of_filter. intros [Hx Hin].
  apply list_elem_of_In, (In_nth _ _ MakeEmpty) in Hin as (k & Hk & E). exists (Z.of_nat k).
  unfold slot_of, full, at_slot. rewrite Nat2Z.id, E. split; [lia|done].
Qed.

(** Lookup finds an element that matches if there is one. *)
Lemma FindIndex_spec hs (pred : T -> bool) hash :
  let n := num_buckets_ hs in
  sized hs -> n = 0 \/ has_free hs -> probed n (data_ hs) ->
  (forall x, x ∈ elements (data_ hs) -> pred x = true -> hashfn x = hash) ->
  exists i, FindIndex hs pred hash = Some i /\
    ((i = n /\ forall x, x ∈ elements (data_ hs) -> pred x = false) \/
     (slot_of n i /\ full (data_ hs) i /\ pred (at_slot (data_ hs) i) = true)).
Proof.
  intros n Hs Hfree Hpr Hpred. unfold FindIndex, NumBuckets. fold n.
  destruct (n =? 0) eqn:En; bools.
  { exists 0. split; [done|]. left. split; [done|]. intros x Hx.
    assert (data_ hs = []) as E by (apply length_zero_iff_nil; unfold sized in Hs; fold n in Hs; lia).
    rewrite E in Hx. by apply elem_of_nil in Hx. }
  destruct Hfree as [|Hfree]; [done|].
  assert (0 < n) by (destruct Hfree as (z & Hz & _); unfold slot_of in Hz; fold n in Hz; lia).
  unfold IndexForHash. fold n. rewrite (proj2 (Z.eqb_neq n 0) En).
  assert (slot_of n (hash mod n)) as Hj by (apply Z.mod_pos_bound; lia).
  destruct (FindIndex_loop_spec (Z.to_nat n) hs pred (hash mod n) (hash mod n))
    as (i & E & Hi); try done; [by apply passed_start| |].
  { pose proof (dist_range n (hash mod n) (hash mod n) Hj Hj). fold n. lia. }
  exists i. split; [done|]. destruct Hi as [(-> & z & Hz & Hzf & Hpz)|Hi]; [left|by right].
  split; [done|]. intros x Hx. destruct (pred x) eqn:Ep; [|done]. exfalso.
  pose proof (Hpred x Hx Ep) as Eh. apply elem_at_slot in Hx as (i & Hi & Hfi & Ei). rewrite Hs in Hi. fold n in Hi.
  assert (ideal n (at_slot (data_ hs) i) = hash mod n) as Eid by (unfold ideal; by rewrite Ei, Eh).
  destruct (Z.lt_trichotomy (dist n (hash mod n) i) (dist n (hash mod n) z)) as [Hlt|[Heq|Hgt]].
  - destruct (Hpz i Hi Hlt) as [_ Hm]. rewrite Ei in Hm. congruence.
  - apply dist_inj in Heq; try done. by subst.
  - apply Hzf. apply (Hpr i z Hi Hz Hfi). by rewrite Eid.
Qed.

(** *** A new element *)

Lemma full_insert data i x m :
  slot_of (Z.of_nat (length data)) i -> 0 <= m -> IsEmpty x = false ->
  full (<[Z.to_nat i := x]> data) m <-> m = i \/ full data m.
Proof.
  intros Hi Hm Hx. unfold full. destruct (Z.eq_dec m i) as [->|Hne].
  - rewrite at_slot_eq by done. tauto.
  - rewrite at_slot_ne by (unfold slot_of in Hi; lia). tauto.
Qed.

Lemma probed_insert n data z x :
  Z.of_nat (length data) = n -> slot_of n z -> IsEmpty x = false -> ~ full data z ->
  probed n data -> passed n (ideal n x) z (full data) -> probed n (<[Z.to_nat z := x]> data).
Proof.
  intros Hn Hz Hx Hzf Hp Hpx i m Hi Hm Hf Hd. subst n.
  apply full_insert; [done|unfold slot_of in Hm; lia|done|].
  destruct (Z.eq_dec i z) as [->|Hne].
  - rewrite at_slot_eq in Hd by done. right. by apply Hpx.
  - rewrite at_slot_ne in Hd by (unfold slot_of in *; lia).
    apply full_insert in Hf as [|Hf]; [done| |done|unfold slot_of in Hi; lia|done].
    right. by apply (Hp i m).
Qed.

(** What the set holds, apart from counts and limits. *)
Record table_ok hs : Prop := {
  to_sized : sized hs;
  to_probed : probed (num_buckets_ hs) (data_ hs)
}.

Lemma place_spec hs x :
  table_ok hs -> has_free hs -> IsEmpty x = false ->
  exists hs', place hs x (hashfn x) = Some hs' /\ table_ok hs' /\
    elements (data_ hs') ≡ₚ x :: elements (data_ hs) /\
    exists data', hs' = with_data data' hs.
Proof.
  intros [Hs Hp] Hf Hx. unfold place, IndexForHash.
  set (n := num_buckets_ hs) in *.
  assert (0 < n) by (destruct Hf as (z & Hz & _); unfold slot_of in Hz; fold n in Hz; lia).
  rewrite (proj2 (Z.eqb_neq n 0)) by lia.
  destruct (FirstAvailableSlot_spec hs (hashfn x mod n)) as (z & -> & Hz & Hzf & Hpz); try done.
  { apply Z.mod_pos_bound. lia. }
  fold n in Hz, Hpz. simpl. rewrite set_slot_at by by rewrite Hs.
  eexists. split; [done|]. split; [|split; [|by eexists]].
  - split; simpl; [|by apply probed_insert].
    unfold sized. simpl. rewrite length_insert. apply Hs.
  - simpl. pose proof (elements_insert (data_ hs) z x) as He. rewrite Hs in He.
    specialize (He Hz). unfold full in Hzf. destruct (IsEmpty (at_slot (data_ hs) z)); [|done].
    rewrite Hx in He. exact He.
Qed.

(** ** Removal

    During [Erase] slot [e] is a hole, its content stale, and the slots from [e]
    up to [x] have been examined.  Only elements beyond [x] may have the hole on
    their way. *)
Definition holed (n : Z) data (e x : Z) : Prop :=
  forall i m, slot_of n i -> slot_of n m -> i <> e -> full data i ->
    dist n (ideal n (at_slot data i)) m < dist n (ideal n (at_slot data i)) i ->
    (m <> e /\ full data m) \/ (m = e /\ dist n e x < dist n e i).

Lemma holed_start n data e : slot_of n e -> probed n data -> holed n data e e.
Proof.
  intros He Hp i m Hi Hm Hne Hf Hd. destruct (Z.eq_dec m e) as [->|].
  - right. split; [done|]. dists.
  - left. split; [done|]. by apply (Hp i m).
Qed.

(** The next slot is empty: nothing is beyond the hole. *)
Lemma holed_end n data e x x' :
  Z.of_nat (length data) = n -> slot_of n e -> slot_of n x -> slot_of n x' ->
  dist n e x' = dist n e x + 1 -> ~ full data x' -> holed n data e x ->
  probed n (<[Z.to_nat e := MakeEmpty]> data).
Proof.
  intros Hn He Hx Hx' Hnext Hnf Hh i m Hi Hm Hf Hd. subst n. set (n := Z.of_nat (length data)) in *.
  assert (i <> e) as Hie.
  { intros ->. unfold full in Hf. rewrite at_slot_eq, IsEmpty_MakeEmpty in Hf by done. done. }
  unfold full in Hf. rewrite at_slot_ne in Hf, Hd by (unfold slot_of in *; lia).
  assert (0 < n) as Hpos by (unfold slot_of in Hi; lia).
  pose proof (ideal_slot n (at_slot data i) Hpos) as Hid.
  destruct (Hh i m Hi Hm Hie Hf Hd) as [[Hme Hfm]|[-> Hfar]].
  { unfold full. rewrite at_slot_ne by (unfold slot_of in *; lia). done. }
  exfalso. apply Hnf. assert (i <> x') by (intros ->; done).
  destruct (Hh i x' Hi Hx' Hie Hf) as [[_ ?]|[-> _]]; [|done|].
  - generalize dependent (ideal n (at_slot data i)). intros d. intros. clear Hh. dists.
  - exfalso. dists.
Qed.

(** The element at [x'] need not move: its way starts after the hole. *)
Lemma holed_keep n data e x x' :
  slot_of n e -> slot_of n x' -> 0 < n -> dist n e x' = dist n e x + 1 ->
  0 < dist n e (ideal n (at_slot data x')) <= dist n e x' ->
  holed n data e x -> holed n data e x'.
Proof.
  intros He Hx' Hpos Hnext Hj Hh i m Hi Hm Hie Hf Hd.
  pose proof (ideal_slot n (at_slot data i) Hpos) as Hid.
  destruct (Hh i m Hi Hm Hie Hf Hd) as [?|[-> Hfar]]; [by left|].
  right. split; [done|]. destruct (Z.eq_dec i x') as [->|Hne]; [exfalso|].
  - generalize dependent (ideal n (at_slot data x')). intros d. intros. clear Hh. dists.
  - assert (dist n e i <> dist n e x') by (intros E; by apply dist_inj in E). lia.
Qed.

(** The element at [x'] fills the hole and leaves one. *)
Lemma holed_move n data e x x' :
  Z.of_nat (length data) = n -> slot_of n e -> slot_of n x' -> x' <> e -> full data x' ->
  dist n e (ideal n (at_slot data x')) <= 0 \/ dist n e x' < dist n e (ideal n (at_slot data x')) ->
  holed n data e x -> holed n (<[Z.to_nat e := at_slot data x']> data) x' x'.
Proof.
  intros Hn He Hx' Hne Hfx Hj Hh i m Hi Hm Hix Hf Hd. subst n. set (n := Z.of_nat (length data)) in *.
  assert (0 < n) as Hpos by (unfold slot_of in Hi; lia).
  destruct (Z.eq_dec m x') as [->|Hmx].
  { right. split; [done|]. dists. }
  left. split; [done|]. apply full_insert; [done|unfold slot_of in Hm; lia|done|].
  destruct (Z.eq_dec m e) as [|Hme]; [by left|right].
  destruct (Z.eq_dec i e) as [->|Hie].
  - rewrite at_slot_eq in Hd by done.
    pose proof (ideal_slot n (at_slot data x') Hpos) as Hid.
    destruct (Hh x' m Hx' Hm Hne Hfx) as [[_ ?]|[? _]]; [|done|done].
    generalize dependent (ideal n (at_slot data x')). intros d. intros. clear Hh. dists.
  - rewrite at_slot_ne in Hd by (unfold slot_of in *; lia).
    apply full_insert in Hf as [|Hf]; [done| |done|unfold slot_of in Hi; lia|done].
    destruct (Hh i m Hi Hm Hie Hf Hd) as [[_ ?]|[? _]]; done.
Qed.

Lemma elements_move data e x' :
  let n := Z.of_nat (length data) in
  slot_of n e -> slot_of n x' -> x' <> e -> full data e -> full data x' ->
  elements (<[Z.to_nat x' := MakeEmpty]> (<[Z.to_nat e := at_slot data x']> data)) ≡ₚ
  elements (<[Z.to_nat e := MakeEmpty]> data).
Proof.
  intros n He Hx Hne Hfe Hfx. unfold full in *.
  pose proof (elements_insert (<[Z.to_nat e := at_slot data x']> data) x' MakeEmpty) as H1.
  rewrite length_insert in H1. specialize (H1 Hx).
  rewrite at_slot_ne in H1 by (unfold slot_of in *; lia).
  pose proof (elements_insert data e (at_slot data x') He) as H2.
  pose proof (elements_insert data e MakeEmpty He) as H3.
  rewrite IsEmpty_MakeEmpty in H1, H3. rewrite Hfx in H1, H2. rewrite Hfe in H2, H3. simpl in *.
  apply (Permutation_cons_inv (a := at_slot data x')). rewrite H1.
  apply (Permutation_cons_inv (a := at_slot data e)). rewrite H2.
  rewrite perm_swap. by rewrite H3.
Qed.

(** The loop of [Erase] started at slot [o]. *)
Record erasing (n : Z) data (o e x z : Z) (filled : bool) : Prop := {
  er_len : Z.of_nat (length data) = n;
  er_o : slot_of n o;
  er_e : slot_of n e;
  er_x : slot_of n x;
  er_z : slot_of n z;
  er_full : full data e;
  er_free : ~ full data z;
  er_holed : holed n data e x;
  er_order : dist n o e <= dist n o x < dist n o z;
  er_filled : if filled then e <> o /\ full data o else e = o
}.

(** What it leaves: the elements but the one of the hole, in order, those before
    [o] from before [o]. *)
Record erased (n : Z) data data' (o e : Z) (filled filled' : bool) : Prop := {
  ed_len : length data' = length data;
  ed_probed : probed n data';
  ed_elements : elements data' ≡ₚ elements (<[Z.to_nat e := MakeEmpty]> data);
  ed_before : forall i, slot_of n i -> i < o -> full data' i ->
                exists i', slot_of n i' /\ i' < o /\ full data i' /\ at_slot data' i = at_slot data i';
  ed_filled : if filled' then full data' o
              else filled = false /\ data' = <[Z.to_nat e := MakeEmpty]> data
}.

(** The distances of a step. *)
Lemma erasing_next hs data o e x z filled :
  erasing (num_buckets_ hs) data o e x z filled ->
  let n := num_buckets_ hs in let x' := NextIndex hs x in
  slot_of n x' /\ x' <> e /\ dist n e x' = dist n e x + 1 /\
  dist n o x' = dist n o x + 1 /\ dist n o x' <= dist n o z.
Proof.
  intros [Hl Ho He Hx Hz _ _ _ Hord _]. cbv zeta. split; [by apply NextIndex_slot|].
  unfold NextIndex. clear Hl. revert Ho He Hx Hz Hord. generalize (num_buckets_ hs). intros n.
  intros. split_and!; dists.
Qed.

Lemma erased_end n data o e x x' z filled :
  erasing n data o e x z filled -> slot_of n x' -> dist n e x' = dist n e x + 1 ->
  ~ full data x' -> erased n data (<[Z.to_nat e := MakeEmpty]> data) o e filled filled.
Proof.
  intros [Hl Ho He Hx Hz Hfe Hfz Hh Hord Hfl] Hx' Hd Hnf. split.
  - apply length_insert.
  - by apply (holed_end n data e x x').
  - done.
  - intros i Hi Hio Hf. exists i. unfold full in *. destruct (Z.eq_dec i e) as [->|Hne].
    + rewrite at_slot_eq, IsEmpty_MakeEmpty in Hf by by rewrite Hl. done.
    + by rewrite at_slot_ne in * by (unfold slot_of in *; lia).
  - destruct filled; [|done]. destruct Hfl as [? ?]. unfold full in *.
    by rewrite at_slot_ne by (unfold slot_of in *; lia).
Qed.

Lemma erasing_move n data o e x x' z filled :
  erasing n data o e x z filled -> slot_of n x' -> x' <> e -> full data x' ->
  dist n o x' = dist n o x + 1 -> dist n o x' < dist n o z ->
  dist n e (ideal n (at_slot data x')) <= 0 \/ dist n e x' < dist n e (ideal n (at_slot data x')) ->
  erasing n (<[Z.to_nat e := at_slot data x']> data) o x' x' z true.
Proof.
  intros [Hl Ho He Hx Hz Hfe Hfz Hh Hord Hfl] Hx' Hne Hfx Hd Hz' Hj.
  assert (x' <> o) as Hxo by (intros ->; dists).
  split; try done.
  - by rewrite length_insert.
  - apply full_insert; [by rewrite Hl|unfold slot_of in *; lia|done|by right].
  - rewrite full_insert; [|by rewrite Hl|unfold slot_of in *; lia|done].
    intros [->|?]; done.
  - by apply (holed_move n data e x x').
  - split; [done|]. apply full_insert; [by rewrite Hl|unfold slot_of in *; lia|done|].
    destruct filled; [right; tauto|by left].
Qed.

Lemma erased_move n data data' o e x' filled filled' :
  Z.of_nat (length data) = n -> slot_of n o -> slot_of n e -> slot_of n x' -> x' <> e ->
  full data e -> full data x' -> dist n o e <= dist n o x' ->
  erased n (<[Z.to_nat e := at_slot data x']> data) data' o x' true filled' ->
  erased n data data' o e filled filled'.
Proof.
  intros Hl Ho He Hx' Hne Hfe Hfx Hord [H1 H2 H3 H4 H5]. rewrite length_insert in H1.
  split; try done.
  - rewrite H3. subst n. by apply elements_move.
  - intros i Hi Hio Hf. destruct (H4 i Hi Hio Hf) as (i' & Hi' & Hio' & Hf' & E).
    apply full_insert in Hf' as [->|Hf']; [| |by rewrite Hl|unfold slot_of in *; lia|done].
    + exists x'. rewrite at_slot_eq in E by by rewrite Hl. split_and!; try done. dists.
    + destruct (Z.eq_dec i' e) as [->|Hie].
      * exists x'. rewrite at_slot_eq in E by by rewrite Hl. split_and!; try done. dists.
      * exists i'. rewrite at_slot_ne in E by (unfold slot_of in *; lia). done.
  - destruct filled'; [done|]. by destruct H5.
Qed.

Lemma with_data_twice d d' hs : with_data d (with_data d' hs) = with_data d hs.
Proof. done. Qed.

(** The test of [Erase] in distances. *)
Lemma erase_test n e x' j :
  slot_of n e -> slot_of n x' -> slot_of n j ->
  ((if j <? e then j + n else j) <=? e)
  || ((if x' <? e then x' + n else x') <? (if j <? e then j + n else j)) = true <->
  dist n e j <= 0 \/ dist n e x' < dist n e j.
Proof. intros. rewrite orb_true_iff, Z.leb_le, Z.ltb_lt. dists. Qed.

Lemma Erase_loop_spec fuel hs o e x z filled :
  erasing (num_buckets_ hs) (data_ hs) o e x z filled ->
  dist (num_buckets_ hs) o z - dist (num_buckets_ hs) o x <= Z.of_nat fuel + 1 ->
  exists data' filled', Erase_loop fuel hs e x filled = Some (with_data data' hs, filled') /\
    erased (num_buckets_ hs) (data_ hs) data' o e filled filled'.
Proof.
  revert hs e x filled. induction fuel as [|fuel IH]; intros hs e x filled Her Hf;
    pose proof (erasing_next _ _ _ _ _ _ _ Her) as (Hx' & Hne & Hde & Hdo & Hdz); cbv zeta in *;
    set (n := num_buckets_ hs) in *; set (x' := NextIndex hs x) in *;
    cbn [Erase_loop]; fold x'; rewrite ElementForIndex_at by (by rewrite (er_len _ _ _ _ _ _ _ Her));
    simpl; destruct (IsEmpty (at_slot (data_ hs) x')) eqn:E.
  1, 3: rewrite set_slot_at by (rewrite (er_len _ _ _ _ _ _ _ Her); apply Her); simpl;
    eexists _, _; split; [done|]; eapply erased_end; try done; unfold full; congruence.
  { exfalso. assert (x' = z) as Exz.
    { apply (dist_inj n o); [apply Her|done|apply Her|lia]. }
    apply (er_free _ _ _ _ _ _ _ Her). rewrite <- Exz. done. }
  assert (dist n o x' < dist n o z) as Hlt.
  { destruct (Z.eq_dec (dist n o x') (dist n o z)) as [Heq|]; [|lia]. exfalso.
    apply (dist_inj n o) in Heq; [|apply Her|done|apply Her].
    apply (er_free _ _ _ _ _ _ _ Her). rewrite <- Heq. done. }
  assert (0 < n) as Hpos by (unfold slot_of in Hx'; lia).
  pose proof (ideal_slot n (at_slot (data_ hs) x') Hpos) as Hid.
  unfold IndexForHash, NumBuckets. fold n. rewrite (proj2 (Z.eqb_neq n 0)) by lia.
  fold (ideal n (at_slot (data_ hs) x')).
  destruct (_ || _) eqn:Et.
  - apply erase_test in Et; [|apply Her|done|done].
    rewrite set_slot_at by (rewrite (er_len _ _ _ _ _ _ _ Her); apply Her). simpl.
    pose proof (erasing_move _ _ _ _ _ _ _ _ Her Hx' Hne E Hdo Hlt Et) as Her'.
    destruct (IH (with_data (<[Z.to_nat e := at_slot (data_ hs) x']> (data_ hs)) hs) x' x' true Her')
      as (data' & filled' & -> & Hed); [simpl; fold n; lia|].
    rewrite with_data_twice. eexists _, _. split; [done|].
    apply (erased_move n (data_ hs) data' o e x'); try apply Her; try done. pose proof (er_order _ _ _ _ _ _ _ Her). lia.
  - destruct (IH hs e x' filled) as (data' & filled' & -> & Hed).
    + destruct Her as [Hl Ho He Hx Hz Hfe Hfz Hh Hord Hfl]. fold n. split; try done; [|lia].
      apply (holed_keep n (data_ hs) e x x'); try done.
      apply not_true_iff_false in Et. rewrite erase_test in Et by done.
      pose proof (dist_range n e _ He Hid). lia.
    + fold n. lia.
    + by exists data', filled'.
Qed.

(** ** Iteration *)

(** [i'] is the first slot from [i] that is not empty, or the end. *)
Definition next_full (n : Z) data (i i' : Z) : Prop :=
  i <= i' <= n /\ (i' < n -> full data i') /\ forall m, i <= m < i' -> ~ full data m.

Lemma next_full_step n data i i' : ~ full data i -> next_full n data (i + 1) i' -> next_full n data i i'.
Proof.
  intros Hi (? & ? & H). split_and!; [lia|lia|done|]. intros m Hm.
  destruct (Z.eq_dec m i) as [->|]; [done|]. apply H. lia.
Qed.

Lemma NextNonEmptySlot_loop_spec fuel hs i :
  sized hs -> -1 <= i < num_buckets_ hs -> num_buckets_ hs - i <= Z.of_nat fuel + 1 ->
  exists i', NextNonEmptySlot_loop fuel hs i = Some i' /\ next_full (num_buckets_ hs) (data_ hs) (i + 1) i'.
Proof.
  intros Hs. revert i. induction fuel as [|fuel IH]; intros i Hi Hf;
    cbn [NextNonEmptySlot_loop]; unfold NumBuckets, IsFreeSlot;
    destruct (i + 1 <? num_buckets_ hs) eqn:E; bools; try lia;
    try (exists (i + 1); split; [done|]; split_and!; lia).
  rewrite ElementForIndex_sized by (done || (unfold slot_of; lia)). simpl.
  destruct (IsEmpty (at_slot (data_ hs) (i + 1))) eqn:Ee.
  - destruct (IH (i + 1)) as (i' & -> & Hn); [lia|lia|]. exists i'. split; [done|].
    apply next_full_step; [|done]. unfold full. congruence.
  - exists (i + 1). split; [done|]. split_and!; [lia|lia|done|lia].
Qed.

Lemma NextNonEmptySlot_spec hs i :
  sized hs -> slot_of (num_buckets_ hs) i ->
  exists i', NextNonEmptySlot hs i = Some i' /\ next_full (num_buckets_ hs) (data_ hs) (i + 1) i'.
Proof.
  intros Hs [? ?]. apply NextNonEmptySlot_loop_spec; [done|lia|]. unfold NumBuckets. lia.
Qed.

Lemma begin_spec hs :
  sized hs -> exists i, begin hs = Some i /\ next_full (num_buckets_ hs) (data_ hs) 0 i.
Proof.
  intros Hs. unfold begin, IsFreeSlot. assert (0 <= num_buckets_ hs) by (unfold sized in Hs; lia).
  destruct (num_buckets_ hs =? 0) eqn:E; bools; simpl.
  { exists 0. split; [done|]. split_and!; lia. }
  rewrite ElementForIndex_sized by (done || (unfold slot_of; lia)). simpl.
  destruct (IsEmpty (at_slot (data_ hs) 0)) eqn:Ee.
  - destruct (NextNonEmptySlot_spec hs 0) as (i & -> & Hn); [done|unfold slot_of; lia|].
    exists i. split; [done|]. apply next_full_step; [|done]. unfold full. congruence.
  - exists 0. split; [done|]. split_and!; [lia|lia|done|lia].
Qed.

(** ** The invariant of a set *)

(** What [size_t] and [double] arithmetic gives for factors up to [0.998]. *)
Class LoadLaws (ok : F -> Prop) : Prop := {
  size_mul_zero : forall f, ok f -> size_mul 0 f = 0;
  size_mul_below : forall n f, ok f -> 0 < n -> 0 <= size_mul n f < n;
  size_mul_mono : forall n m f, ok f -> 0 <= n <= m -> size_mul n f <= size_mul m f;
  size_mul_unbounded : forall k f, ok f -> exists n, 0 <= n /\ k < size_mul n f;
  size_div_nonneg : forall s f, ok f -> 0 <= s -> 0 <= size_div s f;
  size_div_above : forall s f, ok f -> kMinBuckets <= s + 1 -> s + 1 < size_div s f;
  mean_factor : forall f g, ok f -> ok g -> ok (mean f g)
}.
Context {ok : F -> Prop} {load_laws : LoadLaws ok}.

Record set_ok hs : Prop := {
  so_table : table_ok hs;
  so_count : num_elements_ hs = Z.of_nat (length (elements (data_ hs)));
  so_room : num_buckets_ hs = 0 \/ num_elements_ hs < num_buckets_ hs;
  so_limit : elements_until_expand_ hs = size_mul (num_buckets_ hs) (max_load_factor_ hs);
  so_min : ok (min_load_factor_ hs);
  so_max : ok (max_load_factor_ hs)
}.

Lemma count_free hs :
  sized hs -> Z.of_nat (length (elements (data_ hs))) < num_buckets_ hs -> has_free hs.
Proof.
  intros Hs Hc. unfold sized in Hs. destruct (free_slot (data_ hs)) as (z & Hz & Hf); [lia|].
  exists z. by rewrite <- Hs.
Qed.

Lemma set_ok_free hs : set_ok hs -> num_buckets_ hs = 0 \/ has_free hs.
Proof.
  intros [[Hs _] Hc [?|Hr] _ _ _]; [by left|right]. apply count_free; [done|lia].
Qed.

(** *** Lookup *)

Lemma find_slot_spec hs pred hash :
  set_ok hs -> (forall x, x ∈ elements (data_ hs) -> pred x = true -> hashfn x = hash) ->
  exists it, find_slot hs pred hash = Some it /\
    match it with
    | None => forall x, x ∈ elements (data_ hs) -> pred x = false
    | Some i => slot_of (num_buckets_ hs) i /\ full (data_ hs) i /\ pred (at_slot (data_ hs) i) = true
    end.
Proof.
  intros Hok Hp. destruct (FindIndex_spec hs pred hash) as (i & E & Hi);
    [apply Hok|by apply set_ok_free|apply Hok|done|].
  unfold find_slot, FindWithHash. rewrite E. simpl. unfold NumBuckets.
  destruct Hi as [[-> Hno]|Hi].
  - rewrite Z.eqb_refl. by exists None.
  - destruct (i =? num_buckets_ hs) eqn:Ei; bools; [unfold slot_of in Hi; lia|]. by exists (Some i).
Qed.

Lemma elem_slot hs i :
  set_ok hs -> slot_of (num_buckets_ hs) i -> full (data_ hs) i ->
  ElementForIndex hs i = Some (at_slot (data_ hs) i) /\ at_slot (data_ hs) i ∈ elements (data_ hs).
Proof.
  intros Hok Hi Hf. pose proof (to_sized _ (so_table _ Hok)) as Hs. split.
  - by apply ElementForIndex_sized.
  - apply at_slot_elem; [by rewrite Hs|done].
Qed.

(** *** Removal *)

Lemma Erase_spec hs it :
  let n := num_buckets_ hs in
  set_ok hs -> slot_of n it -> full (data_ hs) it ->
  exists hs' it', Erase it hs = Some (hs', it') /\ set_ok hs' /\ num_buckets_ hs' = n /\
    at_slot (data_ hs) it :: elements (data_ hs') ≡ₚ elements (data_ hs) /\
    next_full n (data_ hs') it it' /\
    forall i, slot_of n i -> i < it' -> full (data_ hs') i ->
      exists i', slot_of n i' /\ i' < it /\ full (data_ hs) i' /\ at_slot (data_ hs') i = at_slot (data_ hs) i'.
Proof.
  intros n Hok Hit Hf. pose proof (set_ok_free hs Hok) as [|(z & Hz & Hzf)]; [unfold slot_of in Hit; lia|].
  destruct Hok as [[Hs Hp] Hc Hr Hl Hmin Hmax]. fold n in Hz.
  destruct (Erase_loop_spec (Z.to_nat n) hs it it it z false) as (data' & filled' & E & Hed).
  { split; try done; [by apply holed_start|]. fold n. split; [lia|].
    assert (dist n it it = 0) as -> by (by apply dist_zero).
    pose proof (dist_range n it z Hit Hz). assert (dist n it z <> 0); [|lia].
    rewrite dist_zero by done. by intros ->. }
  { fold n. assert (dist n it it = 0) as -> by (by apply dist_zero).
    pose proof (dist_range n it z Hit Hz). lia. }
  fold n in Hed. destruct Hed as [E1 E2 E3 E4 E5].
  pose proof (elements_insert (data_ hs) it MakeEmpty) as Hel. rewrite Hs in Hel. specialize (Hel Hit).
  unfold full in Hf. rewrite Hf, IsEmpty_MakeEmpty in Hel. simpl in Hel. rewrite <- E3 in Hel.
  set (hs' := with_elements (num_elements_ hs - 1) (with_data data' hs)).
  assert (set_ok hs') as Hok'.
  { split; try done; simpl; [split; simpl; [|done]| |lia].
    - unfold sized in *. simpl. lia.
    - rewrite Hc, <- Hel. simpl. lia. }
  unfold Erase, NumBuckets. fold n. rewrite E. cbn [mbind option_bind]. cbv zeta.
  change (with_elements (num_elements_ (with_data data' hs) - 1) (with_data data' hs)) with hs'.
  destruct filled'; simpl.
  - eexists _, _. split_and!; try done. split_and!; [lia|unfold slot_of in Hit; lia|done|lia].
  - destruct E5 as [_ E5]. destruct (NextNonEmptySlot_spec hs' it) as (it' & -> & Hn); [apply Hok'|done|].
    simpl. assert (next_full n data' it it') as Hn'.
    { apply next_full_step; [|done]. rewrite E5. unfold full.
      rewrite at_slot_eq, IsEmpty_MakeEmpty by (by rewrite Hs). done. }
    eexists _, _. split_and!; try done. intros i Hi Hlt Hfi. apply E4; try done.
    destruct (Z.lt_ge_cases i it); [done|]. exfalso. destruct Hn' as (_ & _ & Hn').
    apply (Hn' i); [lia|done].
Qed.

(** ** Growth *)

Lemma elements_empty k : elements (replicate k MakeEmpty) = [].
Proof. induction k as [|k IH]; simpl; [done|]. by rewrite elements_cons, IsEmpty_MakeEmpty. Qed.

Lemma at_slot_empty k i : at_slot (replicate k MakeEmpty) i = MakeEmpty.
Proof. 
  unfold at_slot. generalize (Z.to_nat i). induction k as [|k IH]; intros [|j]; simpl; done.
Qed.

Lemma AllocateStorage_ok k hs : 0 <= k -> table_ok (AllocateStorage k hs).
Proof.
  intros Hk. split.
  - unfold sized. simpl. rewrite length_replicate. lia.
  - intros i m _ _ Hf. unfold full in Hf. simpl in Hf. rewrite at_slot_empty, IsEmpty_MakeEmpty in Hf. done.
Qed.

Lemma reinsert_spec old hs :
  table_ok hs ->
  Z.of_nat (length (elements old)) + Z.of_nat (length (elements (data_ hs))) < num_buckets_ hs ->
  exists data', reinsert old hs = Some (with_data data' hs) /\ table_ok (with_data data' hs) /\
    elements data' ≡ₚ elements old ++ elements (data_ hs).
Proof.
  revert hs. induction old as [|x old IH]; intros hs Hok Hroom; cbn [reinsert].
  { exists (data_ hs). destruct hs; done. }
  rewrite elements_cons in *. destruct (IsEmpty x) eqn:E; simpl; [by apply IH|].
  destruct (place_spec hs x) as (hs' & -> & Hok' & Hel & data' & ->); [done| |done|].
  { apply count_free; [apply Hok|]. simpl in Hroom. lia. }
  simpl. destruct (IH (with_data data' hs) Hok') as (data'' & -> & Hok'' & Hel'').
  { rewrite Hel. simpl in *. lia. }
  exists data''. rewrite with_data_twice in *. split_and!; [done|done|].
  rewrite Hel'', Hel. by rewrite Permutation_middle.
Qed.

Lemma Resize_spec hs new_size :
  set_ok hs -> num_elements_ hs < Z.max kMinBuckets new_size ->
  exists data', let n := Z.max kMinBuckets new_size in
    let hs' := mkSet (num_elements_ hs) n (size_mul n (max_load_factor_ hs)) true data'
                 (min_load_factor_ hs) (max_load_factor_ hs) in
    Resize new_size hs = Some hs' /\ set_ok hs' /\ elements data' ≡ₚ elements (data_ hs).
Proof.
  intros [[Hs Hp] Hc Hr Hl Hmin Hmax] Hroom. unfold Resize. cbv zeta.
  replace (if new_size <? kMinBuckets then kMinBuckets else new_size) with (Z.max kMinBuckets new_size)
    by (destruct (new_size <? kMinBuckets) eqn:E; bools; lia).
  set (n := Z.max kMinBuckets new_size) in *.
  assert (0 < n) by (subst n; unfold kMinBuckets; lia).
  destruct (reinsert_spec (data_ hs) (AllocateStorage n hs)) as (data' & -> & Hok' & Hel).
  { apply AllocateStorage_ok. lia. }
  { simpl. rewrite elements_empty. simpl. lia. }
  simpl in Hel. rewrite elements_empty, app_nil_r in Hel. exists data'.
  split_and!; [done| |done]. destruct Hok' as [Hs' Hp'].
  split; try done; simpl; [|lia]. by rewrite Hel.
Qed.

Lemma set_ok_size hs : set_ok hs -> 0 <= num_elements_ hs.
Proof. intros Hok. rewrite (so_count _ Hok). lia. Qed.

Lemma size_div_room s f : ok f -> 0 <= s -> s + 1 < Z.max kMinBuckets (size_div s f).
Proof.
  intros Hf Hs. destruct (Z.lt_ge_cases (s + 1) kMinBuckets); [lia|].
  pose proof (size_div_above s f Hf). lia.
Qed.

Lemma place_ok hs x :
  set_ok hs -> num_elements_ hs + 1 < num_buckets_ hs -> IsEmpty x = false ->
  exists data', place hs x (hashfn x) = Some (with_data data' hs) /\
    set_ok (with_elements (num_elements_ hs + 1) (with_data data' hs)) /\
    elements data' ≡ₚ x :: elements (data_ hs).
Proof.
  intros [Ht Hc Hr Hl Hmin Hmax] Hroom Hx.
  destruct (place_spec hs x Ht) as (hs' & -> & Ht' & Hel & data' & ->); [|done|].
  { apply count_free; [apply Ht|lia]. }
  exists data'. split_and!; [done| |done]. destruct Ht' as [Hs Hp].
  split; try done; simpl; [|by right]. rewrite Hel. simpl. lia.
Qed.

(** A new element; the table grows only at its limit. *)
Lemma Insert_spec hs x :
  set_ok hs -> IsEmpty x = false ->
  exists hs', Insert x hs = Some hs' /\ set_ok hs' /\
    elements (data_ hs') ≡ₚ x :: elements (data_ hs) /\
    (num_elements_ hs < elements_until_expand_ hs ->
       num_buckets_ hs' = num_buckets_ hs /\ max_load_factor_ hs' = max_load_factor_ hs).
Proof.
  intros Hok Hx. pose proof (set_ok_size hs Hok) as H0. unfold Insert, InsertWithHash.
  destruct (elements_until_expand_ hs <=? num_elements_ hs) eqn:E; bools.
  - pose proof (size_div_room _ _ (so_min _ Hok) H0) as Hroom.
    destruct (Resize_spec hs (size_div (num_elements_ hs) (min_load_factor_ hs))) as (data1 & Er & Hok1 & Hel1);
      [done|lia|].
    unfold Expand, Size. rewrite Er. cbn [mbind option_bind]. clear Er. set (hs1 := mkSet _ _ _ _ _ _ _) in *.
    destruct (place_ok hs1 x Hok1) as (data' & -> & Hok' & Hel); [done|done|].
    eexists. split; [done|]. split_and!; [done|by simpl in *; rewrite Hel, Hel1|lia].
  - pose proof (so_limit _ Hok) as Hl. cbn [mbind option_bind].
    destruct (place_ok hs x Hok) as (data' & -> & Hok' & Hel); [|done|].
    { pose proof (so_table _ Hok) as [Hs _]. unfold sized in Hs.
      destruct (Z.eq_dec (num_buckets_ hs) 0) as [En|].
      - rewrite En, size_mul_zero in Hl by apply Hok. lia.
      - pose proof (size_mul_below (num_buckets_ hs) _ (so_max _ Hok)). lia. }
    eexists. split; [done|]. by split_and!.
Qed.

Lemma Clear_spec hs : set_ok hs -> set_ok (Clear hs) /\ elements (data_ (Clear hs)) = [].
Proof.
  intros [_ _ _ _ Hmin Hmax]. split; [|done]. split; simpl; try done; try (by left); try (by rewrite size_mul_zero).
  split; [done|]. intros i m [? ?] _. simpl in *. lia.
Qed.

Lemma new_set_ok f g : ok f -> ok g -> set_ok (new_set f g).
Proof.
  intros Hf Hg. split; simpl; try done; try (by left); try (by rewrite size_mul_zero).
  split; [done|]. intros i m [? ?] _. simpl in *. lia.
Qed.

Lemma ShrinkToMaximumLoad_spec hs :
  set_ok hs -> exists hs', ShrinkToMaximumLoad hs = Some hs' /\ set_ok hs' /\
    elements (data_ hs') ≡ₚ elements (data_ hs).
Proof.
  intros Hok. pose proof (size_div_room _ _ (so_max _ Hok) (set_ok_size hs Hok)) as Hroom.
  destruct (Resize_spec hs (size_div (num_elements_ hs) (max_load_factor_ hs))) as (data' & Er & Hok' & Hel);
    [done|lia|]. eexists. by split_and!.
Qed.

Lemma SetLoadFactor_spec hs f g :
  set_ok hs -> ok f -> ok g -> exists hs', SetLoadFactor f g hs = Some hs' /\ set_ok hs' /\
    elements (data_ hs') ≡ₚ elements (data_ hs).
Proof.
  intros Hok Hf Hg. unfold SetLoadFactor. cbv zeta. set (hs1 := mkSet _ _ _ _ _ _ _).
  assert (set_ok hs1) as Hok1.
  { destruct Hok as [[Hs Hp] Hc Hr Hl Hmin Hmax]. by split. }
  destruct (load_exceeds _ _ _); [|by exists hs1].
  pose proof (size_div_room _ _ (mean_factor f g Hf Hg) (set_ok_size hs Hok)) as Hroom.
  destruct (Resize_spec hs1 (size_div (Size hs1) (mean f g))) as (data' & Er & Hok' & Hel);
    [done|unfold Size; simpl; lia|]. eexists. by split_and!.
Qed.

(** ** Reservation *)

Lemma Reserve_loop_spec hs k nb n :
  ok (max_load_factor_ hs) -> 0 <= nb -> k + 1 < size_mul n (max_load_factor_ hs) -> 0 <= n ->
  forall fuel, n - nb <= Z.of_nat fuel ->
  exists nb', Reserve_loop fuel hs k nb = Some nb' /\ nb <= nb' /\ k + 1 < size_mul nb' (max_load_factor_ hs).
Proof.
  intros Hmax Hnb Hn H0 fuel. revert nb Hnb. induction fuel as [|fuel IH]; intros nb Hnb Hf; cbn [Reserve_loop];
    destruct (size_mul nb (max_load_factor_ hs) <=? k + 1) eqn:E; bools; try (exists nb; split_and!; [done|lia|lia]).
  - pose proof (size_mul_mono n nb _ Hmax). lia.
  - destruct (IH (nb + 1)) as (nb' & -> & ? & ?); [lia|lia|]. exists nb'. split_and!; [done|lia|done].
Qed.

Lemma Reserve_spec hs k :
  set_ok hs -> 0 <= k -> exists fuel0, forall fuel, (fuel0 <= fuel)%nat ->
  exists hs', Reserve fuel k hs = Some hs' /\ set_ok hs' /\ elements (data_ hs') ≡ₚ elements (data_ hs) /\
    k + 1 < elements_until_expand_ hs'.
Proof.
  intros Hok Hk. destruct (size_mul_unbounded (k + 1) _ (so_max _ Hok)) as (n & H0 & Hn).
  exists (Z.to_nat n). intros fuel Hfuel. unfold Reserve.
  destruct (Reserve_loop_spec hs k (size_div k (max_load_factor_ hs)) n) with (fuel := fuel)
    as (nb & -> & Hle & Hnb); try done; [apply Hok|apply size_div_nonneg; [apply Hok|done]| |].
  { pose proof (size_div_nonneg k _ (so_max _ Hok)). lia. }
  pose proof (size_div_nonneg k _ (so_max _ Hok) Hk).
  cbn [mbind option_bind]. unfold NumBuckets. destruct (num_buckets_ hs <? nb) eqn:E; bools.
  - destruct (Resize_spec hs nb) as (data' & Er & Hok' & Hel); [done| |].
    { destruct (so_room _ Hok); [|lia]. pose proof (elements_length (data_ hs)).
      rewrite (so_count _ Hok). pose proof (so_table _ Hok) as [Hs _]. unfold sized in Hs.
      unfold kMinBuckets. lia. }
    eexists. split_and!; [done|done|done|]. simpl.
    pose proof (size_mul_mono nb (Z.max kMinBuckets nb) _ (so_max _ Hok)). lia.
  - exists hs. split_and!; try done. rewrite (so_limit _ Hok).
    pose proof (size_mul_mono nb (num_buckets_ hs) _ (so_max _ Hok)). lia.
Qed.

End Facts.
