(* ===== verification/HashSetSpec.v ===== *)
(** * What a hash set promises

    The set as a multiset: every operation ends without touching memory out of
    the array and does what the multiset does.  [Verify] counts the elements
    that lookup would miss, and a set read back from memory is the one written. *)
From S2P Require Import Prelude HashSet HashSetFacts.

Section Spec.
Context {T F : Type} {fns : SetFns T} {factors : LoadFactors F}.
Context {laws : SetLaws} {ok : F -> Prop} {load_laws : LoadLaws ok}.
Implicit Types hs : HashSet T F.

(** ** Operations of a client *)

(** Keys come as the test of a slot and the hash. *)
Inductive set_op :=
| OpInsert (x : T)
| OpFind (pred : T -> bool) (hash : Z)
| OpErase (pred : T -> bool) (hash : Z)
| OpClear
| OpShrink
| OpReserve (num_elements : Z)
| OpSetLoadFactor (min_load_factor max_load_factor : F).

Definition exec (fuel : nat) (op : set_op) hs : option (HashSet T F * option T) :=
  match op with
  | OpInsert x => hs ← Insert x hs; Some (hs, None)
  | OpFind pred hash =>
      it ← find_slot hs pred hash;
      match it with
      | None => Some (hs, None)
      | Some it => x ← ElementForIndex hs it; Some (hs, Some x)
      end
  | OpErase pred hash =>
      it ← find_slot hs pred hash;
      match it with
      | None => Some (hs, None)
      | Some it =>
          x ← ElementForIndex hs it;
          '(hs, _) ← Erase it hs;
          Some (hs, Some x)
      end
  | OpClear => Some (Clear hs, None)
  | OpShrink => hs ← ShrinkToMaximumLoad hs; Some (hs, None)
  | OpReserve k => hs ← Reserve fuel k hs; Some (hs, None)
  | OpSetLoadFactor f g => hs ← SetLoadFactor f g hs; Some (hs, None)
  end.

Fixpoint exec_all (fuel : nat) (ops : list set_op) hs : option (HashSet T F * list (option T)) :=
  match ops with
  | [] => Some (hs, [])
  | op :: ops =>
      '(hs, r) ← exec fuel op hs;
      '(hs, rs) ← exec_all fuel ops hs;
      Some (hs, r :: rs)
  end.

(** What the code relies on: no empty value is inserted, a key matches only
    elements of its hash. *)
Definition admissible (op : set_op) : Prop :=
  match op with
  | OpInsert x => IsEmpty x = false
  | OpFind pred hash | OpErase pred hash =>
      forall x, IsEmpty x = false -> pred x = true -> hashfn x = hash
  | OpClear | OpShrink => True
  | OpReserve k => 0 <= k
  | OpSetLoadFactor f g => ok f /\ ok g
  end.

(** ** The multiset *)

Inductive mstep : set_op -> list T -> option T -> list T -> Prop :=
| m_insert x m m' : m' ≡ₚ x :: m -> mstep (OpInsert x) m None m'
| m_find_hit pred hash x m : x ∈ m -> pred x = true -> mstep (OpFind pred hash) m (Some x) m
| m_find_miss pred hash m : (forall x, x ∈ m -> pred x = false) -> mstep (OpFind pred hash) m None m
| m_erase_hit pred hash x m m' : x :: m' ≡ₚ m -> pred x = true -> mstep (OpErase pred hash) m (Some x) m'
| m_erase_miss pred hash m : (forall x, x ∈ m -> pred x = false) -> mstep (OpErase pred hash) m None m
| m_clear m : mstep OpClear m None []
| m_shrink m m' : m' ≡ₚ m -> mstep OpShrink m None m'
| m_reserve k m m' : m' ≡ₚ m -> mstep (OpReserve k) m None m'
| m_set_load_factor f g m m' : m' ≡ₚ m -> mstep (OpSetLoadFactor f g) m None m'.

Inductive mrun : list set_op -> list T -> list (option T) -> list T -> Prop :=
| mrun_nil m : mrun [] m [] m
| mrun_cons op ops m r m' rs m'' :
    mstep op m r m' -> mrun ops m' rs m'' -> mrun (op :: ops) m (r :: rs) m''.

(** ** Refinement *)

Lemma admissible_key hs (pred : T -> bool) hash :
  (forall x, IsEmpty x = false -> pred x = true -> hashfn x = hash) ->
  forall x, x ∈ elements (data_ hs) -> pred x = true -> hashfn x = hash.
Proof. intros H x Hx. apply H. unfold elements in Hx. by apply list_elem_of_filter in Hx as [? _]. Qed.

Lemma exec_spec op hs :
  set_ok (ok := ok) hs -> admissible op ->
  exists fuel hs' r, exec fuel op hs = Some (hs', r) /\ set_ok (ok := ok) hs' /\
    mstep op (elements (data_ hs)) r (elements (data_ hs')).
Proof.
  intros Hok Ha. destruct op as [x|pred hash|pred hash| | |k|f g]; simpl in Ha; cbn [exec].
  - destruct (Insert_spec hs x Hok Ha) as (hs' & -> & Hok' & Hel & _).
    exists O, hs', None. split_and!; [done|done|by constructor].
  - destruct (find_slot_spec hs pred hash Hok (admissible_key hs pred hash Ha)) as ([i|] & -> & Hi); simpl.
    + destruct Hi as (Hi & Hf & Hp). destruct (elem_slot hs i Hok Hi Hf) as [-> Hin].
      exists O, hs, (Some (at_slot (data_ hs) i)). split_and!; [done|done|by constructor].
    + exists O, hs, None. split_and!; [done|done|by constructor].
  - destruct (find_slot_spec hs pred hash Hok (admissible_key hs pred hash Ha)) as ([i|] & -> & Hi); simpl.
    + destruct Hi as (Hi & Hf & Hp). destruct (elem_slot hs i Hok Hi Hf) as [-> _].
      destruct (Erase_spec hs i Hok Hi Hf) as (hs' & it' & -> & Hok' & _ & Hel & _).
      exists O, hs', (Some (at_slot (data_ hs) i)). split_and!; [done|done|by constructor].
    + exists O, hs, None. split_and!; [done|done|by constructor].
  - destruct (Clear_spec hs Hok) as [Hok' Hel]. exists O, (Clear hs), None.
    split_and!; [done|done|]. rewrite Hel. constructor.
  - destruct (ShrinkToMaximumLoad_spec hs Hok) as (hs' & -> & Hok' & Hel).
    exists O, hs', None. split_and!; [done|done|by constructor].
  - destruct (Reserve_spec hs k Hok Ha) as (fuel & Hr). exists fuel.
    destruct (Hr fuel) as (hs' & -> & Hok' & Hel & _); [done|].
    exists hs', None. split_and!; [done|done|by constructor].
  - destruct Ha as [Hf Hg]. destruct (SetLoadFactor_spec hs f g Hok Hf Hg) as (hs' & -> & Hok' & Hel).
    exists O, hs', None. split_and!; [done|done|by constructor].
Qed.

(** More fuel changes nothing. *)
Lemma Reserve_loop_mono fuel fuel' hs k nb r :
  (fuel <= fuel')%nat -> Reserve_loop fuel hs k nb = Some r -> Reserve_loop fuel' hs k nb = Some r.
Proof.
  revert fuel' nb. induction fuel as [|fuel IH]; intros fuel' nb Hle; destruct fuel' as [|fuel']; try lia;
    cbn [Reserve_loop]; destruct (_ <=? _); try done. apply IH. lia.
Qed.

Lemma exec_mono fuel fuel' op hs r :
  (fuel <= fuel')%nat -> exec fuel op hs = Some r -> exec fuel' op hs = Some r.
Proof.
  intros Hle. destruct op as [x|pred hash|pred hash| | |k|f g]; cbn [exec]; try done.
  unfold Reserve. destruct (Reserve_loop fuel hs k _) as [nb|] eqn:E; [|done].
  by rewrite (Reserve_loop_mono _ _ _ _ _ _ Hle E).
Qed.

Lemma exec_all_mono fuel fuel' ops hs r :
  (fuel <= fuel')%nat -> exec_all fuel ops hs = Some r -> exec_all fuel' ops hs = Some r.
Proof.
  intros Hle. revert hs r. induction ops as [|op ops IH]; intros hs r; cbn [exec_all]; [done|].
  destruct (exec fuel op hs) as [[hs' x]|] eqn:E; [|done]. simpl.
  rewrite (exec_mono _ _ _ _ _ Hle E). simpl.
  destruct (exec_all fuel ops hs') as [[hs'' xs]|] eqn:E'; [|done].
  by rewrite (IH _ _ E').
Qed.

(** C10. Over any sequence of insertions, lookups, removals and changes of size, a
    hash set behaves as a multiset: every operation returns, however the
    elements collide and wherever their chains wrap round, its results are those
    of the multiset, an element is found or removed exactly when one matches,
    and the probing invariant, the count and the spare slot that the loops need
    are kept. *)
Theorem hash_set_refines_multiset ops hs :
  set_ok (ok := ok) hs -> Forall admissible ops ->
  exists fuel0 hs' rs, (forall fuel, (fuel0 <= fuel)%nat -> exec_all fuel ops hs = Some (hs', rs)) /\
    set_ok (ok := ok) hs' /\ mrun ops (elements (data_ hs)) rs (elements (data_ hs')) /\
    Size hs' = Z.of_nat (length (elements (data_ hs'))).
Proof.
  intros Hok Ha.
  assert (exists fuel hs' rs, exec_all fuel ops hs = Some (hs', rs) /\ set_ok (ok := ok) hs' /\
            mrun ops (elements (data_ hs)) rs (elements (data_ hs'))) as (fuel & hs' & rs & E & Hok' & Hm).
  { revert hs Hok. induction Ha as [|op ops Hop Ha IH]; intros hs Hok.
    - exists O, hs, []. split_and!; [done|done|constructor].
    - destruct (exec_spec op hs Hok Hop) as (f1 & hs1 & r & E1 & Hok1 & Hm1).
      destruct (IH hs1 Hok1) as (f2 & hs2 & rs & E2 & Hok2 & Hm2).
      exists (Nat.max f1 f2), hs2, (r :: rs). split_and!; [|done|by econstructor].
      cbn [exec_all]. rewrite (exec_mono f1 (Nat.max f1 f2) _ _ _ ltac:(lia) E1). simpl.
      by rewrite (exec_all_mono f2 (Nat.max f1 f2) _ _ _ ltac:(lia) E2). }
  exists fuel, hs', rs. split_and!; [|done|done|apply Hok'].
  intros fuel' Hle. by apply (exec_all_mono fuel).
Qed.

(** ** The check of the table *)

(** No slot is empty from the ideal slot of the element at [i] to [i]. *)
Definition reached (n : Z) (data : list T) (i : Z) : Prop :=
  full data i -> passed n (ideal n (at_slot data i)) i (full data).

Lemma probed_reached n data : probed n data <-> forall i, slot_of n i -> reached n data i.
Proof.
  split.
  - intros H i Hi Hf m Hm Hd. by apply (H i).
  - intros H i m Hi Hm Hf Hd. by apply (H i Hi Hf).
Qed.

Lemma full_without (data : list T) (i m : Z) :
  slot_of (Z.of_nat (length data)) i -> 0 <= m ->
  full (<[Z.to_nat i := MakeEmpty]> data) m <-> m <> i /\ full data m.
Proof.
  intros Hi Hm. unfold full. destruct (Z.eq_dec m i) as [->|Hne].
  - rewrite at_slot_eq, IsEmpty_MakeEmpty by done. by split; [|intros [? _]].
  - rewrite at_slot_ne by (unfold slot_of in Hi; lia). tauto.
Qed.

(** An element would be inserted again where it is exactly when it is reached. *)
Lemma first_slot_reached hs i :
  let n := num_buckets_ hs in let x := at_slot (data_ hs) i in
  let without := with_data (<[Z.to_nat i := MakeEmpty]> (data_ hs)) hs in
  sized hs -> slot_of n i -> full (data_ hs) i ->
  exists z, FirstAvailableSlot without (ideal n x) = Some z /\ (i = z <-> reached n (data_ hs) i).
Proof.
  intros n x without Hs Hi Hf. unfold sized in Hs. fold n in Hs.
  assert (0 < n) as Hpos by (unfold slot_of in Hi; lia).
  assert (forall m, 0 <= m -> full (data_ without) m <-> m <> i /\ full (data_ hs) m) as Hw
    by (intros m Hm; apply full_without; by rewrite Hs || done).
  pose proof (ideal_slot n x Hpos) as Hj.
  destruct (FirstAvailableSlot_spec without (ideal n x)) as (z & E & Hz & Hzf & Hp); try done.
  { unfold sized. simpl. by rewrite length_insert. }
  { exists i. split; [done|]. rewrite Hw by (unfold slot_of in Hi; lia). by intros [? _]. }
  exists z. split; [done|]. change (num_buckets_ without) with n in *. split.
  - intros <- _ m Hm Hd. fold x in Hd. specialize (Hp m Hm Hd).
    apply Hw in Hp; [tauto|unfold slot_of in Hm; lia].
  - intros Hr. specialize (Hr Hf). fold x in Hr. destruct (Z.eq_dec i z) as [|Hne]; [done|exfalso].
    assert (~ full (data_ hs) z) as Hzd by (intros ?; apply Hzf, Hw; [unfold slot_of in Hz; lia|split; congruence]).
    destruct (Z.lt_trichotomy (dist n (ideal n x) z) (dist n (ideal n x) i)) as [Hlt|[Heq|Hgt]].
    + apply Hzd. by apply Hr.
    + apply dist_inj in Heq; [congruence|done|done|done].
    + specialize (Hp i Hi Hgt). apply Hw in Hp; [tauto|unfold slot_of in Hi; lia].
Qed.

Lemma Verify_loop_spec num i hs errors :
  let n := num_buckets_ hs in
  sized hs -> 0 <= i -> i + Z.of_nat num = n ->
  exists errors', Verify_loop num i hs errors = Some errors' /\ errors <= errors' /\
    (errors' = errors <-> forall k, i <= k < n -> reached n (data_ hs) k).
Proof.
  intros n Hs. revert i errors. induction num as [|num IH]; intros i errors Hi Hn; cbn [Verify_loop].
  { exists errors. split_and!; [done|lia|]. split; [lia|done]. }
  assert (slot_of n i) as Hsl by (unfold slot_of; lia).
  rewrite ElementForIndex_sized by done. cbn [mbind option_bind].
  assert (forall P : Z -> Prop, (forall k, i <= k < n -> P k) <-> P i /\ forall k, i + 1 <= k < n -> P k) as Hsplit.
  { intros P. split; [intros H; split; [apply H; lia|intros k Hk; apply H; lia]|].
    intros [H0 H] k Hk. destruct (Z.eq_dec k i) as [->|]; [done|apply H; lia]. }
  setoid_rewrite (Hsplit (reached n (data_ hs))). destruct (IsEmpty (at_slot (data_ hs) i)) eqn:E; cbn [negb].
  - destruct (IH (i + 1) errors) as (e' & -> & Hle & He); [lia|lia|]. exists e'. split_and!; [done|done|].
    rewrite He. split; [|tauto]. intros H. split; [|done]. intros Hf. unfold full in Hf. congruence.
  - rewrite set_slot_at by (rewrite Hs; done). cbn [mbind option_bind]. unfold IndexForHash.
    cbn [num_buckets_ with_data]. fold n. rewrite (proj2 (Z.eqb_neq n 0)) by lia.
    destruct (first_slot_reached hs i Hs Hsl E) as (z & Ez & Hz). fold n in Ez, Hz. unfold ideal in Ez.
    rewrite Ez. cbn [mbind option_bind].
    destruct (i =? z) eqn:Eiz; bools; cbn [negb].
    + destruct (IH (i + 1) errors) as (e' & -> & Hle & He); [lia|lia|]. exists e'. split_and!; [done|done|]. tauto.
    + destruct (IH (i + 1) (errors + 1)) as (e' & -> & Hle & He); [lia|lia|]. exists e'. split_and!; [done|lia|].
      split; [lia|]. tauto.
Qed.

(** [Verify] returns, on any table, full ones included, and reports no error
    exactly when no slot is empty between the ideal slot of an element and its
    own, the invariant lookup relies on. *)
Theorem verify_decides_probing hs :
  sized hs -> exists errors, Verify hs = Some errors /\ 0 <= errors /\
    (errors = 0 <-> probed (num_buckets_ hs) (data_ hs)).
Proof.
  intros Hs. unfold Verify. destruct (Verify_loop_spec (Z.to_nat (num_buckets_ hs)) 0 hs 0)
    as (errors & E & Hle & He); [done|done|unfold sized in Hs; lia|].
  exists errors. split_and!; [done|done|]. by rewrite He, probed_reached.
Qed.

(** ** Copies and memory *)

Lemma copy_spec (other : HashSet T F) :
  sized other -> copy other = Some (mkSet (num_elements_ other) (num_buckets_ other)
    (elements_until_expand_ other) true (data_ other) (min_load_factor_ other) (max_load_factor_ other)).
Proof.
  intros Hs. unfold copy, NumBuckets.
  replace (mapM _ _) with (Some (data_ other)); [done|]. symmetry. apply mapM_Some, Forall2_same_length_lookup.
  unfold sized in Hs. split; [rewrite length_seqZ; lia|].
  intros i k x Hk Hx. apply lookup_seqZ in Hk as [-> Hlt]. unfold ElementForIndex.
  rewrite (proj2 (Z.leb_le 0 _)) by lia. by replace (Z.to_nat (0 + Z.of_nat i)) with i by lia.
Qed.

End Spec.

(** A type's bytes give the object back. *)
Class StoredLaws (A : Type) `{!Stored A} (P : A -> Prop) : Prop := {
  store_length : forall a : A, length (store a) = sizeof (A := A);
  load_store : forall a : A, P a -> load (store a) = a
}.

Lemma le_bytes_length k z : length (le_bytes k z) = k.
Proof. revert z. induction k as [|k IH]; intros z; simpl; [done|]. by rewrite IH. Qed.

Lemma le_value_bytes k z : 0 <= z < 2 ^ (8 * Z.of_nat k) -> le_value (le_bytes k z) = z.
Proof.
  revert z. induction k as [|k IH]; intros z Hz; cbn [le_bytes le_value]; [simpl in Hz; lia|].
  rewrite IH.
  - pose proof (Z.div_mod z (2 ^ 8)). lia.
  - replace (8 * Z.of_nat (S k)) with (8 + 8 * Z.of_nat k) in Hz by lia. rewrite Z.pow_add_r in Hz by lia.
    split; [apply Z.div_pos; lia|]. apply Z.div_lt_upper_bound; lia.
Qed.

#[export] Instance uint64_laws : StoredLaws Z (in_u 64).
Proof.
  split; [intros; apply le_bytes_length|]. intros a Ha. apply le_value_bytes. exact Ha.
Qed.

Section Memory.
Context {T F : Type} `{!Stored T, !Stored F} {PT : T -> Prop} {PF : F -> Prop}.
Context {laws_T : StoredLaws T PT} {laws_F : StoredLaws F PF}.
Implicit Types hs : HashSet T F.

(** A write at the end of what is written, in a buffer with room. *)
Lemma WriteToBytes_app {A} `{!Stored A} {P} {laws_A : StoredLaws A P} pre rest (n : A) :
  (sizeof (A := A) <= length rest)%nat ->
  WriteToBytes (Some (pre ++ rest)) (length pre) n =
  Some (Some ((pre ++ store n) ++ drop (sizeof (A := A)) rest), length (pre ++ store n)).
Proof.
  intros H. unfold WriteToBytes. rewrite length_app, (proj2 (Nat.leb_le _ _)) by lia.
  rewrite take_app_length, drop_app_add, !length_app, store_length, app_assoc. done.
Qed.

Lemma ReadFromBytes_app {A} `{!Stored A} {P} {laws_A : StoredLaws A P} pre (n : A) rest ptr offset :
  ptr = pre ++ store n ++ rest -> offset = length pre -> P n ->
  ReadFromBytes ptr offset = Some (n, length (pre ++ store n)).
Proof.
  intros -> -> H. unfold ReadFromBytes. rewrite !length_app, store_length, (proj2 (Nat.leb_le _ _)) by lia.
  rewrite drop_app_length, <- (store_length n), take_app_length, load_store by done. done.
Qed.

Definition stored_elements (data : list T) : list Z := mjoin (store <$> data).

Lemma stored_elements_cons x data : stored_elements (x :: data) = store x ++ stored_elements data.
Proof. done. Qed.

Lemma stored_elements_length data : length (stored_elements data) = (length data * sizeof (A := T))%nat.
Proof.
  induction data as [|x data IH]; [done|]. rewrite stored_elements_cons, length_app, store_length, IH. simpl. lia.
Qed.

Lemma write_elements_app data pre rest :
  (length (stored_elements data) <= length rest)%nat ->
  write_elements data (Some (pre ++ rest)) (length pre) =
  Some (Some ((pre ++ stored_elements data) ++ drop (length (stored_elements data)) rest),
        length (pre ++ stored_elements data)).
Proof.
  revert pre rest. induction data as [|x data IH]; intros pre rest H; cbn [write_elements].
  { unfold stored_elements. simpl. by rewrite app_nil_r. }
  rewrite stored_elements_cons, length_app, store_length in *.
  rewrite WriteToBytes_app by lia. cbn [mbind option_bind]. rewrite IH by (rewrite length_drop; lia).
  rewrite drop_drop, <- !app_assoc. done.
Qed.

Lemma read_elements_app data pre rest :
  Forall PT data ->
  read_elements (length data) (pre ++ stored_elements data ++ rest) (length pre) =
  Some (data, length (pre ++ stored_elements data)).
Proof.
  intros Hd. revert pre. induction Hd as [|x data Hx Hd IH]; intros pre; cbn [read_elements length].
  { unfold stored_elements. simpl. by rewrite app_nil_r. }
  rewrite stored_elements_cons, <- app_assoc. rewrite (ReadFromBytes_app pre x (stored_elements data ++ rest)) by done. cbn [mbind option_bind].
  replace (pre ++ store x ++ stored_elements data ++ rest) with ((pre ++ store x) ++ stored_elements data ++ rest)
    by by rewrite <- app_assoc.
  rewrite IH. simpl. by rewrite <- app_assoc.
Qed.

(** A set's bytes. *)
Definition stored_set hs : list Z :=
  store (u64 (num_elements_ hs)) ++ store (u64 (num_buckets_ hs)) ++ store (u64 (elements_until_expand_ hs)) ++
  store (min_load_factor_ hs) ++ store (max_load_factor_ hs) ++ stored_elements (data_ hs).

Definition header_size : nat := (3 * 8 + 2 * sizeof (A := F))%nat.

Lemma stored_set_length hs :
  length (stored_set hs) = (header_size + length (data_ hs) * sizeof (A := T))%nat.
Proof.
  unfold stored_set, header_size. rewrite !length_app, !store_length, stored_elements_length. simpl. lia.
Qed.

Lemma WriteToMemory_spec hs buffer :
  (length (stored_set hs) <= length buffer)%nat ->
  WriteToMemory hs (Some buffer) =
  Some (Some (stored_set hs ++ drop (length (stored_set hs)) buffer), length (stored_set hs)).
Proof.
  intros Hb. unfold WriteToMemory. rewrite stored_set_length in Hb. unfold header_size in Hb.
  change (Some buffer) with (Some ([] ++ buffer)). change 0%nat with (length (@nil Z)).
  do 5 (rewrite WriteToBytes_app by (rewrite ?length_drop; simpl; lia); cbn [mbind option_bind]).
  rewrite write_elements_app by (rewrite stored_elements_length, !length_drop; simpl in *; lia).
  unfold stored_set. rewrite !drop_drop, <- !app_assoc, !length_app, !store_length. done.
Qed.

Lemma WriteToMemory_null hs : WriteToMemory hs None = Some (None, length (stored_set hs)).
Proof.
  unfold WriteToMemory. cbn [WriteToBytes mbind option_bind].
  assert (forall data offset, write_elements data None offset =
            Some (None, (offset + length (stored_elements data))%nat)) as E.
  { induction data as [|x data IH]; intros offset; cbn [write_elements].
    - unfold stored_elements. simpl. by rewrite Nat.add_0_r.
    - simpl. rewrite IH, stored_elements_cons, length_app, store_length. do 2 f_equal. lia. }
  rewrite E. unfold stored_set. rewrite !length_app, !store_length. do 2 f_equal; lia.
Qed.

(** The next object of a written set. *)
Ltac read_next pre n rest :=
  rewrite (ReadFromBytes_app pre n rest) by (done || (rewrite <- ?app_assoc; reflexivity));
  cbn [mbind option_bind].

(** Counts of machine width, slots and factors that can be stored. *)
Definition storable hs : Prop :=
  sized hs /\ in_u 64 (num_elements_ hs) /\ in_u 64 (num_buckets_ hs) /\ in_u 64 (elements_until_expand_ hs) /\
  num_elements_ hs <= num_buckets_ hs /\ Forall PT (data_ hs) /\ PF (min_load_factor_ hs) /\ PF (max_load_factor_ hs).

Lemma read_stored hs rest make_copy :
  storable hs ->
  read_set (stored_set hs ++ rest) make_copy =
  Some (mkSet (num_elements_ hs) (num_buckets_ hs) (elements_until_expand_ hs) make_copy (data_ hs)
          (min_load_factor_ hs) (max_load_factor_ hs), length (stored_set hs)).
Proof.
  intros (Hs & He & Hn & Hl & Hc & Hd & Hmin & Hmax). unfold read_set, stored_set. rewrite !wrap_u_id by done.
  set (a := store (num_elements_ hs)). set (b := store (num_buckets_ hs)).
  set (c := store (elements_until_expand_ hs)). set (d := store (min_load_factor_ hs)).
  set (e := store (max_load_factor_ hs)). set (f := stored_elements (data_ hs)).
  rewrite <- !app_assoc. set (mem := a ++ b ++ c ++ d ++ e ++ f ++ rest).
  read_next (@nil Z) (num_elements_ hs) (b ++ c ++ d ++ e ++ f ++ rest).
  read_next a (num_buckets_ hs) (c ++ d ++ e ++ f ++ rest).
  rewrite (proj2 (Z.leb_le _ _)) by done. cbn [negb]. fold a b.
  read_next (a ++ b) (elements_until_expand_ hs) (d ++ e ++ f ++ rest). fold c.
  read_next ((a ++ b) ++ c) (min_load_factor_ hs) (e ++ f ++ rest). fold d.
  read_next (((a ++ b) ++ c) ++ d) (max_load_factor_ hs) (f ++ rest). fold e.
  replace mem with (((((a ++ b) ++ c) ++ d) ++ e) ++ f ++ rest) by (unfold mem; by rewrite <- !app_assoc).
  unfold sized in Hs. replace (Z.to_nat (num_buckets_ hs)) with (length (data_ hs)) by lia.
  unfold f. rewrite read_elements_app by done. cbn [mbind option_bind]. by rewrite <- !app_assoc.
Qed.

(** C29. A hash set written to memory takes the number of bytes the dry run
    announces, leaves what follows alone, and read back is the same set, owning
    its slots if they were copied, with the same number of bytes read. *)
Theorem hash_set_memory_roundtrip hs buffer make_copy :
  storable hs -> (length (stored_set hs) <= length buffer)%nat ->
  exists size memory, WriteToMemory hs None = Some (None, size) /\
    WriteToMemory hs (Some buffer) = Some (Some memory, size) /\
    length memory = length buffer /\ drop size memory = drop size buffer /\
    read_set memory make_copy =
      Some (mkSet (num_elements_ hs) (num_buckets_ hs) (elements_until_expand_ hs) make_copy (data_ hs)
              (min_load_factor_ hs) (max_load_factor_ hs), size).
Proof.
  intros Hs Hb. eexists _, _. rewrite WriteToMemory_null, WriteToMemory_spec by done.
  split_and!; [done|done| | |].
  - rewrite length_app, length_drop. lia.
  - apply drop_app_length.
  - by apply read_stored.
Qed.

End Memory.

(** ** Witnesses *)

(** Numbers with zero as the empty value, and factors in thousandths. *)
Module SampleSet.
#[export] Instance fns : SetFns Z := {| IsEmpty := Z.eqb 0; MakeEmpty := 0; hashfn := fun x => x mod 2 ^ 32 |}.
#[export] Instance fns_laws : SetLaws.
Proof. split; [done|]. intros x. simpl. pose proof (Z.mod_pos_bound x (2 ^ 32)). lia. Qed.

#[export] Instance factors : LoadFactors Z := {|
  size_div n f := n * 1000 / f;
  size_mul n f := n * f / 1000;
  mean f g := (f + g) / 2;
  load_exceeds n num_buckets f := (0 <? num_buckets) && (f * num_buckets <? n * 1000)
|}.
Definition factor (f : Z) : Prop := 1 <= f <= 998.
#[export] Instance factors_laws : LoadLaws factor.
Proof.
  unfold factor. split; simpl.
  - done.
  - intros n f Hf Hn. split; [apply Z.div_pos; lia|]. apply Z.div_lt_upper_bound; nia.
  - intros n m f Hf Hn. apply Z.div_le_mono; nia.
  - intros k f Hf. exists (1000 * Z.max 0 (k + 1)). split; [lia|].
    apply Z.lt_le_trans with (Z.max 0 (k + 1)); [lia|]. apply Z.div_le_lower_bound; nia.
  - intros s f Hf Hs. apply Z.div_pos; lia.
  - unfold kMinBuckets. intros s f Hf Hs. apply Z.lt_le_trans with (s + 2); [lia|].
    apply Z.div_le_lower_bound; [lia|]. nia.
  - intros f g Hf Hg. zdiv.
Qed.

(** Three colliding elements round the end of the table, and one removed. *)
Definition ops : list (set_op (T := Z) (F := Z)) :=
  [OpInsert 999; OpInsert 1999; OpInsert 1; OpErase (Z.eqb 999) 999; OpFind (Z.eqb 1999) 1999;
   OpFind (Z.eqb 5) 5; OpReserve 2000; OpShrink; OpFind (Z.eqb 1) 1; OpClear].
Definition sample_set : HashSet Z Z := default (new_set 400 700) (fst <$> exec_all 3000 (take 4 ops) (new_set 400 700)).
End SampleSet.
Import SampleSet.

Lemma hash_set_refines_multiset_witness :
  (exists fuel0 hs' rs, (forall fuel, (fuel0 <= fuel)%nat ->
      exec_all fuel SampleSet.ops (new_set 400 700) = Some (hs', rs)) /\
    set_ok (ok := SampleSet.factor) hs' /\ mrun SampleSet.ops [] rs (elements (data_ hs')) /\
    Size hs' = Z.of_nat (length (elements (data_ hs')))) /\
  snd <$> exec_all 3000 SampleSet.ops (new_set 400 700) =
    Some [None; None; None; Some 999; Some 1999; None; None; None; Some 1; None].
Proof.
  split; [|vm_compute; reflexivity].
  apply (hash_set_refines_multiset (ok := SampleSet.factor) SampleSet.ops (new_set 400 700)).
  - apply new_set_ok; unfold SampleSet.factor; lia.
  - repeat (apply List.Forall_cons; [cbn [admissible]; try done; intros x _ <-%Z.eqb_eq; reflexivity|]).
    apply List.Forall_nil.
Defined.

Lemma verify_decides_probing_witness :
  exists errors, Verify SampleSet.sample_set = Some errors /\ 0 <= errors /\
    (errors = 0 <-> probed (num_buckets_ SampleSet.sample_set) (data_ SampleSet.sample_set)).
Proof.
  apply (verify_decides_probing SampleSet.sample_set). vm_compute. reflexivity.
Defined.

Lemma hash_set_memory_roundtrip_witness :
  let hs := mkSet 1 2 1 true [0; 7] 400 700 in let buffer := replicate 60 255 in
  exists size memory, WriteToMemory hs None = Some (None, size) /\
    WriteToMemory hs (Some buffer) = Some (Some memory, size) /\
    length memory = length buffer /\ drop size memory = drop size buffer /\
    read_set memory true = Some (hs, size).
Proof.
  intros hs buffer.
  apply (hash_set_memory_roundtrip (PT := in_u 64) (PF := in_u 64) hs buffer true).
  - split_and!; try done; try (by split). repeat apply List.Forall_cons; [by split|by split|apply List.Forall_nil].
  - apply Nat.leb_le. vm_compute. reflexivity.
Defined.
