(* ===== verification/JavaString.v ===== *)
(** * Strings ([runtime/mirror/string.h], [string-inl.h], [string.cc])

    A [java.lang.String] keeps its characters in one or two bytes each, as the
    lowest bit of its count says.  The object is its address, its count and the
    bytes after the header, padding included; a read or write out of them is
    [None].  Strings do not change once built, so a reference carries its
    object, and [null] is [None] where the code allows it.  Of an allocation the
    heap only gives the address, or nothing when memory is short.  [w] is the
    width of [size_t]. *)
From S2P Require Import Prelude BitUtils Utf.

(** ** Counts *)

Inductive StringCompressionFlag := kCompressed | kUncompressed.
Definition flag_bit (f : StringCompressionFlag) : Z :=
  match f with kCompressed => 0 | kUncompressed => 1 end.

Definition GetCompressionFlagFromCount (count : Z) : StringCompressionFlag :=
  if (u32 count &&& 1) =? 0 then kCompressed else kUncompressed.
Definition is_compressed_count (count : Z) : bool :=
  match GetCompressionFlagFromCount count with kCompressed => true | kUncompressed => false end.
Definition GetLengthFromCount (count : Z) : Z := s32 (u32 count >> 1).
Definition GetFlaggedCount (length : Z) (compressible : bool) : Z :=
  s32 (u32 (u32 length << 1) ||| flag_bit (if compressible then kCompressed else kUncompressed)).

Record JString := mkString {
  address : Z;
  count_ : Z;
  value_ : list Z
}.

Definition GetLength (s : JString) : Z := GetLengthFromCount (count_ s).
Definition IsCompressed (s : JString) : bool := is_compressed_count (count_ s).

(** ** Characters *)

(** [(c - 1u) < 0x7fu] *)
Definition IsASCII (c : Z) : bool := u32 (c - 1) <? 0x7f.
Fixpoint AllASCII (chars : list Z) : bool :=
  match chars with
  | [] => true
  | c :: chars => if negb (IsASCII c) then false else AllASCII chars
  end.
Fixpoint AllASCIIExcept (chars : list Z) (non_ascii : Z) : bool :=
  match chars with
  | [] => true
  | c :: chars =>
      if negb (IsASCII c) && negb (c =? non_ascii) then false else AllASCIIExcept chars non_ascii
  end.
(** The byte after the string ends it. *)
Definition DexFileStringAllASCII (chars : list Z) (length : Z) : option bool :=
  b ← chars !! Z.to_nat length; Some (b =? 0).

(** [value_compressed_[i]] and [value_[i]] *)
Definition byte_at (s : JString) (i : nat) : option Z := value_ s !! i.
Definition char_at (s : JString) (i : nat) : option Z :=
  lo ← value_ s !! (2 * i)%nat;
  hi ← value_ s !! (2 * i + 1)%nat;
  Some (lo + 2 ^ 8 * hi).
(** [n] of them from [start]. *)
Definition bytes_from (s : JString) (start n : nat) : option (list Z) := mapM (byte_at s) (seq start n).
Definition chars_from (s : JString) (start n : nat) : option (list Z) := mapM (char_at s) (seq start n).
Definition values_from (s : JString) (start n : nat) : option (list Z) :=
  if IsCompressed s then bytes_from s start n else chars_from s start n.
Definition values (s : JString) : option (list Z) := values_from s 0 (Z.to_nat (GetLength s)).

(** [None] is an exception. *)
Definition CharAt (s : JString) (index : Z) : option Z :=
  let count := GetLength s in
  if (index <? 0) || (count <=? index) then None
  else if IsCompressed s then byte_at s (Z.to_nat index)
  else char_at s (Z.to_nat index).

(** A UTF-16 unit in memory. *)
Definition le16 (c : Z) : list Z := [c mod 2 ^ 8; c / 2 ^ 8].
Definition le16s (chars : list Z) : list Z := flat_map le16 chars.

(** Bytes written from an offset on. *)
Definition put (off : nat) (bytes : list Z) (s : JString) : option JString :=
  if (off + length bytes <=? length (value_ s))%nat
  then Some (mkString (address s) (count_ s)
               (take off (value_ s) ++ bytes ++ drop (off + length bytes) (value_ s)))
  else None.
(** [value_compressed_[i] = static_cast<uint8_t>(chars[i])] and [value_[i] = chars[i]] *)
Definition put_bytes (chars : list Z) (s : JString) : option JString := put 0 (u8 <$> chars) s.
Definition put_chars (chars : list Z) (s : JString) : option JString := put 0 (le16s (u16 <$> chars)) s.

(** [n] elements of an array from an index on. *)
Definition array_from (array : list Z) (start n : Z) : option (list Z) :=
  if (0 <=? start) && (0 <=? n) && (start + n <=? Z.of_nat (length array))
  then Some (take (Z.to_nat n) (drop (Z.to_nat start) array)) else None.

Section Strings.
Variable w : Z.

(** ** Allocation *)

Definition kObjectAlignment : Z := 8.
Definition sizeof_String : Z := 16.

Definition SizeOf (s : JString) : Z :=
  let size := sizeof_String in
  let size := if IsCompressed s then wrap_u w (size + 1 * GetLength s)
              else wrap_u w (size + 2 * GetLength s) in
  RoundUp w size kObjectAlignment.

Definition max_length (block_size : Z) : Z :=
  let overflow_length := wrap_u w (- sizeof_String) / block_size in
  let max_alloc_length := overflow_length - 1 in
  RoundDown w max_alloc_length (kObjectAlignment / block_size).

(** A zeroed string, or [None] for an exception. *)
Definition Alloc (addr : option Z) (utf16_length_with_flag : Z) : option JString :=
  let block_size := if is_compressed_count utf16_length_with_flag then 1 else 2 in
  let length := wrap_u w (GetLengthFromCount utf16_length_with_flag) in
  let data_size := wrap_u w (block_size * length) in
  let size := wrap_u w (sizeof_String + data_size) in
  let alloc_size := RoundUp w size kObjectAlignment in
  if max_length block_size <? length then None
  else
    a ← addr;
    Some (mkString a utf16_length_with_flag (replicate (Z.to_nat (alloc_size - sizeof_String)) 0)).

Definition AllocEmptyString (addr : option Z) : option JString := Alloc addr (GetFlaggedCount 0 true).

Definition AllocFromByteArray (addr : option Z) (byte_length : Z) (array : list Z) (offset high_byte : Z) :
    option JString :=
  src ← array_from array offset byte_length;
  let high_byte := high_byte &&& 0xff in
  let compressible := AllASCII src && (high_byte =? 0) in
  let length_with_flag := GetFlaggedCount byte_length compressible in
  s ← Alloc addr length_with_flag;
  if IsCompressed s then put_bytes ((fun b => b &&& 0xff) <$> src) s
  else put_chars ((fun b => (high_byte << 8) + (b &&& 0xff)) <$> src) s.

Definition AllocFromCharArray (addr : option Z) (count : Z) (array : list Z) (offset : Z) : option JString :=
  src ← array_from array offset count;
  let compressible := AllASCII src in
  let length_with_flag := GetFlaggedCount count compressible in
  s ← Alloc addr length_with_flag;
  if is_compressed_count length_with_flag then put_bytes src s else put_chars src s.

(** A substring. *)
Definition AllocFromString (addr : option Z) (string_length : Z) (string : JString) (offset : Z) : option JString :=
  let n := Z.to_nat string_length in let from := Z.to_nat offset in
  compressible ← (if IsCompressed string then Some true else AllASCII <$> chars_from string from n);
  let length_with_flag := GetFlaggedCount string_length compressible in
  s ← Alloc addr length_with_flag;
  if IsCompressed string then
    src ← bytes_from string from n;
    put 0 src s
  else
    src ← chars_from string from n;
    if is_compressed_count length_with_flag then put_bytes src s else put_chars src s.

Definition AllocFromUtf16 (addr : option Z) (utf16_length : Z) (utf16_data_in : list Z) : option JString :=
  src ← array_from utf16_data_in 0 utf16_length;
  let compressible := AllASCII src in
  let length_with_flag := GetFlaggedCount utf16_length compressible in
  s ← Alloc addr length_with_flag;
  if compressible then put_bytes src s else put_chars src s.

Definition AllocFromModifiedUtf8_counted (addr : option Z) (utf16_length : Z) (utf8_data_in : list Z)
    (utf8_length : Z) : option JString :=
  let compressible := utf16_length =? utf8_length in
  let utf16_length_with_flag := GetFlaggedCount utf16_length compressible in
  s ← Alloc addr utf16_length_with_flag;
  if compressible then
    src ← array_from utf8_data_in 0 utf16_length;
    put 0 src s
  else
    chars ← ConvertModifiedUtf8ToUtf16 utf16_length utf8_data_in utf8_length;
    put_chars chars s.

(** [strlen]: the bytes before the first zero. *)
Fixpoint strlen (p : list Z) : option Z :=
  match p with
  | [] => None
  | b :: p => if b =? 0 then Some 0 else n ← strlen p; Some (n + 1)
  end.
Definition AllocFromModifiedUtf8_length (addr : option Z) (utf16_length : Z) (utf8_data_in : list Z) :
    option JString :=
  utf8_length ← strlen utf8_data_in;
  AllocFromModifiedUtf8_counted addr utf16_length utf8_data_in (s32 utf8_length).
Definition AllocFromModifiedUtf8 (addr : option Z) (utf : list Z) : option JString :=
  byte_count ← strlen utf;
  char_count ← CountModifiedUtf8Chars utf byte_count;
  AllocFromModifiedUtf8_counted addr (s32 char_count) utf (s32 byte_count).

(** Concatenation. *)
Definition AllocFromStrings (addr : option Z) (string string2 : JString) : option JString :=
  let length := GetLength string in
  let length2 := GetLength string2 in
  let compressible := IsCompressed string && IsCompressed string2 in
  let length_with_flag := GetFlaggedCount (s32 (length + length2)) compressible in
  new_string ← Alloc addr length_with_flag;
  if compressible then
    a ← bytes_from string 0 (Z.to_nat length);
    b ← bytes_from string2 0 (Z.to_nat length2);
    new_string ← put 0 a new_string;
    put (Z.to_nat length) b new_string
  else
    a ← values string;
    b ← values string2;
    new_string ← put 0 (le16s a) new_string;
    put (2 * Z.to_nat length) (le16s b) new_string.

Definition DoReplace (addr : option Z) (src : JString) (old_c new_c : Z) : option JString :=
  let length := GetLength src in
  chars ← values src;
  let compressible :=
    IsASCII new_c && (IsCompressed src || (negb (IsASCII old_c) && AllASCIIExcept chars old_c)) in
  let length_with_flag := GetFlaggedCount length compressible in
  string ← Alloc addr length_with_flag;
  let replaced := (fun c => if negb (old_c =? c) then c else new_c) <$> chars in
  if compressible then put_bytes replaced string else put_chars replaced string.

(** ** Observers *)

Definition ComputeHashCode (s : JString) : option Z := ComputeUtf16Hash <$> values s.
(** The hash and what the [hash_code_] field, [cached] before, holds after. *)
Definition GetHashCode (cached : Z) (s : JString) : option (Z * Z) :=
  let result := s32 cached in
  if result =? 0 then hash ← ComputeHashCode s; Some (hash, u32 hash)
  else Some (result, cached).

Definition GetUtfLength (s : JString) : option Z :=
  if IsCompressed s then Some (GetLength s)
  else chars ← values s; Some (CountUtf8Bytes chars).

Definition ToModifiedUtf8 (s : JString) : option (list Z) :=
  byte_count ← GetUtfLength s;
  chars ← values s;
  Some (if IsCompressed s then chars else ConvertUtf16ToModifiedUtf8 byte_count chars).

(** The position of [ch] among the values from [p] on. *)
Fixpoint FastIndexOf_loop (chars : list Z) (ch p : Z) : Z :=
  match chars with
  | [] => -1
  | c :: chars => if c =? ch then p else FastIndexOf_loop chars ch (p + 1)
  end.
Definition FastIndexOf (s : JString) (ch start : Z) : option Z :=
  let count := GetLength s in
  let start := if start <? 0 then 0 else if count <? start then count else start in
  chars ← values_from s (Z.to_nat start) (Z.to_nat (count - start));
  Some (FastIndexOf_loop chars ch start).

(** [for (i = 0; i < that->GetLength(); ++i)] *)
Fixpoint Equals_loop (num : nat) (i : Z) (this that : JString) : option bool :=
  match num with
  | O => Some true
  | S num =>
      a ← CharAt this i;
      b ← CharAt that i;
      if negb (a =? b) then Some false else Equals_loop num (i + 1) this that
  end.
Definition Equals (this : JString) (that : option JString) : option bool :=
  match that with
  | None => Some false
  | Some that =>
      if address this =? address that then Some true
      else if negb (GetLength this =? GetLength that) then Some false
      else Equals_loop (Z.to_nat (GetLength that)) 0 this that
  end.

(** [VisitStringEquals] of the x86-64 compiler: counts with their flags, then the
    values in words of eight bytes, [repe cmpsq].  [None] is a read out of an object. *)
Definition value_words (s : JString) (words : Z) : option (list Z) :=
  let n := Z.to_nat (8 * words) in
  if (n <=? length (value_ s))%nat then Some (take n (value_ s)) else None.
Definition intrinsic_Equals (str : JString) (arg : option JString) : option bool :=
  match arg with
  | None => Some false
  | Some arg =>
      if address str =? address arg then Some true
      else
        let rcx := u32 (count_ str) in
        if negb (rcx =? u32 (count_ arg)) then Some false
        else if rcx =? 0 then Some true
        else
          let carry := negb ((rcx &&& 1) =? 0) in
          let rcx := rcx >> 1 in
          let rcx := if carry then rcx else u32 (rcx + 1) >> 1 in
          let rcx := u32 (rcx + 3) >> 2 in
          rsi ← value_words str rcx;
          rdi ← value_words arg rcx;
          Some (bool_decide (rsi = rdi))
  end.

Fixpoint Equals_chars_loop (num : nat) (i : Z) (this : JString) (that_chars : list Z) (that_offset : Z) :
    option bool :=
  match num with
  | O => Some true
  | S num =>
      a ← CharAt this i;
      b ← that_chars !! Z.to_nat (that_offset + i);
      if negb (a =? b) then Some false else Equals_chars_loop num (i + 1) this that_chars that_offset
  end.
Definition Equals_chars (this : JString) (that_chars : list Z) (that_offset that_length : Z) : option bool :=
  if negb (GetLength this =? that_length) then Some false
  else Equals_chars_loop (Z.to_nat that_length) 0 this that_chars that_offset.

(** [Equals(const char* modified_utf8)] *)
Fixpoint Equals_utf8_loop (fuel : nat) (i : Z) (s : JString) (modified_utf8 : list Z) : option bool :=
  if i <? GetLength s then
    match fuel with
    | O => None
    | S fuel =>
        '(ch, modified_utf8) ← GetUtf16FromUtf8 modified_utf8;
        if ch =? 0 then Some false
        else
          c ← CharAt s i;
          if negb (GetLeadingUtf16Char ch =? c) then Some false
          else
            let i := i + 1 in
            let trailing := GetTrailingUtf16Char ch in
            if negb (trailing =? 0) then
              if i =? GetLength s then Some false
              else
                c ← CharAt s i;
                if negb (c =? trailing) then Some false else Equals_utf8_loop fuel (i + 1) s modified_utf8
            else Equals_utf8_loop fuel i s modified_utf8
    end
  else '(b, _) ← read_byte modified_utf8; Some (b =? 0).
Definition Equals_utf8 (s : JString) (modified_utf8 : list Z) : option bool :=
  Equals_utf8_loop (Z.to_nat (GetLength s)) 0 s modified_utf8.

(** [Equals(const StringPiece& modified_utf8)], from the piece's data on *)
Fixpoint Equals_piece_loop (fuel : nat) (i : Z) (s : JString) (p : list Z) : option bool :=
  if i <? GetLength s then
    match fuel with
    | O => None
    | S fuel =>
        '(ch, p) ← GetUtf16FromUtf8 p;
        c ← CharAt s i;
        if negb (GetLeadingUtf16Char ch =? c) then Some false
        else
          let trailing := GetTrailingUtf16Char ch in
          if negb (trailing =? 0) then
            if i =? GetLength s - 1 then Some false
            else
              let i := i + 1 in
              c ← CharAt s i;
              if negb (c =? trailing) then Some false else Equals_piece_loop fuel (i + 1) s p
          else Equals_piece_loop fuel (i + 1) s p
    end
  else Some true.
Definition Equals_piece (s : JString) (modified_utf8 : list Z) : option bool :=
  Equals_piece_loop (Z.to_nat (GetLength s)) 0 s modified_utf8.

(** [MemCmp16] and the loops of [CompareTo]: the first difference, or zero. *)
Fixpoint first_char_diff (lhs rhs : list Z) : Z :=
  match lhs, rhs with
  | a :: lhs, b :: rhs => if negb (a - b =? 0) then a - b else first_char_diff lhs rhs
  | _, _ => 0
  end.
Definition CompareTo (lhs rhs : JString) : option Z :=
  if address lhs =? address rhs then Some 0
  else
    let lhs_count := GetLength lhs in
    let rhs_count := GetLength rhs in
    let count_diff := s32 (lhs_count - rhs_count) in
    let min_count := Z.to_nat (if count_diff <? 0 then lhs_count else rhs_count) in
    if IsCompressed lhs && IsCompressed rhs then
      a ← bytes_from lhs 0 min_count;
      b ← bytes_from rhs 0 min_count;
      let char_diff := first_char_diff a b in
      Some (if negb (char_diff =? 0) then char_diff else count_diff)
    else if IsCompressed lhs || IsCompressed rhs then
      compressed_chars ← bytes_from (if IsCompressed lhs then lhs else rhs) 0 min_count;
      uncompressed_chars ← chars_from (if IsCompressed lhs then rhs else lhs) 0 min_count;
      let char_diff := first_char_diff compressed_chars uncompressed_chars in
      Some (if negb (char_diff =? 0) then if IsCompressed lhs then char_diff else - char_diff
            else count_diff)
    else
      a ← chars_from lhs 0 min_count;
      b ← chars_from rhs 0 min_count;
      let char_diff := first_char_diff a b in
      Some (if negb (char_diff =? 0) then char_diff else count_diff).

Definition ToCharArray (s : JString) : option (list Z) := values s.

(** The array with the characters from [start] to [end] at [index]. *)
Definition GetChars (s : JString) (start end_ : Z) (array : list Z) (index : Z) : option (list Z) :=
  chars ← values_from s (Z.to_nat start) (Z.to_nat (end_ - start));
  if (Z.to_nat index + length chars <=? length array)%nat
  then Some (take (Z.to_nat index) array ++ chars ++ drop (Z.to_nat index + length chars) array)
  else None.

End Strings.
