(* ===== verification/JavaStringFacts.v ===== *)
(** * Facts about strings

    The one representation of a sequence of code units, and that every
    constructor builds it and every observer reads it back. *)
From S2P Require Import Prelude BitUtils Utf JavaString.

(** ** Counts *)

Lemma flagged_u32 n b :
  0 <= n < 2 ^ 31 ->
  u32 (GetFlaggedCount n b) = 2 * n + (if b then 0 else 1).
Proof.
  intros Hn. unfold GetFlaggedCount. rewrite wrap_u_wrap_s by lia.
  rewrite (wrap_u_id 32 n) by (unfold in_u; lia). rewrite Z.shiftl_mul_pow2 by lia.
  rewrite (wrap_u_id 32 (n * 2 ^ 1)) by (unfold in_u; lia).
  replace (n * 2 ^ 1 ||| _) with (2 * n + (if b then 0 else 1)); [apply wrap_u_id; unfold in_u; destruct b; lia|].
  rewrite Z.lor_comm, <- (Z.shiftl_mul_pow2 n 1) by lia.
  rewrite lor_shiftl by (destruct b; simpl; lia). destruct b; simpl flag_bit; lia.
Qed.

Lemma flagged_length n b : 0 <= n < 2 ^ 31 -> GetLengthFromCount (GetFlaggedCount n b) = n.
Proof.
  intros Hn. unfold GetLengthFromCount. rewrite flagged_u32, Z.shiftr_div_pow2 by lia.
  rewrite wrap_s_id; [destruct b; zdiv|lia|]. unfold in_s. destruct b; zdiv.
Qed.

Lemma flagged_compressed n b : 0 <= n < 2 ^ 31 -> is_compressed_count (GetFlaggedCount n b) = b.
Proof.
  intros Hn. unfold is_compressed_count, GetCompressionFlagFromCount. rewrite flagged_u32 by done.
  replace (_ &&& 1) with (if b then 0 else 1); [by destruct b|].
  pose proof (land_ones_mod (2 * n + (if b then 0 else 1)) 1 ltac:(lia)) as E. change (2 ^ 1 - 1) with 1 in E.
  rewrite E. destruct b; zdiv.
Qed.

(** ** ASCII *)

Lemma IsASCII_spec c : in_u 16 c -> IsASCII c = true <-> 0 < c < 128.
Proof. intros Hc. unfold IsASCII. rewrite Z.ltb_lt. wraps. Qed.

Lemma AllASCII_spec u :
  Forall (in_u 16) u -> AllASCII u = true <-> Forall (fun c => 0 < c < 128) u.
Proof.
  induction 1 as [|c u Hc Hu IH]; [split; [constructor|done]|]. cbn [AllASCII].
  rewrite List.Forall_cons_iff, <- IH, <- IsASCII_spec by done. destruct (IsASCII c); simpl; [tauto|].
  split; [done|by intros [? _]].
Qed.

Lemma AllASCII_app u v : AllASCII (u ++ v) = AllASCII u && AllASCII v.
Proof. induction u as [|c u IH]; simpl; [done|]. by destruct (IsASCII c). Qed.

Lemma AllASCII_bytes u :
  Forall (in_u 16) u -> AllASCII u = true -> Forall (fun c => 0 <= c < 256) u.
Proof. intros Hu Ha. apply AllASCII_spec in Ha; [|done]. eapply List.Forall_impl; [|done]. simpl. lia. Qed.

Lemma u8_id u : Forall (fun c => 0 <= c < 256) u -> u8 <$> u = u.
Proof.
  induction 1 as [|c u Hc Hu IH]; [done|]. rewrite fmap_cons, IH. f_equal. apply wrap_u_id.
  unfold in_u. lia.
Qed.

Lemma u16_id u : Forall (in_u 16) u -> u16 <$> u = u.
Proof. induction 1 as [|c u Hc Hu IH]; [done|]. rewrite fmap_cons, IH. f_equal. by apply wrap_u_id. Qed.

(** ** The representation *)

Definition block_size (u : list Z) : Z := if AllASCII u then 1 else 2.
Definition encode (u : list Z) : list Z := if AllASCII u then u else le16s u.
Definition padding (n : nat) : nat := Z.to_nat ((- Z.of_nat n) mod 8).
Definition padded (l : list Z) : list Z := l ++ replicate (padding (length l)) 0.

(** The string of the units [u] at an address. *)
Definition string_of (a : Z) (u : list Z) : JString :=
  mkString a (GetFlaggedCount (Z.of_nat (length u)) (AllASCII u)) (padded (encode u)).

Definition units (u : list Z) : Prop := Forall (in_u 16) u /\ Z.of_nat (length u) < 2 ^ 31.

Lemma le16s_length u : length (le16s u) = (2 * length u)%nat.
Proof. induction u as [|c u IH]; simpl; lia. Qed.

Lemma encode_length u : Z.of_nat (length (encode u)) = block_size u * Z.of_nat (length u).
Proof. unfold encode, block_size. destruct (AllASCII u); rewrite ?le16s_length; lia. Qed.

Lemma le16s_app u v : le16s (u ++ v) = le16s u ++ le16s v.
Proof. apply flat_map_app. Qed.

(** ** Allocation *)

Definition size_bits (w : Z) : Prop := w = 32 \/ w = 64.

(** What an allocation of [u] gives. *)
Definition build (w : Z) (addr : option Z) (u : list Z) : option JString :=
  if max_length w (block_size u) <? Z.of_nat (length u) then None
  else a ← addr; Some (string_of a u).

Lemma max_length_value w b :
  size_bits w -> b = 1 \/ b = 2 ->
  0 <= max_length w b /\ sizeof_String + b * max_length w b + 7 < 2 ^ w.
Proof. intros [-> | ->] [-> | ->]; vm_compute; split; congruence. Qed.

Lemma block_size_cases u : block_size u = 1 \/ block_size u = 2.
Proof. unfold block_size. destruct (AllASCII u); auto. Qed.

(** The sizes do not wrap. *)
Lemma Alloc_spec w addr u :
  size_bits w -> Z.of_nat (length u) < 2 ^ 31 ->
  Alloc w addr (GetFlaggedCount (Z.of_nat (length u)) (AllASCII u)) =
  if max_length w (block_size u) <? Z.of_nat (length u) then None
  else a ← addr; Some (mkString a (GetFlaggedCount (Z.of_nat (length u)) (AllASCII u))
                         (replicate (length (padded (encode u))) 0)).
Proof.
  intros Hw Hn. unfold Alloc. cbv zeta. rewrite flagged_compressed, flagged_length by lia.
  fold (block_size u). pose proof (encode_length u) as Hl.
  set (n := Z.of_nat (length u)) in *. assert (0 <= n) by lia.
  destruct (max_length_value w (block_size u) Hw (block_size_cases u)) as [Hm1 Hm2].
  assert (wrap_u w n = n) as -> by (apply wrap_u_id; unfold in_u; destruct Hw as [-> | ->]; lia).
  destruct (max_length w (block_size u) <? n) eqn:E; [done|]. bools.
  assert (block_size u * n <= block_size u * max_length w (block_size u)) by (destruct (block_size_cases u); nia).
  assert (0 <= block_size u * n) by (destruct (block_size_cases u); nia).
  unfold sizeof_String in *.
  rewrite (wrap_u_id w (block_size u * n)) by (unfold in_u; lia).
  rewrite (wrap_u_id w (16 + block_size u * n)) by (unfold in_u; lia).
  unfold kObjectAlignment. change 8 with (2 ^ 3).
  rewrite RoundUp_eq by (first [destruct Hw; lia | lia | unfold in_u; lia]).
  destruct addr as [a|]; [|done]. simpl. do 3 f_equal. unfold padded. rewrite length_app, length_replicate.
  unfold padding. rewrite Hl. zdiv.
Qed.

Lemma put_encode a c l :
  put 0 l (mkString a c (replicate (length (padded l)) 0)) = Some (mkString a c (padded l)).
Proof.
  unfold put, padded. simpl value_. rewrite length_replicate, (proj2 (Nat.leb_le _ _)) by (rewrite length_app; lia).
  simpl. do 2 f_equal. rewrite length_app, length_replicate, drop_replicate. do 2 f_equal. lia.
Qed.

Lemma alloc_put w addr u :
  size_bits w -> Z.of_nat (length u) < 2 ^ 31 ->
  (s ← Alloc w addr (GetFlaggedCount (Z.of_nat (length u)) (AllASCII u)); put 0 (encode u) s) = build w addr u.
Proof.
  intros Hw Hn. rewrite Alloc_spec by done. unfold build. destruct (_ <? _); [done|].
  destruct addr as [a|]; [|done]. simpl. rewrite put_encode. done.
Qed.

(** Writing units in the width of their count. *)
Lemma alloc_units w addr u (b : bool) :
  size_bits w -> units u -> b = AllASCII u ->
  (s ← Alloc w addr (GetFlaggedCount (Z.of_nat (length u)) b);
   if b then put_bytes u s else put_chars u s) = build w addr u.
Proof.
  intros Hw [Hu Hn] ->. rewrite <- alloc_put by done. unfold put_bytes, put_chars, encode.
  destruct (AllASCII u) eqn:E; [by rewrite u8_id by by apply AllASCII_bytes|by rewrite u16_id].
Qed.

Lemma Alloc_count w addr c s : Alloc w addr c = Some s -> count_ s = c.
Proof.
  unfold Alloc. cbv zeta. destruct (_ <? _); [done|]. destruct addr as [a|]; [|done]. simpl. by intros [= <-].
Qed.

(** ** Reading *)

Lemma mapM_seq {A} (l : list A) start n :
  (start + n <= length l)%nat -> mapM (fun i => l !! i) (seq start n) = Some (take n (drop start l)).
Proof.
  revert start. induction n as [|n IH]; intros start H; [done|]. cbn [seq mapM].
  destruct (lookup_lt_is_Some_2 l start) as [x Hx]; [lia|]. rewrite Hx. cbn [mbind option_bind].
  rewrite IH by lia. cbn [mbind option_bind mret option_ret]. by rewrite (drop_S l x start Hx).
Qed.

Lemma le16s_lookup u i :
  le16s u !! (2 * i)%nat = (fun c => c mod 2 ^ 8) <$> u !! i /\
  le16s u !! (2 * i + 1)%nat = (fun c => c / 2 ^ 8) <$> u !! i.
Proof.
  revert i. induction u as [|c u IH]; intros [|i]; simpl; try done.
  replace (i + S (i + 0))%nat with (S (2 * i))%nat by lia.
  replace (i + S (i + 0) + 1)%nat with (S (2 * i + 1))%nat by lia. apply IH.
Qed.

Lemma char_at_string a u i :
  AllASCII u = false -> (i < length u)%nat -> char_at (string_of a u) i = u !! i.
Proof.
  intros Ha Hi. unfold char_at, string_of. simpl value_. unfold padded, encode. rewrite Ha.
  rewrite !lookup_app_l by (rewrite le16s_length; lia).
  destruct (le16s_lookup u i) as [-> ->]. destruct (lookup_lt_is_Some_2 u i Hi) as [c ->]. simpl.
  f_equal. pose proof (Z.div_mod c (2 ^ 8)). lia.
Qed.

Lemma byte_at_string a u i :
  AllASCII u = true -> (i < length u)%nat -> byte_at (string_of a u) i = u !! i.
Proof.
  intros Ha Hi. unfold byte_at, string_of. simpl value_. unfold padded, encode. rewrite Ha.
  by rewrite lookup_app_l.
Qed.

Lemma mapM_ext_seq {A} (f g : nat -> option A) start n :
  (forall i, (start <= i < start + n)%nat -> f i = g i) -> mapM f (seq start n) = mapM g (seq start n).
Proof.
  revert start. induction n as [|n IH]; intros start H; [done|]. cbn [seq mapM].
  rewrite H by lia. by rewrite IH by (intros; apply H; lia).
Qed.

Lemma string_length a u : units u -> GetLength (string_of a u) = Z.of_nat (length u).
Proof. intros [_ Hn]. apply flagged_length. lia. Qed.
Lemma string_compressed a u : units u -> IsCompressed (string_of a u) = AllASCII u.
Proof. intros [_ Hn]. apply flagged_compressed. lia. Qed.

Lemma bytes_from_string a u start n :
  AllASCII u = true -> (start + n <= length u)%nat ->
  bytes_from (string_of a u) start n = Some (take n (drop start u)).
Proof.
  intros Ha Hn. rewrite <- mapM_seq by done. apply mapM_ext_seq. intros. apply byte_at_string; [done|lia].
Qed.
Lemma chars_from_string a u start n :
  AllASCII u = false -> (start + n <= length u)%nat ->
  chars_from (string_of a u) start n = Some (take n (drop start u)).
Proof.
  intros Ha Hn. rewrite <- mapM_seq by done. apply mapM_ext_seq. intros. apply char_at_string; [done|lia].
Qed.

Lemma values_from_string a u start n :
  units u -> (start + n <= length u)%nat ->
  values_from (string_of a u) start n = Some (take n (drop start u)).
Proof.
  intros Hu Hn. unfold values_from. rewrite string_compressed by done.
  destruct (AllASCII u) eqn:E; [by apply bytes_from_string|by apply chars_from_string].
Qed.

Lemma values_string a u : units u -> values (string_of a u) = Some u.
Proof.
  intros Hu. unfold values. rewrite string_length, Nat2Z.id, values_from_string by (done || lia).
  by rewrite drop_0, firstn_all.
Qed.

Lemma CharAt_string a u i :
  units u -> CharAt (string_of a u) i = if 0 <=? i then u !! Z.to_nat i else None.
Proof.
  intros Hu. unfold CharAt. rewrite string_length, string_compressed by done.
  destruct (0 <=? i) eqn:E0; bools.
  - rewrite (proj2 (Z.ltb_ge i 0)) by lia. simpl. destruct (Z.of_nat (length u) <=? i) eqn:E; bools.
    + by rewrite lookup_ge_None_2 by lia.
    + destruct (AllASCII u) eqn:Ea; [by apply byte_at_string; [|lia]|by apply char_at_string; [|lia]].
  - by rewrite (proj2 (Z.ltb_lt i 0)) by lia.
Qed.
