(* ===== verification/JavaStringSpec.v ===== *)
(** * What strings promise

    Compression cannot be seen: a string is a sequence of UTF-16 units, built and
    read as such, and equal sequences have equal objects. *)
From S2P Require Import Prelude BitUtils Utf JavaString JavaStringFacts.

(** ** Constructors *)

Lemma units_slice u i n : Forall (in_u 16) u -> Forall (in_u 16) (take n (drop i u)).
Proof. intros. by apply Forall_take, Forall_drop. Qed.

Lemma array_from_spec l i n :
  0 <= i -> 0 <= n -> i + n <= Z.of_nat (length l) ->
  array_from l i n = Some (take (Z.to_nat n) (drop (Z.to_nat i) l)).
Proof.
  intros. unfold array_from. rewrite !(proj2 (Z.leb_le _ _)) by lia. done.
Qed.

Lemma AllASCII_slice u i n : AllASCII u = true -> AllASCII (take n (drop i u)) = true.
Proof.
  intros H. rewrite <- (firstn_skipn i u), AllASCII_app in H. apply andb_true_iff in H as [_ H].
  rewrite <- (firstn_skipn n (drop i u)), AllASCII_app in H. by apply andb_true_iff in H as [H _].
Qed.

Lemma slice_length (u : list Z) i n : (i + n <= length u)%nat -> length (take n (drop i u)) = n.
Proof. intros. rewrite length_take, length_drop. lia. Qed.

Section Constructors.
Variables (w : Z) (addr : option Z).
Hypothesis Hw : size_bits w.

Lemma AllocFromUtf16_spec u rest :
  units u -> AllocFromUtf16 w addr (Z.of_nat (length u)) (u ++ rest) = build w addr u.
Proof.
  intros Hu. unfold AllocFromUtf16. rewrite array_from_spec by (rewrite ?length_app; lia).
  rewrite Nat2Z.id, drop_0, take_app_length. cbn [mbind option_bind]. by apply alloc_units.
Qed.

Lemma AllocFromCharArray_spec array i n :
  Forall (in_u 16) array -> (i + n <= length array)%nat -> Z.of_nat n < 2 ^ 31 ->
  AllocFromCharArray w addr (Z.of_nat n) array (Z.of_nat i) = build w addr (take n (drop i array)).
Proof.
  intros Ha Hl Hn. unfold AllocFromCharArray. rewrite array_from_spec, !Nat2Z.id by lia.
  cbn [mbind option_bind]. cbv zeta. rewrite flagged_compressed by lia.
  rewrite <- (slice_length array i n Hl) at 1. apply alloc_units; [done| |done].
  split; [by apply units_slice|]. rewrite slice_length by done. lia.
Qed.

Lemma low_byte b : in_u 8 b -> b &&& 0xff = b.
Proof. intros. change 0xff with (2 ^ 8 - 1). rewrite land_ones_mod by lia. by apply Z.mod_small. Qed.

(** Bytes under a high byte. *)
Definition widen (high_byte : Z) (l : list Z) : list Z := (fun b => (high_byte &&& 0xff) * 2 ^ 8 + b) <$> l.

Lemma widen_length high_byte l : length (widen high_byte l) = length l.
Proof. apply length_fmap. Qed.

Lemma widen_units high_byte l : Forall (in_u 8) l -> Forall (in_u 16) (widen high_byte l).
Proof.
  intros Hl. apply Forall_fmap. eapply List.Forall_impl; [|done]. intros b Hb. simpl.
  change 0xff with (2 ^ 8 - 1). rewrite land_ones_mod by lia. unfold in_u in *.
  pose proof (Z.mod_pos_bound high_byte (2 ^ 8)). lia.
Qed.

Lemma widen_ascii high_byte l :
  Forall (in_u 8) l -> AllASCII l && (high_byte &&& 0xff =? 0) = AllASCII (widen high_byte l) \/ l = [].
Proof.
  intros Hl. change 0xff with (2 ^ 8 - 1) at 1. rewrite land_ones_mod by lia. unfold widen.
  change 0xff with (2 ^ 8 - 1). rewrite land_ones_mod by lia.
  pose proof (Z.mod_pos_bound high_byte (2 ^ 8)) as Hh.
  destruct (high_byte mod 2 ^ 8 =? 0) eqn:E; bools.
  - left. rewrite E, andb_true_r. f_equal. clear. induction l as [|b l IH]; [done|].
    rewrite fmap_cons, <- IH. f_equal.
  - destruct Hl as [|b l Hb Hl]; [by right|]. left. rewrite andb_false_r. cbn [fmap list_fmap AllASCII].
    destruct (IsASCII _) eqn:Ea; [|done]. apply IsASCII_spec in Ea; unfold in_u in *; lia.
Qed.

Lemma AllocFromByteArray_spec array i n high_byte :
  Forall (in_u 8) array -> (i + n <= length array)%nat -> 0 < Z.of_nat n < 2 ^ 31 ->
  AllocFromByteArray w addr (Z.of_nat n) array (Z.of_nat i) high_byte =
  build w addr (widen high_byte (take n (drop i array))).
Proof.
  intros Ha Hl Hn. unfold AllocFromByteArray. rewrite array_from_spec, !Nat2Z.id by lia.
  cbn [mbind option_bind]. cbv zeta. set (src := take n (drop i array)).
  assert (Forall (in_u 8) src) as Hs by (by apply Forall_take, Forall_drop).
  assert (length src = n) as Hsl by (by apply slice_length).
  destruct (widen_ascii high_byte src Hs) as [E|E]; [|rewrite E in Hsl; simpl in Hsl; lia]. rewrite E.
  assert ((fun b => b &&& 0xff) <$> src = src) as ->.
  { clear -Hs. induction Hs as [|b l Hb _ IH]; [done|]. rewrite fmap_cons, IH. by rewrite low_byte. }
  assert ((fun b => ((high_byte &&& 0xff) << 8) + (b &&& 0xff)) <$> src = widen high_byte src) as ->.
  { clear -Hs. induction Hs as [|b l Hb _ IH]; [done|]. unfold widen in *. rewrite !fmap_cons, IH.
    by rewrite (low_byte b), Z.shiftl_mul_pow2 by (done || lia). }
  rewrite <- (alloc_units w addr (widen high_byte src) (AllASCII (widen high_byte src)) Hw); [|split|done].
  - rewrite widen_length, Hsl. destruct (Alloc _ _ _) as [s|] eqn:Es; [|done]. simpl.
    unfold IsCompressed. rewrite (Alloc_count _ _ _ _ Es), flagged_compressed by lia.
    destruct (AllASCII (widen high_byte src)) eqn:Ea; [|done].
    f_equal. apply andb_true_iff in E as [_ E]. bools. unfold widen. rewrite E. simpl.
    clear. by induction src as [|b l IH]; [|rewrite fmap_cons, <- IH].
  - by apply widen_units.
  - rewrite widen_length. lia.
Qed.

Lemma AllocFromString_spec a u i n :
  units u -> (i + n <= length u)%nat ->
  AllocFromString w addr (Z.of_nat n) (string_of a u) (Z.of_nat i) = build w addr (take n (drop i u)).
Proof.
  intros Hu Hl. unfold AllocFromString. rewrite !Nat2Z.id, string_compressed by done.
  pose proof (slice_length u i n Hl) as Hsl. destruct Hu as [Hu Hn].
  assert (units (take n (drop i u))) as Hs by (split; [by apply units_slice|lia]).
  destruct (AllASCII u) eqn:Ea; simpl.
  - rewrite bytes_from_string by done. rewrite <- alloc_put by (done || apply Hs).
    rewrite AllASCII_slice by done. unfold encode. rewrite AllASCII_slice by done. by rewrite Hsl.
  - rewrite chars_from_string by done. simpl. rewrite flagged_compressed by lia.
    rewrite <- Hsl at 1. by apply alloc_units.
Qed.

(** *** Modified UTF-8 *)

Lemma ascii_count u :
  Forall (in_u 16) u -> (Z.of_nat (length u) =? CountUtf8Bytes u) = AllASCII u.
Proof.
  intros Hu. apply eq_true_iff_eq. rewrite Z.eqb_eq, AllASCII_spec by done. split.
  - intros E. rewrite <- utf8_loop_length in E by done. destruct (utf8_loop_ascii u Hu) as [_ H].
    apply H. lia.
  - clear Hu. induction 1 as [|c u Hc _ IH]; [done|]. cbn [CountUtf8Bytes length].
    rewrite (proj2 (Z.eqb_neq c 0)), (proj2 (Z.ltb_lt c 0x80)) by lia. simpl. lia.
Qed.

Lemma AllocFromModifiedUtf8_counted_spec u tl :
  units u ->
  AllocFromModifiedUtf8_counted w addr (Z.of_nat (length u)) (to_modified_utf8 u ++ tl) (CountUtf8Bytes u) =
  build w addr u.
Proof.
  intros Hu. pose proof Hu as [Hu' Hn]. unfold AllocFromModifiedUtf8_counted. cbv zeta.
  rewrite ascii_count, to_modified_utf8_loop, <- alloc_put by done. unfold encode.
  pose proof (utf8_loop_length u Hu') as Hl. pose proof (ascii_count u Hu') as Ha.
  destruct (AllASCII u); bools.
  - destruct (utf8_loop_ascii u Hu') as [_ H]. destruct H as [-> _]; [lia|].
    rewrite array_from_spec by (rewrite ?length_app; lia). by rewrite Nat2Z.id, drop_0, take_app_length.
  - rewrite ConvertModifiedUtf8ToUtf16_prefix by done. cbn [mbind option_bind]. unfold put_chars.
    by rewrite u16_id.
Qed.

Lemma strlen_spec p tl : Forall (fun b => 0 < b < 256) p -> strlen (p ++ 0 :: tl) = Some (Z.of_nat (length p)).
Proof.
  induction 1 as [|b p Hb _ IH]; [done|]. simpl. rewrite (proj2 (Z.eqb_neq b 0)), IH by lia. simpl. f_equal. lia.
Qed.

Lemma strlen_utf8 u tl : Forall (in_u 16) u -> strlen (to_modified_utf8 u ++ 0 :: tl) = Some (CountUtf8Bytes u).
Proof.
  intros Hu. rewrite to_modified_utf8_loop, strlen_spec, utf8_loop_length by (done || by apply utf8_loop_bytes).
  done.
Qed.

Lemma count_bytes_nonneg u : Forall (in_u 16) u -> 0 <= CountUtf8Bytes u.
Proof. intros Hu. rewrite <- utf8_loop_length by done. lia. Qed.

Lemma AllocFromModifiedUtf8_length_spec u tl :
  units u -> CountUtf8Bytes u < 2 ^ 31 ->
  AllocFromModifiedUtf8_length w addr (Z.of_nat (length u)) (to_modified_utf8 u ++ 0 :: tl) = build w addr u.
Proof.
  intros Hu Hc. unfold AllocFromModifiedUtf8_length. pose proof (count_bytes_nonneg u (proj1 Hu)).
  rewrite strlen_utf8 by apply Hu. cbn [mbind option_bind].
  rewrite wrap_s_id by (lia || (unfold in_s; lia)). by apply AllocFromModifiedUtf8_counted_spec.
Qed.

Lemma AllocFromModifiedUtf8_spec u tl :
  units u -> CountUtf8Bytes u < 2 ^ 31 ->
  AllocFromModifiedUtf8 w addr (to_modified_utf8 u ++ 0 :: tl) = build w addr u.
Proof.
  intros Hu Hc. unfold AllocFromModifiedUtf8. pose proof (count_bytes_nonneg u (proj1 Hu)). pose proof Hu as [Hu' Hn].
  rewrite strlen_utf8 by done. cbn [mbind option_bind].
  rewrite to_modified_utf8_loop, CountModifiedUtf8Chars_prefix by done. cbn [mbind option_bind].
  rewrite !wrap_s_id by (lia || (unfold in_s; lia)). rewrite <- to_modified_utf8_loop by done.
  by apply AllocFromModifiedUtf8_counted_spec.
Qed.

(** *** From other strings *)

Lemma put_second a c l1 l2 l3 k :
  k = length l1 -> (length l2 <= length l3)%nat ->
  put k l2 (mkString a c (l1 ++ l3)) = Some (mkString a c (l1 ++ l2 ++ drop (length l2) l3)).
Proof.
  intros -> H. unfold put. simpl value_. rewrite length_app, (proj2 (Nat.leb_le _ _)) by lia.
  by rewrite take_app_length, drop_app_add.
Qed.

(** Two pieces written one after the other. *)
Lemma put_pieces w' a c l1 l2 k :
  k = length l1 -> w' = padded (l1 ++ l2) ->
  (s ← put 0 l1 (mkString a c (replicate (length w') 0)); put k l2 s) = Some (mkString a c w').
Proof.
  intros -> ->.
  assert (length (padded (l1 ++ l2)) = length l1 + length l2 + padding (length (l1 ++ l2)))%nat as ->
    by (unfold padded; rewrite !length_app, length_replicate; lia).
  unfold put at 2. simpl value_. rewrite length_replicate, (proj2 (Nat.leb_le _ _)) by lia. cbn [mbind option_bind].
  rewrite take_0, app_nil_l, drop_replicate. cbn [address count_].
  rewrite put_second by (rewrite ?length_replicate; lia || done).
  rewrite drop_replicate. unfold padded. rewrite <- app_assoc. do 5 f_equal. lia.
Qed.

Lemma AllocFromStrings_spec a b u v :
  units u -> units v -> Z.of_nat (length u) + Z.of_nat (length v) < 2 ^ 31 ->
  AllocFromStrings w addr (string_of a u) (string_of b v) = build w addr (u ++ v).
Proof.
  intros Hu Hv Hn. unfold AllocFromStrings. cbv zeta. rewrite !string_length, !string_compressed by done.
  rewrite <- AllASCII_app, wrap_s_id by (lia || (unfold in_s; lia)).
  rewrite <- Nat2Z.inj_add, <- length_app, Alloc_spec by (done || (rewrite length_app; lia)).
  rewrite !values_string by done. unfold build, encode. rewrite !Nat2Z.id.
  destruct (_ <? _); [done|]. destruct addr as [a'|]; [|done]. cbn [mbind option_bind].
  destruct (AllASCII (u ++ v)) eqn:Ea.
  - rewrite AllASCII_app in Ea. apply andb_true_iff in Ea as [Ea Eb].
    rewrite !bytes_from_string by (done || lia). cbn [mbind option_bind].
    rewrite !drop_0, !firstn_all, (put_pieces (padded (u ++ v))) by done.
    unfold string_of, encode. by rewrite AllASCII_app, Ea, Eb.
  - rewrite le16s_app, put_pieces by (done || by rewrite le16s_length).
    unfold string_of, encode. by rewrite Ea, le16s_app.
Qed.

(** *** Replacement *)

Definition replace_unit (old_c new_c : Z) (u : list Z) : list Z :=
  (fun c => if negb (old_c =? c) then c else new_c) <$> u.

Lemma AllASCIIExcept_spec u c : AllASCIIExcept u c = true <-> forall x, x ∈ u -> IsASCII x = true \/ x = c.
Proof.
  induction u as [|y u IH]; cbn [AllASCIIExcept].
  { split; [intros _ x Hx; by apply elem_of_nil in Hx|done]. }
  destruct (IsASCII y) eqn:E; simpl; [|destruct (y =? c) eqn:Ec; bools; simpl]; rewrite ?IH;
    (split; [try done; intros H x Hx; apply elem_of_cons in Hx as [->|Hx]; auto|]).
  - intros H x Hx. apply H. by right.
  - intros H x Hx. apply H. by right.
  - intros H. destruct (H y) as [?|?]; [by left|congruence|done].
Qed.

Lemma AllASCII_elem u : AllASCII u = true <-> forall x, x ∈ u -> IsASCII x = true.
Proof.
  induction u as [|y u IH]; cbn [AllASCII].
  { split; [intros _ x Hx; by apply elem_of_nil in Hx|done]. }
  destruct (IsASCII y) eqn:E; simpl; rewrite ?IH; split; try done.
  - intros H x Hx. apply elem_of_cons in Hx as [->|Hx]; auto.
  - intros H x Hx. apply H. by right.
  - intros H. rewrite <- E. apply H. by left.
Qed.

Lemma replace_compressible u old_c new_c :
  old_c ∈ u ->
  IsASCII new_c && (AllASCII u || (negb (IsASCII old_c) && AllASCIIExcept u old_c)) =
  AllASCII (replace_unit old_c new_c u).
Proof.
  intros Hin. apply eq_true_iff_eq. rewrite andb_true_iff, orb_true_iff, andb_true_iff, negb_true_iff.
  rewrite AllASCIIExcept_spec, !AllASCII_elem. unfold replace_unit. setoid_rewrite list_elem_of_fmap. split.
  - intros [Hn H] x (y & -> & Hy). destruct (old_c =? y) eqn:E; bools; simpl; [done|].
    destruct H as [H|[_ H]]; [by apply H|]. destruct (H y Hy) as [?| ->]; done.
  - intros H. split.
    + apply H. exists old_c. by rewrite Z.eqb_refl.
    + destruct (IsASCII old_c) eqn:Eo; [left|right]; [|split; [done|]].
      * intros x Hx. destruct (Z.eq_dec old_c x) as [<-|Hne]; [done|].
        apply H. exists x. by rewrite (proj2 (Z.eqb_neq _ _) Hne).
      * intros x Hx. destruct (Z.eq_dec old_c x) as [<-|Hne]; [by right|left].
        apply H. exists x. by rewrite (proj2 (Z.eqb_neq _ _) Hne).
Qed.

Lemma DoReplace_spec a u old_c new_c :
  units u -> in_u 16 new_c -> old_c ∈ u ->
  DoReplace w addr (string_of a u) old_c new_c = build w addr (replace_unit old_c new_c u).
Proof.
  intros Hu Hn Hin. unfold DoReplace. rewrite string_length, string_compressed, values_string by done.
  cbn [mbind option_bind]. cbv zeta. rewrite replace_compressible by done.
  fold (replace_unit old_c new_c u).
  replace (length u) with (length (replace_unit old_c new_c u)) by apply length_fmap.
  apply alloc_units; [done| |done]. destruct Hu as [Hu Hl]. split.
  - unfold replace_unit. apply Forall_fmap. eapply List.Forall_impl; [|done]. intros c Hc. simpl. by case_if.
  - unfold replace_unit. rewrite length_fmap. lia.
Qed.

End Constructors.

(** ** Observers *)

Section Observers.
Context (a b : Z) (u v : list Z) (Hu : units u) (Hv : units v).

(** *** Equality *)

Lemma Equals_loop_spec num i :
  length u = length v -> (i + num = length u)%nat ->
  Equals_loop num (Z.of_nat i) (string_of a u) (string_of b v) = Some (bool_decide (drop i u = drop i v)).
Proof.
  intros Hl. revert i. induction num as [|num IH]; intros i Hi; cbn [Equals_loop].
  { rewrite !drop_ge by lia. done. }
  rewrite !CharAt_string, !(proj2 (Z.leb_le 0 (Z.of_nat i))), !Nat2Z.id by (done || lia).
  destruct (lookup_lt_is_Some_2 u i) as [x Hx]; [lia|]. destruct (lookup_lt_is_Some_2 v i) as [y Hy]; [lia|].
  rewrite Hx, Hy, (drop_S u x i Hx), (drop_S v y i Hy). cbn [mbind option_bind].
  replace (Z.of_nat i + 1) with (Z.of_nat (S i)) by lia.
  destruct (x =? y) eqn:E; bools; simpl.
  - subst. rewrite IH by lia. f_equal. apply bool_decide_ext. split; [by intros ->|by intros [= ->]].
  - f_equal. symmetry. apply bool_decide_eq_false. congruence.
Qed.

Lemma Equals_spec :
  (a = b -> u = v) -> Equals (string_of a u) (Some (string_of b v)) = Some (bool_decide (u = v)).
Proof.
  intros Hab. unfold Equals. simpl address. destruct (a =? b) eqn:E; bools.
  { by rewrite bool_decide_eq_true_2 by auto. }
  rewrite !string_length by done. destruct (Z.of_nat (length u) =? Z.of_nat (length v)) eqn:El; bools; simpl.
  - rewrite Nat2Z.id. apply (Equals_loop_spec (length v) 0); lia.
  - f_equal. symmetry. apply bool_decide_eq_false. congruence.
Qed.

Lemma padded_length l : Z.of_nat (length (padded l)) = 8 * ((Z.of_nat (length l) + 7) / 8).
Proof. unfold padded, padding. rewrite length_app, length_replicate. zdiv. Qed.

Lemma le16s_inj l m : le16s l = le16s m -> l = m.
Proof.
  revert m. induction l as [|x l IH]; intros [|y m]; simpl; try done. intros [= E1 E2 E3].
  f_equal; [|auto]. rewrite (Z.div_mod x (2 ^ 8)), (Z.div_mod y (2 ^ 8)) by lia.
  change (2 ^ 8) with 256 in *. lia.
Qed.

Lemma words_compressed n : 0 <= n < 2 ^ 31 -> u32 ((u32 (((2 * n + 0) >> 1) + 1) >> 1) + 3) >> 2 = (n + 7) / 8.
Proof.
  intros Hn. rewrite Z.add_0_r, !Z.shiftr_div_pow2 by lia. change (2 ^ 1) with 2. change (2 ^ 2) with 4.
  replace (2 * n / 2) with n by zdiv. rewrite (wrap_u_id 32 (n + 1)) by (unfold in_u; lia).
  rewrite wrap_u_id by (unfold in_u; zdiv). zdiv.
Qed.

Lemma words_uncompressed n : 0 <= n < 2 ^ 31 -> u32 (((2 * n + 1) >> 1) + 3) >> 2 = (2 * n + 7) / 8.
Proof.
  intros Hn. rewrite !Z.shiftr_div_pow2 by lia. change (2 ^ 1) with 2. change (2 ^ 2) with 4.
  replace ((2 * n + 1) / 2) with n by zdiv. rewrite wrap_u_id by (unfold in_u; lia). zdiv.
Qed.

(** The words of the intrinsic cover the value and its padding. *)
Lemma value_words_string u' a' (Hu' : units u') :
  let rcx := u32 (count_ (string_of a' u')) in
  let rcx' := if negb ((rcx &&& 1) =? 0) then rcx >> 1 else u32 ((rcx >> 1) + 1) >> 1 in
  value_words (string_of a' u') (u32 (rcx' + 3) >> 2) = Some (padded (encode u')).
Proof.
  destruct Hu' as [_ Hn]. cbv zeta. unfold value_words. simpl value_. simpl count_.
  rewrite flagged_u32 by lia. set (n := Z.of_nat (length u')) in *. assert (0 <= n) by lia.
  pose proof (encode_length u') as He. fold n in He. unfold block_size in He.
  pose proof (padded_length (encode u')) as Hp.
  pose proof (land_ones_mod (2 * n + if AllASCII u' then 0 else 1) 1 ltac:(lia)) as E.
  change (2 ^ 1 - 1) with 1 in E. rewrite E.
  replace (Z.to_nat _) with (length (padded (encode u'))).
  - rewrite (proj2 (Nat.leb_le _ _)) by lia. by rewrite firstn_all.
  - destruct (AllASCII u').
    + replace ((2 * n + 0) mod 2 ^ 1) with 0 by zdiv. change (negb (0 =? 0)) with false. cbv iota. rewrite words_compressed by lia. zdiv.
    + replace ((2 * n + 1) mod 2 ^ 1) with 1 by zdiv. change (negb (1 =? 0)) with true. cbv iota. rewrite words_uncompressed by lia. zdiv.
Qed.

Lemma intrinsic_Equals_spec :
  (a = b -> u = v) -> intrinsic_Equals (string_of a u) (Some (string_of b v)) = Some (bool_decide (u = v)).
Proof.
  intros Hab. unfold intrinsic_Equals. cbv zeta. simpl address. destruct (a =? b) eqn:E; bools.
  { by rewrite bool_decide_eq_true_2 by auto. }
  pose proof (value_words_string u a Hu) as Wu. pose proof (value_words_string v b Hv) as Wv. cbv zeta in *.
  assert (u32 (count_ (string_of a u)) = 2 * Z.of_nat (length u) + (if AllASCII u then 0 else 1)) as Cu
    by (apply flagged_u32; destruct Hu; lia).
  assert (u32 (count_ (string_of b v)) = 2 * Z.of_nat (length v) + (if AllASCII v then 0 else 1)) as Cv
    by (apply flagged_u32; destruct Hv; lia).
  destruct (u32 (count_ (string_of a u)) =? _) eqn:Ec; bools; [change (negb true) with false|change (negb false) with true];
    cbv iota.
  - rewrite <- Ec in Wv. rewrite Wu, Wv. clear Wu Wv. rewrite Cu, Cv in Ec.
    assert (length u = length v /\ AllASCII u = AllASCII v) as [El Ea]
      by (destruct (AllASCII u), (AllASCII v); split; (done || lia)).
    destruct (_ =? 0) eqn:E0; bools; simpl; f_equal.
    + rewrite Cu in E0. symmetry. apply bool_decide_eq_true.
      rewrite (nil_length_inv u), (nil_length_inv v) by (destruct (AllASCII u); lia). done.
    + apply bool_decide_ext. split; [|by intros ->]. unfold padded, encode. rewrite <- Ea.
      intros H. apply app_inj_1 in H as [H _]; [|by destruct (AllASCII u); rewrite ?le16s_length, El].
      destruct (AllASCII u); [done|by apply le16s_inj].
  - f_equal. symmetry. apply bool_decide_eq_false. intros ->. lia.
Qed.

(** *** Order *)

(** [String.compareTo]. *)
Fixpoint java_compare (s t : list Z) : Z :=
  match s, t with
  | x :: s, y :: t => if x =? y then java_compare s t else x - y
  | _, _ => Z.of_nat (length s) - Z.of_nat (length t)
  end.

Lemma first_char_diff_swap s t : first_char_diff t s = - first_char_diff s t.
Proof.
  revert t. induction s as [|x s IH]; intros [|y t]; simpl; try done.
  destruct (x - y =? 0) eqn:E, (y - x =? 0) eqn:E'; bools; simpl; try lia. apply IH.
Qed.

Lemma java_compare_diff s t :
  let m := Nat.min (length s) (length t) in
  let d := first_char_diff (take m s) (take m t) in
  (if negb (d =? 0) then d else Z.of_nat (length s) - Z.of_nat (length t)) = java_compare s t.
Proof.
  cbv zeta. revert t. induction s as [|x s IH]; intros [|y t]; simpl; try lia.
  destruct (x - y =? 0) eqn:E; bools; simpl.
  - rewrite (proj2 (Z.eqb_eq x y)), <- IH by lia. destruct (first_char_diff _ _ =? 0); simpl; lia.
  - rewrite (proj2 (Z.eqb_neq x y)), (proj2 (Z.eqb_neq _ _) E) by lia. done.
Qed.

Lemma CompareTo_spec :
  (a = b -> u = v) -> CompareTo (string_of a u) (string_of b v) = Some (java_compare u v).
Proof.
  intros Hab. unfold CompareTo. cbv zeta. simpl address. destruct (a =? b) eqn:E; bools.
  { rewrite <- Hab by done. f_equal. clear. induction u as [|x s IH]; simpl; [done|]. by rewrite Z.eqb_refl. }
  rewrite !string_length, !string_compressed, wrap_s_id by
    (done || lia || (destruct Hu, Hv; unfold in_s; lia)).
  rewrite <- java_compare_diff. cbv zeta.
  replace (Z.to_nat _) with (Nat.min (length u) (length v))
    by (destruct (_ <? 0) eqn:E0; bools; lia).
  destruct (AllASCII u) eqn:Eu, (AllASCII v) eqn:Ev; cbn [andb orb];
    rewrite ?bytes_from_string, ?chars_from_string by (done || lia); cbn [mbind option_bind];
    rewrite ?bytes_from_string, ?chars_from_string by (done || lia); cbn [mbind option_bind];
    rewrite !drop_0; try done.
  rewrite first_char_diff_swap. f_equal.
  destruct (first_char_diff _ _ =? 0) eqn:Ed; bools.
  - rewrite Ed. done.
  - rewrite (proj2 (Z.eqb_neq (- _) 0)) by lia. simpl. lia.
Qed.

(** *** Other readers *)

Lemma ComputeHashCode_spec : ComputeHashCode (string_of a u) = Some (ComputeUtf16Hash u).
Proof. unfold ComputeHashCode. by rewrite values_string. Qed.

(** The field [hash_code_] is zero or the hash. *)
Definition hash_cached (cached hash : Z) : Prop := cached = 0 \/ cached = u32 hash.

Lemma GetHashCode_spec cached :
  hash_cached cached (ComputeUtf16Hash u) ->
  exists cached', GetHashCode cached (string_of a u) = Some (ComputeUtf16Hash u, cached') /\
    hash_cached cached' (ComputeUtf16Hash u).
Proof.
  intros Hc. unfold GetHashCode. cbv zeta. destruct (s32 cached =? 0) eqn:E; bools.
  - rewrite ComputeHashCode_spec. eexists. split; [done|by right].
  - destruct Hc as [->|Hc]; [done|]. exists cached. split; [|by right]. rewrite Hc. do 2 f_equal.
    rewrite wrap_s_wrap_u by lia. apply wrap_s_id; [lia|]. apply wrap_s_range. lia.
Qed.

Lemma ToModifiedUtf8_spec : ToModifiedUtf8 (string_of a u) = Some (to_modified_utf8 u).
Proof.
  unfold ToModifiedUtf8, GetUtfLength. rewrite string_compressed, values_string by done.
  destruct Hu as [Hu' Hn]. pose proof (ascii_count u Hu') as Hc.
  destruct (AllASCII u) eqn:E; cbn [mbind option_bind]; [|done]. bools. f_equal.
  unfold to_modified_utf8, ConvertUtf16ToModifiedUtf8. rewrite Hc, Z.eqb_refl.
  by rewrite u8_id by by apply AllASCII_bytes.
Qed.

(** The first occurrence from a position on. *)
Definition index_of (s : list Z) (ch p r : Z) : Prop :=
  (r = -1 /\ forall i, p <= i -> s !! Z.to_nat i <> Some ch) \/
  (p <= r /\ s !! Z.to_nat r = Some ch /\ forall i, p <= i < r -> s !! Z.to_nat i <> Some ch).

Lemma FastIndexOf_loop_spec s ch p :
  0 <= p -> index_of s ch p (FastIndexOf_loop (drop (Z.to_nat p) s) ch p).
Proof.
  intros Hp. remember (drop (Z.to_nat p) s) as l eqn:El. revert p Hp El.
  induction l as [|c l IH]; intros p Hp El; cbn [FastIndexOf_loop].
  { left. split; [done|]. intros i Hi Hs. apply lookup_lt_Some in Hs.
    assert (length (drop (Z.to_nat p) s) = 0%nat) as E by (by rewrite <- El). rewrite length_drop in E. lia. }
  assert (s !! Z.to_nat p = Some c) as Hc.
  { pose proof (lookup_drop s (Z.to_nat p) 0) as H. rewrite <- El, Nat.add_0_r in H. done. }
  destruct (c =? ch) eqn:E; bools.
  { right. subst. split_and!; [lia|done|]. intros. lia. }
  assert (l = drop (Z.to_nat (p + 1)) s) as El'.
  { replace (Z.to_nat (p + 1)) with (S (Z.to_nat p)) by lia. rewrite (drop_S s c) in El by done. congruence. }
  destruct (IH (p + 1)) as [[-> Hno]|(Hr & Hs & Hno)]; [lia|done| |].
  - left. split; [done|]. intros i Hi. destruct (Z.eq_dec i p) as [->|]; [congruence|apply Hno; lia].
  - right. split_and!; [lia|done|]. intros i Hi. destruct (Z.eq_dec i p) as [->|]; [congruence|apply Hno; lia].
Qed.

Lemma FastIndexOf_spec ch start :
  exists r, FastIndexOf (string_of a u) ch start = Some r /\ index_of u ch (Z.max 0 start) r.
Proof.
  unfold FastIndexOf. rewrite string_length by done. cbv zeta.
  set (p := if start <? 0 then 0 else _). set (n := Z.of_nat (length u)) in *.
  assert (0 <= p <= n /\ (p = Z.max 0 start \/ (p = n /\ n < start))) as [Hp Hps].
  { subst p. destruct (start <? 0) eqn:E; [|destruct (n <? start) eqn:E']; bools; lia. }
  rewrite values_from_string by (done || lia). cbn [mbind option_bind]. eexists. split; [done|].
  rewrite take_ge by (rewrite length_drop; lia).
  pose proof (FastIndexOf_loop_spec u ch p ltac:(lia)) as H. destruct Hps as [<-|[-> Hlt]]; [done|].
  rewrite (drop_ge u) in * by lia. left. split; [done|]. intros i Hi Hs. apply lookup_lt_Some in Hs. lia.
Qed.

Lemma GetChars_spec start end_ array index :
  0 <= start <= end_ -> end_ <= Z.of_nat (length u) -> 0 <= index ->
  index + (end_ - start) <= Z.of_nat (length array) ->
  GetChars (string_of a u) start end_ array index =
  Some (take (Z.to_nat index) array ++ take (Z.to_nat (end_ - start)) (drop (Z.to_nat start) u) ++
        drop (Z.to_nat (index + (end_ - start))) array).
Proof.
  intros Hs He Hi Ha. unfold GetChars. rewrite values_from_string by (done || lia). cbn [mbind option_bind].
  rewrite length_take, length_drop, (proj2 (Nat.leb_le _ _)) by lia. do 4 f_equal. lia.
Qed.

(** *** Comparison with modified UTF-8 *)

(** The value of [Equals_utf8] on the rest of the string. *)
Definition same_nonzero (t s : list Z) : bool := bool_decide (t = s) && bool_decide (0 ∉ s).

Lemma same_nonzero_cons x y t s : x = y -> y <> 0 -> same_nonzero (x :: t) (y :: s) = same_nonzero t s.
Proof.
  intros -> Hy. unfold same_nonzero. f_equal; apply bool_decide_ext.
  - split; [by intros [= ->]|by intros ->].
  - rewrite not_elem_of_cons. split; [tauto|]. intros. split; congruence.
Qed.

Lemma same_nonzero_ne t s : t <> s -> same_nonzero t s = false.
Proof. intros. unfold same_nonzero. by rewrite bool_decide_eq_false_2. Qed.

Lemma same_nonzero_zero t s : 0 ∈ s -> same_nonzero t s = false.
Proof. intros. unfold same_nonzero. rewrite andb_comm, bool_decide_eq_false_2; [done|]. by intros []. Qed.

(** The character at an index, and the rest. *)
Lemma CharAt_drop i :
  (i < length u)%nat -> exists x, CharAt (string_of a u) (Z.of_nat i) = Some x /\ drop i u = x :: drop (S i) u.
Proof.
  intros Hi. destruct (lookup_lt_is_Some_2 u i Hi) as [x Hx]. exists x.
  rewrite CharAt_string, (proj2 (Z.leb_le 0 _)), Nat2Z.id by (done || lia). split; [done|by apply drop_S].
Qed.

Lemma GetUtf16FromUtf8_zero tl : GetUtf16FromUtf8 (0 :: tl) = Some (0, tl).
Proof. reflexivity. Qed.

Lemma Equals_utf8_loop_spec s tl :
  Forall (in_u 16) s -> forall i fuel, (i <= length u)%nat -> (length u <= i + fuel)%nat ->
  Equals_utf8_loop fuel (Z.of_nat i) (string_of a u) (utf16_to_utf8_loop s ++ 0 :: tl) =
  Some (same_nonzero (drop i u) s).
Proof.
  revert s. apply (utf16_ind (fun s => forall i fuel, _ -> _ -> _)).
  - intros i fuel Hi Hf. destruct fuel as [|fuel]; cbn [Equals_utf8_loop]; rewrite string_length by done;
      destruct (Z.of_nat i <? Z.of_nat (length u)) eqn:E; bools; try lia;
      try (rewrite drop_ge by lia; done).
    cbn [utf16_to_utf8_loop app]. rewrite GetUtf16FromUtf8_zero. cbn [mbind option_bind]. rewrite Z.eqb_refl.
    destruct (CharAt_drop i) as (x & _ & ->); [lia|]. by rewrite same_nonzero_ne.
  - intros us bs c rest Hr He El _ _ IH i fuel Hi Hf. rewrite El, <- app_assoc. clear El.
    pose proof (packs_nonempty _ _ (enc_packs _ _ _ He)) as Hne.
    destruct (Nat.eq_dec i (length u)) as [->|Hlt].
    { destruct (encodes_head _ _ _ He) as (b0 & p & -> & Eb).
      destruct fuel; cbn [Equals_utf8_loop app]; rewrite string_length, Z.ltb_irrefl by done;
        cbn [read_byte mbind option_bind]; rewrite Eb, drop_all, same_nonzero_ne; try done;
        by destruct us; [simpl in Hne; lia|]. }
    destruct fuel as [|fuel]; [lia|]. cbn [Equals_utf8_loop].
    rewrite string_length, (proj2 (Z.ltb_lt _ _)), (enc_get _ _ _ He) by (done || lia). cbn [mbind option_bind].
    destruct (packs_units _ _ (enc_packs _ _ _ He)) as (_ & E1 & E2). rewrite E1, E2.
    destruct (CharAt_drop i) as (x & -> & ->); [lia|]. cbn [mbind option_bind].
    replace (Z.of_nat i + 1) with (Z.of_nat (S i)) by lia.
    destruct (enc_packs _ _ _ He) as [c Hc|hi lo Hh Hlo]; cbn [app].
    + change (default 0 ([c] !! 0%nat)) with c. change (default 0 ([c] !! 1%nat)) with 0.
      destruct (c =? 0) eqn:E0; bools. { by rewrite same_nonzero_zero by (apply elem_of_cons; by left). }
      destruct (c =? x) eqn:Ex; bools; cbn [negb]; [|by rewrite same_nonzero_ne by congruence].
      rewrite Z.eqb_refl. cbn [negb]. rewrite IH, same_nonzero_cons by (done || lia). done.
    + change (default 0 ([hi; lo] !! 0%nat)) with hi. change (default 0 ([hi; lo] !! 1%nat)) with lo.
      unfold is_high, is_low in *. rewrite (proj2 (Z.eqb_neq (hi + lo * 2 ^ 16) 0)) by lia.
      destruct (hi =? x) eqn:Ex; bools; cbn [negb]; [|by rewrite same_nonzero_ne by congruence].
      rewrite (proj2 (Z.eqb_neq lo 0)) by lia. cbn [negb].
      destruct (Z.of_nat (S i) =? Z.of_nat (length u)) eqn:Ei; bools.
      { rewrite (drop_ge u (S i)), same_nonzero_ne by (lia || done). done. }
      destruct (CharAt_drop (S i)) as (y & -> & ->); [lia|]. cbn [mbind option_bind].
      replace (Z.of_nat (S i) + 1) with (Z.of_nat (S (S i))) by lia.
      destruct (y =? lo) eqn:Ey; bools; cbn [negb]; [|by rewrite same_nonzero_ne by congruence].
      rewrite IH, !same_nonzero_cons by (done || lia). done.
Qed.

Lemma Equals_utf8_spec s tl :
  Forall (in_u 16) s ->
  Equals_utf8 (string_of a u) (to_modified_utf8 s ++ 0 :: tl) = Some (same_nonzero u s).
Proof.
  intros Hs. unfold Equals_utf8. rewrite to_modified_utf8_loop, string_length, Nat2Z.id by done.
  apply (Equals_utf8_loop_spec s tl Hs 0); lia.
Qed.

(** The piece may go on. *)
Lemma Equals_piece_loop_spec s tl :
  Forall (in_u 16) s -> forall i fuel, drop i u = s -> (i <= length u)%nat -> (length u <= i + fuel)%nat ->
  Equals_piece_loop fuel (Z.of_nat i) (string_of a u) (utf16_to_utf8_loop s ++ tl) = Some true.
Proof.
  revert s. apply (utf16_ind (fun s => forall i fuel, _ -> _ -> _ -> _)).
  - intros i fuel Hd Hi _. assert (length (drop i u) = 0%nat) as El by by rewrite Hd. rewrite length_drop in El.
    destruct fuel; cbn [Equals_piece_loop]; rewrite string_length, (proj2 (Z.ltb_ge _ _)) by (done || lia); done.
  - intros us bs c rest Hr He El _ _ IH i fuel Hd Hi Hf. rewrite El, <- app_assoc. clear El.
    pose proof (packs_nonempty _ _ (enc_packs _ _ _ He)) as Hne.
    assert (length (drop i u) = length (us ++ rest)) as Hl by by rewrite Hd. rewrite length_drop, length_app in Hl.
    destruct fuel as [|fuel]; [lia|]. cbn [Equals_piece_loop].
    rewrite string_length, (proj2 (Z.ltb_lt _ _)), (enc_get _ _ _ He) by (done || lia). cbn [mbind option_bind].
    destruct (packs_units _ _ (enc_packs _ _ _ He)) as (_ & E1 & E2). rewrite E1, E2.
    destruct (CharAt_drop i) as (x & -> & Ed); [lia|]. cbn [mbind option_bind]. rewrite Ed in Hd.
    replace (Z.of_nat i + 1) with (Z.of_nat (S i)) by lia.
    destruct (enc_packs _ _ _ He) as [c Hc|hi lo Hh Hlo]; simpl in Hd, Hl; injection Hd as -> Hd.
    + change (default 0 ([c] !! 0%nat)) with c. change (default 0 ([c] !! 1%nat)) with 0.
      rewrite Z.eqb_refl. change (negb (0 =? 0)) with false. cbn [negb]. apply IH; [done|lia|lia].
    + change (default 0 ([hi; lo] !! 0%nat)) with hi. change (default 0 ([hi; lo] !! 1%nat)) with lo.
      unfold is_high, is_low in *. rewrite Z.eqb_refl, (proj2 (Z.eqb_neq lo 0)) by lia. cbn [negb].
      rewrite (proj2 (Z.eqb_neq (Z.of_nat i) _)) by lia.
      destruct (CharAt_drop (S i)) as (y & -> & Ed'); [lia|]. cbn [mbind option_bind].
      rewrite Ed' in Hd. injection Hd as -> Hd. rewrite Z.eqb_refl. cbn [negb].
      replace (Z.of_nat (S i) + 1) with (Z.of_nat (S (S i))) by lia. apply IH; [done|lia|lia].
Qed.

Lemma Equals_piece_spec tl : Equals_piece (string_of a u) (to_modified_utf8 u ++ tl) = Some true.
Proof.
  destruct Hu as [Hu' _]. unfold Equals_piece. rewrite to_modified_utf8_loop, string_length, Nat2Z.id by done.
  apply (Equals_piece_loop_spec u tl Hu' 0); [done|lia|lia].
Qed.

End Observers.

(** ** Properties *)

(** C17. However a string is made, from UTF-16, from an array of characters,
    from at least one byte of an array, from modified UTF-8 with or without its length, as a substring, a
    concatenation or with a character replaced, the object is the one its units
    determine: one byte per character exactly when all are ASCII, the flag and
    the zeroed padding included.  It fails only without memory or beyond the
    length whose size would overflow, and no size wraps and no byte is written
    out of the object. *)
Theorem strings_built_from_units w addr u :
  size_bits w -> units u ->
  (forall rest, AllocFromUtf16 w addr (Z.of_nat (length u)) (u ++ rest) = build w addr u) /\
  (forall i n, (i + n <= length u)%nat ->
     AllocFromCharArray w addr (Z.of_nat n) u (Z.of_nat i) = build w addr (take n (drop i u))) /\
  (forall high_byte bytes i n, Forall (in_u 8) bytes -> (i + n <= length bytes)%nat -> 0 < Z.of_nat n < 2 ^ 31 ->
     AllocFromByteArray w addr (Z.of_nat n) bytes (Z.of_nat i) high_byte =
     build w addr (widen high_byte (take n (drop i bytes)))) /\
  (CountUtf8Bytes u < 2 ^ 31 -> forall tl,
     AllocFromModifiedUtf8 w addr (to_modified_utf8 u ++ 0 :: tl) = build w addr u /\
     AllocFromModifiedUtf8_length w addr (Z.of_nat (length u)) (to_modified_utf8 u ++ 0 :: tl) = build w addr u) /\
  (forall a i n, (i + n <= length u)%nat ->
     AllocFromString w addr (Z.of_nat n) (string_of a u) (Z.of_nat i) = build w addr (take n (drop i u))) /\
  (forall a b v, units v -> Z.of_nat (length u) + Z.of_nat (length v) < 2 ^ 31 ->
     AllocFromStrings w addr (string_of a u) (string_of b v) = build w addr (u ++ v)) /\
  (forall a old_c new_c, in_u 16 new_c -> old_c ∈ u ->
     DoReplace w addr (string_of a u) old_c new_c = build w addr (replace_unit old_c new_c u)).
Proof.
  intros Hw Hu. pose proof Hu as [Hu' Hn]. split_and!; intros.
  - by apply AllocFromUtf16_spec.
  - apply AllocFromCharArray_spec; [done|done|done|lia].
  - by apply AllocFromByteArray_spec.
  - split; [by apply AllocFromModifiedUtf8_spec|by apply AllocFromModifiedUtf8_length_spec].
  - by apply AllocFromString_spec.
  - by apply AllocFromStrings_spec.
  - by apply DoReplace_spec.
Qed.

Lemma strings_built_from_units_witness :
  (forall rest, AllocFromUtf16 64 (Some 8) 2 ([0x41; 0xe9] ++ rest) = build 64 (Some 8) [0x41; 0xe9]) /\
  AllocFromStrings 64 (Some 8) (string_of 16 [0x41; 0xe9]) (string_of 24 [0x42]) =
    Some (mkString 8 7 [0x41; 0; 0xe9; 0; 0x42; 0; 0; 0]).
Proof.
  destruct (strings_built_from_units 64 (Some 8) [0x41; 0xe9]) as (H1 & _ & _ & _ & _ & H2 & _).
  - by right.
  - by split; [repeat constructor; unfold in_u; lia|].
  - split; [exact H1|]. rewrite H2; [vm_compute; reflexivity| |reflexivity].
    by split; [repeat constructor; unfold in_u; lia|].
Defined.



(** Comparison with modified UTF-8: [Equals(const char* )] is equality of the
    units except that it never holds for a string with the character U+0000, not
    even of its own encoding; [Equals(const StringPiece&)] holds for every piece
    that begins with the encoding, whatever follows. *)
Theorem utf8_equality a u :
  units u ->
  (forall s tl, Forall (in_u 16) s ->
     Equals_utf8 (string_of a u) (to_modified_utf8 s ++ 0 :: tl) =
     Some (bool_decide (u = s) && bool_decide (0 ∉ s))) /\
  (forall tl, Equals_piece (string_of a u) (to_modified_utf8 u ++ tl) = Some true).
Proof.
  intros Hu. split; [intros s tl Hs; by apply Equals_utf8_spec|intros tl; by apply Equals_piece_spec].
Qed.

(** "\0" and its encoding; "and" and "android". *)
Lemma utf8_equality_witness :
  Equals_utf8 (string_of 8 [0]) [0xc0; 0x80; 0] = Some false /\
  Equals_piece (string_of 8 [0x61; 0x6e; 0x64]) [0x61; 0x6e; 0x64; 0x72; 0x6f; 0x69; 0x64] = Some true.
Proof.
  split.
  - assert (units [0]) as H by (split; [repeat constructor; unfold in_u; lia|done]).
    apply (proj1 (utf8_equality 8 [0] H) [0] []). apply H.
  - assert (units [0x61; 0x6e; 0x64]) as H by (split; [repeat constructor; unfold in_u; lia|done]).
    apply (proj2 (utf8_equality 8 [0x61; 0x6e; 0x64] H) [0x72; 0x6f; 0x69; 0x64]).
Defined.

(** An empty string made from no bytes under a non-zero high byte is marked as
    uncompressed, so the compiler's comparison finds it different from the empty
    string, which the runtime's finds equal. *)
Theorem empty_string_of_high_byte a a' high_byte :
  a <> a' -> high_byte mod 256 <> 0 ->
  exists s e, AllocFromByteArray 64 (Some a) 0 [] 0 high_byte = Some s /\ AllocEmptyString 64 (Some a') = Some e /\
    GetLength s = 0 /\ Equals s (Some e) = Some true /\ intrinsic_Equals s (Some e) = Some false.
Proof.
  intros Ha Hh. exists (mkString a 1 []), (mkString a' 0 []).
  assert ((high_byte &&& 0xff =? 0) = false) as E.
  { apply Z.eqb_neq. change 0xff with (2 ^ 8 - 1). by rewrite land_ones_mod. }
  unfold AllocFromByteArray. cbn [array_from mbind option_bind]. simpl (array_from _ _ _). cbn [mbind option_bind].
  rewrite E. unfold Equals, intrinsic_Equals. simpl address. rewrite (proj2 (Z.eqb_neq a a')) by done.
  split_and!; vm_compute; reflexivity.
Qed.

Lemma empty_string_of_high_byte_witness :
  exists s e, AllocFromByteArray 64 (Some 8) 0 [] 0 1 = Some s /\ AllocEmptyString 64 (Some 16) = Some e /\
    GetLength s = 0 /\ Equals s (Some e) = Some true /\ intrinsic_Equals s (Some e) = Some false.
Proof. apply (empty_string_of_high_byte 8 16 1); [lia|vm_compute; congruence]. Defined.
