(* ===== verification/InternTable.v ===== *)
(** * Interned strings ([runtime/intern_table.h], [intern_table.cc])

    Two tables of hash sets, one that keeps its strings alive and one that does
    not, and the log by which a transaction of the compiler undoes interning
    ([transaction.cc]).  A root is a string or null.  Operations run under the
    lock of the table, so they are functions of its state; [None] is a failed
    check of the code, and a thread that has to wait for the collector says so.
    [F] is the type of load factors. *)
From S2P Require Import Prelude Utf JavaString HashSet.

(** ** Hashing and equality of roots *)

(** [GcRootEmptyFn] and [StringHashEquals] *)
#[export] Instance root_fns : SetFns (option JString) := {|
  IsEmpty root := match root with None => true | Some _ => false end;
  MakeEmpty := None;
  hashfn root := match root with Some s => u32 (default 0 (ComputeHashCode s)) | None => 0 end
|}.

Definition root_equals (b : JString) (a : option JString) : bool :=
  match a with Some a => default false (Equals a (Some b)) | None => false end.

(** Modified UTF-8 treated as UTF-16. *)
Record Utf8String := mkUtf8 { hash_ : Z; utf16_length_ : Z; utf8_data_ : list Z }.
Definition utf8_hash (key : Utf8String) : Z := u32 (hash_ key).

Definition StringEqualsUtf8 (a_string : JString) (b : Utf8String) : option bool :=
  let a_length := u32 (GetLength a_string) in
  if negb (a_length =? utf16_length_ b) then Some false
  else if IsCompressed a_string then
    b_byte_count ← strlen (utf8_data_ b);
    b_utf8_length ← CountModifiedUtf8Chars (utf8_data_ b) b_byte_count;
    let is_b_regular_ascii := b_byte_count =? b_utf8_length in
    if is_b_regular_ascii then
      b_bytes ← array_from (utf8_data_ b) 0 a_length;
      a_bytes ← bytes_from a_string 0 (Z.to_nat a_length);
      Some (bool_decide (b_bytes = a_bytes))
    else Some false
  else
    a_value ← chars_from a_string 0 (Z.to_nat a_length);
    order ← CompareModifiedUtf8ToUtf16AsCodePointValues (utf8_data_ b) a_value;
    Some (order =? 0).
Definition utf8_equals (b : Utf8String) (a : option JString) : bool :=
  match a with Some a => default false (StringEqualsUtf8 a b) | None => false end.

Section InternTable.
Context {F : Type} {factors : LoadFactors F}.
(** The load factors of a set and those of the runtime's options. *)
Context (kDefaultMinLoadFactor kDefaultMaxLoadFactor hash_table_min_load_factor hash_table_max_load_factor : F).
Notation UnorderedSet := (HashSet (option JString) F).

(** ** [InternTable::Table] *)

Notation Table := (list UnorderedSet).

Definition default_set : UnorderedSet := new_set kDefaultMinLoadFactor kDefaultMaxLoadFactor.

Definition new_table : option Table :=
  set ← SetLoadFactor hash_table_min_load_factor hash_table_max_load_factor default_set;
  Some [set].

Fixpoint find_in (tables_ : Table) (pred : option JString -> bool) (hash : Z) : option (option JString) :=
  match tables_ with
  | [] => Some None
  | table :: tables_ =>
      it ← find_slot table pred hash;
      match it with
      | Some it => ElementForIndex table it
      | None => find_in tables_ pred hash
      end
  end.
Definition Table_Find (tables_ : Table) (s : JString) : option (option JString) :=
  find_in tables_ (root_equals s) (hashfn (Some s)).
Definition Table_FindUtf8 (tables_ : Table) (string : Utf8String) : option (option JString) :=
  find_in tables_ (utf8_equals string) (utf8_hash string).

Definition Table_AddNewTable (tables_ : Table) : Table := tables_ ++ [default_set].

(** [tables_.back().Insert(s)] *)
Fixpoint Table_Insert (tables_ : Table) (s : JString) : option Table :=
  match tables_ with
  | [] => None
  | [table] => table ← Insert (Some s) table; Some [table]
  | table :: tables_ => tables_ ← Table_Insert tables_ s; Some (table :: tables_)
  end.

Fixpoint Table_Remove (tables_ : Table) (s : JString) : option Table :=
  match tables_ with
  | [] => None
  | table :: tables_ =>
      it ← find_slot table (root_equals s) (hashfn (Some s));
      match it with
      | Some it => '(table, _) ← Erase it table; Some (table :: tables_)
      | None => tables_ ← Table_Remove tables_ s; Some (table :: tables_)
      end
  end.

(** Roots are updated in their slots. *)
Fixpoint visit_loop (fuel : nat) (set : UnorderedSet) (visitor : JString -> JString) (it : Z) : option UnorderedSet :=
  if it =? NumBuckets set then Some set
  else
    match fuel with
    | O => None
    | S fuel =>
        intern ← ElementForIndex set it;
        set ← set_slot set it (visitor <$> intern);
        it ← NextNonEmptySlot set it;
        visit_loop fuel set visitor it
    end.
Definition visit_set (set : UnorderedSet) (visitor : JString -> JString) : option UnorderedSet :=
  it ← begin set;
  visit_loop (Z.to_nat (NumBuckets set)) set visitor it.
Definition Table_VisitRoots (tables_ : Table) (visitor : JString -> JString) : option Table :=
  mapM (fun table => visit_set table visitor) tables_.

(** [visitor] is [IsMarked]: the object's address now, or null if it is dead. *)
Fixpoint sweep_loop (fuel : nat) (set : UnorderedSet) (visitor : JString -> option JString) (it end_ : Z) :
    option UnorderedSet :=
  if it =? end_ then Some set
  else
    match fuel with
    | O => None
    | S fuel =>
        root ← ElementForIndex set it;
        object ← root;
        match visitor object with
        | None => '(set, it) ← Erase it set; sweep_loop fuel set visitor it end_
        | Some new_object =>
            set ← set_slot set it (Some new_object);
            it ← NextNonEmptySlot set it;
            sweep_loop fuel set visitor it end_
        end
    end.
Definition sweep_set (set : UnorderedSet) (visitor : JString -> option JString) : option UnorderedSet :=
  it ← begin set;
  sweep_loop (Z.to_nat (Size set + NumBuckets set)) set visitor it (HashSet.end_ set).
Definition Table_SweepWeaks (tables_ : Table) (visitor : JString -> option JString) : option Table :=
  mapM (fun table => sweep_set table visitor) tables_.

(** [std::accumulate] from [0U]. *)
Definition Table_Size (tables_ : Table) : Z := fold_left (fun sum set => u32 (sum + Size set)) tables_ 0.

(** The elements of a set in the order of its iterator. *)
Fixpoint each_loop (fuel : nat) (set : UnorderedSet) (it : Z) : option (list JString) :=
  if it =? NumBuckets set then Some []
  else
    match fuel with
    | O => None
    | S fuel =>
        root ← ElementForIndex set it;
        s ← root;
        it ← NextNonEmptySlot set it;
        strings ← each_loop fuel set it;
        Some (s :: strings)
    end.
Definition each (set : UnorderedSet) : option (list JString) :=
  it ← begin set; each_loop (Z.to_nat (NumBuckets set)) set it.

Section Memory.
Context `{!Stored (option JString), !Stored F}.

(** Duplicates fail a check. *)
Fixpoint check_duplicates (tables_ : Table) (strings : list JString) : option unit :=
  match strings with
  | [] => Some tt
  | s :: strings =>
      found ← Table_Find tables_ s;
      match found with
      | Some _ => None
      | None => check_duplicates tables_ strings
      end
  end.
Definition Table_AddTableFromMemory (tables_ : Table) (ptr : list Z) : option (Table * nat) :=
  '(set, read_count) ← read_set ptr false;
  if Empty set then Some (tables_, read_count)
  else
    strings ← each set;
    _ ← check_duplicates tables_ strings;
    Some (set :: tables_, read_count).

Fixpoint insert_all (strings : list JString) (combined : UnorderedSet) : option UnorderedSet :=
  match strings with
  | [] => Some combined
  | s :: strings => combined ← Insert (Some s) combined; insert_all strings combined
  end.
Fixpoint combine_tables (tables_ : Table) (combined : UnorderedSet) : option UnorderedSet :=
  match tables_ with
  | [] => Some combined
  | table :: tables_ => strings ← each table; combined ← insert_all strings combined; combine_tables tables_ combined
  end.
Definition Table_WriteToMemory (tables_ : Table) (ptr : option (list Z)) : option (option (list Z) * nat) :=
  match tables_ with
  | [] => Some (ptr, 0%nat)
  | [table] => WriteToMemory table ptr
  | _ => combined ← combine_tables tables_ default_set; WriteToMemory combined ptr
  end.

End Memory.

(** ** [InternTable] *)

Inductive WeakRootState :=
| kWeakRootStateNormal | kWeakRootStateNoReadsOrWrites | kWeakRootStateMarkNewRoots.
#[export] Instance WeakRootState_eq_dec : EqDecision WeakRootState.
Proof. solve_decision. Defined.

(** [Transaction::InternStringLog] *)
Inductive StringKind := kStrongString | kWeakString.
Inductive StringOp := kInsert | kRemove.
Record InternStringLog := mkLog { str_ : JString; string_kind_ : StringKind; string_op_ : StringOp }.

(** [transaction_] is the log of the active transaction, if there is one. *)
Record InternTable := mkIntern {
  log_new_roots_ : bool;
  new_strong_intern_roots_ : list JString;
  strong_interns_ : Table;
  weak_interns_ : Table;
  weak_root_state_ : WeakRootState;
  transaction_ : option (list InternStringLog)
}.
Implicit Types it : InternTable.

Definition new_intern_table : option InternTable :=
  strong ← new_table;
  weak ← new_table;
  Some (mkIntern false [] strong weak kWeakRootStateNormal None).

Definition with_strong (t : Table) it : InternTable :=
  mkIntern (log_new_roots_ it) (new_strong_intern_roots_ it) t (weak_interns_ it) (weak_root_state_ it)
    (transaction_ it).
Definition with_weak (t : Table) it : InternTable :=
  mkIntern (log_new_roots_ it) (new_strong_intern_roots_ it) (strong_interns_ it) t (weak_root_state_ it)
    (transaction_ it).
Definition with_roots (log : bool) (roots : list JString) it : InternTable :=
  mkIntern log roots (strong_interns_ it) (weak_interns_ it) (weak_root_state_ it) (transaction_ it).
Definition with_transaction (log : option (list InternStringLog)) it : InternTable :=
  mkIntern (log_new_roots_ it) (new_strong_intern_roots_ it) (strong_interns_ it) (weak_interns_ it)
    (weak_root_state_ it) log.

(** [if (runtime->IsActiveTransaction()) runtime->Record...]: most recent first. *)
Definition LogInternedString (log : InternStringLog) it : InternTable :=
  with_transaction ((fun logs => log :: logs) <$> transaction_ it) it.

Definition StrongSize it : Z := Table_Size (strong_interns_ it).
Definition WeakSize it : Z := Table_Size (weak_interns_ it).
Definition InternTable_Size it : Z := StrongSize it + WeakSize it.

Definition LookupWeak it (s : JString) : option (option JString) := Table_Find (weak_interns_ it) s.
Definition LookupStrong it (s : JString) : option (option JString) := Table_Find (strong_interns_ it) s.
Definition LookupStrongUtf8 it (utf16_length : Z) (utf8_data : list Z) : option (option JString) :=
  hash ← ComputeUtf16HashFromModifiedUtf8 utf8_data utf16_length;
  Table_FindUtf8 (strong_interns_ it) (mkUtf8 hash utf16_length utf8_data).

Definition AddNewTable it : InternTable :=
  with_strong (Table_AddNewTable (strong_interns_ it)) (with_weak (Table_AddNewTable (weak_interns_ it)) it).

Definition InsertStrong it (s : JString) : option (InternTable * JString) :=
  let it := LogInternedString (mkLog s kStrongString kInsert) it in
  let it := if log_new_roots_ it then with_roots true (new_strong_intern_roots_ it ++ [s]) it else it in
  strong ← Table_Insert (strong_interns_ it) s;
  Some (with_strong strong it, s).
Definition InsertWeak it (s : JString) : option (InternTable * JString) :=
  let it := LogInternedString (mkLog s kWeakString kInsert) it in
  weak ← Table_Insert (weak_interns_ it) s;
  Some (with_weak weak it, s).
Definition RemoveStrong it (s : JString) : option InternTable :=
  strong ← Table_Remove (strong_interns_ it) s;
  Some (with_strong strong it).
Definition RemoveWeak it (s : JString) : option InternTable :=
  let it := LogInternedString (mkLog s kWeakString kRemove) it in
  weak ← Table_Remove (weak_interns_ it) s;
  Some (with_weak weak it).

(** ** Interning *)

Inductive InternResult :=
| Interned (it : InternTable) (s : option JString)
| WaitUntilAccessible.

(** What lets a thread read weak roots: [read_barrier] is [kUseReadBarrier], and
    [access] the thread's [GetWeakRefAccessEnabled()]. *)
Definition weak_accessible (read_barrier access : bool) it : bool :=
  (negb read_barrier && negb (bool_decide (weak_root_state_ it = kWeakRootStateNoReadsOrWrites)))
  || (read_barrier && access).
Definition weak_check (read_barrier access : bool) it : bool :=
  if negb read_barrier then bool_decide (weak_root_state_ it = kWeakRootStateNormal) else access.

(** A turn of the loop of [Insert] and what follows it. *)
Definition Intern (read_barrier access : bool) it (s : option JString) (is_strong holding_locks : bool) :
    option InternResult :=
  match s with
  | None => Some (Interned it None)
  | Some s =>
      if holding_locks && negb (weak_check read_barrier access it) then None
      else
        strong ← LookupStrong it s;
        match strong with
        | Some strong => Some (Interned it (Some strong))
        | None =>
            if negb (weak_accessible read_barrier access it) then
              if holding_locks then None else Some WaitUntilAccessible
            else if negb (weak_check read_barrier access it) then None
            else
              weak ← LookupWeak it s;
              match weak with
              | Some weak =>
                  if is_strong then
                    it ← RemoveWeak it weak;
                    '(it, weak) ← InsertStrong it weak;
                    Some (Interned it (Some weak))
                  else Some (Interned it (Some weak))
              | None =>
                  '(it, s) ← (if is_strong then InsertStrong it s else InsertWeak it s);
                  Some (Interned it (Some s))
              end
        end
  end.

Definition InternStrong (read_barrier access : bool) it (s : option JString) : option InternResult :=
  Intern read_barrier access it s true false.
Definition InternWeak (read_barrier access : bool) it (s : option JString) : option InternResult :=
  Intern read_barrier access it s false false.
Definition InternStrongImageString (read_barrier access : bool) it (s : option JString) : option InternResult :=
  Intern read_barrier access it s true true.

(** Allocation is avoided if the string is there; [w] and [addr] as for strings,
    and a string that cannot be allocated is null. *)
Definition InternStrongUtf8_length (read_barrier access : bool) (w : Z) (addr : option Z) it (utf16_length : Z)
    (utf8_data : list Z) : option InternResult :=
  s ← LookupStrongUtf8 it utf16_length utf8_data;
  match s with
  | Some s => Some (Interned it (Some s))
  | None => InternStrong read_barrier access it (AllocFromModifiedUtf8_length w addr utf16_length utf8_data)
  end.
Definition InternStrongUtf8 (read_barrier access : bool) (w : Z) (addr : option Z) it (utf8_data : list Z) :
    option InternResult :=
  InternStrong read_barrier access it (AllocFromModifiedUtf8 w addr utf8_data).

Definition ContainsWeak it (s : JString) : option bool :=
  found ← LookupWeak it s;
  Some (match found with Some r => address r =? address s | None => false end).

(** ** Collections *)

Definition SweepInternTableWeaks it (visitor : JString -> option JString) : option InternTable :=
  weak ← Table_SweepWeaks (weak_interns_ it) visitor;
  Some (with_weak weak it).

Definition kVisitRootFlagAllRoots : Z := 0x1.
Definition kVisitRootFlagNewRoots : Z := 0x2.
Definition kVisitRootFlagStartLoggingNewRoots : Z := 0x4.
Definition kVisitRootFlagStopLoggingNewRoots : Z := 0x8.
Definition kVisitRootFlagClearRootLog : Z := 0x10.

(** A root of the log that moved is removed and inserted again. *)
Fixpoint visit_new_roots (roots : list JString) (visitor : JString -> JString) (strong : Table) :
    option (list JString * Table) :=
  match roots with
  | [] => Some ([], strong)
  | old_ref :: roots =>
      let new_ref := visitor old_ref in
      strong ← (if negb (address new_ref =? address old_ref) then
                  strong ← Table_Remove strong old_ref;
                  Table_Insert strong new_ref
                else Some strong);
      '(roots, strong) ← visit_new_roots roots visitor strong;
      Some (new_ref :: roots, strong)
  end.

Definition VisitRoots it (visitor : JString -> JString) (flags : Z) : option InternTable :=
  it ← (if negb (flags &&& kVisitRootFlagAllRoots =? 0) then
          strong ← Table_VisitRoots (strong_interns_ it) visitor;
          Some (with_strong strong it)
        else if negb (flags &&& kVisitRootFlagNewRoots =? 0) then
          '(roots, strong) ← visit_new_roots (new_strong_intern_roots_ it) visitor (strong_interns_ it);
          Some (with_strong strong (with_roots (log_new_roots_ it) roots it))
        else Some it);
  let it := if negb (flags &&& kVisitRootFlagClearRootLog =? 0) then with_roots (log_new_roots_ it) [] it else it in
  let it := if negb (flags &&& kVisitRootFlagStartLoggingNewRoots =? 0)
            then with_roots true (new_strong_intern_roots_ it) it
            else if negb (flags &&& kVisitRootFlagStopLoggingNewRoots =? 0)
            then with_roots false (new_strong_intern_roots_ it) it
            else it in
  Some it.

(** [CHECK(!kUseReadBarrier)] *)
Definition ChangeWeakRootState (read_barrier : bool) (new_state : WeakRootState) it : option InternTable :=
  if read_barrier then None
  else Some (mkIntern (log_new_roots_ it) (new_strong_intern_roots_ it) (strong_interns_ it) (weak_interns_ it)
               new_state (transaction_ it)).

(** ** Transactions *)

(** [InternStringLog::Undo], with no transaction active. *)
Definition Undo (log : InternStringLog) it : option InternTable :=
  match string_op_ log, string_kind_ log with
  | kInsert, kStrongString => RemoveStrong it (str_ log)
  | kInsert, kWeakString => RemoveWeak it (str_ log)
  | kRemove, kStrongString => fst <$> InsertStrong it (str_ log)
  | kRemove, kWeakString => fst <$> InsertWeak it (str_ log)
  end.
Fixpoint undo_all (logs : list InternStringLog) it : option InternTable :=
  match logs with
  | [] => Some it
  | log :: logs => it ← Undo log it; undo_all logs it
  end.

Definition EnterTransaction it : InternTable := with_transaction (Some []) it.
(** [ExitTransactionMode] and [UndoInternStringTableModifications] of [Rollback]. *)
Definition Rollback it : option InternTable :=
  logs ← transaction_ it;
  undo_all logs (with_transaction None it).

End InternTable.
