(* ===== verification/InternTableFacts.v ===== *)
(** * Facts about the intern table

    The tables as lists of strings: what lookup, insertion, removal, visits and
    sweeps do to them.  [heap] says what string is at an address. *)
From S2P Require Import Prelude Utf JavaString JavaStringFacts JavaStringSpec HashSet HashSetFacts InternTable.

(** ** Slots and strings *)

Lemma Forall_elem {A} (P : A -> Prop) l x : Forall P l -> x ∈ l -> P x.
Proof. rewrite List.Forall_forall. intros H Hx. by apply H, list_elem_of_In. Qed.

#[export] Instance root_laws : SetLaws (T := option JString).
Proof.
  split; [done|]. intros [s|]; simpl; [|done].
  pose proof (wrap_u_range 32 (default 0 (ComputeHashCode s))). unfold in_u in *. lia.
Qed.

Definition strings (data : list (option JString)) : list JString := omap id data.

Lemma elements_strings data : elements data = Some <$> strings data.
Proof.
  induction data as [|[s|] data IH]; [done| |]; rewrite elements_cons; simpl; [by rewrite IH|done].
Qed.

Lemma strings_perm data data' (l l' : list JString) :
  (Some <$> l) ++ elements data ≡ₚ (Some <$> l') ++ elements data' -> l ++ strings data ≡ₚ l' ++ strings data'.
Proof.
  rewrite !elements_strings, <- !fmap_app. intros H.
  apply (omap_Permutation id) in H. revert H. clear.
  assert (forall k : list JString, omap id (Some <$> k) = k) as E
    by (induction k as [|x k IH]; [done|cbn; f_equal; exact IH]).
  by rewrite !E.
Qed.

(** The slot of a string that is there. *)
Lemma full_string data i : full data i -> exists s, at_slot data i = Some s.
Proof. unfold full. destruct (at_slot data i) as [s|]; [by exists s|done]. Qed.

(** A slot rewritten with a string of the same hash. *)
Section Rewrite.
Context {F : Type} {factors : LoadFactors F} {ok : F -> Prop} {load_laws : LoadLaws ok}.
Implicit Types hs : HashSet (option JString) F.

Lemma rewrite_slot hs i s s' :
  set_ok (ok := ok) hs -> slot_of (num_buckets_ hs) i -> at_slot (data_ hs) i = Some s ->
  hashfn (Some s') = hashfn (Some s) ->
  let hs' := with_data (<[Z.to_nat i := Some s']> (data_ hs)) hs in
  set_slot hs i (Some s') = Some hs' /\ set_ok (ok := ok) hs' /\
  s :: strings (data_ hs') ≡ₚ s' :: strings (data_ hs) /\
  (forall j, slot_of (num_buckets_ hs) j -> full (data_ hs') j <-> full (data_ hs) j).
Proof.
  intros [[Hs Hp] Hc Hr Hl Hmin Hmax] Hi Hat Hh hs'.
  assert (slot_of (Z.of_nat (length (data_ hs))) i) as Hi' by by rewrite Hs.
  assert (forall j, slot_of (num_buckets_ hs) j -> full (data_ hs') j <-> full (data_ hs) j) as Hfull.
  { intros j Hj. unfold hs'. simpl. rewrite full_insert; [|done|unfold slot_of in Hj; lia|done].
    split; [intros [->|?]; [|done]|by right]. unfold full. by rewrite Hat. }
  pose proof (elements_insert (data_ hs) i (Some s') Hi') as He. rewrite Hat in He. simpl in He.
  assert (forall j, slot_of (num_buckets_ hs) j -> full (data_ hs) j ->
            ideal (num_buckets_ hs) (at_slot (data_ hs') j) = ideal (num_buckets_ hs) (at_slot (data_ hs) j)) as Hid.
  { intros j Hj _. unfold ideal. unfold hs'. simpl data_. destruct (Z.eq_dec j i) as [->|Hne].
    - rewrite at_slot_eq, Hat by done. by rewrite Hh.
    - rewrite at_slot_ne by (unfold slot_of in *; lia). done. }
  split_and!; [by apply set_slot_at| |by apply (strings_perm _ _ [s] [s'])|done].
  split; try done; [split|].
  - unfold sized, hs'. simpl. by rewrite length_insert.
  - intros j m Hj Hm Hf Hd. change (num_buckets_ hs') with (num_buckets_ hs) in *.
    apply Hfull in Hf; [|done]. rewrite Hid in Hd by done. apply Hfull; [done|]. by apply (Hp j m).
  - change (num_elements_ hs') with (num_elements_ hs). rewrite Hc. f_equal.
    apply Permutation_length in He. simpl in He. injection He as He. unfold hs'. simpl. lia.
Qed.
End Rewrite.

Section Facts.
Context {F : Type} {factors : LoadFactors F} {ok : F -> Prop} {load_laws : LoadLaws ok}.
Context (kDefaultMinLoadFactor kDefaultMaxLoadFactor : F).
Context (default_min_ok : ok kDefaultMinLoadFactor) (default_max_ok : ok kDefaultMaxLoadFactor).
(** What string is at an address. *)
Context (heap : Z -> list Z) (heap_units : forall a, units (heap a)).
Notation UnorderedSet := (HashSet (option JString) F).
Implicit Types tables : list UnorderedSet.
Implicit Types set : UnorderedSet.

Definition valid (s : JString) : Prop := exists a, s = string_of a (heap a).
Definition text (s : JString) : list Z := heap (address s).

Lemma valid_equals s s' : valid s -> valid s' -> Equals s (Some s') = Some (bool_decide (text s = text s')).
Proof.
  intros [a ->] [b ->]. apply Equals_spec; [apply heap_units|apply heap_units|by intros ->].
Qed.

Lemma valid_hash s : valid s -> hashfn (Some s) = u32 (ComputeUtf16Hash (text s)).
Proof. intros [a ->]. simpl. by rewrite ComputeHashCode_spec. Qed.

Lemma valid_same_hash s s' : valid s -> valid s' -> text s = text s' -> hashfn (Some s) = hashfn (Some s').
Proof. intros Hs Hs' E. rewrite !valid_hash by done. by rewrite E. Qed.

(** ** Sets of strings *)

Record set_valid set : Prop := {
  sv_ok : set_ok (ok := ok) set;
  sv_strings : Forall valid (strings (data_ set))
}.

Lemma string_slot set i s :
  slot_of (Z.of_nat (length (data_ set))) i -> at_slot (data_ set) i = Some s -> s ∈ strings (data_ set).
Proof.
  intros Hi Hs. apply list_elem_of_omap. exists (Some s). split; [|done]. rewrite <- Hs.
  unfold at_slot, slot_of in *. apply list_elem_of_In, nth_In. lia.
Qed.

Lemma slot_string set s :
  s ∈ strings (data_ set) -> exists i, slot_of (Z.of_nat (length (data_ set))) i /\ at_slot (data_ set) i = Some s.
Proof.
  intros H. assert (Some s ∈ elements (data_ set)) as H'
    by (rewrite elements_strings; apply list_elem_of_fmap; by exists s).
  apply elem_at_slot in H' as (i & Hi & _ & E). by exists i.
Qed.

(** A key that picks the valid strings of one text, and their hash. *)
Record picks (pred : option JString -> bool) (hash : Z) (t : list Z) : Prop := {
  pk_pred : forall s, valid s -> pred (Some s) = bool_decide (text s = t);
  pk_hash : hash = u32 (ComputeUtf16Hash t)
}.

Lemma root_picks s : valid s -> picks (root_equals s) (hashfn (Some s)) (text s).
Proof.
  intros Hs. split; [|by apply valid_hash]. intros s' Hs'. unfold root_equals. by rewrite valid_equals.
Qed.

Lemma find_slot_picks set pred hash t :
  set_valid set -> picks pred hash t ->
  exists it, find_slot set pred hash = Some it /\
    match it with
    | Some i => slot_of (num_buckets_ set) i /\ full (data_ set) i /\
                exists s, at_slot (data_ set) i = Some s /\ s ∈ strings (data_ set) /\ text s = t
    | None => forall s, s ∈ strings (data_ set) -> text s <> t
    end.
Proof.
  intros [Hok Hv'] [Hpr Hh]. pose proof (fun s => Forall_elem valid _ s Hv') as Hv.
  assert (forall s, s ∈ strings (data_ set) -> Some s ∈ elements (data_ set)) as Hse.
  { intros s Hs. rewrite elements_strings. apply list_elem_of_fmap. by exists s. }
  destruct (find_slot_spec set pred hash Hok) as (it & E & Hit).
  { intros x Hx Hp. rewrite elements_strings in Hx. apply list_elem_of_fmap in Hx as (s & -> & Hs).
    rewrite Hpr in Hp by auto. apply bool_decide_eq_true in Hp. rewrite valid_hash by auto. by rewrite Hp. }
  exists it. split; [done|]. destruct it as [i|].
  - destruct Hit as (Hi & Hf & Hp). split_and!; try done. destruct (full_string _ _ Hf) as [s Hs].
    exists s. assert (s ∈ strings (data_ set)) as Hin.
    { apply (string_slot set i); [|done]. by rewrite (to_sized _ (so_table _ Hok)). }
    split_and!; try done. rewrite Hs, Hpr in Hp by auto. by apply bool_decide_eq_true in Hp.
  - intros s Hs Ht. specialize (Hit (Some s) (Hse s Hs)). rewrite Hpr, bool_decide_eq_false in Hit by auto. done.
Qed.

(** ** Tables *)

Definition interned tables : list JString := tables ≫= (fun set => strings (data_ set)).

Record table_valid tables : Prop := {
  tv_sets : Forall set_valid tables;
  tv_back : tables <> []
}.

Lemma interned_cons set tables : interned (set :: tables) = strings (data_ set) ++ interned tables.
Proof. done. Qed.

Lemma interned_valid tables s : Forall set_valid tables -> s ∈ interned tables -> valid s.
Proof.
  intros Ht. induction Ht as [|set tables [_ Hv] _ IH]; [intros H; by apply elem_of_nil in H|].
  rewrite interned_cons, elem_of_app. intros [H|H]; [|auto]. by apply (Forall_elem _ _ _ Hv).
Qed.

Lemma find_in_spec tables pred hash t :
  Forall set_valid tables -> picks pred hash t ->
  exists r, find_in tables pred hash = Some r /\
    match r with
    | Some s => s ∈ interned tables /\ text s = t
    | None => forall s, s ∈ interned tables -> text s <> t
    end.
Proof.
  intros Ht Hp. induction Ht as [|set tables Hset Ht IH]; cbn [find_in].
  { exists None. split; [done|]. intros s H. by apply elem_of_nil in H. }
  destruct (find_slot_picks set pred hash t Hset Hp) as (it & -> & Hit). cbn [mbind option_bind].
  destruct it as [i|].
  - destruct Hit as (Hi & Hf & s & Hs & Hin & Htx). exists (Some s).
    rewrite ElementForIndex_sized by (apply Hset || done). rewrite Hs. split; [done|]. split; [|done].
    rewrite interned_cons. apply elem_of_app. by left.
  - destruct IH as (r & -> & Hr). exists r. split; [done|]. rewrite interned_cons. destruct r as [s|].
    + destruct Hr as [Hin ?]. split; [|done]. apply elem_of_app. by right.
    + intros s Hs. apply elem_of_app in Hs as [Hs|Hs]; [by apply Hit|by apply Hr].
Qed.

Lemma insert_valid set s :
  set_valid set -> valid s ->
  exists set', Insert (Some s) set = Some set' /\ set_valid set' /\ strings (data_ set') ≡ₚ s :: strings (data_ set).
Proof.
  intros [Hok Hv] Hs. destruct (Insert_spec set (Some s) Hok) as (set' & -> & Hok' & He & _); [done|].
  assert (strings (data_ set') ≡ₚ s :: strings (data_ set)) as Hp by (by apply (strings_perm _ _ [] [s])).
  exists set'. split_and!; try done. split; [done|]. rewrite Hp. by constructor.
Qed.

Lemma Table_Insert_spec tables s :
  table_valid tables -> valid s ->
  exists tables', Table_Insert tables s = Some tables' /\ table_valid tables' /\
    interned tables' ≡ₚ s :: interned tables.
Proof.
  intros [Ht Hne] Hs. induction Ht as [|set tables Hset Ht IH]; [done|].
  destruct tables as [|set2 tables]; cbn [Table_Insert].
  - destruct (insert_valid set s Hset Hs) as (set' & -> & Hset' & Hp). exists [set'].
    split_and!; [done|split; [by constructor|done]|]. rewrite !interned_cons, Hp. done.
  - destruct IH as (tables' & E & [Ht' Hne'] & Hp); [done|]. cbn [Table_Insert] in E. rewrite E.
    exists (set :: tables'). split_and!; [done|split; [by constructor|done]|].
    rewrite (interned_cons set tables'), (interned_cons set (set2 :: tables)), Hp. by rewrite Permutation_middle.
Qed.

Lemma erase_valid set i s :
  set_valid set -> slot_of (num_buckets_ set) i -> at_slot (data_ set) i = Some s ->
  exists set' it, Erase i set = Some (set', it) /\ set_valid set' /\ s :: strings (data_ set') ≡ₚ strings (data_ set).
Proof.
  intros [Hok Hv] Hi Hs. assert (full (data_ set) i) as Hf by (unfold full; by rewrite Hs).
  destruct (Erase_spec set i Hok Hi Hf) as (set' & it & -> & Hok' & _ & He & _). rewrite Hs in He.
  assert (s :: strings (data_ set') ≡ₚ strings (data_ set)) as Hp by (by apply (strings_perm _ _ [s] [])).
  exists set', it. split_and!; try done. split; [done|]. rewrite <- Hp in Hv. by apply Forall_cons_1 in Hv as [_ Hv].
Qed.

Lemma Table_Remove_spec tables s :
  table_valid tables -> valid s -> (exists s', s' ∈ interned tables /\ text s' = text s) ->
  exists tables' s', Table_Remove tables s = Some tables' /\ table_valid tables' /\
    text s' = text s /\ s' :: interned tables' ≡ₚ interned tables.
Proof.
  intros [Ht Hne] Hs. revert Hne. induction Ht as [|set tables Hset Ht IH]; [done|]. intros _ (s1 & Hin & Htx).
  cbn [Table_Remove].
  destruct (find_slot_picks set _ _ _ Hset (root_picks s Hs)) as (it & -> & Hit). cbn [mbind option_bind].
  destruct it as [i|].
  - destruct Hit as (Hi & _ & s' & Hat & _ & Htx').
    destruct (erase_valid set i s' Hset Hi Hat) as (set' & it & -> & Hset' & Hp). exists (set' :: tables), s'.
    split_and!; [done|split; [by constructor|done]|done|]. by rewrite !interned_cons, <- Hp.
  - rewrite interned_cons in Hin. apply elem_of_app in Hin as [Hin|Hin]; [by destruct (Hit s1 Hin)|].
    destruct IH as (tables' & s' & -> & [Ht' Hne'] & Htx' & Hp).
    { by intros ->; apply elem_of_nil in Hin. }
    { by exists s1. }
    exists (set :: tables'), s'. split_and!; [done|split; [by constructor|done]|done|].
    rewrite !interned_cons, <- Hp. apply Permutation_middle.
Qed.

(** ** Sweeps *)

(** What the collector's [IsMarked] does: a live string keeps its text, and at
    its new address it is itself. *)
Record marks (visitor : JString -> option JString) : Prop := {
  mk_valid : forall s s', valid s -> visitor s = Some s' -> valid s' /\ text s' = text s;
  mk_again : forall s s', valid s -> visitor s = Some s' -> visitor s' = Some s'
}.

Section Sweep.
Context (visitor : JString -> option JString) (Hvis : marks visitor).

(** The slots before the iterator hold strings where they are now. *)
Definition swept (n : Z) (data : list (option JString)) (it : Z) : Prop :=
  forall i s, slot_of n i -> i < it -> at_slot data i = Some s -> visitor s = Some s.

Lemma swept_end set n :
  sized set -> num_buckets_ set = n -> swept n (data_ set) n ->
  omap visitor (strings (data_ set)) = strings (data_ set).
Proof.
  intros Hs Hn H. assert (Forall (fun s => visitor s = Some s) (strings (data_ set))) as Hall.
  { apply List.Forall_forall. intros s Hin. apply list_elem_of_In, slot_string in Hin as (i & Hi & Hat).
    rewrite Hs, Hn in Hi. apply (H i); [done|unfold slot_of in Hi; lia|done]. }
  induction Hall as [|s l E _ IH]; [done|]. cbn. rewrite E. f_equal. exact IH.
Qed.

Lemma next_full_at n data i i' : next_full n data i i' -> next_full n data i' i'.
Proof. intros (? & ? & ?). split_and!; [lia|lia|done|lia]. Qed.

(** A dead string is erased; what fills its slot is still to be seen. *)
Lemma sweep_erase set it s :
  set_valid set -> slot_of (num_buckets_ set) it -> at_slot (data_ set) it = Some s ->
  swept (num_buckets_ set) (data_ set) it ->
  exists set' it', Erase it set = Some (set', it') /\ set_valid set' /\ num_buckets_ set' = num_buckets_ set /\
    s :: strings (data_ set') ≡ₚ strings (data_ set) /\ it <= it' /\
    next_full (num_buckets_ set) (data_ set') it' it' /\ swept (num_buckets_ set) (data_ set') it'.
Proof.
  intros [Hok Hv] Hi Hs Hsw. assert (full (data_ set) it) as Hf by (unfold full; by rewrite Hs).
  destruct (Erase_spec set it Hok Hi Hf) as (set' & it' & -> & Hok' & Hn & He & Hnf & Hb). rewrite Hs in He.
  assert (s :: strings (data_ set') ≡ₚ strings (data_ set)) as Hp by (by apply (strings_perm _ _ [s] [])).
  exists set', it'. split_and!; try done; [split; [done|]|apply Hnf|by eapply next_full_at|].
  - rewrite <- Hp in Hv. by apply Forall_cons_1 in Hv as [_ Hv].
  - intros i x Hi' Hlt Hx. destruct (Hb i Hi' Hlt) as (i' & Hsl & Hlt' & _ & E); [unfold full; by rewrite Hx|].
    rewrite Hx in E. by apply (Hsw i').
Qed.

(** A live string is written back where it is now. *)
Lemma sweep_keep set it s s' :
  set_valid set -> slot_of (num_buckets_ set) it -> at_slot (data_ set) it = Some s -> visitor s = Some s' ->
  swept (num_buckets_ set) (data_ set) it ->
  exists set' it', set_slot set it (Some s') = Some set' /\ NextNonEmptySlot set' it = Some it' /\ set_valid set' /\
    num_buckets_ set' = num_buckets_ set /\ s :: strings (data_ set') ≡ₚ s' :: strings (data_ set) /\ it < it' /\
    next_full (num_buckets_ set) (data_ set') it' it' /\ swept (num_buckets_ set) (data_ set') it'.
Proof.
  intros [Hok Hv] Hi Hs Hm Hsw. assert (slot_of (Z.of_nat (length (data_ set))) it) as Hi'
    by by rewrite (to_sized _ (so_table _ Hok)).
  pose proof (Forall_elem _ _ _ Hv (string_slot set it s Hi' Hs)) as Hvs.
  destruct (mk_valid _ Hvis s s' Hvs Hm) as [Hvs' Htx].
  destruct (rewrite_slot set it s s' Hok Hi Hs) as (E & Hok' & Hp & Hfull); [by apply valid_same_hash|].
  set (set' := with_data _ set) in *.
  destruct (NextNonEmptySlot_spec set' it) as (it' & En & Hnf); [apply Hok'|done|].
  exists set', it'. split_and!; try done; [split; [done|]| |by eapply next_full_at|].
  - apply (Forall_cons_1 _ s). rewrite Hp. by constructor.
  - destruct Hnf as [? _]. lia.
  - intros i x Hsl Hlt Hx. destruct (Z.lt_trichotomy i it) as [Hl|[->|Hg]].
    + apply (Hsw i); [done|done|]. unfold set' in Hx. simpl in Hx.
      by rewrite at_slot_ne in Hx by (unfold slot_of in *; lia).
    + unfold set' in Hx. simpl in Hx. rewrite at_slot_eq in Hx by done. injection Hx as <-.
      by apply (mk_again _ Hvis s).
    + destruct Hnf as (_ & _ & Hnf). destruct (Hnf i); [lia|]. unfold full. by rewrite Hx.
Qed.

Lemma sweep_loop_spec fuel set it :
  set_valid set -> next_full (num_buckets_ set) (data_ set) it it -> 0 <= it ->
  swept (num_buckets_ set) (data_ set) it ->
  Z.of_nat (length (strings (data_ set))) + (num_buckets_ set - it) <= Z.of_nat fuel ->
  exists set', sweep_loop fuel set visitor it (num_buckets_ set) = Some set' /\ set_valid set' /\
    strings (data_ set') ≡ₚ omap visitor (strings (data_ set)).
Proof.
  revert set it. induction fuel as [|fuel IH]; intros set it Hset Hnf H0 Hsw Hf; cbn [sweep_loop];
    destruct (it =? num_buckets_ set) eqn:E; bools;
    try (exists set; split_and!; [done|done|]; subst; rewrite (swept_end set (num_buckets_ set)); try done;
         apply Hset);
    destruct Hnf as (Hr & Hfull & _); [lia|].
  assert (slot_of (num_buckets_ set) it) as Hi by (unfold slot_of; lia).
  destruct (full_string _ _ (Hfull ltac:(lia))) as [s Hs].
  rewrite ElementForIndex_sized by (apply Hset || done). rewrite Hs. cbn [mbind option_bind].
  destruct (visitor s) as [s'|] eqn:Ev.
  - destruct (sweep_keep set it s s') as (set1 & it1 & -> & En & Hset1 & Hn & Hp & Hlt & Hnf1 & Hsw1); try done.
    cbn [mbind option_bind]. rewrite En. cbn [mbind option_bind]. rewrite <- Hn in *.
    assert (length (strings (data_ set1)) = length (strings (data_ set))) as El
      by (apply Permutation_length in Hp; simpl in Hp; lia).
    destruct (IH set1 it1) as (set' & -> & Hset' & Hp'); try done; [lia|lia|].
    exists set'. split_and!; try done. rewrite Hp'.
    apply (omap_Permutation visitor) in Hp. cbn in Hp. rewrite Ev in Hp.
    assert (visitor s' = Some s') as Ev'.
    { apply (mk_again _ Hvis s); [|done]. apply (Forall_elem _ _ _ (sv_strings _ Hset)), (string_slot set it); [|done].
      by rewrite (to_sized _ (so_table _ (sv_ok _ Hset))), <- Hn. }
    rewrite Ev' in Hp. by apply Permutation_cons_inv in Hp.
  - destruct (sweep_erase set it s) as (set1 & it1 & -> & Hset1 & Hn & Hp & Hle & Hnf1 & Hsw1); try done.
    cbn [mbind option_bind]. rewrite <- Hn in *.
    assert (S (length (strings (data_ set1))) = length (strings (data_ set))) as El
      by (apply Permutation_length in Hp; simpl in Hp; lia).
    destruct (IH set1 it1) as (set' & -> & Hset' & Hp'); try done; [lia|lia|].
    exists set'. split_and!; try done. rewrite Hp'.
    apply (omap_Permutation visitor) in Hp. cbn in Hp. by rewrite Ev in Hp.
Qed.

Lemma strings_count set : set_valid set -> Z.of_nat (length (strings (data_ set))) = num_elements_ set.
Proof.
  intros [Hok _]. rewrite (so_count _ Hok), elements_strings, length_fmap. done.
Qed.

Lemma sweep_set_spec set :
  set_valid set ->
  exists set', sweep_set set visitor = Some set' /\ set_valid set' /\
    strings (data_ set') ≡ₚ omap visitor (strings (data_ set)).
Proof.
  intros Hset. unfold sweep_set, HashSet.end_, NumBuckets, Size.
  pose proof (to_sized _ (so_table _ (sv_ok _ Hset))) as Hs. unfold sized in Hs.
  destruct (begin_spec set Hs) as (it & -> & Hnf). cbn [mbind option_bind].
  pose proof Hnf as (Hr & _ & Hno). apply sweep_loop_spec; try done; [by eapply next_full_at|lia| |].
  - intros i s Hi Hlt Hx. destruct (Hno i); [unfold slot_of in Hi; lia|]. unfold full. by rewrite Hx.
  - rewrite strings_count by done. pose proof (set_ok_size _ (sv_ok _ Hset)). lia.
Qed.

Lemma Table_SweepWeaks_spec tables :
  table_valid tables ->
  exists tables', Table_SweepWeaks tables visitor = Some tables' /\ table_valid tables' /\
    interned tables' ≡ₚ omap visitor (interned tables).
Proof.
  intros [Ht Hne]. assert (exists tables', Table_SweepWeaks tables visitor = Some tables' /\
    Forall set_valid tables' /\ length tables' = length tables /\ interned tables' ≡ₚ omap visitor (interned tables))
    as (tables' & E & Ht' & Hl & Hp).
  { clear Hne. induction Ht as [|set tables Hset Ht IH]; [by exists []|].
    destruct (sweep_set_spec set Hset) as (set' & E & Hset' & Hp). destruct IH as (tables' & E' & Ht' & Hl & Hp').
    exists (set' :: tables'). unfold Table_SweepWeaks in *. cbn [mapM]. rewrite E. cbn [mbind option_bind].
    rewrite E'. split_and!; [done|by constructor|simpl; lia|].
    rewrite !interned_cons, Hp, Hp'. by rewrite omap_app. }
  exists tables'. split_and!; [done|split; [done|]|done]. intros ->. by destruct tables.
Qed.

End Sweep.

(** ** Visits *)

(** A visitor of roots moves strings without changing them. *)
Definition moves (visitor : JString -> JString) : Prop :=
  forall s, valid s -> valid (visitor s) /\ text (visitor s) = text s.

Section Visit.
Context (visitor : JString -> JString) (Hvis : moves visitor).

(** The slots before the iterator have been visited. *)
Definition visited (n : Z) (data0 data : list (option JString)) (it : Z) : Prop :=
  forall i, slot_of n i -> at_slot data i = if i <? it then visitor <$> at_slot data0 i else at_slot data0 i.

Lemma visited_end n data0 data :
  Z.of_nat (length data0) = n -> length data = length data0 -> visited n data0 data n ->
  data = (fun r : option JString => visitor <$> r) <$> data0.
Proof.
  intros Hn Hl H. apply list_eq. intros k. rewrite list_lookup_fmap.
  destruct (Nat.lt_ge_cases k (length data0)) as [Hk|Hk].
  - specialize (H (Z.of_nat k) ltac:(unfold slot_of; lia)). rewrite (proj2 (Z.ltb_lt _ _)) in H by lia.
    unfold at_slot in H. rewrite Nat2Z.id, !nth_lookup in H.
    destruct (lookup_lt_is_Some_2 data0 k Hk) as [x Hx]. destruct (lookup_lt_is_Some_2 data k) as [y Hy]; [lia|].
    rewrite Hx, Hy in *. simpl in H. by rewrite H.
  - by rewrite !lookup_ge_None_2 by lia.
Qed.

Lemma visit_loop_spec fuel set data0 it :
  set_valid set -> next_full (num_buckets_ set) (data_ set) it it -> 0 <= it ->
  visited (num_buckets_ set) data0 (data_ set) it -> num_buckets_ set - it <= Z.of_nat fuel ->
  exists set', visit_loop fuel set visitor it = Some set' /\ set_valid set' /\
    length (data_ set') = length (data_ set) /\ visited (num_buckets_ set) data0 (data_ set') (num_buckets_ set).
Proof.
  revert set it. induction fuel as [|fuel IH]; intros set it Hset Hnf H0 Hv Hf; cbn [visit_loop]; unfold NumBuckets;
    destruct (it =? num_buckets_ set) eqn:E; bools;
    try (exists set; subst; by split_and!); destruct Hnf as (Hr & Hfull & _); [lia|].
  assert (slot_of (num_buckets_ set) it) as Hi by (unfold slot_of; lia). pose proof Hset as [Hok Hvs].
  pose proof (to_sized _ (so_table _ Hok)) as Hs. unfold sized in Hs.
  destruct (full_string _ _ (Hfull ltac:(lia))) as [s Hat].
  assert (valid s) as Hs' by (apply (Forall_elem _ _ _ Hvs), (string_slot set it); [by rewrite Hs|done]).
  destruct (Hvis s Hs') as [Hv' Htx].
  rewrite ElementForIndex_sized by done. rewrite Hat. cbn [mbind option_bind fmap option_fmap option_map].
  destruct (rewrite_slot set it s (visitor s) Hok Hi Hat) as (-> & Hok' & Hp & _); [by apply valid_same_hash|].
  set (set1 := with_data _ set) in *. cbn [mbind option_bind].
  destruct (NextNonEmptySlot_spec set1 it) as (it1 & -> & Hnf1); [apply Hok'|done|]. cbn [mbind option_bind].
  assert (set_valid set1) as Hset1.
  { split; [done|]. apply (Forall_cons_1 _ s). rewrite Hp. by constructor. }
  destruct (IH set1 it1) as (set' & -> & Hset' & Hl & Hv1); try done; [by eapply next_full_at|destruct Hnf1 as [? _]; lia| | |].
  - intros i Hsl. change (num_buckets_ set1) with (num_buckets_ set) in *. specialize (Hv i Hsl).
    unfold set1. simpl data_. destruct (Z.lt_trichotomy i it) as [Hl|[->|Hg]].
    + rewrite at_slot_ne by (unfold slot_of in *; lia). destruct Hnf1 as [? _].
      rewrite (proj2 (Z.ltb_lt i it)) in Hv by done. by rewrite (proj2 (Z.ltb_lt i it1)) by lia.
    + rewrite at_slot_eq by by rewrite Hs. destruct Hnf1 as [? _].
      rewrite (proj2 (Z.ltb_ge it it)) in Hv by lia. rewrite (proj2 (Z.ltb_lt it it1)), <- Hv, Hat by lia. done.
    + rewrite at_slot_ne by (unfold slot_of in *; lia). rewrite (proj2 (Z.ltb_ge i it)) in Hv by lia.
      destruct (i <? it1) eqn:E1; bools; [|done]. destruct Hnf1 as (_ & _ & Hno).
      assert (~ full (data_ set1) i) as Hnf by (apply Hno; lia). unfold set1, full in Hnf. simpl in Hnf.
      rewrite at_slot_ne in Hnf by (unfold slot_of in *; lia). rewrite Hv in *. by destruct (at_slot data0 i).
  - change (num_buckets_ set1) with (num_buckets_ set). destruct Hnf1 as [? _]. lia.
  - exists set'. split_and!; try done. rewrite Hl. unfold set1. simpl. apply length_insert.
Qed.

Lemma strings_fmap data : strings ((fun r : option JString => visitor <$> r) <$> data) = visitor <$> strings data.
Proof. induction data as [|[s|] data IH]; [done| |]; cbn; [f_equal|]; exact IH. Qed.

Lemma visit_set_spec set :
  set_valid set ->
  exists set', visit_set set visitor = Some set' /\ set_valid set' /\
    strings (data_ set') = visitor <$> strings (data_ set).
Proof.
  intros Hset. pose proof (to_sized _ (so_table _ (sv_ok _ Hset))) as Hs. unfold sized in Hs.
  unfold visit_set, NumBuckets. destruct (begin_spec set Hs) as (it & -> & Hnf). cbn [mbind option_bind].
  pose proof Hnf as (Hr & _ & Hno).
  destruct (visit_loop_spec (Z.to_nat (num_buckets_ set)) set (data_ set) it) as (set' & -> & Hset' & Hl & Hv);
    try done; [by eapply next_full_at|lia| |lia|].
  - intros i Hi. destruct (i <? it) eqn:E; bools; [|done]. assert (~ full (data_ set) i) as H
      by (apply Hno; unfold slot_of in Hi; lia). unfold full in H. by destruct (at_slot (data_ set) i).
  - exists set'. split_and!; try done. by rewrite (visited_end _ _ _ Hs Hl Hv), strings_fmap.
Qed.

Lemma Table_VisitRoots_spec tables :
  table_valid tables ->
  exists tables', Table_VisitRoots tables visitor = Some tables' /\ table_valid tables' /\
    interned tables' = visitor <$> interned tables.
Proof.
  intros [Ht Hne]. assert (exists tables', Table_VisitRoots tables visitor = Some tables' /\
    Forall set_valid tables' /\ length tables' = length tables /\ interned tables' = visitor <$> interned tables)
    as (tables' & E & Ht' & Hl & Hp).
  { clear Hne. induction Ht as [|set tables Hset Ht IH]; [by exists []|].
    destruct (visit_set_spec set Hset) as (set' & E & Hset' & Hp). destruct IH as (tables' & E' & Ht' & Hl & Hp').
    exists (set' :: tables'). unfold Table_VisitRoots in *. cbn [mapM]. rewrite E. cbn [mbind option_bind].
    rewrite E'. split_and!; [done|by constructor|simpl; lia|].
    rewrite !interned_cons, Hp, Hp'. by rewrite fmap_app. }
  exists tables'. split_and!; [done|split; [done|]|done]. intros ->. by destruct tables.
Qed.

(** A moved string that is in the table once is replaced. *)
Lemma move_root_spec tables s :
  table_valid tables -> valid s -> s ∈ interned tables ->
  (forall s', s' ∈ interned tables -> text s' = text s -> s' = s) ->
  exists tables1 tables2, Table_Remove tables s = Some tables1 /\ Table_Insert tables1 (visitor s) = Some tables2 /\
    table_valid tables2 /\ s :: interned tables2 ≡ₚ visitor s :: interned tables.
Proof.
  intros Ht Hs Hin Huniq. destruct (Table_Remove_spec tables s Ht Hs) as (tables1 & s' & E1 & Ht1 & Htx & Hp1);
    [by exists s|].
  assert (s' = s) as ->.
  { apply Huniq; [|done]. rewrite <- Hp1. apply elem_of_cons. by left. }
  destruct (Hvis s Hs) as [Hv _].
  destruct (Table_Insert_spec tables1 (visitor s) Ht1 Hv) as (tables2 & E2 & Ht2 & Hp2).
  exists tables1, tables2. split_and!; try done. rewrite Hp2, perm_swap, Hp1. done.
Qed.

End Visit.

End Facts.
