(* ===== verification/InternTableSpec.v ===== *)
(** * What the intern table promises

    One object per text in both tables, whatever the order of strong and weak
    interning, sweeps, moves and aborted transactions. *)
From S2P Require Import Prelude Utf JavaString JavaStringFacts JavaStringSpec HashSet HashSetFacts HashSetSpec InternTable InternTableFacts.

Section Spec.
Context {F : Type} {factors : LoadFactors F} {ok : F -> Prop} {load_laws : LoadLaws ok}.
Context (default_min default_max table_min table_max : F).
Context (default_min_ok : ok default_min) (default_max_ok : ok default_max).
Context (table_min_ok : ok table_min) (table_max_ok : ok table_max).
Context (heap : Z -> list Z) (heap_units : forall a, units (heap a)).
Implicit Types it : InternTable (F := F).

Notation valid := (InternTableFacts.valid heap).
Notation text := (InternTableFacts.text heap).
Notation table_valid := (InternTableFacts.table_valid (ok := ok) heap).
Notation set_valid := (InternTableFacts.set_valid (ok := ok) heap).

(** ** The invariant *)

Definition strong it : list JString := interned (strong_interns_ it).
Definition weak it : list JString := interned (weak_interns_ it).

(** No two interned strings have the same text. *)
Record intern_ok it : Prop := {
  io_strong : table_valid (strong_interns_ it);
  io_weak : table_valid (weak_interns_ it);
  io_unique : NoDup (text <$> strong it ++ weak it)
}.

Lemma default_set_valid : set_valid (default_set default_min default_max).
Proof. split; [by apply new_set_ok|constructor]. Qed.

Lemma new_intern_table_ok :
  exists it, new_intern_table default_min default_max table_min table_max = Some it /\ intern_ok it /\
    strong it = [] /\ weak it = [].
Proof.
  unfold new_intern_table, new_table.
  destruct (SetLoadFactor_spec (default_set default_min default_max) table_min table_max) as (set & -> & Hok & He);
    [by apply new_set_ok|done|done|].
  cbn [mbind option_bind].
  assert (strings (data_ set) = []) as Es.
  { rewrite elements_strings in He. simpl in He. apply Permutation_nil_r in He. by destruct (strings (data_ set)). }
  assert (table_valid [set]) as Ht.
  { split; [|done]. constructor; [|constructor]. split; [done|]. rewrite Es. constructor. }
  assert (interned [set] = []) as Ei by (by rewrite interned_cons, Es).
  eexists. split; [done|]. unfold strong, weak. cbn [strong_interns_ weak_interns_]. rewrite Ei.
  split; [|done]. split; try done. unfold strong, weak. cbn [strong_interns_ weak_interns_]. rewrite Ei. constructor.
Qed.

Lemma text_unique (l : list JString) s s' :
  NoDup (text <$> l) -> s ∈ l -> s' ∈ l -> text s = text s' -> s = s'.
Proof.
  intros Hn Hs Hs' E. apply list_elem_of_lookup in Hs as [i Hi], Hs' as [j Hj].
  assert (i = j) as ->; [|congruence].
  eapply (NoDup_lookup (text <$> l)); [done| |]; rewrite list_lookup_fmap.
  - by rewrite Hi.
  - rewrite Hj. simpl. by rewrite E.
Qed.

(** ** Steps *)

Lemma LookupStrong_spec it s :
  intern_ok it -> valid s ->
  exists r, LookupStrong it s = Some r /\
    match r with
    | Some r => r ∈ strong it /\ text r = text s
    | None => forall r, r ∈ strong it -> text r <> text s
    end.
Proof.
  intros Hok Hs. apply (find_in_spec (ok := ok) heap heap_units); [apply Hok|by apply root_picks].
Qed.

Lemma LookupWeak_spec it s :
  intern_ok it -> valid s ->
  exists r, LookupWeak it s = Some r /\
    match r with
    | Some r => r ∈ weak it /\ text r = text s
    | None => forall r, r ∈ weak it -> text r <> text s
    end.
Proof.
  intros Hok Hs. apply (find_in_spec (ok := ok) heap heap_units); [apply Hok|by apply root_picks].
Qed.

(** The rest of the state after an operation. *)
Definition logged (log : InternStringLog) it it' : Prop :=
  transaction_ it' = (fun logs => log :: logs) <$> transaction_ it /\ weak_root_state_ it' = weak_root_state_ it.

Lemma InsertStrong_spec it s :
  table_valid (strong_interns_ it) -> valid s ->
  exists it', InsertStrong it s = Some (it', s) /\ table_valid (strong_interns_ it') /\
    strong it' ≡ₚ s :: strong it /\ weak_interns_ it' = weak_interns_ it /\
    logged (mkLog s kStrongString kInsert) it it'.
Proof.
  intros Ht Hs. unfold InsertStrong. cbv zeta.
  set (it1 := if log_new_roots_ _ then _ else _).
  assert (strong_interns_ it1 = strong_interns_ it) as E by (unfold it1; by destruct (log_new_roots_ _)).
  destruct (Table_Insert_spec (ok := ok) heap (strong_interns_ it1) s) as (tables' & -> & Ht' & Hp);
    [by rewrite E|done|].
  eexists. split; [done|]. split_and!; [done| | |].
  - unfold strong. simpl. by rewrite Hp, E.
  - unfold it1. by destruct (log_new_roots_ _).
  - unfold it1. by destruct (log_new_roots_ _).
Qed.

Lemma InsertWeak_spec it s :
  table_valid (weak_interns_ it) -> valid s ->
  exists it', InsertWeak it s = Some (it', s) /\ table_valid (weak_interns_ it') /\
    weak it' ≡ₚ s :: weak it /\ strong_interns_ it' = strong_interns_ it /\
    logged (mkLog s kWeakString kInsert) it it'.
Proof.
  intros Ht Hs. unfold InsertWeak. cbv zeta. simpl weak_interns_.
  destruct (Table_Insert_spec (ok := ok) heap (weak_interns_ it) s Ht Hs) as (tables' & -> & Ht' & Hp).
  eexists. split; [done|]. by split_and!.
Qed.

(** A string that is there is removed itself. *)
Lemma Table_Remove_exact tables s l :
  table_valid tables -> valid s -> NoDup (text <$> interned tables) -> interned tables ≡ₚ s :: l ->
  exists tables', Table_Remove tables s = Some tables' /\ table_valid tables' /\ interned tables' ≡ₚ l.
Proof.
  intros Ht Hs Hn Hp. assert (s ∈ interned tables) as Hin by (rewrite Hp; apply elem_of_cons; by left).
  destruct (Table_Remove_spec (ok := ok) heap heap_units tables s Ht Hs) as (tables' & s' & E & Ht' & Htx & Hp');
    [by exists s|].
  exists tables'. split_and!; try done.
  assert (s' = s) as ->.
  { apply (text_unique (interned tables)); try done. rewrite <- Hp'. apply elem_of_cons. by left. }
  rewrite Hp in Hp'. by apply Permutation_cons_inv in Hp'.
Qed.

Lemma RemoveWeak_spec it s l :
  table_valid (weak_interns_ it) -> valid s -> NoDup (text <$> weak it) -> weak it ≡ₚ s :: l ->
  exists it', RemoveWeak it s = Some it' /\ table_valid (weak_interns_ it') /\ weak it' ≡ₚ l /\
    strong_interns_ it' = strong_interns_ it /\ logged (mkLog s kWeakString kRemove) it it'.
Proof.
  intros Ht Hs Hn Hp. unfold RemoveWeak. cbv zeta. simpl weak_interns_.
  destruct (Table_Remove_exact (weak_interns_ it) s l Ht Hs Hn Hp) as (tables' & -> & Ht' & Hp').
  eexists. split; [done|]. by split_and!.
Qed.

Lemma RemoveStrong_spec it s l :
  table_valid (strong_interns_ it) -> valid s -> NoDup (text <$> strong it) -> strong it ≡ₚ s :: l ->
  exists it', RemoveStrong it s = Some it' /\ table_valid (strong_interns_ it') /\ strong it' ≡ₚ l /\
    weak_interns_ it' = weak_interns_ it /\ transaction_ it' = transaction_ it.
Proof.
  intros Ht Hs Hn Hp. unfold RemoveStrong.
  destruct (Table_Remove_exact (strong_interns_ it) s l Ht Hs Hn Hp) as (tables' & -> & Ht' & Hp').
  eexists. split; [done|]. by split_and!.
Qed.

(** ** Interning *)

(** The outcomes of interning [s]: the state, the string and what was logged. *)
Inductive intern_step it (s : JString) (is_strong : bool) : InternTable -> JString -> list InternStringLog -> Prop :=
| step_strong r : r ∈ strong it -> intern_step it s is_strong it r []
| step_weak r : is_strong = false -> r ∈ weak it -> intern_step it s is_strong it r []
| step_promote it' r l :
    is_strong = true -> weak it ≡ₚ r :: l -> weak it' ≡ₚ l -> strong it' ≡ₚ r :: strong it ->
    intern_step it s is_strong it' r [mkLog r kStrongString kInsert; mkLog r kWeakString kRemove]
| step_new_strong it' :
    is_strong = true -> (forall r, r ∈ strong it ++ weak it -> text r <> text s) ->
    weak it' = weak it -> strong it' ≡ₚ s :: strong it ->
    intern_step it s is_strong it' s [mkLog s kStrongString kInsert]
| step_new_weak it' :
    is_strong = false -> (forall r, r ∈ strong it ++ weak it -> text r <> text s) ->
    weak it' ≡ₚ s :: weak it -> strong it' = strong it ->
    intern_step it s is_strong it' s [mkLog s kWeakString kInsert].

Definition log_more (logs : list InternStringLog) it it' : Prop :=
  transaction_ it' = (fun l => logs ++ l) <$> transaction_ it /\ weak_root_state_ it' = weak_root_state_ it.

Lemma log_more_nil it : log_more [] it it.
Proof. split; [|done]. by destruct (transaction_ it). Qed.

Lemma not_interned it s :
  (forall r, r ∈ strong it -> text r <> text s) -> (forall r, r ∈ weak it -> text r <> text s) ->
  forall r, r ∈ strong it ++ weak it -> text r <> text s.
Proof. intros H1 H2 r Hr. apply elem_of_app in Hr as [?|?]; auto. Qed.

Lemma new_unique it s (l : list JString) :
  intern_ok it -> (forall r, r ∈ strong it ++ weak it -> text r <> text s) ->
  l ≡ₚ s :: strong it ++ weak it -> NoDup (text <$> l).
Proof.
  intros Hok Hno ->. rewrite fmap_cons. apply list.NoDup_cons. split; [|apply Hok].
  intros Hin. apply list_elem_of_fmap in Hin as (r & E & Hr). by apply (Hno r).
Qed.

(** Where no thread has to wait. *)
Definition accessible (read_barrier access : bool) it : Prop :=
  weak_accessible read_barrier access it = true /\ weak_check read_barrier access it = true.

Lemma Intern_spec read_barrier access it s is_strong holding_locks :
  intern_ok it -> valid s -> accessible read_barrier access it ->
  exists it' r logs, Intern read_barrier access it (Some s) is_strong holding_locks = Some (Interned it' (Some r)) /\
    intern_ok it' /\ valid r /\ text r = text s /\ log_more logs it it' /\ intern_step it s is_strong it' r logs.
Proof.
  intros Hok Hs [Hacc Hchk]. pose proof Hok as [Hst Hwk Hun]. unfold Intern.
  rewrite Hchk, Hacc, andb_false_r. cbn [negb].
  destruct (LookupStrong_spec it s Hok Hs) as ([r|] & -> & Hr); cbn [mbind option_bind].
  { destruct Hr as [Hin Htx]. exists it, r, []. split_and!; try done; [|apply log_more_nil|by constructor].
    by apply (interned_valid (ok := ok) heap _ _ (tv_sets _ _ Hst)). }
  destruct (LookupWeak_spec it s Hok Hs) as ([r|] & -> & Hr'); cbn [mbind option_bind].
  - destruct Hr' as [Hin Htx].
    pose proof (interned_valid (ok := ok) heap _ _ (tv_sets _ _ Hwk) Hin) as Hv.
    destruct is_strong.
    + apply elem_of_Permutation in Hin as [l Hp].
      assert (NoDup (text <$> weak it)) as Hnw by (rewrite fmap_app in Hun; by apply list.NoDup_app in Hun as (_ & _ & ?)).
      destruct (RemoveWeak_spec it r l Hwk Hv Hnw Hp) as (it1 & -> & Hwk1 & Hp1 & Es & L1 & L1').
      cbn [mbind option_bind].
      destruct (InsertStrong_spec it1 r) as (it2 & -> & Hst2 & Hp2 & Ew & L2 & L2'); [by rewrite Es|done|].
      cbn [mbind option_bind]. exists it2, r, [mkLog r kStrongString kInsert; mkLog r kWeakString kRemove].
      assert (strong it1 = strong it) as Es' by (unfold strong; by rewrite Es).
      assert (weak it2 = weak it1) as Ew' by (unfold weak; by rewrite Ew).
      split_and!; try done.
      * split; [done|by rewrite Ew|]. rewrite Hp2, Es', Ew', Hp1. rewrite Hp in Hun.
        by rewrite (Permutation_middle (strong it) l r : (r :: strong it) ++ l ≡ₚ _).
      * split; [|congruence]. rewrite L2, L1. by destruct (transaction_ it).
      * apply (step_promote _ _ _ _ _ l); try done; [by rewrite Ew'|by rewrite Hp2, Es'].
    + exists it, r, []. split_and!; try done; [apply log_more_nil|by constructor].
  - pose proof (not_interned it s Hr Hr') as Hno. destruct is_strong.
    + destruct (InsertStrong_spec it s Hst Hs) as (it' & -> & Hst' & Hp & Ew & L & L'). cbn [mbind option_bind].
      assert (weak it' = weak it) as Ew' by (unfold weak; by rewrite Ew).
      exists it', s, [mkLog s kStrongString kInsert]. split_and!; try done; [|by constructor].
      split; [done|by rewrite Ew|]. apply (new_unique it s); [done|done|]. by rewrite Hp, Ew'.
    + destruct (InsertWeak_spec it s Hwk Hs) as (it' & -> & Hwk' & Hp & Es & L & L'). cbn [mbind option_bind].
      assert (strong it' = strong it) as Es' by (unfold strong; by rewrite Es).
      exists it', s, [mkLog s kWeakString kInsert]. split_and!; try done; [|by constructor].
      split; [by rewrite Es|done|]. apply (new_unique it s); [done|done|]. rewrite Hp, Es'. by rewrite Permutation_middle.
Qed.

(** The string returned is in the tables, in the strong one if asked for. *)
Lemma step_contains it s is_strong it' r logs :
  intern_step it s is_strong it' r logs ->
  r ∈ strong it' ++ weak it' /\ (is_strong = true -> r ∈ strong it').
Proof.
  intros H. rewrite elem_of_app.
  destruct H as [r Hr|r -> Hr|it' r l -> Hw Hw' Hs|it' -> _ _ Hs|it' -> _ Hw _];
    [tauto|split; [tauto|done]| | |].
  - rewrite Hs. split; [left|intros _]; apply elem_of_cons; by left.
  - rewrite Hs. split; [left|intros _]; apply elem_of_cons; by left.
  - split; [|done]. right. rewrite Hw. apply elem_of_cons. by left.
Qed.

(** A text that is there is found again. *)
Lemma step_again it s is_strong it' r logs r0 :
  intern_ok it -> r0 ∈ strong it ++ weak it -> text r0 = text s -> text r = text s ->
  intern_step it s is_strong it' r logs -> r = r0.
Proof.
  intros Hok Hin E E' H. apply (text_unique (strong it ++ weak it)); [apply Hok| |done|congruence].
  rewrite elem_of_app. destruct H as [r Hr|r _ Hr|it' r l _ Hw _ _|it' _ Hno _ _|it' _ Hno _ _]; auto.
  - right. rewrite Hw. apply elem_of_cons. by left.
  - by destruct (Hno r0 Hin).
  - by destruct (Hno r0 Hin).
Qed.


(** ** Collections *)

Lemma marked_texts visitor (l : list JString) :
  marks heap visitor -> Forall valid l -> sublist (text <$> omap visitor l) (text <$> l).
Proof.
  intros Hm Hl. induction Hl as [|s l Hs _ IH]; [constructor|]. cbn.
  destruct (visitor s) as [s'|] eqn:E; [|by constructor].
  cbn. rewrite (proj2 (mk_valid _ _ Hm s s' Hs E)). by constructor.
Qed.

Lemma interned_all_valid tables : table_valid tables -> Forall valid (interned tables).
Proof.
  intros [Ht _]. apply List.Forall_forall. intros s Hin. apply list_elem_of_In in Hin.
  by apply (interned_valid (ok := ok) heap tables).
Qed.

(** C18. A sweep leaves of the weakly interned strings exactly those the collector
    found alive, at their new addresses, also when removals move strings from
    the front of a set behind the iterator; the strong table is untouched. *)
Theorem sweep_keeps_marked it visitor :
  intern_ok it -> marks heap visitor ->
  exists it', SweepInternTableWeaks it visitor = Some it' /\ intern_ok it' /\
    weak it' ≡ₚ omap visitor (weak it) /\ strong it' = strong it.
Proof.
  intros [Hst Hwk Hun] Hm. unfold SweepInternTableWeaks.
  destruct (Table_SweepWeaks_spec (ok := ok) heap heap_units visitor Hm (weak_interns_ it) Hwk) as (tables' & -> & Ht' & Hp).
  eexists. split; [done|]. split_and!; [|done|done]. split; [done|done|].
  unfold weak, strong in *. cbn [weak_interns_ strong_interns_ with_weak]. rewrite Hp.
  rewrite fmap_app in Hun |- *. eapply sublist_NoDup; [done|].
  apply sublist_app; [done|]. by apply marked_texts, interned_all_valid.
Qed.

(** The roots logged are strong interns, each logged once. *)
Definition roots_ok it : Prop := exists rest, strong it ≡ₚ new_strong_intern_roots_ it ++ rest.

Lemma valid_address s s' : valid s -> valid s' -> address s = address s' -> s = s'.
Proof. intros [a ->] [b ->]. simpl. by intros ->. Qed.

Lemma visit_new_roots_spec visitor roots tables done_ rest :
  moves heap visitor -> table_valid tables -> NoDup (text <$> interned tables) ->
  interned tables ≡ₚ done_ ++ roots ++ rest ->
  exists tables', visit_new_roots roots visitor tables = Some (visitor <$> roots, tables') /\
    table_valid tables' /\ interned tables' ≡ₚ done_ ++ (visitor <$> roots) ++ rest.
Proof.
  intros Hm. revert tables done_. induction roots as [|s roots IH]; intros tables done_ Ht Hn Hp; cbn [visit_new_roots].
  { by exists tables. }
  assert (s ∈ interned tables) as Hin by (rewrite Hp; rewrite elem_of_app; right; by left).
  pose proof (Forall_elem _ _ _ (interned_all_valid _ Ht) Hin) as Hs. destruct (Hm s Hs) as [Hv Htx].
  assert (exists tables1, (if negb (address (visitor s) =? address s)
            then strong ← Table_Remove tables s; Table_Insert strong (visitor s) else Some tables) = Some tables1 /\
            table_valid tables1 /\ interned tables1 ≡ₚ visitor s :: done_ ++ roots ++ rest) as (tables1 & -> & Ht1 & Hp1).
  { destruct (address (visitor s) =? address s) eqn:E; bools; cbn [negb].
    - exists tables. split_and!; try done. rewrite (valid_address _ _ Hv Hs E), Hp. by rewrite Permutation_middle.
    - destruct (move_root_spec (ok := ok) heap heap_units visitor Hm tables s Ht Hs Hin)
        as (tables1 & tables2 & -> & E2 & Ht2 & Hp2).
      { intros s' Hs' Htx'. by apply (text_unique (interned tables)). }
      exists tables2. split_and!; try done. rewrite Hp in Hp2. apply (Permutation_cons_inv (a := s)).
      rewrite Hp2, perm_swap. by rewrite (Permutation_middle done_ (roots ++ rest) s). }
  cbn [mbind option_bind].
  destruct (IH tables1 (visitor s :: done_)) as (tables' & -> & Ht' & Hp'); [done| |done|].
  { rewrite Hp1, fmap_cons, Htx, <- fmap_cons.
    rewrite (Permutation_middle done_ (roots ++ rest) s). rewrite Hp in Hn. done. }
  exists tables'. split_and!; try done. rewrite Hp'. simpl. by rewrite Permutation_middle.
Qed.

Lemma moved_texts visitor (l : list JString) :
  moves heap visitor -> Forall valid l -> text <$> (visitor <$> l) = text <$> l.
Proof.
  intros Hm Hl. induction Hl as [|s l Hs _ IH]; [done|]. rewrite !fmap_cons, IH. f_equal. by apply Hm.
Qed.

Definition has_flag (flags f : Z) : bool := negb (flags &&& f =? 0).

(** The strong interns after a visit. *)
Definition visited_strong it (visitor : JString -> JString) (flags : Z) (l : list JString) : Prop :=
  if has_flag flags kVisitRootFlagAllRoots then l = visitor <$> strong it
  else if has_flag flags kVisitRootFlagNewRoots then
    forall rest, strong it ≡ₚ new_strong_intern_roots_ it ++ rest ->
      l ≡ₚ (visitor <$> new_strong_intern_roots_ it) ++ rest
  else l = strong it.

Lemma unique_after it l (tables : list (HashSet (option JString) F)) :
  intern_ok it -> interned tables ≡ₚ l -> text <$> l ≡ₚ text <$> strong it ->
  NoDup (text <$> interned tables ++ weak it).
Proof. intros [_ _ Hun] -> E. rewrite fmap_app in Hun |- *. by rewrite E. Qed.

Lemma visit_tables_spec it visitor flags :
  intern_ok it -> roots_ok it -> moves heap visitor ->
  exists it1, (if negb (flags &&& kVisitRootFlagAllRoots =? 0) then
          strong ← Table_VisitRoots (strong_interns_ it) visitor;
          Some (with_strong strong it)
        else if negb (flags &&& kVisitRootFlagNewRoots =? 0) then
          '(roots, strong) ← visit_new_roots (new_strong_intern_roots_ it) visitor (strong_interns_ it);
          Some (with_strong strong (with_roots (log_new_roots_ it) roots it))
        else Some it) = Some it1 /\
    intern_ok it1 /\ weak it1 = weak it /\ visited_strong it visitor flags (strong it1) /\
    (has_flag flags kVisitRootFlagAllRoots = false -> roots_ok it1).
Proof.
  intros Hok [rest Hrest] Hm. pose proof Hok as [Hst Hwk Hun]. unfold visited_strong, has_flag.
  pose proof (interned_all_valid _ Hst) as Hval. change (interned (strong_interns_ it)) with (strong it) in Hval.
  destruct (negb (flags &&& kVisitRootFlagAllRoots =? 0)).
  - destruct (Table_VisitRoots_spec (ok := ok) heap heap_units visitor Hm _ Hst) as (tables' & -> & Ht' & E).
    eexists. split; [done|]. split_and!; try done. split; [done|done|].
    apply (unique_after it (visitor <$> strong it) tables'); [done|by rewrite E|by rewrite moved_texts].
  - destruct (negb (flags &&& kVisitRootFlagNewRoots =? 0)).
    + assert (NoDup (text <$> strong it)) as Hns by (rewrite fmap_app in Hun; by apply list.NoDup_app in Hun as (? & _ & _)).
      destruct (visit_new_roots_spec visitor (new_strong_intern_roots_ it) (strong_interns_ it) [] rest Hm Hst Hns Hrest)
        as (tables' & -> & Ht' & E).
      eexists. split; [done|]. split_and!; try done.
      * split; [done|done|]. eapply (unique_after it); [done|exact E|]. simpl.
        rewrite fmap_app, moved_texts, <- fmap_app by (done || (rewrite Hrest in Hval; by apply Forall_app in Hval as [? _])).
        by rewrite <- Hrest.
      * intros rest' Hrest'. rewrite Hrest in Hrest'. apply Permutation_app_inv_l in Hrest'.
        unfold strong at 1. cbn [strong_interns_ with_strong]. by rewrite E, Hrest'.
      * intros _. exists rest. exact E.
    + exists it. split_and!; try done. by exists rest.
Qed.

(** Visiting the strong roots, all of them or those logged since logging
    began, gives each the address the visitor gives it and leaves the table as
    one that finds every string, whose logged roots are again in it; the weak
    table is not visited. *)
Theorem visit_roots_moves it visitor flags :
  intern_ok it -> roots_ok it -> moves heap visitor ->
  exists it', VisitRoots it visitor flags = Some it' /\ intern_ok it' /\ weak it' = weak it /\
    visited_strong it visitor flags (strong it') /\
    ((has_flag flags kVisitRootFlagAllRoots = true -> has_flag flags kVisitRootFlagClearRootLog = true) ->
     roots_ok it').
Proof.
  intros Hok Hroots Hm. unfold VisitRoots.
  destruct (visit_tables_spec it visitor flags Hok Hroots Hm) as (it1 & -> & Hok1 & Ew & Hv & Hr).
  cbn [mbind option_bind]. cbv zeta. change (negb (flags &&& kVisitRootFlagClearRootLog =? 0))
    with (has_flag flags kVisitRootFlagClearRootLog).
  set (it2 := if has_flag flags kVisitRootFlagClearRootLog then _ else _).
  assert (intern_ok it2 /\ weak it2 = weak it1 /\ strong it2 = strong it1 /\
    ((has_flag flags kVisitRootFlagAllRoots = true -> has_flag flags kVisitRootFlagClearRootLog = true) ->
     roots_ok it2)) as (Hok2 & Ew2 & Es2 & Hr2).
  { subst it2. destruct Hok1. destruct (has_flag flags kVisitRootFlagClearRootLog); split_and!; try done.
    - intros _. by exists (strong it1).
    - intros H. apply Hr. destruct (has_flag flags kVisitRootFlagAllRoots); [by specialize (H eq_refl)|done]. }
  eexists. split; [done|]. destruct Hok2.
  destruct (negb (flags &&& kVisitRootFlagStartLoggingNewRoots =? 0));
    [|destruct (negb (flags &&& kVisitRootFlagStopLoggingNewRoots =? 0))];
    (split_and!; [done|by rewrite <- Ew, <- Ew2|by rewrite <- Es2 in Hv|exact Hr2]).
Qed.

(** ** Lookup of modified UTF-8 *)

Lemma compare_units_zero (l m : list Z) : (compare_units l m =? 0) = bool_decide (l = m).
Proof.
  revert m. induction l as [|x l IH]; intros [|y m]; cbn [compare_units]; try done.
  destruct (x =? y) eqn:E; bools.
  - subst. rewrite IH. apply bool_decide_ext. split; [by intros ->|by intros [= ->]].
  - rewrite bool_decide_eq_false_2 by congruence. by destruct (y <? x).
Qed.

Lemma StringEqualsUtf8_spec a u t hash :
  units u -> units t ->
  StringEqualsUtf8 (string_of a u) (mkUtf8 hash (Z.of_nat (length t)) (to_modified_utf8 t ++ [0])) =
  Some (bool_decide (u = t)).
Proof.
  intros Hu Ht. pose proof Hu as [Hu' Hn]. pose proof Ht as [Ht' Hnt]. unfold StringEqualsUtf8. cbv zeta.
  cbn [utf16_length_ utf8_data_]. rewrite string_length, string_compressed by done.
  rewrite wrap_u_id by (unfold in_u; lia).
  destruct (Z.of_nat (length u) =? Z.of_nat (length t)) eqn:El; bools; cbn [negb].
  2: { f_equal. symmetry. apply bool_decide_eq_false. congruence. }
  destruct (AllASCII u) eqn:Ea.
  - rewrite strlen_utf8 by done. cbn [mbind option_bind].
    rewrite (to_modified_utf8_loop t Ht'), CountModifiedUtf8Chars_prefix by done. cbn [mbind option_bind].
    rewrite Z.eqb_sym, ascii_count by done. destruct (AllASCII t) eqn:Et.
    + pose proof (ascii_count t Ht') as Hc. rewrite Et in Hc. bools. rewrite <- utf8_loop_length in Hc by done.
      destruct (utf8_loop_ascii t Ht') as [_ H]. destruct H as [-> _]; [lia|].
      rewrite array_from_spec by (rewrite ?length_app; simpl; lia). cbn [mbind option_bind].
      rewrite bytes_from_string by (done || lia). cbn [mbind option_bind].
      assert (length u = length t) as El' by lia.
      rewrite !drop_0, !Nat2Z.id, firstn_all, El', take_app_length. f_equal.
      apply bool_decide_ext. split; congruence.
    + f_equal. symmetry. apply bool_decide_eq_false. congruence.
  - rewrite chars_from_string by (done || lia). cbn [mbind option_bind].
    rewrite drop_0, Nat2Z.id, firstn_all. unfold CompareModifiedUtf8ToUtf16AsCodePointValues.
    rewrite to_modified_utf8_loop by done. rewrite compare_to_utf16_encoded by (done || (rewrite length_app; simpl; lia)).
    cbn [mbind option_bind]. rewrite compare_units_zero. f_equal. apply bool_decide_ext. split; congruence.
Qed.

Lemma utf8_picks t hash :
  units t -> hash = ComputeUtf16Hash t ->
  picks heap (utf8_equals (mkUtf8 hash (Z.of_nat (length t)) (to_modified_utf8 t ++ [0]))) (u32 hash) t.
Proof.
  intros Ht ->. split; [|done]. intros s [a ->]. unfold utf8_equals. rewrite StringEqualsUtf8_spec by done. done.
Qed.

(** C30. Looking up modified UTF-8, hashed and compared without conversion, finds
    in the strong table what looking up a string of that text finds. *)
Theorem utf8_lookup_agrees it s :
  intern_ok it -> valid s ->
  LookupStrongUtf8 it (Z.of_nat (length (text s))) (to_modified_utf8 (text s) ++ [0]) = LookupStrong it s.
Proof.
  intros Hok Hs. pose proof (heap_units (address s)) as [Ht Hn]. fold (text s) in Ht, Hn.
  unfold LookupStrongUtf8, ComputeUtf16HashFromModifiedUtf8. rewrite to_modified_utf8_loop by done.
  rewrite utf8_hash_encoded by (first [done | rewrite length_app; simpl; lia | unfold in_u; lia]).
  cbn [fmap option_fmap option_map mbind option_bind]. rewrite <- to_modified_utf8_loop by done.
  destruct (find_in_spec (ok := ok) heap heap_units (strong_interns_ it) _ _ _ (tv_sets _ _ (io_strong _ Hok))
              (utf8_picks (text s) (ComputeUtf16Hash (text s)) (conj Ht Hn) eq_refl)) as (r & E & Hr).
  unfold Table_FindUtf8, utf8_hash. cbn [hash_]. unfold ComputeUtf16Hash in E. rewrite E.
  destruct (LookupStrong_spec it s Hok Hs) as (r' & -> & Hr'). f_equal.
  destruct r as [r|], r' as [r'|]; try done.
  - destruct Hr as [Hin Htx], Hr' as [Hin' Htx']. f_equal.
    apply (text_unique (strong it ++ weak it)); [apply Hok|apply elem_of_app; by left|apply elem_of_app; by left|congruence].
  - destruct Hr as [Hin Htx]. by destruct (Hr' r Hin).
  - destruct Hr' as [Hin Htx]. by destruct (Hr r' Hin).
Qed.

(** ** Transactions *)

(** Undoing the log from the strings [S] and [W] gives [S0] and [W0]. *)
Inductive undoes (S0 W0 : list JString) : list InternStringLog -> list JString -> list JString -> Prop :=
| undoes_nil S W : S ≡ₚ S0 -> W ≡ₚ W0 -> undoes S0 W0 [] S W
| undoes_strong s logs S S' W :
    S ≡ₚ s :: S' -> NoDup (text <$> S) -> valid s -> undoes S0 W0 logs S' W ->
    undoes S0 W0 (mkLog s kStrongString kInsert :: logs) S W
| undoes_weak s logs S W W' :
    W ≡ₚ s :: W' -> NoDup (text <$> W) -> valid s -> undoes S0 W0 logs S W' ->
    undoes S0 W0 (mkLog s kWeakString kInsert :: logs) S W
| undoes_removal s logs S W :
    valid s -> undoes S0 W0 logs S (s :: W) -> undoes S0 W0 (mkLog s kWeakString kRemove :: logs) S W.

Lemma undoes_perm S0 W0 logs S W S' W' : S ≡ₚ S' -> W ≡ₚ W' -> undoes S0 W0 logs S W -> undoes S0 W0 logs S' W'.
Proof.
  intros HS HW H. revert S' W' HS HW.
  induction H as [S W H1 H2|s logs S S1 W Hp Hn Hv H IH|s logs S W W1 Hp Hn Hv H IH|s logs S W Hv H IH]; intros S' W' HS HW.
  - constructor; [by rewrite <- HS|by rewrite <- HW].
  - apply (undoes_strong _ _ s logs S' S1); [by rewrite <- HS|by rewrite <- HS|done|by apply IH].
  - apply (undoes_weak _ _ s logs S' W' W1); [by rewrite <- HW|by rewrite <- HW|done|by apply IH].
  - constructor; [done|]. apply IH; [done|by rewrite HW].
Qed.

Lemma undo_all_spec S0 W0 logs S W :
  undoes S0 W0 logs S W -> forall it, strong it ≡ₚ S -> weak it ≡ₚ W ->
  transaction_ it = None -> table_valid (strong_interns_ it) -> table_valid (weak_interns_ it) ->
  exists it', undo_all logs it = Some it' /\ table_valid (strong_interns_ it') /\ table_valid (weak_interns_ it') /\
    strong it' ≡ₚ S0 /\ weak it' ≡ₚ W0 /\ transaction_ it' = None.
Proof.
  induction 1 as [S W H1 H2|s logs S S1 W Hp Hn Hv H IH|s logs S W W1 Hp Hn Hv H IH|s logs S W Hv H IH];
    intros it ES EW Ht Hst Hwk; cbn [undo_all]; unfold Undo; cbn [string_op_ string_kind_ str_].
  - exists it. split_and!; try done; [by rewrite ES|by rewrite EW].
  - rewrite <- ES in Hp, Hn.
    destruct (RemoveStrong_spec it s S1 Hst Hv Hn Hp) as (it1 & -> & Hst1 & Hp1 & Ew & Et). cbn [mbind option_bind].
    apply IH; [done|unfold weak in *; by rewrite Ew|congruence|done|by rewrite Ew].
  - rewrite <- EW in Hp, Hn.
    destruct (RemoveWeak_spec it s W1 Hwk Hv Hn Hp) as (it1 & -> & Hwk1 & Hp1 & Es & Et & _). cbn [mbind option_bind].
    apply IH; [unfold strong in *; by rewrite Es|done|by rewrite Et, Ht|by rewrite Es|done].
  - destruct (InsertWeak_spec it s Hwk Hv) as (it1 & -> & Hwk1 & Hp1 & Es & Et & _).
    cbn [mbind option_bind fmap option_fmap option_map fst].
    apply IH; [unfold strong in *; by rewrite Es|by rewrite Hp1, EW|by rewrite Et, Ht|by rewrite Es|done].
Qed.

Lemma unique_parts it : intern_ok it -> NoDup (text <$> strong it) /\ NoDup (text <$> weak it).
Proof. intros [_ _ Hun]. rewrite fmap_app in Hun. apply list.NoDup_app in Hun as (? & _ & ?). done. Qed.

(** What an interning logged is undone first. *)
Lemma step_undoes S0 W0 it s is_strong it' r logs old :
  intern_ok it -> intern_ok it' -> valid r -> intern_step it s is_strong it' r logs ->
  undoes S0 W0 old (strong it) (weak it) -> undoes S0 W0 (logs ++ old) (strong it') (weak it').
Proof.
  intros Hok Hok' Hv H Hu. destruct (unique_parts it' Hok') as [Hns Hnw].
  destruct H as [r Hr|r _ Hr|it' r l _ Hw Hw' Hs|it' _ _ Hw Hs|it' _ _ Hw Hs]; [done|done| | |]; simpl.
  - apply (undoes_strong _ _ r _ _ (strong it)); [done|done|done|]. constructor; [done|].
    apply (undoes_perm _ _ _ (strong it) (weak it)); [done|by rewrite Hw, Hw'|done].
  - apply (undoes_strong _ _ s _ _ (strong it)); try done. by rewrite Hw.
  - apply (undoes_weak _ _ s _ _ _ (weak it)); try done. by rewrite Hs.
Qed.

(** A sequence of calls of [Insert] by a thread that need not wait. *)
Fixpoint intern_all (read_barrier access : bool) it (calls : list (JString * bool)) :
    option (InternTable * list JString) :=
  match calls with
  | [] => Some (it, [])
  | (s, is_strong) :: calls =>
      result ← Intern read_barrier access it (Some s) is_strong false;
      match result with
      | Interned it (Some r) =>
          '(it, rs) ← intern_all read_barrier access it calls;
          Some (it, r :: rs)
      | _ => None
      end
  end.

Lemma intern_all_spec read_barrier access calls S0 W0 it logs :
  Forall (fun call => valid (fst call)) calls -> intern_ok it -> accessible read_barrier access it ->
  transaction_ it = Some logs -> undoes S0 W0 logs (strong it) (weak it) ->
  exists it' rs logs', intern_all read_barrier access it calls = Some (it', rs) /\ intern_ok it' /\
    Forall2 (fun call r => text r = text (fst call)) calls rs /\
    transaction_ it' = Some logs' /\ undoes S0 W0 logs' (strong it') (weak it').
Proof.
  intros Hc. revert it logs. induction Hc as [|[s is_strong] calls Hs Hc IH]; intros it logs Hok Hacc Ht Hu;
    cbn [intern_all].
  { exists it, [], logs. split_and!; try done. }
  destruct (Intern_spec read_barrier access it s is_strong false Hok Hs Hacc)
    as (it1 & r & logs1 & -> & Hok1 & Hv & Htx & [Hl Hst] & Hstep). cbn [mbind option_bind].
  rewrite Ht in Hl. simpl in Hl.
  destruct (IH it1 (logs1 ++ logs)) as (it' & rs & logs' & -> & Hok' & Hall & Ht' & Hu'); try done.
  { unfold accessible, weak_accessible, weak_check in *. by rewrite Hst. }
  { by apply (step_undoes _ _ it s is_strong it1 r logs1 logs). }
  cbn [mbind option_bind]. exists it', (r :: rs), logs'. split_and!; try done. by constructor.
Qed.

(** C16. Rolling a transaction back restores the intern table: after any sequence
    of strong and weak internings in the transaction, promotions from the weak to
    the strong table included, undoing its log finds every string it has to
    remove and leaves both tables with the strings they had. *)
Theorem rollback_restores_interns read_barrier access it calls :
  intern_ok it -> transaction_ it = None -> accessible read_barrier access it ->
  Forall (fun call => valid (fst call)) calls ->
  exists it1 rs it2, intern_all read_barrier access (EnterTransaction it) calls = Some (it1, rs) /\
    Forall2 (fun call r => text r = text (fst call)) calls rs /\
    Rollback it1 = Some it2 /\ intern_ok it2 /\ transaction_ it2 = None /\
    strong it2 ≡ₚ strong it /\ weak it2 ≡ₚ weak it.
Proof.
  intros [Hst Hwk Hun] Ht Hacc Hc.
  destruct (intern_all_spec read_barrier access calls (strong it) (weak it) (EnterTransaction it) [])
    as (it1 & rs & logs & E & [Hst1 Hwk1 _] & Hall & Ht1 & Hu); try done; [by constructor|].
  destruct (undo_all_spec _ _ _ _ _ Hu (with_transaction None it1)) as (it2 & E2 & Hst2 & Hwk2 & Es & Ew & Ht2); try done.
  exists it1, rs, it2. unfold Rollback. rewrite Ht1. split_and!; try done.
  split; try done. by rewrite Es, Ew.
Qed.

End Spec.

(** ** Witnesses *)

Import SampleSet.

(** Three strings at four addresses. *)
Module SampleInterns.
Definition heap (a : Z) : list Z :=
  if a =? 16 then [0x61] else if a =? 24 then [0x61] else if a =? 32 then [0xe9; 0x62] else [].
Lemma heap_units a : units (heap a).
Proof.
  unfold heap. destruct (a =? 16); [|destruct (a =? 24); [|destruct (a =? 32)]];
    (split; [repeat constructor; unfold in_u; lia|done]).
Qed.
Definition str (a : Z) : JString := string_of a (heap a).
Definition table : InternTable (F := Z) := default (mkIntern false [] [] [] kWeakRootStateNormal None)
  (new_intern_table 400 700 400 700).
Definition filled : InternTable (F := Z) :=
  default table (fst <$> intern_all false true table [(str 16, false); (str 32, true)]).

Lemma factor_400 : factor 400.
Proof. unfold factor. lia. Qed.
Lemma factor_700 : factor 700.
Proof. unfold factor. lia. Qed.

Lemma str_valid a : valid heap (str a).
Proof. by exists a. Qed.

Lemma table_ok : intern_ok (ok := factor) heap table.
Proof.
  destruct (new_intern_table_ok (ok := factor) 400 700 400 700 factor_400 factor_700 factor_400 factor_700 heap)
    as (it & E & Hok & _ & _).
  unfold table. by rewrite E.
Qed.

Lemma filled_ok : intern_ok (ok := factor) heap filled.
Proof.
  destruct (Intern_spec (ok := factor) heap heap_units false true table (str 16) false false table_ok (str_valid 16))
    as (it1 & r1 & logs1 & E1 & Hok1 & _ & _ & [_ L1] & _); [by split|].
  destruct (Intern_spec (ok := factor) heap heap_units false true it1 (str 32) true false Hok1 (str_valid 32))
    as (it2 & r2 & logs2 & E2 & Hok2 & _).
  { unfold accessible, weak_accessible, weak_check. rewrite L1. by split. }
  unfold filled. cbn [intern_all]. rewrite E1. cbn [mbind option_bind]. rewrite E2. done.
Qed.

(** The first string has moved, any other is dead. *)
Definition is_marked (s : JString) : option JString :=
  if (address s =? 16) || (address s =? 24) then Some (str 24) else None.
Lemma is_marked_marks : marks heap is_marked.
Proof.
  unfold is_marked. split; intros s s' [a ->]; simpl address;
    destruct ((a =? 16) || (a =? 24)) eqn:E; intros [= <-]; [|done].
  split; [apply str_valid|]. unfold text. simpl. apply orb_true_iff in E as [E|E]; bools; by subst.
Qed.
End SampleInterns.
Import SampleInterns.


Lemma sweep_keeps_marked_witness :
  (exists it', SweepInternTableWeaks filled is_marked = Some it' /\ intern_ok (ok := factor) heap it' /\
    weak it' ≡ₚ omap is_marked (weak filled) /\ strong it' = strong filled) /\
  omap is_marked (weak filled) = [str 24].
Proof.
  split; [|vm_compute; reflexivity].
  apply (sweep_keeps_marked (ok := factor) heap heap_units filled is_marked); [exact filled_ok|exact is_marked_marks].
Defined.

Lemma visit_roots_moves_witness :
  exists it', VisitRoots filled id 1 = Some it' /\ intern_ok (ok := factor) heap it' /\ weak it' = weak filled /\
    visited_strong filled id 1 (strong it') /\
    ((has_flag 1 kVisitRootFlagAllRoots = true -> has_flag 1 kVisitRootFlagClearRootLog = true) -> roots_ok it').
Proof.
  apply (visit_roots_moves (ok := factor) heap heap_units filled id 1).
  - exact filled_ok.
  - exists (strong filled). vm_compute. reflexivity.
  - intros s Hs. by split.
Defined.

Lemma utf8_lookup_agrees_witness :
  LookupStrongUtf8 filled 2 [0xc3; 0xa9; 0x62; 0] = LookupStrong filled (str 32) /\
  LookupStrong filled (str 32) = Some (Some (str 32)).
Proof.
  split; [|vm_compute; reflexivity].
  apply (utf8_lookup_agrees (ok := factor) heap heap_units filled (str 32)); [exact filled_ok|apply str_valid].
Defined.

Lemma rollback_restores_interns_witness :
  exists it1 rs it2, intern_all false true (EnterTransaction filled) [(str 24, true); (str 8, false)] = Some (it1, rs) /\
    Forall2 (fun call r => text heap r = text heap (fst call)) [(str 24, true); (str 8, false)] rs /\
    Rollback it1 = Some it2 /\ intern_ok (ok := factor) heap it2 /\ transaction_ it2 = None /\
    strong it2 ≡ₚ strong filled /\ weak it2 ≡ₚ weak filled.
Proof.
  apply (rollback_restores_interns (ok := factor) heap heap_units false true filled [(str 24, true); (str 8, false)]).
  - exact filled_ok.
  - vm_compute. reflexivity.
  - split; vm_compute; reflexivity.
  - repeat (apply List.Forall_cons; [apply str_valid|]). apply List.Forall_nil.
Defined.
