(* ===== verification/Descriptors.v ===== *)
(** * Names and descriptors ([runtime/utils.cc])

    The syntax check of member names, class names and type descriptors on
    modified UTF-8.  As in [Utf], a [const char*] is the list of bytes from the
    pointer on, and [None] is a read beyond the list. *)
From Stdlib Require Import String Ascii.
From S2P Require Import Prelude Utf.

(** The bytes of a C string, with its terminator. *)
Fixpoint bytes_of (s : string) : list Z :=
  match s with
  | EmptyString => [0]
  | String c s => Z.of_nat (nat_of_ascii c) :: bytes_of s
  end.

Definition DEX_MEMBER_VALID_LOW_ASCII : list Z :=
  [0x00000000; 0x03ff2010; 0x87fffffe; 0x07fffffe].

Definition IsValidPartOfMemberNameUtf8Slow (p : list Z) : option (bool * list Z) :=
  '(maybe_pair, p) ← GetUtf16FromUtf8 p;
  let leading := GetLeadingUtf16Char maybe_pair in
  if negb (GetTrailingUtf16Char maybe_pair =? 0) then Some (true, p)
  else
    let high := leading >> 8 in
    if high =? 0x00 then Some (0x00a0 <? leading, p)
    else if (0xd8 <=? high) && (high <=? 0xdb) then
      '(pair2, p) ← GetUtf16FromUtf8 p;
      let trailing := GetLeadingUtf16Char pair2 in
      Some ((GetTrailingUtf16Char pair2 =? 0) && (0xdc00 <=? trailing) && (trailing <=? 0xdfff), p)
    else if (0xdc <=? high) && (high <=? 0xdf) then Some (false, p)
    else if (high =? 0x20) || (high =? 0xff) then
      let block := leading &&& 0xfff8 in
      Some (negb ((block =? 0x2000) || (block =? 0x2008) || (block =? 0x2028)
                  || (block =? 0xfff0) || (block =? 0xfff8)), p)
    else Some (true, p).

Definition IsValidPartOfMemberNameUtf8 (p : list Z) : option (bool * list Z) :=
  '(c, rest) ← read_byte p;
  if c <=? 0x7f then
    word ← DEX_MEMBER_VALID_LOW_ASCII !! Z.to_nat (c >> 5);
    Some (negb (word &&& (1 << (c &&& 0x1f)) =? 0), rest)
  else IsValidPartOfMemberNameUtf8Slow p.

(** The character codes the code compares with. *)
Definition chr_slash : Z := 47.
Definition chr_dot : Z := 46.
Definition chr_semicolon : Z := 59.
Definition chr_less : Z := 60.
Definition chr_greater : Z := 62.
Definition chr_bracket : Z := 91.
Definition chr_L : Z := 76.
Definition chr_V : Z := 86.

Definition deref (p : list Z) : option Z := head p.

(** Every turn consumes at least one byte. *)
Fixpoint IsValidMemberName_loop (fuel : nat) (angle_name : bool) (s : list Z) : option bool :=
  match fuel with
  | O => None
  | S fuel =>
      c ← deref s;
      if c =? 0 then Some (negb angle_name)
      else if c =? chr_greater then
        if angle_name then next ← deref (tail s); Some (next =? 0) else Some false
      else
        '(valid, s) ← IsValidPartOfMemberNameUtf8 s;
        if valid : bool then IsValidMemberName_loop fuel angle_name s else Some false
  end.
Definition IsValidMemberName (s : list Z) : option bool :=
  c ← deref s;
  if c =? 0 then Some false
  else if c =? chr_less then IsValidMemberName_loop (length s) true (tail s)
  else IsValidMemberName_loop (S (length s)) false s.

Inductive ClassNameType := kName | kDescriptor.

Fixpoint skip_brackets (s : list Z) (arrayCount : Z) : Z * list Z :=
  match s with
  | c :: rest => if c =? chr_bracket then skip_brackets rest (arrayCount + 1) else (arrayCount, s)
  | [] => (arrayCount, [])
  end.

(** The characters of a class name behind the [L]. *)
Fixpoint class_name_loop (type : ClassNameType) (kSeparator : Z) (fuel : nat) (sepOrFirst : bool)
    (s : list Z) : option bool :=
  match fuel with
  | O => None
  | S fuel =>
      c ← deref s;
      if c =? 0 then
        Some (match type with kName => negb sepOrFirst | kDescriptor => false end)
      else if c =? chr_semicolon then
        match type with
        | kName => Some false
        | kDescriptor =>
            if sepOrFirst then Some false else next ← deref (tail s); Some (next =? 0)
        end
      else if (c =? chr_slash) || (c =? chr_dot) then
        if negb (c =? kSeparator) || sepOrFirst then Some false
        else class_name_loop type kSeparator fuel true (tail s)
      else
        '(valid, s) ← IsValidPartOfMemberNameUtf8 s;
        if valid : bool then class_name_loop type kSeparator fuel false s else Some false
  end.

(** [B C D F I J S Z] *)
Definition is_primitive_char (c : Z) : bool :=
  existsb (fun d => c =? d) [66; 67; 68; 70; 73; 74; 83; 90].

Definition IsValidClassName (kType : ClassNameType) (kSeparator : Z) (s : list Z) : option bool :=
  let '(arrayCount, s) := skip_brackets s 0 in
  if 255 <? arrayCount then Some false
  else
    let type := if arrayCount =? 0 then kType else kDescriptor in
    match type with
    | kName => class_name_loop type kSeparator (S (length s)) true s
    | kDescriptor =>
        c ← deref s;
        let s := tail s in
        if is_primitive_char c then next ← deref s; Some (next =? 0)
        else if c =? chr_V then
          if arrayCount =? 0 then next ← deref s; Some (next =? 0) else Some false
        else if c =? chr_L then class_name_loop type kSeparator (S (length s)) true s
        else Some false
    end.

Definition IsValidBinaryClassName (s : list Z) : option bool := IsValidClassName kName chr_dot s.
Definition IsValidJniClassName (s : list Z) : option bool := IsValidClassName kName chr_slash s.
Definition IsValidDescriptor (s : list Z) : option bool := IsValidClassName kDescriptor chr_slash s.
