(* ===== verification/MirrorClass.v ===== *)
(** * Class objects ([runtime/mirror/class.h], [class-inl.h], [class.cc],
      [runtime/primitive.h])

    The part of [mirror::Class] the verifier asks about: the superclass chain,
    component types, the interface table and access flags, and from them
    assignability.  A class is known by its address; the class objects form a
    table the queries read.  The class linker's invariants are collected in
    [ClassHierarchy]; under them assignability is a preorder. *)
From Stdlib Require Import String Ascii.
From S2P Require Import Prelude.

(** ** Primitive types *)

Inductive Primitive :=
| kPrimNot | kPrimBoolean | kPrimByte | kPrimChar | kPrimShort | kPrimInt | kPrimLong
| kPrimFloat | kPrimDouble | kPrimVoid.

#[export] Instance Primitive_eq_dec : EqDecision Primitive.
Proof. solve_decision. Defined.

Definition kObjectReferenceSize : Z := 4.
Definition ComponentSize (type : Primitive) : Z :=
  match type with
  | kPrimVoid => 0
  | kPrimBoolean | kPrimByte => 1
  | kPrimChar | kPrimShort => 2
  | kPrimInt | kPrimFloat => 4
  | kPrimLong | kPrimDouble => 8
  | kPrimNot => kObjectReferenceSize
  end.

(** [LOG(FATAL)] on [kPrimNot] is the empty string. *)
Definition Primitive_Descriptor (type : Primitive) : string :=
  match type with
  | kPrimBoolean => "Z" | kPrimByte => "B" | kPrimChar => "C" | kPrimShort => "S"
  | kPrimInt => "I" | kPrimFloat => "F" | kPrimLong => "J" | kPrimDouble => "D"
  | kPrimVoid => "V"
  | kPrimNot => EmptyString
  end.

(** ** Class objects *)

Definition kAccPublic : Z := 0x0001.
Definition kAccFinal : Z := 0x0010.
Definition kAccInterface : Z := 0x0200.
Definition kAccAbstract : Z := 0x0400.

Definition kStatusErrorResolved : Z := -2.
Definition kStatusErrorUnresolved : Z := -1.
Definition kStatusResolved : Z := 4.

(** [dex_descriptor_] is the descriptor in the dex file of a class that is
    neither primitive nor an array; [field_access_flags_] are those of the
    instance fields. *)
Record Class := {
  super_class_ : option Z;
  component_type_ : option Z;
  access_flags_ : Z;
  primitive_type_ : Primitive;
  iftable_ : list Z;
  dex_descriptor_ : string;
  class_loader_ : Z;
  status_ : Z;
  field_access_flags_ : list Z
}.

(** The class objects and a bound on the length of their superclass and
    component chains, the fuel of the queries below. *)
Record ClassTable := { class_at : Z -> Class; max_chain : nat }.

Section Queries.
Context (CT : ClassTable).

Definition GetSuperClass (k : Z) : option Z := super_class_ (class_at CT k).
Definition GetComponentType (k : Z) : option Z := component_type_ (class_at CT k).
Definition GetPrimitiveTypeOf (k : Z) : Primitive := primitive_type_ (class_at CT k).
Definition has_flag (k flag : Z) : bool := negb (access_flags_ (class_at CT k) &&& flag =? 0).

Definition IsInterface (k : Z) : bool := has_flag k kAccInterface.
Definition IsPublic (k : Z) : bool := has_flag k kAccPublic.
Definition IsFinal (k : Z) : bool := has_flag k kAccFinal.
Definition IsAbstract (k : Z) : bool := has_flag k kAccAbstract.
Definition IsPrimitive (k : Z) : bool := negb (bool_decide (GetPrimitiveTypeOf k = kPrimNot)).
Definition IsArrayClass (k : Z) : bool := bool_decide (GetComponentType k <> None).
Definition IsObjectClass (k : Z) : bool :=
  negb (IsPrimitive k) && bool_decide (GetSuperClass k = None).
Definition IsErroneous (k : Z) : bool :=
  (status_ (class_at CT k) =? kStatusErrorUnresolved)
  || (status_ (class_at CT k) =? kStatusErrorResolved).
Definition IsResolved (k : Z) : bool :=
  (kStatusResolved <=? status_ (class_at CT k))
  || (status_ (class_at CT k) =? kStatusErrorResolved).
Definition IsInstantiable (k : Z) : bool :=
  (negb (IsPrimitive k) && negb (IsInterface k) && negb (IsAbstract k))
  || (IsAbstract k && IsArrayClass k).

(** [for (klass = this; klass->GetSuperClass() != nullptr; ...) depth++] *)
Fixpoint Depth_loop (fuel : nat) (klass depth : Z) : Z :=
  match fuel, GetSuperClass klass with
  | S fuel, Some super => Depth_loop fuel super (u32 (depth + 1))
  | _, _ => depth
  end.
Definition Depth (k : Z) : Z := Depth_loop (max_chain CT) k 0.

(** [do { if (current == klass) return true; ... } while (current != nullptr)] *)
Fixpoint IsSubClass_loop (fuel : nat) (current klass : Z) : bool :=
  if current =? klass then true
  else
    match fuel, GetSuperClass current with
    | S fuel, Some super => IsSubClass_loop fuel super klass
    | _, _ => false
    end.
Definition IsSubClass (this klass : Z) : bool := IsSubClass_loop (max_chain CT) this klass.

Definition Implements (this klass : Z) : bool :=
  existsb (fun i => i =? klass) (iftable_ (class_at CT this)).

(** [IsAssignableFromArray] and [IsArrayAssignableFromArray], given the test on
    component types; a null component is not dereferenced. *)
Definition IsAssignableFromArray (assignable : Z -> Z -> bool) (this src : Z) : bool :=
  match GetComponentType this, GetComponentType src with
  | None, _ => bool_decide (GetSuperClass src = Some this)
  | Some this_ct, Some src_ct => assignable this_ct src_ct
  | Some _, None => false
  end.

Fixpoint IsAssignableFrom_rec (fuel : nat) (this src : Z) : bool :=
  if this =? src then true
  else if IsObjectClass this then negb (IsPrimitive src)
  else if IsInterface this then Implements src this
  else if IsArrayClass src then
    match fuel with
    | S fuel => IsAssignableFromArray (IsAssignableFrom_rec fuel) this src
    | O => false
    end
  else negb (IsInterface src) && IsSubClass src this.
Definition IsAssignableFrom (this src : Z) : bool := IsAssignableFrom_rec (max_chain CT) this src.

Fixpoint CannotBeAssignedFromOtherTypes_rec (fuel : nat) (k : Z) : bool :=
  match GetComponentType k, fuel with
  | None, _ => IsFinal k
  | Some component, S fuel =>
      IsPrimitive component || CannotBeAssignedFromOtherTypes_rec fuel component
  | Some component, O => IsPrimitive component
  end.
Definition CannotBeAssignedFromOtherTypes (k : Z) : bool :=
  CannotBeAssignedFromOtherTypes_rec (max_chain CT) k.

(** [GetDescriptor] and [GetArrayDescriptor] *)
Fixpoint GetDescriptor_rec (fuel : nat) (k : Z) : string :=
  if IsPrimitive k then Primitive_Descriptor (GetPrimitiveTypeOf k)
  else
    match GetComponentType k, fuel with
    | Some component, S fuel => String "["%char (GetDescriptor_rec fuel component)
    | _, _ => dex_descriptor_ (class_at CT k)
    end.
Definition GetDescriptor (k : Z) : string := GetDescriptor_rec (max_chain CT) k.

(** ** Access *)

Fixpoint has_slash (s : string) : bool :=
  match s with String c s => Ascii.eqb c "/"%char || has_slash s | EmptyString => false end.
(** Behind the common prefix no descriptor has another separator. *)
Fixpoint IsInSamePackage_descriptors (descriptor1 descriptor2 : string) : bool :=
  match descriptor1, descriptor2 with
  | String c1 s1, String c2 s2 =>
      if Ascii.eqb c1 c2 then IsInSamePackage_descriptors s1 s2
      else negb (has_slash descriptor1 || has_slash descriptor2)
  | _, _ => negb (has_slash descriptor1 || has_slash descriptor2)
  end.

(** [while (klass->IsArrayClass()) klass = klass->GetComponentType()] *)
Fixpoint element_class_loop (fuel : nat) (k : Z) : Z :=
  match fuel, GetComponentType k with
  | S fuel, Some component => element_class_loop fuel component
  | _, _ => k
  end.
Definition element_class (k : Z) : Z := element_class_loop (max_chain CT) k.

Definition IsInSamePackage (this that : Z) : bool :=
  if this =? that then true
  else if negb (class_loader_ (class_at CT this) =? class_loader_ (class_at CT that)) then false
  else
    let klass1 := element_class this in
    let klass2 := element_class that in
    (klass1 =? klass2)
    || IsInSamePackage_descriptors (GetDescriptor klass1) (GetDescriptor klass2).
Definition CanAccess (this that : Z) : bool := IsPublic that || IsInSamePackage this that.

(** ** [RegType::ClassJoin] ([runtime/verifier/reg_type.cc]) *)

(** [while (depth > target) { klass = klass->GetSuperClass(); depth--; }] *)
Fixpoint raise_to (fuel : nat) (klass depth target : Z) : option Z :=
  if target <? depth then
    match fuel, GetSuperClass klass with
    | S fuel, Some super => raise_to fuel super (depth - 1) target
    | _, _ => None
    end
  else Some klass.

(** [while (s != t) { s = s->GetSuperClass(); t = t->GetSuperClass(); }] *)
Fixpoint common_parent (fuel : nat) (s t : Z) : option Z :=
  if s =? t then Some s
  else
    match fuel, GetSuperClass s, GetSuperClass t with
    | S fuel, Some s, Some t => common_parent fuel s t
    | _, _, _ => None
    end.

(** The join, null when an array class cannot be made, or a null dereference. *)
Inductive Join := Joined (k : Z) | JoinNull | JoinCrash.

Definition join_of (o : option Z) : Join := match o with Some k => Joined k | None => JoinCrash end.

Definition join_parents (s t : Z) : Join :=
  let s_depth := Depth s in
  let t_depth := Depth t in
  match (if t_depth <? s_depth then raise_to (max_chain CT) s s_depth t_depth else Some s),
        (if s_depth <? t_depth then raise_to (max_chain CT) t t_depth s_depth else Some t) with
  | Some s, Some t => join_of (common_parent (max_chain CT) s t)
  | _, _ => JoinCrash
  end.

Context (FindArrayClass : Z -> option Z).

Fixpoint ClassJoin_rec (fuel : nat) (s t : Z) : Join :=
  if s =? t then Joined s
  else if IsAssignableFrom s t then Joined s
  else if IsAssignableFrom t s then Joined t
  else
    match GetComponentType s, GetComponentType t with
    | Some s_ct, Some t_ct =>
        if IsPrimitive s_ct || IsPrimitive t_ct then join_of (GetSuperClass s)
        else
          match fuel with
          | O => JoinCrash
          | S fuel =>
              match ClassJoin_rec fuel s_ct t_ct with
              | Joined common_elem =>
                  match FindArrayClass common_elem with
                  | Some array_class => Joined array_class
                  | None => JoinNull
                  end
              | j => j
              end
          end
    | _, _ => join_parents s t
    end.
Definition ClassJoin (s t : Z) : Join := ClassJoin_rec (max_chain CT) s t.
End Queries.

(** ** What the class linker keeps true *)

Class ClassHierarchy (CT : ClassTable) := {
  java_lang_Object : Z;
  array_iftable_ : list Z;
  rank : Z -> nat;
  h_rank k : (rank k <= max_chain CT)%nat;
  h_bound : Z.of_nat (max_chain CT) < 2 ^ 32;
  h_rank_super k s : GetSuperClass CT k = Some s -> (rank s < rank k)%nat;
  h_rank_component k c : GetComponentType CT k = Some c -> (rank c < rank k)%nat;
  h_object : IsObjectClass CT java_lang_Object = true;
  h_object_plain :
    IsInterface CT java_lang_Object = false /\ GetComponentType CT java_lang_Object = None /\
    iftable_ (class_at CT java_lang_Object) = [];
  h_root k : IsObjectClass CT k = true -> k = java_lang_Object;
  h_primitive k : IsPrimitive CT k = true ->
    GetSuperClass CT k = None /\ GetComponentType CT k = None /\ IsInterface CT k = false /\
    iftable_ (class_at CT k) = [];
  h_super k s : GetSuperClass CT k = Some s ->
    IsInterface CT s = false /\ GetComponentType CT s = None /\ IsPrimitive CT s = false;
  h_array k c : GetComponentType CT k = Some c ->
    GetSuperClass CT k = Some java_lang_Object /\ IsInterface CT k = false /\
    iftable_ (class_at CT k) = array_iftable_;
  h_interface k : IsInterface CT k = true -> GetSuperClass CT k = Some java_lang_Object;
  h_iftable_super k s : GetSuperClass CT k = Some s ->
    iftable_ (class_at CT s) ⊆ iftable_ (class_at CT k);
  h_iftable_closed k i : i ∈ iftable_ (class_at CT k) ->
    iftable_ (class_at CT i) ⊆ iftable_ (class_at CT k)
}.

Section Hierarchy.
Context {CT : ClassTable} {CH : ClassHierarchy CT}.
Notation object := (java_lang_Object (CT := CT)).
Notation iftable k := (iftable_ (class_at CT k)).

Lemma Implements_spec k i : Implements CT k i = true <-> i ∈ iftable k.
Proof.
  unfold Implements. rewrite existsb_exists. setoid_rewrite Z.eqb_eq. split.
  - intros (x & Hx & ->). by apply list_elem_of_In.
  - intros H. exists i. split; [by apply list_elem_of_In|done].
Qed.

Lemma IsObjectClass_spec k : IsObjectClass CT k = true <-> k = object.
Proof. split; [apply h_root|intros ->; apply h_object]. Qed.

Lemma object_not_primitive : IsPrimitive CT object = false.
Proof. pose proof h_object as H. apply andb_prop in H as [H _]. by apply negb_true_iff in H. Qed.
Lemma object_no_super : GetSuperClass CT object = None.
Proof. pose proof h_object as H. apply andb_prop in H as [_ H]. by apply bool_decide_eq_true in H. Qed.

Lemma super_not_primitive k s : GetSuperClass CT k = Some s -> IsPrimitive CT k = false.
Proof.
  intros H. destruct (IsPrimitive CT k) eqn:E; [|done].
  apply h_primitive in E as [E _]. by rewrite H in E.
Qed.

(** ** Ancestors *)

Inductive ancestor : Z -> Z -> Prop :=
| ancestor_refl k : ancestor k k
| ancestor_super k s a : GetSuperClass CT k = Some s -> ancestor s a -> ancestor k a.

Lemma ancestor_trans a b c : ancestor a b -> ancestor b c -> ancestor a c.
Proof. induction 1; [done|]. intros. econstructor; eauto. Qed.

Lemma ancestor_of_object a : ancestor object a -> a = object.
Proof. inversion 1 as [|? s ? Hs]; [done|]. by rewrite object_no_super in Hs. Qed.

Lemma ancestor_iftable k a : ancestor k a -> iftable a ⊆ iftable k.
Proof. induction 1 as [|k s a Hs _ IH]; [done|]. etrans; [exact IH|by apply h_iftable_super]. Qed.

Lemma ancestor_proper k a : ancestor k a -> a <> k ->
  IsInterface CT a = false /\ GetComponentType CT a = None /\ IsPrimitive CT a = false.
Proof.
  induction 1 as [|k s a Hs Ha IH]; intros Hne; [done|].
  destruct (decide (a = s)) as [->|]; [by eapply h_super|by apply IH].
Qed.

Lemma ancestor_short k a :
  ancestor k a -> a <> k -> IsInterface CT k = true \/ IsArrayClass CT k = true -> a = object.
Proof.
  intros Ha Hne Hk. assert (GetSuperClass CT k = Some object) as Ho.
  { destruct Hk as [Hi|Hc]; [by apply h_interface|]. apply bool_decide_eq_true in Hc.
    destruct (GetComponentType CT k) eqn:E; [|done]. by destruct (h_array _ _ E). }
  destruct Ha as [|k s a Hs Ha]; [done|]. rewrite Ho in Hs. injection Hs as <-.
  by apply ancestor_of_object.
Qed.

Lemma IsSubClass_loop_spec fuel k a :
  (rank k <= fuel)%nat -> IsSubClass_loop CT fuel k a = true <-> ancestor k a.
Proof.
  revert k. induction fuel as [|fuel IH]; intros k Hr; cbn [IsSubClass_loop];
    destruct (Z.eqb_spec k a) as [->|Hne]; try (split; [intros; constructor|done]).
  - split; [done|]. inversion 1 as [|? s ? Hs]; [done|]. apply h_rank_super in Hs. lia.
  - destruct (GetSuperClass CT k) as [s|] eqn:Es.
    + pose proof (h_rank_super _ _ Es). rewrite IH by lia. split.
      * intros. by econstructor.
      * inversion 1 as [|? s' ? Hs]; [done|]. rewrite Es in Hs. by injection Hs as <-.
    + split; [done|]. inversion 1 as [|? s' ? Hs]; [done|]. by rewrite Es in Hs.
Qed.

Lemma IsSubClass_spec k a : IsSubClass CT k a = true <-> ancestor k a.
Proof. apply IsSubClass_loop_spec, h_rank. Qed.

(** ** Assignability *)

(** The cases of [IsAssignableFrom] as rules. *)
Inductive assignable : Z -> Z -> Prop :=
| as_refl k : assignable k k
| as_object k : IsPrimitive CT k = false -> assignable object k
| as_implements i k : i ∈ iftable k -> IsInterface CT i = true -> assignable i k
| as_array k l k_ct l_ct : GetComponentType CT k = Some k_ct -> GetComponentType CT l = Some l_ct ->
    assignable k_ct l_ct -> assignable k l
| as_ancestor a k : ancestor k a -> assignable a k.

Lemma ancestor_not_primitive k a : ancestor k a -> IsPrimitive CT a = false -> IsPrimitive CT k = false.
Proof. intros [] Ha; [done|]. by eapply super_not_primitive. Qed.

Lemma array_not_primitive k c : GetComponentType CT k = Some c -> IsPrimitive CT k = false.
Proof. intros H. apply h_array in H as [H _]. by eapply super_not_primitive. Qed.

Lemma is_array k c : GetComponentType CT k = Some c -> IsArrayClass CT k = true.
Proof. intros H. unfold IsArrayClass. rewrite H. by apply bool_decide_eq_true. Qed.
Lemma is_array_inv k : IsArrayClass CT k = true -> exists c, GetComponentType CT k = Some c.
Proof. intros H%bool_decide_eq_true. destruct (GetComponentType CT k); [eauto|done]. Qed.

Lemma IsAssignableFrom_rec_sound fuel k l :
  IsAssignableFrom_rec CT fuel k l = true -> assignable k l.
Proof.
  revert k l. induction fuel as [|fuel IH]; intros k l; cbn [IsAssignableFrom_rec];
    (destruct (Z.eqb_spec k l) as [->|_]; [by constructor|]);
    (destruct (IsObjectClass CT k) eqn:Eo;
      [apply IsObjectClass_spec in Eo as ->; intros H%negb_true_iff; by constructor|]);
    (destruct (IsInterface CT k) eqn:Ei; [intros H%Implements_spec; by constructor|]);
    destruct (IsArrayClass CT l) eqn:Ea; try done;
    try (intros [_ H%IsSubClass_spec]%andb_prop; by constructor).
  unfold IsAssignableFromArray. destruct (GetComponentType CT k) as [k_ct|] eqn:Ek.
  - destruct (GetComponentType CT l) as [l_ct|] eqn:El; [|done]. intros H. eapply as_array; eauto.
  - intros H%bool_decide_eq_true. apply as_ancestor. econstructor; [done|constructor].
Qed.

Lemma IsAssignableFrom_rec_complete fuel k l :
  (rank l <= fuel)%nat -> assignable k l -> IsAssignableFrom_rec CT fuel k l = true.
Proof.
  intros Hr H. revert fuel Hr.
  induction H as [k|k Hp|i k Hin Hi|k l k_ct l_ct Hk Hl _ IH|a k Ha]; intros fuel Hr;
    destruct fuel as [|fuel]; cbn [IsAssignableFrom_rec]; try by rewrite Z.eqb_refl.
  1,2: case_if; [done|]; by rewrite h_object, Hp.
  1,2: case_if; [done|]; rewrite Hi; destruct (IsObjectClass CT i) eqn:Eo;
       [apply IsObjectClass_spec in Eo as ->; by rewrite (proj1 h_object_plain) in Hi
       |by apply Implements_spec].
  1: apply h_rank_component in Hl; lia.
  1: { case_if; [done|]. destruct (IsObjectClass CT k) eqn:Eo.
       { apply IsObjectClass_spec in Eo as ->. by rewrite (proj1 (proj2 h_object_plain)) in Hk. }
       rewrite (proj1 (proj2 (h_array _ _ Hk))), (is_array _ _ Hl).
       unfold IsAssignableFromArray. rewrite Hk, Hl. apply IH.
       apply h_rank_component in Hl. lia. }
  all: destruct (Z.eqb_spec a k) as [|Hne]; [done|];
       destruct (IsObjectClass CT a) eqn:Eo;
         [apply negb_true_iff; destruct Ha; [done|]; by eapply super_not_primitive|];
       destruct (ancestor_proper _ _ Ha Hne) as [-> _];
       destruct (IsArrayClass CT k) eqn:Ea;
         [exfalso; assert (a = object) as -> by (apply (ancestor_short k); eauto);
          by rewrite h_object in Eo|];
       destruct (IsInterface CT k) eqn:Ei;
         [exfalso; assert (a = object) as -> by (apply (ancestor_short k); eauto);
          by rewrite h_object in Eo|];
       by apply IsSubClass_spec.
Qed.

Lemma IsAssignableFrom_spec k l : IsAssignableFrom CT k l = true <-> assignable k l.
Proof.
  split; [apply IsAssignableFrom_rec_sound|].
  intros. apply IsAssignableFrom_rec_complete; [apply h_rank|done].
Qed.

Lemma assignable_not_primitive k l :
  assignable k l -> IsPrimitive CT k = false -> IsPrimitive CT l = false.
Proof.
  destruct 1 as [| |i k Hi _|k l ? ? _ Hl|a k Ha]; intros Hp; try done.
  - destruct (IsPrimitive CT k) eqn:E; [|done]. apply h_primitive in E as (_ & _ & _ & E).
    rewrite E in Hi. by apply not_elem_of_nil in Hi.
  - by eapply array_not_primitive.
  - by eapply ancestor_not_primitive.
Qed.

Lemma assignable_iftable k l i :
  assignable k l -> i ∈ iftable k -> i ∈ iftable l.
Proof.
  destruct 1 as [|k|j k Hj _|k l ? ? Hk Hl|a k Ha]; intros Hi; try done.
  - rewrite (proj2 (proj2 h_object_plain)) in Hi. by apply not_elem_of_nil in Hi.
  - by apply (h_iftable_closed _ _ Hj).
  - destruct (h_array _ _ Hl) as (_ & _ & ->). by destruct (h_array _ _ Hk) as (_ & _ & <-).
  - by apply (ancestor_iftable _ _ Ha).
Qed.

Lemma assignable_component k l c :
  assignable k l -> GetComponentType CT k = Some c ->
  exists d, GetComponentType CT l = Some d /\ assignable c d.
Proof.
  intros Has H. destruct Has as [k|k|i k _ Hi|k l ? ? Hk Hl Hc|a k Ha].
  - exists c. split; [done|constructor].
  - by rewrite (proj1 (proj2 h_object_plain)) in H.
  - apply h_array in H as (_ & H & _). by rewrite Hi in H.
  - rewrite Hk in H. injection H as ->. eauto.
  - destruct (decide (a = k)) as [->|Hne]; [exists c; split; [done|constructor]|].
    destruct (ancestor_proper _ _ Ha Hne) as (_ & H' & _). by rewrite H in H'.
Qed.

Lemma assignable_of_object l : assignable l object -> l = object.
Proof.
  inversion 1 as [|? Hp|? ? Hi|? ? ? ? _ Hl|? ? Ha]; subst; try done.
  - rewrite (proj2 (proj2 h_object_plain)) in Hi. by apply not_elem_of_nil in Hi.
  - by rewrite (proj1 (proj2 h_object_plain)) in Hl.
  - by apply ancestor_of_object.
Qed.

Lemma assignable_trans j k l : assignable j k -> assignable k l -> assignable j l.
Proof.
  intros Hjk. revert l. induction Hjk as [|k Hp|i k Hin Hi|j k ? ? Hj Hk _ IH|a k Ha]; intros l Hkl;
    [done| | | |].
  - apply as_object. by eapply assignable_not_primitive.
  - apply as_implements; [by eapply assignable_iftable|done].
  - destruct (assignable_component _ _ _ Hkl Hk) as (d & Hd & Hkd). eapply as_array; eauto.
  - destruct (decide (a = k)) as [->|Hne]; [done|].
    destruct (decide (a = object)) as [->|Ho].
    { apply as_object. eapply assignable_not_primitive; [done|]. destruct Ha; [done|].
      by eapply super_not_primitive. }
    destruct Hkl as [k|k|i k Hin Hi|k l ? ? Hk _|b k Hb]; try by apply as_ancestor.
    + by apply ancestor_of_object in Ha.
    + exfalso. apply Ho, (ancestor_short i); auto.
    + exfalso. apply Ho, (ancestor_short k); eauto using is_array.
    + apply as_ancestor. by eapply ancestor_trans.
Qed.

(** ** Joins *)

Inductive ups : nat -> Z -> Z -> Prop :=
| ups_O k : ups 0 k k
| ups_S n k s a : GetSuperClass CT k = Some s -> ups n s a -> ups (S n) k a.

Lemma ups_ancestor n k a : ups n k a -> ancestor k a.
Proof. induction 1; econstructor; eauto. Qed.

(** Every reference class is below [Object]. *)

Lemma ups_object r k : rank k = r -> IsPrimitive CT k = false ->
  exists n, ups n k object /\ (n <= r)%nat.
Proof.
  revert k. induction (lt_wf r) as [r _ IH]. intros k <- Hp.
  destruct (GetSuperClass CT k) as [s|] eqn:Es.
  - pose proof (h_rank_super _ _ Es) as Hr. destruct (h_super _ _ Es) as (_ & _ & Hs).
    destruct (IH _ Hr s eq_refl Hs) as (n & Hn & Hle). exists (S n). split; [by econstructor|lia].
  - exists 0%nat. split; [|lia]. assert (k = object) as ->; [|constructor].
    apply h_root. unfold IsObjectClass. by rewrite Hp, Es.
Qed.

Lemma Depth_loop_spec fuel n k d :
  ups n k object -> (n <= fuel)%nat -> 0 <= d -> d + Z.of_nat n < 2 ^ 32 ->
  Depth_loop CT fuel k d = d + Z.of_nat n.
Proof.
  intros Hn. revert fuel d. remember object as o eqn:Ho.
  induction Hn as [k|n k s a Hs Hn IH]; intros fuel d Hf Hd Hb.
  - subst k. destruct fuel; cbn [Depth_loop]; rewrite ?object_no_super; lia.
  - destruct fuel as [|fuel]; [lia|]. cbn [Depth_loop]. rewrite Hs.
    rewrite wrap_u_id by (unfold in_u; lia). rewrite (IH Ho) by lia. lia.
Qed.

Lemma Depth_spec k : IsPrimitive CT k = false ->
  exists n, Depth CT k = Z.of_nat n /\ ups n k object /\ (n <= max_chain CT)%nat.
Proof.
  intros Hp. destruct (ups_object _ k eq_refl Hp) as (n & Hn & Hle). pose proof (h_rank k).
  pose proof h_bound. exists n. split_and!; [|done|lia].
  unfold Depth. rewrite (Depth_loop_spec _ n) by (done || lia). lia.
Qed.

Lemma raise_to_spec fuel n d k : ups n k object -> (n <= fuel)%nat -> (d <= n)%nat ->
  exists a, raise_to CT fuel k (Z.of_nat n) (Z.of_nat d) = Some a /\ ancestor k a /\ ups d a object.
Proof.
  revert n k. induction fuel as [|fuel IH]; intros n k Hn Hf Hd; cbn [raise_to];
    destruct (Z.ltb_spec (Z.of_nat d) (Z.of_nat n)).
  1,3: lia || idtac.
  - inversion Hn as [|n' ? s ? Hs Hn']; subst; [lia|]. rewrite Hs.
    replace (Z.of_nat (S n') - 1) with (Z.of_nat n') by lia.
    destruct (IH n' s Hn') as (a & E & Ha & Hu); [lia..|]. exists a.
    split_and!; [done|by econstructor|done].
  - assert (n = d) as -> by lia. exists k. split_and!; [done|constructor|done].
  - assert (n = d) as -> by lia. exists k. split_and!; [done|constructor|done].
Qed.

Lemma common_parent_spec fuel n s t : ups n s object -> ups n t object -> (n <= fuel)%nat ->
  exists a, common_parent CT fuel s t = Some a /\ ancestor s a /\ ancestor t a.
Proof.
  revert n s t. induction fuel as [|fuel IH]; intros n s t Hs Ht Hf; cbn [common_parent];
    destruct (Z.eqb_spec s t) as [->|Hne];
    try (exists t; split_and!; [done|constructor|constructor]).
  - assert (n = 0%nat) as -> by lia. inversion Hs; inversion Ht; congruence.
  - inversion Hs as [|n' ? s' ? Es Hs']; subst; [inversion Ht; congruence|].
    inversion Ht as [|? ? t' ? Et Ht']; subst. rewrite Es, Et.
    destruct (IH n' s' t' Hs' Ht') as (a & E & H1 & H2); [lia|]. exists a.
    split_and!; [done|by econstructor|by econstructor].
Qed.

Lemma join_parents_spec s t : IsPrimitive CT s = false -> IsPrimitive CT t = false ->
  exists j, join_parents CT s t = Joined j /\ ancestor s j /\ ancestor t j.
Proof.
  intros Hs Ht. unfold join_parents.
  destruct (Depth_spec s Hs) as (n & -> & Hn & Ln). destruct (Depth_spec t Ht) as (d & -> & Hd & Ld).
  destruct (Z.ltb_spec (Z.of_nat d) (Z.of_nat n)); destruct (Z.ltb_spec (Z.of_nat n) (Z.of_nat d)).
  - lia.
  - destruct (raise_to_spec (max_chain CT) n d s Hn) as (a & -> & Ha & Hu); [lia..|].
    destruct (common_parent_spec (max_chain CT) d a t Hu Hd) as (j & -> & H1 & H2); [lia|].
    exists j. split_and!; [done|by eapply ancestor_trans|done].
  - destruct (raise_to_spec (max_chain CT) d n t Hd) as (a & -> & Ha & Hu); [lia..|].
    destruct (common_parent_spec (max_chain CT) n s a Hn Hu) as (j & -> & H1 & H2); [lia|].
    exists j. split_and!; [done|done|by eapply ancestor_trans].
  - assert (d = n) as -> by lia.
    destruct (common_parent_spec (max_chain CT) n s t Hn Hd) as (j & -> & H1 & H2); [lia|].
    exists j. by split_and!.
Qed.

Context (FindArrayClass : Z -> option Z).
Hypothesis FindArrayClass_component : forall k a,
  FindArrayClass k = Some a -> GetComponentType CT a = Some k.

Definition join_ok (s t : Z) (j : Join) : Prop :=
  match j with
  | Joined j => assignable j s /\ assignable j t
  | JoinNull => exists k, FindArrayClass k = None
  | JoinCrash => False
  end.

Lemma ClassJoin_rec_ok fuel s t :
  (rank s <= fuel)%nat -> IsPrimitive CT s = false -> IsPrimitive CT t = false ->
  join_ok s t (ClassJoin_rec CT FindArrayClass fuel s t).
Proof.
  revert s t. induction fuel as [|fuel IH]; intros s t Hr Hs Ht; cbn [ClassJoin_rec];
    (destruct (Z.eqb_spec s t) as [Est|_]; [subst t; by split; apply as_refl|]);
    (destruct (IsAssignableFrom CT s t) eqn:E1; [apply IsAssignableFrom_spec in E1; split; [apply as_refl|done]|]);
    (destruct (IsAssignableFrom CT t s) eqn:E2; [apply IsAssignableFrom_spec in E2; split; [done|apply as_refl]|]).
  all: assert (join_ok s t (join_parents CT s t)) as Hp
    by (destruct (join_parents_spec s t Hs Ht) as (j & -> & H1 & H2); split; by apply as_ancestor).
  all: destruct (GetComponentType CT s) as [s_ct|] eqn:Es; [|done].
  all: destruct (GetComponentType CT t) as [t_ct|] eqn:Et; [|done].
  - apply h_rank_component in Es. lia.
  - destruct (IsPrimitive CT s_ct || IsPrimitive CT t_ct) eqn:Ep.
    { destruct (h_array _ _ Es) as (-> & _). split; by apply as_object. }
    bools. pose proof (h_rank_component _ _ Es).
    specialize (IH s_ct t_ct ltac:(lia) ltac:(done) ltac:(done)).
    destruct (ClassJoin_rec CT FindArrayClass fuel s_ct t_ct) as [e| |]; [|done..].
    destruct IH as [Hj1 Hj2]. destruct (FindArrayClass e) as [a|] eqn:Ea; [|by exists e].
    apply FindArrayClass_component in Ea. split; eapply as_array; eauto.
Qed.

(** C23. The join of two reference classes, as the verifier computes it for
    registers that reach a point with different types, always exists (short of
    an array class that cannot be created) and both classes can be assigned to
    it: the walks up the superclass chains never run past [Object]. *)
Theorem class_join_upper_bound s t :
  IsPrimitive CT s = false -> IsPrimitive CT t = false ->
  match ClassJoin CT FindArrayClass s t with
  | Joined j => IsAssignableFrom CT j s = true /\ IsAssignableFrom CT j t = true
  | JoinNull => exists k, FindArrayClass k = None
  | JoinCrash => False
  end.
Proof.
  intros Hs Ht. pose proof (ClassJoin_rec_ok (max_chain CT) s t (h_rank s) Hs Ht) as H.
  unfold ClassJoin. destruct (ClassJoin_rec _ _ _ _ _); [|done..].
  by rewrite !IsAssignableFrom_spec.
Qed.
End Hierarchy.

(** ** A small class table *)

Definition sample_class (super component : option Z) (flags : Z) (prim : Primitive) (iftable : list Z)
    (descriptor : string) : Class :=
  {| super_class_ := super; component_type_ := component; access_flags_ := flags;
     primitive_type_ := prim; iftable_ := iftable; dex_descriptor_ := descriptor;
     class_loader_ := 0; status_ := 10; field_access_flags_ := [] |}.
Definition primitive_sample (p : Primitive) : Class :=
  sample_class None None (kAccPublic ||| kAccFinal ||| kAccAbstract) p [] EmptyString.
Definition array_sample (component : Z) : Class :=
  sample_class (Some 0) (Some component) (kAccPublic ||| kAccFinal ||| kAccAbstract) kPrimNot [5] EmptyString.

(** [Object], [String], [Class], [Throwable], [Exception], the interface
    [Cloneable], [Error], the primitive types from 7 on, their arrays from 15 on
    and arrays of objects, throwables, exceptions, errors and arrays of [int] from 23
    on. *)
Definition sample_classes : list Class :=
  [ sample_class None None kAccPublic kPrimNot [] "Ljava/lang/Object;";
    sample_class (Some 0) None (kAccPublic ||| kAccFinal) kPrimNot [] "Ljava/lang/String;";
    sample_class (Some 0) None (kAccPublic ||| kAccFinal) kPrimNot [] "Ljava/lang/Class;";
    sample_class (Some 0) None kAccPublic kPrimNot [] "Ljava/lang/Throwable;";
    sample_class (Some 3) None kAccPublic kPrimNot [] "Ljava/lang/Exception;";
    sample_class (Some 0) None (kAccPublic ||| kAccInterface ||| kAccAbstract) kPrimNot []
      "Ljava/lang/Cloneable;";
    sample_class (Some 3) None kAccPublic kPrimNot [] "Ljava/lang/Error;" ] ++
  map primitive_sample [kPrimBoolean; kPrimByte; kPrimChar; kPrimShort; kPrimInt; kPrimLong;
                        kPrimFloat; kPrimDouble] ++
  map array_sample [7; 8; 9; 10; 11; 12; 13; 14; 0; 3; 4; 6; 19].

Definition sample_table : ClassTable :=
  {| class_at := fun k =>
       if 0 <=? k then nth (Z.to_nat k) sample_classes (primitive_sample kPrimVoid)
       else primitive_sample kPrimVoid;
     max_chain := 3 |}.

Lemma sample_class_at (P : Z -> Prop) :
  (forall k, class_at sample_table k = primitive_sample kPrimVoid -> P k) ->
  Forall P (map Z.of_nat (seq 0 28)) -> forall k, P k.
Proof.
  intros Hd Hl k. destruct (decide (0 <= k < 28)) as [Hk|Hk].
  - apply (proj1 (Forall_forall P _) Hl). apply in_map_iff. exists (Z.to_nat k).
    split; [lia|]. apply in_seq. lia.
  - apply Hd. cbn [class_at sample_table]. destruct (Z.leb_spec 0 k); [|done].
    apply nth_overflow. change (length sample_classes) with 28%nat. lia.
Qed.

Definition sample_rank (k : Z) : nat :=
  if 0 <=? k then
    nth (Z.to_nat k)
      ([0; 1; 1; 1; 2; 1; 2] ++ repeat 0 8 ++ repeat 1 8 ++ [1; 2; 3; 3; 2])%nat 0%nat
  else 0%nat.

(** A law of the hierarchy, checked class by class. *)
Ltac sample_law :=
  intros; repeat match goal with
  | H : GetSuperClass _ _ = Some _ |- _ => vm_compute in H; first [discriminate H|injection H as <-]
  | H : GetComponentType _ _ = Some _ |- _ => vm_compute in H; first [discriminate H|injection H as <-]
  | H : ?b = true |- _ => vm_compute in H; try discriminate H; clear H
  | H : _ ∈ iftable_ _ |- _ => vm_compute in H; first [by apply not_elem_of_nil in H|
      apply list_elem_of_singleton in H as ->]
  end; vm_compute; first [done | intuition congruence | lia
    | let H := fresh in intros ? H; first [by apply not_elem_of_nil in H|exact H] ].
Ltac default_law :=
  intros k Hk;
  unfold IsObjectClass, IsInterface, IsPrimitive, GetSuperClass, GetComponentType,
    GetPrimitiveTypeOf, has_flag in *; rewrite ?Hk;
  first [ by intros i Hi%not_elem_of_nil | vm_compute; intuition congruence ].
Ltac by_sample_classes :=
  match goal with
  | |- forall k, @?P k =>
      apply (sample_class_at P); [ default_law
      | cbn [map seq]; repeat (apply Forall_cons; [ sample_law |]); apply Forall_nil ]
  end.

#[export] Instance sample_hierarchy : ClassHierarchy sample_table.
Proof.
  refine {| java_lang_Object := 0; array_iftable_ := [5]; rank := sample_rank |}.
  - intros k. unfold sample_rank. destruct (Z.leb_spec 0 k); [|simpl; lia].
    destruct (decide (k < 28)); [|rewrite nth_overflow; simpl; lia].
    assert (forallb (fun n => nth n (([0; 1; 1; 1; 2; 1; 2] ++ repeat 0 8 ++ repeat 1 8 ++ [1; 2; 3; 3; 2])%nat) 0 <=? 3)%nat (seq 0 28) = true) as Hf by (vm_compute; reflexivity).
    rewrite forallb_forall in Hf. apply Nat.leb_le, Hf, in_seq. lia.
  - vm_compute. done.
  - by_sample_classes.
  - by_sample_classes.
  - done.
  - done.
  - by_sample_classes.
  - by_sample_classes.
  - by_sample_classes.
  - by_sample_classes.
  - by_sample_classes.
  - by_sample_classes.
  - by_sample_classes.
Defined.

(** The array class of a component type, if the table has one. *)
Definition sample_array_class (component : Z) : option Z :=
  find (fun k => bool_decide (GetComponentType sample_table k = Some component))
    (map Z.of_nat (seq 0 28)).

Lemma sample_array_component k a :
  sample_array_class k = Some a -> GetComponentType sample_table a = Some k.
Proof. intros [_ H]%find_some. by apply bool_decide_eq_true in H. Qed.

(** Arrays of exceptions and arrays of errors join to arrays of throwables. *)
Lemma class_join_upper_bound_witness :
  ClassJoin sample_table sample_array_class 25 26 = Joined 24 /\
  IsAssignableFrom sample_table 24 25 = true /\ IsAssignableFrom sample_table 24 26 = true.
Proof.
  split; [vm_compute; reflexivity|].
  exact (class_join_upper_bound sample_array_class sample_array_component 25 26
           ltac:(vm_compute; reflexivity) ltac:(vm_compute; reflexivity)).
Defined.
