(* ===== verification/FieldLayout.v ===== *)
(** * Layout of fields ([runtime/class_linker.cc], [runtime/mirror/class-inl.h],
      [object-inl.h], [object-refvisitor-inl.h])

    The class linker sorts the fields of a class, gives each an offset and fills
    the gaps that alignment leaves; [CreateReferenceInstanceOffsets] records where
    the references are, and the collector finds them again from that record.  A
    class is seen with its superclasses, nearest first. *)
From Stdlib Require Import String Ascii.
From stdpp Require Import sorting.
From S2P Require Import Prelude BitUtils MirrorClass.

(** ** Fields *)

Definition GetType (type : ascii) : Primitive :=
  match type with
  | "B" => kPrimByte
  | "C" => kPrimChar
  | "D" => kPrimDouble
  | "F" => kPrimFloat
  | "I" => kPrimInt
  | "J" => kPrimLong
  | "S" => kPrimShort
  | "V" => kPrimVoid
  | "Z" => kPrimBoolean
  | _ => kPrimNot
  end%char.

(** The value of the enumerator. *)
Definition Primitive_value (type : Primitive) : Z :=
  match type with
  | kPrimNot => 0 | kPrimBoolean => 1 | kPrimByte => 2 | kPrimChar => 3 | kPrimShort => 4
  | kPrimInt => 5 | kPrimLong => 6 | kPrimFloat => 7 | kPrimDouble => 8 | kPrimVoid => 9
  end.

Record ArtField := mkField {
  field_dex_idx_ : Z;
  GetTypeDescriptor : string;
  GetName : string;
  offset_ : Z
}.
#[export] Instance ArtField_inhabited : Inhabited ArtField :=
  populate (mkField 0 EmptyString EmptyString 0).

(** The descriptor is terminated by a zero byte, which is read when it is empty. *)
Definition GetTypeAsPrimitiveType (f : ArtField) : Primitive :=
  match GetTypeDescriptor f with
  | EmptyString => GetType zero
  | String c _ => GetType c
  end.

Definition with_offset (num_bytes : Z) (f : ArtField) : ArtField :=
  mkField (field_dex_idx_ f) (GetTypeDescriptor f) (GetName f) num_bytes.

(** The fields of a class are an array; the linker handles pointers to its
    elements, here their positions. *)
Notation At fields i := (fields !!! i).
Definition SetOffset (i : nat) (num_bytes : Z) (fields : list ArtField) : list ArtField :=
  alter (with_offset num_bytes) i fields.

Definition LinkFieldsComparator (field1 field2 : ArtField) : bool :=
  let type1 := GetTypeAsPrimitiveType field1 in
  let type2 := GetTypeAsPrimitiveType field2 in
  if decide (type1 <> type2) then
    if decide (type1 = kPrimNot) then true
    else if decide (type2 = kPrimNot) then false
    else
      let size1 := ComponentSize type1 in
      let size2 := ComponentSize type2 in
      if negb (size1 =? size2) then size2 <? size1
      else Primitive_value type1 <? Primitive_value type2
  else field_dex_idx_ field1 <? field_dex_idx_ field2.

(** [std::sort] leaves no element before one that is less; the order of
    equivalent elements, which would have the same type and index, is not
    specified. *)
Definition in_order (fields : list ArtField) (i j : nat) : Prop :=
  LinkFieldsComparator (At fields j) (At fields i) = false.
#[export] Instance in_order_dec fields i j : Decision (in_order fields i j).
Proof. unfold in_order. apply _. Defined.
Definition grouped_and_sorted_fields (fields : list ArtField) : list nat :=
  merge_sort (in_order fields) (seq 0 (length fields)).

(** ** Gaps *)

Record FieldGap := mkGap { start_offset : Z; gap_size : Z }.

Definition FieldGapsComparator (lhs rhs : FieldGap) : bool :=
  (gap_size lhs <? gap_size rhs)
  || ((gap_size lhs =? gap_size rhs) && (start_offset rhs <? start_offset lhs)).

(** The priority queue lists its elements, largest first. *)
Notation FieldGaps := (list FieldGap).
Fixpoint push (gap : FieldGap) (gaps : FieldGaps) : FieldGaps :=
  match gaps with
  | [] => [gap]
  | g :: rest => if FieldGapsComparator g gap then gap :: gaps else g :: push gap rest
  end.

Fixpoint AddFieldGap_loop (fuel : nat) (current_offset gap_end : Z) (gaps : FieldGaps) :
    option FieldGaps :=
  if current_offset =? gap_end then Some gaps
  else
    match fuel with
    | O => None
    | S fuel =>
        let remaining := u32 (gap_end - current_offset) in
        if (4 <=? remaining) && IsAligned 4 current_offset then
          AddFieldGap_loop fuel (u32 (current_offset + 4)) gap_end
            (push (mkGap current_offset 4) gaps)
        else if (2 <=? remaining) && IsAligned 2 current_offset then
          AddFieldGap_loop fuel (u32 (current_offset + 2)) gap_end
            (push (mkGap current_offset 2) gaps)
        else
          AddFieldGap_loop fuel (u32 (current_offset + 1)) gap_end
            (push (mkGap current_offset 1) gaps)
    end.
Definition AddFieldGap (gap_start gap_end : Z) (gaps : FieldGaps) : option FieldGaps :=
  AddFieldGap_loop (Z.to_nat (u32 (gap_end - gap_start))) gap_start gap_end gaps.

(** ** The linker's loops

    [None] is a failed [CHECK]. *)

Record Layout := mkLayout {
  field_offset : Z;
  gaps : FieldGaps;
  fields : list ArtField;
  current_field : Z;
  num_reference_fields : Z
}.

(** [if (!IsAligned<n>(field_offset)) { ... RoundUp ...; AddFieldGap(...); }] *)
Definition align_offset (n : Z) (l : Layout) : option Layout :=
  if negb (IsAligned n (field_offset l)) then
    let new_offset := RoundUp 32 (field_offset l) n in
    gaps' ← AddFieldGap (field_offset l) new_offset (gaps l);
    Some (mkLayout new_offset gaps' (fields l) (current_field l) (num_reference_fields l))
  else Some l.

Definition place_at_end (n : Z) (i : nat) (l : Layout) : Layout :=
  mkLayout (u32 (field_offset l + n)) (gaps l) (SetOffset i (field_offset l) (fields l))
    (current_field l + 1) (num_reference_fields l).

Definition place_in_gap (n : Z) (i : nat) (gap : FieldGap) (rest : FieldGaps) (l : Layout) :
    option Layout :=
  gaps' ← (if n <? gap_size gap
           then AddFieldGap (u32 (start_offset gap + n)) (u32 (start_offset gap + gap_size gap)) rest
           else Some rest);
  Some (mkLayout (field_offset l) gaps' (SetOffset i (start_offset gap) (fields l))
          (current_field l + 1) (num_reference_fields l)).

Definition place_field (n : Z) (i : nat) (l : Layout) : option Layout :=
  match gaps l with
  | gap :: rest =>
      if n <=? gap_size gap then place_in_gap n i gap rest l else Some (place_at_end n i l)
  | [] => Some (place_at_end n i l)
  end.

Fixpoint ShuffleForward (n : Z) (grouped : list nat) (l : Layout) : option (list nat * Layout) :=
  match grouped with
  | [] => Some ([], l)
  | i :: rest =>
      let type := GetTypeAsPrimitiveType (At (fields l) i) in
      if ComponentSize type <? n then Some (grouped, l)
      else
        l ← align_offset n l;
        if decide (type = kPrimNot) then None
        else
          l ← place_field n i l;
          ShuffleForward n rest l
  end.

Definition sizeof_HeapReference : Z := 4.

Definition place_reference (i : nat) (l : Layout) : Layout :=
  mkLayout (u32 (field_offset l + sizeof_HeapReference)) (gaps l)
    (SetOffset i (field_offset l) (fields l)) (current_field l + 1) (num_reference_fields l + 1).

Fixpoint place_references (num_fields : Z) (grouped : list nat) (l : Layout) :
    option (list nat * Layout) :=
  match grouped with
  | [] => Some ([], l)
  | i :: rest =>
      if current_field l <? num_fields then
        if decide (GetTypeAsPrimitiveType (At (fields l) i) <> kPrimNot) then Some (grouped, l)
        else
          l ← align_offset sizeof_HeapReference l;
          place_references num_fields rest (place_reference i l)
      else Some (grouped, l)
  end.

(** From [std::deque<ArtField*> grouped_and_sorted_fields] to
    [CHECK(grouped_and_sorted_fields.empty())]. *)
Definition layout_fields (start : Z) (fs : list ArtField) : option Layout :=
  let num_fields := Z.of_nat (length fs) in
  '(grouped, l) ← place_references num_fields (grouped_and_sorted_fields fs)
                    (mkLayout start [] fs 0 0);
  '(grouped, l) ← ShuffleForward 8 grouped l;
  '(grouped, l) ← ShuffleForward 4 grouped l;
  '(grouped, l) ← ShuffleForward 2 grouped l;
  '(grouped, l) ← ShuffleForward 1 grouped l;
  match grouped with [] => Some l | _ => None end.
