(* ===== verification/FieldLayoutFacts.v ===== *)
(** * Facts about the layout of fields

    Extents in an object, and what the linker's loops do to them: the fields
    placed so far and the gaps left are always disjoint extents between the start
    and the current offset. *)
From Stdlib Require Import String.
From stdpp Require Import sorting.
From S2P Require Import Prelude BitUtils MirrorClass FieldLayout.

(** ** Extents *)

(** An extent is a start and a size. *)
Definition extent : Type := Z * Z.

Definition apart (a b : extent) : Prop := a.1 + a.2 <= b.1 \/ b.1 + b.2 <= a.1.
Definition within (lo hi : Z) (e : extent) : Prop := lo <= e.1 /\ 0 < e.2 /\ e.1 + e.2 <= hi.

Definition packed (lo hi : Z) (l : list extent) : Prop :=
  Forall (within lo hi) l /\ ForallOrdPairs apart l.

#[export] Instance apart_sym : Symmetric apart.
Proof. unfold apart. intros a b. tauto. Qed.

Lemma FOP_perm {A} (R : A -> A -> Prop) `{!Symmetric R} l l' :
  l ≡ₚ l' -> ForallOrdPairs R l -> ForallOrdPairs R l'.
Proof.
  induction 1 as [|x l l' Hp IH|x y l|l l2 l3 _ IH1 _ IH2]; intros H; auto.
  - inversion H; subst. constructor; [by rewrite <- Hp|auto].
  - inversion H as [|? ? Hy Hxl]; subst. inversion Hxl as [|? ? Hx Hl]; subst.
    apply List.Forall_cons_iff in Hy as [Hyx Hy].
    constructor; [constructor; [by symmetry|done]|]. by constructor.
Qed.

#[export] Instance packed_proper lo hi : Proper (Permutation ==> iff) (packed lo hi).
Proof.
  assert (forall l l', l ≡ₚ l' -> packed lo hi l -> packed lo hi l') as H.
  { intros l l' Hp [Hw Ho]. split; [by rewrite <- Hp|]. eapply FOP_perm; [apply _|done..]. }
  intros l l' Hp. split; apply H; [done|by symmetry].
Qed.

Lemma FOP_app {A} (R : A -> A -> Prop) l l' :
  ForallOrdPairs R l -> ForallOrdPairs R l' ->
  (forall x y, x ∈ l -> y ∈ l' -> R x y) -> ForallOrdPairs R (l ++ l').
Proof.
  intros Hl Hl'. induction Hl as [|x l Hx Hl IH]; intros H; simpl; [done|].
  constructor.
  - apply List.Forall_app. split; [done|]. apply List.Forall_forall. intros y Hy.
    apply H; [by left|by apply list_elem_of_In].
  - apply IH. intros. apply H; [by right|done].
Qed.

Lemma FOP_app_inv {A} (R : A -> A -> Prop) l l' :
  ForallOrdPairs R (l ++ l') -> ForallOrdPairs R l /\ ForallOrdPairs R l'.
Proof.
  induction l as [|x l IH]; simpl; intros H; [by split; [constructor|]|].
  inversion H as [|? ? Hx Hl]; subst. apply List.Forall_app in Hx as [? ?].
  apply IH in Hl as [? ?]. split; [by constructor|done].
Qed.

Lemma packed_weaken lo hi lo' hi' l :
  lo' <= lo -> hi <= hi' -> packed lo hi l -> packed lo' hi' l.
Proof.
  intros ? ? [Hw Hp]. split; [|done]. eapply List.Forall_impl, Hw.
  unfold within. intros. lia.
Qed.

Lemma packed_app lo mid hi l l' :
  lo <= mid <= hi -> packed lo mid l -> packed mid hi l' -> packed lo hi (l ++ l').
Proof.
  intros ? [Hw Hp] [Hw' Hp']. split.
  - apply List.Forall_app. split; eapply List.Forall_impl; try eassumption;
      unfold within; intros; lia.
  - apply FOP_app; try done. intros x y Hx Hy.
    apply list_elem_of_In in Hx, Hy. rewrite List.Forall_forall in Hw, Hw'.
    apply Hw in Hx. apply Hw' in Hy. left. unfold within in *. lia.
Qed.

Lemma packed_app_inv lo hi l l' : packed lo hi (l ++ l') -> packed lo hi l /\ packed lo hi l'.
Proof.
  intros [Hw Hp]. apply List.Forall_app in Hw as [? ?]. apply FOP_app_inv in Hp as [? ?].
  by repeat split.
Qed.

(** An extent may be cut into pieces. *)
Lemma packed_cut lo hi e l l' :
  packed lo hi (e :: l) -> packed e.1 (e.1 + e.2) l' -> packed lo hi (l' ++ l).
Proof.
  intros [Hw Hp] [Hw' Hp']. inversion Hw as [|? ? He Hl]; subst.
  inversion Hp as [|? ? Ha Hpl]; subst. split.
  - apply List.Forall_app. split; [|done]. eapply List.Forall_impl, Hw'.
    unfold within in *. intros. lia.
  - apply FOP_app; try done. intros x y Hx Hy. apply list_elem_of_In in Hx, Hy.
    rewrite List.Forall_forall in Hw', Ha. apply Hw' in Hx. apply Ha in Hy.
    unfold within, apart in *. lia.
Qed.

Lemma packed_one lo hi e : within lo hi e -> packed lo hi [e].
Proof. intros. split; [by constructor|]. repeat constructor. Qed.

Lemma packed_apart lo hi l i j a b :
  packed lo hi l -> i <> j -> l !! i = Some a -> l !! j = Some b -> apart a b.
Proof.
  intros [_ Hp]. revert i j. induction Hp as [|x l Hx Hp IH]; intros i j Hij Hi Hj; [done|].
  destruct i as [|i], j as [|j]; simplify_eq/=; try done.
  - exact (Forall_lookup_1 _ _ _ _ Hx Hj).
  - symmetry. exact (Forall_lookup_1 _ _ _ _ Hx Hi).
  - eapply IH; [|done..]. congruence.
Qed.

(** ** Alignment *)

(** The sizes of primitive fields. *)
Definition width (n : Z) : Prop := n = 1 \/ n = 2 \/ n = 4 \/ n = 8.

(** The least multiple of [n] from [o] on. *)
Definition up (n o : Z) : Z := o + (- o) mod n.

Lemma IsAligned_iff n o : width n -> IsAligned n o = true <-> o mod n = 0.
Proof.
  intros Hn. assert (exists k, 0 <= k /\ n = 2 ^ k) as (k & Hk & ->).
  { destruct Hn as [->|[->|[->| ->]]]; [exists 0|exists 1|exists 2|exists 3]; split; lia || done. }
  rewrite IsAligned_spec by done. apply Z.eqb_eq.
Qed.

Lemma RoundUp_up n o : width n -> 0 <= o -> o + n - 1 < 2 ^ 32 -> RoundUp 32 o n = up n o.
Proof.
  intros Hn Ho Hb. unfold up.
  assert (exists k, 0 <= k <= 3 /\ n = 2 ^ k) as (k & Hk & E).
  { destruct Hn as [->|[->|[->| ->]]]; [exists 0|exists 1|exists 2|exists 3]; split; lia || done. }
  rewrite E at 1. rewrite RoundUp_eq by (unfold in_u; rewrite <- E || lia;
    destruct Hn as [->|[->|[->| ->]]]; lia).
  rewrite <- E. destruct Hn as [->|[->|[->| ->]]]; zdiv.
Qed.

Lemma up_bounds n o : width n -> o <= up n o < o + n /\ up n o mod n = 0.
Proof. unfold up. intros [->|[->|[->| ->]]]; zdiv. Qed.

Lemma up_aligned n o : width n -> o mod n = 0 -> up n o = o.
Proof. unfold up. intros [->|[->|[->| ->]]] ?; zdiv. Qed.

(** ** Gaps *)

Definition gap_extent (g : FieldGap) : extent := (start_offset g, gap_size g).

(** The linker's gaps are aligned to their size. *)
Definition gap_ok (g : FieldGap) : Prop :=
  width (gap_size g) /\ start_offset g mod gap_size g = 0.

Lemma push_perm g gaps : push g gaps ≡ₚ g :: gaps.
Proof.
  induction gaps as [|h gaps IH]; simpl; [done|]. case_if; [done|].
  rewrite IH. constructor.
Qed.

(** [AddFieldGap] returns and adds aligned gaps that lie in the range. *)
Lemma AddFieldGap_loop_spec fuel s e gaps :
  0 <= s <= e -> e < 2 ^ 32 -> (Z.to_nat (e - s) <= fuel)%nat ->
  exists new gaps',
    AddFieldGap_loop fuel s e gaps = Some gaps' /\ gaps' ≡ₚ new ++ gaps /\
    packed s e (map gap_extent new) /\ Forall gap_ok new.
Proof.
  revert s gaps. induction fuel as [|fuel IH]; intros s gaps Hs He Hf; simpl.
  { assert (s = e) as -> by lia. rewrite Z.eqb_refl. exists [], gaps.
    split_and!; try done; repeat constructor. }
  destruct (s =? e) eqn:E; bools.
  { subst. exists [], gaps. split_and!; try done; repeat constructor. }
  rewrite (wrap_u_id 32 (e - s)) by (unfold in_u; lia).
  assert (forall n, width n -> s + n <= e -> s mod n = 0 ->
    exists new gaps',
      AddFieldGap_loop fuel (u32 (s + n)) e (push (mkGap s n) gaps) = Some gaps' /\
      gaps' ≡ₚ new ++ gaps /\ packed s e (map gap_extent new) /\ Forall gap_ok new) as Hstep.
  { intros n Hn Hne Ha. assert (0 < n) by (destruct Hn; lia).
    rewrite wrap_u_id by (unfold in_u; lia).
    destruct (IH (s + n) (push (mkGap s n) gaps)) as (new & gaps' & -> & Hp & Hpk & Hok);
      try lia.
    exists (mkGap s n :: new), gaps'. split; [done|]. split_and!.
    - rewrite Hp, push_perm. by rewrite <- Permutation_middle.
    - apply (packed_app s (s + n) e [(s, n)] (map gap_extent new)); [lia| |done].
      apply packed_one. unfold within. simpl. lia.
    - constructor; [by split|done]. }
  destruct (_ && _) eqn:E4; bools; [|destruct ((2 <=? e - s) && _) eqn:E2; bools];
    apply Hstep; unfold width; try lia.
  - apply (IsAligned_iff 4); unfold width; auto.
  - apply (IsAligned_iff 2); unfold width; auto.
  - apply Z.mod_1_r.
Qed.

Lemma AddFieldGap_spec s e gaps :
  0 <= s <= e -> e < 2 ^ 32 ->
  exists new gaps',
    AddFieldGap s e gaps = Some gaps' /\ gaps' ≡ₚ new ++ gaps /\
    packed s e (map gap_extent new) /\ Forall gap_ok new.
Proof.
  intros ? ?. apply AddFieldGap_loop_spec; [done..|].
  rewrite wrap_u_id by (unfold in_u; lia). lia.
Qed.

(** ** Field arrays *)

Definition type_of (fs : list ArtField) (i : nat) : Primitive := GetTypeAsPrimitiveType (At fs i).
Definition size_of (fs : list ArtField) (i : nat) : Z := ComponentSize (type_of fs i).
Definition offset_of (fs : list ArtField) (i : nat) : Z := offset_ (At fs i).
Definition field_extent (fs : list ArtField) (i : nat) : extent := (offset_of fs i, size_of fs i).

(** What the linker leaves alone. *)
Definition identity (f : ArtField) : Z * string * string :=
  (field_dex_idx_ f, GetTypeDescriptor f, GetName f).

Lemma SetOffset_length i o fs : length (SetOffset i o fs) = length fs.
Proof. apply length_alter. Qed.

Lemma SetOffset_identity i o fs : map identity (SetOffset i o fs) = map identity fs.
Proof.
  revert i. induction fs as [|f fs IH]; intros [|i]; try done.
  unfold SetOffset in *. simpl. f_equal. apply IH.
Qed.

Lemma At_identity fs fs' i :
  map identity fs' = map identity fs -> identity (At fs' i) = identity (At fs i).
Proof.
  intros H. assert (identity <$> (fs' !! i) = identity <$> (fs !! i)) as E.
  { rewrite <- !list_lookup_fmap. by f_equal. }
  rewrite !list_lookup_total_alt.
  assert (forall o, identity (default inhabitant o) =
                    default (identity inhabitant) (identity <$> o)) as Hd by (by intros []).
  by rewrite !Hd, E.
Qed.

Lemma type_of_identity fs fs' i :
  map identity fs' = map identity fs -> type_of fs' i = type_of fs i.
Proof.
  intros H. apply (At_identity _ _ i) in H. unfold identity in H.
  unfold type_of, GetTypeAsPrimitiveType.
  by replace (GetTypeDescriptor (At fs' i)) with (GetTypeDescriptor (At fs i)) by congruence.
Qed.

Lemma offset_of_eq i o fs : (i < length fs)%nat -> offset_of (SetOffset i o fs) i = o.
Proof.
  intros Hi. unfold offset_of, SetOffset. destruct (lookup_lt_is_Some_2 fs i Hi) as [f Hf].
  rewrite list_lookup_total_alt, list_lookup_alter, decide_True, Hf by done. done.
Qed.

Lemma offset_of_ne i j o fs : i <> j -> offset_of (SetOffset i o fs) j = offset_of fs j.
Proof.
  intros Hij. unfold offset_of, SetOffset.
  by rewrite !list_lookup_total_alt, list_lookup_alter_ne.
Qed.

(** ** The invariant of the loops *)

Section Loops.
Context (fs0 : list ArtField) (start : Z).

(** The bytes of the fields at the positions [ps]. *)
Definition sizes (ps : list nat) : Z := foldr (fun i s => size_of fs0 i + s) 0 ps.

#[export] Instance sizes_proper : Proper (Permutation ==> eq) sizes.
Proof.
  intros l l' Hp. unfold sizes. induction Hp; simpl; lia.
Qed.

Lemma sizes_app l l' : sizes (l ++ l') = sizes l + sizes l'.
Proof. induction l; simpl; lia. Qed.

Lemma ComponentSize_nonneg type : 0 <= ComponentSize type.
Proof. by destruct type. Qed.

Lemma sizes_nonneg l : 0 <= sizes l.
Proof.
  induction l as [|i l IH]; simpl; [done|].
  pose proof (ComponentSize_nonneg (type_of fs0 i)). unfold size_of. lia.
Qed.

(** The fields at [done] have their offsets. *)
Record laid (done : list nat) (l : Layout) : Prop := {
  laid_identity : map identity (fields l) = map identity fs0;
  laid_start : start <= field_offset l;
  laid_packed : packed start (field_offset l)
                  (map (field_extent (fields l)) done ++ map gap_extent (gaps l));
  laid_aligned : Forall (fun i => offset_of (fields l) i mod size_of fs0 i = 0) done;
  laid_gaps : Forall gap_ok (gaps l)
}.

Lemma laid_type done l i : laid done l -> type_of (fields l) i = type_of fs0 i.
Proof. intros H. apply type_of_identity, H. Qed.

Lemma laid_length done l : laid done l -> length (fields l) = length fs0.
Proof. intros H. apply laid_identity in H. apply (f_equal length) in H. by rewrite !length_map in H. Qed.

Lemma align_offset_laid n done l :
  width n -> 0 <= start -> laid done l -> field_offset l + n - 1 < 2 ^ 32 ->
  exists l', align_offset n l = Some l' /\ laid done l' /\
    field_offset l' = up n (field_offset l) /\ fields l' = fields l /\
    current_field l' = current_field l /\ num_reference_fields l' = num_reference_fields l.
Proof.
  intros Hn Hs Hl Hb. unfold align_offset. pose proof (laid_start _ _ Hl).
  destruct (up_bounds n (field_offset l) Hn) as [Hup Hal].
  destruct (IsAligned n (field_offset l)) eqn:E; simpl.
  { apply IsAligned_iff in E; [|done]. exists l. by rewrite up_aligned by done. }
  rewrite RoundUp_up by (done || lia).
  destruct (AddFieldGap_spec (field_offset l) (up n (field_offset l)) (gaps l))
    as (new & gaps' & -> & Hp & Hpk & Hok); [lia..|].
  eexists. split; [done|]. split; [|done]. destruct Hl as [Hid Hst Hpack Hali Hgap].
  split; simpl; try done; [lia| |by rewrite Hp; apply List.Forall_app].
  rewrite Hp, map_app, app_assoc, (Permutation_app_comm _ (map gap_extent new)).
  rewrite <- app_assoc, Permutation_app_comm.
  by apply (packed_app _ (field_offset l)); [lia|..].
Qed.

(** Giving a field an offset leaves the others where they are. *)
Lemma extents_SetOffset i o fs ps :
  i ∉ ps -> map (field_extent (SetOffset i o fs)) ps = map (field_extent fs) ps.
Proof.
  intros Hi. apply map_ext_in. intros j Hj. apply list_elem_of_In in Hj.
  assert (i <> j) by (intros ->; done). unfold field_extent, size_of.
  rewrite offset_of_ne by done. f_equal. f_equal. apply type_of_identity, SetOffset_identity.
Qed.

(** A field put in free space keeps the invariant. *)
Lemma laid_put done l l' i o :
  laid done l -> i ∉ done -> (i < length fs0)%nat ->
  fields l' = SetOffset i o (fields l) -> start <= field_offset l' ->
  o mod size_of fs0 i = 0 -> Forall gap_ok (gaps l') ->
  packed start (field_offset l')
    ((o, size_of fs0 i) :: map (field_extent (fields l)) done ++ map gap_extent (gaps l')) ->
  laid (i :: done) l'.
Proof.
  intros Hl Hi Hlt E Hs Ho Hg Hp.
  assert (type_of (SetOffset i o (fields l)) i = type_of fs0 i) as Ht.
  { rewrite <- (laid_type _ _ _ Hl). apply type_of_identity, SetOffset_identity. }
  assert ((i < length (fields l))%nat) by by rewrite (laid_length _ _ Hl).
  split; rewrite ?E; try done.
  - rewrite SetOffset_identity. apply Hl.
  - simpl. rewrite extents_SetOffset by done.
    replace (field_extent _ i) with (o, size_of fs0 i); [done|].
    unfold field_extent, size_of. by rewrite offset_of_eq, Ht by done.
  - constructor; [by rewrite offset_of_eq|].
    pose proof (laid_aligned _ _ Hl) as Ha. rewrite List.Forall_forall in Ha |- *.
    intros j Hj. rewrite offset_of_ne; [by apply Ha|].
    intros ->. by apply list_elem_of_In in Hj.
Qed.

Lemma laid_end done l l' i :
  laid done l -> i ∉ done -> (i < length fs0)%nat ->
  fields l' = SetOffset i (field_offset l) (fields l) -> gaps l' = gaps l ->
  width (size_of fs0 i) -> field_offset l mod size_of fs0 i = 0 ->
  field_offset l' = field_offset l + size_of fs0 i ->
  laid (i :: done) l'.
Proof.
  intros Hl Hi Hlt E Eg Hw Ha Eo. pose proof (laid_start _ _ Hl).
  assert (0 < size_of fs0 i) by (unfold width in Hw; lia).
  eapply laid_put; try done; [lia|by rewrite Eg; apply Hl|].
  rewrite Eg, Permutation_cons_append.
  apply (packed_app _ (field_offset l)); [lia|apply Hl|].
  apply packed_one. unfold within. simpl. lia.
Qed.

Lemma width_divides n m o : width n -> width m -> n <= m -> o mod m = 0 -> o mod n = 0.
Proof. unfold width. intros. assert (n = 1 \/ n = 2 \/ n = 4 \/ n = 8) as [->|[->|[->| ->]]] by done; zdiv. Qed.

(** A field in a gap: the rest of the gap is given back. *)
Lemma place_in_gap_laid done l i gap rest :
  0 <= start -> laid done l -> i ∉ done -> (i < length fs0)%nat -> field_offset l < 2 ^ 32 ->
  width (size_of fs0 i) -> gaps l = gap :: rest -> size_of fs0 i <= gap_size gap ->
  exists l', place_in_gap (size_of fs0 i) i gap rest l = Some l' /\ laid (i :: done) l' /\
    field_offset l' = field_offset l /\
    fields l' = SetOffset i (start_offset gap) (fields l) /\
    num_reference_fields l' = num_reference_fields l.
Proof.
  intros Hs Hl Hi Hlt Hb Hw Eg Hsz. pose proof Hl as [_ Hst Hp _ Hg].
  rewrite Eg in Hp, Hg. inversion Hg as [|? ? [Hgw Hga] Hrest]; subst.
  simpl in Hp. rewrite <- Permutation_middle in Hp.
  assert (within start (field_offset l) (gap_extent gap)) as Hin
    by (destruct Hp as [Hp _]; by inversion Hp).
  unfold within in Hin. simpl in Hin. assert (0 < size_of fs0 i) by (unfold width in Hw; lia).
  assert (exists new gaps',
    (if size_of fs0 i <? gap_size gap
     then AddFieldGap (u32 (start_offset gap + size_of fs0 i))
            (u32 (start_offset gap + gap_size gap)) rest
     else Some rest) = Some gaps' /\ gaps' ≡ₚ new ++ rest /\
    packed (start_offset gap + size_of fs0 i) (start_offset gap + gap_size gap)
      (map gap_extent new) /\ Forall gap_ok new) as (new & gaps' & E & Hpg & Hpk & Hok).
  { rewrite !wrap_u_id by (unfold in_u; lia). case_if; bools.
    - apply AddFieldGap_spec; lia.
    - exists [], rest. split_and!; try done; repeat constructor. }
  unfold place_in_gap. rewrite E. simpl. eexists. split; [done|]. split; [|done].
  eapply (laid_put done l); simpl; try done.
  - eapply width_divides; [..|exact Hga]; done.
  - rewrite Hpg. by apply List.Forall_app.
  - rewrite Hpg, map_app, app_assoc, (Permutation_app_comm _ (map gap_extent new)).
    rewrite <- app_assoc, app_comm_cons.
    eapply packed_cut; [exact Hp|].
    apply (packed_app _ (start_offset gap + size_of fs0 i) _ [_]); simpl; [lia| |done].
    apply packed_one. unfold within. simpl. lia.
Qed.

(** A primitive field of the current size goes to a gap or to the end. *)
Lemma place_field_laid done l i :
  0 <= start -> laid done l -> i ∉ done -> (i < length fs0)%nat ->
  width (size_of fs0 i) -> field_offset l mod size_of fs0 i = 0 ->
  field_offset l + size_of fs0 i < 2 ^ 32 ->
  exists l' o, place_field (size_of fs0 i) i l = Some l' /\ laid (i :: done) l' /\
    field_offset l <= field_offset l' <= field_offset l + size_of fs0 i /\
    field_offset l' mod size_of fs0 i = 0 /\
    fields l' = SetOffset i o (fields l) /\
    num_reference_fields l' = num_reference_fields l.
Proof.
  intros Hs Hl Hi Hlt Hw Ha Hb. pose proof (laid_start _ _ Hl).
  assert (0 < size_of fs0 i) by (unfold width in Hw; lia).
  assert (exists l' o, Some (place_at_end (size_of fs0 i) i l) = Some l' /\ laid (i :: done) l' /\
    field_offset l <= field_offset l' <= field_offset l + size_of fs0 i /\
    field_offset l' mod size_of fs0 i = 0 /\
    fields l' = SetOffset i o (fields l) /\
    num_reference_fields l' = num_reference_fields l) as Hend.
  { assert (u32 (field_offset l + size_of fs0 i) = field_offset l + size_of fs0 i) as E
      by (apply wrap_u_id; unfold in_u; lia).
    eexists _, _. split; [done|]. split; [by eapply laid_end|]. simpl. rewrite E.
    split; [lia|]. split; [|done]. rewrite Z.add_mod, Ha, Z.mod_same by lia. done. }
  unfold place_field. destruct (gaps l) as [|gap rest] eqn:Eg; [done|].
  case_if; bools; [|done].
  destruct (place_in_gap_laid done l i gap rest) as (l' & -> & Hl' & Eo & Ef & En); try done; [lia|].
  exists l', (start_offset gap). rewrite Eo. split_and!; done || lia.
Qed.

(** *** Shuffling *)

(** Before [ShuffleForward<n>]: primitive fields of at most [n] bytes wait,
    larger ones first, and at most seven bytes are lost. *)
Record ready (n : Z) (done grouped : list nat) (l : Layout) : Prop := {
  ready_laid : laid done l;
  ready_nodup : NoDup (done ++ grouped);
  ready_range : Forall (fun i => (i < length fs0)%nat) grouped;
  ready_prim : Forall (fun i => type_of fs0 i <> kPrimNot /\ width (size_of fs0 i) /\
                                size_of fs0 i <= n) grouped;
  ready_sorted : StronglySorted (fun i j => size_of fs0 j <= size_of fs0 i) grouped;
  ready_slack : up n (field_offset l) <= start + sizes done + 7
}.

Context (Hstart : 0 <= start).

Lemma ready_step n done i grouped l :
  width n -> start + sizes (done ++ i :: grouped) + 14 < 2 ^ 32 ->
  ready n done (i :: grouped) l -> n <= size_of fs0 i ->
  exists l1 l2 o, align_offset n l = Some l1 /\ place_field n i l1 = Some l2 /\
    ready n (i :: done) grouped l2 /\
    fields l2 = SetOffset i o (fields l) /\
    num_reference_fields l2 = num_reference_fields l.
Proof.
  intros Hn Hb [Hl Hnd Hr Hp Hs Hk] Hi.
  inversion Hr as [|? ? Hlt Hr']; subst. inversion Hp as [|? ? (Ht & Hw & Hle) Hp']; subst.
  inversion Hs as [|? ? Hs' Hhd]; subst. rewrite <- Permutation_middle in Hnd.
  inversion Hnd as [|? ? Hni Hnd']; subst. rewrite elem_of_app in Hni.
  rewrite sizes_app in Hb. simpl in Hb. pose proof (sizes_nonneg grouped).
  pose proof (sizes_nonneg done). pose proof (laid_start _ _ Hl).
  destruct (up_bounds n (field_offset l) Hn) as [Hup Hal].
  assert (size_of fs0 i = n) as En by lia.
  destruct (align_offset_laid n done l) as (l1 & E1 & Hl1 & Eo & Ef & _ & Enr); try done; [lia|].
  destruct (place_field_laid done l1 i) as (l2 & o & E2 & Hl2 & Hrng & Hm & Ef2 & En2);
    try done; rewrite ?Eo, ?En; try done; try tauto; [lia|].
  rewrite En in E2, Hrng, Hm.
  exists l1, l2, o. split; [done|]. split; [done|]. split; [|split; congruence].
  split; try done. rewrite up_aligned by done. simpl. lia.
Qed.

(** [ShuffleForward<n>] places the fields of [n] bytes. *)
Lemma ShuffleForward_ready n done grouped l :
  width n -> start + sizes (done ++ grouped) + 14 < 2 ^ 32 -> ready n done grouped l ->
  exists done' grouped' l', ShuffleForward n grouped l = Some (grouped', l') /\
    done' ++ grouped' ≡ₚ done ++ grouped /\ ready n done' grouped' l' /\
    Forall (fun i => size_of fs0 i < n) grouped' /\
    (forall j, j ∈ done -> j ∈ done' /\ offset_of (fields l') j = offset_of (fields l) j) /\
    num_reference_fields l' = num_reference_fields l.
Proof.
  intros Hn. revert done l. induction grouped as [|i grouped IH]; intros done l Hb Hr.
  { exists done, [], l. split_and!; try done. }
  simpl. fold (type_of (fields l) i). rewrite (laid_type done) by apply Hr.
  fold (size_of fs0 i). destruct (size_of fs0 i <? n) eqn:E; bools.
  { exists done, (i :: grouped), l. split_and!; try done. constructor; [done|].
    pose proof (ready_sorted _ _ _ _ Hr) as Hs. inversion Hs as [|? ? _ Hhd]; subst.
    eapply List.Forall_impl, Hhd. simpl. lia. }
  destruct (ready_step n done i grouped l) as (l1 & l2 & o & -> & Epf & Hr2 & Ef & En); try done.
  pose proof (ready_prim _ _ _ _ Hr) as Hp. inversion Hp as [|? ? (Ht & _ & _) _]; subst.
  simpl. rewrite decide_False by done. rewrite Epf. simpl.
  destruct (IH (i :: done) l2) as (done' & grouped' & l' & -> & Hperm & Hr' & Hlt & Hoff & Hnr);
    [by rewrite <- Permutation_middle in Hb|done|].
  exists done', grouped', l'. split_and!; try done.
  - by rewrite Hperm, <- Permutation_middle.
  - intros j Hj. destruct (Hoff j) as [Hj' ->]; [by right|]. split; [done|]. rewrite Ef.
    apply offset_of_ne. intros ->. pose proof (ready_nodup _ _ _ _ Hr) as Hnd.
    apply list.NoDup_app in Hnd as (_ & Hd & _). apply (Hd j Hj). by left.
  - congruence.
Qed.

(** The fields left by one pass fit the next. *)
Lemma ready_half n m done grouped l :
  width m -> n = 2 * m -> ready n done grouped l ->
  Forall (fun i => size_of fs0 i < n) grouped -> ready m done grouped l.
Proof.
  intros Hm -> [Hl Hnd Hr Hp Hs Hk] Hlt. split; try done.
  - apply Forall_lookup_2. intros k i Hi.
    destruct (Forall_lookup_1 _ _ _ _ Hp Hi) as (? & Hw & _).
    pose proof (Forall_lookup_1 _ _ _ _ Hlt Hi). simpl in *. split_and!; try done.
    unfold width in *. lia.
  - unfold up in *. destruct Hm as [->|[->|[->| ->]]]; zdiv.
Qed.

(** *** References *)

(** [done] are the references placed so far, the last one first. *)
Record placing (num_fields : Z) (done grouped : list nat) (l : Layout) : Prop := {
  placing_laid : laid done l;
  placing_nodup : NoDup (done ++ grouped);
  placing_range : Forall (fun i => (i < length fs0)%nat) grouped;
  placing_count : current_field l + Z.of_nat (length grouped) = num_fields;
  placing_refs : Forall (fun i => type_of fs0 i = kPrimNot) done;
  placing_num : num_reference_fields l = Z.of_nat (length done);
  placing_offset : (done = [] /\ field_offset l = start) \/
                   (done <> [] /\ field_offset l = up 4 start + 4 * Z.of_nat (length done));
  placing_at : forall k i, rev done !! k = Some i ->
                 offset_of (fields l) i = up 4 start + 4 * Z.of_nat k
}.

Lemma sizes_refs done :
  Forall (fun i => type_of fs0 i = kPrimNot) done -> sizes done = 4 * Z.of_nat (length done).
Proof.
  induction 1 as [|i done Hi _ IH]; [done|]. simpl.
  assert (size_of fs0 i = 4) by (unfold size_of; by rewrite Hi). lia.
Qed.

Lemma placing_step num_fields done i grouped l :
  start + sizes (done ++ i :: grouped) + 14 < 2 ^ 32 ->
  placing num_fields done (i :: grouped) l -> type_of fs0 i = kPrimNot ->
  exists l1, align_offset 4 l = Some l1 /\
    placing num_fields (i :: done) grouped (place_reference i l1).
Proof.
  intros Hb [Hl Hnd Hr Hc Href Hnum Hoff Hat] Ht.
  apply List.Forall_cons_iff in Hr as [Hlt Hr']. rewrite <- Permutation_middle in Hnd.
  pose proof (NoDup_cons_1_1 _ _ Hnd) as Hni. rewrite elem_of_app in Hni.
  assert (size_of fs0 i = 4) as Esz by (unfold size_of; by rewrite Ht).
  rewrite sizes_app, sizes_refs in Hb by done. simpl in Hb. rewrite Esz in Hb.
  pose proof (sizes_nonneg grouped). assert (width 4) as H4 by (unfold width; lia).
  destruct (up_bounds 4 start H4) as [Hup Hupm].
  assert (up 4 (field_offset l) = up 4 start + 4 * Z.of_nat (length done)) as Eup.
  { destruct Hoff as [[-> ->]|[_ ->]]; [simpl; lia|]. apply up_aligned; [done|zdiv]. }
  destruct (up_bounds 4 (field_offset l) H4) as [Hupl Huplm].
  destruct (align_offset_laid 4 done l) as (l1 & E1 & Hl1 & Eo & Ef & Ec & En); try done; [lia|].
  rewrite Eup in Eo. exists l1. split; [done|].
  assert (u32 (field_offset l1 + sizeof_HeapReference) = field_offset l1 + 4) as Ew
    by (apply wrap_u_id; unfold in_u, sizeof_HeapReference; lia).
  split; simpl; try done.
  - eapply (laid_end done l1); simpl; rewrite ?Esz; try done; [tauto|].
    rewrite Eo, <- Eup. done.
  - simpl in Hc. lia.
  - by constructor.
  - lia.
  - right. split; [done|]. lia.
  - intros k j Hk. apply lookup_app_Some in Hk as [Hk|[Hk1 Hk]].
    + rewrite offset_of_ne, Ef; [by apply Hat|]. intros ->.
      apply list_elem_of_lookup_2, list_elem_of_In, in_rev, list_elem_of_In in Hk. tauto.
    + rewrite length_rev in Hk1, Hk. apply list_lookup_singleton_Some in Hk as [Hk ->].
      rewrite offset_of_eq by (rewrite (laid_length _ _ Hl1); done). rewrite Eo. lia.
Qed.

Lemma place_references_placing num_fields done grouped l :
  start + sizes (done ++ grouped) + 14 < 2 ^ 32 -> placing num_fields done grouped l ->
  exists refs grouped' l', place_references num_fields grouped l = Some (grouped', l') /\
    grouped = refs ++ grouped' /\ placing num_fields (rev refs ++ done) grouped' l' /\
    (forall i rest, grouped' = i :: rest -> type_of fs0 i <> kPrimNot).
Proof.
  revert done l. induction grouped as [|i grouped IH]; intros done l Hb Hp.
  { by exists [], [], l. }
  simpl. pose proof (placing_count _ _ _ _ Hp) as Hc. simpl in Hc.
  replace (current_field l <? num_fields) with true by (symmetry; apply Z.ltb_lt; lia).
  fold (type_of (fields l) i). rewrite (laid_type done) by apply Hp.
  destruct (decide (type_of fs0 i <> kPrimNot)) as [Ht|Ht].
  { exists [], (i :: grouped), l. split_and!; try done. by intros ? ? [= -> _]. }
  apply dec_stable in Ht.
  destruct (placing_step num_fields done i grouped l) as (l1 & E1 & Hp1); try done.
  unfold sizeof_HeapReference at 1. rewrite E1. simpl.
  destruct (IH (i :: done) (place_reference i l1)) as (refs & grouped' & l' & -> & -> & Hp' & Hn);
    [by rewrite <- Permutation_middle in Hb|done|].
  exists (i :: refs), grouped', l'. split_and!; try done. simpl. by rewrite <- app_assoc.
Qed.

End Loops.

(** ** The order of fields *)

(** The comparator's groups: references, then primitives by falling size. *)
Definition rank (type : Primitive) : Z :=
  match type with
  | kPrimNot => 0 | kPrimLong => 1 | kPrimDouble => 2 | kPrimInt => 3 | kPrimFloat => 4
  | kPrimChar => 5 | kPrimShort => 6 | kPrimBoolean => 7 | kPrimByte => 8 | kPrimVoid => 9
  end.

Lemma LinkFieldsComparator_rank f g :
  LinkFieldsComparator f g =
  (rank (GetTypeAsPrimitiveType f) <? rank (GetTypeAsPrimitiveType g))
  || ((rank (GetTypeAsPrimitiveType f) =? rank (GetTypeAsPrimitiveType g))
      && (field_dex_idx_ f <? field_dex_idx_ g)).
Proof.
  unfold LinkFieldsComparator.
  destruct (GetTypeAsPrimitiveType f), (GetTypeAsPrimitiveType g); reflexivity.
Qed.

Lemma in_order_rank fs i j :
  in_order fs i j <->
  rank (type_of fs i) < rank (type_of fs j) \/
  (rank (type_of fs i) = rank (type_of fs j) /\
   field_dex_idx_ (At fs i) <= field_dex_idx_ (At fs j)).
Proof.
  unfold in_order. rewrite LinkFieldsComparator_rank. unfold type_of.
  rewrite orb_false_iff, andb_false_iff, Z.ltb_ge, Z.eqb_neq, Z.ltb_ge. lia.
Qed.

#[export] Instance in_order_total fs : Total (in_order fs).
Proof. intros i j. rewrite !in_order_rank. lia. Qed.
#[export] Instance in_order_trans fs : Transitive (in_order fs).
Proof. intros i j k. rewrite !in_order_rank. lia. Qed.

Lemma grouped_perm fs : grouped_and_sorted_fields fs ≡ₚ seq 0 (length fs).
Proof. apply merge_sort_Permutation. Qed.

Lemma grouped_sorted fs : StronglySorted (in_order fs) (grouped_and_sorted_fields fs).
Proof. apply StronglySorted_merge_sort; apply _. Qed.

Lemma in_order_size fs i j :
  type_of fs i <> kPrimNot -> in_order fs i j ->
  type_of fs j <> kPrimNot /\ size_of fs j <= size_of fs i.
Proof.
  rewrite in_order_rank. unfold size_of.
  destruct (type_of fs i), (type_of fs j); simpl; intros; split; try done; lia.
Qed.

Lemma StronglySorted_impl_in {A} (R S : A -> A -> Prop) l :
  (forall x y, x ∈ l -> R x y -> S x y) -> StronglySorted R l -> StronglySorted S l.
Proof.
  intros H Hs. induction Hs as [|x l Hs IH Hx]; constructor.
  - apply IH. intros. apply H; [by right|done].
  - eapply List.Forall_impl, Hx. intros y Hy. apply H; [by left|done].
Qed.

Lemma StronglySorted_app_inv_l {A} (R : A -> A -> Prop) l l' :
  StronglySorted R (l ++ l') -> StronglySorted R l.
Proof.
  induction l as [|x l IH]; [constructor|]. intros H. inversion H as [|? ? Hs Hx]; subst.
  apply List.Forall_app in Hx as [? ?]. constructor; auto.
Qed.

Lemma filter_split {A} (P : A -> Prop) `{!forall x, Decision (P x)} l l' :
  Forall P l -> Forall (fun x => ~ P x) l' -> filter P (l ++ l') = l.
Proof.
  intros Hl Hl'. rewrite list.filter_app.
  assert (filter P l' = []) as ->.
  { induction Hl' as [|x l' Hx _ IH]; [done|]. by rewrite filter_cons_False. }
  rewrite app_nil_r. induction Hl as [|x l Hx _ IH]; [done|].
  rewrite filter_cons_True by done. by f_equal.
Qed.

Lemma StronglySorted_app_inv_r {A} (R : A -> A -> Prop) l l' :
  StronglySorted R (l ++ l') -> StronglySorted R l'.
Proof. induction l as [|x l IH]; [done|]. intros H. inversion H; auto. Qed.

(** Fields that have a type. *)
Definition typed_fields (fs : list ArtField) : Prop :=
  Forall (fun f => GetTypeAsPrimitiveType f <> kPrimVoid) fs.

Lemma typed_width fs i :
  typed_fields fs -> (i < length fs)%nat -> width (size_of fs i).
Proof.
  intros Hf Hi. destruct (lookup_lt_is_Some_2 fs i Hi) as [f Hl].
  pose proof (Forall_lookup_1 _ _ _ _ Hf Hl) as Ht. simpl in Ht.
  unfold size_of, type_of, width. rewrite (list_lookup_total_correct _ _ _ Hl).
  destruct (GetTypeAsPrimitiveType f); simpl; unfold kObjectReferenceSize; tauto || lia.
Qed.

(** ** The layout

    [refs] are the reference fields in the order of the linker. *)
Record layout_ok (start : Z) (fs : list ArtField) (refs : list nat) (l : Layout) : Prop := {
  lo_identity : map identity (fields l) = map identity fs;
  lo_packed : packed start (field_offset l) (map (field_extent (fields l)) (seq 0 (length fs)));
  lo_aligned : forall i, (i < length fs)%nat -> offset_of (fields l) i mod size_of fs i = 0;
  lo_slack : start <= field_offset l <= start + sizes fs (seq 0 (length fs)) + 7;
  lo_refs : refs ≡ₚ filter (fun i => type_of fs i = kPrimNot) (seq 0 (length fs));
  lo_refs_sorted : StronglySorted (in_order fs) refs;
  lo_num : num_reference_fields l = Z.of_nat (length refs);
  lo_at : forall k i, refs !! k = Some i ->
            offset_of (fields l) i = up 4 start + 4 * Z.of_nat k
}.

Section Layouts.
Context (start : Z) (fs : list ArtField).
Context (Hstart : 0 <= start) (Htyped : typed_fields fs).
Context (Hfit : start + sizes fs (seq 0 (length fs)) + 14 < 2 ^ 32).

Lemma placing_initial :
  placing fs start (Z.of_nat (length fs)) [] (grouped_and_sorted_fields fs)
    (mkLayout start [] fs 0 0).
Proof.
  split; simpl; try done.
  - split; simpl; try done. split; constructor.
  - rewrite grouped_perm. apply NoDup_seq.
  - rewrite grouped_perm. apply List.Forall_forall. intros i Hi. apply in_seq in Hi. lia.
  - rewrite grouped_perm, length_seq. lia.
  - by left.
Qed.

Lemma placing_ready refs rest l :
  grouped_and_sorted_fields fs = refs ++ rest ->
  (forall i rest', rest = i :: rest' -> type_of fs i <> kPrimNot) ->
  placing fs start (Z.of_nat (length fs)) (rev refs) rest l ->
  ready fs start 8 (rev refs) rest l.
Proof.
  intros Hg Hn [Hl Hnd Hr Hc Href Hnum Hoff Hat].
  pose proof (grouped_sorted fs) as Hs. rewrite Hg in Hs. apply StronglySorted_app_inv_r in Hs.
  assert (Forall (fun i => type_of fs i <> kPrimNot) rest) as Hp.
  { destruct rest as [|i rest]; [constructor|]. pose proof (Hn _ _ eq_refl) as Hi.
    inversion Hs as [|? ? _ Hhd]; subst. constructor; [done|].
    eapply List.Forall_impl, Hhd. intros j Hj. by apply (in_order_size fs i j). }
  split; try done.
  - apply Forall_lookup_2. intros k i Hi. split; [exact (Forall_lookup_1 _ _ _ _ Hp Hi)|].
    pose proof (typed_width fs i Htyped (Forall_lookup_1 _ _ _ _ Hr Hi)) as Hw.
    split; [done|]. unfold width in Hw. lia.
  - eapply StronglySorted_impl_in, Hs. intros i j Hi Hij. simpl.
    apply in_order_size in Hij; [tauto|]. rewrite List.Forall_forall in Hp.
    by apply Hp, list_elem_of_In.
  - rewrite (sizes_refs fs) by done. rewrite length_rev in *.
    destruct (up_bounds 4 start) as [? ?]; [unfold width; lia|].
    destruct Hoff as [[E ->]|[_ ->]]; unfold up in *; [|zdiv].
    zdiv.
Qed.

(** What a pass leaves alone. *)
Definition kept (done : list nat) (l : Layout) (done' : list nat) (l' : Layout) : Prop :=
  (forall j, j ∈ done -> j ∈ done' /\ offset_of (fields l') j = offset_of (fields l) j) /\
  num_reference_fields l' = num_reference_fields l.

Lemma kept_trans done l done1 l1 done2 l2 :
  kept done l done1 l1 -> kept done1 l1 done2 l2 -> kept done l done2 l2.
Proof.
  intros [H1 N1] [H2 N2]. split; [|congruence]. intros j Hj.
  destruct (H1 j Hj) as [Hj1 E1]. destruct (H2 j Hj1) as [Hj2 E2]. split; congruence || done.
Qed.

(** A pass over fields waiting in order, one of the four. *)
Lemma pass n done grouped l :
  width n -> done ++ grouped ≡ₚ seq 0 (length fs) -> ready fs start n done grouped l ->
  exists done' grouped' l', ShuffleForward n grouped l = Some (grouped', l') /\
    done' ++ grouped' ≡ₚ seq 0 (length fs) /\ ready fs start n done' grouped' l' /\
    Forall (fun i => size_of fs i < n) grouped' /\ kept done l done' l'.
Proof.
  intros Hn Hp Hr.
  destruct (ShuffleForward_ready fs start Hstart n done grouped l) as
    (done' & grouped' & l' & E & Hperm & H); [done|by rewrite Hp|done|].
  exists done', grouped', l'. split; [done|]. split; [by rewrite Hperm|]. unfold kept. tauto.
Qed.

(** The four passes place every primitive field. *)
Lemma passes_place refs grouped l :
  refs ++ grouped ≡ₚ seq 0 (length fs) -> ready fs start 8 refs grouped l ->
  exists done l',
    ('(grouped, l) ← ShuffleForward 8 grouped l;
     '(grouped, l) ← ShuffleForward 4 grouped l;
     '(grouped, l) ← ShuffleForward 2 grouped l;
     '(grouped, l) ← ShuffleForward 1 grouped l;
     match grouped with [] => Some l | _ => None end) = Some l' /\
    done ≡ₚ seq 0 (length fs) /\ ready fs start 1 done [] l' /\ kept refs l done l'.
Proof.
  intros Hp Hr.
  destruct (pass 8 refs grouped l) as (d8 & q8 & l8 & -> & P8 & R8 & L8 & K8);
    [unfold width; lia|done..|]. simpl.
  apply (ready_half _ _ 8 4) in R8; [|unfold width; lia|done..].
  destruct (pass 4 d8 q8 l8) as (d4 & q4 & l4 & -> & P4 & R4 & L4 & K4);
    [unfold width; lia|done..|]. simpl.
  apply (ready_half _ _ 4 2) in R4; [|unfold width; lia|done..].
  destruct (pass 2 d4 q4 l4) as (d2 & q2 & l2 & -> & P2 & R2 & L2 & K2);
    [unfold width; lia|done..|]. simpl.
  apply (ready_half _ _ 2 1) in R2; [|unfold width; lia|done..].
  destruct (pass 1 d2 q2 l2) as (d1 & q1 & l1 & -> & P1 & R1 & L1 & K1);
    [unfold width; lia|done..|]. simpl.
  destruct q1 as [|i q1].
  - exists d1, l1. rewrite app_nil_r in P1. split_and!; try done.
    eauto using kept_trans.
  - exfalso. pose proof (ready_prim _ _ _ _ _ _ R1) as Hw.
    inversion L1; subst. inversion Hw as [|? ? (_ & Hwi & _) _]; subst.
    unfold width in Hwi. lia.
Qed.

Lemma layout_fields_ok :
  exists refs l, layout_fields start fs = Some l /\ layout_ok start fs refs l.
Proof.
  destruct (place_references_placing fs start Hstart (Z.of_nat (length fs)) []
              (grouped_and_sorted_fields fs) (mkLayout start [] fs 0 0))
    as (refs & rest & l & E & Hg & Hp & Hn); [simpl; by rewrite grouped_perm|apply placing_initial|].
  rewrite app_nil_r in Hp. pose proof (grouped_perm fs) as Hgp. rewrite Hg in Hgp.
  pose proof (placing_ready refs rest l Hg Hn Hp) as Hr.
  destruct (passes_place (rev refs) rest l) as (ds & l' & E' & Hd & Hr' & [Hk Hkn]);
    [by rewrite <- Permutation_rev|done|].
  exists refs, l'. split; [unfold layout_fields; rewrite E; exact E'|].
  destruct Hr' as [[Hid Hst Hpk Hal _] _ _ _ _ Hsl]. rewrite Hd in Hsl. split; try done.
  - apply packed_app_inv in Hpk as [Hpk _]. by rewrite Hd in Hpk.
  - intros i Hi. rewrite List.Forall_forall in Hal. apply Hal. apply list_elem_of_In.
    rewrite Hd. apply elem_of_seq. lia.
  - destruct (up_bounds 1 (field_offset l')) as [? _]; [unfold width|]; lia.
  - rewrite <- Hgp, filter_split; [done| |].
    + rewrite (Permutation_rev refs). apply (placing_refs _ _ _ _ _ _ Hp).
    + eapply List.Forall_impl, (ready_prim _ _ _ _ _ _ Hr). simpl. tauto.
  - pose proof (grouped_sorted fs) as Hs. rewrite Hg in Hs.
    exact (StronglySorted_app_inv_l _ _ _ Hs).
  - rewrite Hkn, (placing_num _ _ _ _ _ _ Hp), length_rev. done.
  - intros k i Hi. rewrite <- (placing_at _ _ _ _ _ _ Hp k i) by by rewrite rev_involutive.
    apply Hk, list_elem_of_In, in_rev. rewrite rev_involutive.
    by eapply list_elem_of_In, list_elem_of_lookup_2.
Qed.

End Layouts.
