(* ===== verification/ObjectLayout.v ===== *)
(** * Classes, their layout and the references in their instances
      ([runtime/class_linker.cc], [runtime/mirror/class-inl.h], [object-inl.h],
      [object-refvisitor-inl.h])

    [LinkFields] for the instance and the static fields of a class,
    [CreateReferenceInstanceOffsets], the size computed when a class is
    allocated, and the visit of an object's references by the collector. *)
From Stdlib Require Import String Ascii.
From S2P Require Import Prelude BitUtils MirrorClass FieldLayout.

(** ** Classes *)

Definition kClassFlagNormal : Z := 0x00000000.
Definition kClassFlagNoReferenceFields : Z := 0x00000001.
Definition kClassFlagString : Z := 0x00000004.
Definition kClassFlagObjectArray : Z := 0x00000008.
Definition kClassFlagClass : Z := 0x00000010.
Definition kClassFlagClassLoader : Z := 0x00000020.
Definition kClassFlagDexCache : Z := 0x00000040.
Definition kClassFlagSoftReference : Z := 0x00000080.
Definition kClassFlagWeakReference : Z := 0x00000100.
Definition kClassFlagFinalizerReference : Z := 0x00000200.
Definition kClassFlagPhantomReference : Z := 0x00000400.
Definition kClassFlagReference : Z :=
  kClassFlagSoftReference ||| kClassFlagWeakReference ||| kClassFlagFinalizerReference
  ||| kClassFlagPhantomReference.

Definition kClassWalkSuper : Z := 0xC0000000.
Definition kObjectHeaderSize : Z := 8.
Definition sizeof_Object : Z := 8.
Definition ClassOffset : Z := 0.

(** Two header words, eight references, three 64-bit pointers, thirteen 32-bit
    words and two 16-bit ones. *)
Definition sizeof_Class : Z := sizeof_Object + 8 * 4 + 3 * 8 + 13 * 4 + 2 * 2.

(** What linking fields reads and writes of a [mirror::Class].
    [is_class_or_array] is [IsClassClass() || IsArrayClass()]; [instantiable] and
    [vtable_length] are answers about its methods. *)
Record LinkedClass := mkLinked {
  class_descriptor : string;
  class_resolved : bool;
  is_class_or_array : bool;
  instantiable : bool;
  vtable_length : Z;
  ifields_ : list ArtField;
  sfields_ : list ArtField;
  class_flags_ : Z;
  num_reference_instance_fields_ : Z;
  num_reference_static_fields_ : Z;
  object_size_ : Z;
  reference_instance_offsets_ : Z
}.

Definition IsStringClass (k : LinkedClass) : bool :=
  negb (class_flags_ k &&& kClassFlagString =? 0).
Definition IsVariableSize (k : LinkedClass) : bool := is_class_or_array k || IsStringClass k.
Definition ShouldHaveEmbeddedVTable (k : LinkedClass) : bool := instantiable k.

(** The results of [LinkFields] are stored in the class. *)
Definition set_static_fields (fs : list ArtField) (num : Z) (k : LinkedClass) : LinkedClass :=
  mkLinked (class_descriptor k) (class_resolved k) (is_class_or_array k) (instantiable k)
    (vtable_length k) (ifields_ k) fs (class_flags_ k) (num_reference_instance_fields_ k) num
    (object_size_ k) (reference_instance_offsets_ k).
Definition set_instance_fields (fs : list ArtField) (num flags : Z) (k : LinkedClass) : LinkedClass :=
  mkLinked (class_descriptor k) (class_resolved k) (is_class_or_array k) (instantiable k)
    (vtable_length k) fs (sfields_ k) flags num (num_reference_static_fields_ k)
    (object_size_ k) (reference_instance_offsets_ k).
Definition SetObjectSize (size : Z) (k : LinkedClass) : LinkedClass :=
  mkLinked (class_descriptor k) (class_resolved k) (is_class_or_array k) (instantiable k)
    (vtable_length k) (ifields_ k) (sfields_ k) (class_flags_ k)
    (num_reference_instance_fields_ k) (num_reference_static_fields_ k) size
    (reference_instance_offsets_ k).
Definition SetReferenceInstanceOffsets (offsets : Z) (k : LinkedClass) : LinkedClass :=
  mkLinked (class_descriptor k) (class_resolved k) (is_class_or_array k) (instantiable k)
    (vtable_length k) (ifields_ k) (sfields_ k) (class_flags_ k)
    (num_reference_instance_fields_ k) (num_reference_static_fields_ k) (object_size_ k) offsets.

Definition SetResolved (k : LinkedClass) : LinkedClass :=
  mkLinked (class_descriptor k) true (is_class_or_array k) (instantiable k)
    (vtable_length k) (ifields_ k) (sfields_ k) (class_flags_ k)
    (num_reference_instance_fields_ k) (num_reference_static_fields_ k) (object_size_ k)
    (reference_instance_offsets_ k).

(** ** Size of a class object *)

(** [while (gap >= size && num != 0) { --num; gap -= size; }] *)
Fixpoint shuffle_count (fuel : nat) (size gap num : Z) : Z * Z :=
  match fuel with
  | O => (gap, num)
  | S fuel =>
      if (size <=? gap) && negb (num =? 0)
      then shuffle_count fuel size (u32 (gap - size)) (u32 (num - 1))
      else (gap, num)
  end.

Definition ComputeClassSize (has_embedded_vtable : bool)
    (num_vtable_entries num_8bit num_16bit num_32bit num_64bit num_ref pointer_size : Z) : Z :=
  let size := sizeof_Class in
  let size :=
    if has_embedded_vtable then
      u32 (u32 (RoundUp 64 (size + 4) pointer_size + pointer_size)
           + num_vtable_entries * pointer_size)
    else size in
  let size := u32 (size + num_ref * sizeof_HeapReference) in
  let '(size, num_32bit, num_16bit, num_8bit) :=
    if negb (IsAligned 8 size) && (0 <? num_64bit) then
      let gap := 8 - (size &&& 7) in
      let size := u32 (size + gap) in
      let '(gap, num_32bit) := shuffle_count 8 4 gap num_32bit in
      let '(gap, num_16bit) := shuffle_count 8 2 gap num_16bit in
      let '(gap, num_8bit) := shuffle_count 8 1 gap num_8bit in
      (size, num_32bit, num_16bit, num_8bit)
    else (size, num_32bit, num_16bit, num_8bit) in
  u32 (size + (num_8bit * 1 + num_16bit * 2 + num_32bit * 4 + num_64bit * 8)).

Definition GetFirstReferenceStaticFieldOffsetDuringLinking (pointer_size : Z) (k : LinkedClass) : Z :=
  if ShouldHaveEmbeddedVTable k
  then ComputeClassSize true (vtable_length k) 0 0 0 0 0 pointer_size
  else sizeof_Class.

Definition GetFirstReferenceInstanceFieldOffset (supers : list LinkedClass) : Z :=
  match supers with
  | super_class :: _ => RoundUp 32 (object_size_ super_class) sizeof_HeapReference
  | [] => ClassOffset
  end.

(** [SizeOfClassWithoutEmbeddedTables]: the static fields of a class definition
    are counted by size, repeated indexes once; [None] is an unknown descriptor. *)
Record FieldCounts := mkCounts { num_ref : Z; num_8 : Z; num_16 : Z; num_32 : Z; num_64 : Z }.

Definition count_field (f : ArtField) (c : FieldCounts) : option FieldCounts :=
  match GetTypeDescriptor f with
  | String ("L" | "[") _ => Some (mkCounts (num_ref c + 1) (num_8 c) (num_16 c) (num_32 c) (num_64 c))
  | String ("J" | "D") _ => Some (mkCounts (num_ref c) (num_8 c) (num_16 c) (num_32 c) (num_64 c + 1))
  | String ("I" | "F") _ => Some (mkCounts (num_ref c) (num_8 c) (num_16 c) (num_32 c + 1) (num_64 c))
  | String ("S" | "C") _ => Some (mkCounts (num_ref c) (num_8 c) (num_16 c + 1) (num_32 c) (num_64 c))
  | String ("B" | "Z") _ => Some (mkCounts (num_ref c) (num_8 c + 1) (num_16 c) (num_32 c) (num_64 c))
  | _ => None
  end%char.

Definition kDexNoIndex : Z := 0xFFFFFFFF.

Fixpoint count_fields (last_field_idx : Z) (fs : list ArtField) (c : FieldCounts) :
    option FieldCounts :=
  match fs with
  | [] => Some c
  | f :: fs =>
      let field_idx := field_dex_idx_ f in
      if field_idx =? last_field_idx then count_fields last_field_idx fs c
      else c ← count_field f c; count_fields field_idx fs c
  end.

Definition SizeOfClassWithoutEmbeddedTables (pointer_size : Z) (static_fields : list ArtField) :
    option Z :=
  c ← count_fields kDexNoIndex static_fields (mkCounts 0 0 0 0 0);
  Some (ComputeClassSize false 0 (num_8 c) (num_16 c) (num_32 c) (num_64 c) (num_ref c)
          pointer_size).

(** The static or instance fields of a class definition are loaded in their
    order, repeated indexes once ([LoadClassMembers]). *)
Fixpoint load_fields (loaded : nat) (last_field_idx : Z) (fs : list ArtField) : list ArtField :=
  match fs with
  | [] => []
  | f :: fs =>
      if (loaded =? 0)%nat || (last_field_idx <? field_dex_idx_ f)
      then f :: load_fields (S loaded) (field_dex_idx_ f) fs
      else load_fields loaded last_field_idx fs
  end.
Definition LoadFields (fs : list ArtField) : list ArtField := load_fields 0 0 fs.

(** ** Linking fields *)

Definition is_Reference (k : LinkedClass) : bool :=
  String.eqb (class_descriptor k) "Ljava/lang/ref/Reference;".
Definition is_Object (k : LinkedClass) : bool :=
  String.eqb (class_descriptor k) "Ljava/lang/Object;".

Definition check (b : bool) : option unit := if b then Some tt else None.

Section Linking.
Context (kIsDebugBuild : bool) (pointer_size : Z).

Definition dcheck (b : bool) : option unit := check (negb kIsDebugBuild || b).

Definition start_of_fields (is_static : bool) (k : LinkedClass) (supers : list LinkedClass) :
    option Z :=
  if is_static then Some (GetFirstReferenceStaticFieldOffsetDuringLinking pointer_size k)
  else
    match supers with
    | super_class :: _ =>
        _ ← check (class_resolved super_class);
        Some (object_size_ super_class)
    | [] => Some 0
    end.

(** [java.lang.ref.Reference.referent] is not counted. *)
Definition adjust_references (is_static : bool) (k : LinkedClass) (fs : list ArtField)
    (num_reference_fields : Z) : option Z :=
  if negb is_static && is_Reference k then
    _ ← check (num_reference_fields =? Z.of_nat (length fs));
    _ ← check (match fs !! (length fs - 1)%nat with Some f => String.eqb (GetName f) "referent" | None => false end);
    Some (num_reference_fields - 1)
  else Some num_reference_fields.

(** The count of references of a class and its superclasses. *)
Definition total_reference_instance_fields (chain : list LinkedClass) : Z :=
  foldr (fun k total => num_reference_instance_fields_ k + total) 0 chain.

Definition check_references (num_reference_fields : Z) (k : LinkedClass)
    (supers : list LinkedClass) : option unit :=
  _ ← dcheck (bool_decide ((supers = []) <-> is_Object k = true));
  dcheck (let total := total_reference_instance_fields (k :: supers) in
          match supers with
          | [] => total =? 1
          | _ => 1 + num_reference_fields <=? total
          end).

Definition store_instance_fields (fs : list ArtField) (num_reference_fields size : Z)
    (k : LinkedClass) (supers : list LinkedClass) : option LinkedClass :=
  let flags :=
    if (num_reference_fields =? 0) || bool_decide (supers = []) then
      if match supers with
         | [] => true
         | super_class :: _ => negb (class_flags_ super_class &&& kClassFlagNoReferenceFields =? 0)
         end
      then class_flags_ k ||| kClassFlagNoReferenceFields
      else class_flags_ k
    else class_flags_ k in
  let k := set_instance_fields fs num_reference_fields flags k in
  _ ← check_references num_reference_fields k supers;
  if negb (IsVariableSize k) then
    _ ← dcheck (sizeof_Object <=? size);
    let previous_size := object_size_ k in
    _ ← check ((previous_size =? 0) || (previous_size =? size));
    Some (SetObjectSize size k)
  else Some k.

(** The loop over the fields of a debug build: the names are in order, the
    references follow each other, and a primitive field before their end is
    smaller than a reference and before their start. *)
Fixpoint check_offsets (is_reference_class : bool) (start_ref_offset end_ref_offset : Z)
    (prev_field : option ArtField) (current_ref_offset : Z) (fs : list ArtField) : bool :=
  match fs with
  | [] => current_ref_offset =? end_ref_offset
  | field :: fs =>
      let ordered :=
        match prev_field with
        | Some prev => String.leb (GetName prev) (GetName field)
        | None => true
        end in
      let type := GetTypeAsPrimitiveType field in
      let is_primitive :=
        negb (bool_decide (type = kPrimNot))
        || (is_reference_class && String.eqb (GetName field) "referent") in
      let offset := offset_ field in
      if is_primitive then
        let type_size := ComponentSize type in
        ordered
        && (negb (offset <? end_ref_offset)
            || ((type_size <? sizeof_HeapReference) && (offset <? start_ref_offset)
                && (offset + type_size <=? start_ref_offset)
                && negb (IsAligned 4 offset)))
        && check_offsets is_reference_class start_ref_offset end_ref_offset (Some field)
             current_ref_offset fs
      else
        ordered && (current_ref_offset =? offset)
        && check_offsets is_reference_class start_ref_offset end_ref_offset (Some field)
             (u32 (current_ref_offset + sizeof_HeapReference)) fs
  end.

Definition start_ref_offset (is_static : bool) (k : LinkedClass) (supers : list LinkedClass) : Z :=
  if is_static then GetFirstReferenceStaticFieldOffsetDuringLinking pointer_size k
  else GetFirstReferenceInstanceFieldOffset supers.

(** The class afterwards and [*class_size]. *)
Definition LinkFields (is_static : bool) (k : LinkedClass) (supers : list LinkedClass) :
    option (LinkedClass * Z) :=
  let fs := if is_static then sfields_ k else ifields_ k in
  start ← start_of_fields is_static k supers;
  l ← layout_fields start fs;
  num ← adjust_references is_static k (fields l) (num_reference_fields l);
  let size := field_offset l in
  k ← (if is_static then Some (set_static_fields (fields l) num k)
       else store_instance_fields (fields l) num size k supers);
  let start_ref := start_ref_offset is_static k supers in
  _ ← dcheck (check_offsets (is_Reference k) start_ref
                (u32 (start_ref + num * sizeof_HeapReference)) None start_ref (fields l));
  Some (k, size).

Definition LinkInstanceFields (k : LinkedClass) (supers : list LinkedClass) : option LinkedClass :=
  fst <$> LinkFields false k supers.
Definition LinkStaticFields (k : LinkedClass) (supers : list LinkedClass) :
    option (LinkedClass * Z) :=
  LinkFields true k supers.

(** The bitmap of reference instance field offsets. *)
Definition CreateReferenceInstanceOffsets (k : LinkedClass) (supers : list LinkedClass) : LinkedClass :=
  let reference_offsets :=
    match supers with
    | [] => 0
    | super_class :: _ =>
        let reference_offsets := reference_instance_offsets_ super_class in
        if negb (reference_offsets =? kClassWalkSuper) then
          let num := num_reference_instance_fields_ k in
          if negb (num =? 0) then
            let start_offset := RoundUp 32 (object_size_ super_class) sizeof_HeapReference in
            let start_bit := u32 (start_offset - kObjectHeaderSize) / sizeof_HeapReference in
            if 32 <? start_bit + num then kClassWalkSuper
            else
              reference_offsets
              ||| (u32 (0xffffffff << start_bit) &&& (0xffffffff >> (32 - (start_bit + num))))
          else reference_offsets
        else reference_offsets
    end in
  SetReferenceInstanceOffsets reference_offsets k.

(** The part of [LinkClass] about fields: the class, resolved, and its
    [class_size]. *)
Definition LinkClass_fields (k : LinkedClass) (supers : list LinkedClass) :
    option (LinkedClass * Z) :=
  k ← LinkInstanceFields k supers;
  '(k, class_size) ← LinkStaticFields k supers;
  Some (SetResolved (CreateReferenceInstanceOffsets k supers), class_size).

(** A class is linked after its superclass. *)
Fixpoint link_classes (chain : list LinkedClass) : option (list LinkedClass) :=
  match chain with
  | [] => Some []
  | k :: supers =>
      supers ← link_classes supers;
      '(k, _) ← LinkClass_fields k supers;
      Some (k :: supers)
  end.

End Linking.

(** ** Visiting the references of an object

    The offsets given to the visitor, in order.  The instance's class comes with
    its superclasses. *)

(** [while (ref_offsets != 0)]; a 32-bit word has at most 32 bits to shift out. *)
Fixpoint visit_bitmap (fuel : nat) (ref_offsets field_offset : Z) : list Z :=
  match fuel with
  | O => []
  | S fuel =>
      if ref_offsets =? 0 then []
      else
        (if negb (ref_offsets &&& 1 =? 0) then [field_offset] else [])
        ++ visit_bitmap fuel (ref_offsets >> 1) (u32 (field_offset + sizeof_HeapReference))
  end.

(** [for (size_t i = 0u; i < num_reference_fields; ++i)] *)
Fixpoint visit_run (num : nat) (field_offset : Z) : list Z :=
  match num with
  | O => []
  | S num =>
      (if negb (field_offset =? ClassOffset) then [field_offset] else [])
      ++ visit_run num (u32 (field_offset + sizeof_HeapReference))
  end.

(** The walk up the hierarchy. *)
Fixpoint visit_supers (chain : list LinkedClass) : list Z :=
  match chain with
  | [] => []
  | k :: supers =>
      let num := num_reference_instance_fields_ k in
      (if num =? 0 then []
       else visit_run (Z.to_nat num) (GetFirstReferenceInstanceFieldOffset supers))
      ++ visit_supers supers
  end.

Definition VisitInstanceFieldsReferences (chain : list LinkedClass) : list Z :=
  match chain with
  | [] => []
  | k :: _ =>
      let ref_offsets := reference_instance_offsets_ k in
      if negb (ref_offsets =? kClassWalkSuper)
      then visit_bitmap 32 ref_offsets kObjectHeaderSize
      else visit_supers chain
  end.

(** [VisitStaticFieldsReferences] considers only the class itself, after linking. *)
Definition VisitStaticFieldsReferences (pointer_size : Z) (k : LinkedClass) : list Z :=
  let num := num_reference_static_fields_ k in
  if num =? 0 then []
  else visit_run (Z.to_nat num) (GetFirstReferenceStaticFieldOffsetDuringLinking pointer_size k).

(** [Object::VisitReferences].  The instance fields of [java.lang.ref] classes
    are visited before the reference visitor is called; classes, arrays of
    objects, dex caches and class loaders have visits of their own, [None]. *)
Definition VisitReferences (chain : list LinkedClass) : option (list Z) :=
  match chain with
  | [] => None
  | k :: _ =>
      let class_flags := class_flags_ k in
      if class_flags =? kClassFlagNormal
      then Some (ClassOffset :: VisitInstanceFieldsReferences chain)
      else if class_flags &&& kClassFlagNoReferenceFields =? 0 then
        if class_flags =? kClassFlagClass then None
        else if class_flags =? kClassFlagObjectArray then None
        else if negb (class_flags &&& kClassFlagReference =? 0)
        then Some (ClassOffset :: VisitInstanceFieldsReferences chain)
        else None
      else Some [ClassOffset]
  end.
