(* ===== verification/ObjectLayoutFacts.v ===== *)
(** * Facts about the layout of objects

    From positions in field arrays to the fields of a class: where
    [LinkFields] puts them, that its checks hold, and what the class stores. *)
From Stdlib Require Import String Ascii.
From stdpp Require Import sorting.
From S2P Require Import Prelude BitUtils MirrorClass FieldLayout FieldLayoutFacts ObjectLayout.

(** ** Fields with offsets *)

Definition extent_of (f : ArtField) : extent := (offset_ f, ComponentSize (GetTypeAsPrimitiveType f)).
Definition is_ref (f : ArtField) : Prop := GetTypeAsPrimitiveType f = kPrimNot.
#[export] Instance is_ref_dec f : Decision (is_ref f).
Proof. unfold is_ref. apply _. Defined.
#[export] Typeclasses Opaque is_ref.

(** The bytes of fields. *)
Definition bytes (fs : list ArtField) : Z :=
  foldr (fun f s => ComponentSize (GetTypeAsPrimitiveType f) + s) 0 fs.

(** [n] references from [o] on. *)
Definition run (o : Z) (n : nat) : list Z := map (fun i => o + 4 * Z.of_nat i) (seq 0 n).

Lemma run_S o n : run o (S n) = o :: run (o + 4) n.
Proof.
  unfold run. simpl. f_equal; [lia|]. rewrite <- seq_shift, map_map.
  apply map_ext. intros. lia.
Qed.

Lemma elem_of_run o n x : x ∈ run o n <-> exists i, (i < n)%nat /\ x = o + 4 * Z.of_nat i.
Proof.
  unfold run. rewrite list_elem_of_In, in_map_iff. setoid_rewrite in_seq.
  split; intros (i & H1 & H2); exists i; lia.
Qed.

Lemma run_NoDup o n : NoDup (run o n).
Proof.
  apply NoDup_fmap_2_strong; [|apply NoDup_seq]. intros. lia.
Qed.

(** Indexes of fields in a class rise. *)
Definition indexed (fs : list ArtField) : Prop :=
  StronglySorted (fun f g => field_dex_idx_ f < field_dex_idx_ g) fs.

Lemma seq_map_At (fs : list ArtField) : map (fun i => At fs i) (seq 0 (length fs)) = fs.
Proof.
  apply list_eq. intros i. rewrite list_lookup_fmap.
  destruct (decide (i < length fs)%nat) as [Hi|Hi].
  - rewrite lookup_seq_lt by done. simpl. by rewrite list_lookup_lookup_total_lt.
  - rewrite lookup_seq_ge, lookup_ge_None_2 by lia. done.
Qed.

Lemma bytes_sizes fs : sizes fs (seq 0 (length fs)) = bytes fs.
Proof.
  rewrite <- (seq_map_At fs) at 3. unfold sizes, bytes. generalize (seq 0 (length fs)).
  intros l. induction l as [|i l IH]; simpl; [done|]. by rewrite IH.
Qed.

Lemma indexed_lt fs i j :
  indexed fs -> (i < j < length fs)%nat -> field_dex_idx_ (At fs i) < field_dex_idx_ (At fs j).
Proof.
  intros Hs. revert i j. induction Hs as [|f fs Hs IH Hf]; intros i j Hij; simpl in *; [lia|].
  destruct j as [|j]; [lia|]. destruct i as [|i]; simpl.
  - destruct (lookup_lt_is_Some_2 fs j) as [g Hg]; [lia|].
    rewrite (list_lookup_total_correct _ _ _ Hg). exact (Forall_lookup_1 _ _ _ _ Hf Hg).
  - apply IH. lia.
Qed.

Lemma StronglySorted_filter {A} (R : A -> A -> Prop) (P : A -> Prop) `{!forall x, Decision (P x)} l :
  StronglySorted R l -> StronglySorted R (filter P l).
Proof.
  induction 1 as [|x l Hs IH Hx]; [constructor|].
  destruct (decide (P x)) as [Hd|Hd];
    [rewrite filter_cons_True by done|by rewrite filter_cons_False by done].
  constructor; [done|]. rewrite List.Forall_forall in Hx |- *. intros y Hy.
  apply list_elem_of_In, list_elem_of_filter in Hy as [_ Hy]. by apply Hx, list_elem_of_In.
Qed.

Lemma StronglySorted_seq s n : StronglySorted lt (seq s n).
Proof.
  revert s. induction n as [|n IH]; intros s; simpl; constructor; [apply IH|].
  apply List.Forall_forall. intros i Hi. apply in_seq in Hi. lia.
Qed.

(** The linker's order of references is that of the array. *)
Lemma refs_in_array_order fs refs :
  indexed fs -> refs ≡ₚ filter (fun i => type_of fs i = kPrimNot) (seq 0 (length fs)) ->
  StronglySorted (in_order fs) refs ->
  refs = filter (fun i => type_of fs i = kPrimNot) (seq 0 (length fs)).
Proof.
  intros Hi Hp Hs.
  assert (forall i, i ∈ refs -> type_of fs i = kPrimNot /\ (i < length fs)%nat) as Hr.
  { intros i. rewrite Hp, list_elem_of_filter, elem_of_seq. intros [? ?]. split; [done|lia]. }
  apply (StronglySorted_unique le); [| |done].
  - clear Hp. induction Hs as [|i refs Hs IH Hx]; constructor.
    + apply IH. intros. apply Hr. by right.
    + apply List.Forall_forall. intros j Hj. rewrite List.Forall_forall in Hx.
      specialize (Hx j Hj). apply in_order_rank in Hx. apply list_elem_of_In in Hj.
      destruct (Hr i) as [Ti Li]; [by left|]. destruct (Hr j) as [Tj Lj]; [by right|].
      rewrite Ti, Tj in Hx. simpl in Hx. destruct (Nat.le_gt_cases i j) as [|Hij]; [done|].
      pose proof (indexed_lt fs j i Hi). lia.
  - apply StronglySorted_filter. eapply StronglySorted_impl_in, StronglySorted_seq.
    intros. lia.
Qed.

(** Where the linker puts the fields [fs] of a class from [start] on: aligned,
    disjoint, in at most seven bytes more than they need, the references one
    after the other. *)
Record placed (start : Z) (fs fs' : list ArtField) (size : Z) : Prop := {
  pl_identity : map identity fs' = map identity fs;
  pl_packed : packed start size (map extent_of fs');
  pl_aligned : Forall (fun f => offset_ f mod ComponentSize (GetTypeAsPrimitiveType f) = 0) fs';
  pl_size : start <= size <= start + bytes fs + 7;
  pl_refs : map offset_ (filter is_ref fs') = run (up 4 start) (length (filter is_ref fs))
}.

Lemma filter_map_comm {A B} (f : A -> B) (P : B -> Prop) (Q : A -> Prop)
    `{!forall x, Decision (P x)} `{!forall x, Decision (Q x)} l :
  (forall x, x ∈ l -> P (f x) <-> Q x) -> filter P (map f l) = map f (filter Q l).
Proof.
  induction l as [|x l IH]; intros Hx; [done|]. simpl map.
  specialize (IH (fun y Hy => Hx y (list_elem_of_further _ _ _ Hy))).
  destruct (decide (Q x)) as [Hq|Hq].
  - rewrite (filter_cons_True Q) by done.
    rewrite (filter_cons_True P) by (apply Hx; [by left|done]). by rewrite IH.
  - rewrite (filter_cons_False Q) by done.
    rewrite (filter_cons_False P) by (intros Hp; apply Hq, Hx; [by left|done]). by rewrite IH.
Qed.

Lemma type_identity f g : identity f = identity g -> GetTypeAsPrimitiveType f = GetTypeAsPrimitiveType g.
Proof.
  unfold identity, GetTypeAsPrimitiveType. intros [= _ -> _]. done.
Qed.

Lemma filter_refs_seq fs fs' :
  map identity fs' = map identity fs ->
  filter is_ref fs' = map (fun i => At fs' i) (filter (fun i => type_of fs i = kPrimNot) (seq 0 (length fs))).
Proof.
  intros Hid. assert (length fs' = length fs) as Hlen
    by (apply (f_equal length) in Hid; by rewrite !length_map in Hid).
  rewrite <- (seq_map_At fs') at 1. rewrite Hlen. apply filter_map_comm.
  intros i _. unfold is_ref. fold (type_of fs' i). by rewrite (type_of_identity fs fs').
Qed.

Lemma layout_ok_placed start fs refs l :
  indexed fs -> layout_ok start fs refs l -> placed start fs (fields l) (field_offset l).
Proof.
  intros Hi [Hid Hpk Hal Hsl Hr Hrs Hn Hat].
  assert (length (fields l) = length fs) as Hlen
    by (apply (f_equal length) in Hid; by rewrite !length_map in Hid).
  split; try done.
  - rewrite <- (seq_map_At (fields l)), map_map, Hlen. exact Hpk.
  - rewrite <- (seq_map_At (fields l)), Hlen. apply List.Forall_forall. intros f Hf.
    apply in_map_iff in Hf as (i & <- & Hin). apply in_seq in Hin.
    specialize (Hal i ltac:(lia)). unfold size_of in Hal.
    by rewrite <- (type_of_identity _ _ i Hid) in Hal.
  - by rewrite <- bytes_sizes.
  - rewrite (filter_refs_seq fs) by done. rewrite (filter_refs_seq fs fs) by done.
    rewrite length_map, <- (refs_in_array_order fs refs) by done.
    rewrite map_map. apply list_eq. intros k. unfold run. rewrite !list_lookup_fmap.
    destruct (refs !! k) as [i|] eqn:E; simpl.
    + rewrite lookup_seq_lt by by eapply lookup_lt_Some. simpl. f_equal. by apply Hat.
    + rewrite lookup_seq_ge; [done|]. by apply lookup_ge_None.
Qed.

Lemma layout_placed start fs :
  0 <= start -> typed_fields fs -> indexed fs -> start + bytes fs + 14 < 2 ^ 32 ->
  exists l, layout_fields start fs = Some l /\ placed start fs (fields l) (field_offset l) /\
    num_reference_fields l = Z.of_nat (length (filter is_ref fs)).
Proof.
  intros Hs Ht Hi Hb. rewrite <- bytes_sizes in Hb.
  destruct (layout_fields_ok start fs Hs Ht Hb) as (refs & l & E & Hok).
  exists l. split; [done|]. split; [by eapply layout_ok_placed|].
  rewrite (lo_num _ _ _ _ Hok), (lo_refs _ _ _ _ Hok), (filter_refs_seq fs fs) by done.
  by rewrite length_map.
Qed.

(** ** The checks of a debug build *)

Definition names_ordered (prev : option ArtField) (fs : list ArtField) : Prop :=
  match prev with
  | Some p => Sorted (fun f g => String.leb (GetName f) (GetName g) = true) (p :: fs)
  | None => Sorted (fun f g => String.leb (GetName f) (GetName g) = true) fs
  end.

Lemma names_ordered_cons prev f fs :
  names_ordered prev (f :: fs) ->
  match prev with Some p => String.leb (GetName p) (GetName f) = true | None => True end /\
  names_ordered (Some f) fs.
Proof.
  destruct prev as [p|]; simpl; [|done]. intros H. inversion H as [|? ? Hs Hh]; subst.
  by inversion Hh.
Qed.

(** Fields the debug loop takes for references. *)
Definition counted (is_reference_class : bool) (f : ArtField) : Prop :=
  is_ref f /\ is_reference_class && String.eqb (GetName f) "referent" = false.
#[export] Instance counted_dec b f : Decision (counted b f).
Proof. unfold counted. apply _. Defined.

Lemma counted_true b f :
  negb (bool_decide (GetTypeAsPrimitiveType f = kPrimNot))
  || (b && String.eqb (GetName f) "referent") = false <-> counted b f.
Proof.
  unfold counted, is_ref. rewrite orb_false_iff, negb_false_iff, bool_decide_eq_true. done.
Qed.

(** A primitive field is past the references or in the space before them. *)
Definition clear_of (first end_ref : Z) (f : ArtField) : Prop :=
  let type_size := ComponentSize (GetTypeAsPrimitiveType f) in
  offset_ f < end_ref ->
  type_size < 4 /\ offset_ f < first /\ offset_ f + type_size <= first /\
  offset_ f mod 4 <> 0.

Lemma check_offsets_ok b first end_ref fs prev cur n :
  names_ordered prev fs ->
  Forall (fun f => ~ counted b f -> clear_of first end_ref f) fs ->
  map offset_ (filter (counted b) fs) = run cur n ->
  0 <= cur -> end_ref = cur + 4 * Z.of_nat n -> end_ref < 2 ^ 32 ->
  check_offsets b first end_ref prev cur fs = true.
Proof.
  revert prev cur n. induction fs as [|f fs IH]; intros prev cur n Hn Hc Hr H0 He Hb.
  { apply (f_equal length) in Hr. unfold run in Hr. rewrite !length_map, length_seq in Hr.
    simpl in *. apply Z.eqb_eq. lia. }
  apply names_ordered_cons in Hn as [Hpf Hn]. apply List.Forall_cons_iff in Hc as [Hf Hc].
  assert (match prev with Some p => String.leb (GetName p) (GetName f) | None => true end = true)
    as Ho by by destruct prev.
  cbn [check_offsets]. cbv zeta. rewrite Ho. rewrite !andb_true_l.
  destruct (negb (bool_decide (GetTypeAsPrimitiveType f = kPrimNot))
            || (b && String.eqb (GetName f) "referent")) eqn:E.
  - assert (~ counted b f) as Hnc by (intros Hcf; apply counted_true in Hcf; congruence).
    rewrite filter_cons_False in Hr by done. rewrite (IH _ _ n), andb_true_r by done.
    specialize (Hf Hnc). unfold clear_of in Hf.
    destruct (offset_ f <? end_ref) eqn:El; [|done]. bools.
    destruct (Hf El) as (H1 & H2 & H3 & H4). simpl.
    rewrite !andb_true_iff, !Z.ltb_lt, Z.leb_le, negb_true_iff. split_and!; try done.
    apply not_true_iff_false. rewrite (IsAligned_iff 4) by (unfold width; lia). done.
  - apply counted_true in E. rewrite filter_cons_True in Hr by done.
    destruct n as [|n]; [done|]. rewrite run_S in Hr. simpl in Hr. injection Hr as Hoff Hr.
    rewrite Hoff, Z.eqb_refl. simpl. unfold sizeof_HeapReference.
    rewrite wrap_u_id by (unfold in_u; lia). apply (IH _ _ n); try done; lia.
Qed.

Lemma placed_apart start fs fs' size f g :
  placed start fs fs' size -> f ∈ fs' -> g ∈ fs' ->
  GetTypeAsPrimitiveType f <> GetTypeAsPrimitiveType g -> apart (extent_of f) (extent_of g).
Proof.
  intros Hp Hf Hg Hne. apply list_elem_of_lookup in Hf as [i Hi], Hg as [j Hj].
  eapply (packed_apart start size (map extent_of fs') i j).
  - apply Hp.
  - intros ->. simplify_eq.
  - by rewrite list_lookup_fmap, Hi.
  - by rewrite list_lookup_fmap, Hj.
Qed.

Lemma placed_within start fs fs' size f :
  placed start fs fs' size -> f ∈ fs' -> within start size (extent_of f).
Proof.
  intros [_ [Hw _] _ _ _] Hf. rewrite List.Forall_forall in Hw.
  apply Hw, in_map, list_elem_of_In, Hf.
Qed.

(** A primitive field keeps clear of the references. *)
Lemma placed_clear start fs fs' size f n :
  placed start fs fs' size -> size < 2 ^ 32 -> 0 <= start ->
  (n <= length (filter is_ref fs))%nat -> f ∈ fs' -> ~ is_ref f ->
  clear_of (up 4 start) (up 4 start + 4 * Z.of_nat n) f.
Proof.
  intros Hp Hb Hs Hn Hf Hr Hlt. pose proof (placed_within _ _ _ _ _ Hp Hf) as Hw.
  unfold within in Hw. simpl in Hw.
  destruct (up_bounds 4 start) as [Hup Hupm]; [unfold width; lia|].
  assert (offset_ f mod ComponentSize (GetTypeAsPrimitiveType f) = 0) as Ha.
  { pose proof (pl_aligned _ _ _ _ Hp) as Ha. rewrite List.Forall_forall in Ha.
    by apply Ha, list_elem_of_In. }
  assert (offset_ f < up 4 start) as Hlo.
  { destruct (Z.lt_ge_cases (offset_ f) (up 4 start)) as [|Hge]; [done|]. exfalso.
    set (i := Z.to_nat ((offset_ f - up 4 start) / 4)).
    assert (up 4 start + 4 * Z.of_nat i ∈ map offset_ (filter is_ref fs')) as Hi.
    { rewrite (pl_refs _ _ _ _ Hp). apply elem_of_run. exists i. split; [|done].
      subst i. zdiv. }
    apply list_elem_of_In, in_map_iff in Hi as (g & Eg & Hg).
    apply list_elem_of_In, list_elem_of_filter in Hg as [Hgr Hg].
    assert (apart (extent_of f) (extent_of g)) as Hap
      by (eapply placed_apart; try done; rewrite Hgr; exact Hr).
    unfold apart in Hap. simpl in Hap. rewrite Eg, Hgr in Hap. simpl in Hap.
    unfold kObjectReferenceSize in Hap. subst i. zdiv. }
  unfold up, is_ref in *. clear Hlt Hn Hp Hf.
  destruct (GetTypeAsPrimitiveType f); simpl in *; try done; split_and!; zdiv.
Qed.

(** ** Classes as they are loaded *)

Record loaded_fields (fs : list ArtField) : Prop := {
  lf_typed : typed_fields fs;
  lf_indexed : indexed fs;
  lf_names : names_ordered None fs
}.

(** The fields of [java.lang.Object]. *)
Definition object_fields (fs : list ArtField) : Prop :=
  exists i1 i2 o1 o2,
    fs = [mkField i1 "Ljava/lang/Class;" "shadow$_klass_" o1;
          mkField i2 "I" "shadow$_monitor_" o2].

(** What linking the static fields of a class asks of it. *)
Record loaded_statics (pointer_size : Z) (k : LinkedClass) : Prop := {
  ls_fields : loaded_fields (sfields_ k);
  ls_referent : is_Reference k = true ->
    Forall (fun f => GetName f <> "referent"%string) (sfields_ k);
  ls_pointer_size : pointer_size = 4 \/ pointer_size = 8;
  ls_vtable : 0 <= vtable_length k;
  ls_fit : 136 + vtable_length k * pointer_size + bytes (sfields_ k) + 14 < 2 ^ 32
}.

(** A class that is loaded and not yet linked, of fixed size and without a visit
    of its own; [is_base] if it has no superclass. *)
Record loaded (pointer_size : Z) (is_base : bool) (k : LinkedClass) : Prop := {
  ld_fields : loaded_fields (ifields_ k);
  ld_statics : loaded_statics pointer_size k;
  ld_size : object_size_ k = 0;
  ld_fixed : is_class_or_array k = false;
  ld_flags : class_flags_ k ||| kClassFlagReference = kClassFlagReference;
  ld_object : is_Object k = is_base;
  ld_base : is_base = true -> object_fields (ifields_ k);
  ld_reference : is_Reference k = true ->
    exists fs f, ifields_ k = fs ++ [f] /\ Forall is_ref (fs ++ [f]) /\
      GetName f = "referent"%string /\ Forall (fun f => GetName f <> "referent"%string) fs
}.

Lemma map_identity_cons f f' fs fs' :
  map identity (f' :: fs') = map identity (f :: fs) ->
  identity f' = identity f /\ map identity fs' = map identity fs.
Proof. intros H. injection H as H1 H2 H3 H. split; [unfold identity; congruence|done]. Qed.

Lemma Forall_identity (P : ArtField -> Prop) fs fs' :
  (forall f f', identity f' = identity f -> P f -> P f') ->
  map identity fs' = map identity fs -> Forall P fs -> Forall P fs'.
Proof.
  intros HP. revert fs'. induction fs as [|f fs IH]; intros [|f' fs'] Hid HF; try done.
  apply map_identity_cons in Hid as [Hf Hid]. inversion HF; subst.
  constructor; [by eapply HP|by apply IH].
Qed.

Lemma name_identity f f' : identity f' = identity f -> GetName f' = GetName f.
Proof. unfold identity. congruence. Qed.

Lemma counted_identity b f f' : identity f' = identity f -> counted b f' <-> counted b f.
Proof.
  intros H. unfold counted, is_ref. by rewrite (type_identity _ _ H), (name_identity _ _ H).
Qed.

Lemma names_identity fs fs' :
  map identity fs' = map identity fs -> names_ordered None fs -> names_ordered None fs'.
Proof.
  simpl. revert fs'. induction fs as [|f fs IH]; intros [|f' fs'] Hid Hs; try done.
  apply map_identity_cons in Hid as [Hf Hid]. inversion Hs as [|? ? Hs' Hh]; subst.
  constructor; [by apply IH|]. destruct fs as [|g fs], fs' as [|g' fs']; try done.
  apply map_identity_cons in Hid as [Hg _]. inversion Hh; subst. constructor.
  by rewrite (name_identity _ _ Hf), (name_identity _ _ Hg).
Qed.

Lemma filter_length_identity b fs fs' :
  map identity fs' = map identity fs ->
  length (filter (counted b) fs') = length (filter (counted b) fs).
Proof.
  revert fs'. induction fs as [|f fs IH]; intros [|f' fs'] Hid; try done.
  apply map_identity_cons in Hid as [Hf Hfs].
  pose proof (counted_identity b f f' Hf). destruct (decide (counted b f)).
  - rewrite !filter_cons_True by tauto. simpl. by rewrite IH.
  - rewrite !filter_cons_False by tauto. by apply IH.
Qed.

Lemma filter_iff_in {A} (P Q : A -> Prop) `{!forall x, Decision (P x)} `{!forall x, Decision (Q x)} l :
  Forall (fun x => P x <-> Q x) l -> filter P l = filter Q l.
Proof.
  induction 1 as [|x l Hx _ IH]; [done|]. destruct (decide (P x)).
  - rewrite !filter_cons_True by tauto. by rewrite IH.
  - rewrite !filter_cons_False by tauto. done.
Qed.

Lemma run_snoc o n : run o (S n) = run o n ++ [o + 4 * Z.of_nat n].
Proof. unfold run. by rewrite seq_S, map_app. Qed.

Definition counted_placed (b : bool) (start : Z) (fs fs' : list ArtField) : Prop :=
  map offset_ (filter (counted b) fs') = run (up 4 start) (length (filter (counted b) fs)) /\
  (length (filter (counted b) fs) <= length (filter is_ref fs))%nat /\
  Forall (fun f => ~ counted b f -> ~ is_ref f \/
            offset_ f = up 4 start + 4 * Z.of_nat (length (filter (counted b) fs))) fs'.

Lemma placed_counted_all b start fs fs' size :
  placed start fs fs' size -> Forall (fun f => counted b f <-> is_ref f) fs ->
  counted_placed b start fs fs'.
Proof.
  intros Hp H. assert (Forall (fun f => counted b f <-> is_ref f) fs') as H'.
  { eapply Forall_identity; [|apply (pl_identity _ _ _ _ Hp)|exact H]. intros f f' E. simpl.
    rewrite (counted_identity b f f' E). unfold is_ref. by rewrite (type_identity _ _ E). }
  split; [|split].
  - rewrite (filter_iff_in _ _ _ H), (filter_iff_in _ _ _ H'). apply Hp.
  - by rewrite (filter_iff_in _ _ _ H).
  - eapply List.Forall_impl, H'. simpl. tauto.
Qed.

Lemma placed_counted_last b start fs fs' size :
  placed start fs fs' size ->
  (exists gs f, fs = gs ++ [f] /\ Forall (counted b) gs /\ is_ref f /\ ~ counted b f) ->
  counted_placed b start fs fs'.
Proof.
  intros Hp (gs & f & -> & Hgs & Hf & Hnf). pose proof (pl_identity _ _ _ _ Hp) as Hid.
  rewrite map_app in Hid. apply map_eq_app in Hid as (gs' & l' & -> & Hg & Hl).
  apply map_eq_cons in Hl as (f' & l & -> & Ef & Hl). apply map_eq_nil in Hl as ->.
  assert (Forall (counted b) gs') as Hgs'.
  { eapply Forall_identity; [|exact Hg|exact Hgs]. intros g g' E. by apply counted_identity. }
  assert (~ counted b f') as Hnf' by by rewrite (counted_identity b f f' Ef).
  assert (is_ref f') as Hf' by (unfold is_ref; by rewrite (type_identity _ _ Ef)).
  assert (forall gs, Forall (counted b) gs -> Forall is_ref gs) as Hr.
  { intros ? H. eapply List.Forall_impl, H. by intros ? [? _]. }
  assert (length gs' = length gs) as Hlen by (apply (f_equal length) in Hg; by rewrite !length_map in Hg).
  pose proof (pl_refs _ _ _ _ Hp) as Hrefs.
  rewrite <- (app_nil_r (gs' ++ [f'])), <- (app_nil_r (gs ++ [f])) in Hrefs.
  rewrite !(filter_split is_ref) in Hrefs by (constructor || (apply List.Forall_app; auto)).
  rewrite length_app, Nat.add_1_r, run_snoc, map_app in Hrefs.
  apply app_inj_tail in Hrefs as [Hrefs Hlast].
  unfold counted_placed. rewrite !(filter_split (counted b)) by auto.
  split; [done|]. split.
  - rewrite <- (app_nil_r (gs ++ [f])), (filter_split is_ref), length_app by
      (constructor || (apply List.Forall_app; auto)). lia.
  - apply List.Forall_app. split; [|auto]. eapply List.Forall_impl, Hgs'. simpl. tauto.
Qed.

(** The references that are counted are the first ones. *)
Lemma placed_counted b start fs fs' size :
  placed start fs fs' size ->
  (b = true -> Forall (fun f => GetName f <> "referent"%string) fs \/
    exists gs f, fs = gs ++ [f] /\ Forall is_ref (gs ++ [f]) /\ GetName f = "referent"%string /\
      Forall (fun f => GetName f <> "referent"%string) gs) ->
  counted_placed b start fs fs'.
Proof.
  intros Hp Hb. pose proof (pl_identity _ _ _ _ Hp) as Hid.
  assert (Forall (fun f => counted b f <-> is_ref f) fs \/
    exists gs f, fs = gs ++ [f] /\ Forall (counted b) gs /\ is_ref f /\ ~ counted b f) as [H|H].
  { unfold counted. destruct b; [|by left; apply List.Forall_forall; intros; split; [intros [? _]|]].
    destruct Hb as [Hn|(gs & f & -> & Hr & Hf & Hn)]; [done| |].
    - left. eapply List.Forall_impl, Hn. intros f Hf. simpl in *. rewrite String.eqb_neq. tauto.
    - right. exists gs, f. apply List.Forall_app in Hr as [Hgs Hr]. inversion Hr; subst.
      rewrite Hf. split_and!; try done; [|by intros [_ ?]].
      apply List.Forall_forall. intros g Hg. rewrite List.Forall_forall in Hgs, Hn. simpl.
      rewrite String.eqb_neq. auto. }
  - exact (placed_counted_all _ _ _ _ _ Hp H).
  - exact (placed_counted_last _ _ _ _ _ Hp H).
Qed.

(** ** Linking the fields of a class *)

(** Only [referent] of [Reference] may be left out, and it is the last. *)
Definition referent_last (b : bool) (fs : list ArtField) : Prop :=
  b = true -> Forall (fun f => GetName f <> "referent"%string) fs \/
    exists gs f, fs = gs ++ [f] /\ Forall is_ref (gs ++ [f]) /\ GetName f = "referent"%string /\
      Forall (fun f => GetName f <> "referent"%string) gs.

(** The number of references that are counted. *)
Definition num_counted (b : bool) (fs : list ArtField) : Z := Z.of_nat (length (filter (counted b) fs)).

Lemma bytes_refs fs : 4 * Z.of_nat (length (filter is_ref fs)) <= bytes fs.
Proof.
  induction fs as [|f fs IH]; simpl; [done|].
  pose proof (ComponentSize_nonneg (GetTypeAsPrimitiveType f)). destruct (decide (is_ref f)) as [H1|H1].
  - rewrite filter_cons_True by done. unfold is_ref in H1. rewrite H1 in *. simpl in *.
    unfold kObjectReferenceSize in *. lia.
  - rewrite filter_cons_False by done. lia.
Qed.

Lemma bytes_nonneg fs : 0 <= bytes fs.
Proof. pose proof (bytes_refs fs). lia. Qed.

Lemma counted_bound b start fs fs' :
  counted_placed b start fs fs' -> 4 * num_counted b fs <= bytes fs.
Proof. intros (_ & H & _). pose proof (bytes_refs fs). unfold num_counted. lia. Qed.

Lemma offsets_checked b start fs fs' size :
  placed start fs fs' size -> names_ordered None fs -> referent_last b fs ->
  0 <= start -> start + bytes fs + 14 < 2 ^ 32 ->
  check_offsets b (up 4 start) (u32 (up 4 start + num_counted b fs * sizeof_HeapReference)) None
    (up 4 start) fs' = true.
Proof.
  intros Hp Hn Hr Hs Hb. pose proof (placed_counted b start fs fs' size Hp Hr) as Hc.
  pose proof (counted_bound _ _ _ _ Hc) as Hcb. destruct Hc as (Hoff & Hle & Hpr).
  destruct (up_bounds 4 start) as [Hup _]; [unfold width; lia|].
  pose proof (pl_size _ _ _ _ Hp). unfold sizeof_HeapReference, num_counted in *.
  rewrite wrap_u_id by (unfold in_u; lia).
  apply (check_offsets_ok _ _ _ _ _ _ (length (filter (counted b) fs))); try done; try lia.
  - eapply names_identity, Hn. apply Hp.
  - apply List.Forall_forall. intros f Hf Hnc. rewrite List.Forall_forall in Hpr.
    destruct (Hpr f Hf Hnc) as [Hnr|Ho].
    + rewrite Z.mul_comm. eapply placed_clear; try done; [lia|]. by apply list_elem_of_In.
    + unfold clear_of. lia.
Qed.

Lemma check_true b : b = true -> check b = Some tt.
Proof. by intros ->. Qed.

Lemma dcheck_true dbg b : b = true -> dcheck dbg b = Some tt.
Proof. intros ->. unfold dcheck. by rewrite orb_true_r. Qed.

(** The start of the static fields. *)
Lemma static_start pointer_size k :
  loaded_statics pointer_size k ->
  let start := GetFirstReferenceStaticFieldOffsetDuringLinking pointer_size k in
  0 <= start <= 136 + vtable_length k * pointer_size /\ start mod 4 = 0.
Proof.
  intros [_ _ Hps Hv Hb].
  assert (0 <= bytes (sfields_ k)).
  { pose proof (bytes_refs (sfields_ k)). lia. }
  unfold GetFirstReferenceStaticFieldOffsetDuringLinking, ShouldHaveEmbeddedVTable.
  case_if; [|change sizeof_Class with 120; split; [nia|done]].
  unfold ComputeClassSize. simpl (0 <? 0). rewrite andb_false_r. cbv beta iota zeta.
  assert (exists r, RoundUp 64 (sizeof_Class + 4) pointer_size = r /\ 124 <= r <= 128 /\ r mod 4 = 0)
    as (r & -> & Hr & Hrm).
  { destruct Hps as [-> | ->]; [exists 124|exists 128]; done. }
  unfold sizeof_HeapReference.
  assert (exists q, vtable_length k * pointer_size = 4 * q /\ 0 <= q) as (q & Eq & Hq)
    by (destruct Hps as [-> | ->]; [exists (vtable_length k)|exists (2 * vtable_length k)]; lia).
  rewrite Eq in *. assert (4 <= pointer_size <= 8 /\ pointer_size mod 4 = 0)
    by (destruct Hps as [-> | ->]; done).
  rewrite (wrap_u_id 32 (r + _)) by (unfold in_u; lia).
  rewrite (wrap_u_id 32 (_ + 4 * q)) by (unfold in_u; lia).
  rewrite (wrap_u_id 32 (r + pointer_size + 4 * q + 0 * 4)) by (unfold in_u; lia).
  rewrite wrap_u_id by (unfold in_u; lia).
  split; [lia|]. zdiv.
Qed.

Lemma LinkStaticFields_spec dbg pointer_size k supers :
  loaded_statics pointer_size k ->
  let start := GetFirstReferenceStaticFieldOffsetDuringLinking pointer_size k in
  exists fs' size,
    placed start (sfields_ k) fs' size /\
    LinkStaticFields dbg pointer_size k supers =
      Some (set_static_fields fs' (Z.of_nat (length (filter is_ref (sfields_ k)))) k, size).
Proof.
  intros Hl start. pose proof (static_start _ _ Hl) as [Hs Hm]. fold start in Hs, Hm.
  destruct Hl as [[Ht Hi Hn] Href _ _ Hfit].
  destruct (layout_placed start (sfields_ k)) as (l & E & Hp & Hnum); try done; try lia.
  exists (fields l), (field_offset l). split; [done|].
  unfold LinkStaticFields, LinkFields. simpl. fold start. rewrite E. simpl.
  rewrite Hnum. unfold start_ref_offset. fold start.
  assert (up 4 start = start) as Eu by (apply up_aligned; [unfold width; lia|done]).
  assert (referent_last (is_Reference k) (sfields_ k)) as Hrl by (intros ?; left; auto).
  pose proof (offsets_checked (is_Reference k) start _ _ _ Hp Hn Hrl) as Hc.
  assert (num_counted (is_Reference k) (sfields_ k) =
          Z.of_nat (length (filter is_ref (sfields_ k)))) as Ec.
  { unfold num_counted. rewrite (filter_iff_in (counted (is_Reference k)) is_ref); [done|].
    unfold counted. destruct (is_Reference k).
    - eapply List.Forall_impl, Href; [|done]. intros f Hf. simpl in *. rewrite String.eqb_neq. tauto.
    - apply List.Forall_forall. intros. split; [by intros [? _]|done]. }
  rewrite Ec, Eu in Hc. rewrite dcheck_true; [done|]. apply Hc; lia.
Qed.

(** The end of the superclass. *)
Definition super_size (supers : list LinkedClass) : Z :=
  match supers with [] => 0 | super :: _ => object_size_ super end.

Definition no_references (supers : list LinkedClass) : bool :=
  match supers with
  | [] => true
  | super :: _ => negb (class_flags_ super &&& kClassFlagNoReferenceFields =? 0)
  end.

(** The flags [LinkFields] stores. *)
Definition linked_flags (num : Z) (k : LinkedClass) (supers : list LinkedClass) : Z :=
  if ((num =? 0) || bool_decide (supers = [])) && no_references supers
  then class_flags_ k ||| kClassFlagNoReferenceFields
  else class_flags_ k.

Lemma linked_flags_fixed num k supers :
  class_flags_ k ||| kClassFlagReference = kClassFlagReference ->
  linked_flags num k supers &&& kClassFlagString = 0.
Proof.
  intros H. assert (class_flags_ k &&& kClassFlagString = 0) as Hk.
  { apply Z.bits_inj'. intros n Hn. apply (f_equal (fun z => Z.testbit z n)) in H.
    rewrite Z.lor_spec in H. rewrite Z.land_spec, Z.bits_0.
    destruct (Z.testbit kClassFlagString n) eqn:E; [|by rewrite andb_false_r].
    assert (n = 2) as ->.
    { change kClassFlagString with (2 ^ 2) in E. rewrite Z.pow2_bits_eqb in E by lia.
      bools. lia. }
    rewrite andb_true_r. change (Z.testbit kClassFlagReference 2) with false in H.
    by rewrite orb_false_r in H. }
  unfold linked_flags. case_if; [|done].
  rewrite Z.land_lor_distr_l, Hk. done.
Qed.

Lemma start_ref_up supers :
  0 <= super_size supers -> super_size supers + 3 < 2 ^ 32 ->
  GetFirstReferenceInstanceFieldOffset supers = up 4 (super_size supers).
Proof.
  intros Hs Hb. destruct supers as [|super supers]; [done|].
  simpl in *. apply RoundUp_up; [unfold width|..]; lia.
Qed.

Lemma adjust_references_counted k fs' :
  map identity fs' = map identity (ifields_ k) ->
  (is_Reference k = true ->
    exists fs f, ifields_ k = fs ++ [f] /\ Forall is_ref (fs ++ [f]) /\
      GetName f = "referent"%string /\ Forall (fun f => GetName f <> "referent"%string) fs) ->
  adjust_references false k fs' (Z.of_nat (length (filter is_ref (ifields_ k)))) =
  Some (num_counted (is_Reference k) (ifields_ k)).
Proof.
  intros Hid Hr. unfold adjust_references, num_counted. simpl.
  assert (length fs' = length (ifields_ k)) as Hlen
    by (apply (f_equal length) in Hid; by rewrite !length_map in Hid).
  destruct (is_Reference k).
  - destruct (Hr eq_refl) as (fs & f & E & Hrefs & Hf & Hn). rewrite E in *. clear Hr.
    rewrite map_app in Hid. apply map_eq_app in Hid as (gs' & l' & -> & _ & Hl).
    apply map_eq_cons in Hl as (f' & l & -> & Ef & Hl). apply map_eq_nil in Hl as ->.
    assert (filter is_ref (fs ++ [f]) = fs ++ [f]) as ->.
    { rewrite <- (app_nil_r (fs ++ [f])) at 1. apply filter_split; [done|constructor]. }
    rewrite !length_app in *. simpl length in *.
    rewrite Nat.add_sub, list_lookup_middle, (name_identity _ _ Ef), Hf by done.
    rewrite (check_true (_ =? _)) by (apply Z.eqb_eq; lia). simpl.
    apply List.Forall_app in Hrefs as [Hfs _].
    rewrite (filter_split (counted true)); [f_equal; lia| |].
    + apply List.Forall_forall. intros g Hg. rewrite List.Forall_forall in Hfs, Hn.
      split; [auto|]. simpl. rewrite String.eqb_neq. auto.
    + constructor; [|constructor]. intros [_ Hc]. by rewrite Hf in Hc.
  - f_equal. f_equal. f_equal. apply filter_iff_in. apply List.Forall_forall.
    intros f _. unfold counted. split; [by split|by intros [? _]].
Qed.

(** The layout of [java.lang.Object]. *)
Lemma object_fields_layout fs :
  object_fields fs ->
  exists l, layout_fields 0 fs = Some l /\ field_offset l = 8 /\ num_counted false fs = 1.
Proof. intros (i1 & i2 & o1 & o2 & ->). by eexists. Qed.

Lemma loaded_referent_last pointer_size b k :
  loaded pointer_size b k -> referent_last (is_Reference k) (ifields_ k).
Proof. intros Hl Hr. right. apply (ld_reference _ _ _ Hl Hr). Qed.

Lemma is_Object_Reference k : is_Object k = true -> is_Reference k = false.
Proof.
  unfold is_Object, is_Reference. intros H. apply String.eqb_eq in H. by rewrite H.
Qed.

Lemma loaded_layout pointer_size k supers :
  loaded pointer_size (bool_decide (supers = [])) k ->
  0 <= super_size supers -> super_size supers + bytes (ifields_ k) + 14 < 2 ^ 32 ->
  (supers <> [] -> 8 <= super_size supers) ->
  exists l, layout_fields (super_size supers) (ifields_ k) = Some l /\
    placed (super_size supers) (ifields_ k) (fields l) (field_offset l) /\
    num_reference_fields l = Z.of_nat (length (filter is_ref (ifields_ k))) /\
    8 <= field_offset l /\
    (supers = [] -> num_counted (is_Reference k) (ifields_ k) = 1 /\ field_offset l = 8).
Proof.
  intros Hl Hs Hb H8. destruct (ld_fields _ _ _ Hl) as [Ht Hi Hn].
  destruct (layout_placed (super_size supers) (ifields_ k)) as (l & E & Hp & Hnum); try done.
  exists l. split; [done|]. split; [done|]. split; [done|].
  destruct supers as [|super supers].
  - rewrite bool_decide_eq_true_2 in Hl by done.
    destruct (object_fields_layout (ifields_ k)) as (l' & E' & H' & Hc); [by apply Hl|].
    rewrite is_Object_Reference by apply (ld_object _ _ _ Hl).
    simpl in E. rewrite E' in E. injection E as <-. rewrite H'. done.
  - pose proof (pl_size _ _ _ _ Hp). specialize (H8 ltac:(done)). split; [lia|done].
Qed.

Lemma total_nonneg chain :
  Forall (fun k => 0 <= num_reference_instance_fields_ k) chain ->
  0 <= total_reference_instance_fields chain.
Proof. induction 1; simpl; lia. Qed.

Lemma store_instance_fields_spec dbg pointer_size fs' num size k supers :
  loaded pointer_size (bool_decide (supers = [])) k -> 8 <= size ->
  (supers = [] -> num = 1) -> (supers <> [] -> 1 <= total_reference_instance_fields supers) ->
  store_instance_fields dbg fs' num size k supers =
  Some (SetObjectSize size (set_instance_fields fs' num (linked_flags num k supers) k)).
Proof.
  intros Hl H8 Hbase Hsup. unfold store_instance_fields.
  match goal with |- context [set_instance_fields _ _ ?e _] =>
    replace e with (linked_flags num k supers) end.
  2: { unfold linked_flags, no_references. destruct (_ || _); [|done].
       destruct supers; simpl; [done|]. by case_if. }
  set (k' := set_instance_fields fs' num (linked_flags num k supers) k).
  assert (check_references dbg num k' supers = Some tt) as ->.
  { unfold check_references. rewrite (dcheck_true dbg (bool_decide _)); simpl.
    - apply dcheck_true. destruct supers as [|super rest]; simpl.
      + rewrite Hbase by done. done.
      + specialize (Hsup ltac:(done)). simpl in Hsup. apply Z.leb_le. lia.
    - apply bool_decide_eq_true. change (is_Object k') with (is_Object k).
      rewrite (ld_object _ _ _ Hl). by rewrite bool_decide_eq_true. }
  assert (IsVariableSize k' = false) as ->.
  { unfold IsVariableSize, IsStringClass, k'. simpl. rewrite (ld_fixed _ _ _ Hl). simpl.
    by rewrite (linked_flags_fixed num k supers) by apply Hl. }
  simpl. rewrite dcheck_true by (apply Z.leb_le; done). simpl.
  by rewrite (ld_size _ _ _ Hl).
Qed.

Lemma LinkInstanceFields_spec dbg pointer_size k supers :
  loaded pointer_size (bool_decide (supers = [])) k ->
  0 <= super_size supers -> super_size supers + bytes (ifields_ k) + 14 < 2 ^ 32 ->
  (forall super rest, supers = super :: rest ->
     class_resolved super = true /\ 8 <= object_size_ super /\
     1 <= total_reference_instance_fields supers) ->
  let num := num_counted (is_Reference k) (ifields_ k) in
  exists fs' size,
    placed (super_size supers) (ifields_ k) fs' size /\ 8 <= size /\
    (supers = [] -> num = 1 /\ size = 8) /\
    LinkInstanceFields dbg pointer_size k supers =
      Some (SetObjectSize size (set_instance_fields fs' num (linked_flags num k supers) k)).
Proof.
  intros Hl Hs Hb Hsup num.
  destruct (loaded_layout pointer_size k supers) as (l & E & Hp & Hnum & H8 & Hbase); try done.
  { intros Hne. destruct supers as [|super rest]; [done|]. by apply (Hsup super rest). }
  exists (fields l), (field_offset l). split; [done|]. split; [done|]. split; [done|].
  unfold LinkInstanceFields, LinkFields. 
  assert (start_of_fields pointer_size false k supers = Some (super_size supers)) as ->.
  { destruct supers as [|super rest]; [done|]. simpl.
    destruct (Hsup super rest) as (-> & _); done. }
  simpl. rewrite E. simpl. rewrite Hnum, adjust_references_counted; [|apply Hp|apply Hl].
  fold num. simpl.
  assert (store_instance_fields dbg (fields l) num (field_offset l) k supers =
    Some (SetObjectSize (field_offset l)
            (set_instance_fields (fields l) num (linked_flags num k supers) k))) as ->.
  { eapply store_instance_fields_spec; try done; [by apply Hbase|].
    destruct supers as [|super rest]; [done|]. intros _. by apply (Hsup super rest). }
  simpl. rewrite dcheck_true; [done|]. pose proof (bytes_nonneg (ifields_ k)). unfold start_ref_offset.
  rewrite start_ref_up by lia.
  eapply offsets_checked; try done; [apply Hl|by eapply loaded_referent_last].
Qed.
