(* ===== verification/ReferenceVisits.v ===== *)
(** * The references the collector visits

    [Object::VisitReferences] reads where the references of an instance are from
    its class; composed with the linking of the class and its superclasses, it
    visits every reference field of the instance once.  Also the layout of whole
    instances. *)
From Stdlib Require Import String Ascii.
From stdpp Require Import sorting.
From S2P Require Import Prelude BitUtils MirrorClass FieldLayout FieldLayoutFacts ObjectLayout ObjectLayoutFacts.

(** ** The loops of the visit *)

Lemma visit_run_eq n o : 0 < o -> o + 4 * Z.of_nat n <= 2 ^ 32 -> visit_run n o = run o n.
Proof.
  revert o. induction n as [|n IH]; intros o H0 Hb; [done|].
  simpl visit_run. rewrite run_S.
  replace (o =? ClassOffset) with false by (symmetry; apply Z.eqb_neq; unfold ClassOffset; lia).
  simpl. f_equal. unfold sizeof_HeapReference.
  destruct n as [|n]; [done|]. rewrite wrap_u_id by (unfold in_u; lia). apply IH; lia.
Qed.

Lemma elem_of_visit_bitmap fuel bm o x :
  0 <= bm < 2 ^ Z.of_nat fuel -> 0 <= o -> o + 4 * Z.of_nat fuel < 2 ^ 32 ->
  x ∈ visit_bitmap fuel bm o <-> exists b, 0 <= b /\ Z.testbit bm b = true /\ x = o + 4 * b.
Proof.
  revert bm o. induction fuel as [|fuel IH]; intros bm o Hbm Ho Hb.
  { assert (bm = 0) as -> by (simpl in Hbm; lia). simpl. split; [by intros ?%elem_of_nil|].
    intros (b & _ & H & _). by rewrite Z.bits_0 in H. }
  simpl visit_bitmap. destruct (bm =? 0) eqn:E; bools.
  { subst. split; [by intros ?%elem_of_nil|]. intros (b & _ & H & _). by rewrite Z.bits_0 in H. }
  unfold sizeof_HeapReference. rewrite wrap_u_id by (unfold in_u; lia).
  assert (0 <= bm >> 1 < 2 ^ Z.of_nat fuel) as Hs.
  { rewrite Z.shiftr_div_pow2 by lia. rewrite Nat2Z.inj_succ, Z.pow_succ_r in Hbm by lia. zdiv. }
  assert (negb (bm &&& 1 =? 0) = Z.testbit bm 0) as ->.
  { change 1 with (2 ^ 1 - 1) at 1. rewrite land_ones_mod, Z.bit0_odd, Zodd_mod by lia.
    change (2 ^ 1) with 2. pose proof (Z.mod_pos_bound bm 2).
    destruct (bm mod 2 =? 0) eqn:E2; bools; symmetry; [apply Z.eqb_neq|apply Z.eqb_eq]; lia. }
  rewrite elem_of_app, (IH _ _ Hs) by lia. split.
  - intros [H|(b & H0 & Ht & ->)].
    + destruct (Z.testbit bm 0) eqn:E0; [|by apply elem_of_nil in H].
      apply list_elem_of_singleton in H as ->. exists 0. split_and!; done || lia.
    + rewrite Z.shiftr_spec in Ht by lia. exists (b + 1). split_and!; done || lia.
  - intros (b & H0 & Ht & ->). destruct (Z.eq_dec b 0) as [->|].
    + left. rewrite Ht. apply list_elem_of_singleton. lia.
    + right. exists (b - 1). rewrite Z.shiftr_spec by lia. rewrite Z.sub_add. split_and!; done || lia.
Qed.

Lemma visit_bitmap_NoDup fuel bm o :
  0 <= bm < 2 ^ Z.of_nat fuel -> 0 <= o -> o + 4 * Z.of_nat fuel < 2 ^ 32 ->
  NoDup (visit_bitmap fuel bm o).
Proof.
  revert bm o. induction fuel as [|fuel IH]; intros bm o Hbm Ho Hb; [constructor|].
  simpl. destruct (bm =? 0); [constructor|].
  unfold sizeof_HeapReference. rewrite wrap_u_id by (unfold in_u; lia).
  assert (0 <= bm >> 1 < 2 ^ Z.of_nat fuel) as Hs.
  { rewrite Z.shiftr_div_pow2 by lia. rewrite Nat2Z.inj_succ, Z.pow_succ_r in Hbm by lia. zdiv. }
  case_if; simpl; [|by apply IH; [..|lia|lia]].
  apply list.NoDup_cons. split; [|by apply IH; [..|lia|lia]].
  rewrite elem_of_visit_bitmap by (done || lia). intros (b & ? & _ & ?). lia.
Qed.

(** The bits that [CreateReferenceInstanceOffsets] sets. *)
Lemma mask_testbit sb n b :
  0 <= sb -> 0 < n -> sb + n <= 32 -> 0 <= b ->
  Z.testbit (u32 (0xffffffff << sb) &&& (0xffffffff >> (32 - (sb + n)))) b = true <->
  sb <= b < sb + n.
Proof.
  intros Hs Hn Hb H0. change 0xffffffff with (Z.ones 32).
  rewrite Z.land_spec, Z.shiftr_spec, !Z.testbit_ones by lia.
  destruct (Z.lt_ge_cases b 32) as [Hlt|Hge].
  - rewrite testbit_low_u, Z.shiftl_spec by lia. destruct (Z.lt_ge_cases b sb).
    + rewrite Z.testbit_neg_r by lia. simpl. split; [done|lia].
    + rewrite Z.testbit_ones by lia. rewrite !andb_true_iff, !Z.leb_le, !Z.ltb_lt. lia.
  - rewrite (testbit_high_u 32) by (apply wrap_u_range || lia; lia). split; [done|lia].
Qed.

(** ** Linked classes *)

Definition all_fields (chain : list LinkedClass) : list ArtField := mjoin (map ifields_ chain).

(** The fields of an instance that hold references the collector follows. *)
Definition reference_fields (chain : list LinkedClass) : list ArtField :=
  mjoin (map (fun k => filter (counted (is_Reference k)) (ifields_ k)) chain).

Fixpoint loaded_chain (pointer_size : Z) (chain : list LinkedClass) : Prop :=
  match chain with
  | [] => True
  | k :: supers =>
      loaded pointer_size (bool_decide (supers = [])) k /\ loaded_chain pointer_size supers
  end.

(** The bytes of an instance, with the padding a class can add. *)
Definition chain_bytes (chain : list LinkedClass) : Z :=
  foldr (fun k s => bytes (ifields_ k) + 7 + s) 0 chain.

(** The bitmap of a class has the bits of its references, if it fits. *)
Definition bitmap_ok (bm : Z) (refs : list Z) : Prop :=
  in_u 32 bm /\
  (bm = kClassWalkSuper \/
   forall b, 0 <= b -> Z.testbit bm b = true <-> kObjectHeaderSize + 4 * b ∈ refs).

(** Flags of classes without a visit of their own. *)
Definition plain_flags (flags : Z) : Prop :=
  exists raw, raw ||| kClassFlagReference = kClassFlagReference /\
    (flags = raw \/ flags = raw ||| kClassFlagNoReferenceFields).

Record chain_ok (ks : list LinkedClass) : Prop := {
  co_resolved : forall k rest, ks = k :: rest -> class_resolved k = true;
  co_size : 8 <= super_size ks;
  co_total : 1 <= total_reference_instance_fields ks;
  co_visit : ClassOffset :: visit_supers ks ≡ₚ map offset_ (reference_fields ks);
  co_nodup : NoDup (visit_supers ks);
  co_range : forall x, x ∈ visit_supers ks ->
               kObjectHeaderSize <= x /\ x + 4 <= super_size ks /\ x mod 4 = 0;
  co_bitmap : forall k rest, ks = k :: rest ->
                bitmap_ok (reference_instance_offsets_ k) (visit_supers ks);
  co_flags : forall k rest, ks = k :: rest -> plain_flags (class_flags_ k) /\
               (class_flags_ k &&& kClassFlagNoReferenceFields <> 0 -> visit_supers ks = []);
  co_packed : packed 0 (super_size ks) (map extent_of (all_fields ks));
  co_aligned : Forall (fun f => offset_ f mod ComponentSize (GetTypeAsPrimitiveType f) = 0)
                 (all_fields ks)
}.

(** *** One more class *)

Section Subclass.
Context (ks : list LinkedClass) (k : LinkedClass) (fs' : list ArtField) (size : Z).
Context (Hks : chain_ok ks) (Hne : ks <> []).
Context (Hp : placed (super_size ks) (ifields_ k) fs' size).
Context (Hfit : super_size ks + bytes (ifields_ k) + 14 < 2 ^ 32).
Context (Hcounted : counted_placed (is_Reference k) (super_size ks) (ifields_ k) fs').

Notation num := (length (filter (counted (is_Reference k)) (ifields_ k))).
Notation first := (up 4 (super_size ks)).

Lemma first_bounds : kObjectHeaderSize <= first /\ super_size ks <= first <= super_size ks + 3 /\ first mod 4 = 0.
Proof.
  pose proof (co_size _ Hks). destruct (up_bounds 4 (super_size ks)); [unfold width; lia|].
  unfold kObjectHeaderSize. lia.
Qed.

Lemma first_eq : GetFirstReferenceInstanceFieldOffset ks = first.
Proof.
  pose proof (co_size _ Hks). pose proof (bytes_nonneg (ifields_ k)).
  apply start_ref_up; lia.
Qed.

(** The references of the class lie between its superclass and its end. *)
Lemma run_range x :
  x ∈ run first num -> super_size ks <= x /\ x + 4 <= size /\ x mod 4 = 0.
Proof.
  intros Hx. pose proof first_bounds as (? & ? & ?). split_and!.
  - apply elem_of_run in Hx as (i & ? & ->). lia.
  - destruct Hcounted as (Hoff & _). rewrite <- Hoff in Hx.
    apply list_elem_of_In, in_map_iff in Hx as (f & <- & Hf).
    apply list_elem_of_In, list_elem_of_filter in Hf as [[Hr _] Hf].
    pose proof (placed_within _ _ _ _ _ Hp Hf) as Hw. unfold within in Hw. simpl in Hw.
    rewrite Hr in Hw. simpl in Hw. unfold kObjectReferenceSize in Hw. lia.
  - apply elem_of_run in Hx as (i & ? & ->). zdiv.
Qed.

Lemma visit_supers_cons k' :
  num_reference_instance_fields_ k' = Z.of_nat num ->
  visit_supers (k' :: ks) = run first num ++ visit_supers ks.
Proof.
  intros En. simpl. rewrite En, first_eq, Nat2Z.id. f_equal.
  destruct (Z.of_nat num =? 0) eqn:E; bools.
  - by replace num with 0%nat by lia.
  - apply visit_run_eq; pose proof first_bounds as (? & ? & ?); unfold kObjectHeaderSize in *; [lia|].
    pose proof (counted_bound _ _ _ _ Hcounted). unfold num_counted in *. lia.
Qed.

(** *** The bitmap *)

Lemma bitmap_extended k' :
  num_reference_instance_fields_ k' = Z.of_nat num ->
  bitmap_ok (reference_instance_offsets_ (CreateReferenceInstanceOffsets k' ks))
    (run first num ++ visit_supers ks).
Proof.
  intros En. pose proof first_bounds as (Hf1 & Hf2 & Hf3). pose proof first_eq as Hfe.
  pose proof (bytes_nonneg (ifields_ k)). remember (up 4 (super_size ks)) as o eqn:Eo.
  destruct ks as [|super rest]; [done|].
  destruct (co_bitmap _ Hks super rest eq_refl) as [Hin Hbm].
  unfold CreateReferenceInstanceOffsets. cbn [GetFirstReferenceInstanceFieldOffset super_size] in *.
  rewrite En, Hfe. cbn [SetReferenceInstanceOffsets reference_instance_offsets_].
  destruct (reference_instance_offsets_ super =? kClassWalkSuper) eqn:Ew; bools; cbn [negb].
  { split; [done|by left]. }
  destruct Hbm as [|Hbm]; [done|].
  destruct (Z.of_nat num =? 0) eqn:E0; bools; cbn [negb].
  { replace num with 0%nat by lia. split; [done|by right]. }
  assert (u32 (o - kObjectHeaderSize) / sizeof_HeapReference = (o - 8) / 4) as ->.
  { unfold kObjectHeaderSize, sizeof_HeapReference in *. rewrite wrap_u_id; [done|].
    unfold in_u. lia. }
  set (sb := (o - 8) / 4).
  assert (o = 8 + 4 * sb /\ 0 <= sb) as [Esb Hsb]
    by (unfold kObjectHeaderSize in *; subst sb; zdiv).
  case_if; bools; [by split; [|left]|]. split.
  - apply lor_range; [lia|done|]. apply land_range; [lia|apply wrap_u_range; lia|].
    apply Z.shiftr_nonneg. lia.
  - right. intros b Hb. rewrite Z.lor_spec, orb_true_iff, Hbm, mask_testbit by lia.
    rewrite elem_of_app, elem_of_run, Esb. unfold kObjectHeaderSize.
    split; [intros [?|?]; [by right|left]|intros [(i & ? & ?)|?]; [right; lia|by left]].
    exists (Z.to_nat (b - sb)). lia.
Qed.

(** The class after [LinkClass_fields]. *)
Definition linked_class (sfs : list ArtField) (snum : Z) : LinkedClass :=
  SetResolved (CreateReferenceInstanceOffsets
    (set_static_fields sfs snum
       (SetObjectSize size (set_instance_fields fs' (Z.of_nat num)
          (linked_flags (Z.of_nat num) k ks) k))) ks).

Context (Hflags : class_flags_ k ||| kClassFlagReference = kClassFlagReference).

Lemma plain_no_bit : class_flags_ k &&& kClassFlagNoReferenceFields = 0.
Proof.
  apply Z.bits_inj'. intros n Hn. pose proof (f_equal (fun z => Z.testbit z n) Hflags) as H.
  simpl in H. rewrite Z.lor_spec in H. rewrite Z.land_spec, Z.bits_0.
  destruct (Z.testbit kClassFlagNoReferenceFields n) eqn:E; [|by rewrite andb_false_r].
  assert (n = 0) as ->.
  { change kClassFlagNoReferenceFields with (2 ^ 0) in E. rewrite Z.pow2_bits_eqb in E by lia.
    bools. lia. }
  change (Z.testbit kClassFlagReference 0) with false in H. rewrite orb_false_r in H. by rewrite H.
Qed.

Lemma linked_flags_ok :
  plain_flags (linked_flags (Z.of_nat num) k ks) /\
  (linked_flags (Z.of_nat num) k ks &&& kClassFlagNoReferenceFields <> 0 ->
   run first num ++ visit_supers ks = []).
Proof.
  unfold linked_flags. rewrite (bool_decide_eq_false_2 (ks = [])) by done. rewrite orb_false_r.
  case_if.
  - split; [exists (class_flags_ k); auto|]. intros _. bools.
    replace num with 0%nat by lia. simpl. destruct ks as [|super rest] eqn:Eks; [done|].
    simpl in H0. bools. by apply (co_flags _ Hks super rest).
  - split; [exists (class_flags_ k); auto|]. by rewrite plain_no_bit.
Qed.

Lemma chain_ok_cons sfs snum : chain_ok (linked_class sfs snum :: ks).
Proof.
  pose proof (visit_supers_cons (linked_class sfs snum) eq_refl) as Ev.
  pose proof (pl_size _ _ _ _ Hp) as Hsz. pose proof first_bounds as (Hf1 & Hf2 & Hf3).
  split; rewrite ?Ev.
  - by intros ? ? [= <- <-].
  - pose proof (co_size _ Hks). simpl. lia.
  - pose proof (co_total _ Hks). simpl. lia.
  - unfold reference_fields. simpl. rewrite map_app. fold (reference_fields ks).
    rewrite <- (co_visit _ Hks). change (is_Reference (linked_class sfs snum)) with (is_Reference k).
    destruct Hcounted as (-> & _). by rewrite <- Permutation_middle.
  - apply list.NoDup_app. split_and!; [apply run_NoDup| |apply Hks].
    intros x Hx Hx'. apply run_range in Hx as (? & _). apply (co_range _ Hks) in Hx' as (_ & ? & _). lia.
  - intros x. rewrite elem_of_app. intros [Hx|Hx]; simpl.
    + pose proof (run_range x Hx) as (? & ? & ?). pose proof (co_size _ Hks).
      unfold kObjectHeaderSize. lia.
    + apply (co_range _ Hks) in Hx as (? & ? & ?). lia.
  - intros ? ? [= <- <-]. by apply bitmap_extended.
  - intros ? ? [= <- <-]. apply linked_flags_ok.
  - unfold all_fields. simpl. rewrite map_app, Permutation_app_comm.
    pose proof (co_size _ Hks). apply (packed_app _ (super_size ks)); [lia|apply Hks|apply Hp].
  - unfold all_fields. simpl. apply List.Forall_app. split; [apply Hp|apply Hks].
Qed.

End Subclass.

(** *** The base class *)

Lemma chain_ok_base k fs' sfs snum :
  placed 0 (ifields_ k) fs' 8 ->
  length (filter (counted (is_Reference k)) (ifields_ k)) = 1%nat ->
  counted_placed (is_Reference k) 0 (ifields_ k) fs' ->
  class_flags_ k ||| kClassFlagReference = kClassFlagReference ->
  chain_ok [linked_class [] k fs' 8 sfs snum].
Proof.
  intros Hp Hn (Hoff & _ & _) Hflags.
  assert (visit_supers [linked_class [] k fs' 8 sfs snum] = []) as Ev.
  { simpl. rewrite Hn. done. }
  split; rewrite ?Ev.
  - by intros ? ? [= <- <-].
  - done.
  - simpl. rewrite Hn. done.
  - unfold reference_fields. simpl. rewrite app_nil_r.
    change (is_Reference _) with (is_Reference k). rewrite Hoff, Hn. done.
  - constructor.
  - by intros x ?%elem_of_nil.
  - intros ? ? [= <- <-]. split; [done|]. right. intros b Hb. simpl. rewrite Z.bits_0.
    split; [done|]. by intros ?%elem_of_nil.
  - intros ? ? [= <- <-]. split; [|done]. exists (class_flags_ k). split; [done|]. right.
    simpl. unfold linked_flags. by rewrite orb_true_r.
  - unfold all_fields. simpl. rewrite app_nil_r. apply Hp.
  - unfold all_fields. simpl. rewrite app_nil_r. apply Hp.
Qed.

(** ** Linking a class and its superclasses *)

(** Linking changes neither the name of a class nor those of its fields. *)
Definition same_class (k k' : LinkedClass) : Prop :=
  class_descriptor k' = class_descriptor k /\
  map identity (ifields_ k') = map identity (ifields_ k).

Lemma LinkClass_fields_ok dbg pointer_size k ks :
  loaded pointer_size (bool_decide (ks = [])) k ->
  (ks = [] \/ chain_ok ks) -> super_size ks + bytes (ifields_ k) + 14 < 2 ^ 32 ->
  exists k' class_size, LinkClass_fields dbg pointer_size k ks = Some (k', class_size) /\
    chain_ok (k' :: ks) /\ same_class k k' /\
    object_size_ k' <= super_size ks + bytes (ifields_ k) + 7.
Proof.
  intros Hl Hks Hb.
  assert (0 <= super_size ks) as Hs.
  { destruct Hks as [->|Hks]; [done|]. pose proof (co_size _ Hks). lia. }
  destruct (LinkInstanceFields_spec dbg pointer_size k ks) as (fs' & size & Hp & H8 & Hbase & E);
    try done.
  { intros super rest ->. destruct Hks as [|Hks]; [done|]. split; [by eapply co_resolved|].
    split; [apply (co_size _ Hks)|apply (co_total _ Hks)]. }
  unfold LinkClass_fields. rewrite E. simpl.
  set (k1 := SetObjectSize size _).
  assert (loaded_statics pointer_size k1) as Hst.
  { destruct (ld_statics _ _ _ Hl) as [H1 H2 H3 H4 H5]. by split. }
  destruct (LinkStaticFields_spec dbg pointer_size k1 ks Hst) as (sfs & csize & _ & ->). simpl.
  eexists _, _. split; [done|].
  pose proof (placed_counted _ _ _ _ _ Hp (loaded_referent_last _ _ _ Hl)) as Hc.
  split; [|split; [by split; [|apply Hp]|apply (pl_size _ _ _ _ Hp)]].
  destruct (decide (ks = [])) as [->|Hne].
  - destruct Hbase as [Hn ->]; [done|]. unfold num_counted in Hn.
    eapply chain_ok_base; try done; [lia|apply Hl].
  - destruct Hks as [|Hks]; [done|]. eapply chain_ok_cons; try done. apply Hl.
Qed.

Lemma super_size_linked ks : ks = [] \/ chain_ok ks -> 0 <= super_size ks.
Proof. intros [->|H]; [done|]. pose proof (co_size _ H). lia. Qed.

Lemma link_classes_ok dbg pointer_size chain :
  loaded_chain pointer_size chain -> chain_bytes chain + 14 < 2 ^ 32 ->
  exists ks, link_classes dbg pointer_size chain = Some ks /\ Forall2 same_class chain ks /\
    (ks = [] \/ chain_ok ks) /\ super_size ks <= chain_bytes chain.
Proof.
  induction chain as [|k chain IH]; intros Hl Hb.
  { exists []. split_and!; [done|constructor|by left|done]. }
  destruct Hl as [Hk Hl]. simpl in Hb. pose proof (bytes_nonneg (ifields_ k)).
  destruct IH as (ks & E & Hsame & Hok & Hsz); [done|lia|].
  assert (bool_decide (chain = []) = bool_decide (ks = [])) as Ebase.
  { apply bool_decide_ext. by inversion Hsame. }
  rewrite Ebase in Hk.
  destruct (LinkClass_fields_ok dbg pointer_size k ks) as (k' & csize & E' & Hok' & Hsame' & Hsz');
    try done; [lia|].
  exists (k' :: ks). simpl. rewrite E. simpl. rewrite E'. simpl.
  split_and!; [done|by constructor|by right|]. lia.
Qed.

(** ** The visit *)

Lemma VisitInstanceFieldsReferences_ok ks :
  ks <> [] -> chain_ok ks -> VisitInstanceFieldsReferences ks ≡ₚ visit_supers ks.
Proof.
  intros Hne Hok. destruct ks as [|k rest]; [done|]. unfold VisitInstanceFieldsReferences.
  destruct (co_bitmap _ Hok k rest eq_refl) as [Hin Hbm].
  destruct (reference_instance_offsets_ k =? kClassWalkSuper) eqn:E; bools; [done|]. cbn [negb].
  destruct Hbm as [|Hbm]; [done|].
  apply NoDup_Permutation; [by apply visit_bitmap_NoDup|apply Hok|]. intros x.
  rewrite elem_of_visit_bitmap by done. split.
  - intros (b & Hb & Ht & ->). by apply Hbm.
  - intros Hx. destruct (co_range _ Hok x Hx) as (Hx1 & _ & Hx2).
    unfold kObjectHeaderSize in *.
    assert (x = 8 + 4 * ((x - 8) / 4)) as Ex by zdiv.
    exists ((x - 8) / 4). split; [zdiv|]. split; [|done]. apply Hbm; [zdiv|]. by rewrite <- Ex.
Qed.

(** Flags within a mask. *)
Lemma lor_within a m : a ||| m = m -> a &&& m = a.
Proof.
  intros <-. apply Z.bits_inj'. intros n _. rewrite Z.land_spec, Z.lor_spec.
  by destruct (Z.testbit a n), (Z.testbit m n).
Qed.

Lemma VisitReferences_ok k rest :
  chain_ok (k :: rest) ->
  exists visited, VisitReferences (k :: rest) = Some visited /\
    visited ≡ₚ ClassOffset :: visit_supers (k :: rest).
Proof.
  intros Hok. destruct (co_flags _ Hok k rest eq_refl) as [(raw & Hraw & Hf) Hno].
  pose proof (VisitInstanceFieldsReferences_ok (k :: rest) ltac:(done) Hok) as Hv.
  unfold VisitReferences.
  destruct (class_flags_ k =? kClassFlagNormal) eqn:E0; bools.
  { eexists. split; [done|]. by rewrite Hv. }
  destruct (class_flags_ k &&& kClassFlagNoReferenceFields =? 0) eqn:E1; bools.
  2: { rewrite (Hno E1). by eexists. }
  assert (class_flags_ k = raw) as Ek.
  { destruct Hf as [|Hf]; [done|]. rewrite Hf in E1. exfalso.
    apply (f_equal (fun z => Z.testbit z 0)) in E1.
    rewrite Z.land_spec, Z.lor_spec in E1. simpl in E1. by rewrite orb_true_r in E1. }
  rewrite Ek in *. rewrite (lor_within _ _ Hraw).
  destruct (raw =? kClassFlagClass) eqn:E2; bools; [rewrite E2 in Hraw; discriminate|].
  destruct (raw =? kClassFlagObjectArray) eqn:E3; bools; [rewrite E3 in Hraw; discriminate|].
  destruct (raw =? 0) eqn:E4; bools; [done|]. cbn [negb].
  eexists. split; [done|]. by rewrite Hv.
Qed.

(** ** Results *)

Lemma link_classes_cons dbg pointer_size k chain :
  loaded_chain pointer_size (k :: chain) -> chain_bytes (k :: chain) + 14 < 2 ^ 32 ->
  exists k' ks, link_classes dbg pointer_size (k :: chain) = Some (k' :: ks) /\
    Forall2 same_class (k :: chain) (k' :: ks) /\ chain_ok (k' :: ks) /\
    object_size_ k' <= chain_bytes (k :: chain).
Proof.
  intros Hl Hb. destruct (link_classes_ok dbg pointer_size _ Hl Hb) as (ks & E & Hs & Hok & Hsz).
  inversion Hs; subst. destruct Hok as [|Hok]; [done|]. by eexists _, _.
Qed.

(** C7. Layout of instances.  When a class and its superclasses are linked, no
    check fails, in a debug build either; every instance field, of the class and
    of its superclasses, lies inside the object, at an offset that is a multiple
    of its size, and no two fields overlap.  Each class adds at most seven bytes
    of padding to the bytes of its fields. *)
Theorem instance_fields_laid_out dbg pointer_size k chain :
  loaded_chain pointer_size (k :: chain) -> chain_bytes (k :: chain) + 14 < 2 ^ 32 ->
  exists k' ks, link_classes dbg pointer_size (k :: chain) = Some (k' :: ks) /\
    Forall2 same_class (k :: chain) (k' :: ks) /\
    object_size_ k' <= chain_bytes (k :: chain) /\
    (forall i f, all_fields (k' :: ks) !! i = Some f ->
       let size := ComponentSize (GetTypeAsPrimitiveType f) in
       0 <= offset_ f /\ offset_ f + size <= object_size_ k' /\ offset_ f mod size = 0) /\
    (forall i j f g, i <> j -> all_fields (k' :: ks) !! i = Some f ->
       all_fields (k' :: ks) !! j = Some g ->
       offset_ f + ComponentSize (GetTypeAsPrimitiveType f) <= offset_ g \/
       offset_ g + ComponentSize (GetTypeAsPrimitiveType g) <= offset_ f).
Proof.
  intros Hl Hb.
  destruct (link_classes_cons dbg pointer_size k chain Hl Hb) as (k' & ks & E & Hs & Hok & Hsz).
  exists k', ks. split; [done|]. split; [done|]. split; [done|].
  pose proof (co_packed _ Hok) as Hpk. split.
  - intros i f Hf size. destruct Hpk as [Hw _].
    assert (map extent_of (all_fields (k' :: ks)) !! i = Some (extent_of f)) as He
      by by rewrite list_lookup_fmap, Hf.
    pose proof (Forall_lookup_1 _ _ _ _ Hw He) as (H1 & _ & H2).
    pose proof (Forall_lookup_1 _ _ _ _ (co_aligned _ Hok) Hf). by split_and!.
  - intros i j f g Hij Hf Hg.
    apply (packed_apart _ _ _ i j (extent_of f) (extent_of g) Hpk Hij);
      by rewrite list_lookup_fmap, ?Hf, ?Hg.
Qed.

(** C6. The collector sees every reference.  For an instance of a class linked
    with its superclasses, [Object::VisitReferences] gives its visitor the offset
    of each reference field of the class and its superclasses exactly once, and
    nothing else; whether the bitmap of the class is used or the walk up the
    hierarchy.  [java.lang.ref.Reference.referent] is the one field left out. *)
Theorem references_visited dbg pointer_size k chain :
  loaded_chain pointer_size (k :: chain) -> chain_bytes (k :: chain) + 14 < 2 ^ 32 ->
  exists ks visited, link_classes dbg pointer_size (k :: chain) = Some ks /\
    Forall2 same_class (k :: chain) ks /\
    VisitReferences ks = Some visited /\
    visited ≡ₚ map offset_ (reference_fields ks) /\ NoDup visited.
Proof.
  intros Hl Hb.
  destruct (link_classes_cons dbg pointer_size k chain Hl Hb) as (k' & ks & E & Hs & Hok & _).
  destruct (VisitReferences_ok k' ks Hok) as (visited & Ev & Hv).
  exists (k' :: ks), visited. split_and!; try done.
  - rewrite Hv. apply Hok.
  - rewrite Hv. apply list.NoDup_cons. split; [|apply Hok].
    intros (H & _)%(co_range _ Hok). done.
Qed.

(** ** An example *)

Definition sample_linked (descriptor : string) (ifields sfields : list ArtField) : LinkedClass :=
  mkLinked descriptor false false true 11 ifields sfields 0 0 0 0 0.
Definition sample_object : LinkedClass :=
  sample_linked "Ljava/lang/Object;"
    [mkField 0 "Ljava/lang/Class;" "shadow$_klass_" 0; mkField 1 "I" "shadow$_monitor_" 0] [].
Definition sample_base : LinkedClass :=
  sample_linked "LBase;"
    [mkField 2 "Z" "flag" 0; mkField 3 "LBase;" "next" 0; mkField 4 "S" "s" 0]
    [mkField 5 "J" "count" 0; mkField 6 "LBase;" "root" 0].
Definition sample_derived : LinkedClass :=
  sample_linked "LDerived;"
    [mkField 7 "B" "b" 0; mkField 8 "J" "l" 0; mkField 9 "[I" "x" 0] [].

Ltac sample_fields :=
  split; [by repeat constructor|by repeat constructor|by repeat constructor].
Ltac sample_loaded :=
  split; [sample_fields|split; [sample_fields|done|by right|done|done]|done|done|done|done|
          intros; try done|done].

Lemma sample_chain_loaded : loaded_chain 8 [sample_derived; sample_base; sample_object].
Proof.
  split; [sample_loaded|]. split; [sample_loaded|]. split; [sample_loaded|done].
  by exists 0, 1, 0, 0.
Qed.

Lemma instance_fields_laid_out_witness :
  map offset_ <$> (all_fields <$> link_classes true 8 [sample_derived; sample_base; sample_object])
    = Some [20; 24; 16; 14; 8; 12; 0; 4] /\
  exists k' ks, link_classes true 8 [sample_derived; sample_base; sample_object] = Some (k' :: ks) /\
    object_size_ k' <= 49.
Proof.
  split; [vm_compute; reflexivity|].
  destruct (instance_fields_laid_out true 8 sample_derived [sample_base; sample_object]
              sample_chain_loaded ltac:(done)) as (k' & ks & E & _ & H & _).
  exists k', ks. split; [exact E|exact H].
Defined.

Lemma references_visited_witness :
  (link_classes true 8 [sample_derived; sample_base; sample_object] ≫= VisitReferences)
    = Some [0; 8; 16] /\
  exists ks visited, link_classes true 8 [sample_derived; sample_base; sample_object] = Some ks /\
    VisitReferences ks = Some visited /\ NoDup visited.
Proof.
  split; [vm_compute; reflexivity|].
  destruct (references_visited true 8 sample_derived [sample_base; sample_object]
              sample_chain_loaded ltac:(done)) as (ks & visited & E & _ & H & _ & Hn).
  exists ks, visited. split; [exact E|split; [exact H|exact Hn]].
Defined.
