(* ===== verification/ClassSize.v ===== *)
(** * The size of class objects

    A class without embedded tables is allocated with the size that
    [SizeOfClassWithoutEmbeddedTables] computes from its definition before it is
    linked, and [LinkClass] checks that linking its static fields ends there. *)
From Stdlib Require Import String Ascii.
From stdpp Require Import sorting.
From S2P Require Import Prelude BitUtils MirrorClass FieldLayout FieldLayoutFacts ObjectLayout ObjectLayoutFacts.

(** ** Exact accounts of gaps *)

Definition gap_total (gaps : FieldGaps) : Z := foldr (fun g s => gap_size g + s) 0 gaps.

(** Gaps that fields of [n] bytes fill without rest. *)
Definition fillable (n : Z) (g : FieldGap) : Prop := gap_ok g /\ n <= gap_size g.

#[export] Instance gap_total_proper : Proper (Permutation ==> eq) gap_total.
Proof. intros l l' Hp. unfold gap_total. induction Hp; simpl; lia. Qed.

Lemma gap_total_nonneg gaps : Forall gap_ok gaps -> 0 <= gap_total gaps.
Proof. induction 1 as [|g gaps [Hw _] _ IH]; simpl; [done|]. unfold width in Hw. lia. Qed.

Lemma AddFieldGap_loop_exact n fuel s e gaps :
  n = 1 \/ n = 2 \/ n = 4 -> 0 <= s <= e -> e < 2 ^ 32 -> (Z.to_nat (e - s) <= fuel)%nat ->
  s mod n = 0 -> e mod n = 0 -> Forall (fillable n) gaps ->
  exists gaps', AddFieldGap_loop fuel s e gaps = Some gaps' /\
    gap_total gaps' = gap_total gaps + (e - s) /\ Forall (fillable n) gaps'.
Proof.
  intros Hn. revert s gaps. induction fuel as [|fuel IH]; intros s gaps Hs He Hf Hms Hme Hg; simpl.
  { assert (s = e) as -> by lia. rewrite Z.eqb_refl. exists gaps. split_and!; done || lia. }
  destruct (s =? e) eqn:E; bools.
  { subst. exists gaps. split_and!; done || lia. }
  rewrite (wrap_u_id 32 (e - s)) by (unfold in_u; lia).
  assert (forall m, width m -> n <= m -> s + m <= e -> s mod m = 0 ->
    exists gaps', AddFieldGap_loop fuel (u32 (s + m)) e (push (mkGap s m) gaps) = Some gaps' /\
      gap_total gaps' = gap_total gaps + (e - s) /\ Forall (fillable n) gaps') as Hstep.
  { intros m Hm Hnm Hme' Ha. assert (0 < m) by (destruct Hm; lia).
    rewrite wrap_u_id by (unfold in_u; lia).
    destruct (IH (s + m) (push (mkGap s m) gaps)) as (gaps' & -> & Ht & Hok); try lia.
    - unfold width in Hm. destruct Hn as [->|[->| ->]]; zdiv.
    - rewrite push_perm. constructor; [by split|done].
    - exists gaps'. rewrite Ht, push_perm. simpl. split_and!; done || lia. }
  destruct (_ && _) eqn:E4; bools; [|destruct ((2 <=? e - s) && _) eqn:E2; bools];
    apply Hstep; unfold width; try lia.
  - apply (IsAligned_iff 4); unfold width; auto.
  - destruct Hn as [->|[->| ->]]; try lia. exfalso. apply andb_false_iff in E4 as [E4|E4]; bools; [zdiv|].
    by rewrite (proj2 (IsAligned_iff 4 s ltac:(unfold width; auto))) in E4.
  - apply (IsAligned_iff 2); unfold width; auto.
  - destruct Hn as [->|[->| ->]]; try lia; exfalso.
    + apply andb_false_iff in E2 as [E2|E2]; bools; [zdiv|].
      by rewrite (proj2 (IsAligned_iff 2 s ltac:(unfold width; auto))) in E2.
    + apply andb_false_iff in E4 as [E4|E4]; bools; [zdiv|].
      by rewrite (proj2 (IsAligned_iff 4 s ltac:(unfold width; auto))) in E4.
  - apply Z.mod_1_r.
Qed.

Lemma AddFieldGap_exact n s e gaps :
  n = 1 \/ n = 2 \/ n = 4 -> 0 <= s <= e -> e < 2 ^ 32 -> s mod n = 0 -> e mod n = 0 ->
  Forall (fillable n) gaps ->
  exists gaps', AddFieldGap s e gaps = Some gaps' /\
    gap_total gaps' = gap_total gaps + (e - s) /\ Forall (fillable n) gaps'.
Proof.
  intros. apply AddFieldGap_loop_exact; try done.
  rewrite wrap_u_id by (unfold in_u; lia). lia.
Qed.

(** The gaps that are added lie in the range. *)
Lemma AddFieldGap_full n s e gaps :
  n = 1 \/ n = 2 \/ n = 4 -> 0 <= s <= e -> e < 2 ^ 32 -> s mod n = 0 -> e mod n = 0 ->
  Forall (fillable n) gaps ->
  exists gaps', AddFieldGap s e gaps = Some gaps' /\
    gap_total gaps' = gap_total gaps + (e - s) /\ Forall (fillable n) gaps' /\
    (forall g, g ∈ gaps' -> g ∈ gaps \/ (s <= start_offset g /\ start_offset g + gap_size g <= e)).
Proof.
  intros Hn Hs He Hms Hme Hg.
  destruct (AddFieldGap_exact n s e gaps) as (gaps' & E & Ht & Hf); try done.
  destruct (AddFieldGap_spec s e gaps) as (new & gaps2 & E2 & Hp & [Hw _] & _); try done.
  rewrite E in E2. injection E2 as <-. exists gaps'. split_and!; try done.
  intros g. rewrite Hp, elem_of_app. intros [Hin|Hin]; [right|by left].
  rewrite List.Forall_forall in Hw. destruct (Hw (gap_extent g)) as (? & _ & ?); [|done].
  by apply in_map, list_elem_of_In.
Qed.

(** ** Passes in exact numbers *)

Section Passes.
Context (fs0 : list ArtField).

(** The gaps, fillable by fields of [n] bytes, have [total] bytes. *)
Record exact (n total offset : Z) (l : Layout) : Prop := {
  ex_identity : map identity (fields l) = map identity fs0;
  ex_gaps : Forall (fillable n) (gaps l);
  ex_total : gap_total (gaps l) = total;
  ex_offset : field_offset l = offset;
  ex_low : forall g, g ∈ gaps l -> 0 <= start_offset g /\ start_offset g + gap_size g <= offset
}.

Lemma place_at_end_exact n m i l offset :
  exact n 0 offset l -> 0 <= offset -> 0 <= m -> offset + m < 2 ^ 32 -> gaps l = [] ->
  exact n 0 (offset + m) (place_at_end m i l).
Proof.
  intros [Hid Hg Ht Ho Hl] H0 Hm Hb Eg. split; simpl; try done.
  - by rewrite SetOffset_identity.
  - rewrite Ho. apply wrap_u_id. unfold in_u. lia.
  - rewrite Eg. by intros g ?%elem_of_nil.
Qed.

Lemma gaps_empty n l offset : 0 < n -> exact n 0 offset l -> gaps l = [].
Proof.
  intros Hn [_ Hg Ht _ _]. destruct (gaps l) as [|g rest]; [done|]. exfalso.
  inversion Hg as [|? ? [[Hw _] Hsz] Hrest]; subst. simpl in Ht.
  assert (0 <= gap_total rest); [|lia]. apply gap_total_nonneg.
  eapply List.Forall_impl, Hrest. by intros ? [? _].
Qed.

(** A field fills a gap while there is one. *)
Lemma place_field_filled n i l total offset :
  n = 1 \/ n = 2 \/ n = 4 -> exact n total offset l -> 0 < total -> offset < 2 ^ 32 ->
  exists l', place_field n i l = Some l' /\ exact n (total - n) offset l'.
Proof.
  intros Hn [Hid Hg Ht Ho Hl] Hpos Hb. unfold place_field.
  destruct (gaps l) as [|gap rest] eqn:Eg; [simpl in Ht; lia|].
  inversion Hg as [|? ? [[Hw Ha] Hsz] Hrest]; subst. destruct (Hl gap) as [Hl1 Hl2]; [by left|].
  replace (n <=? gap_size gap) with true by (symmetry; by apply Z.leb_le).
  unfold place_in_gap. rewrite !wrap_u_id by (unfold in_u; lia).
  assert (exists gaps',
    (if n <? gap_size gap
     then AddFieldGap (start_offset gap + n) (start_offset gap + gap_size gap) rest
     else Some rest) = Some gaps' /\
    gap_total gaps' = gap_total rest + (gap_size gap - n) /\ Forall (fillable n) gaps' /\
    (forall g, g ∈ gaps' -> g ∈ rest \/
       (start_offset gap + n <= start_offset g /\
        start_offset g + gap_size g <= start_offset gap + gap_size gap)))
    as (gaps' & -> & Ht' & Hf' & Hin).
  { case_if; bools; [|exists rest; split_and!; done || lia || by left].
    destruct (AddFieldGap_full n (start_offset gap + n) (start_offset gap + gap_size gap) rest)
      as (gaps' & E' & H1 & H2 & H3); try done; try lia.
    - unfold width in Hw. destruct Hn as [->|[->| ->]]; destruct Hw as [Hw|[Hw|[Hw|Hw]]];
        rewrite Hw in Ha; zdiv.
    - unfold width in Hw. destruct Hn as [->|[->| ->]]; destruct Hw as [Hw|[Hw|[Hw|Hw]]];
        rewrite Hw in *; zdiv.
    - exists gaps'. split_and!; try done. lia. }
  simpl. eexists. split; [done|]. split; simpl; try done.
  - by rewrite SetOffset_identity.
  - lia.
  - intros g [H|H]%Hin; [apply Hl; by right|]. lia.
Qed.

Lemma exact_type n total offset l i : exact n total offset l -> type_of (fields l) i = type_of fs0 i.
Proof. intros H. apply type_of_identity, H. Qed.

(** The fields of the current size are taken from the front of the queue. *)
Definition front (n : Z) (qa qb : list nat) : Prop :=
  Forall (fun i => type_of fs0 i <> kPrimNot /\ size_of fs0 i = n) qa /\
  Forall (fun i => size_of fs0 i < n) qb.

Lemma ShuffleForward_done n qb l :
  Forall (fun i => size_of fs0 i < n) qb -> map identity (fields l) = map identity fs0 ->
  ShuffleForward n qb l = Some (qb, l).
Proof.
  intros Hq Hid. destruct Hq as [|i qb Hi _]; [done|]. simpl.
  fold (type_of (fields l) i). rewrite (type_of_identity _ _ i Hid). fold (size_of fs0 i).
  by replace (size_of fs0 i <? n) with true by (symmetry; by apply Z.ltb_lt).
Qed.

Lemma ShuffleForward_cons n i q l :
  type_of fs0 i <> kPrimNot -> size_of fs0 i = n -> map identity (fields l) = map identity fs0 ->
  ShuffleForward n (i :: q) l =
  (l ← align_offset n l; l ← place_field n i l; ShuffleForward n q l).
Proof.
  intros Ht Hs Hid. simpl. fold (type_of (fields l) i). rewrite (type_of_identity _ _ i Hid).
  fold (size_of fs0 i). replace (size_of fs0 i <? n) with false by (symmetry; apply Z.ltb_ge; lia).
  destruct (align_offset n l); [|done]. simpl. by rewrite decide_False.
Qed.

Lemma align_offset_aligned n l : width n -> field_offset l mod n = 0 -> align_offset n l = Some l.
Proof.
  intros Hn Ha. unfold align_offset. by rewrite (proj2 (IsAligned_iff n _ Hn) Ha).
Qed.

(** A pass fills the gaps first and puts the other fields at the end. *)
Lemma ShuffleForward_exact n qa qb l t offset :
  n = 1 \/ n = 2 \/ n = 4 -> front n qa qb -> exact n (n * t) offset l -> 0 <= t ->
  0 <= offset -> offset mod n = 0 -> offset + n * Z.of_nat (length qa) < 2 ^ 32 ->
  let k := Z.of_nat (length qa) in
  exists l', ShuffleForward n (qa ++ qb) l = Some (qb, l') /\
    exact n (n * Z.max 0 (t - k)) (offset + n * Z.max 0 (k - t)) l'.
Proof.
  intros Hn [Hqa Hqb]. assert (width n) as Hw by (unfold width; lia).
  revert l t offset. induction Hqa as [|i qa [Ht Hs] Hqa IH]; intros l t offset Hex Hpos H0 Ha Hb.
  { exists l. split; [by apply ShuffleForward_done; [|apply Hex]|]. cbn [length].
    replace (Z.max 0 (t - Z.of_nat 0)) with t by lia.
    by replace (offset + n * Z.max 0 (Z.of_nat 0 - t)) with offset by lia. }
  cbn [length] in Hb |- *. rewrite <- app_comm_cons, ShuffleForward_cons by (done || apply Hex).
  rewrite align_offset_aligned by (done || by rewrite (ex_offset _ _ _ _ Hex)). simpl.
  destruct (Z.eq_dec t 0) as [->|Hne].
  - pose proof (gaps_empty n l offset ltac:(lia)) as Eg. rewrite Z.mul_0_r in Hex.
    specialize (Eg Hex). unfold place_field. rewrite Eg. simpl.
    apply (place_at_end_exact n n i) in Hex; try done; [|lia..].
    destruct (IH (place_at_end n i l) 0 (offset + n)) as (l' & E & Hex'); try lia.
    { by rewrite Z.mul_0_r. }
    { destruct Hn as [->|[->| ->]]; zdiv. }
    exists l'. split; [done|]. replace (offset + n * Z.max 0 (Z.of_nat (S (length qa)) - 0))
      with (offset + n + n * Z.max 0 (Z.of_nat (length qa) - 0)) by lia.
    by replace (Z.max 0 (0 - Z.of_nat (S (length qa)))) with (Z.max 0 (0 - Z.of_nat (length qa))) by lia.
  - destruct (place_field_filled n i l (n * t) offset) as (l1 & -> & Hex1); try done; try lia. simpl.
    destruct (IH l1 (t - 1) offset) as (l' & E & Hex'); try lia.
    { by replace (n * (t - 1)) with (n * t - n) by lia. }
    exists l'. split; [done|].
    replace (t - Z.of_nat (S (length qa))) with (t - 1 - Z.of_nat (length qa)) by lia.
    by replace (Z.of_nat (S (length qa)) - t) with (Z.of_nat (length qa) - (t - 1)) by lia.
Qed.

Lemma exact_weaken n m total offset l :
  m <= n -> exact n total offset l -> exact m total offset l.
Proof.
  intros Hm [Hid Hg Ht Ho Hl]. split; try done. eapply List.Forall_impl, Hg.
  intros g [? ?]. split; [done|lia].
Qed.

(** Fields of eight bytes do not fit the gaps there are. *)
Lemma ShuffleForward_8_end qa qb l total offset :
  front 8 qa qb -> exact 4 total offset l -> total <= 4 -> 0 <= offset -> offset mod 8 = 0 ->
  offset + 8 * Z.of_nat (length qa) < 2 ^ 32 ->
  exists l', ShuffleForward 8 (qa ++ qb) l = Some (qb, l') /\
    exact 4 total (offset + 8 * Z.of_nat (length qa)) l'.
Proof.
  intros [Hqa Hqb] Hex Ht4. revert l offset Hex.
  induction Hqa as [|i qa [Ht Hs] Hqa IH]; intros l offset Hex H0 Ha Hb.
  { exists l. split; [by apply ShuffleForward_done; [|apply Hex]|]. cbn [length].
    by rewrite Z.mul_0_r, Z.add_0_r. }
  replace (offset + 8 * Z.of_nat (length (i :: qa))) with
    (offset + 8 + 8 * Z.of_nat (length qa)) in * by (cbn [length]; lia).
  rewrite <- app_comm_cons, ShuffleForward_cons by (done || apply Hex).
  rewrite align_offset_aligned; [|unfold width; lia|by rewrite (ex_offset _ _ _ _ Hex)]. simpl.
  assert (place_field 8 i l = Some (place_at_end 8 i l)) as ->.
  { unfold place_field. destruct (gaps l) as [|g rest] eqn:Eg; [done|].
    destruct Hex as [_ Hg Hgt _ _]. rewrite Eg in Hg, Hgt. inversion Hg as [|? ? Hg1 Hrest]; subst.
    simpl in Ht4. assert (0 <= gap_total rest).
    { apply gap_total_nonneg. eapply List.Forall_impl, Hrest. by intros ? [? _]. }
    by replace (8 <=? gap_size g) with false by (symmetry; apply Z.leb_gt; lia). }
  simpl. destruct (IH (place_at_end 8 i l) (offset + 8)) as (l' & E & Hex'); try lia.
  { destruct Hex as [Hid Hg Hgt Ho Hl]. split; simpl; try done.
    - by rewrite SetOffset_identity.
    - rewrite Ho. apply wrap_u_id. unfold in_u. lia.
    - intros g Hgin. specialize (Hl g Hgin). lia. }
  { zdiv. }
  by exists l'.
Qed.

(** The first field of eight bytes may leave a gap of four. *)
Definition padding_8 (num_64 offset : Z) : Z :=
  if (0 <? num_64) && negb (offset mod 8 =? 0) then 4 else 0.

Lemma ShuffleForward_8_exact qa qb l offset :
  front 8 qa qb -> exact 4 0 offset l -> 0 <= offset -> offset mod 4 = 0 ->
  offset + 4 + 8 * Z.of_nat (length qa) < 2 ^ 32 ->
  let k := Z.of_nat (length qa) in
  exists l', ShuffleForward 8 (qa ++ qb) l = Some (qb, l') /\
    exact 4 (padding_8 k offset) (offset + padding_8 k offset + 8 * k) l'.
Proof.
  intros Hf Hex H0 Ha Hb k. unfold padding_8.
  destruct (offset mod 8 =? 0) eqn:E8; bools.
  { rewrite andb_false_r, Z.add_0_r. apply ShuffleForward_8_end; try done; lia. }
  rewrite andb_true_r. destruct qa as [|i qa].
  { exists l. split; [apply ShuffleForward_done; [apply Hf|apply Hex]|].
    subst k. simpl. by rewrite !Z.add_0_r. }
  assert (1 <= k) by (subst k; cbn [length]; lia). fold k in Hb.
  replace (0 <? k) with true by (symmetry; apply Z.ltb_lt; lia).
  destruct (AddFieldGap_full 4 offset (offset + 4) []) as (gaps' & Eg & Ht & Hfl & Hin);
    try done; try lia; try zdiv; try constructor.
  set (l1 := mkLayout (offset + 4) gaps' (fields l) (current_field l) (num_reference_fields l)).
  assert (align_offset 8 l = Some l1) as Eal.
  { unfold align_offset. rewrite (ex_offset _ _ _ _ Hex).
    destruct (IsAligned 8 offset) eqn:Ea; [apply IsAligned_iff in Ea; [done|unfold width; lia]|].
    simpl. rewrite RoundUp_up by (unfold width; lia).
    assert (up 8 offset = offset + 4) as -> by (unfold up; zdiv).
    rewrite (gaps_empty 4 l offset), Eg by (done || lia). done. }
  assert (exact 4 4 (offset + 4) l1) as Hex1.
  { split; simpl; try done; [apply Hex|simpl in Ht; lia|].
    intros g Hg. destruct (Hin g Hg) as [?%elem_of_nil|?]; [done|lia]. }
  destruct (ShuffleForward_8_end (i :: qa) qb l1 4 (offset + 4)) as (l' & E & Hex'); try done;
    try (subst k; lia); [zdiv|].
  exists l'. split; [|done]. rewrite <- E, <- !app_comm_cons.
  destruct Hf as [Hqa _]. inversion Hqa as [|? ? [Hti Hsi] _]; subst.
  rewrite !ShuffleForward_cons by (done || apply Hex || apply Hex1). rewrite Eal.
  rewrite (align_offset_aligned 8 l1); [done|unfold width; lia|simpl; zdiv].
Qed.

(** References one after the other, at an aligned start. *)
Lemma place_references_exact num refs rest l offset :
  Forall (fun i => type_of fs0 i = kPrimNot) refs ->
  (forall i q, rest = i :: q -> type_of fs0 i <> kPrimNot) ->
  current_field l + Z.of_nat (length (refs ++ rest)) = num ->
  exact 4 0 offset l -> 0 <= offset -> offset mod 4 = 0 ->
  offset + 4 * Z.of_nat (length refs) < 2 ^ 32 ->
  exists l', place_references num (refs ++ rest) l = Some (rest, l') /\
    exact 4 0 (offset + 4 * Z.of_nat (length refs)) l'.
Proof.
  intros Hr Hrest. revert l offset. induction Hr as [|i refs Hi _ IH]; intros l offset Hc Hex H0 Ha Hb.
  { exists l. simpl. rewrite Z.add_0_r. split; [|done]. destruct rest as [|i q]; [done|]. simpl in *.
    replace (current_field l <? num) with true by (symmetry; apply Z.ltb_lt; lia).
    fold (type_of (fields l) i). rewrite (exact_type 4 0 offset) by done.
    rewrite decide_True; [done|]. by eapply Hrest. }
  simpl in Hc |- *. replace (current_field l <? num) with true by (symmetry; apply Z.ltb_lt; lia).
  fold (type_of (fields l) i). rewrite (exact_type 4 0 offset) by done.
  rewrite decide_False by (intros H; by apply H).
  rewrite align_offset_aligned; [|unfold width, sizeof_HeapReference; lia|
    by rewrite (ex_offset _ _ _ _ Hex)]. simpl.
  destruct (IH (place_reference i l) (offset + 4)) as (l' & E & Hex'); try (simpl in *; lia).
  { destruct Hex as [Hid Hg Ht Ho Hl]. split; simpl; try done.
    - by rewrite SetOffset_identity.
    - rewrite Ho. apply wrap_u_id. unfold in_u, sizeof_HeapReference. simpl in Hb. lia.
    - intros g Hin. specialize (Hl g Hin). lia. }
  { zdiv. }
  exists l'. split; [done|]. by replace (offset + 4 * Z.of_nat (S (length refs)))
    with (offset + 4 + 4 * Z.of_nat (length refs)) by lia.
Qed.

End Passes.

(** ** The size of a layout *)

(** Where a layout of [r] references and primitive fields of each size ends. *)
Definition layout_size (start r n64 n32 n16 n8 : Z) : Z :=
  let o := start + 4 * r in
  let g := padding_8 n64 o in
  let t4 := g / 4 in
  let t2 := 2 * Z.max 0 (t4 - n32) in
  let t1 := 2 * Z.max 0 (t2 - n16) in
  o + g + 8 * n64 + 4 * Z.max 0 (n32 - t4) + 2 * Z.max 0 (n16 - t2) + Z.max 0 (n8 - t1).

(** The groups of the order: references, then by falling size. *)
Definition group (type : Primitive) : Z :=
  match type with
  | kPrimNot => 0
  | kPrimLong | kPrimDouble => 1
  | kPrimInt | kPrimFloat => 2
  | kPrimChar | kPrimShort => 3
  | kPrimBoolean | kPrimByte => 4
  | kPrimVoid => 5
  end.
Definition group_count (c : Z) (fs : list ArtField) : Z :=
  Z.of_nat (length (filter (fun f => group (GetTypeAsPrimitiveType f) = c) fs)).

Section Groups.
Context {A : Type} (key : A -> Z).

Lemma split_front c (l : list A) :
  StronglySorted (fun x y => key x <= key y) l -> Forall (fun x => c <= key x) l ->
  exists a b, l = a ++ b /\ Forall (fun x => key x = c) a /\ Forall (fun x => c + 1 <= key x) b /\
    StronglySorted (fun x y => key x <= key y) b.
Proof.
  induction 1 as [|x l Hs IH Hx]; intros Hc.
  { exists [], []. split_and!; done || constructor. }
  inversion Hc as [|? ? Hcx Hcl]; subst. destruct (Z.eq_dec (key x) c) as [E|E].
  - destruct (IH Hcl) as (a & b & -> & Ha & Hb & Hsb). exists (x :: a), b.
    split_and!; try done. by constructor.
  - exists [], (x :: l). split_and!; [done|constructor| |by constructor].
    constructor; [lia|]. eapply List.Forall_impl, Hx. simpl. intros. lia.
Qed.

Lemma count_group c d (a : list A) :
  Forall (fun x => key x = d) a ->
  length (filter (fun x => key x = c) a) = if decide (c = d) then length a else 0%nat.
Proof.
  induction 1 as [|x a Hx _ IH]; [by case_decide|].
  destruct (decide (key x = c)) as [E|E].
  - rewrite filter_cons_True by done. simpl. rewrite IH. rewrite !decide_True by congruence. done.
  - rewrite filter_cons_False by done. rewrite IH. rewrite !decide_False by congruence. done.
Qed.
End Groups.

Lemma group_rank t t' : rank t <= rank t' -> group t <= group t'.
Proof. destruct t, t'; simpl; lia. Qed.

(** The queue of the linker, group by group. *)
Lemma grouped_split fs :
  typed_fields fs ->
  exists q0 q1 q2 q3 q4, grouped_and_sorted_fields fs = q0 ++ q1 ++ q2 ++ q3 ++ q4 /\
    Forall (fun i => group (type_of fs i) = 0) q0 /\ Forall (fun i => group (type_of fs i) = 1) q1 /\
    Forall (fun i => group (type_of fs i) = 2) q2 /\ Forall (fun i => group (type_of fs i) = 3) q3 /\
    Forall (fun i => group (type_of fs i) = 4) q4.
Proof.
  intros Ht. set (key := fun i => group (type_of fs i)).
  assert (StronglySorted (fun i j => key i <= key j) (grouped_and_sorted_fields fs)) as Hs.
  { eapply StronglySorted_impl_in, grouped_sorted. intros i j _ Hij. apply group_rank.
    apply in_order_rank in Hij. lia. }
  assert (Forall (fun i => 0 <= key i <= 4) (grouped_and_sorted_fields fs)) as Hk.
  { rewrite grouped_perm. apply List.Forall_forall. intros i Hi. apply in_seq in Hi.
    destruct (lookup_lt_is_Some_2 fs i) as [f Hf]; [lia|].
    pose proof (Forall_lookup_1 _ _ _ _ Ht Hf) as Hv. simpl in Hv. unfold key, type_of.
    rewrite (list_lookup_total_correct _ _ _ Hf). destruct (GetTypeAsPrimitiveType f); simpl; lia || done. }
  assert (Forall (fun i => 0 <= key i) (grouped_and_sorted_fields fs)) as H0
    by (eapply List.Forall_impl, Hk; simpl; lia).
  destruct (split_front key 0 _ Hs H0) as (q0 & b0 & E0 & G0 & H1 & S1).
  destruct (split_front key 1 _ S1 H1) as (q1 & b1 & E1 & G1 & H2 & S2).
  destruct (split_front key 2 _ S2 H2) as (q2 & b2 & E2 & G2 & H3 & S3).
  destruct (split_front key 3 _ S3 H3) as (q3 & b3 & E3 & G3 & H4 & S4).
  subst. exists q0, q1, q2, q3, b3. split_and!; try done.
  rewrite E0, !List.Forall_app in Hk. destruct Hk as (_ & _ & _ & _ & Hk).
  apply List.Forall_forall. intros i Hi. rewrite List.Forall_forall in Hk, H4.
  specialize (Hk i Hi). specialize (H4 i Hi). fold (key i). simpl in *. lia.
Qed.

Lemma group_count_grouped c fs :
  group_count c fs =
  Z.of_nat (length (filter (fun i => group (type_of fs i) = c) (grouped_and_sorted_fields fs))).
Proof.
  unfold group_count. f_equal. rewrite grouped_perm. rewrite <- (seq_map_At fs) at 1.
  rewrite (filter_map_comm _ _ (fun i => group (type_of fs i) = c)) by done. by rewrite length_map.
Qed.

Lemma group_sizes fs i :
  (group (type_of fs i) = 1 -> type_of fs i <> kPrimNot /\ size_of fs i = 8) /\
  (group (type_of fs i) = 2 -> type_of fs i <> kPrimNot /\ size_of fs i = 4) /\
  (group (type_of fs i) = 3 -> type_of fs i <> kPrimNot /\ size_of fs i = 2) /\
  (group (type_of fs i) = 4 -> type_of fs i <> kPrimNot /\ size_of fs i = 1).
Proof. unfold size_of. destruct (type_of fs i); simpl; split_and!; intros; done. Qed.

Lemma Forall_group fs c q (P : nat -> Prop) :
  Forall (fun i => group (type_of fs i) = c) q -> (forall i, group (type_of fs i) = c -> P i) ->
  Forall P q.
Proof. intros Hq HP. eapply List.Forall_impl, Hq. auto. Qed.

(** The groups as the passes need them. *)
Lemma groups_front fs q1 q2 q3 q4 :
  Forall (fun i => group (type_of fs i) = 1) q1 -> Forall (fun i => group (type_of fs i) = 2) q2 ->
  Forall (fun i => group (type_of fs i) = 3) q3 -> Forall (fun i => group (type_of fs i) = 4) q4 ->
  front fs 8 q1 (q2 ++ q3 ++ q4) /\ front fs 4 q2 (q3 ++ q4) /\ front fs 2 q3 q4 /\ front fs 1 q4 [].
Proof.
  intros G1 G2 G3 G4.
  assert (forall c n q, Forall (fun i => group (type_of fs i) = c) q ->
    (forall i, group (type_of fs i) = c -> type_of fs i <> kPrimNot /\ size_of fs i = n) ->
    Forall (fun i => type_of fs i <> kPrimNot /\ size_of fs i = n) q /\
    forall m, n < m -> Forall (fun i => size_of fs i < m) q) as H.
  { intros c n q Hq Hn. split; [by eapply Forall_group|]. intros m Hm.
    eapply Forall_group; [exact Hq|]. intros i Hi. destruct (Hn i Hi) as [_ ->]. done. }
  destruct (H 1 8 q1 G1) as [P1 _]; [apply group_sizes|].
  destruct (H 2 4 q2 G2) as [P2 L2]; [apply group_sizes|].
  destruct (H 3 2 q3 G3) as [P3 L3]; [apply group_sizes|].
  destruct (H 4 1 q4 G4) as [P4 L4]; [apply group_sizes|].
  unfold front. rewrite !List.Forall_app. split_and!; try done;
    (apply L2 || apply L3 || apply L4); lia.
Qed.

Local Notation len q := (Z.of_nat (length q)).

Lemma layout_groups_size start fs q0 q1 q2 q3 q4 :
  0 <= start -> start mod 4 = 0 ->
  grouped_and_sorted_fields fs = q0 ++ q1 ++ q2 ++ q3 ++ q4 ->
  Forall (fun i => group (type_of fs i) = 0) q0 -> Forall (fun i => group (type_of fs i) = 1) q1 ->
  Forall (fun i => group (type_of fs i) = 2) q2 -> Forall (fun i => group (type_of fs i) = 3) q3 ->
  Forall (fun i => group (type_of fs i) = 4) q4 ->
  start + 4 * len q0 + 4 + 8 * len q1 + 4 * len q2 + 2 * len q3 + len q4 < 2 ^ 32 ->
  exists l, layout_fields start fs = Some l /\
    field_offset l = layout_size start (len q0) (len q1) (len q2) (len q3) (len q4).
Proof.
  intros Hs Ha E G0 G1 G2 G3 G4 Hb.
  destruct (groups_front fs q1 q2 q3 q4 G1 G2 G3 G4) as (F1 & F2 & F3 & F4).
  set (l0 := mkLayout start [] fs 0 0).
  assert (exact fs 4 0 start l0) as X0.
  { split; try done. by intros g ?%elem_of_nil. }
  destruct (place_references_exact fs (Z.of_nat (length fs)) q0 (q1 ++ q2 ++ q3 ++ q4) l0 start)
    as (l1 & E1 & X1); try done; try lia.
  { eapply Forall_group; [exact G0|]. intros i. by destruct (type_of fs i). }
  { intros i q Eq. assert (Forall (fun i => type_of fs i <> kPrimNot) (q1 ++ q2 ++ q3 ++ q4)) as Hp.
    { rewrite !List.Forall_app. split_and!;
        (eapply List.Forall_impl; [|exact (proj1 F1) || exact (proj1 F2) || exact (proj1 F3) || exact (proj1 F4)]);
        simpl; tauto. }
    rewrite Eq in Hp. by inversion Hp. }
  { simpl. rewrite <- E, grouped_perm, length_seq. done. }
  set (o := start + 4 * len q0) in *.
  assert (0 <= o /\ o mod 4 = 0) as [Ho0 Ho4] by (subst o; zdiv).
  destruct (ShuffleForward_8_exact fs q1 (q2 ++ q3 ++ q4) l1 o) as (l2 & E2 & X2); try done;
    try lia.
  set (g := padding_8 (len q1) o) in *.
  assert (0 <= g <= 4 /\ g = 4 * (g / 4) /\ (o + g + 8 * len q1) mod 4 = 0) as (Hg & Hg4 & Hgm).
  { subst g. unfold padding_8. case_if; zdiv. }
  rewrite Hg4 in X2 at 1.
  destruct (ShuffleForward_exact fs 4 q2 (q3 ++ q4) l2 (g / 4) (o + g + 8 * len q1))
    as (l3 & E3 & X3); try done; try lia; try zdiv.
  apply (exact_weaken _ 4 2) in X3; [|lia].
  set (t2 := 2 * Z.max 0 (g / 4 - len q2)).
  replace (4 * Z.max 0 (g / 4 - len q2)) with (2 * t2) in X3 by lia.
  destruct (ShuffleForward_exact fs 2 q3 q4 l3 t2 (o + g + 8 * len q1 + 4 * Z.max 0 (len q2 - g / 4)))
    as (l4 & E4 & X4); try done; try lia; try zdiv.
  apply (exact_weaken _ 2 1) in X4; [|lia].
  set (t1 := 2 * Z.max 0 (t2 - len q3)) in *. rewrite <- (Z.mul_1_l t1) in X4.
  destruct (ShuffleForward_exact fs 1 q4 [] l4 t1
    (o + g + 8 * len q1 + 4 * Z.max 0 (len q2 - g / 4) + 2 * Z.max 0 (len q3 - t2)))
    as (l5 & E5 & X5); try done; try lia; try zdiv.
  exists l5. unfold layout_fields. rewrite E. fold l0. rewrite E1. simpl. rewrite E2. simpl.
  rewrite E3. simpl. rewrite E4. simpl. rewrite app_nil_r in E5. rewrite E5. simpl.
  split; [done|]. rewrite (ex_offset _ _ _ _ _ X5). unfold layout_size. fold o g t2 t1. simpl. lia.
Qed.

Lemma layout_fields_size start fs :
  0 <= start -> start mod 4 = 0 -> typed_fields fs ->
  let r := group_count 0 fs in let n64 := group_count 1 fs in let n32 := group_count 2 fs in
  let n16 := group_count 3 fs in let n8 := group_count 4 fs in
  start + 4 * r + 4 + 8 * n64 + 4 * n32 + 2 * n16 + n8 < 2 ^ 32 ->
  exists l, layout_fields start fs = Some l /\
    field_offset l = layout_size start r n64 n32 n16 n8.
Proof.
  intros Hs Ha Ht r n64 n32 n16 n8 Hb.
  destruct (grouped_split fs Ht) as (q0 & q1 & q2 & q3 & q4 & E & G0 & G1 & G2 & G3 & G4).
  assert (r = Z.of_nat (length q0) /\ n64 = Z.of_nat (length q1) /\ n32 = Z.of_nat (length q2) /\
          n16 = Z.of_nat (length q3) /\ n8 = Z.of_nat (length q4)) as (Er & E64 & E32 & E16 & E8).
  { subst r n64 n32 n16 n8. rewrite !group_count_grouped, E, !list.filter_app, !length_app.
    rewrite !(count_group _ _ 0 q0), !(count_group _ _ 1 q1), !(count_group _ _ 2 q2),
      !(count_group _ _ 3 q3), !(count_group _ _ 4 q4) by done. simpl. lia. }
  rewrite Er, E64, E32, E16, E8 in *. by eapply layout_groups_size.
Qed.

(** ** [ComputeClassSize] *)

Lemma shuffle_count_spec fuel size t num :
  0 < size -> 0 <= t <= Z.of_nat fuel -> size * t < 2 ^ 32 -> 0 <= num < 2 ^ 32 ->
  shuffle_count fuel size (size * t) num = (size * Z.max 0 (t - num), Z.max 0 (num - t)).
Proof.
  intros Hs. revert t num. induction fuel as [|fuel IH]; intros t num Ht Hb Hn.
  { simpl in *. assert (t = 0) as -> by lia. f_equal; lia. }
  cbn [shuffle_count]. destruct (num =? 0) eqn:En; bools.
  { subst. rewrite andb_false_r. f_equal; lia. }
  destruct (size <=? size * t) eqn:Et; bools; cbn [negb andb].
  - assert (1 <= t) by nia. rewrite !wrap_u_id by (unfold in_u; nia).
    replace (size * t - size) with (size * (t - 1)) by lia. rewrite IH by nia. f_equal; lia.
  - assert (t = 0) as -> by nia. f_equal; lia.
Qed.

Lemma ComputeClassSize_layout pointer_size n8 n16 n32 n64 r :
  0 <= n8 -> 0 <= n16 -> 0 <= n32 -> 0 <= n64 -> 0 <= r ->
  sizeof_Class + 4 * r + 4 + 8 * n64 + 4 * n32 + 2 * n16 + n8 < 2 ^ 32 ->
  ComputeClassSize false 0 n8 n16 n32 n64 r pointer_size =
  layout_size sizeof_Class r n64 n32 n16 n8.
Proof.
  change sizeof_Class with 120. intros H8 H16 H32 H64 Hr Hb.
  unfold ComputeClassSize, layout_size. cbv beta iota zeta. change sizeof_Class with 120.
  unfold sizeof_HeapReference. rewrite (Z.mul_comm r 4), (wrap_u_id 32 (120 + 4 * r)) by (unfold in_u; lia).
  set (o := 120 + 4 * r) in *. unfold padding_8.
  assert (IsAligned 8 o = (o mod 8 =? 0)) as ->.
  { apply eq_iff_eq_true. rewrite IsAligned_iff, Z.eqb_eq by (unfold width; lia). done. }
  rewrite andb_comm. destruct (_ && _) eqn:E; bools.
  - assert (o &&& 7 = 4) as -> by (change 7 with (2 ^ 3 - 1); rewrite land_ones_mod by lia;
      change (2 ^ 3) with 8; subst o; zdiv).
    change (8 - 4) with (4 * 1). rewrite (wrap_u_id 32 (o + _)) by (unfold in_u; lia).
    rewrite shuffle_count_spec by lia. change (4 / 4) with 1.
    replace (4 * Z.max 0 (1 - n32)) with (2 * (2 * Z.max 0 (1 - n32))) by lia.
    rewrite shuffle_count_spec by lia. set (t2 := 2 * Z.max 0 (1 - n32)).
    replace (2 * Z.max 0 (t2 - n16)) with (1 * (2 * Z.max 0 (t2 - n16))) by lia.
    rewrite shuffle_count_spec by lia. rewrite wrap_u_id by (unfold in_u; lia). lia.
  - change (0 / 4) with 0. rewrite wrap_u_id by (unfold in_u; lia). lia.
Qed.

(** ** Counting the fields of a definition *)

(** A descriptor that [SizeOfClassWithoutEmbeddedTables] knows. *)
Definition countable (f : ArtField) : Prop := count_field f (mkCounts 0 0 0 0 0) <> None.

Definition add_group (g : Z) (c : FieldCounts) : FieldCounts :=
  if g =? 0 then mkCounts (num_ref c + 1) (num_8 c) (num_16 c) (num_32 c) (num_64 c)
  else if g =? 1 then mkCounts (num_ref c) (num_8 c) (num_16 c) (num_32 c) (num_64 c + 1)
  else if g =? 2 then mkCounts (num_ref c) (num_8 c) (num_16 c) (num_32 c + 1) (num_64 c)
  else if g =? 3 then mkCounts (num_ref c) (num_8 c) (num_16 c + 1) (num_32 c) (num_64 c)
  else mkCounts (num_ref c) (num_8 c + 1) (num_16 c) (num_32 c) (num_64 c).

Lemma count_field_group f c :
  countable f ->
  count_field f c = Some (add_group (group (GetTypeAsPrimitiveType f)) c) /\
  GetTypeAsPrimitiveType f <> kPrimVoid.
Proof.
  unfold countable, count_field, GetTypeAsPrimitiveType.
  destruct (GetTypeDescriptor f) as [|[b0 b1 b2 b3 b4 b5 b6 b7] s]; [done|].
  destruct b0, b1, b2, b3, b4, b5, b6, b7; simpl; intros H; done || by destruct H.
Qed.

Definition count_all (fs : list ArtField) (c : FieldCounts) : FieldCounts :=
  fold_left (fun c f => add_group (group (GetTypeAsPrimitiveType f)) c) fs c.

(** Counting skips what loading skips. *)
Lemma count_fields_loaded loaded last fs c :
  (0 < loaded)%nat -> Forall countable fs ->
  Sorted (fun f g => field_dex_idx_ f <= field_dex_idx_ g) fs ->
  (forall f rest, fs = f :: rest -> last <= field_dex_idx_ f) ->
  count_fields last fs c = Some (count_all (load_fields loaded last fs) c).
Proof.
  intros Hl Hc. revert loaded last c Hl. induction Hc as [|f fs Hf Hc IH]; intros loaded last c Hl Hs Hb;
    [done|]. simpl. inversion Hs as [|? ? Hs' Hh]; subst. specialize (Hb f fs eq_refl).
  replace (loaded =? 0)%nat with false by (symmetry; apply Nat.eqb_neq; lia). simpl.
  destruct (field_dex_idx_ f =? last) eqn:E; bools.
  - replace (last <? field_dex_idx_ f) with false by (symmetry; apply Z.ltb_ge; lia).
    apply IH; try done. intros g rest ->. inversion Hh; subst. lia.
  - replace (last <? field_dex_idx_ f) with true by (symmetry; apply Z.ltb_lt; lia).
    destruct (count_field_group f c Hf) as [-> _]. simpl. apply IH; try done; [lia|].
    intros g rest ->. by inversion Hh.
Qed.

Lemma count_fields_LoadFields fs c :
  Forall countable fs -> Sorted (fun f g => field_dex_idx_ f <= field_dex_idx_ g) fs ->
  Forall (fun f => field_dex_idx_ f <> kDexNoIndex) fs ->
  count_fields kDexNoIndex fs c = Some (count_all (LoadFields fs) c).
Proof.
  intros Hc Hs Hn. destruct fs as [|f fs]; [done|].
  inversion Hc; subst. inversion Hs as [|? ? Hs' Hh]; subst. inversion Hn as [|? ? Hf _]; subst.
  unfold LoadFields. simpl. replace (field_dex_idx_ f =? kDexNoIndex) with false by (symmetry; by apply Z.eqb_neq).
  destruct (count_field_group f c) as [-> _]; [done|]. simpl.
  apply count_fields_loaded; try done; [lia|]. intros g rest ->. by inversion Hh.
Qed.

Lemma group_count_cons g f fs :
  group_count g (f :: fs) =
  (if group (GetTypeAsPrimitiveType f) =? g then 1 else 0) + group_count g fs.
Proof.
  unfold group_count. destruct (_ =? _) eqn:E; bools.
  - rewrite filter_cons_True by done. cbn [length]. lia.
  - rewrite filter_cons_False by done. lia.
Qed.

Lemma count_all_groups fs c :
  typed_fields fs ->
  count_all fs c =
  mkCounts (num_ref c + group_count 0 fs) (num_8 c + group_count 4 fs) (num_16 c + group_count 3 fs)
    (num_32 c + group_count 2 fs) (num_64 c + group_count 1 fs).
Proof.
  intros Ht. revert c. induction Ht as [|f fs Hf _ IH]; intros c.
  { destruct c. unfold group_count. simpl. f_equal; lia. }
  simpl. rewrite IH, !group_count_cons.
  destruct (GetTypeAsPrimitiveType f); try done; simpl; f_equal; lia.
Qed.

Lemma bytes_groups fs :
  typed_fields fs ->
  bytes fs = 4 * group_count 0 fs + 8 * group_count 1 fs + 4 * group_count 2 fs
             + 2 * group_count 3 fs + group_count 4 fs.
Proof.
  induction 1 as [|f fs Hf _ IH]; [done|]. simpl. rewrite IH, !group_count_cons.
  destruct (GetTypeAsPrimitiveType f); try done; simpl; unfold kObjectReferenceSize; lia.
Qed.

Lemma group_count_nonneg g fs : 0 <= group_count g fs.
Proof. unfold group_count. lia. Qed.

(** C15. The size of class objects.  The size computed from a class definition
    before the class is linked, when it is allocated, is the one at which the
    linking of its static fields ends, for a class that has no embedded tables.
    So the check of [LinkClass] holds, repeated fields in the definition
    notwithstanding. *)
Theorem class_size_agrees dbg pointer_size k supers raw :
  loaded_statics pointer_size k -> ShouldHaveEmbeddedVTable k = false ->
  sfields_ k = LoadFields raw -> Forall countable raw ->
  Sorted (fun f g => field_dex_idx_ f <= field_dex_idx_ g) raw ->
  Forall (fun f => field_dex_idx_ f <> kDexNoIndex) raw ->
  exists k' class_size, LinkStaticFields dbg pointer_size k supers = Some (k', class_size) /\
    SizeOfClassWithoutEmbeddedTables pointer_size raw = Some class_size.
Proof.
  intros Hl Hv Hf Hc Hs Hn.
  pose proof (LinkStaticFields_spec dbg pointer_size k supers Hl) as (fs' & size & _ & E).
  exists (set_static_fields fs' (len (filter is_ref (sfields_ k))) k), size. split; [done|].
  destruct Hl as [[Ht _ _] _ Hps Hvt Hfit].
  unfold SizeOfClassWithoutEmbeddedTables. rewrite count_fields_LoadFields by done. simpl.
  rewrite <- Hf, count_all_groups by done. simpl.
  pose proof (group_count_nonneg 0 (sfields_ k)). pose proof (group_count_nonneg 1 (sfields_ k)).
  pose proof (group_count_nonneg 2 (sfields_ k)). pose proof (group_count_nonneg 3 (sfields_ k)).
  pose proof (group_count_nonneg 4 (sfields_ k)). pose proof (bytes_groups _ Ht) as Hb.
  assert (0 <= vtable_length k * pointer_size) by (apply Z.mul_nonneg_nonneg; lia).
  rewrite ComputeClassSize_layout by (done || change sizeof_Class with 120; lia).
  destruct (layout_fields_size sizeof_Class (sfields_ k)) as (l & El & Esz); try done;
    [change sizeof_Class with 120; lia|].
  unfold LinkStaticFields, LinkFields in E. simpl in E.
  unfold GetFirstReferenceStaticFieldOffsetDuringLinking in E. rewrite Hv, El in E. simpl in E.
  destruct (dcheck _ _); [|done]. simpl in E. injection E as _ _ <-. by rewrite Esz.
Qed.

(** An abstract class with a repeated field in its definition. *)
Definition sample_statics : list ArtField :=
  [mkField 3 "LA;" "a" 0; mkField 3 "LA;" "a" 0; mkField 4 "J" "b" 0; mkField 7 "S" "c" 0;
   mkField 9 "Z" "d" 0].
Definition sample_abstract : LinkedClass :=
  mkLinked "LA;" false false false 11 [] (LoadFields sample_statics) 0 0 0 0 0.

Lemma class_size_agrees_witness :
  SizeOfClassWithoutEmbeddedTables 8 sample_statics = Some 136 /\
  exists k' class_size, LinkStaticFields true 8 sample_abstract [] = Some (k', class_size) /\
    SizeOfClassWithoutEmbeddedTables 8 sample_statics = Some class_size.
Proof.
  split; [vm_compute; reflexivity|].
  apply (class_size_agrees true 8 sample_abstract [] sample_statics); try reflexivity.
  - split; [split; by repeat constructor|done|by right|done|done].
  - by repeat constructor.
  - by repeat constructor.
  - by repeat constructor.
Defined.
