(* ===== verification/Transaction.v ===== *)
(** * Transactions of the compiler ([runtime/transaction.h], [transaction.cc])

    While class initializers run at compile time every write to the heap is
    logged, so that it can be undone.  The heap maps addresses to objects.  A
    field is a cell of a type with its bits, an array has the bits of its
    elements; the accessors convert to and from the bits.  The elements of an
    object array are fields, as in the code.  [None] is a failed check, an
    access of another width than the cell's, or behaviour the language does not
    define.  The transaction's log of interned strings is in [InternTable]. *)
From stdpp Require Import gmap sorting.
From Stdlib Require Import SpecFloat.
From S2P Require Import Prelude MirrorClass.

(** ** Objects *)

Record Cell := mkCell { cell_type : Primitive; cell_bits : Z }.

(** [array_type] is the component type of an array. *)
Record TObject := mkObject { array_type : option Primitive; fields : gmap Z Cell; elements : list Z }.

Definition ClassOffset : Z := 0.
Definition LengthOffset : Z := 8.

Inductive FieldValueKind := kBoolean | kByte | kChar | kShort | k32Bits | k64Bits | kReference.
#[export] Instance FieldValueKind_eq_dec : EqDecision FieldValueKind.
Proof. solve_decision. Defined.

Definition width (type : Primitive) : Z := 8 * ComponentSize type.
Definition kind_width (k : FieldValueKind) : Z :=
  match k with kBoolean | kByte => 8 | kChar | kShort => 16 | k32Bits | kReference => 32 | k64Bits => 64 end.

(** The accessors used for a field of a type. *)
Definition kind_of (type : Primitive) : option FieldValueKind :=
  match type with
  | kPrimBoolean => Some kBoolean
  | kPrimByte => Some kByte
  | kPrimChar => Some kChar
  | kPrimShort => Some kShort
  | kPrimInt | kPrimFloat => Some k32Bits
  | kPrimLong | kPrimDouble => Some k64Bits
  | kPrimNot => Some kReference
  | kPrimVoid => None
  end.

(** [GetFieldBoolean], [GetFieldByte], ...: the value the bits have. *)
Definition GetField (k : FieldValueKind) (bits : Z) : Z :=
  match k with
  | kBoolean => u8 bits
  | kByte => s8 bits
  | kChar => u16 bits
  | kShort => s16 bits
  | k32Bits => s32 bits
  | k64Bits => s64 bits
  | kReference => u32 bits
  end.

(** [PrimitiveArray<T>::GetWithoutChecks]; of a [float] or [double], the bits. *)
Definition GetWithoutChecks (type : Primitive) (bits : Z) : Z :=
  match type with
  | kPrimBoolean => u8 bits
  | kPrimByte => s8 bits
  | kPrimChar => u16 bits
  | kPrimShort => s16 bits
  | kPrimInt => s32 bits
  | kPrimLong => s64 bits
  | _ => bits
  end.

(** ** Conversions between floating point numbers and [uint64_t]

    [mw] and [ew] are the widths of mantissa and exponent. *)
Definition exponent_bias (ew : Z) : Z := 2 ^ (ew - 1) - 1.
Definition float_of_uint64 (mw ew : Z) (v : Z) : spec_float := binary_normalize (mw + 1) (2 ^ (ew - 1)) v 0 false.
Definition bits_of_float (mw ew : Z) (x : spec_float) : Z :=
  match x with
  | S754_zero _ => 0
  | S754_infinity _ => (2 ^ ew - 1) * 2 ^ mw
  | S754_nan => (2 ^ ew - 1) * 2 ^ mw + 2 ^ (mw - 1)
  | S754_finite _ m e => (e + exponent_bias ew + mw) * 2 ^ mw + (Zpos m - 2 ^ mw)
  end.
(** [static_cast<float>(value)] and [static_cast<double>(value)], their bits. *)
Definition uint64_to_float (v : Z) : Z := bits_of_float 23 8 (float_of_uint64 23 8 v).
Definition uint64_to_double (v : Z) : Z := bits_of_float 52 11 (float_of_uint64 52 11 v).

(** The conversion to [uint64_t] truncates, and is undefined for numbers it
    cannot represent. *)
Definition float_to_uint64 (mw ew : Z) (bits : Z) : option Z :=
  let bits := bits mod 2 ^ (1 + ew + mw) in
  let sign := bits / 2 ^ (ew + mw) in
  let e := (bits / 2 ^ mw) mod 2 ^ ew in
  let m := bits mod 2 ^ mw in
  if e =? 2 ^ ew - 1 then None
  else
    let magnitude := if e =? 0 then 0 else (2 ^ mw + m) << (e - exponent_bias ew - mw) in
    if ((sign =? 1) && negb (magnitude =? 0)) || (2 ^ 64 <=? magnitude) then None else Some magnitude.

(** [RecordWriteArray(this, i, GetWithoutChecks(i))]: the argument as [uint64_t] *)
Definition recorded_element (type : Primitive) (v : Z) : option Z :=
  match type with
  | kPrimFloat => float_to_uint64 23 8 v
  | kPrimDouble => float_to_uint64 52 11 v
  | _ => Some (u64 v)
  end.

(** ** Logs *)

Record FieldValue := mkFieldValue { value : Z; kind : FieldValueKind; is_volatile : bool }.
Notation ObjectLog := (gmap Z FieldValue).
Notation ArrayLog := (gmap Z Z).

(** The parameter type of [RecordWriteField...]. *)
Definition record_parameter (k : FieldValueKind) (v : Z) : Z :=
  match k with
  | kBoolean => u8 v
  | kByte => s8 v
  | kChar => u16 v
  | kShort => s16 v
  | k32Bits => u32 v
  | k64Bits | kReference => u64 v
  end.

(** The first value of a field is kept. *)
Definition ObjectLog_LogValue (k : FieldValueKind) (offset v : Z) (volatile : bool) (log : ObjectLog) : ObjectLog :=
  match log !! offset with
  | None => <[offset := mkFieldValue (u64 v) k volatile]> log
  | Some _ => log
  end.
Definition ArrayLog_LogValue (index v : Z) (log : ArrayLog) : ArrayLog :=
  match log !! index with
  | None => <[index := v]> log
  | Some _ => log
  end.

(** [DexCachePair]: the string and the index of a slot *)
Record StringDexCachePair := mkPair { object : option Z; index : Z }.
Definition kDexCacheStringCacheSize : Z := 1024.
Definition StringSlotIndex (string_idx : Z) : Z := string_idx mod kDexCacheStringCacheSize.
Definition InvalidIndexForSlot (slot : Z) : Z := if slot =? 0 then 1 else 0.
Definition GetObjectForIndex (pair : StringDexCachePair) (idx : Z) : option Z :=
  if negb (idx =? index pair) then None else object pair.

(** The heap, the strings of the dex caches and the transaction, if one is active. *)
Record Transaction := mkTransaction {
  object_logs_ : gmap Z ObjectLog;
  array_logs_ : gmap Z ArrayLog;
  resolve_string_logs_ : list (Z * Z);
  aborted_ : bool;
  abort_message_ : list Z
}.
Record World := mkWorld {
  heap : gmap Z TObject;
  dex_caches : gmap Z (gmap Z StringDexCachePair);
  transaction : option Transaction
}.

Definition new_transaction : Transaction := mkTransaction ∅ ∅ [] false [].

(** The first message is kept. *)
Definition Abort (message : list Z) (t : Transaction) : Transaction :=
  if negb (aborted_ t)
  then mkTransaction (object_logs_ t) (array_logs_ t) (resolve_string_logs_ t) true message
  else t.

(** ** Recording *)

(** [object_logs_[obj]] makes an empty log. *)
Definition RecordWriteField (k : FieldValueKind) (obj offset v : Z) (volatile : bool) (t : Transaction) : Transaction :=
  let object_log := default ∅ (object_logs_ t !! obj) in
  mkTransaction (<[obj := ObjectLog_LogValue k offset (record_parameter k v) volatile object_log]> (object_logs_ t)) (array_logs_ t)
    (resolve_string_logs_ t) (aborted_ t) (abort_message_ t).
Definition RecordWriteArray (array i v : Z) (t : Transaction) : Transaction :=
  let log := default ∅ (array_logs_ t !! array) in
  mkTransaction (object_logs_ t) (<[array := ArrayLog_LogValue i v log]> (array_logs_ t)) (resolve_string_logs_ t)
    (aborted_ t) (abort_message_ t).
Definition RecordResolveString (dex_cache string_idx : Z) (t : Transaction) : Transaction :=
  mkTransaction (object_logs_ t) (array_logs_ t) (resolve_string_logs_ t ++ [(dex_cache, string_idx)])
    (aborted_ t) (abort_message_ t).

Definition with_heap (h : gmap Z TObject) (w : World) : World := mkWorld h (dex_caches w) (transaction w).
Definition record (f : Transaction -> Transaction) (w : World) : World :=
  mkWorld (heap w) (dex_caches w) (f <$> transaction w).

Definition get_cell (w : World) (obj offset : Z) : option Cell := o ← heap w !! obj; fields o !! offset.
Definition put_field (n : Z) (obj offset v : Z) (w : World) : option World :=
  o ← heap w !! obj;
  c ← fields o !! offset;
  if negb (width (cell_type c) =? n) then None
  else Some (with_heap (<[obj := mkObject (array_type o) (<[offset := mkCell (cell_type c) (wrap_u n v)]> (fields o))
                                   (elements o)]> (heap w)) w).
Definition put_element (n : Z) (array i v : Z) (w : World) : option World :=
  o ← heap w !! array;
  type ← array_type o;
  if bool_decide (type ∈ [kPrimNot; kPrimVoid]) || negb (width type =? n) || negb ((0 <=? i) && (i <? Z.of_nat (length (elements o)))) then None
  else Some (with_heap (<[array := mkObject (array_type o) (fields o) (<[Z.to_nat i := wrap_u n v]> (elements o))]> (heap w)) w).

(** ** Writes *)

(** What the setters record: [SetFieldShort] a [char], [SetFieldObject] a
    volatile reference. *)
Definition setter_kind (k : FieldValueKind) : FieldValueKind := match k with kShort => kChar | _ => k end.
Definition setter_volatile (k : FieldValueKind) (volatile : bool) : bool :=
  match k with kReference => true | _ => volatile end.

(** [SetField...<kTransactionActive>], used for a field of its type: the old value
    is recorded, then the new one written. *)
Definition SetField (k : FieldValueKind) (volatile : bool) (obj offset new_value : Z) (w : World) : option World :=
  c ← get_cell w obj offset;
  if negb (bool_decide (kind_of (cell_type c) = Some k)) then None
  else put_field (kind_width k) obj offset new_value
         (record (RecordWriteField (setter_kind k) obj offset (GetField k (cell_bits c)) (setter_volatile k volatile)) w).

(** [CasField...32], [...64] and [...Object]: the value expected is what is
    recorded.  A weak one may fail spuriously. *)
Definition CasField (k : FieldValueKind) (spurious : bool) (obj offset old_value new_value : Z) (w : World)
  : option (World * bool) :=
  c ← get_cell w obj offset;
  if negb (bool_decide (kind_of (cell_type c) = Some k) && bool_decide (k ∈ [k32Bits; k64Bits; kReference])) then None
  else
    let w := record (RecordWriteField k obj offset old_value true) w in
    if negb spurious && (cell_bits c =? wrap_u (kind_width k) old_value) then
      w ← put_field (kind_width k) obj offset new_value w;
      Some (w, true)
    else Some (w, false).

(** [PrimitiveArray<T>::SetWithoutChecks] of an array taken for one of [type]s. *)
Definition SetWithoutChecks (type : Primitive) (array i new_value : Z) (w : World) : option World :=
  o ← heap w !! array;
  old ← elements o !! Z.to_nat i;
  w ← (if transaction w
       then recorded ← recorded_element type (GetWithoutChecks type old);
            Some (record (RecordWriteArray array i recorded) w)
       else Some w);
  put_element (width type) array i new_value w.

(** [FillArrayData] copies the payload; it throws where the array is null or too
    short for the count taken as [int32_t].  Copying past the end is undefined. *)
Definition FillArrayData (array element_width : Z) (data : list Z) (w : World) : option (World * bool) :=
  if array =? 0 then Some (w, false) else
  o ← heap w !! array;
  type ← array_type o;
  if bool_decide (type ∈ [kPrimNot; kPrimVoid]) then None
  else if Z.of_nat (length (elements o)) <? s32 (Z.of_nat (length data)) then Some (w, false)
  else if negb (ComponentSize type =? element_width) || (Z.of_nat (length (elements o)) <? Z.of_nat (length data)) then None
  else Some (with_heap (<[array := mkObject (array_type o) (fields o)
                                     ((wrap_u (width type) <$> data) ++ drop (length data) (elements o))]> (heap w)) w,
             true).

(** The elements from [i] on, [count] of them. *)
Fixpoint record_elements (type : Primitive) (array i : Z) (bits : list Z) (count : nat) (w : World) : option World :=
  match count, bits with
  | O, _ => Some w
  | S _, [] => None
  | S count, b :: bits =>
      recorded ← recorded_element type (GetWithoutChecks type b);
      record_elements type array (i + 1) bits count (record (RecordWriteArray array i recorded) w)
  end.
Definition RecordArrayElementsInTransaction (array : Z) (count : nat) (w : World) : option World :=
  o ← heap w !! array;
  type ← array_type o;
  match type with
  | kPrimNot | kPrimVoid => None
  | _ => record_elements type array 0 (elements o) count w
  end.

(** The instruction [FILL_ARRAY_DATA]: the elements are recorded after the copy. *)
Definition FILL_ARRAY_DATA (array element_width : Z) (data : list Z) (w : World) : option (World * bool) :=
  '(w, success) ← FillArrayData array element_width data w;
  if negb success then Some (w, false)
  else
    w ← (if transaction w then RecordArrayElementsInTransaction array (length data) w else Some w);
    Some (w, true).

Definition put_string (dex_cache slot : Z) (pair : StringDexCachePair) (w : World) : option World :=
  cache ← dex_caches w !! dex_cache;
  Some (mkWorld (heap w) (<[dex_cache := <[slot := pair]> cache]> (dex_caches w)) (transaction w)).
Definition GetResolvedString (dex_cache string_idx : Z) (w : World) : option (option Z) :=
  cache ← dex_caches w !! dex_cache;
  pair ← cache !! StringSlotIndex string_idx;
  Some (GetObjectForIndex pair string_idx).
Definition SetResolvedString (dex_cache string_idx resolved : Z) (w : World) : option World :=
  w ← put_string dex_cache (StringSlotIndex string_idx) (mkPair (Some resolved) string_idx) w;
  Some (record (RecordResolveString dex_cache string_idx) w).
Definition ClearString (dex_cache string_idx : Z) (w : World) : option World :=
  let slot_idx := StringSlotIndex string_idx in
  cache ← dex_caches w !! dex_cache;
  pair ← cache !! slot_idx;
  if index pair =? string_idx then put_string dex_cache slot_idx (mkPair None (InvalidIndexForSlot slot_idx)) w
  else Some w.

(** ** Undoing *)

Definition bool_value (v : Z) : Z := if v =? 0 then 0 else 1.
Definition UndoFieldWrite (obj offset : Z) (log : FieldValue) (w : World) : option World :=
  let v := value log in
  match kind log with
  | kBoolean => put_field 8 obj offset (bool_value v) w
  | kByte => put_field 8 obj offset (s8 v) w
  | kChar => put_field 16 obj offset (u16 v) w
  | kShort => put_field 16 obj offset (s16 v) w
  | k32Bits => put_field 32 obj offset (s32 (u32 v)) w
  | k64Bits => put_field 64 obj offset (s64 v) w
  | kReference => put_field 32 obj offset v w
  end.

Definition IsArrayInstance (o : TObject) : bool := match array_type o with Some _ => true | None => false end.

(** The class and the length of an array stay. *)
Definition ObjectLog_undo_step (obj offset : Z) (log : FieldValue) (w : option World) : option World :=
  w ← w;
  o ← heap w !! obj;
  if offset =? ClassOffset then Some w
  else if IsArrayInstance o && (offset =? LengthOffset) then Some w
  else UndoFieldWrite obj offset log w.
Definition ObjectLog_Undo (obj : Z) (log : ObjectLog) (w : World) : option World :=
  map_fold (ObjectLog_undo_step obj) (Some w) log.

Definition UndoArrayWrite (array : Z) (type : Primitive) (i v : Z) (w : World) : option World :=
  match type with
  | kPrimBoolean => put_element 8 array i (u8 v) w
  | kPrimByte => put_element 8 array i (s8 v) w
  | kPrimChar => put_element 16 array i (u16 v) w
  | kPrimShort => put_element 16 array i (s16 v) w
  | kPrimInt => put_element 32 array i (s32 v) w
  | kPrimFloat => put_element 32 array i (uint64_to_float v) w
  | kPrimLong => put_element 64 array i (s64 v) w
  | kPrimDouble => put_element 64 array i (uint64_to_double v) w
  | kPrimNot | kPrimVoid => None
  end.
Definition ArrayLog_Undo (array : Z) (log : ArrayLog) (w : World) : option World :=
  o ← heap w !! array;
  type ← array_type o;
  map_fold (fun i v w => w ← w; UndoArrayWrite array type i v w) (Some w) log.

Definition UndoObjectModifications (t : Transaction) (w : World) : option World :=
  map_fold (fun obj log w => w ← w; ObjectLog_Undo obj log w) (Some w) (object_logs_ t).
Definition UndoArrayModifications (t : Transaction) (w : World) : option World :=
  map_fold (fun array log w => w ← w; ArrayLog_Undo array log w) (Some w) (array_logs_ t).
Fixpoint UndoResolveStringModifications (logs : list (Z * Z)) (w : World) : option World :=
  match logs with
  | [] => Some w
  | (dex_cache, string_idx) :: logs => w ← ClearString dex_cache string_idx w; UndoResolveStringModifications logs w
  end.

Definition EnterTransactionMode (t : Transaction) (w : World) : option World :=
  match transaction w with
  | Some _ => None
  | None => Some (mkWorld (heap w) (dex_caches w) (Some t))
  end.
Definition ExitTransactionMode (w : World) : option (Transaction * World) :=
  t ← transaction w;
  Some (t, mkWorld (heap w) (dex_caches w) None).

(** [CHECK(!IsActiveTransaction())]; the logs are empty afterwards. *)
Definition Rollback (t : Transaction) (w : World) : option (Transaction * World) :=
  match transaction w with
  | Some _ => None
  | None =>
      w ← UndoObjectModifications t w;
      w ← UndoArrayModifications t w;
      w ← UndoResolveStringModifications (resolve_string_logs_ t) w;
      Some (mkTransaction ∅ ∅ [] (aborted_ t) (abort_message_ t), w)
  end.

(** ** Collections *)

Definition visit_field_value (visitor : Z -> Z) (log : FieldValue) : FieldValue :=
  match kind log with
  | kReference => if value log =? 0 then log else mkFieldValue (visitor (value log)) kReference (is_volatile log)
  | _ => log
  end.
(** The roots that moved, in the order of [std::map]. *)
Definition moving_roots {L} (visitor : Z -> Z) (logs : gmap Z L) : list (Z * Z) :=
  (fun root => (root, visitor root)) <$>
  filter (fun root => visitor root ≠ root) (merge_sort Z.le (fst <$> map_to_list logs)).
(** A log goes to the new address of its object, where there must be none yet. *)
Fixpoint move_logs {L} (moving : list (Z * Z)) (logs : gmap Z L) : option (gmap Z L) :=
  match moving with
  | [] => Some logs
  | (old_root, new_root) :: moving =>
      log ← logs !! old_root;
      match logs !! new_root with
      | Some _ => None
      | None => move_logs moving (delete old_root (<[new_root := log]> logs))
      end
  end.
Definition VisitObjectLogs (visitor : Z -> Z) (logs : gmap Z ObjectLog) : option (gmap Z ObjectLog) :=
  let logs := (fun log : ObjectLog => visit_field_value visitor <$> log) <$> logs in
  move_logs (moving_roots visitor logs) logs.
(** No log is of an object array of [h], the heap before the collection. *)
Definition VisitArrayLogs (h : gmap Z TObject) (visitor : Z -> Z) (logs : gmap Z ArrayLog) : option (gmap Z ArrayLog) :=
  if forallb (fun root => match h !! root with
                          | Some o => negb (bool_decide (array_type o = Some kPrimNot))
                          | None => false
                          end) (fst <$> map_to_list logs)
  then move_logs (moving_roots visitor logs) logs
  else None.
Definition Transaction_VisitRoots (h : gmap Z TObject) (visitor : Z -> Z) (t : Transaction) : option Transaction :=
  object_logs ← VisitObjectLogs visitor (object_logs_ t);
  array_logs ← VisitArrayLogs h visitor (array_logs_ t);
  Some (mkTransaction object_logs array_logs
          ((fun '(dex_cache, string_idx) => (visitor dex_cache, string_idx)) <$> resolve_string_logs_ t)
          (aborted_ t) (abort_message_ t)).
