(* ===== verification/TransactionFacts.v ===== *)
(** * Facts on transactions

    What undoing the logs does to an object, as functions on the object, and when
    it succeeds. *)
From stdpp Require Import gmap.
From S2P Require Import Prelude MirrorClass Transaction.

(** ** Undoing the writes to one object *)

Definition undo_value (log : FieldValue) : Z :=
  match kind log with
  | kBoolean => bool_value (value log)
  | kByte => s8 (value log)
  | kChar => u16 (value log)
  | kShort => s16 (value log)
  | k32Bits => s32 (u32 (value log))
  | k64Bits => s64 (value log)
  | kReference => value log
  end.
Definition undo_bits (log : FieldValue) : Z := wrap_u (kind_width (kind log)) (undo_value log).

Lemma UndoFieldWrite_put obj offset log w :
  UndoFieldWrite obj offset log w = put_field (kind_width (kind log)) obj offset (undo_value log) w.
Proof. unfold UndoFieldWrite, undo_value. by destruct (kind log). Qed.

(** The class, and the length of an array. *)
Definition skipped (o : TObject) (offset : Z) : bool :=
  (offset =? ClassOffset) || (IsArrayInstance o && (offset =? LengthOffset)).

Definition undo_cell (o : TObject) (log : ObjectLog) (offset : Z) (c : Cell) : Cell :=
  match log !! offset with
  | Some fv => if skipped o offset then c else mkCell (cell_type c) (undo_bits fv)
  | None => c
  end.
Definition undo_object (log : ObjectLog) (o : TObject) : TObject :=
  mkObject (array_type o) (map_imap (fun offset c => Some (undo_cell o log offset c)) (fields o)) (elements o).

Definition log_fits (o : TObject) (log : ObjectLog) : Prop :=
  forall offset fv, log !! offset = Some fv ->
  exists c, fields o !! offset = Some c /\ width (cell_type c) = kind_width (kind fv).

Lemma undo_object_lookup log o offset :
  fields (undo_object log o) !! offset = undo_cell o log offset <$> fields o !! offset.
Proof. cbn. rewrite map_lookup_imap. by destruct (fields o !! offset). Qed.

Lemma object_eq o o' :
  array_type o = array_type o' -> elements o = elements o' ->
  (forall offset, fields o !! offset = fields o' !! offset) -> o = o'.
Proof. destruct o, o'; cbn. intros -> -> H. f_equal. by apply map_eq. Qed.

Lemma undo_object_empty o : undo_object ∅ o = o.
Proof.
  apply object_eq; try done. intros offset. rewrite undo_object_lookup.
  unfold undo_cell. rewrite lookup_empty. by destruct (fields o !! offset).
Qed.

Lemma undo_object_insert_skipped log o offset fv :
  log !! offset = None -> skipped o offset = true -> undo_object (<[offset := fv]> log) o = undo_object log o.
Proof.
  intros Hn Hs. apply object_eq; try done. intros x. rewrite !undo_object_lookup.
  destruct (fields o !! x); [|done]. cbn. f_equal. unfold undo_cell.
  destruct (decide (offset = x)) as [->|Hx].
  - by rewrite lookup_insert_eq, Hn, Hs.
  - by rewrite lookup_insert_ne.
Qed.

Lemma undo_object_insert log o offset fv c :
  log !! offset = None -> skipped o offset = false -> fields o !! offset = Some c ->
  undo_object (<[offset := fv]> log) o =
  mkObject (array_type o) (<[offset := mkCell (cell_type c) (undo_bits fv)]> (fields (undo_object log o))) (elements o).
Proof.
  intros Hn Hs Hc. apply object_eq; try done. intros x. rewrite undo_object_lookup. cbn [fields].
  destruct (decide (offset = x)) as [->|Hx].
  - rewrite Hc, lookup_insert_eq. cbn. unfold undo_cell. by rewrite lookup_insert_eq, Hs.
  - rewrite lookup_insert_ne by done. rewrite undo_object_lookup. unfold undo_cell.
    by rewrite lookup_insert_ne.
Qed.

Lemma log_fits_insert o log offset fv :
  log !! offset = None -> log_fits o (<[offset := fv]> log) ->
  (exists c, fields o !! offset = Some c /\ width (cell_type c) = kind_width (kind fv)) /\ log_fits o log.
Proof.
  intros Hn H. split.
  - apply (H offset fv). by rewrite lookup_insert_eq.
  - intros x fv' Hx. apply (H x fv'). rewrite lookup_insert_ne; [done|]. intros ->. congruence.
Qed.

Lemma skipped_undo log o offset : skipped (undo_object log o) offset = skipped o offset.
Proof. done. Qed.

Lemma undo_step_spec obj offset fv log w o :
  heap w !! obj = Some o -> log !! offset = None -> log_fits o (<[offset := fv]> log) ->
  ObjectLog_undo_step obj offset fv (Some (with_heap (<[obj := undo_object log o]> (heap w)) w)) =
  Some (with_heap (<[obj := undo_object (<[offset := fv]> log) o]> (heap w)) w).
Proof.
  intros Ho Hn Hf. destruct (log_fits_insert _ _ _ _ Hn Hf) as [(c & Hc & Hw) _].
  unfold ObjectLog_undo_step. cbn [mbind option_bind heap with_heap]. rewrite lookup_insert_eq.
  cbn [mbind option_bind].
  destruct (skipped o offset) eqn:Hs.
  - rewrite undo_object_insert_skipped by done. revert Hs. unfold skipped.
    destruct (offset =? ClassOffset); [done|]. cbn [orb]. change (IsArrayInstance (undo_object log o)) with (IsArrayInstance o).
    by intros ->.
  - rewrite (undo_object_insert _ _ _ _ c) by done. revert Hs. unfold skipped.
    destruct (offset =? ClassOffset); [done|]. cbn [orb]. change (IsArrayInstance (undo_object log o)) with (IsArrayInstance o).
    intros ->. rewrite UndoFieldWrite_put. unfold put_field. cbn [heap with_heap]. rewrite lookup_insert_eq.
    cbn [mbind option_bind]. rewrite undo_object_lookup, Hc. cbn [fmap option_fmap option_map mbind option_bind].
    unfold undo_cell. rewrite Hn, Hw, Z.eqb_refl. cbn [negb]. cbv iota.
    unfold with_heap. cbn [heap dex_caches transaction]. by rewrite insert_insert_eq.
Qed.

Lemma ObjectLog_Undo_spec obj log w o :
  heap w !! obj = Some o -> log_fits o log ->
  ObjectLog_Undo obj log w = Some (with_heap (<[obj := undo_object log o]> (heap w)) w).
Proof.
  intros Ho. unfold ObjectLog_Undo.
  apply (map_fold_weak_ind (fun r m => log_fits o m -> r = Some (with_heap (<[obj := undo_object m o]> (heap w)) w))).
  - intros _. rewrite undo_object_empty, insert_id by done. by destruct w.
  - intros offset fv m r Hn IH Hf. rewrite IH by apply (log_fits_insert _ _ _ _ Hn Hf).
    by apply undo_step_spec.
Qed.

(** ** Undoing the writes to one array *)

Definition undo_element (type : Primitive) (v : Z) : Z :=
  match type with
  | kPrimFloat => wrap_u 32 (uint64_to_float v)
  | kPrimDouble => wrap_u 64 (uint64_to_double v)
  | _ => wrap_u (width type) v
  end.
Definition undo_elements (type : Primitive) (log : ArrayLog) (els : list Z) : list Z :=
  imap (fun i b => match log !! Z.of_nat i with Some v => undo_element type v | None => b end) els.
Definition undo_array (type : Primitive) (log : ArrayLog) (o : TObject) : TObject :=
  mkObject (array_type o) (fields o) (undo_elements type log (elements o)).

Definition array_fits (o : TObject) (log : ArrayLog) : Prop :=
  exists type, array_type o = Some type /\ type ≠ kPrimNot /\ type ≠ kPrimVoid /\
  forall i v, log !! i = Some v -> 0 <= i < Z.of_nat (length (elements o)).

Lemma not_elem_of_pair {A} (x a b : A) : x ≠ a -> x ≠ b -> x ∉ [a; b].
Proof. rewrite !elem_of_cons, elem_of_nil. tauto. Qed.

Lemma UndoArrayWrite_put array type i v w :
  type ≠ kPrimNot -> type ≠ kPrimVoid ->
  exists x, UndoArrayWrite array type i v w = put_element (width type) array i x w /\
  wrap_u (width type) x = undo_element type v.
Proof.
  intros Hn Hv. destruct type; try done; cbn [UndoArrayWrite undo_element]; eexists; (split; [reflexivity|]); try done;
    rewrite ?wrap_u_wrap_s, ?wrap_u_wrap_u; done.
Qed.

Lemma undo_elements_length type log els : length (undo_elements type log els) = length els.
Proof. apply length_imap. Qed.

Lemma undo_elements_lookup type log els i :
  undo_elements type log els !! i =
  (fun b => match log !! Z.of_nat i with Some v => undo_element type v | None => b end) <$> els !! i.
Proof. unfold undo_elements. by rewrite list_lookup_imap. Qed.

Lemma undo_elements_empty type els : undo_elements type ∅ els = els.
Proof.
  apply list_eq. intros i. rewrite undo_elements_lookup. destruct (els !! i); [|done]. cbn. by rewrite lookup_empty.
Qed.

Lemma undo_elements_insert type log els i v :
  log !! i = None -> 0 <= i < Z.of_nat (length els) ->
  undo_elements type (<[i := v]> log) els = <[Z.to_nat i := undo_element type v]> (undo_elements type log els).
Proof.
  intros Hn Hi. apply list_eq. intros x. rewrite undo_elements_lookup.
  destruct (decide (Z.to_nat i = x)) as [<-|Hx].
  - rewrite list_lookup_insert_eq by (rewrite undo_elements_length; lia).
    destruct (lookup_lt_is_Some_2 els (Z.to_nat i)) as [b Hb]; [lia|]. rewrite Hb. cbn.
    rewrite Z2Nat.id by lia. by rewrite lookup_insert_eq.
  - rewrite list_lookup_insert_ne by done. rewrite undo_elements_lookup.
    destruct (els !! x); [|done]. cbn. by rewrite lookup_insert_ne by lia.
Qed.

Lemma array_fits_insert o log i v :
  log !! i = None -> array_fits o (<[i := v]> log) -> array_fits o log.
Proof.
  intros Hn (type & Ht & H1 & H2 & H). exists type. split_and!; try done.
  intros x y Hx. apply (H x y). rewrite lookup_insert_ne; [done|]. intros ->. congruence.
Qed.

Lemma undo_array_step array type i v log w o :
  heap w !! array = Some o -> array_type o = Some type -> log !! i = None -> array_fits o (<[i := v]> log) ->
  UndoArrayWrite array type i v (with_heap (<[array := undo_array type log o]> (heap w)) w) =
  Some (with_heap (<[array := undo_array type (<[i := v]> log) o]> (heap w)) w).
Proof.
  intros Ho Ht Hn (type' & Ht' & H1 & H2 & H). simplify_eq.
  assert (Hi : 0 <= i < Z.of_nat (length (elements o))) by (apply (H i v); by rewrite lookup_insert_eq).
  destruct (UndoArrayWrite_put array type i v (with_heap (<[array := undo_array type log o]> (heap w)) w)) as (x & -> & Hx); try done.
  unfold put_element. cbn [heap with_heap]. rewrite lookup_insert_eq. cbn [mbind option_bind array_type undo_array].
  rewrite Ht. cbn [mbind option_bind]. rewrite bool_decide_eq_false_2 by (by apply not_elem_of_pair). rewrite Z.eqb_refl.
  cbn [elements undo_array]. rewrite undo_elements_length.
  rewrite (proj2 (Z.leb_le 0 i)), (proj2 (Z.ltb_lt i _)) by lia. cbn [negb andb orb]. cbv iota.
  unfold with_heap. cbn [heap dex_caches transaction fields]. rewrite insert_insert_eq, Hx.
  unfold undo_array. by rewrite Ht, undo_elements_insert.
Qed.

Lemma ArrayLog_Undo_spec array log w o type :
  heap w !! array = Some o -> array_type o = Some type -> array_fits o log ->
  ArrayLog_Undo array log w = Some (with_heap (<[array := undo_array type log o]> (heap w)) w).
Proof.
  intros Ho Ht. unfold ArrayLog_Undo. rewrite Ho. cbn [mbind option_bind]. rewrite Ht. cbn [mbind option_bind].
  apply (map_fold_weak_ind (fun r m => array_fits o m -> r = Some (with_heap (<[array := undo_array type m o]> (heap w)) w))).
  - intros _. unfold undo_array. rewrite undo_elements_empty, insert_id by (rewrite Ho; by destruct o). by destruct w.
  - intros i v m r Hn IH Hf. rewrite IH by apply (array_fits_insert _ _ _ _ Hn Hf). cbn [mbind option_bind].
    by apply undo_array_step.
Qed.

(** ** Undoing all logs *)

(** One object after its log in [logs]. *)
Definition undone (logs : gmap Z ObjectLog) (obj : Z) (o : TObject) : TObject := undo_object (default ∅ (logs !! obj)) o.
Definition array_undone (logs : gmap Z ArrayLog) (array : Z) (o : TObject) : TObject :=
  match array_type o with
  | Some type => undo_array type (default ∅ (logs !! array)) o
  | None => o
  end.
Definition objects_fit (h : gmap Z TObject) (logs : gmap Z ObjectLog) : Prop :=
  forall obj log, logs !! obj = Some log -> exists o, h !! obj = Some o /\ log_fits o log.
Definition arrays_fit (h : gmap Z TObject) (logs : gmap Z ArrayLog) : Prop :=
  forall array log, logs !! array = Some log -> exists o, h !! array = Some o /\ array_fits o log.

Lemma undone_empty obj o : undone ∅ obj o = o.
Proof. unfold undone. rewrite lookup_empty. apply undo_object_empty. Qed.
Lemma array_undone_empty array o : array_undone ∅ array o = o.
Proof.
  unfold array_undone. rewrite lookup_empty. destruct (array_type o) eqn:E; [|done]. unfold undo_array. cbn.
  rewrite undo_elements_empty. by destruct o.
Qed.

(** Folding an undo that changes one object over a map of logs. *)
Section folds.
Context {L : Type} (undo : Z -> L -> World -> option World) (image : gmap Z L -> Z -> TObject -> TObject)
  (fits : TObject -> L -> Prop).
Hypothesis image_empty : forall obj o, image ∅ obj o = o.
Hypothesis image_ne : forall (m : gmap Z L) i l obj o, i ≠ obj -> image (<[i := l]> m) obj o = image m obj o.
Hypothesis image_fresh : forall (m : gmap Z L) obj o, m !! obj = None -> image m obj o = o.
Hypothesis undo_spec : forall (m : gmap Z L) obj l w o, heap w !! obj = Some o -> fits o l ->
  undo obj l w = Some (with_heap (<[obj := image (<[obj := l]> m) obj o]> (heap w)) w).

Lemma undo_all (logs : gmap Z L) w :
  (forall obj l, logs !! obj = Some l -> exists o, heap w !! obj = Some o /\ fits o l) ->
  exists w', map_fold (fun obj l w => w ← w; undo obj l w) (Some w) logs = Some w' /\
  dex_caches w' = dex_caches w /\ transaction w' = transaction w /\
  (forall obj, heap w' !! obj = image logs obj <$> heap w !! obj).
Proof.
  apply (map_fold_weak_ind (fun r m => (forall obj l, m !! obj = Some l -> exists o, heap w !! obj = Some o /\ fits o l) ->
    exists w', r = Some w' /\ dex_caches w' = dex_caches w /\ transaction w' = transaction w /\
    forall obj, heap w' !! obj = image m obj <$> heap w !! obj)).
  - intros _. exists w. split_and!; try done. intros obj. destruct (heap w !! obj); [|done]. cbn. by rewrite image_empty.
  - intros i l m r Hn IH Hf.
    destruct IH as (w1 & -> & Hd & Ht & Hh).
    { intros obj l' Hl. apply (Hf obj l'). rewrite lookup_insert_ne; [done|]. intros ->. congruence. }
    destruct (Hf i l) as (o & Ho & Hfit); [by rewrite lookup_insert_eq|].
    assert (Ho1 : heap w1 !! i = Some o) by (rewrite Hh, Ho; cbn; by rewrite image_fresh).
    cbn [mbind option_bind]. rewrite (undo_spec m i l w1 o) by done.
    eexists. split_and!; try done. intros obj. cbn [heap with_heap].
    destruct (decide (i = obj)) as [<-|Hne].
    + by rewrite lookup_insert_eq, Ho.
    + rewrite lookup_insert_ne, Hh by done. destruct (heap w !! obj); [|done]. cbn. by rewrite image_ne.
Qed.
End folds.

Lemma UndoObjectModifications_spec t w :
  objects_fit (heap w) (object_logs_ t) ->
  exists w', UndoObjectModifications t w = Some w' /\ dex_caches w' = dex_caches w /\ transaction w' = transaction w /\
  forall obj, heap w' !! obj = undone (object_logs_ t) obj <$> heap w !! obj.
Proof.
  apply (undo_all ObjectLog_Undo undone log_fits); unfold undone.
  - apply undone_empty.
  - intros. by rewrite lookup_insert_ne.
  - intros m obj o ->. apply undo_object_empty.
  - intros. rewrite lookup_insert_eq. by apply ObjectLog_Undo_spec.
Qed.

Lemma UndoArrayModifications_spec t w :
  arrays_fit (heap w) (array_logs_ t) ->
  exists w', UndoArrayModifications t w = Some w' /\ dex_caches w' = dex_caches w /\ transaction w' = transaction w /\
  forall obj, heap w' !! obj = array_undone (array_logs_ t) obj <$> heap w !! obj.
Proof.
  apply (undo_all ArrayLog_Undo array_undone array_fits).
  - apply array_undone_empty.
  - intros. unfold array_undone. by rewrite lookup_insert_ne.
  - intros m obj o Hm. rewrite <- (array_undone_empty obj o) at 2. unfold array_undone. by rewrite Hm, lookup_empty.
  - intros m obj l w0 o Ho Hf. destruct Hf as (type & Ht & H). unfold array_undone. rewrite Ht, lookup_insert_eq.
    apply ArrayLog_Undo_spec; try done. by exists type.
Qed.

(** ** Undoing the resolution of strings *)

(** The slot of the string exists. *)
Definition has_slot (w : World) (dex_cache string_idx : Z) : Prop := is_Some (GetResolvedString dex_cache string_idx w).

Lemma GetResolvedString_put dex_cache slot pair w w' d i :
  put_string dex_cache slot pair w = Some w' -> is_Some (GetResolvedString d i w) ->
  GetResolvedString d i w' =
  if decide (d = dex_cache /\ StringSlotIndex i = slot) then Some (GetObjectForIndex pair i) else GetResolvedString d i w.
Proof.
  unfold put_string, GetResolvedString. intros Hp [r Hr].
  destruct (dex_caches w !! dex_cache) as [cache|] eqn:Hc; cbn [mbind option_bind] in Hp; [|done].
  injection Hp as <-. cbn [dex_caches].
  destruct (decide (d = dex_cache)) as [->|Hd].
  - rewrite lookup_insert_eq. cbn [mbind option_bind]. rewrite Hc. cbn [mbind option_bind].
    destruct (decide (StringSlotIndex i = slot)) as [<-|Hs].
    + rewrite lookup_insert_eq, decide_True by done. done.
    + rewrite lookup_insert_ne by done. rewrite decide_False by tauto. done.
  - rewrite lookup_insert_ne by done. rewrite decide_False by tauto. done.
Qed.

Lemma put_string_heap dex_cache slot pair w w' :
  put_string dex_cache slot pair w = Some w' -> heap w' = heap w /\ transaction w' = transaction w.
Proof. unfold put_string. destruct (dex_caches w !! dex_cache); [|done]. by intros [= <-]. Qed.

Lemma ClearString_spec dex_cache string_idx w :
  has_slot w dex_cache string_idx ->
  exists w', ClearString dex_cache string_idx w = Some w' /\ heap w' = heap w /\ transaction w' = transaction w /\
  GetResolvedString dex_cache string_idx w' = Some None /\
  (forall d i, has_slot w d i -> has_slot w' d i) /\
  (forall d i, GetResolvedString d i w = Some None -> GetResolvedString d i w' = Some None).
Proof.
  intros Hs. pose proof Hs as [r Hr]. unfold ClearString. unfold GetResolvedString in Hr.
  destruct (dex_caches w !! dex_cache) as [cache|] eqn:Hc; cbn [mbind option_bind] in Hr |- *; [|done].
  destruct (cache !! StringSlotIndex string_idx) as [pair|] eqn:Hp; cbn [mbind option_bind] in Hr |- *; [|done].
  destruct (index pair =? string_idx) eqn:Hi.
  - destruct (put_string dex_cache (StringSlotIndex string_idx)
      (mkPair None (InvalidIndexForSlot (StringSlotIndex string_idx))) w) as [w'|] eqn:Hput.
    2:{ unfold put_string in Hput. by rewrite Hc in Hput. }
    exists w'. destruct (put_string_heap _ _ _ _ _ Hput) as [Hh Ht].
    assert (Hnull : forall j x, GetObjectForIndex (mkPair None x) j = None)
      by (intros; unfold GetObjectForIndex; cbn; by destruct (negb _)).
    pose proof (fun d i H => GetResolvedString_put _ _ _ _ _ d i Hput H) as Hget.
    split_and!; try done.
    + rewrite Hget by done. rewrite decide_True by done. by rewrite Hnull.
    + intros d i H. unfold has_slot. rewrite Hget by done. destruct (decide _); [by eexists|done].
    + intros d i H. rewrite Hget by (by rewrite H). destruct (decide _); [by rewrite Hnull|done].
  - exists w. split_and!; try done. unfold GetResolvedString. rewrite Hc. cbn [mbind option_bind]. rewrite Hp.
    cbn [mbind option_bind]. unfold GetObjectForIndex. by rewrite Z.eqb_sym, Hi.
Qed.

Lemma UndoResolveStringModifications_spec logs : forall w,
  (forall d i, (d, i) ∈ logs -> has_slot w d i) ->
  exists w', UndoResolveStringModifications logs w = Some w' /\ heap w' = heap w /\ transaction w' = transaction w /\
  (forall d i, (d, i) ∈ logs -> GetResolvedString d i w' = Some None) /\
  (forall d i, GetResolvedString d i w = Some None -> GetResolvedString d i w' = Some None).
Proof.
  induction logs as [|[d i] logs IH]; intros w Hs; cbn [UndoResolveStringModifications].
  - exists w. split_and!; try done. intros d i H. by apply elem_of_nil in H.
  - destruct (ClearString_spec d i w) as (w1 & -> & Hh & Ht & Hn & Hk & Hz); [apply Hs; by left|].
    cbn [mbind option_bind]. destruct (IH w1) as (w2 & -> & Hh2 & Ht2 & Hn2 & Hz2).
    { intros d' i' H. apply Hk, Hs. by right. }
    exists w2. split_and!; try congruence; auto.
    intros d' i' H. apply elem_of_cons in H as [[= -> ->]|H]; auto.
Qed.
