(* ===== verification/TransactionSpec.v ===== *)
(** * What rolling back a transaction restores

    The writes of a class initializer as a sequence of operations; the invariant
    that undoing the logs now gives the heap the transaction started with; and the
    writes for which it does not. *)
From stdpp Require Import gmap sorting.
From S2P Require Import Prelude MirrorClass Transaction TransactionFacts.

(** ** Operations *)

Inductive Op :=
| OSetField (k : FieldValueKind) (volatile : bool) (obj offset v : Z)
| OCasField (k : FieldValueKind) (spurious : bool) (obj offset old new : Z)
| OSetElement (type : Primitive) (array i v : Z)
| OFillArrayData (array element_width : Z) (data : list Z)
| OResolveString (dex_cache string_idx s : Z)
| OAllocate (obj : Z) (o : TObject)
| OAbort (message : list Z).

Definition exec (op : Op) (w : World) : option World :=
  match op with
  | OSetField k volatile obj offset v => SetField k volatile obj offset v w
  | OCasField k spurious obj offset old new => fst <$> CasField k spurious obj offset old new w
  | OSetElement type array i v => SetWithoutChecks type array i v w
  | OFillArrayData array element_width data => fst <$> FILL_ARRAY_DATA array element_width data w
  | OResolveString d i s => SetResolvedString d i s w
  | OAllocate obj o => match heap w !! obj with Some _ => None | None => Some (with_heap (<[obj := o]> (heap w)) w) end
  | OAbort message => Some (record (Abort message) w)
  end.

Definition is_floating (type : Primitive) : bool := bool_decide (type ∈ [kPrimFloat; kPrimDouble]).

(** The operations whose writes the logs can undo, for the objects of the heap
    [h0] at the start: a compare-and-swap finds the value it expects or the field
    is logged already, an array written by element is not of floating point
    numbers, and an array filled from data is new. *)
Definition undoable (h0 : gmap Z TObject) (op : Op) (w : World) : bool :=
  match op with
  | OCasField k _ obj offset old _ =>
      match h0 !! obj, get_cell w obj offset, transaction w with
      | Some _, Some c, Some t =>
          (cell_bits c =? wrap_u (kind_width k) old)
          || match object_logs_ t !! obj with
             | Some log => match log !! offset with Some _ => true | None => false end
             | None => false
             end
      | _, _, _ => true
      end
  | OSetElement type array _ _ =>
      match h0 !! array with
      | Some o0 => match array_type o0 with
                   | Some type0 => negb (is_floating type0) && negb (is_floating type)
                   | None => true
                   end
      | None => true
      end
  | OFillArrayData array _ _ => match h0 !! array with Some _ => false | None => true end
  | _ => true
  end.

Fixpoint run (h0 : gmap Z TObject) (ops : list Op) (w : World) : option World :=
  match ops with
  | [] => Some w
  | op :: ops => if undoable h0 op w then w ← exec op w; run h0 ops w else None
  end.

(** Bits fit their cells, booleans are 0 or 1. *)
Definition cell_wf (c : Cell) : Prop :=
  in_u (width (cell_type c)) (cell_bits c) /\ (cell_type c = kPrimBoolean -> cell_bits c = 0 \/ cell_bits c = 1).
Definition object_wf (o : TObject) : Prop :=
  (forall offset c, fields o !! offset = Some c -> cell_wf c) /\
  (forall type, array_type o = Some type -> forall i b, elements o !! i = Some b -> in_u (width type) b).
Definition heap_wf (h : gmap Z TObject) : Prop := forall obj o, h !! obj = Some o -> object_wf o.

(** ** Values survive the log *)

Lemma wrap_u_narrow w w' z : 0 <= w <= w' -> wrap_u w (wrap_u w' z) = wrap_u w z.
Proof.
  intros H. unfold wrap_u. symmetry. rewrite <- Znumtheory.Zmod_div_mod; try done; try (apply Z.pow_pos_nonneg; lia).
  exists (2 ^ (w' - w)). rewrite <- Z.pow_add_r by lia. f_equal. lia.
Qed.

Lemma setter_logs_bits k volatile b :
  in_u (kind_width k) b -> (k = kBoolean -> b = 0 \/ b = 1) ->
  undo_bits (mkFieldValue (u64 (record_parameter (setter_kind k) (GetField k b))) (setter_kind k) volatile) = b.
Proof.
  intros Hb Hk. unfold undo_bits. destruct k; cbn in Hb |- *;
    rewrite ?wrap_u_wrap_s, ?wrap_u_narrow, ?wrap_u_wrap_s, ?wrap_u_wrap_u, ?wrap_u_wrap_s by lia;
    try (by apply wrap_u_id).
  by destruct (Hk eq_refl) as [-> | ->].
Qed.

Lemma cas_logs_expected k old :
  k ∈ [k32Bits; k64Bits; kReference] ->
  undo_bits (mkFieldValue (u64 (record_parameter k old)) k true) = wrap_u (kind_width k) old.
Proof.
  intros Hk. unfold undo_bits. destruct k; try (exfalso; revert Hk; rewrite !elem_of_cons, elem_of_nil; intuition done);
    cbn; rewrite ?wrap_u_wrap_s, ?wrap_u_narrow, ?wrap_u_wrap_u, ?wrap_u_narrow by lia; done.
Qed.

Lemma element_log_bits type type0 b :
  is_floating type = false -> is_floating type0 = false -> width type0 = width type -> in_u (width type) b ->
  exists v, recorded_element type (GetWithoutChecks type b) = Some v /\ undo_element type0 v = b.
Proof.
  intros Hf Hf0 Hw Hb. exists (u64 (GetWithoutChecks type b)). split; [by destruct type|].
  assert (Hu : undo_element type0 (u64 (GetWithoutChecks type b)) = wrap_u (width type) (u64 (GetWithoutChecks type b)))
    by (rewrite <- Hw; by destruct type0).
  rewrite Hu, wrap_u_narrow by (by destruct type). rewrite <- (wrap_u_id _ _ Hb) at 2.
  destruct type; try done; cbn [GetWithoutChecks].
  all: first [by apply wrap_u_wrap_u | by apply wrap_u_wrap_s].
Qed.

(** ** Undoing now gives the heap at the start *)

Definition restores (t : Transaction) (obj : Z) (o o0 : TObject) : Prop :=
  array_type o = array_type o0 /\
  (forall offset, skipped o0 offset = false -> fields (undone (object_logs_ t) obj o) !! offset = fields o0 !! offset) /\
  elements (array_undone (array_logs_ t) obj o) = elements o0.

Record tx_inv (h0 : gmap Z TObject) (w : World) (t : Transaction) : Prop := mkInv {
  inv_active : transaction w = Some t;
  inv_objects : objects_fit (heap w) (object_logs_ t);
  inv_arrays : arrays_fit (heap w) (array_logs_ t);
  inv_strings : forall d i, (d, i) ∈ resolve_string_logs_ t -> has_slot w d i;
  inv_restores : forall obj o0, h0 !! obj = Some o0 -> exists o, heap w !! obj = Some o /\ restores t obj o o0
}.

Lemma skipped_array_type o o' offset : array_type o = array_type o' -> skipped o offset = skipped o' offset.
Proof. unfold skipped, IsArrayInstance. by intros ->. Qed.

(** A change of one object and its logs. *)
Lemma inv_update h0 w t obj o o' w' t' :
  tx_inv h0 w t -> heap w !! obj = Some o -> heap w' = <[obj := o']> (heap w) -> dex_caches w' = dex_caches w ->
  transaction w' = Some t' -> resolve_string_logs_ t' = resolve_string_logs_ t ->
  (forall x, x ≠ obj -> object_logs_ t' !! x = object_logs_ t !! x /\ array_logs_ t' !! x = array_logs_ t !! x) ->
  (forall log, object_logs_ t' !! obj = Some log -> log_fits o' log) ->
  (forall log, array_logs_ t' !! obj = Some log -> array_fits o' log) ->
  (forall o0, h0 !! obj = Some o0 -> restores t obj o o0 -> restores t' obj o' o0) ->
  tx_inv h0 w' t'.
Proof.
  intros [Ha Ho Har Hs Hr] Hobj Hh Hd Ht Hlog Hne Hfo Hfa Hre. split; try done.
  - intros x log Hx. destruct (decide (x = obj)) as [->|Hxo].
    + exists o'. rewrite Hh, lookup_insert_eq. auto.
    + rewrite Hh, lookup_insert_ne by done. apply Ho. by rewrite <- (proj1 (Hne x Hxo)).
  - intros x log Hx. destruct (decide (x = obj)) as [->|Hxo].
    + exists o'. rewrite Hh, lookup_insert_eq. auto.
    + rewrite Hh, lookup_insert_ne by done. apply Har. by rewrite <- (proj2 (Hne x Hxo)).
  - intros d i Hi. rewrite Hlog in Hi. unfold has_slot, GetResolvedString. rewrite Hd. by apply Hs.
  - intros x o0 Hx. destruct (Hr x o0 Hx) as (o1 & Ho1 & H1). destruct (decide (x = obj)) as [->|Hxo].
    + exists o'. rewrite Hh, lookup_insert_eq. simplify_eq. auto.
    + exists o1. rewrite Hh, lookup_insert_ne by done. split; [done|].
      destruct H1 as (E1 & E2 & E3). destruct (Hne x Hxo) as [Q1 Q2].
      unfold restores, undone, array_undone in *. rewrite Q1, Q2. done.
Qed.

(** ** Fields *)

Definition write_cell (o : TObject) (offset : Z) (c : Cell) (b : Z) : TObject :=
  mkObject (array_type o) (<[offset := mkCell (cell_type c) b]> (fields o)) (elements o).

Lemma log_write_undo log o offset k v volatile c b y :
  fields o !! offset = Some c ->
  (log !! offset = None -> skipped o offset = false -> undo_bits (mkFieldValue (u64 v) k volatile) = cell_bits c) ->
  skipped o y = false ->
  fields (undo_object (ObjectLog_LogValue k offset v volatile log) (write_cell o offset c b)) !! y =
  fields (undo_object log o) !! y.
Proof.
  intros Hc Hu Hy. rewrite !undo_object_lookup. cbn [fields write_cell]. unfold undo_cell.
  rewrite (skipped_array_type (write_cell o offset c b) o) by done. rewrite Hy.
  destruct (decide (offset = y)) as [<-|Hne].
  - rewrite lookup_insert_eq, Hc. cbn. unfold ObjectLog_LogValue.
    destruct (log !! offset) eqn:El; [by rewrite El|]. rewrite lookup_insert_eq, Hu by done. by destruct c.
  - rewrite lookup_insert_ne by done. unfold ObjectLog_LogValue. destruct (log !! offset); [done|].
    by rewrite lookup_insert_ne.
Qed.

Lemma LogValue_fits log o offset k v volatile c b :
  fields o !! offset = Some c -> width (cell_type c) = kind_width k -> log_fits o log ->
  log_fits (write_cell o offset c b) (ObjectLog_LogValue k offset v volatile log).
Proof.
  intros Hc Hw Hf x fv Hx.
  assert (Hg : exists c', fields o !! x = Some c' /\ width (cell_type c') = kind_width (kind fv)).
  { revert Hx. unfold ObjectLog_LogValue. destruct (log !! offset); [apply Hf|].
    destruct (decide (offset = x)) as [<-|Hne].
    - rewrite lookup_insert_eq. intros [= <-]. eauto.
    - rewrite lookup_insert_ne by done. apply Hf. }
  destruct Hg as (c' & Hc' & Hw'). cbn [fields write_cell]. destruct (decide (offset = x)) as [<-|Hne].
  - simplify_eq. eexists. rewrite lookup_insert_eq. done.
  - exists c'. by rewrite lookup_insert_ne.
Qed.

(** Recording a value and writing the field keeps the invariant where the value
    recorded for a field not logged yet is the one it has. *)
Lemma inv_write_field h0 w t obj o offset c k v volatile b :
  tx_inv h0 w t -> heap w !! obj = Some o -> fields o !! offset = Some c -> width (cell_type c) = kind_width k ->
  (forall o0, h0 !! obj = Some o0 -> fields o0 !! offset = Some c -> default ∅ (object_logs_ t !! obj) !! offset = None ->
     undo_bits (mkFieldValue (u64 (record_parameter k v)) k volatile) = cell_bits c) ->
  tx_inv h0 (with_heap (<[obj := write_cell o offset c b]> (heap w)) (record (RecordWriteField k obj offset v volatile) w))
    (RecordWriteField k obj offset v volatile t).
Proof.
  intros Hinv Ho Hc Hw Hu.
  eapply (inv_update h0 w t obj o); try done; cbn.
  - by rewrite (inv_active _ _ _ Hinv).
  - intros x Hx. by rewrite lookup_insert_ne.
  - intros log. rewrite lookup_insert_eq. intros [= <-]. apply LogValue_fits; try done.
    destruct (object_logs_ t !! obj) as [log|] eqn:E; cbn; [|intros ??; by rewrite lookup_empty].
    destruct (inv_objects _ _ _ Hinv obj log E) as (o1 & Ho1 & Hf). by simplify_eq.
  - intros log Hl. destruct (inv_arrays _ _ _ Hinv obj log Hl) as (o1 & Ho1 & Hf). by simplify_eq.
  - intros o0 Ho0 (E1 & E2 & E3). split; [done|].
    split; [|rewrite <- E3; unfold array_undone; cbn; by destruct (array_type o)].
    intros y Hy. unfold undone. cbn [object_logs_ RecordWriteField]. rewrite lookup_insert_eq. cbn [default].
    rewrite <- E2 by done. unfold undone. apply log_write_undo; try done.
    2:{ by rewrite (skipped_array_type o o0). }
    intros Hn Hs. apply (Hu o0); try done. rewrite (skipped_array_type o o0) in Hs by done.
    rewrite <- E2 by done. unfold undone. rewrite undo_object_lookup, Hc. cbn. unfold undo_cell. by rewrite Hn.
Qed.

(** ** Elements *)

Definition write_element (o : TObject) (i b : Z) : TObject :=
  mkObject (array_type o) (fields o) (<[Z.to_nat i := b]> (elements o)).

Lemma log_write_elements type log els i v old b :
  0 <= i -> els !! Z.to_nat i = Some old -> (log !! i = None -> undo_element type v = old) ->
  undo_elements type (ArrayLog_LogValue i v log) (<[Z.to_nat i := b]> els) = undo_elements type log els.
Proof.
  intros Hi Hold Hu. apply list_eq. intros x. rewrite !undo_elements_lookup.
  destruct (decide (Z.to_nat i = x)) as [<-|Hne].
  - rewrite list_lookup_insert_eq by (by eapply lookup_lt_Some). rewrite Hold. cbn. rewrite Z2Nat.id by done.
    unfold ArrayLog_LogValue. destruct (log !! i) eqn:E; [by rewrite E|]. by rewrite lookup_insert_eq, Hu.
  - rewrite list_lookup_insert_ne by done. destruct (els !! x); [|done]. cbn. unfold ArrayLog_LogValue.
    destruct (log !! i); [done|]. by rewrite lookup_insert_ne by lia.
Qed.

Lemma ArrayLog_LogValue_fits o log i v :
  array_fits o log -> 0 <= i < Z.of_nat (length (elements o)) -> array_fits o (ArrayLog_LogValue i v log).
Proof.
  intros (type & Ht & H1 & H2 & H) Hi. exists type. split_and!; try done. intros x y.
  unfold ArrayLog_LogValue. destruct (log !! i); [apply H|]. destruct (decide (i = x)) as [<-|Hne].
  - by intros _.
  - rewrite lookup_insert_ne by done. apply H.
Qed.

Lemma array_fits_length o o' log :
  array_type o' = array_type o -> length (elements o') = length (elements o) -> array_fits o log -> array_fits o' log.
Proof. intros Ht Hl (type & H). exists type. by rewrite Ht, Hl. Qed.

Lemma logged_array_fits h0 w t array o type :
  tx_inv h0 w t -> heap w !! array = Some o -> array_type o = Some type -> type ∉ [kPrimNot; kPrimVoid] ->
  array_fits o (default ∅ (array_logs_ t !! array)).
Proof.
  intros Hinv Ho Ht Hn. destruct (array_logs_ t !! array) as [log|] eqn:E; cbn.
  - destruct (inv_arrays _ _ _ Hinv array log E) as (o1 & Ho1 & Hf). by simplify_eq.
  - exists type. rewrite !elem_of_cons in Hn. split_and!; try (intros ->; tauto); [done|].
    intros i v. by rewrite lookup_empty.
Qed.

Lemma inv_write_element h0 w t array o type i v old b :
  tx_inv h0 w t -> heap w !! array = Some o -> array_type o = Some type -> type ∉ [kPrimNot; kPrimVoid] ->
  0 <= i -> elements o !! Z.to_nat i = Some old ->
  (forall o0, h0 !! array = Some o0 -> elements o0 !! Z.to_nat i = Some old -> undo_element type v = old) ->
  tx_inv h0 (with_heap (<[array := write_element o i b]> (heap w)) (record (RecordWriteArray array i v) w))
    (RecordWriteArray array i v t).
Proof.
  intros Hinv Ho Ht Hn Hi Hold Hu.
  pose proof (lookup_lt_Some _ _ _ Hold) as Hlen.
  eapply (inv_update h0 w t array o); try done; cbn.
  - by rewrite (inv_active _ _ _ Hinv).
  - intros x Hx. by rewrite lookup_insert_ne.
  - intros log Hl. destruct (inv_objects _ _ _ Hinv array log Hl) as (o1 & Ho1 & Hf). by simplify_eq.
  - intros log. rewrite lookup_insert_eq. intros [= <-].
    apply (array_fits_length o); [done|by cbn; rewrite length_insert|].
    apply ArrayLog_LogValue_fits; [|lia]. by eapply logged_array_fits.
  - intros o0 Ho0 (E1 & E2 & E3). split; [done|]. split; [done|]. rewrite <- E3.
    unfold array_undone in *. cbn [array_type write_element array_logs_ RecordWriteArray]. rewrite Ht in *.
    rewrite lookup_insert_eq. cbn. cbn in E3. apply log_write_elements with old; try done.
    intros Hl. apply (Hu o0); [done|]. rewrite <- E3, undo_elements_lookup, Hold. cbn. rewrite Z2Nat.id by done.
    by rewrite Hl.
Qed.

(** ** Every operation keeps the invariant *)

Lemma kind_of_width type k : kind_of type = Some k -> width type = kind_width k.
Proof. by destruct type; intros [= <-]. Qed.

Lemma get_cell_Some w obj offset c :
  get_cell w obj offset = Some c -> exists o, heap w !! obj = Some o /\ fields o !! offset = Some c.
Proof. unfold get_cell. destruct (heap w !! obj) as [o|]; [|done]. eauto. Qed.

Lemma put_field_Some n obj offset v w w' o c :
  heap w !! obj = Some o -> fields o !! offset = Some c -> put_field n obj offset v w = Some w' ->
  w' = with_heap (<[obj := write_cell o offset c (wrap_u n v)]> (heap w)) w.
Proof.
  intros Ho Hc. unfold put_field. rewrite Ho. cbn [mbind option_bind]. rewrite Hc. cbn [mbind option_bind].
  destruct (negb _); [done|]. by intros [= <-].
Qed.

Lemma SetField_inv h0 w t k volatile obj offset v w' :
  heap_wf h0 -> tx_inv h0 w t -> SetField k volatile obj offset v w = Some w' -> exists t', tx_inv h0 w' t'.
Proof.
  intros Hwf Hinv. unfold SetField. destruct (get_cell w obj offset) as [c|] eqn:Hc; cbn [mbind option_bind]; [|done].
  destruct (get_cell_Some _ _ _ _ Hc) as (o & Ho & Hf).
  case_bool_decide as Hk; cbn [negb]; cbv iota; [|done]. intros Hp.
  apply (put_field_Some _ _ _ _ _ _ o c) in Hp as ->; try done.
  eexists. apply (inv_write_field h0 w t obj o offset c (setter_kind k) (GetField k (cell_bits c)) (setter_volatile k volatile));
    try done.
  - rewrite (kind_of_width _ _ Hk). by destruct k.
  - intros o0 Ho0 Hc0 _. destruct (proj1 (Hwf _ _ Ho0) _ _ Hc0) as [Hb Hbool].
    apply setter_logs_bits; [by rewrite <- (kind_of_width _ _ Hk)|].
    intros ->. apply Hbool. revert Hk. by destruct (cell_type c).
Qed.

Lemma CasField_inv h0 w t k spurious obj offset old new w' r :
  tx_inv h0 w t -> undoable h0 (OCasField k spurious obj offset old new) w = true ->
  CasField k spurious obj offset old new w = Some (w', r) -> exists t', tx_inv h0 w' t'.
Proof.
  intros Hinv Hun. unfold CasField. cbn [undoable] in Hun.
  destruct (get_cell w obj offset) as [c|] eqn:Hc; cbn [mbind option_bind]; [|done].
  destruct (get_cell_Some _ _ _ _ Hc) as (o & Ho & Hf).
  case_bool_decide as Hk; [|done]. case_bool_decide as Hin; cbn [negb andb]; cbv iota zeta; [|done].
  assert (Hlog : forall b, tx_inv h0 (with_heap (<[obj := write_cell o offset c b]> (heap w))
    (record (RecordWriteField k obj offset old true) w)) (RecordWriteField k obj offset old true t)).
  { intros b. apply inv_write_field; try done; [by apply kind_of_width|].
    intros o0 Ho0 _ Hn. rewrite cas_logs_expected by done. rewrite Ho0, (inv_active _ _ _ Hinv) in Hun.
    apply orb_prop in Hun as [He|He]; [by apply Z.eqb_eq in He|].
    destruct (object_logs_ t !! obj) as [log|]; [|done]. cbn in Hn. by rewrite Hn in He. }
  destruct (_ && _).
  - destruct (put_field _ _ _ _ _) as [w1|] eqn:Hp; cbn [mbind option_bind]; [|done]. intros [= <- <-].
    apply (put_field_Some _ _ _ _ _ _ o c) in Hp as ->; try done. eexists. apply Hlog.
  - intros [= <- <-]. eexists. specialize (Hlog (cell_bits c)).
    assert (Hid : write_cell o offset c (cell_bits c) = o).
    { unfold write_cell. destruct c, o; cbn in *. by rewrite insert_id. }
    rewrite Hid, insert_id in Hlog by done. exact Hlog.
Qed.

Lemma put_element_Some n array i v w w' o :
  heap w !! array = Some o -> put_element n array i v w = Some w' ->
  exists type, array_type o = Some type /\ type ∉ [kPrimNot; kPrimVoid] /\ width type = n /\ 0 <= i /\
  w' = with_heap (<[array := write_element o i (wrap_u n v)]> (heap w)) w.
Proof.
  intros Ho. unfold put_element. rewrite Ho. cbn [mbind option_bind].
  destruct (array_type o) as [type|] eqn:Ht; cbn [mbind option_bind]; [|done].
  case_bool_decide as Hn; [done|]. cbn [orb].
  destruct (width type =? n) eqn:Hw; [|done]. cbn [negb orb].
  destruct (0 <=? i) eqn:Hi; [|done]. cbn [andb]. destruct (i <? _); [|done]. cbn [negb]. cbv iota.
  intros [= <-]. exists type. apply Z.eqb_eq in Hw. apply Z.leb_le in Hi. split_and!; try done.
  unfold write_element. by rewrite Ht.
Qed.

Lemma SetElement_inv h0 w t type array i v w' :
  heap_wf h0 -> tx_inv h0 w t -> undoable h0 (OSetElement type array i v) w = true ->
  SetWithoutChecks type array i v w = Some w' -> exists t', tx_inv h0 w' t'.
Proof.
  intros Hwf Hinv Hun. unfold SetWithoutChecks.
  destruct (heap w !! array) as [o|] eqn:Ho; cbn [mbind option_bind]; [|done].
  destruct (elements o !! Z.to_nat i) as [old|] eqn:Hold; cbn [mbind option_bind]; [|done].
  rewrite (inv_active _ _ _ Hinv).
  destruct (recorded_element type (GetWithoutChecks type old)) as [rec|] eqn:Hrec; cbn [mbind option_bind]; [|done].
  intros Hp. apply (put_element_Some _ _ _ _ _ _ o) in Hp as (type0 & Ht & Hn & Hw & Hi & ->); [|done].
  eexists. apply (inv_write_element h0 w t array o type0 i rec old); try done.
  intros o0 Ho0 Hold0. destruct (inv_restores _ _ _ Hinv _ _ Ho0) as (o1 & Ho1 & E1 & _). simplify_eq.
  cbn [undoable] in Hun. rewrite Ho0 in Hun. rewrite <- E1, Ht in Hun.
  apply andb_prop in Hun as [Hf0 Hf]. apply negb_true_iff in Hf0, Hf.
  destruct (element_log_bits type type0 old) as (x & Hx & Hu); try done; [|congruence].
  rewrite <- Hw. eapply (proj2 (Hwf _ _ Ho0)); [by rewrite <- E1|done].
Qed.

Lemma record_elements_spec type array : forall count bits i w w' t,
  transaction w = Some t -> record_elements type array i bits count w = Some w' ->
  exists t', transaction w' = Some t' /\ heap w' = heap w /\ dex_caches w' = dex_caches w /\
  object_logs_ t' = object_logs_ t /\ resolve_string_logs_ t' = resolve_string_logs_ t /\
  (forall x, x ≠ array -> array_logs_ t' !! x = array_logs_ t !! x) /\
  (forall o, 0 <= i -> i + Z.of_nat (length bits) <= Z.of_nat (length (elements o)) ->
     array_fits o (default ∅ (array_logs_ t !! array)) -> array_fits o (default ∅ (array_logs_ t' !! array))).
Proof.
  induction count as [|count IH]; intros bits i w w' t Ht Hr.
  - destruct bits; cbn in Hr; injection Hr as <-; exists t; by split_and!.
  - destruct bits as [|b bits]; [done|]. cbn [record_elements] in Hr.
    destruct (recorded_element type _) as [v|]; cbn [mbind option_bind] in Hr; [|done].
    apply (IH _ _ _ _ (RecordWriteArray array i v t)) in Hr; [|cbn; by rewrite Ht].
    destruct Hr as (t' & H1 & H2 & H3 & H4 & H5 & H6 & H7). exists t'. split_and!; try done.
    + intros x Hx. rewrite H6 by done. cbn. by rewrite lookup_insert_ne.
    + intros o Hi Hl Hf. cbn [length] in Hl. apply H7; [lia|lia|]. cbn. rewrite lookup_insert_eq. cbn.
      apply ArrayLog_LogValue_fits; [done|lia].
Qed.

Lemma FillArrayData_Some array element_width data w w' r o :
  heap w !! array = Some o -> FillArrayData array element_width data w = Some (w', r) ->
  array ≠ 0 ->
  exists type els, array_type o = Some type /\ type ∉ [kPrimNot; kPrimVoid] /\ length els = length (elements o) /\
  w' = with_heap (<[array := mkObject (array_type o) (fields o) els]> (heap w)) w.
Proof.
  intros Ho Hfill Hz. revert Hfill. unfold FillArrayData. rewrite (proj2 (Z.eqb_neq _ _) Hz), Ho. cbn [mbind option_bind].
  destruct (array_type o) as [type|] eqn:Ht; cbn [mbind option_bind]; [|done].
  case_bool_decide as Hn; [done|]. destruct (_ <? s32 _).
  - intros [= <- <-]. exists type, (elements o). split_and!; try done.
    rewrite <- Ht. rewrite insert_id by (by destruct o). by destruct w.
  - destruct (negb _); [done|]. cbn [orb]. destruct (_ <? _) eqn:Hl; [done|]. intros [= <- <-]. apply Z.ltb_ge in Hl. exists type, ((wrap_u (width type) <$> data) ++ drop (length data) (elements o)).
    split_and!; try done. rewrite length_app, length_fmap, length_drop. lia.
Qed.

Lemma Fill_inv h0 w t array element_width data w' r :
  tx_inv h0 w t -> undoable h0 (OFillArrayData array element_width data) w = true ->
  FILL_ARRAY_DATA array element_width data w = Some (w', r) -> exists t', tx_inv h0 w' t'.
Proof.
  intros Hinv Hun. unfold FILL_ARRAY_DATA. cbn [undoable] in Hun.
  destruct (h0 !! array) eqn:Hh0; [done|].
  destruct (FillArrayData _ _ _ _) as [[w1 s]|] eqn:Hfill; cbn [mbind option_bind]; [|done].
  destruct (decide (array = 0)) as [->|Hz]; [injection Hfill as <- <-; intros [= <- <-]; by exists t|].
  destruct (heap w !! array) as [o|] eqn:Ho.
  2:{ unfold FillArrayData in Hfill. by rewrite (proj2 (Z.eqb_neq _ _) Hz), Ho in Hfill. }
  destruct (FillArrayData_Some _ _ _ _ _ _ _ Ho Hfill Hz) as (type & els & Ht & Hn & Hlen & ->).
  set (o' := mkObject (array_type o) (fields o) els) in *.
  assert (Hinv1 : tx_inv h0 (with_heap (<[array := o']> (heap w)) w) t).
  { eapply (inv_update h0 w t array o o'); try done.
    - apply (inv_active _ _ _ Hinv).
    - intros log Hl. destruct (inv_objects _ _ _ Hinv array log Hl) as (o1 & Ho1 & Hf). by simplify_eq.
    - intros log Hl. destruct (inv_arrays _ _ _ Hinv array log Hl) as (o1 & Ho1 & Hf). simplify_eq.
      by apply (array_fits_length o).
    - intros o0 Ho0. congruence. }
  destruct s; cbn [negb]; cbv iota; [|intros [= <- <-]; by exists t].
  cbn [transaction with_heap]. rewrite (inv_active _ _ _ Hinv).
  destruct (RecordArrayElementsInTransaction _ _ _) as [w2|] eqn:Hrec; cbn [mbind option_bind]; [|done].
  intros [= <- <-]. unfold RecordArrayElementsInTransaction in Hrec. cbn [heap with_heap] in Hrec.
  rewrite lookup_insert_eq in Hrec. cbn [mbind option_bind array_type o'] in Hrec. rewrite Ht in Hrec.
  cbn [mbind option_bind] in Hrec.
  assert (Hr : record_elements type array 0 els (length data) (with_heap (<[array := o']> (heap w)) w) = Some w2)
    by (destruct type; done).
  apply (record_elements_spec _ _ _ _ _ _ _ t) in Hr as (t' & H1 & H2 & H3 & H4 & H5 & H6 & H7);
    [|apply (inv_active _ _ _ Hinv)].
  exists t'. eapply (inv_update h0 _ t array o' o'); try done.
  - cbn. by rewrite lookup_insert_eq.
  - rewrite H2. cbn. by rewrite insert_insert_eq.
  - intros x Hx. by rewrite H4, H6.
  - intros log. rewrite H4. intros Hl. destruct (inv_objects _ _ _ Hinv1 array log Hl) as (o1 & Ho1 & Hf).
    cbn in Ho1. rewrite lookup_insert_eq in Ho1. by simplify_eq.
  - intros log Hl. specialize (H7 o'). rewrite Hl in H7. apply H7; [lia|done|].
    eapply logged_array_fits; [exact Hinv1|cbn; by rewrite lookup_insert_eq|done|done].
  - intros o0 Ho0. congruence.
Qed.

Lemma ResolveString_inv h0 w t d i s w' :
  tx_inv h0 w t -> SetResolvedString d i s w = Some w' -> exists t', tx_inv h0 w' t'.
Proof.
  intros [Ha Ho Har Hs Hr]. unfold SetResolvedString.
  destruct (put_string d (StringSlotIndex i) (mkPair (Some s) i) w) as [w1|] eqn:Hp; cbn [mbind option_bind]; [|done].
  intros [= <-]. destruct (put_string_heap _ _ _ _ _ Hp) as [Hh Ht].
  exists (RecordResolveString d i t). split; cbn; rewrite ?Hh; try done.
  - by rewrite Ht, Ha.
  - intros d' i' H. unfold has_slot. change (is_Some (GetResolvedString d' i' w1)).
    apply elem_of_app in H as [H|H].
    + rewrite (GetResolvedString_put _ _ _ _ _ d' i' Hp) by (by apply Hs). destruct (decide _); [by eexists|by apply Hs].
    + apply elem_of_cons in H as [[= -> ->]|H]; [|by apply elem_of_nil in H].
      unfold put_string in Hp. destruct (dex_caches w !! d); cbn in Hp; [|done]. injection Hp as <-.
      unfold GetResolvedString. cbn. rewrite lookup_insert_eq. cbn. rewrite lookup_insert_eq. by eexists.
Qed.

Lemma Allocate_inv h0 w t obj o :
  tx_inv h0 w t -> heap w !! obj = None -> tx_inv h0 (with_heap (<[obj := o]> (heap w)) w) t.
Proof.
  intros [Ha Ho Har Hs Hr] Hn. split; try done; cbn.
  - intros x log Hx. destruct (Ho x log Hx) as (o1 & H1 & H2). exists o1. rewrite lookup_insert_ne; [done|congruence].
  - intros x log Hx. destruct (Har x log Hx) as (o1 & H1 & H2). exists o1. rewrite lookup_insert_ne; [done|congruence].
  - intros x o0 Hx. destruct (Hr x o0 Hx) as (o1 & H1 & H2). exists o1. rewrite lookup_insert_ne; [done|congruence].
Qed.

Lemma Abort_inv h0 w t message : tx_inv h0 w t -> tx_inv h0 (record (Abort message) w) (Abort message t).
Proof.
  intros [Ha Ho Har Hs Hr]. unfold Abort, restores in *. split; cbn; rewrite ?Ha; try done; by destruct (aborted_ t).
Qed.

Lemma exec_inv h0 w t op w' :
  heap_wf h0 -> tx_inv h0 w t -> undoable h0 op w = true -> exec op w = Some w' -> exists t', tx_inv h0 w' t'.
Proof.
  intros Hwf Hinv Hun. destruct op; cbn [exec].
  - by apply SetField_inv with t.
  - destruct (CasField _ _ _ _ _ _ _) as [[w1 r]|] eqn:E; [|done]. intros [= <-]. by eapply CasField_inv.
  - by apply SetElement_inv with t.
  - destruct (FILL_ARRAY_DATA _ _ _ _) as [[w1 r]|] eqn:E; [|done]. intros [= <-]. by eapply Fill_inv.
  - by apply ResolveString_inv with t.
  - destruct (heap w !! obj) eqn:E; [done|]. intros [= <-]. exists t. by apply Allocate_inv.
  - intros [= <-]. eexists. by apply Abort_inv.
Qed.

Lemma transaction_run_inv h0 ops : forall w t w',
  heap_wf h0 -> tx_inv h0 w t -> run h0 ops w = Some w' -> exists t', tx_inv h0 w' t'.
Proof.
  induction ops as [|op ops IH]; intros w t w' Hwf Hinv Hrun; cbn [run] in Hrun.
  - injection Hrun as <-. by exists t.
  - destruct (undoable h0 op w) eqn:Hun; [|done]. destruct (exec op w) as [w1|] eqn:He; cbn [mbind option_bind] in Hrun; [|done].
    destruct (exec_inv _ _ _ _ _ Hwf Hinv Hun He) as [t1 H1]. by apply (IH w1 t1).
Qed.

Lemma inv_start h0 w : heap w = h0 -> tx_inv h0 (mkWorld (heap w) (dex_caches w) (Some new_transaction)) new_transaction.
Proof.
  intros <-. split; try done; cbn.
  - intros d i H. by apply elem_of_nil in H.
  - intros obj o0 H. exists o0. split; [done|]. unfold restores.
    change (object_logs_ new_transaction) with (∅ : gmap Z ObjectLog).
    change (array_logs_ new_transaction) with (∅ : gmap Z ArrayLog).
    by rewrite undone_empty, array_undone_empty.
Qed.

(** ** Rolling back *)

Lemma Rollback_spec h0 w t :
  tx_inv h0 w t ->
  exists t' w', ExitTransactionMode w = Some (t, mkWorld (heap w) (dex_caches w) None) /\
  Rollback t (mkWorld (heap w) (dex_caches w) None) = Some (t', w') /\ transaction w' = None /\
  (forall obj o0, h0 !! obj = Some o0 -> exists o, heap w' !! obj = Some o /\ array_type o = array_type o0 /\
     elements o = elements o0 /\ forall offset, skipped o0 offset = false -> fields o !! offset = fields o0 !! offset) /\
  (forall d i, (d, i) ∈ resolve_string_logs_ t -> GetResolvedString d i w' = Some None).
Proof.
  intros [Ha Ho Har Hs Hr]. unfold ExitTransactionMode. rewrite Ha. cbn [mbind option_bind].
  set (w0 := mkWorld (heap w) (dex_caches w) None).
  destruct (UndoObjectModifications_spec t w0) as (w1 & E1 & D1 & T1 & H1); [done|].
  destruct (UndoArrayModifications_spec t w1) as (w2 & E2 & D2 & T2 & H2).
  { intros x log Hx. destruct (Har x log Hx) as (o & Hx1 & Hx2). eexists. rewrite H1. cbn [heap w0]. rewrite Hx1.
    split; [done|]. by apply (array_fits_length o). }
  destruct (UndoResolveStringModifications_spec (resolve_string_logs_ t) w2) as (w3 & E3 & H3 & T3 & N3 & _).
  { intros d i Hi. unfold has_slot, GetResolvedString. rewrite D2, D1. by apply Hs. }
  exists (mkTransaction ∅ ∅ [] (aborted_ t) (abort_message_ t)), w3. split; [done|]. split.
  { unfold Rollback. cbn [transaction w0]. rewrite E1. cbn [mbind option_bind]. rewrite E2. cbn [mbind option_bind].
    by rewrite E3. }
  split; [by rewrite T3, T2, T1|]. split; [|done].
  intros obj o0 Ho0. destruct (Hr obj o0 Ho0) as (o & Hobj & Q1 & Q2 & Q3).
  exists (array_undone (array_logs_ t) obj (undone (object_logs_ t) obj o)).
  rewrite H3, H2, H1. cbn [heap w0]. rewrite Hobj. split; [done|].
  revert Q1 Q3. unfold array_undone. cbn [array_type undone undo_object].
  destruct (array_type o) as [type|] eqn:Et; intros Q1 Q3; (split; [cbn; congruence|]; split; [exact Q3|exact Q2]).
Qed.

(** C8. Rolling back restores the heap.  Take any well-formed heap and any sequence
    of field writes of all kinds, compare-and-swaps, array element writes, array
    fills, string resolutions, allocations and aborts made in a transaction, where
    each compare-and-swap on a field not logged yet finds the value it expects, the
    arrays written by element that existed before do not hold floating point
    numbers and the arrays filled from data are new.  Leaving the transaction and
    rolling it back succeeds; every object that existed before has its elements
    and all its fields as before, but for the class and the length of an array
    which are not restored; and no string resolved meanwhile is left in its dex
    cache. *)
Theorem rollback_restores_heap w0 w1 w ops :
  heap_wf (heap w0) -> EnterTransactionMode new_transaction w0 = Some w1 -> run (heap w0) ops w1 = Some w ->
  exists t w2 t' w', ExitTransactionMode w = Some (t, w2) /\ Rollback t w2 = Some (t', w') /\ transaction w' = None /\
  (forall obj o0, heap w0 !! obj = Some o0 -> exists o, heap w' !! obj = Some o /\ array_type o = array_type o0 /\
     elements o = elements o0 /\ forall offset, skipped o0 offset = false -> fields o !! offset = fields o0 !! offset) /\
  (forall d i, (d, i) ∈ resolve_string_logs_ t -> GetResolvedString d i w' = Some None).
Proof.
  intros Hwf Henter Hrun. unfold EnterTransactionMode in Henter. destruct (transaction w0); [done|].
  injection Henter as <-. destruct (transaction_run_inv _ _ _ _ _ Hwf (inv_start (heap w0) w0 eq_refl) Hrun) as [t Hinv].
  destruct (Rollback_spec _ _ _ Hinv) as (t' & w' & H1 & H2 & H3). by exists t, (mkWorld (heap w) (dex_caches w) None), t', w'.
Qed.

(** ** Writes that rolling back does not undo *)

(** Rolling back right after one operation, from a transaction [t]. *)
Lemma Rollback_single t w :
  objects_fit (heap w) (object_logs_ t) -> arrays_fit (heap w) (array_logs_ t) -> resolve_string_logs_ t = [] ->
  transaction w = Some t ->
  exists t' w2 w', ExitTransactionMode w = Some (t, w2) /\ Rollback t w2 = Some (t', w') /\
  forall obj, heap w' !! obj = (fun o => array_undone (array_logs_ t) obj (undone (object_logs_ t) obj o)) <$> heap w !! obj.
Proof.
  intros Ho Har Hs Ha. unfold ExitTransactionMode. rewrite Ha. cbn [mbind option_bind].
  set (w0 := mkWorld (heap w) (dex_caches w) None).
  destruct (UndoObjectModifications_spec t w0) as (w1 & E1 & D1 & T1 & H1); [done|].
  destruct (UndoArrayModifications_spec t w1) as (w2 & E2 & D2 & T2 & H2).
  { intros x log Hx. destruct (Har x log Hx) as (o & Hx1 & Hx2). eexists. rewrite H1. cbn [heap w0]. rewrite Hx1.
    split; [done|]. by apply (array_fits_length o). }
  exists (mkTransaction ∅ ∅ [] (aborted_ t) (abort_message_ t)), w0, w2. split; [done|]. split.
  { unfold Rollback. cbn [transaction w0]. rewrite E1. cbn [mbind option_bind]. rewrite E2. cbn [mbind option_bind].
    by rewrite Hs. }
  intros obj. rewrite H2, H1. cbn [heap w0]. by destruct (heap w !! obj).
Qed.

Definition entered (w : World) : World := mkWorld (heap w) (dex_caches w) (Some new_transaction).

(** C20. A compare-and-swap that fails is not neutral in a transaction.  It records
    the value it expected, not the one the field has, so that for every field of 32
    or 64 bits or reference field and every expected value other than the field's,
    the operation leaves the field alone and rolling back then overwrites it with
    the expected value. *)
Theorem failed_cas_overwrites w0 obj o offset c k spurious old new :
  heap w0 !! obj = Some o -> fields o !! offset = Some c -> kind_of (cell_type c) = Some k ->
  k ∈ [k32Bits; k64Bits; kReference] -> skipped o offset = false -> wrap_u (kind_width k) old ≠ cell_bits c ->
  exists w t w2 t' w', CasField k spurious obj offset old new (entered w0) = Some (w, false) /\ heap w = heap w0 /\
  ExitTransactionMode w = Some (t, w2) /\ Rollback t w2 = Some (t', w') /\
  get_cell w' obj offset = Some (mkCell (cell_type c) (wrap_u (kind_width k) old)).
Proof.
  intros Ho Hc Hk Hin Hs Hne.
  set (t := RecordWriteField k obj offset old true new_transaction).
  set (w := record (RecordWriteField k obj offset old true) (entered w0)).
  assert (Hlog : object_logs_ t = {[obj := {[offset := mkFieldValue (u64 (record_parameter k old)) k true]}]}) by done.
  destruct (Rollback_single t w) as (t' & w2 & w' & H1 & H2 & H3); try done.
  { intros x log. rewrite Hlog. intros [<- <-]%lookup_singleton_Some. exists o. split; [done|].
    intros y fv [<- <-]%lookup_singleton_Some. exists c. split; [done|]. by apply kind_of_width. }
  exists w, t, w2, t', w'. split_and!; try done.
  - unfold CasField, get_cell. cbn [heap entered]. rewrite Ho. cbn [mbind option_bind]. rewrite Hc. cbn [mbind option_bind].
    rewrite !bool_decide_eq_true_2 by done. cbn [negb andb]. cbv iota zeta.
    rewrite (proj2 (Z.eqb_neq _ _)) by done. by rewrite andb_false_r.
  - unfold get_cell. rewrite H3. change (heap w) with (heap w0). rewrite Ho. cbn [fmap option_fmap option_map mbind option_bind].
    change (array_logs_ t) with (∅ : gmap Z ArrayLog). rewrite array_undone_empty. unfold undone.
    rewrite Hlog, lookup_singleton_eq. cbn [default]. rewrite undo_object_lookup, Hc. cbn. unfold undo_cell.
    by rewrite lookup_singleton_eq, Hs, cas_logs_expected.
Qed.

(** C32. The elements of [float] arrays are not restored.  The interpreter writes
    them through an [int] array, so that their bits are recorded; the undo converts
    the number those bits are to [float].  For every element the array has after
    the rollback the bits of that conversion; an element 1.0f comes back as
    1065353216.0f. *)
Theorem float_elements_converted w0 array o i b v :
  heap w0 !! array = Some o -> array_type o = Some kPrimFloat -> 0 <= i -> elements o !! Z.to_nat i = Some b ->
  exists w t w2 t' w' o', SetWithoutChecks kPrimInt array i v (entered w0) = Some w /\
  ExitTransactionMode w = Some (t, w2) /\ Rollback t w2 = Some (t', w') /\ heap w' !! array = Some o' /\
  elements o' !! Z.to_nat i = Some (u32 (uint64_to_float (u64 (s32 b)))) /\
  (b = 0x3f800000 -> elements o' !! Z.to_nat i = Some 0x4e7e0000).
Proof.
  intros Ho Ht Hi Hb. pose proof (lookup_lt_Some _ _ _ Hb) as Hlen.
  set (t := RecordWriteArray array i (u64 (s32 b)) new_transaction).
  set (o1 := write_element o i (u32 v)).
  set (w := with_heap (<[array := o1]> (heap w0)) (record (RecordWriteArray array i (u64 (s32 b))) (entered w0))).
  assert (Hlog : array_logs_ t = {[array := {[i := u64 (s32 b)]}]}) by done.
  destruct (Rollback_single t w) as (t' & w2 & w' & H1 & H2 & H3); try done.
  { intros x log. rewrite Hlog. intros [<- <-]%lookup_singleton_Some. exists o1.
    split; [by cbn; rewrite lookup_insert_eq|]. exists kPrimFloat. split_and!; try done.
    intros y z [<- <-]%lookup_singleton_Some. cbn. rewrite length_insert. lia. }
  assert (Hw' : heap w' !! array = Some (undo_array kPrimFloat {[i := u64 (s32 b)]} o1)).
  { rewrite H3. change (heap w) with (<[array := o1]> (heap w0)). rewrite lookup_insert_eq.
    cbn [fmap option_fmap option_map]. f_equal.
    change (object_logs_ t) with (∅ : gmap Z ObjectLog). rewrite undone_empty, Hlog. unfold array_undone.
    change (array_type o1) with (array_type o). by rewrite Ht, lookup_singleton_eq. }
  assert (Hel : elements (undo_array kPrimFloat {[i := u64 (s32 b)]} o1) !! Z.to_nat i =
    Some (u32 (uint64_to_float (u64 (s32 b))))).
  { cbn [elements undo_array o1 write_element]. rewrite undo_elements_lookup, list_lookup_insert_eq by done.
    cbn [fmap option_fmap option_map]. rewrite Z2Nat.id by done. by rewrite lookup_singleton_eq. }
  eexists w, t, w2, t', w', _. split.
  { unfold SetWithoutChecks. cbn [heap entered]. rewrite Ho. cbn [mbind option_bind]. rewrite Hb. cbn [mbind option_bind].
    change (transaction (entered w0)) with (Some new_transaction). cbv iota.
    change (recorded_element kPrimInt (GetWithoutChecks kPrimInt b)) with (Some (u64 (s32 b))). cbn [mbind option_bind].
    unfold put_element. change (heap (record _ (entered w0))) with (heap w0). rewrite Ho. cbn [mbind option_bind]. rewrite Ht. cbn [mbind option_bind]. rewrite bool_decide_eq_false_2 by (by apply not_elem_of_pair).
    rewrite (proj2 (Z.leb_le 0 i)), (proj2 (Z.ltb_lt i _)) by lia. cbn.
    unfold w, o1, write_element. by rewrite Ht. }
  split; [done|]. split; [done|]. split; [exact Hw'|]. rewrite Hel. split; [done|]. by intros ->.
Qed.

(** Recording the elements an array has keeps the invariant. *)
Lemma record_elements_inv h0 type array o : forall count i bits w w' t,
  heap_wf h0 -> tx_inv h0 w t -> heap w !! array = Some o -> array_type o = Some type -> type ∉ [kPrimNot; kPrimVoid] ->
  is_floating type = false -> 0 <= i -> bits = drop (Z.to_nat i) (elements o) ->
  record_elements type array i bits count w = Some w' -> exists t', tx_inv h0 w' t'.
Proof.
  induction count as [|count IH]; intros i bits w w' t Hwf Hinv Ho Ht Hn Hf Hi Hbits Hr.
  - destruct bits; cbn in Hr; injection Hr as <-; by exists t.
  - destruct bits as [|b bits]; [done|]. cbn [record_elements] in Hr.
    destruct (recorded_element type _) as [v|] eqn:Hv; cbn [mbind option_bind] in Hr; [|done].
    assert (Hb : elements o !! Z.to_nat i = Some b).
    { rewrite <- (Nat.add_0_r (Z.to_nat i)), <- lookup_drop, <- Hbits. done. }
    assert (Hinv1 : tx_inv h0 (record (RecordWriteArray array i v) w) (RecordWriteArray array i v t)).
    { pose proof (inv_write_element h0 w t array o type i v b b Hinv Ho Ht Hn Hi Hb) as Hw.
      assert (Hid : write_element o i b = o) by (unfold write_element; rewrite list_insert_id by done; by destruct o).
      rewrite Hid, insert_id in Hw by done. apply Hw. intros o0 Ho0 Hb0.
      destruct (inv_restores _ _ _ Hinv _ _ Ho0) as (o1 & Ho1 & E1 & _). simplify_eq.
      destruct (element_log_bits type type b) as (x & Hx & Hu); try done; [|congruence].
      eapply (proj2 (Hwf _ _ Ho0)); [by rewrite <- E1|done]. }
    apply (IH (i + 1) bits _ _ _ Hwf Hinv1) in Hr; try done; [lia|].
    replace (Z.to_nat (i + 1)) with (S (Z.to_nat i)) by lia.
    rewrite (drop_S _ b _ Hb) in Hbits. by injection Hbits.
Qed.

(** C31. The data an array is filled with survives a rollback.  The instruction
    records the elements after it has copied the data, so that for every array of
    integers and all data that fit it, where filling it succeeds in a transaction,
    rolling back leaves the array with the data in place of what it had. *)
Theorem filled_array_keeps_data w0 array o type element_width data w :
  heap_wf (heap w0) -> heap w0 !! array = Some o -> array_type o = Some type -> is_floating type = false ->
  FILL_ARRAY_DATA array element_width data (entered w0) = Some (w, true) ->
  exists t w2 t' w' o', ExitTransactionMode w = Some (t, w2) /\ Rollback t w2 = Some (t', w') /\
  heap w' !! array = Some o' /\ elements o' = (wrap_u (width type) <$> data) ++ drop (length data) (elements o).
Proof.
  intros Hwf Ho Ht Hf. unfold FILL_ARRAY_DATA, FillArrayData. change (heap (entered w0)) with (heap w0).
  destruct (array =? 0); [done|].
  rewrite Ho. cbn [mbind option_bind]. rewrite Ht. cbn [mbind option_bind].
  case_bool_decide as Hn; [done|]. destruct (_ <? s32 _); [done|]. destruct (negb (ComponentSize type =? _)); [done|].
  cbn [orb]. destruct (_ <? _); [done|].
  cbn [mbind option_bind negb]. cbv iota.
  set (els := (wrap_u (width type) <$> data) ++ drop (length data) (elements o)).
  set (o1 := mkObject (Some type) (fields o) els). set (h1 := <[array := o1]> (heap w0)).
  change (transaction (with_heap h1 (entered w0))) with (Some new_transaction). cbv iota.
  destruct (RecordArrayElementsInTransaction _ _ _) as [w1|] eqn:Hrec; cbn [mbind option_bind]; [|done].
  intros [= <-]. assert (Hh1 : h1 !! array = Some o1) by apply lookup_insert_eq.
  unfold RecordArrayElementsInTransaction in Hrec. change (heap (with_heap h1 (entered w0))) with h1 in Hrec.
  rewrite Hh1 in Hrec. cbn [mbind option_bind array_type o1] in Hrec.
  assert (Hr : record_elements type array 0 els (length data) (with_heap h1 (entered w0)) = Some w1) by (destruct type; done).
  assert (Hwf1 : heap_wf h1).
  { intros x ox. unfold h1. destruct (decide (array = x)) as [<-|Hne]; [|rewrite lookup_insert_ne by done; apply Hwf].
    rewrite lookup_insert_eq. intros [= <-]. split; [apply (Hwf _ _ Ho)|]. cbn. intros ? [= <-] i b Hb.
    apply lookup_app_Some in Hb as [Hb|[_ Hb]].
    - apply list_lookup_fmap_Some in Hb as (z & -> & _). apply wrap_u_range. by destruct type.
    - rewrite lookup_drop in Hb. by apply (proj2 (Hwf _ _ Ho) type Ht) in Hb. }
  pose proof (inv_start h1 (mkWorld h1 (dex_caches w0) None) eq_refl) as Hstart.
  apply (record_elements_inv h1 type array o1 (length data) 0 els _ _ new_transaction Hwf1 Hstart) in Hr as [t Hinv]; try done.
  destruct (Rollback_spec _ _ _ Hinv) as (t' & w' & H1 & H2 & _ & H3 & _).
  destruct (H3 array o1 Hh1) as (o' & Ho' & _ & He & _).
  by exists t, (mkWorld (heap w1) (dex_caches w1) None), t', w', o'.
Qed.

(** ** Logs follow their objects *)

Lemma move_logs_spec {L} (visitor : Z -> Z) : forall (roots : list Z) (logs : gmap Z L),
  NoDup roots -> (forall r, r ∈ roots -> is_Some (logs !! r)) -> (forall r, r ∈ roots -> logs !! visitor r = None) ->
  (forall r r', r ∈ roots -> r' ∈ roots -> visitor r = visitor r' -> r = r') ->
  exists logs', move_logs ((fun r => (r, visitor r)) <$> roots) logs = Some logs' /\
  (forall r, r ∈ roots -> logs' !! visitor r = logs !! r) /\
  (forall x, x ∉ roots -> (forall r, r ∈ roots -> visitor r ≠ x) -> logs' !! x = logs !! x) /\
  (forall r, r ∈ roots -> logs' !! r = None).
Proof.
  induction roots as [|r roots IH]; intros logs Hnd Hin Hfresh Hinj.
  - exists logs. split_and!; try done; intros x H; by apply elem_of_nil in H.
  - apply list.NoDup_cons in Hnd as [Hr Hnd]. cbn [fmap list_fmap move_logs].
    destruct (Hin r) as [log Hlog]; [by left|]. rewrite Hlog. cbn [mbind option_bind]. rewrite Hfresh by by left.
    assert (Hvr : forall x, x ∈ r :: roots -> visitor r ≠ x).
    { intros x Hx E. destruct (Hin x Hx) as [l El]. rewrite <- E, Hfresh in El by by left. done. }
    destruct (IH (delete r (<[visitor r := log]> logs))) as (logs' & E & K1 & K2 & K3); try done.
    + intros x Hx. rewrite lookup_delete_ne by (by intros ->). rewrite lookup_insert_ne by (apply Hvr; by right).
      apply Hin. by right.
    + intros x Hx. destruct (decide (r = visitor x)) as [->|Hne]; [by rewrite lookup_delete_eq|].
      rewrite lookup_delete_ne by done. rewrite lookup_insert_ne; [apply Hfresh; by right|].
      intros Ev. apply Hinj in Ev; [by subst|by left|by right].
    + intros a b Ha Hb. apply Hinj; by right.
    + exists logs'. split; [done|]. split_and!.
      * intros x Hx. apply elem_of_cons in Hx as [->|Hx].
        -- rewrite K2.
           ++ rewrite lookup_delete_ne by (intros E'; apply (Hvr r); [by left|done]). by rewrite lookup_insert_eq.
           ++ intros Hx. apply (Hvr (visitor r)); [by right|done].
           ++ intros x Hx Ev. apply Hinj in Ev; [by subst|by right|by left].
        -- rewrite K1 by done. rewrite lookup_delete_ne by (by intros ->). rewrite lookup_insert_ne; [done|].
           apply Hvr. by right.
      * intros x Hx Hv. rewrite elem_of_cons in Hx. rewrite K2; [|tauto|intros y Hy; apply Hv; by right].
        rewrite lookup_delete_ne by (intros ->; tauto). rewrite lookup_insert_ne; [done|]. apply Hv. by left.
      * intros x Hx. destruct (decide (x ∈ roots)); [by apply K3|].
        apply elem_of_cons in Hx as [->|]; [|done]. rewrite K2; [by rewrite lookup_delete_eq|done|].
        intros y Hy Ev. destruct (Hin r) as [l El]; [by left|]. rewrite <- Ev, Hfresh in El by by right. done.
Qed.

Lemma visit_field_value_moves visitor v k volatile :
  visit_field_value visitor (mkFieldValue v k volatile) =
  mkFieldValue (if decide (k = kReference /\ v ≠ 0) then visitor v else v) k volatile.
Proof.
  unfold visit_field_value. cbn [kind value is_volatile].
  destruct k; try (by rewrite decide_False by (intros [? _]; done)).
  destruct (v =? 0) eqn:E.
  - apply Z.eqb_eq in E as ->. by rewrite decide_False by (intros [_ ?]; done).
  - apply Z.eqb_neq in E. by rewrite decide_True by done.
Qed.

(** A collection that moves objects apart from each other, out of the way of the
    objects with logs. *)
Definition moves_apart {L} (visitor : Z -> Z) (logs : gmap Z L) : Prop :=
  (forall r r', is_Some (logs !! r) -> is_Some (logs !! r') -> visitor r = visitor r' -> r = r') /\
  (forall r, is_Some (logs !! r) -> visitor r ≠ r -> logs !! visitor r = None).

Lemma elem_of_roots {L} (logs : gmap Z L) r : r ∈ merge_sort Z.le (fst <$> map_to_list logs) <-> is_Some (logs !! r).
Proof.
  rewrite merge_sort_Permutation, list_elem_of_fmap. split.
  - intros ([k l] & -> & H). apply elem_of_map_to_list in H. by exists l.
  - intros [l H]. exists (r, l). split; [done|]. by apply elem_of_map_to_list.
Qed.

Lemma move_all {L} (visitor : Z -> Z) (logs : gmap Z L) :
  moves_apart visitor logs ->
  exists logs', move_logs (moving_roots visitor logs) logs = Some logs' /\
  (forall r log, logs !! r = Some log -> logs' !! visitor r = Some log) /\
  (forall x log, logs' !! x = Some log -> exists r, logs !! r = Some log /\ x = visitor r).
Proof.
  intros [Hinj Hfresh]. unfold moving_roots.
  set (roots := filter (fun r => visitor r ≠ r) (merge_sort Z.le (fst <$> map_to_list logs))).
  assert (Hroots : forall r, r ∈ roots <-> visitor r ≠ r /\ is_Some (logs !! r)).
  { intros r. unfold roots. by rewrite list_elem_of_filter, elem_of_roots. }
  destruct (move_logs_spec visitor roots logs) as (logs' & E & K1 & K2 & K3).
  - apply list.NoDup_filter. rewrite merge_sort_Permutation. apply NoDup_fst_map_to_list.
  - intros r Hr. by apply Hroots.
  - intros r [H1 H2]%Hroots. auto.
  - intros r r' [_ H1]%Hroots [_ H2]%Hroots. auto.
  - exists logs'. split; [done|]. split.
    + intros r log Hr. destruct (decide (visitor r = r)) as [Hv|Hv].
      * rewrite Hv, K2; [done|intros [H _]%Hroots; congruence|].
        intros y [Hy1 Hy2]%Hroots Ey. apply Hy1. rewrite Ey. apply Hinj; [by eexists|done|congruence].
      * rewrite K1; [done|]. apply Hroots. split; [done|by eexists].
    + intros x log Hx. destruct (decide (x ∈ roots)) as [Hin|Hin]; [by rewrite K3 in Hx|].
      destruct (decide (Exists (fun r => visitor r = x) roots)) as [Hex|Hex].
      * apply List.Exists_exists in Hex as (r & Hr%list_elem_of_In & <-). exists r. by rewrite <- K1.
      * rewrite K2 in Hx; [|done|intros r Hr%list_elem_of_In Er; apply Hex, List.Exists_exists; eauto].
        exists x. split; [done|]. destruct (decide (visitor x = x)); [done|]. exfalso. apply Hin, Hroots. split; [done|by eexists].
Qed.

(** C19. The logs follow the objects a collection moves.  Where the collector moves
    objects apart from each other and not onto the address of an object with a log,
    visiting the transaction's roots passes its checks, whatever the order of the
    addresses: the log of every object is found at its new address, with the same
    fields, in which the references that are not null are moved and all other
    values are kept, the log of every array at its new address, there are no
    other logs, and the dex caches of the resolved strings are moved. *)
Theorem logs_follow_objects h visitor t :
  moves_apart visitor (object_logs_ t) -> moves_apart visitor (array_logs_ t) ->
  (forall array log, array_logs_ t !! array = Some log -> exists o, h !! array = Some o /\ array_type o ≠ Some kPrimNot) ->
  exists t', Transaction_VisitRoots h visitor t = Some t' /\
  (forall obj log, object_logs_ t !! obj = Some log -> exists log', object_logs_ t' !! visitor obj = Some log' /\
     (forall offset, log !! offset = None -> log' !! offset = None) /\
     forall offset v k volatile, log !! offset = Some (mkFieldValue v k volatile) ->
       log' !! offset = Some (mkFieldValue (if decide (k = kReference /\ v ≠ 0) then visitor v else v) k volatile)) /\
  (forall array log, array_logs_ t !! array = Some log -> array_logs_ t' !! visitor array = Some log) /\
  (forall x log, object_logs_ t' !! x = Some log -> exists obj, is_Some (object_logs_ t !! obj) /\ x = visitor obj) /\
  (forall x log, array_logs_ t' !! x = Some log -> exists array, array_logs_ t !! array = Some log /\ x = visitor array) /\
  resolve_string_logs_ t' = (fun '(d, i) => (visitor d, i)) <$> resolve_string_logs_ t.
Proof.
  intros Ho Ha Hh. unfold Transaction_VisitRoots, VisitObjectLogs, VisitArrayLogs. cbv zeta.
  set (logs := (fun log : ObjectLog => visit_field_value visitor <$> log) <$> object_logs_ t).
  assert (Hs : forall r, is_Some (logs !! r) <-> is_Some (object_logs_ t !! r))
    by (intros r; unfold logs; by rewrite lookup_fmap, fmap_is_Some).
  destruct (move_all visitor logs) as (l1 & -> & P1 & P2).
  { destruct Ho as [H1 H2]. split.
    - intros r r' Hr Hr'. apply H1; by apply Hs.
    - intros r Hr Hv. apply Hs in Hr. unfold logs. by rewrite lookup_fmap, (H2 r). }
  cbn [mbind option_bind].
  rewrite (proj2 (forallb_forall _ _)).
  2:{ intros r Hr. apply list_elem_of_In, list_elem_of_fmap in Hr as ([k l] & -> & Hr).
      apply elem_of_map_to_list in Hr. destruct (Hh k l Hr) as (o & Hk & Hn). cbn [fst]. by rewrite Hk, bool_decide_eq_false_2. }
  destruct (move_all visitor (array_logs_ t) Ha) as (l2 & -> & Q1 & Q2). cbn [mbind option_bind].
  eexists. split; [done|]. cbn [object_logs_ array_logs_ resolve_string_logs_]. split_and!; try done.
  - intros obj log Hl. exists (visit_field_value visitor <$> log).
    split; [apply P1; unfold logs; by rewrite lookup_fmap, Hl|]. split.
    + intros offset Hn. by rewrite lookup_fmap, Hn.
    + intros offset v k volatile Hv. rewrite lookup_fmap, Hv. cbn [fmap option_fmap option_map]. f_equal.
      apply visit_field_value_moves.
  - intros x log Hx. destruct (P2 x log Hx) as (r & Hr & ->). exists r. split; [|done]. apply Hs. by eexists.
Qed.

(** ** Samples *)

Module SampleTransaction.
(** An object with an [int] and a [short] field, an [int] array, a [float] array. *)
Definition thing : TObject := mkObject None {[0 := mkCell kPrimNot 16; 8 := mkCell kPrimInt 7; 12 := mkCell kPrimShort 65535]} [].
Definition ints : TObject := mkObject (Some kPrimInt) {[0 := mkCell kPrimNot 32]} [5; 6].
Definition floats : TObject := mkObject (Some kPrimFloat) {[0 := mkCell kPrimNot 48]} [0x3f800000].
Definition start : World :=
  mkWorld {[100 := thing; 200 := ints; 300 := floats]} {[400 := {[3 := mkPair None 0]}]} None.
Definition ops : list Op :=
  [OSetField k32Bits false 100 8 (-1); OSetField kShort true 100 12 3; OCasField k32Bits false 100 8 (-1) 9;
   OSetElement kPrimInt 200 1 77; OResolveString 400 3 500; OAllocate 600 ints; OFillArrayData 600 4 [1; 2];
   OAbort [65]].

Lemma wf_start : heap_wf (heap start).
Proof.
  intros obj o Ho. unfold start in Ho. cbn [heap] in Ho.
  repeat (apply lookup_insert_Some in Ho as [[<- <-]|[_ Ho]]); [..|apply lookup_singleton_Some in Ho as [<- <-]].
  all: split; [intros off c Hc; cbn [fields thing ints floats] in Hc;
    repeat (apply lookup_insert_Some in Hc as [[<- <-]|[_ Hc]]); try (apply lookup_singleton_Some in Hc as [<- <-]);
    by (split; [vm_compute; intuition discriminate|])|].
  all: intros type Ht; cbn in Ht; simplify_eq; intros i b Hb; cbn in Hb; repeat (destruct i as [|i]; cbn in Hb; simplify_eq);
    vm_compute; intuition discriminate.
Qed.
End SampleTransaction.

Lemma rollback_restores_heap_witness :
  exists w t w2 t' w' o, run (heap SampleTransaction.start) SampleTransaction.ops (entered SampleTransaction.start) = Some w /\
  get_cell w 100 8 = Some (mkCell kPrimInt 9) /\ ExitTransactionMode w = Some (t, w2) /\ Rollback t w2 = Some (t', w') /\
  heap w' !! 100 = Some o /\ fields o !! 8 = Some (mkCell kPrimInt 7) /\ GetResolvedString 400 3 w' = Some None.
Proof.
  destruct (run (heap SampleTransaction.start) SampleTransaction.ops (entered SampleTransaction.start)) as [w|] eqn:E.
  2:{ exfalso. vm_compute in E. discriminate. }
  destruct (rollback_restores_heap SampleTransaction.start (entered SampleTransaction.start) w SampleTransaction.ops
    SampleTransaction.wf_start eq_refl E) as (t & w2 & t' & w' & H1 & H2 & _ & H3 & H4).
  destruct (H3 100 SampleTransaction.thing eq_refl) as (o & Ho & _ & _ & Hf).
  exists w, t, w2, t', w', o. split; [done|].
  assert (Hw : get_cell w 100 8 = Some (mkCell kPrimInt 9) /\
    (exists t0, transaction w = Some t0 /\ resolve_string_logs_ t0 = [(400, 3)])).
  { vm_compute in E. injection E as <-. split; [reflexivity|]. eexists. split; reflexivity. }
  destruct Hw as (Hw & t0 & Ht0 & Hl). split; [exact Hw|]. split; [exact H1|]. split; [exact H2|]. split; [exact Ho|].
  split; [rewrite (Hf 8 eq_refl); reflexivity|]. apply H4. unfold ExitTransactionMode in H1. rewrite Ht0 in H1.
  injection H1 as <- <-. rewrite Hl. by left.
Defined.

Lemma failed_cas_overwrites_witness :
  exists w t w2 t' w', CasField k32Bits false 100 8 5 6 (entered SampleTransaction.start) = Some (w, false) /\
  heap w = heap SampleTransaction.start /\ ExitTransactionMode w = Some (t, w2) /\ Rollback t w2 = Some (t', w') /\
  get_cell w' 100 8 = Some (mkCell kPrimInt 5).
Proof.
  apply (failed_cas_overwrites SampleTransaction.start 100 SampleTransaction.thing 8 (mkCell kPrimInt 7) k32Bits false 5 6).
  - reflexivity.
  - reflexivity.
  - reflexivity.
  - by left.
  - reflexivity.
  - discriminate.
Defined.

Lemma float_elements_converted_witness :
  exists w t w2 t' w' o', SetWithoutChecks kPrimInt 300 0 0 (entered SampleTransaction.start) = Some w /\
  ExitTransactionMode w = Some (t, w2) /\ Rollback t w2 = Some (t', w') /\ heap w' !! 300 = Some o' /\
  elements o' !! 0%nat = Some 0x4e7e0000.
Proof.
  destruct (float_elements_converted SampleTransaction.start 300 SampleTransaction.floats 0 0x3f800000 0)
    as (w & t & w2 & t' & w' & o' & H1 & H2 & H3 & H4 & _ & H5); try reflexivity; try lia.
  exists w, t, w2, t', w', o'. split_and!; try done. by apply H5.
Defined.

Lemma filled_array_keeps_data_witness :
  exists w t w2 t' w' o', FILL_ARRAY_DATA 200 4 [8; 9] (entered SampleTransaction.start) = Some (w, true) /\
  ExitTransactionMode w = Some (t, w2) /\ Rollback t w2 = Some (t', w') /\ heap w' !! 200 = Some o' /\ elements o' = [8; 9].
Proof.
  destruct (FILL_ARRAY_DATA 200 4 [8; 9] (entered SampleTransaction.start)) as [[w r]|] eqn:E.
  2:{ exfalso. vm_compute in E. discriminate. }
  assert (r = true) as -> by (vm_compute in E; by injection E).
  destruct (filled_array_keeps_data SampleTransaction.start 200 SampleTransaction.ints kPrimInt 4 [8; 9] w
    SampleTransaction.wf_start eq_refl eq_refl eq_refl E) as (t & w2 & t' & w' & o' & H1 & H2 & H3 & H4).
  exists w, t, w2, t', w', o'. split_and!; try done.
Defined.

Lemma logs_follow_objects_witness :
  exists t', Transaction_VisitRoots (heap SampleTransaction.start) (fun x => x + 1000)
    (RecordWriteField k32Bits 100 8 7 false (RecordWriteArray 200 0 5 new_transaction)) = Some t' /\
  is_Some (object_logs_ t' !! 1100) /\ array_logs_ t' !! 1200 = Some {[0 := 5]}.
Proof.
  destruct (logs_follow_objects (heap SampleTransaction.start) (fun x => x + 1000)
    (RecordWriteField k32Bits 100 8 7 false (RecordWriteArray 200 0 5 new_transaction))) as (t' & H1 & H2 & H3 & _).
  - split; [intros; lia|]. intros r [l Hl] _. cbn in Hl. apply lookup_singleton_Some in Hl as [<- _]. reflexivity.
  - split; [intros; lia|]. intros r [l Hl] _. cbn in Hl. apply lookup_singleton_Some in Hl as [<- _]. reflexivity.
  - intros r l Hl. cbn in Hl. apply lookup_singleton_Some in Hl as [<- _]. exists SampleTransaction.ints. by split.
  - exists t'. split; [exact H1|]. split.
    + destruct (H2 100 _ eq_refl) as (log' & Hl & _). by exists log'.
    + by apply (H3 200 _ eq_refl).
Defined.
