(* ===== verification/RegType.v ===== *)
(** * Register types ([runtime/verifier/reg_type.h], [reg_type-inl.h],
      [reg_type.cc], [reg_type_cache.h], [reg_type_cache-inl.h],
      [reg_type_cache.cc])

    The types the data flow pass of the method verifier gives to registers, the
    cache that hands them out, assignability and the merge of two types where
    paths join.  A [const RegType&] is the position of its entry in the cache
    with the entry's contents; its 16-bit id is that position.  The class linker
    is a parameter. *)
From Stdlib Require Import String Ascii.
From stdpp Require Import gmap.
From S2P Require Import Prelude Utf Descriptors MirrorClass.

(** ** What the verifier asks of the class linker *)

Record ClassLinker := {
  classes : ClassTable;
  primitive_class : Primitive -> Z;
  GetJavaLangClass : Z;
  GetJavaLangString : Z;
  GetJavaLangThrowable : Z;
  FindClass_linker : string -> option Z;
  LookupClass : string -> option Z;
  ResolveType : Z -> option Z;
  LookupResolvedType : Z -> option Z;
  FindArrayClass : Z -> option Z
}.

(** ** Types *)

(** One constructor per class below [RegType]; [resolved_part] is the position
    of the resolved part, [unresolved_types] the ids in the bit vector. *)
Inductive RegKind :=
| UndefinedType | ConflictType | BooleanType | ByteType | ShortType | CharType | IntegerType
| LongLoType | LongHiType | FloatType | DoubleLoType | DoubleHiType
| PreciseConstType (constant : Z)
| ImpreciseConstType (constant : Z)
| PreciseConstLoType (constant : Z)
| ImpreciseConstLoType (constant : Z)
| PreciseConstHiType (constant : Z)
| ImpreciseConstHiType (constant : Z)
| UninitializedReferenceType (klass : Z) (descriptor : string) (allocation_pc : Z)
| UnresolvedUninitializedRefType (descriptor : string) (allocation_pc : Z)
| UninitializedThisReferenceType (klass : Z) (descriptor : string)
| UnresolvedUninitializedThisRefType (descriptor : string)
| ReferenceType (klass : Z) (descriptor : string)
| PreciseReferenceType (klass : Z) (descriptor : string)
| UnresolvedReferenceType (descriptor : string)
| UnresolvedSuperClass (unresolved_child_id : Z)
| UnresolvedMergedType (resolved_part : nat) (unresolved_types : gset Z).

Record RegType := { position : nat; kind : RegKind }.

Definition GetId (t : RegType) : Z := u16 (Z.of_nat (position t)).
Definition Equals (t u : RegType) : bool := GetId t =? GetId u.
(** [&t == &u] *)
Definition same_object (t u : RegType) : bool := (position t =? position u)%nat.

(** ** Predicates *)

Section Kinds.
Context (k : RegKind).

Definition IsUndefined : bool := match k with UndefinedType => true | _ => false end.
Definition IsConflict : bool := match k with ConflictType => true | _ => false end.
Definition IsBoolean : bool := match k with BooleanType => true | _ => false end.
Definition IsByte : bool := match k with ByteType => true | _ => false end.
Definition IsShort : bool := match k with ShortType => true | _ => false end.
Definition IsChar : bool := match k with CharType => true | _ => false end.
Definition IsInteger : bool := match k with IntegerType => true | _ => false end.
Definition IsFloat : bool := match k with FloatType => true | _ => false end.
Definition IsLongLo : bool := match k with LongLoType => true | _ => false end.
Definition IsLong : bool := IsLongLo.
Definition IsLongHi : bool := match k with LongHiType => true | _ => false end.
Definition IsDoubleLo : bool := match k with DoubleLoType => true | _ => false end.
Definition IsDouble : bool := IsDoubleLo.
Definition IsDoubleHi : bool := match k with DoubleHiType => true | _ => false end.
Definition IsPreciseConstant : bool := match k with PreciseConstType _ => true | _ => false end.
Definition IsImpreciseConstant : bool := match k with ImpreciseConstType _ => true | _ => false end.
Definition IsPreciseConstantLo : bool := match k with PreciseConstLoType _ => true | _ => false end.
Definition IsImpreciseConstantLo : bool :=
  match k with ImpreciseConstLoType _ => true | _ => false end.
Definition IsPreciseConstantHi : bool := match k with PreciseConstHiType _ => true | _ => false end.
Definition IsImpreciseConstantHi : bool :=
  match k with ImpreciseConstHiType _ => true | _ => false end.
Definition IsReference : bool := match k with ReferenceType _ _ => true | _ => false end.
Definition IsPreciseReference : bool :=
  match k with PreciseReferenceType _ _ => true | _ => false end.
Definition IsUninitializedReference : bool :=
  match k with UninitializedReferenceType _ _ _ => true | _ => false end.
Definition IsUninitializedThisReference : bool :=
  match k with UninitializedThisReferenceType _ _ => true | _ => false end.
Definition IsUnresolvedAndUninitializedReference : bool :=
  match k with UnresolvedUninitializedRefType _ _ => true | _ => false end.
Definition IsUnresolvedAndUninitializedThisReference : bool :=
  match k with UnresolvedUninitializedThisRefType _ => true | _ => false end.
Definition IsUnresolvedReference : bool :=
  match k with UnresolvedReferenceType _ => true | _ => false end.
Definition IsUnresolvedSuperClass : bool :=
  match k with UnresolvedSuperClass _ => true | _ => false end.
Definition IsUnresolvedMergedReference : bool :=
  match k with UnresolvedMergedType _ _ => true | _ => false end.

Definition IsConstant : bool := IsImpreciseConstant || IsPreciseConstant.
Definition IsConstantLo : bool := IsImpreciseConstantLo || IsPreciseConstantLo.
Definition IsConstantHi : bool := IsPreciseConstantHi || IsImpreciseConstantHi.
Definition IsPrecise : bool := IsPreciseConstantLo || IsPreciseConstant || IsPreciseConstantHi.
Definition IsLongConstant : bool := IsConstantLo.
Definition IsConstantTypes : bool := IsConstant || IsConstantLo || IsConstantHi.

(** [constant_] *)
Definition ConstantValue : Z :=
  match k with
  | PreciseConstType c | ImpreciseConstType c | PreciseConstLoType c | ImpreciseConstLoType c
  | PreciseConstHiType c | ImpreciseConstHiType c => c
  | _ => 0
  end.

Definition IsZero : bool := IsPreciseConstant && (ConstantValue =? 0).
Definition IsOne : bool := IsPreciseConstant && (ConstantValue =? 1).
Definition IsConstantChar : bool :=
  IsConstant && (0 <=? ConstantValue) && (ConstantValue <=? 65535).
Definition IsConstantByte : bool :=
  IsConstant && (-128 <=? ConstantValue) && (ConstantValue <=? 127).
Definition IsConstantShort : bool :=
  IsConstant && (-32768 <=? ConstantValue) && (ConstantValue <=? 32767).
Definition IsConstantBoolean : bool :=
  IsConstant && (0 <=? ConstantValue) && (ConstantValue <=? 1).

Definition IsUninitializedTypes : bool :=
  IsUninitializedReference || IsUnresolvedAndUninitializedReference
  || IsUninitializedThisReference || IsUnresolvedAndUninitializedThisReference.
Definition IsUnresolvedTypes : bool :=
  IsUnresolvedAndUninitializedReference || IsUnresolvedAndUninitializedThisReference
  || IsUnresolvedReference || IsUnresolvedSuperClass || IsUnresolvedMergedReference.
Definition IsNonZeroReferenceTypes : bool :=
  IsUninitializedTypes || IsReference || IsPreciseReference || IsUnresolvedReference
  || IsUnresolvedSuperClass || IsUnresolvedMergedReference.
Definition IsReferenceTypes : bool := IsNonZeroReferenceTypes || IsZero.

Definition IsLowHalf : bool :=
  IsLongLo || IsDoubleLo || IsPreciseConstantLo || IsImpreciseConstantLo.
Definition IsHighHalf : bool :=
  IsLongHi || IsDoubleHi || IsPreciseConstantHi || IsImpreciseConstantHi.
Definition IsCategory1Types : bool :=
  IsChar || IsInteger || IsFloat || IsConstant || IsByte || IsShort || IsBoolean.
Definition IsCategory2Types : bool := IsLowHalf.
Definition IsBooleanTypes : bool := IsBoolean || IsConstantBoolean.
Definition IsByteTypes : bool := IsConstantByte || IsByte || IsBoolean.
Definition IsShortTypes : bool := IsShort || IsByte || IsBoolean || IsConstantShort.
Definition IsCharTypes : bool := IsChar || IsBooleanTypes || IsConstantChar.
Definition IsIntegralTypes : bool :=
  IsInteger || IsConstant || IsByte || IsShort || IsChar || IsBoolean.
Definition IsArrayIndexTypes : bool := IsIntegralTypes.
Definition IsFloatTypes : bool := IsFloat || IsConstant.
Definition IsLongTypes : bool := IsLongLo || IsLongConstant.
Definition IsLongHighTypes : bool := IsLongHi || IsPreciseConstantHi || IsImpreciseConstantHi.
Definition IsDoubleTypes : bool := IsDoubleLo || IsLongConstant.
Definition IsDoubleHighTypes : bool := IsDoubleHi || IsPreciseConstantHi || IsImpreciseConstantHi.

(** [descriptor_] *)
Definition descriptor_of : string :=
  match k with
  | BooleanType => "Z" | ByteType => "B" | ShortType => "S" | CharType => "C"
  | IntegerType => "I" | LongLoType | LongHiType => "J" | FloatType => "F"
  | DoubleLoType | DoubleHiType => "D"
  | UninitializedReferenceType _ d _ | UnresolvedUninitializedRefType d _
  | UninitializedThisReferenceType _ d | UnresolvedUninitializedThisRefType d
  | ReferenceType _ d | PreciseReferenceType _ d | UnresolvedReferenceType d => d
  | _ => EmptyString
  end.

Definition GetPrimitiveType : Primitive :=
  if IsNonZeroReferenceTypes then kPrimNot
  else if IsBooleanTypes then kPrimBoolean
  else if IsByteTypes then kPrimByte
  else if IsShortTypes then kPrimShort
  else if IsCharTypes then kPrimChar
  else if IsFloat then kPrimFloat
  else if IsIntegralTypes then kPrimInt
  else if IsDoubleLo then kPrimDouble
  else kPrimLong.
End Kinds.

Definition CheckWidePair (lo hi : RegKind) : bool :=
  if IsLowHalf lo then
    (IsImpreciseConstantLo lo && IsPreciseConstantHi hi)
    || (IsImpreciseConstantLo lo && IsImpreciseConstantHi hi)
    || (IsPreciseConstantLo lo && IsPreciseConstantHi hi)
    || (IsPreciseConstantLo lo && IsImpreciseConstantHi hi)
    || (IsDoubleLo lo && IsDoubleHi hi)
    || (IsLongLo lo && IsLongHi hi)
  else false.

Inductive AssignmentType :=
| kBoolean | kByte | kShort | kChar | kInteger | kFloat | kLongLo | kDoubleLo
| kConflict | kReference | kNotAssignable.

Definition GetAssignmentType (k : RegKind) : AssignmentType :=
  match k with
  | ConflictType => kConflict
  | BooleanType => kBoolean | ByteType => kByte | ShortType => kShort | CharType => kChar
  | IntegerType => kInteger | FloatType => kFloat
  | LongLoType => kLongLo | DoubleLoType => kDoubleLo
  | UndefinedType | LongHiType | DoubleHiType => kNotAssignable
  | PreciseConstType _ | ImpreciseConstType _ | PreciseConstLoType _ | ImpreciseConstLoType _
  | PreciseConstHiType _ | ImpreciseConstHiType _ => kNotAssignable
  | _ => kReference
  end.

Definition SelectNonConstant (a b : RegType) : RegType :=
  if IsConstantTypes (kind a) then b else a.

(** ** The cache *)

Record RegTypeCache := {
  entries_ : list RegKind;
  klass_entries_ : list (Z * nat)
}.

Definition kMinSmallConstant : Z := -1.
Definition kMaxSmallConstant : Z := 4.
Definition primitive_count_ : nat := 18.

(** [FillPrimitiveAndSmallConstantTypes] *)
Definition FillPrimitiveAndSmallConstantTypes : list RegKind :=
  [UndefinedType; ConflictType; BooleanType; ByteType; ShortType; CharType; IntegerType;
   LongLoType; LongHiType; FloatType; DoubleLoType; DoubleHiType]
  ++ map (fun i => PreciseConstType (kMinSmallConstant + Z.of_nat i)) (seq 0 6).
Definition new_cache : RegTypeCache :=
  {| entries_ := FillPrimitiveAndSmallConstantTypes; klass_entries_ := [] |}.

Definition Undefined : RegType := {| position := 0; kind := UndefinedType |}.
Definition Conflict : RegType := {| position := 1; kind := ConflictType |}.
Definition Boolean : RegType := {| position := 2; kind := BooleanType |}.
Definition Byte : RegType := {| position := 3; kind := ByteType |}.
Definition Short : RegType := {| position := 4; kind := ShortType |}.
Definition Char : RegType := {| position := 5; kind := CharType |}.
Definition Integer : RegType := {| position := 6; kind := IntegerType |}.
Definition LongLo : RegType := {| position := 7; kind := LongLoType |}.
Definition LongHi : RegType := {| position := 8; kind := LongHiType |}.
Definition Float : RegType := {| position := 9; kind := FloatType |}.
Definition DoubleLo : RegType := {| position := 10; kind := DoubleLoType |}.
Definition DoubleHi : RegType := {| position := 11; kind := DoubleHiType |}.
(** [*small_precise_constants_[value - kMinSmallConstant]] *)
Definition small_precise_constant (value : Z) : RegType :=
  {| position := Z.to_nat (12 + (value - kMinSmallConstant)); kind := PreciseConstType value |}.
Definition Zero : RegType := small_precise_constant 0.
Definition One : RegType := small_precise_constant 1.

(** Computations on the cache; [None] is a null dereference, an access out of
    bounds or [LOG(FATAL)]. *)
Definition C (A : Type) : Type := RegTypeCache -> option (A * RegTypeCache).
#[export] Instance C_ret : MRet C := fun A a c => Some (a, c).
#[export] Instance C_bind : MBind C := fun A B k m c =>
  match m c with Some (a, c) => k a c | None => None end.
Definition liftC {A} (o : option A) : C A := fun c =>
  match o with Some a => Some (a, c) | None => None end.

Definition GetFromId (id : Z) : C RegType := fun c =>
  match entries_ c !! Z.to_nat id with
  | Some k => Some ({| position := Z.to_nat id; kind := k |}, c)
  | None => None
  end.

(** [for (i = primitive_count_; i < entries_.size(); i++) if (found) return *entries_[i]] *)
Fixpoint find_from (i : nat) (l : list RegKind) (found : RegKind -> bool) : option RegType :=
  match l with
  | [] => None
  | k :: l => if found k then Some {| position := i; kind := k |} else find_from (S i) l found
  end.
Definition find_entry (c : RegTypeCache) (found : RegKind -> bool) : option RegType :=
  find_from primitive_count_ (drop primitive_count_ (entries_ c)) found.

Section Cache.
Context (LK : ClassLinker) (can_load_classes_ : bool).
Notation CT := (classes LK).

(** [klass_] *)
Definition GetClass (k : RegKind) : option Z :=
  match k with
  | BooleanType => Some (primitive_class LK kPrimBoolean)
  | ByteType => Some (primitive_class LK kPrimByte)
  | ShortType => Some (primitive_class LK kPrimShort)
  | CharType => Some (primitive_class LK kPrimChar)
  | IntegerType => Some (primitive_class LK kPrimInt)
  | LongLoType | LongHiType => Some (primitive_class LK kPrimLong)
  | FloatType => Some (primitive_class LK kPrimFloat)
  | DoubleLoType | DoubleHiType => Some (primitive_class LK kPrimDouble)
  | UninitializedReferenceType klass _ _ | UninitializedThisReferenceType klass _
  | ReferenceType klass _ | PreciseReferenceType klass _ => Some klass
  | _ => None
  end.
Definition HasClass (k : RegKind) : bool := bool_decide (GetClass k <> None).
(** A test on the class of a type that has one. *)
Definition class_test (test : Z -> bool) (k : RegKind) : bool :=
  match GetClass k with Some klass => test klass | None => false end.

Definition AddEntry (new_entry : RegKind) : C RegType := fun c =>
  let i := length (entries_ c) in
  Some ({| position := i; kind := new_entry |},
        {| entries_ := entries_ c ++ [new_entry];
           klass_entries_ := klass_entries_ c ++
             match GetClass new_entry with Some klass => [(klass, i)] | None => [] end |}).

(** Search, and add an entry if there is none. *)
Definition find_or_add (found : RegKind -> bool) (new_entry : RegKind) : C RegType := fun c =>
  match find_entry c found with
  | Some t => Some (t, c)
  | None => AddEntry new_entry c
  end.

(** *** Constants *)

Definition is_cat1_constant (value : Z) (precise : bool) (k : RegKind) : bool :=
  IsConstant k && eqb (IsPreciseConstant k) precise && (ConstantValue k =? value).
Definition FromCat1NonSmallConstant (value : Z) (precise : bool) : C RegType :=
  find_or_add (is_cat1_constant value precise)
    (if precise then PreciseConstType value else ImpreciseConstType value).
Definition FromCat1Const (value : Z) (precise : bool) : C RegType :=
  if precise && (kMinSmallConstant <=? value) && (value <=? kMaxSmallConstant)
  then mret (small_precise_constant value)
  else FromCat1NonSmallConstant value precise.

Definition FromCat2ConstLo (value : Z) (precise : bool) : C RegType :=
  find_or_add (fun k => IsConstantLo k && eqb (IsPrecise k) precise && (ConstantValue k =? value))
    (if precise then PreciseConstLoType value else ImpreciseConstLoType value).
Definition FromCat2ConstHi (value : Z) (precise : bool) : C RegType :=
  find_or_add (fun k => IsConstantHi k && eqb (IsPrecise k) precise && (ConstantValue k =? value))
    (if precise then PreciseConstHiType value else ImpreciseConstHiType value).

Definition ByteConstant : C RegType := FromCat1Const (-128) false.
Definition CharConstant : C RegType := FromCat1Const 65535 false.
Definition ShortConstant : C RegType := FromCat1Const (-32768) false.
Definition IntConstant : C RegType := FromCat1Const (2 ^ 31 - 1) false.
Definition PosByteConstant : C RegType := FromCat1Const 127 false.
Definition PosShortConstant : C RegType := FromCat1Const 32767 false.

(** *** Classes *)

Definition RegTypeFromPrimitiveType (prim_type : Primitive) : RegType :=
  match prim_type with
  | kPrimBoolean => Boolean | kPrimByte => Byte | kPrimShort => Short | kPrimChar => Char
  | kPrimInt => Integer | kPrimLong => LongLo | kPrimFloat => Float | kPrimDouble => DoubleLo
  | kPrimVoid | kPrimNot => Conflict
  end.

Definition MatchingPrecisionForClass (k : RegKind) (precise : bool) : bool :=
  eqb (IsPreciseReference k) precise
  || (negb precise && class_test (CannotBeAssignedFromOtherTypes CT) k).

Fixpoint find_klass_entry (entries : list RegKind) (l : list (Z * nat)) (klass : Z) (precise : bool)
    : option RegType :=
  match l with
  | [] => None
  | (reg_klass, i) :: l =>
      match entries !! i with
      | Some k =>
          if (reg_klass =? klass) && MatchingPrecisionForClass k precise
          then Some {| position := i; kind := k |}
          else find_klass_entry entries l klass precise
      | None => find_klass_entry entries l klass precise
      end
  end.
Definition FindClass (klass : Z) (precise : bool) (c : RegTypeCache) : option RegType :=
  if IsPrimitive CT klass then Some (RegTypeFromPrimitiveType (GetPrimitiveTypeOf CT klass))
  else find_klass_entry (entries_ c) (klass_entries_ c) klass precise.

Definition InsertClass (descriptor : string) (klass : Z) (precise : bool) : C RegType :=
  AddEntry (if precise then PreciseReferenceType klass descriptor
            else ReferenceType klass descriptor).

Definition FromClass (descriptor : string) (klass : Z) (precise : bool) : C RegType := fun c =>
  match FindClass klass precise c with
  | Some t => Some (t, c)
  | None => InsertClass descriptor klass precise c
  end.

Definition JavaLangClass : C RegType := FromClass "Ljava/lang/Class;" (GetJavaLangClass LK) true.
Definition JavaLangString : C RegType :=
  FromClass "Ljava/lang/String;" (GetJavaLangString LK) true.
Definition JavaLangThrowable (precise : bool) : C RegType :=
  FromClass "Ljava/lang/Throwable;" (GetJavaLangThrowable LK) precise.
Definition JavaLangObject (precise : bool) : C RegType :=
  klass ← liftC (GetSuperClass CT (GetJavaLangClass LK));
  FromClass "Ljava/lang/Object;" klass precise.

(** *** Descriptors *)

Definition MatchDescriptor (descriptor : string) (precise : bool) (k : RegKind) : bool :=
  if negb (String.eqb descriptor (descriptor_of k)) then false
  else if HasClass k then MatchingPrecisionForClass k precise
  else true.

Definition ResolveClass (descriptor : string) : option Z :=
  if can_load_classes_ then FindClass_linker LK descriptor
  else
    match LookupClass LK descriptor with
    | Some klass => if IsResolved CT klass then Some klass else None
    | None => None
    end.

Definition From (descriptor : string) (precise : bool) : C RegType := fun c =>
  match find_entry c (MatchDescriptor descriptor precise) with
  | Some t => Some (t, c)
  | None =>
      match ResolveClass descriptor with
      | Some klass =>
          AddEntry (if CannotBeAssignedFromOtherTypes CT klass || precise
                    then PreciseReferenceType klass descriptor
                    else ReferenceType klass descriptor) c
      | None =>
          match IsValidDescriptor (bytes_of descriptor) with
          | Some true => AddEntry (UnresolvedReferenceType descriptor) c
          | Some false => Some (Conflict, c)
          | None => None
          end
      end
  end.

Definition FromDescriptor (descriptor : string) (precise : bool) : C RegType :=
  match descriptor with
  | EmptyString => liftC None
  | String c0 EmptyString =>
      mret (if Ascii.eqb c0 "Z"%char then Boolean
            else if Ascii.eqb c0 "B"%char then Byte
            else if Ascii.eqb c0 "S"%char then Short
            else if Ascii.eqb c0 "C"%char then Char
            else if Ascii.eqb c0 "I"%char then Integer
            else if Ascii.eqb c0 "J"%char then LongLo
            else if Ascii.eqb c0 "F"%char then Float
            else if Ascii.eqb c0 "D"%char then DoubleLo
            else Conflict)
  | String c0 _ =>
      if Ascii.eqb c0 "L"%char || Ascii.eqb c0 "["%char then From descriptor precise
      else mret Conflict
  end.

Definition MakeUnresolvedReference : C RegType := AddEntry (UnresolvedReferenceType "a").

(** ** Arrays *)

(** [descriptor_[0] == '['] *)
Definition is_array_descriptor (d : string) : bool :=
  match d with String c _ => Ascii.eqb c "["%char | EmptyString => false end.

Definition is_object_array_class (klass : Z) : bool :=
  match GetComponentType CT klass with Some ct => negb (IsPrimitive CT ct) | None => false end.

(** [RegType::IsArrayTypes] and [RegType::IsObjectArrayTypes], which merges
    override below. *)
Definition base_IsArrayTypes (k : RegKind) : bool :=
  if IsUnresolvedTypes k then
    if IsUnresolvedSuperClass k then false else is_array_descriptor (descriptor_of k)
  else class_test (IsArrayClass CT) k.
Definition base_IsObjectArrayTypes (k : RegKind) : bool :=
  if IsUnresolvedTypes k then
    if IsUnresolvedSuperClass k then false else is_array_descriptor (descriptor_of k)
  else class_test is_object_array_class k.

(** [GetHighestBitSet] *)
Definition GetHighestBitSet (ids : gset Z) : Z := set_fold Z.max (-1) ids.

(** [UnresolvedMergedType::IsArrayTypes]; the parts of a merge are not merges. *)
Definition merged_IsArrayTypes (es : list RegKind) (resolved : nat) (ids : gset Z) : bool :=
  match es !! resolved with
  | Some r =>
      if negb (IsZero r) && negb (base_IsArrayTypes r) then false
      else
        match es !! Z.to_nat (GetHighestBitSet ids) with
        | Some u => base_IsArrayTypes u
        | None => false
        end
  | None => false
  end.
Definition IsArrayTypes (es : list RegKind) (k : RegKind) : bool :=
  match k with
  | UnresolvedMergedType resolved ids => merged_IsArrayTypes es resolved ids
  | _ => base_IsArrayTypes k
  end.
Definition IsObjectArrayTypes (es : list RegKind) (k : RegKind) : bool :=
  match k with
  | UnresolvedMergedType resolved ids => merged_IsArrayTypes es resolved ids
  | _ => base_IsObjectArrayTypes k
  end.

Definition IsJavaLangObject (k : RegKind) : bool :=
  IsReference k && class_test (IsObjectClass CT) k.
Definition IsJavaLangObjectArray (k : RegKind) : bool :=
  class_test (fun klass =>
    match GetComponentType CT klass with Some ct => IsObjectClass CT ct | None => false end) k.
Definition IsInstantiableTypes (k : RegKind) : bool :=
  IsUnresolvedTypes k || (IsNonZeroReferenceTypes k && class_test (IsInstantiable CT) k).

(** ** Access and assignability *)

Definition RegType_CanAccess (this other : RegType) : option bool :=
  if Equals this other then Some true
  else
    let this_unresolved := IsUnresolvedTypes (kind this) in
    let other_unresolved := IsUnresolvedTypes (kind other) in
    if negb this_unresolved && negb other_unresolved then
      match GetClass (kind this), GetClass (kind other) with
      | Some k1, Some k2 => Some (CanAccess CT k1 k2)
      | _, _ => None
      end
    else if negb other_unresolved then
      match GetClass (kind other) with Some k => Some (IsPublic CT k) | None => None end
    else Some false.

(** The reference case of [AssignableFrom]. *)
Definition reference_assignable (es : list RegKind) (lhs rhs : RegKind) (strict : bool) : bool :=
  if IsZero rhs then true
  else if negb (IsReferenceTypes rhs) then false
  else if IsUninitializedTypes lhs || IsUninitializedTypes rhs then false
  else if IsJavaLangObject lhs then true
  else if negb strict && negb (IsUnresolvedTypes lhs) && class_test (IsInterface CT) lhs then true
  else if IsJavaLangObjectArray lhs then IsObjectArrayTypes es rhs
  else
    match GetClass lhs, GetClass rhs with
    | Some l, Some r => IsAssignableFrom CT l r
    | _, _ => false
    end.

Definition AssignableFrom (es : list RegKind) (lhs rhs : RegType) (strict : bool) : option bool :=
  if Equals lhs rhs then Some true
  else
    let r := kind rhs in
    match GetAssignmentType (kind lhs) with
    | kBoolean => Some (IsBooleanTypes r)
    | kByte => Some (IsByteTypes r)
    | kShort => Some (IsShortTypes r)
    | kChar => Some (IsCharTypes r)
    | kInteger => Some (IsIntegralTypes r)
    | kFloat => Some (IsFloatTypes r)
    | kLongLo => Some (IsLongTypes r)
    | kDoubleLo => Some (IsDoubleTypes r)
    | kConflict => Some false
    | kReference => Some (reference_assignable es (kind lhs) r strict)
    | kNotAssignable => None
    end.

Definition RegType_IsAssignableFrom (lhs rhs : RegType) : C bool := fun c =>
  match AssignableFrom (entries_ c) lhs rhs false with Some b => Some (b, c) | None => None end.
Definition IsStrictlyAssignableFrom (lhs rhs : RegType) : C bool := fun c =>
  match AssignableFrom (entries_ c) lhs rhs true with Some b => Some (b, c) | None => None end.

(** ** Derived types *)

Definition HighHalf (t : RegType) : C RegType :=
  if IsLongLo (kind t) then mret LongHi
  else if IsDoubleLo (kind t) then mret DoubleHi
  else FromCat2ConstHi (ConstantValue (kind t)) false.

Definition Uninitialized (type : RegType) (allocation_pc : Z) : C RegType :=
  let descriptor := descriptor_of (kind type) in
  if IsUnresolvedTypes (kind type) then
    find_or_add (fun k =>
        match k with
        | UnresolvedUninitializedRefType d pc => (pc =? allocation_pc) && String.eqb d descriptor
        | _ => false
        end) (UnresolvedUninitializedRefType descriptor allocation_pc)
  else
    klass ← liftC (GetClass (kind type));
    find_or_add (fun k =>
        match k with
        | UninitializedReferenceType klass' _ pc => (pc =? allocation_pc) && (klass' =? klass)
        | _ => false
        end) (UninitializedReferenceType klass descriptor allocation_pc).

Definition UninitializedThisArgument (type : RegType) : C RegType :=
  let descriptor := descriptor_of (kind type) in
  if IsUnresolvedTypes (kind type) then
    find_or_add (fun k =>
        match k with
        | UnresolvedUninitializedThisRefType d => String.eqb d descriptor
        | _ => false
        end) (UnresolvedUninitializedThisRefType descriptor)
  else
    klass ← liftC (GetClass (kind type));
    find_or_add (fun k =>
        match k with
        | UninitializedThisReferenceType klass' _ => klass' =? klass
        | _ => false
        end) (UninitializedThisReferenceType klass descriptor).

Definition FromUninitialized (uninit_type : RegType) : C RegType :=
  let k := kind uninit_type in
  if IsUnresolvedTypes k then
    find_or_add (fun e =>
        match e with UnresolvedReferenceType d => String.eqb d (descriptor_of k) | _ => false end)
      (UnresolvedReferenceType (descriptor_of k))
  else
    klass ← liftC (GetClass k);
    if IsUninitializedThisReference k && negb (IsFinal CT klass) then
      find_or_add (fun e => match e with ReferenceType klass' _ => klass' =? klass | _ => false end)
        (ReferenceType klass EmptyString)
    else if negb (IsPrimitive CT klass) then
      find_or_add (fun e =>
          match e with PreciseReferenceType klass' _ => klass' =? klass | _ => false end)
        (PreciseReferenceType klass (descriptor_of k))
    else mret Conflict.

Definition FromUnresolvedSuperClass (child : RegType) : C RegType :=
  find_or_add (fun e => match e with UnresolvedSuperClass id => id =? GetId child | _ => false end)
    (UnresolvedSuperClass (GetId child)).

Definition RegType_GetSuperClass (t : RegType) : C RegType :=
  let k := kind t in
  if negb (IsUnresolvedTypes k) then
    klass ← liftC (GetClass k);
    match GetSuperClass CT klass with
    | Some super_klass => FromClass (GetDescriptor CT super_klass) super_klass false
    | None => mret Zero
    end
  else if negb (IsUnresolvedMergedReference k) && negb (IsUnresolvedSuperClass k)
          && is_array_descriptor (descriptor_of k)
  then JavaLangObject true
  else FromUnresolvedSuperClass t.

(** [descriptor.c_str() + 1] *)
Definition skip_first (d : string) : string := match d with String _ d => d | EmptyString => d end.

Definition RegType_GetComponentType (array : RegType) : C RegType := fun c =>
  let k := kind array in
  if negb (IsArrayTypes (entries_ c) k) then Some (Conflict, c)
  else if IsUnresolvedTypes k then FromDescriptor (skip_first (descriptor_of k)) false c
  else
    match GetClass k with
    | Some array_klass =>
        match GetComponentType CT array_klass with
        | Some klass =>
            let descriptor := GetDescriptor CT klass in
            if IsErroneous CT klass then FromDescriptor descriptor false c
            else FromClass descriptor klass (CannotBeAssignedFromOtherTypes CT klass) c
        | None => None
        end
    | None => None
    end.

(** ** Merging *)

(** Both types are constants of 32 bits. *)
Definition merge_constants (type1 type2 : RegType) : C RegType :=
  let val1 := ConstantValue (kind type1) in
  let val2 := ConstantValue (kind type2) in
  let keep (t : RegType) :=
    if negb (IsPreciseConstant (kind t)) then mret t
    else FromCat1Const (ConstantValue (kind t)) false in
  if (0 <=? val1) && (0 <=? val2) then
    if val2 <=? val1 then keep type1 else keep type2
  else if (val1 <? 0) && (val2 <? 0) then
    if val1 <=? val2 then keep type1 else keep type2
  else if IsConstantByte (kind type1) then
    if IsConstantByte (kind type2) then ByteConstant
    else if IsConstantShort (kind type2) then ShortConstant
    else IntConstant
  else if IsConstantShort (kind type1) then
    if IsConstantShort (kind type2) then ShortConstant else IntConstant
  else IntConstant.

(** One side of [FromUnresolvedMerge]: the unresolved types, the resolved part
    and whether the unresolved types are arrays. *)
Definition unresolved_side (t : RegType) : C (gset Z * RegType * bool) := fun c =>
  match kind t with
  | UnresolvedMergedType resolved ids =>
      match entries_ c !! resolved with
      | Some r => Some ((ids, {| position := resolved; kind := r |},
                         IsArrayTypes (entries_ c) (kind t)), c)
      | None => None
      end
  | k =>
      Some (if IsUnresolvedTypes k
            then ({[ GetId t ]}, Zero, IsArrayTypes (entries_ c) k)
            else (∅, t, false), c)
  end.

(** What becomes of the unresolved types and the merged resolved parts. *)
Definition unresolved_merge_entry (types : gset Z) (resolved_parts_merged : RegType)
    (some_array some_not_array : bool) : C RegType := fun c =>
  let merged := kind resolved_parts_merged in
  let resolved_merged_is_array := IsArrayTypes (entries_ c) merged in
  if IsConflict merged then Some (Conflict, c)
  else if (some_array || resolved_merged_is_array) &&
          ((resolved_merged_is_array && negb (IsObjectArrayTypes (entries_ c) merged))
           || some_not_array || negb resolved_merged_is_array)
  then JavaLangObject false c
  else
    find_or_add (fun k =>
        match k with
        | UnresolvedMergedType resolved_part unresolved_part =>
            (resolved_part =? position resolved_parts_merged)%nat
            && bool_decide (types = unresolved_part)
        | _ => false
        end) (UnresolvedMergedType (position resolved_parts_merged) types) c.

Definition FromUnresolvedMerge (SafeMerge : RegType -> RegType -> C RegType) (left right : RegType)
    : C RegType :=
  '(left_types, left_resolved, left_unresolved_is_array) ← unresolved_side left;
  '(right_types, right_resolved, right_unresolved_is_array) ← unresolved_side right;
  resolved_parts_merged ← SafeMerge left_resolved right_resolved;
  unresolved_merge_entry (left_types ∪ right_types) resolved_parts_merged
    (left_unresolved_is_array || right_unresolved_is_array)
    ((negb left_unresolved_is_array && negb (same_object left_resolved left))
     || (negb right_unresolved_is_array && negb (same_object right_resolved right))).

(** Two types that resolve to classes. *)
Definition merge_classes (this incoming_type : RegType) : C RegType :=
  c1 ← liftC (GetClass (kind this));
  c2 ← liftC (GetClass (kind incoming_type));
  match ClassJoin CT (FindArrayClass LK) c1 c2 with
  | JoinCrash => liftC None
  | JoinNull => MakeUnresolvedReference
  | Joined join_class =>
      if (c1 =? join_class) && negb (IsPreciseReference (kind this)) then mret this
      else if (c2 =? join_class) && negb (IsPreciseReference (kind incoming_type))
      then mret incoming_type
      else FromClass (GetDescriptor CT join_class) join_class false
  end.

Definition merge_references (SafeMerge : RegType -> RegType -> C RegType)
    (this incoming_type : RegType) : C RegType :=
  let k := kind this in
  let k' := kind incoming_type in
  if IsUninitializedTypes k || IsUninitializedTypes k' then mret Conflict
  else if IsZero k || IsZero k' then mret (SelectNonConstant this incoming_type)
  else if IsJavaLangObject k || IsJavaLangObject k' then JavaLangObject false
  else if IsUnresolvedTypes k || IsUnresolvedTypes k'
  then FromUnresolvedMerge SafeMerge this incoming_type
  else merge_classes this incoming_type.

Definition merge_integral (k k' : RegKind) : RegType :=
  if IsBooleanTypes k && IsBooleanTypes k' then Boolean
  else if IsByteTypes k && IsByteTypes k' then Byte
  else if IsShortTypes k && IsShortTypes k' then Short
  else if IsCharTypes k && IsCharTypes k' then Char
  else Integer.

(** [Merge], given how the resolved parts of unresolved types are merged. *)
Definition Merge_with (SafeMerge : RegType -> RegType -> C RegType) (this incoming_type : RegType)
    : C RegType :=
  let k := kind this in
  let k' := kind incoming_type in
  if same_object this Undefined || same_object incoming_type Undefined then mret Undefined
  else if same_object this Conflict || same_object incoming_type Conflict then mret Conflict
  else if IsConstant k && IsConstant k' then merge_constants this incoming_type
  else if IsConstantLo k && IsConstantLo k'
  then FromCat2ConstLo (s32 (ConstantValue k ||| ConstantValue k')) false
  else if IsConstantHi k && IsConstantHi k'
  then FromCat2ConstHi (s32 (ConstantValue k ||| ConstantValue k')) false
  else if IsIntegralTypes k && IsIntegralTypes k' then mret (merge_integral k k')
  else if (IsFloatTypes k && IsFloatTypes k') || (IsLongTypes k && IsLongTypes k')
          || (IsLongHighTypes k && IsLongHighTypes k') || (IsDoubleTypes k && IsDoubleTypes k')
          || (IsDoubleHighTypes k && IsDoubleHighTypes k')
  then mret (SelectNonConstant this incoming_type)
  else if IsReferenceTypes k && IsReferenceTypes k'
  then merge_references SafeMerge this incoming_type
  else mret Conflict.

(** The merges nest at most twice: the parts of a merge are not merges, and
    [Zero] and the classes below them are resolved. *)
Fixpoint Merge_rec (fuel : nat) (this incoming_type : RegType) : C RegType :=
  Merge_with (fun t u =>
      if Equals t u then mret t
      else match fuel with S fuel => Merge_rec fuel t u | O => liftC None end)
    this incoming_type.
Definition Merge (this incoming_type : RegType) : C RegType := Merge_rec 3 this incoming_type.
Definition SafeMerge (this incoming_type : RegType) : C RegType :=
  if Equals this incoming_type then mret this else Merge this incoming_type.

(** ** Array assignments that fail softly *)

(** Component types of which neither can be assigned the other as it is. *)
Definition can_assign_components (rec : RegType -> RegType -> bool -> C (bool * bool))
    (cmp1 cmp2 : RegType) (soft_error : bool) : C (bool * bool) := fun c =>
  let es := entries_ c in
  let k1 := kind cmp1 in
  let k2 := kind cmp2 in
  if IsUnresolvedTypes k1
  then Some ((false, negb (IsIntegralTypes k2 || IsFloatTypes k2 || IsArrayTypes es k2)), c)
  else if IsUnresolvedTypes k2
  then Some ((false, negb (IsIntegralTypes k1 || IsFloatTypes k1 || IsArrayTypes es k1)), c)
  else if negb (IsArrayTypes es k1) || negb (IsArrayTypes es k2) then Some ((false, false), c)
  else rec cmp1 cmp2 soft_error c.

(** The result and [*soft_error], which is left alone when the answer is yes;
    the fuel is the number of dimensions. *)
Fixpoint CanAssignArray (fuel : nat) (this src : RegType) (soft_error : bool) : C (bool * bool) :=
  match fuel with
  | O => liftC None
  | S fuel => fun c =>
      let es := entries_ c in
      if negb (IsArrayTypes es (kind this)) || negb (IsArrayTypes es (kind src))
      then Some ((false, false), c)
      else if IsUnresolvedMergedReference (kind this) || IsUnresolvedMergedReference (kind src)
      then Some ((false, IsObjectArrayTypes es (kind this) && IsObjectArrayTypes es (kind src)), c)
      else
        (cmp1 ← RegType_GetComponentType this;
         cmp2 ← RegType_GetComponentType src;
         ok ← RegType_IsAssignableFrom cmp1 cmp2;
         if ok : bool then mret (true, soft_error)
         else can_assign_components (CanAssignArray fuel) cmp1 cmp2 soft_error) c
  end.
End Cache.
