(* ===== verification/RegTypeFacts.v ===== *)
(** * What register types say about values

    The meaning of a register type as a predicate on references, the laws of the
    class linker it rests on, the invariant of the cache, and the soundness of
    the operations on types: what [FromClass], [From] and their relatives return,
    assignability, component types and merges. *)
From Stdlib Require Import String Ascii.
From stdpp Require Import gmap.
From S2P Require Import Prelude Utf Descriptors MirrorClass RegType.

(** ** Laws of the class linker *)

Section Descriptors.
Context {CT : ClassTable} {CH : ClassHierarchy CT}.

Lemma GetDescriptor_rec_fuel n k : (rank k <= n)%nat -> GetDescriptor_rec CT n k = GetDescriptor CT k.
Proof.
  unfold GetDescriptor. pose proof (h_rank k) as Hm. revert Hm. generalize (max_chain CT) as f.
  revert k. induction n as [|n IH]; intros k f Hf Hr; destruct f as [|f]; cbn [GetDescriptor_rec];
    try done; case_if; try done;
    destruct (GetComponentType CT k) as [c|] eqn:Ec; try done; apply h_rank_component in Ec; try lia.
  f_equal. apply IH; lia.
Qed.

Lemma GetDescriptor_array k c :
  GetComponentType CT k = Some c -> GetDescriptor CT k = String "["%char (GetDescriptor CT c).
Proof.
  intros E. rewrite <-(GetDescriptor_rec_fuel (S (rank k)) k) by lia. cbn [GetDescriptor_rec].
  rewrite (array_not_primitive _ _ E), E. f_equal. apply GetDescriptor_rec_fuel.
  apply h_rank_component in E. lia.
Qed.

Lemma GetDescriptor_plain k :
  IsPrimitive CT k = false -> GetComponentType CT k = None ->
  GetDescriptor CT k = dex_descriptor_ (class_at CT k).
Proof. intros Hp Hc. unfold GetDescriptor. destruct (max_chain CT); cbn; by rewrite Hp, Hc. Qed.

Lemma GetDescriptor_primitive k :
  IsPrimitive CT k = true -> GetDescriptor CT k = Primitive_Descriptor (GetPrimitiveTypeOf CT k).
Proof. intros Hp. unfold GetDescriptor. destruct (max_chain CT); cbn; by rewrite Hp. Qed.
End Descriptors.

(** The letters of the primitive types whose arrays the runtime creates at start. *)
Definition primitive_arrays : list string := ["[Z"; "[B"; "[C"; "[S"; "[I"; "[J"; "[F"; "[D"]%string.
Definition is_class_descriptor (d : string) : bool :=
  match d with String c _ => Ascii.eqb c "L"%char | EmptyString => false end.

(** What the class linker guarantees: descriptors name at most one class and
    lookups return the class that is named, array classes of joins can be made,
    and arrays of primitive types exist. *)
Class LinkerLaws (LK : ClassLinker) (CH : ClassHierarchy (classes LK)) (load : bool)
    (StringByTypeIdx : Z -> string) : Prop := {
  ll_class : GetSuperClass (classes LK) (GetJavaLangClass LK) = Some java_lang_Object /\
    GetDescriptor (classes LK) (GetJavaLangClass LK) = "Ljava/lang/Class;"%string;
  ll_object : GetDescriptor (classes LK) java_lang_Object = "Ljava/lang/Object;"%string;
  ll_throwable :
    IsPrimitive (classes LK) (GetJavaLangThrowable LK) = false /\
    GetDescriptor (classes LK) (GetJavaLangThrowable LK) = "Ljava/lang/Throwable;"%string;
  ll_string : IsPrimitive (classes LK) (GetJavaLangString LK) = false /\
    GetDescriptor (classes LK) (GetJavaLangString LK) = "Ljava/lang/String;"%string;
  ll_primitive p : p <> kPrimNot -> p <> kPrimVoid ->
    GetPrimitiveTypeOf (classes LK) (primitive_class LK p) = p;
  ll_find d k : FindClass_linker LK d = Some k -> GetDescriptor (classes LK) k = d;
  ll_lookup d k : LookupClass LK d = Some k -> GetDescriptor (classes LK) k = d;
  ll_resolve i k : ResolveType LK i = Some k ->
    GetDescriptor (classes LK) k = StringByTypeIdx i;
  ll_lookup_resolved i k : LookupResolvedType LK i = Some k ->
    GetDescriptor (classes LK) k = StringByTypeIdx i;
  ll_unique k k' : IsPrimitive (classes LK) k = false -> IsPrimitive (classes LK) k' = false ->
    GetDescriptor (classes LK) k = GetDescriptor (classes LK) k' -> k = k';
  ll_plain k : IsPrimitive (classes LK) k = false -> GetComponentType (classes LK) k = None ->
    is_class_descriptor (dex_descriptor_ (class_at (classes LK) k)) = true;
  ll_no_void k c : GetComponentType (classes LK) k = Some c ->
    GetPrimitiveTypeOf (classes LK) c <> kPrimVoid;
  ll_array_class k a : FindArrayClass LK k = Some a -> GetComponentType (classes LK) a = Some k;
  ll_join k k' : IsPrimitive (classes LK) k = false -> IsPrimitive (classes LK) k' = false ->
    ClassJoin (classes LK) (FindArrayClass LK) k k' <> JoinNull;
  ll_primitive_array d : d ∈ primitive_arrays -> ResolveClass LK load d <> None
}.

Section World.
Context {LK : ClassLinker} {CH : ClassHierarchy (classes LK)} {load : bool}.
Context {StringByTypeIdx : Z -> string} {LL : LinkerLaws LK CH load StringByTypeIdx}.
Notation CT := (classes LK).
Notation object := (java_lang_Object (CT := CT)).

(** The class of every object; null is 0. *)
Context (klass_of : Z -> option Z).

(** ** The meaning of types *)

Definition is_object (r : Z) : Prop :=
  exists k, klass_of r = Some k /\ IsPrimitive CT k = false.
(** Interfaces are not checked by the verifier: any object may be in a register
    whose type is an interface. *)
Definition instance (klass r : Z) : Prop :=
  exists k, klass_of r = Some k /\ IsPrimitive CT k = false /\
    (IsInterface CT klass = true \/ assignable (CT := CT) klass k).
Definition has_class (klass r : Z) : Prop := r = 0 \/ instance klass r.
Definition has_descriptor (d : string) (r : Z) : Prop :=
  r = 0 \/ exists klass, IsPrimitive CT klass = false /\ GetDescriptor CT klass = d /\ instance klass r.

Definition base_typed (k : RegKind) (r : Z) : Prop :=
  match k with
  | PreciseConstType c => c = 0 -> r = 0
  | UninitializedReferenceType klass _ _ | UninitializedThisReferenceType klass _
  | ReferenceType klass _ | PreciseReferenceType klass _ => has_class klass r
  | UnresolvedReferenceType d | UnresolvedUninitializedRefType d _
  | UnresolvedUninitializedThisRefType d => has_descriptor d r
  | UnresolvedSuperClass _ => r = 0 \/ is_object r
  | _ => True
  end.

(** The types of the final cache. *)
Context (E : list RegKind).

Definition typed (k : RegKind) (r : Z) : Prop :=
  match k with
  | UnresolvedMergedType res ids =>
      (exists kr, E !! res = Some kr /\ base_typed kr r) \/
      (exists id ku, id ∈ ids /\ E !! Z.to_nat id = Some ku /\ base_typed ku r)
  | _ => base_typed k r
  end.

(** ** The invariant of the cache *)

Definition resolved_kind (k : RegKind) : Prop :=
  k = PreciseConstType 0 \/
  exists klass, GetClass LK k = Some klass /\ IsNonZeroReferenceTypes k = true.

(** The class and the descriptor of an entry belong together; a descriptor of an
    unresolved type does not resolve; the parts of a merge are types of their
    kind, and if the resolved part is null or an array, the unresolved parts are
    all arrays or all not, as it is. *)
Definition base_entry_ok (k : RegKind) : Prop :=
  match k with
  | UninitializedReferenceType klass d _ | UninitializedThisReferenceType klass d
  | ReferenceType klass d | PreciseReferenceType klass d =>
      IsPrimitive CT klass = false /\ (d = EmptyString \/ d = GetDescriptor CT klass)
  | UnresolvedReferenceType d | UnresolvedUninitializedRefType d _
  | UnresolvedUninitializedThisRefType d => ResolveClass LK load d = None
  | UnresolvedSuperClass _ => False
  | _ => True
  end.
Definition entry_ok (k : RegKind) : Prop :=
  match k with
  | UnresolvedMergedType res ids =>
      exists kr, E !! res = Some kr /\ resolved_kind kr /\ base_entry_ok kr /\
        (kr = PreciseConstType 0 -> res = 13%nat) /\
        (forall id, id ∈ ids -> exists d, E !! Z.to_nat id = Some (UnresolvedReferenceType d) /\
           ResolveClass LK load d = None) /\
        (kr = PreciseConstType 0 \/ base_IsArrayTypes LK kr = true ->
           (base_IsArrayTypes LK kr = true -> base_IsObjectArrayTypes LK kr = true) /\
           forall id d, id ∈ ids -> E !! Z.to_nat id = Some (UnresolvedReferenceType d) ->
             is_array_descriptor d = base_IsArrayTypes LK kr)
  | _ => base_entry_ok k
  end.

Definition cache_ok (c : RegTypeCache) : Prop :=
  take primitive_count_ (entries_ c) = FillPrimitiveAndSmallConstantTypes /\
  Forall entry_ok (entries_ c) /\
  (forall p, entries_ c !! p = Some (PreciseConstType 0) -> p = 13%nat) /\
  forall klass i, (klass, i) ∈ klass_entries_ c ->
    exists k, entries_ c !! i = Some k /\ GetClass LK k = Some klass.

(** An entry of the final cache. *)
Definition valid (t : RegType) : Prop :=
  E !! position t = Some (kind t) /\ entry_ok (kind t) /\
  (kind t = PreciseConstType 0 -> position t = 13%nat).

Hypothesis HF : FillPrimitiveAndSmallConstantTypes `prefix_of` E.
(** There are no more types than ids. *)
Hypothesis Hsize : Z.of_nat (length E) <= 2 ^ 16.

Lemma valid_ok t : valid t -> entry_ok (kind t).
Proof. by intros (_ & ? & _). Qed.

Lemma cache_valid c t :
  cache_ok c -> entries_ c `prefix_of` E -> entries_ c !! position t = Some (kind t) -> valid t.
Proof.
  intros (_ & Hf & H0 & _) Hpre Ht. split_and!; [by eapply prefix_lookup_Some| |].
  - by apply (Forall_lookup_1 _ _ _ _ Hf Ht).
  - intros Hz. rewrite Hz in Ht. by apply H0.
Qed.

(** ** References *)

Lemma has_class_null klass : has_class klass 0.
Proof. by left. Qed.
Lemma has_descriptor_null d : has_descriptor d 0.
Proof. by left. Qed.

Lemma has_class_object klass r : has_class klass r -> r = 0 \/ is_object r.
Proof. intros [->|(k & Hk & Hp & _)]; [by left|right; by exists k]. Qed.
Lemma has_descriptor_object d r : has_descriptor d r -> r = 0 \/ is_object r.
Proof. intros [->|(klass & _ & _ & k & Hk & Hp & _)]; [by left|right; by exists k]. Qed.

Lemma has_class_Object r : r = 0 \/ is_object r -> has_class object r.
Proof.
  intros [->|(k & Hk & Hp)]; [by left|right]. exists k. split_and!; [done..|]. right. by constructor.
Qed.

(** Only interfaces and [Object] can be assigned from an interface. *)
Lemma assignable_interface l k :
  assignable (CT := CT) l k -> IsInterface CT k = true -> IsInterface CT l = true \/ l = object.
Proof.
  intros H Hi. destruct H as [k|k Hp|i k _ H|k l ? ? _ Hl|a k Ha]; auto.
  - apply h_array in Hl as (_ & Hl & _). congruence.
  - destruct (decide (a = k)) as [->|Hne]; [by left|right]. apply (ancestor_short k); auto.
Qed.

Lemma has_class_weaken l k r : assignable (CT := CT) l k -> has_class k r -> has_class l r.
Proof.
  intros Ha [->|(k0 & Hk & Hp & Hi)]; [by left|]. destruct Hi as [Hi|Hi].
  - destruct (assignable_interface l k Ha Hi) as [Hl|Hl].
    + right. exists k0. auto.
    + rewrite Hl. apply has_class_Object. right. by exists k0.
  - right. exists k0. split_and!; [done..|]. right. by eapply assignable_trans.
Qed.

Lemma has_descriptor_class d klass r :
  IsPrimitive CT klass = false -> GetDescriptor CT klass = d -> has_descriptor d r <-> has_class klass r.
Proof.
  intros Hp Hd. split; intros [->|H]; try by left.
  - destruct H as (k & Hk & Hkd & H). right.
    by rewrite (ll_unique klass k Hp Hk) by congruence.
  - right. by exists klass.
Qed.

(** The class of an array descriptor is an array class, and its component has the
    rest of the descriptor. *)
Lemma array_of_descriptor k d :
  IsPrimitive CT k = false -> GetDescriptor CT k = d -> is_array_descriptor d = true ->
  exists c, GetComponentType CT k = Some c /\ GetDescriptor CT c = skip_first d.
Proof.
  intros Hp <- Hd. destruct (GetComponentType CT k) as [c|] eqn:Ec.
  - exists c. by rewrite (GetDescriptor_array _ _ Ec).
  - rewrite (GetDescriptor_plain k Hp Ec) in Hd. pose proof (ll_plain k Hp Ec) as Hl.
    destruct (dex_descriptor_ _) as [|a s]; [done|]. cbn in *. apply Ascii.eqb_eq in Hl as ->. done.
Qed.

Lemma array_descriptor k : IsPrimitive CT k = false ->
  is_array_descriptor (GetDescriptor CT k) = IsArrayClass CT k.
Proof.
  intros Hp. unfold IsArrayClass. destruct (GetComponentType CT k) as [c|] eqn:Ec.
  - by rewrite (GetDescriptor_array _ _ Ec).
  - rewrite (GetDescriptor_plain k Hp Ec). pose proof (ll_plain k Hp Ec) as Hl.
    destruct (dex_descriptor_ _) as [|a s]; [done|]. cbn in *. apply Ascii.eqb_eq in Hl as ->. done.
Qed.

(** An array class whose descriptor does not resolve has reference components. *)
Lemma unresolved_array_component k d c :
  GetDescriptor CT k = d -> ResolveClass LK load d = None -> GetComponentType CT k = Some c ->
  IsPrimitive CT c = false.
Proof.
  intros Hd Hr Hc. destruct (IsPrimitive CT c) eqn:Hp; [exfalso|done].
  rewrite (GetDescriptor_array _ _ Hc), (GetDescriptor_primitive _ Hp) in Hd.
  revert Hr. rewrite <-Hd. pose proof (ll_no_void k c Hc) as Hv.
  destruct (GetPrimitiveTypeOf CT c) eqn:Ep; try done;
    try (apply ll_primitive_array, list_elem_of_In; cbn; tauto).
  unfold IsPrimitive in Hp. by rewrite Ep in Hp.
Qed.

(** ** The typing of kinds *)

Lemma base_typed_null k : base_typed k 0.
Proof. destruct k; cbn; auto using has_class_null, has_descriptor_null. Qed.

Lemma typed_null k : entry_ok k -> typed k 0.
Proof.
  destruct k; cbn; auto using has_class_null, has_descriptor_null.
  intros (kr & Hr & _). left. exists kr. split; [done|]. apply base_typed_null.
Qed.

Lemma resolved_typed_object k r : resolved_kind k -> base_typed k r -> r = 0 \/ is_object r.
Proof.
  intros [->|(klass & Hc & Hn)]; cbn; [by auto|]. intros Ht. apply (has_class_object klass).
  destruct k; try done; by injection Hc as <-.
Qed.

Lemma typed_object k r :
  entry_ok k -> IsReferenceTypes k = true -> typed k r -> r = 0 \/ is_object r.
Proof.
  destruct k; cbn; try done; intros Hok Hk Ht;
    first [by eapply has_class_object|by eapply has_descriptor_object|idtac].
  - left. apply Ht. by apply Z.eqb_eq.
  - destruct Hok as (kr & Hr & Hres & _ & _ & Hids & _).
    destruct Ht as [(kr' & Hr' & Ht)|(id & ku & Hid & Hu & Ht)].
    + simplify_eq. by eapply resolved_typed_object.
    + destruct (Hids id Hid) as (d & Hd & _). simplify_eq. by eapply has_descriptor_object.
Qed.
(** ** Arrays *)

(** An array whose component type can be assigned to [c]. *)
Definition array_of (c r : Z) : Prop :=
  exists k0 c0, klass_of r = Some k0 /\ GetComponentType CT k0 = Some c0 /\
    assignable (CT := CT) c c0.

Lemma instance_array klass c r :
  GetComponentType CT klass = Some c -> instance klass r -> array_of c r.
Proof.
  intros Hc (k0 & Hk & _ & [Hi|Ha]).
  - apply h_array in Hc as (_ & Hc & _). congruence.
  - destruct (assignable_component _ _ _ Ha Hc) as (c0 & Hc0 & Hcc). by exists k0, c0.
Qed.

Lemma has_descriptor_array d r :
  is_array_descriptor d = true -> has_descriptor d r ->
  r = 0 \/ exists klass c, GetDescriptor CT klass = d /\ GetComponentType CT klass = Some c /\
    GetDescriptor CT c = skip_first d /\ array_of c r.
Proof.
  intros Hd [->|(klass & Hp & Hk & Hi)]; [by left|right].
  destruct (array_of_descriptor klass d Hp Hk Hd) as (c & Hc & Hcd).
  exists klass, c. split_and!; [done..|]. by eapply instance_array.
Qed.

Lemma primitive_kind_class p : p <> kPrimNot -> p <> kPrimVoid ->
  IsPrimitive CT (primitive_class LK p) = true.
Proof.
  intros Hn Hv. unfold IsPrimitive. rewrite (ll_primitive p Hn Hv).
  apply negb_true_iff. by apply bool_decide_eq_false.
Qed.

Lemma primitive_no_component p : p <> kPrimNot -> p <> kPrimVoid ->
  GetComponentType CT (primitive_class LK p) = None.
Proof. intros Hn Hv. by destruct (h_primitive _ (primitive_kind_class p Hn Hv)) as (_ & ? & _). Qed.

Lemma base_array_typed k r :
  base_IsArrayTypes LK k = true -> base_typed k r ->
  r = 0 \/ exists c, array_of c r.
Proof.
  unfold base_IsArrayTypes, class_test. intros Ha Ht.
  destruct k; cbn in *; try done;
    try (unfold IsArrayClass in Ha; rewrite primitive_no_component in Ha by done; done);
    try (destruct (is_array_inv _ Ha) as (c & Hc); destruct Ht as [->|Ht];
         [by left|right; exists c; by eapply instance_array]);
    try (destruct (has_descriptor_array _ _ Ha Ht) as [->|(? & c & _ & _ & _ & Hc)]; [by left|right; eauto]).
Qed.

Lemma base_object_array_typed k r :
  base_entry_ok k -> base_IsObjectArrayTypes LK k = true -> base_typed k r ->
  r = 0 \/ exists c, IsPrimitive CT c = false /\ array_of c r.
Proof.
  unfold base_IsObjectArrayTypes, class_test, is_object_array_class. intros Hok Ha Ht.
  destruct k; cbn in *; try done;
    try (rewrite primitive_no_component in Ha by done; done);
    try (destruct (GetComponentType CT klass) as [c|] eqn:Hc; [|done]; apply negb_true_iff in Ha;
         destruct Ht as [->|Ht]; [by left|right; exists c; split; [done|by eapply instance_array]]);
    try (destruct (has_descriptor_array _ _ Ha Ht) as [->|(k & c & Hd & Hc & _ & Hr)]; [by left|right];
         exists c; split; [by eapply unresolved_array_component|done]).
Qed.

Lemma GetHighestBitSet_elem (ids : gset Z) : GetHighestBitSet ids = -1 \/ GetHighestBitSet ids ∈ ids.
Proof.
  unfold GetHighestBitSet.
  apply (set_fold_ind_L (fun r X => r = -1 \/ r ∈ X)); [by left|].
  intros x X r _ [->|Hr].
  - destruct (Z.max_spec x (-1)) as [[_ ->]|[_ ->]]; [by left|right; set_solver].
  - right. destruct (Z.max_spec x r) as [[_ ->]|[_ ->]]; set_solver.
Qed.

(** A merge is an array only if all its parts are. *)
Lemma merged_array es res ids :
  es `prefix_of` E -> es !! 0%nat = Some UndefinedType -> entry_ok (UnresolvedMergedType res ids) ->
  merged_IsArrayTypes LK es res ids = true ->
  exists kr, E !! res = Some kr /\ base_entry_ok kr /\ base_IsArrayTypes LK kr = true /\
    base_IsObjectArrayTypes LK kr = true /\
    forall id, id ∈ ids -> exists d, E !! Z.to_nat id = Some (UnresolvedReferenceType d) /\
      ResolveClass LK load d = None /\ is_array_descriptor d = true.
Proof.
  intros Hpre H0 (kr & Hr & Hres & Hbok & _ & Hids & Ho). unfold merged_IsArrayTypes.
  destruct (es !! res) as [kr'|] eqn:Er; [|done].
  pose proof (prefix_lookup_Some _ _ _ _ Er Hpre) as Hr'. rewrite Hr in Hr'. injection Hr' as <-.
  destruct (negb (IsZero kr) && negb (base_IsArrayTypes LK kr)) eqn:Eb; [done|]. intros Ha.
  destruct Ho as [Ho Harr].
  { destruct (base_IsArrayTypes LK kr); [by right|left]. rewrite andb_true_r in Eb.
    apply negb_false_iff in Eb. destruct kr; cbn in Eb; try done. by apply Z.eqb_eq in Eb as ->. }
  assert (base_IsArrayTypes LK kr = true) as Hb.
  { destruct (es !! Z.to_nat (GetHighestBitSet ids)) as [u|] eqn:Eu; [|done].
    destruct (GetHighestBitSet_elem ids) as [Hn|Hid].
    - rewrite Hn in Eu. change (Z.to_nat (-1)) with 0%nat in Eu. rewrite H0 in Eu. by injection Eu as <-.
    - destruct (Hids _ Hid) as (d & Hd & _). rewrite <-(Harr _ _ Hid Hd).
      pose proof (prefix_lookup_Some _ _ _ _ Eu Hpre) as Hu. rewrite Hd in Hu. by injection Hu as <-. }
  exists kr. split_and!; [done..|by apply Ho|]. intros id Hid. destruct (Hids id Hid) as (d & Hd & Hn).
  exists d. split_and!; [done..|]. by rewrite (Harr _ _ Hid Hd).
Qed.

Section Arrays.
Context (es : list RegKind) (Hpre : es `prefix_of` E) (Hes : es !! 0%nat = Some UndefinedType).

Lemma object_array_typed k r :
  entry_ok k -> IsObjectArrayTypes LK es k = true -> typed k r ->
  r = 0 \/ exists c, IsPrimitive CT c = false /\ array_of c r.
Proof.
  intros Hok Ha Ht. destruct k; try by apply (base_object_array_typed _ r Hok Ha).
  destruct (merged_array es _ _ Hpre Hes Hok Ha) as (kr & Hr & Hbok & _ & Ho & Hids).
  destruct Ht as [(kr' & Hr' & Ht)|(id & ku & Hid & Hu & Ht)].
  - rewrite Hr in Hr'. injection Hr' as <-. by apply (base_object_array_typed kr).
  - destruct (Hids id Hid) as (d & Hd & Hn & Hda). rewrite Hd in Hu. injection Hu as <-.
    by apply (base_object_array_typed (UnresolvedReferenceType d)).
Qed.

Lemma array_typed k r :
  entry_ok k -> IsArrayTypes LK es k = true -> typed k r -> r = 0 \/ exists c, array_of c r.
Proof.
  intros Hok Ha Ht. destruct k; try by apply (base_array_typed _ r Ha).
  destruct (object_array_typed (UnresolvedMergedType resolved_part unresolved_types) r Hok Ha Ht)
    as [->|(c & _ & Hc)]; [by left|right; eauto].
Qed.

(** ** Assignability *)

Lemma class_typed k klass r :
  GetClass LK k = Some klass -> IsNonZeroReferenceTypes k = true -> typed k r <-> has_class klass r.
Proof. destruct k; cbn; try done; intros [= ->]; done. Qed.

Lemma not_unresolved_class k :
  IsNonZeroReferenceTypes k = true -> IsUnresolvedTypes k = false -> exists klass, GetClass LK k = Some klass.
Proof. destruct k; cbn; try done; eauto. Qed.

Lemma reference_assignable_sound lhs rhs strict r :
  entry_ok lhs -> entry_ok rhs -> IsNonZeroReferenceTypes lhs = true ->
  reference_assignable LK es lhs rhs strict = true -> typed rhs r -> typed lhs r.
Proof.
  intros Hl Hr Href H Ht. unfold reference_assignable in H.
  destruct (IsZero rhs) eqn:Ez.
  { destruct rhs; cbn in Ez; try done. apply Z.eqb_eq in Ez as ->. rewrite (Ht eq_refl).
    by apply typed_null. }
  destruct (IsReferenceTypes rhs) eqn:Er; [cbn in H|done].
  pose proof (typed_object _ _ Hr Er Ht) as Ho.
  destruct (IsUninitializedTypes lhs || IsUninitializedTypes rhs) eqn:Eu; [done|].
  destruct (IsJavaLangObject LK lhs) eqn:Ej.
  { unfold IsJavaLangObject, class_test in Ej. destruct lhs; try done. cbn in Ej.
    apply IsObjectClass_spec in Ej as ->. by apply has_class_Object. }
  destruct (_ && _ && _) eqn:Ei.
  { apply andb_prop in Ei as [Ei Hi]. unfold class_test in Hi.
    destruct (GetClass LK lhs) as [klass|] eqn:Ec; [|done]. apply (class_typed _ klass); [done..|].
    destruct Ho as [->|(k0 & Hk & Hp)]; [by left|right; exists k0; auto]. }
  destruct (IsJavaLangObjectArray LK lhs) eqn:Ea.
  { unfold IsJavaLangObjectArray, class_test in Ea. destruct (GetClass LK lhs) as [klass|] eqn:Ec; [|done].
    destruct (GetComponentType CT klass) as [ct|] eqn:Ect; [|done]. apply IsObjectClass_spec in Ea as ->.
    apply (class_typed _ klass); [done..|].
    destruct (object_array_typed rhs r Hr H Ht) as [->|(c & Hp & k0 & c0 & Hk & Hc0 & Hcc)]; [by left|].
    right. exists k0. split_and!; [done|by eapply array_not_primitive|right].
    eapply as_array; [done..|]. constructor. by eapply assignable_not_primitive. }
  destruct (GetClass LK lhs) as [l|] eqn:El; [|done]. destruct (GetClass LK rhs) as [k|] eqn:Ek; [|done].
  apply IsAssignableFrom_spec in H. apply (class_typed _ l); [done..|].
  eapply has_class_weaken; [done|]. apply (class_typed rhs); [done| |done].
  unfold IsReferenceTypes in Er. by rewrite Ez, orb_false_r in Er.
Qed.

(** Equal ids are equal types. *)
Lemma valid_id t : valid t -> GetId t = Z.of_nat (position t).
Proof.
  intros [H%lookup_lt_Some _]. unfold GetId. apply wrap_u_id. unfold in_u. lia.
Qed.
Lemma valid_Equals t u : valid t -> valid u -> Equals t u = true -> t = u.
Proof.
  unfold Equals. intros Ht Hu. rewrite (valid_id t Ht), (valid_id u Hu). intros H%Z.eqb_eq.
  destruct t as [p k], u as [q k'], Ht as [Ht _], Hu as [Hu _]; cbn in *.
  assert (p = q) as -> by lia. congruence.
Qed.

Lemma AssignableFrom_sound lhs rhs strict r :
  valid lhs -> valid rhs -> IsNonZeroReferenceTypes (kind lhs) = true ->
  AssignableFrom LK es lhs rhs strict = Some true -> typed (kind rhs) r -> typed (kind lhs) r.
Proof.
  intros Hl Hr Href H Ht. unfold AssignableFrom in H.
  destruct (Equals lhs rhs) eqn:Eq; [by rewrite (valid_Equals lhs rhs)|].
  assert (reference_assignable LK es (kind lhs) (kind rhs) strict = true) as Ha.
  { destruct (kind lhs); cbn in *; try done; by injection H. }
  eapply reference_assignable_sound; eauto using valid_ok.
Qed.
End Arrays.

(** ** Computations on the cache *)

Definition cmono {A} (m : C A) : Prop :=
  forall c a c', m c = Some (a, c') -> entries_ c `prefix_of` entries_ c'.
Definition cspec {A} (m : C A) (Q : A -> Prop) : Prop :=
  forall c a c', m c = Some (a, c') -> cache_ok c -> entries_ c' `prefix_of` E -> cache_ok c' /\ Q a.

Lemma cm_ret {A} (a : A) : cmono (mret a).
Proof. intros c b c' [= _ <-]. done. Qed.
Lemma cm_lift {A} (o : option A) : cmono (liftC o).
Proof. intros c b c'. unfold liftC. destruct o; [|done]. by intros [= _ <-]. Qed.
Lemma cm_bind {A B} (m : C A) (k : A -> C B) : cmono m -> (forall a, cmono (k a)) -> cmono (m ≫= k).
Proof.
  intros Hm Hk c b c' H. unfold mbind, C_bind in H. destruct (m c) as [[a c1]|] eqn:Em; [|done].
  etrans; [by eapply Hm|by eapply Hk].
Qed.
Lemma cm_GetFromId id : cmono (GetFromId id).
Proof. intros c b c'. unfold GetFromId. case_match; [|done]. by intros [= _ <-]. Qed.
Lemma cm_AddEntry k : cmono (AddEntry LK k).
Proof. intros c b c' [= _ <-]. cbn. by apply prefix_app_r. Qed.
Lemma cm_find_or_add found k : cmono (find_or_add LK found k).
Proof.
  intros c b c'. unfold find_or_add. case_match; [by intros [= _ <-]|by apply cm_AddEntry].
Qed.
Lemma cm_FromClass d klass precise : cmono (FromClass LK d klass precise).
Proof.
  intros c b c'. unfold FromClass. case_match; [by intros [= _ <-]|by apply cm_AddEntry].
Qed.

Lemma cs_ret {A} (a : A) (Q : A -> Prop) : Q a -> cspec (mret a) Q.
Proof. intros H c b c' [= <- <-]. by split. Qed.
Lemma cs_lift {A} (o : option A) (Q : A -> Prop) : (forall a, o = Some a -> Q a) -> cspec (liftC o) Q.
Proof. intros H c b c'. unfold liftC. destruct o; [|done]. intros [= <- <-]. split; auto. Qed.
Lemma cs_bind {A B} (m : C A) (k : A -> C B) P Q :
  cspec m P -> (forall a, cmono (k a)) -> (forall a, P a -> cspec (k a) Q) -> cspec (m ≫= k) Q.
Proof.
  intros Hm Hmono Hk c b c' H Hc Hpre. unfold mbind, C_bind in H.
  destruct (m c) as [[a c1]|] eqn:Em; [|done].
  destruct (Hm _ _ _ Em Hc) as [Hc1 Ha]; [etrans; [by eapply Hmono|done]|].
  by apply (Hk a Ha _ _ _ H).
Qed.
Lemma cs_weaken {A} (m : C A) (P Q : A -> Prop) : cspec m P -> (forall a, P a -> Q a) -> cspec m Q.
Proof. intros Hm H c b c' Em Hc Hpre. destruct (Hm _ _ _ Em Hc Hpre). auto. Qed.

Lemma cs_GetFromId id : cspec (GetFromId id) (fun t => valid t /\ position t = Z.to_nat id).
Proof.
  intros c t c'. unfold GetFromId. destruct (_ !! _) as [k|] eqn:Ek; [|done].
  intros [= <- <-] Hc Hpre. split; [done|]. split; [|done]. by apply (cache_valid c).
Qed.

(** *** Adding entries *)

Lemma entries_length c : cache_ok c -> (primitive_count_ <= length (entries_ c))%nat.
Proof.
  intros (Ht & _). apply (f_equal length) in Ht. rewrite length_take in Ht.
  change (length FillPrimitiveAndSmallConstantTypes) with primitive_count_ in Ht. lia.
Qed.

Lemma AddEntry_ok c k :
  cache_ok c -> entry_ok k -> k <> PreciseConstType 0 ->
  cache_ok {| entries_ := entries_ c ++ [k];
              klass_entries_ := klass_entries_ c ++
                match GetClass LK k with
                | Some klass => [(klass, length (entries_ c))] | None => [] end |}.
Proof.
  intros Hc Hok Hz. pose proof (entries_length _ Hc) as Hlen. destruct Hc as (Ht & Hf & H0 & Hk).
  split_and!; cbn.
  - by rewrite take_app_le.
  - apply Forall_app. split; [done|]. by apply Forall_singleton.
  - intros p [Hp|[Hp Hk']]%lookup_app_Some; [by apply H0|].
    apply list_lookup_singleton_Some in Hk' as [_ Hk']. congruence.
  - intros klass i [Hin|Hin]%elem_of_app.
    + destruct (Hk _ _ Hin) as (k' & Hk' & Hc). exists k'.
      split; [by apply lookup_app_l_Some|done].
    + destruct (GetClass LK k) as [klass'|] eqn:Ec; [|by apply not_elem_of_nil in Hin].
      apply list_elem_of_singleton in Hin. injection Hin as -> ->. exists k.
      split; [|done]. by apply list_lookup_middle.
Qed.

Lemma cs_AddEntry k :
  entry_ok k -> k <> PreciseConstType 0 ->
  cspec (AddEntry LK k) (fun t => valid t /\ kind t = k).
Proof.
  intros Hok Hz c t c' [= <- <-] Hc Hpre. pose proof (AddEntry_ok _ _ Hc Hok Hz) as Hc'.
  split; [done|]. split; [|done]. eapply cache_valid; [exact Hc'|done|].
  cbn. by apply list_lookup_middle.
Qed.

Lemma find_from_Some i l found t :
  find_from i l found = Some t ->
  exists j, l !! j = Some (kind t) /\ position t = (i + j)%nat /\ found (kind t) = true.
Proof.
  revert i. induction l as [|k l IH]; intros i; [done|]. cbn. destruct (found k) eqn:Ef.
  - intros [= <-]. exists 0%nat. cbn [position kind]. split_and!; [done|lia|done].
  - intros (j & Hj & Hp & Hf)%IH. exists (S j). split_and!; [done|lia|done].
Qed.

Lemma find_entry_Some c found t :
  find_entry c found = Some t ->
  entries_ c !! position t = Some (kind t) /\ (primitive_count_ <= position t)%nat /\
  found (kind t) = true.
Proof.
  intros (j & Hj & -> & Hf)%find_from_Some. rewrite lookup_drop in Hj. split_and!; [done|lia|done].
Qed.

Lemma cs_find_or_add found k :
  entry_ok k -> k <> PreciseConstType 0 ->
  cspec (find_or_add LK found k) (fun t => valid t /\ (found (kind t) = true \/ kind t = k)).
Proof.
  intros Hok Hz c t c'. unfold find_or_add. destruct (find_entry c found) as [u|] eqn:Ef.
  - intros [= <- <-] Hc Hpre. apply find_entry_Some in Ef as (Hp & _ & Hf).
    split; [done|]. split; [by eapply cache_valid|by left].
  - intros H Hc Hpre. destruct (cs_AddEntry k Hok Hz _ _ _ H Hc Hpre) as (? & ? & ?). auto.
Qed.
(** *** Types that are always there *)

Lemma fill_ok : Forall entry_ok FillPrimitiveAndSmallConstantTypes.
Proof. repeat (apply List.Forall_cons; [done|]). apply List.Forall_nil. Qed.
Lemma fill_zero p : FillPrimitiveAndSmallConstantTypes !! p = Some (PreciseConstType 0) -> p = 13%nat.
Proof.
  intros H. do 18 (destruct p as [|p]; [first [discriminate H|reflexivity]|]). discriminate H.
Qed.

Lemma fixed_valid t : FillPrimitiveAndSmallConstantTypes !! position t = Some (kind t) -> valid t.
Proof.
  intros H. split_and!; [by eapply prefix_lookup_Some| |].
  - apply (Forall_lookup_1 _ _ _ _ fill_ok H).
  - intros Hz. rewrite Hz in H. by apply fill_zero.
Qed.

Lemma small_constant_valid v : kMinSmallConstant <= v <= kMaxSmallConstant ->
  valid (small_precise_constant v).
Proof.
  unfold kMinSmallConstant, kMaxSmallConstant. intros H. apply fixed_valid.
  assert (v = -1 \/ v = 0 \/ v = 1 \/ v = 2 \/ v = 3 \/ v = 4) as Hv by lia.
  destruct Hv as [->|[->|[->|[->|[->| ->]]]]]; reflexivity.
Qed.

Lemma primitive_type_valid p : valid (RegTypeFromPrimitiveType p).
Proof. by destruct p; apply fixed_valid. Qed.

(** *** Constants *)

Lemma is_cat1_constant_inv v precise k :
  is_cat1_constant v precise k = true ->
  k = if precise then PreciseConstType v else ImpreciseConstType v.
Proof.
  unfold is_cat1_constant. intros [[Hc Hp%eqb_prop]%andb_prop Hv%Z.eqb_eq]%andb_prop.
  destruct k; try done; cbn in Hp, Hv; by subst.
Qed.

Lemma cm_FromCat1Const v precise : cmono (FromCat1Const LK v precise).
Proof. unfold FromCat1Const. case_if; [apply cm_ret|apply cm_find_or_add]. Qed.
Lemma cs_FromCat1Const v precise :
  cspec (FromCat1Const LK v precise)
    (fun t => valid t /\ kind t = if precise then PreciseConstType v else ImpreciseConstType v).
Proof.
  unfold FromCat1Const. destruct (precise && _ && _) eqn:Es.
  - apply cs_ret. bools. subst precise. split; [apply small_constant_valid; lia|done].
  - eapply cs_weaken; [apply cs_find_or_add|].
    + by destruct precise.
    + destruct precise; [|done]. intros [= ->]. cbn in Es. done.
    + intros t [Ht [Hf|Hf]]; split; [done|by apply is_cat1_constant_inv|done|done].
Qed.

Lemma cm_FromCat2ConstLo v precise : cmono (FromCat2ConstLo LK v precise).
Proof. apply cm_find_or_add. Qed.
Lemma cm_FromCat2ConstHi v precise : cmono (FromCat2ConstHi LK v precise).
Proof. apply cm_find_or_add. Qed.
Lemma cs_FromCat2ConstLo v precise :
  cspec (FromCat2ConstLo LK v precise) (fun t => valid t /\ IsConstantLo (kind t) = true).
Proof.
  eapply cs_weaken; [apply cs_find_or_add; [by destruct precise|by destruct precise]|].
  intros t [Ht [Hf|Hf]]; split; try done; [by bools|by rewrite Hf; destruct precise].
Qed.
Lemma cs_FromCat2ConstHi v precise :
  cspec (FromCat2ConstHi LK v precise) (fun t => valid t /\ IsConstantHi (kind t) = true).
Proof.
  eapply cs_weaken; [apply cs_find_or_add; [by destruct precise|by destruct precise]|].
  intros t [Ht [Hf|Hf]]; split; try done; [by bools|by rewrite Hf; destruct precise].
Qed.

(** *** Classes *)

(** A reference type of class [klass], or the type of a primitive class. *)
Definition type_of_class (klass : Z) (t : RegType) : Prop :=
  if IsPrimitive CT klass then t = RegTypeFromPrimitiveType (GetPrimitiveTypeOf CT klass)
  else GetClass LK (kind t) = Some klass /\ IsNonZeroReferenceTypes (kind t) = true.

Lemma class_kind_reference k klass :
  GetClass LK k = Some klass -> IsPrimitive CT klass = false -> IsNonZeroReferenceTypes k = true.
Proof.
  intros Hc Hp. destruct k; try done; cbn in Hc; injection Hc as <-;
    by rewrite primitive_kind_class in Hp.
Qed.

Lemma find_klass_entry_Some entries l klass precise t :
  find_klass_entry LK entries l klass precise = Some t ->
  (klass, position t) ∈ l /\ entries !! position t = Some (kind t).
Proof.
  induction l as [|[k i] l IH]; [done|]. cbn. destruct (entries !! i) as [e|] eqn:Ee.
  - destruct ((k =? klass) && _) eqn:Ek.
    + intros [= <-]. bools. subst. split; [by constructor|done].
    + intros [? ?]%IH. split; [by constructor|done].
  - intros [? ?]%IH. split; [by constructor|done].
Qed.

Lemma cs_FromClass d klass precise :
  (IsPrimitive CT klass = false -> d = EmptyString \/ d = GetDescriptor CT klass) ->
  cspec (FromClass LK d klass precise) (fun t => valid t /\ type_of_class klass t).
Proof.
  intros Hd c t c'. unfold FromClass, FindClass, type_of_class.
  destruct (IsPrimitive CT klass) eqn:Ep.
  { intros [= <- <-] Hc Hpre. split; [done|]. split; [apply primitive_type_valid|done]. }
  destruct (find_klass_entry _ _ _ _ _) as [u|] eqn:Ef.
  - intros [= <- <-] Hc Hpre. split; [done|]. apply find_klass_entry_Some in Ef as [Hin He].
    pose proof Hc as (_ & _ & _ & Hk). destruct (Hk _ _ Hin) as (k & Hk' & Hcl).
    rewrite He in Hk'. injection Hk' as <-. split; [by eapply cache_valid|].
    split; [done|]. by eapply class_kind_reference.
  - intros H Hc Hpre. unfold InsertClass in H.
    edestruct cs_AddEntry as (Hc' & Ht & Hk); [| |exact H|done|done|].
    + destruct precise; cbn; auto.
    + by destruct precise.
    + split; [done|]. split; [done|]. rewrite Hk. by destruct precise.
Qed.

Lemma type_of_class_typed klass t r :
  IsPrimitive CT klass = false -> type_of_class klass t -> typed (kind t) r <-> has_class klass r.
Proof. intros Hp. unfold type_of_class. rewrite Hp. intros [Hc Hr]. by apply class_typed. Qed.

Lemma class_primitive : IsPrimitive CT (GetJavaLangClass LK) = false.
Proof. by eapply super_not_primitive, ll_class. Qed.

Lemma cs_JavaLangThrowable precise :
  cspec (JavaLangThrowable LK precise) (fun t => valid t /\ type_of_class (GetJavaLangThrowable LK) t).
Proof. apply cs_FromClass. intros _. right. symmetry. apply ll_throwable. Qed.
Lemma cs_JavaLangClass :
  cspec (JavaLangClass LK) (fun t => valid t /\ type_of_class (GetJavaLangClass LK) t).
Proof. apply cs_FromClass. intros _. right. symmetry. apply ll_class. Qed.
Lemma cs_JavaLangString :
  cspec (JavaLangString LK) (fun t => valid t /\ type_of_class (GetJavaLangString LK) t).
Proof. apply cs_FromClass. intros _. right. symmetry. apply ll_string. Qed.
Lemma cm_JavaLangObject precise : cmono (JavaLangObject LK precise).
Proof. apply cm_bind; [apply cm_lift|intros; apply cm_FromClass]. Qed.
Lemma cs_JavaLangObject precise :
  cspec (JavaLangObject LK precise) (fun t => valid t /\ type_of_class object t).
Proof.
  apply (cs_bind _ _ (fun k => k = object)).
  - apply cs_lift. intros a Ha. rewrite (proj1 ll_class) in Ha. by injection Ha.
  - intros; apply cm_FromClass.
  - intros k ->. apply cs_FromClass. intros _. right. symmetry. apply ll_object.
Qed.
Lemma Object_typed t r : type_of_class object t -> r = 0 \/ is_object r -> typed (kind t) r.
Proof.
  intros Ht Hr. eapply type_of_class_typed; [apply object_not_primitive|done|].
  by apply has_class_Object.
Qed.

(** *** Descriptors *)

Definition reference_descriptor (d : string) : bool := is_class_descriptor d || is_array_descriptor d.

Lemma resolved_class d k : reference_descriptor d = true -> ResolveClass LK load d = Some k ->
  GetDescriptor CT k = d /\ IsPrimitive CT k = false.
Proof.
  intros Hd Hk. assert (GetDescriptor CT k = d) as Hkd.
  { unfold ResolveClass in Hk. destruct load; [by apply ll_find|].
    destruct (LookupClass LK d) as [k'|] eqn:El; [|done]. case_match; [|done].
    injection Hk as <-. by apply ll_lookup. }
  split; [done|]. destruct (IsPrimitive CT k) eqn:Ep; [|done].
  rewrite (GetDescriptor_primitive k Ep) in Hkd. subst d.
  by destruct (GetPrimitiveTypeOf CT k).
Qed.

(** The type named by a reference descriptor. *)
Definition type_of_descriptor (d : string) (t : RegType) : Prop :=
  IsNonZeroReferenceTypes (kind t) = true /\ forall r, typed (kind t) r <-> has_descriptor d r.

Lemma named_kind k d :
  entry_ok k -> reference_descriptor d = true -> descriptor_of k = d ->
  IsNonZeroReferenceTypes k = true /\ forall r, typed k r <-> has_descriptor d r.
Proof.
  intros Hok Hd Hk. destruct k; cbn in Hk; subst d; try done; split; try done; intros r; cbn;
    try (destruct Hok as [Hp [->|Hg]]; [done|]; symmetry; apply has_descriptor_class; [done|by symmetry]).
Qed.

Lemma cm_From d precise : cmono (From LK load d precise).
Proof.
  intros c t c'. unfold From.
  repeat case_match; intros H'; try done; try (injection H' as _ <-; done);
    try (by eapply cm_AddEntry).
Qed.
Lemma cs_From d precise : reference_descriptor d = true ->
  cspec (From LK load d precise) (fun t => valid t /\ (t = Conflict \/ type_of_descriptor d t)).
Proof.
  intros Hd c t c'. unfold From. destruct (find_entry c _) as [u|] eqn:Ef.
  { intros [= <- <-] Hc Hpre. split; [done|]. apply find_entry_Some in Ef as (Hp & _ & Hm).
    assert (valid u) as Hu by (by eapply cache_valid). split; [done|right].
    apply named_kind; [by apply valid_ok|done|]. unfold MatchDescriptor in Hm.
    destruct (String.eqb_spec d (descriptor_of (kind u))); [done|]. done. }
  destruct (ResolveClass LK load d) as [klass|] eqn:Er.
  { destruct (resolved_class d klass Hd Er) as [Hk Hp]. intros H Hc Hpre.
    edestruct cs_AddEntry as (Hc' & Ht & Hkt); [| |exact H|done|done|].
    - case_if; cbn; auto.
    - by case_if.
    - split; [done|]. split; [done|right]. apply named_kind; [by apply valid_ok|done|].
      rewrite Hkt. by case_if. }
  destruct (IsValidDescriptor _) as [[]|] eqn:Ev; [| |done].
  - intros H Hc Hpre. edestruct cs_AddEntry as (Hc' & Ht & Hkt); [| |exact H|done|done|]; [done..|].
    split; [done|]. split; [done|right]. apply named_kind; [by apply valid_ok|done|]. by rewrite Hkt.
  - intros [= <- <-] Hc Hpre. split; [done|]. split; [by apply fixed_valid|by left].
Qed.

(** What a descriptor of any type names. *)
Definition names (d : string) (t : RegType) : Prop :=
  t = Conflict \/ (reference_descriptor d = true /\ type_of_descriptor d t) \/
  exists p, p <> kPrimNot /\ p <> kPrimVoid /\ d = Primitive_Descriptor p /\
    t = RegTypeFromPrimitiveType p.

Lemma cm_FromDescriptor d precise : cmono (FromDescriptor LK load d precise).
Proof.
  unfold FromDescriptor. destruct d as [|c0 [|c1 d]]; [apply cm_lift|apply cm_ret|].
  case_if; [apply cm_From|apply cm_ret].
Qed.

Lemma primitive_letter c0 :
  let t := (if Ascii.eqb c0 "Z"%char then Boolean
            else if Ascii.eqb c0 "B"%char then Byte
            else if Ascii.eqb c0 "S"%char then Short
            else if Ascii.eqb c0 "C"%char then Char
            else if Ascii.eqb c0 "I"%char then Integer
            else if Ascii.eqb c0 "J"%char then LongLo
            else if Ascii.eqb c0 "F"%char then Float
            else if Ascii.eqb c0 "D"%char then DoubleLo
            else Conflict) in
  valid t /\ names (String c0 EmptyString) t.
Proof.
  cbv zeta.
  repeat match goal with |- context [Ascii.eqb c0 ?x] => destruct (Ascii.eqb_spec c0 x) as [->|_] end.
  9: by split; [apply fixed_valid|left].
  all: split; [by apply fixed_valid|right; right].
  - by exists kPrimBoolean.
  - by exists kPrimByte.
  - by exists kPrimShort.
  - by exists kPrimChar.
  - by exists kPrimInt.
  - by exists kPrimLong.
  - by exists kPrimFloat.
  - by exists kPrimDouble.
Qed.

Lemma cs_FromDescriptor d precise :
  cspec (FromDescriptor LK load d precise) (fun t => valid t /\ names d t).
Proof.
  unfold FromDescriptor. destruct d as [|c0 [|c1 d]].
  - by apply cs_lift.
  - apply cs_ret, primitive_letter.
  - destruct (Ascii.eqb c0 _ || _) eqn:Eb.
    + eapply cs_weaken; [by apply cs_From|]. intros t [Ht [->|Hn]]; split; auto; [by left|].
      right. by left.
    + apply cs_ret. split; [by apply fixed_valid|by left].
Qed.

(** *** Component types *)

(** What the type of a component says of the component's class: values of the
    class have the type, and primitive types are those of the class. *)
Definition component_type (c : Z) (t : RegType) : Prop :=
  if IsNonZeroReferenceTypes (kind t)
  then IsPrimitive CT c = false /\ forall e, has_class c e -> typed (kind t) e
  else t = Conflict \/ t = RegTypeFromPrimitiveType (GetPrimitiveTypeOf CT c) /\ IsPrimitive CT c = true.

Lemma assignable_primitive k c : assignable (CT := CT) k c -> IsPrimitive CT k = true -> c = k.
Proof.
  intros Ha Ep. inversion Ha as [|? Hp|? ? Hi Hf|? ? ? ? Hk|? ? Hanc]; subst; try done.
  - by rewrite object_not_primitive in Ep.
  - apply h_primitive in Ep as (_ & _ & Ep & _). congruence.
  - apply h_primitive in Ep as (_ & Ep & _). congruence.
  - destruct (decide (k = c)) as [|Hne]; [done|].
    destruct (ancestor_proper _ _ Hanc Hne) as (_ & _ & ?). congruence.
Qed.

Lemma component_of_class k c t :
  assignable (CT := CT) k c -> type_of_class k t -> component_type c t.
Proof.
  intros Ha Ht. unfold component_type, type_of_class in *. destruct (IsPrimitive CT k) eqn:Ep.
  - assert (c = k) as -> by by apply assignable_primitive.
    destruct (IsNonZeroReferenceTypes (kind t)) eqn:En; [|by right].
    subst t. by destruct (GetPrimitiveTypeOf CT k).
  - destruct Ht as [Hc Hr]. rewrite Hr. split; [by eapply assignable_not_primitive|].
    intros e He. apply (class_typed _ k); [done..|]. by eapply has_class_weaken.
Qed.

Lemma component_of_name d k c t :
  GetDescriptor CT k = d -> assignable (CT := CT) k c -> names d t -> component_type c t.
Proof.
  intros Hd Ha [->|[[Hr [Hn Ht]]|(p & Hpn & Hpv & Hpd & ->)]].
  - by left.
  - assert (IsPrimitive CT k = false) as Hp.
    { destruct (IsPrimitive CT k) eqn:Ep; [|done]. rewrite (GetDescriptor_primitive k Ep) in Hd.
      subst d. by destruct (GetPrimitiveTypeOf CT k). }
    unfold component_type. rewrite Hn. split; [by eapply assignable_not_primitive|].
    intros e He. apply Ht. eapply has_descriptor_class; [exact Hp|done|]. by eapply has_class_weaken.
  - apply (component_of_class k); [done|]. unfold type_of_class.
    destruct (IsPrimitive CT k) eqn:Ep.
    + rewrite (GetDescriptor_primitive k Ep) in Hd. f_equal. subst d.
      by destruct p, (GetPrimitiveTypeOf CT k).
    + exfalso. pose proof (array_descriptor k Ep) as Ha'. destruct (GetComponentType CT k) as [ct|] eqn:Ec.
      * rewrite (GetDescriptor_array _ _ Ec) in Hd. subst. by destruct p.
      * pose proof (ll_plain k Ep Ec) as Hl. rewrite <-(GetDescriptor_plain k Ep Ec), Hd, Hpd in Hl.
        by destruct p.
Qed.

Lemma cm_GetComponentType t : cmono (RegType_GetComponentType LK load t).
Proof.
  intros c u c'. unfold RegType_GetComponentType.
  repeat case_match; intros H'; try done; try (injection H' as _ <-; done).
  - by eapply cm_FromDescriptor.
  - by eapply cm_FromDescriptor.
  - by eapply cm_FromClass.
Qed.

(** The component type of the type of an array, for every array of that type. *)
Lemma cs_GetComponentType t :
  valid t -> IsUnresolvedMergedReference (kind t) = false ->
  cspec (RegType_GetComponentType LK load t) (fun u => valid u /\
    (u = Conflict \/ forall r, typed (kind t) r -> r <> 0 ->
       exists k c, klass_of r = Some k /\ GetComponentType CT k = Some c /\ component_type c u)).
Proof.
  intros Ht Hm c u c'. unfold RegType_GetComponentType.
  destruct (IsArrayTypes LK (entries_ c) (kind t)) eqn:Ea; cbn.
  2:{ intros [= <- <-] Hc Hpre. split; [done|]. split; [by apply fixed_valid|by left]. }
  assert (IsArrayTypes LK (entries_ c) (kind t) = base_IsArrayTypes LK (kind t)) as Hb
    by (by destruct (kind t)). rewrite Hb in Ea. unfold base_IsArrayTypes in Ea.
  destruct (IsUnresolvedTypes (kind t)) eqn:Eu.
  - intros H Hc Hpre. destruct (cs_FromDescriptor _ _ _ _ _ H Hc Hpre) as (Hc' & Hu & Hn).
    split; [done|]. split; [done|right]. intros r Htr Hr.
    destruct (IsUnresolvedSuperClass (kind t)) eqn:Es; [done|].
    assert (has_descriptor (descriptor_of (kind t)) r) as Hd by (by destruct (kind t)).
    destruct (has_descriptor_array _ _ Ea Hd) as [->|(k & ct & Hk & Hct & Hcd & k0 & c0 & Hk0 & Hc0 & Hcc)];
      [done|]. exists k0, c0. split_and!; [done..|]. by eapply component_of_name.
  - unfold class_test in Ea. destruct (GetClass LK (kind t)) as [k|] eqn:Ek; [|done].
    destruct (is_array_inv _ Ea) as (ct & Hct). rewrite Hct. intros H Hc Hpre.
    assert (forall r, typed (kind t) r -> r <> 0 -> array_of ct r) as Hall.
    { intros r Htr Hr. apply (class_typed _ k) in Htr; [|done|].
      - destruct Htr as [->|Htr]; [done|]. by eapply instance_array.
      - eapply class_kind_reference; [done|]. by eapply array_not_primitive. }
    case_match.
    + destruct (cs_FromDescriptor _ _ _ _ _ H Hc Hpre) as (Hc' & Hu & Hn). split; [done|].
      split; [done|right]. intros r Htr Hr. destruct (Hall r Htr Hr) as (k0 & c0 & Hk0 & Hc0 & Hcc).
      exists k0, c0. split_and!; [done..|]. by eapply component_of_name.
    + edestruct cs_FromClass as (Hc' & Hu & Hn); [|exact H|done|done|]; [by intros _; right|].
      split; [done|]. split; [done|right]. intros r Htr Hr.
      destruct (Hall r Htr Hr) as (k0 & c0 & Hk0 & Hc0 & Hcc). exists k0, c0. split_and!; [done..|].
      by eapply component_of_class.
Qed.

(** *** Derived types *)

Lemma cm_HighHalf t : cmono (HighHalf LK t).
Proof. unfold HighHalf. repeat case_if; [apply cm_ret..|apply cm_FromCat2ConstHi]. Qed.
Lemma cs_HighHalf t : cspec (HighHalf LK t) valid.
Proof.
  unfold HighHalf. repeat case_if; [apply cs_ret; by apply fixed_valid..|].
  eapply cs_weaken; [apply cs_FromCat2ConstHi|]. by intros u [? _].
Qed.

Lemma cm_Uninitialized t pc : cmono (Uninitialized LK t pc).
Proof.
  unfold Uninitialized. cbv zeta. case_if; [apply cm_find_or_add|].
  apply cm_bind; [apply cm_lift|intros; apply cm_find_or_add].
Qed.

(** The entry of a class kind, with its class. *)
Lemma class_entry k klass :
  entry_ok k -> GetClass LK k = Some klass -> IsNonZeroReferenceTypes k = true ->
  IsPrimitive CT klass = false /\ (descriptor_of k = EmptyString \/ descriptor_of k = GetDescriptor CT klass).
Proof. destruct k; cbn; try done; intros H [= ->] _; done. Qed.

Lemma unresolved_entry k :
  entry_ok k -> IsUnresolvedTypes k = true -> IsUnresolvedMergedReference k = false ->
  ResolveClass LK load (descriptor_of k) = None.
Proof. by destruct k. Qed.

Lemma cs_Uninitialized t pc :
  valid t -> IsNonZeroReferenceTypes (kind t) = true -> IsUnresolvedMergedReference (kind t) = false ->
  cspec (Uninitialized LK t pc) valid.
Proof.
  intros Ht Hn Hm. unfold Uninitialized. cbv zeta. case_if.
  - eapply cs_weaken; [apply cs_find_or_add; [|done]|by intros u [? _]].
    cbn. apply unresolved_entry; [by apply valid_ok|done..].
  - apply (cs_bind _ _ (fun k => GetClass LK (kind t) = Some k)); [by apply cs_lift|intros; apply cm_find_or_add|].
    intros k Hk. eapply cs_weaken; [apply cs_find_or_add; [|done]|by intros u [? _]].
    cbn. apply class_entry; [by apply valid_ok|done..].
Qed.

Lemma cm_UninitializedThisArgument t : cmono (UninitializedThisArgument LK t).
Proof.
  unfold UninitializedThisArgument. cbv zeta. case_if; [apply cm_find_or_add|].
  apply cm_bind; [apply cm_lift|intros; apply cm_find_or_add].
Qed.

Lemma cs_UninitializedThisArgument t :
  valid t -> IsNonZeroReferenceTypes (kind t) = true -> IsUnresolvedMergedReference (kind t) = false ->
  cspec (UninitializedThisArgument LK t) (fun u => valid u /\ forall r, typed (kind t) r -> typed (kind u) r).
Proof.
  intros Ht Hn Hm. unfold UninitializedThisArgument. cbv zeta. case_if.
  - eapply cs_weaken; [apply cs_find_or_add; [|done]|].
    + cbn. apply unresolved_entry; [by apply valid_ok|done..].
    + intros u [Hu Hk]. split; [done|]. intros r.
      assert (kind u = UnresolvedUninitializedThisRefType (descriptor_of (kind t))) as ->.
      { destruct Hk as [Hk|Hk]; [|done]. destruct (kind u); try done. by apply String.eqb_eq in Hk as ->. }
      pose proof (valid_ok _ Ht). by destruct (kind t).
  - apply (cs_bind _ _ (fun k => GetClass LK (kind t) = Some k)); [by apply cs_lift|intros; apply cm_find_or_add|].
    intros k Hk. eapply cs_weaken; [apply cs_find_or_add; [|done]|].
    + cbn. apply class_entry; [by apply valid_ok|done..].
    + intros u [Hu Hku]. split; [done|]. intros r Hr. apply (class_typed _ k) in Hr; [|done..].
      apply (class_typed _ k); [|by destruct Hku as [Hku|Hku]; destruct (kind u)|done].
      destruct Hku as [Hku|Hku]; [|by rewrite Hku]. destruct (kind u); try done. cbn.
      by apply Z.eqb_eq in Hku as ->.
Qed.

Lemma cm_FromUninitialized t : cmono (FromUninitialized LK t).
Proof.
  unfold FromUninitialized. cbv zeta. case_if; [apply cm_find_or_add|].
  apply cm_bind; [apply cm_lift|]. intros. repeat case_if; [apply cm_find_or_add..|apply cm_ret].
Qed.

Lemma cs_FromUninitialized t :
  valid t -> IsNonZeroReferenceTypes (kind t) = true -> IsUnresolvedMergedReference (kind t) = false ->
  cspec (FromUninitialized LK t) valid.
Proof.
  intros Ht Hn Hm. unfold FromUninitialized. cbv zeta. case_if.
  - eapply cs_weaken; [apply cs_find_or_add; [|done]|by intros u [? _]].
    cbn. apply unresolved_entry; [by apply valid_ok|done..].
  - apply (cs_bind _ _ (fun k => GetClass LK (kind t) = Some k)); [by apply cs_lift| |].
    { intros. repeat case_if; [apply cm_find_or_add..|apply cm_ret]. }
    intros k Hk. destruct (class_entry _ _ (valid_ok _ Ht) Hk Hn) as [Hp Hd].
    repeat case_if; try (apply cs_ret; by apply fixed_valid);
      (eapply cs_weaken; [apply cs_find_or_add; [|done]|by intros u [? _]]); cbn; auto.
Qed.

(** ** Merges *)

Lemma cm_merge_constants t u : cmono (merge_constants LK t u).
Proof.
  unfold merge_constants, ByteConstant, ShortConstant, IntConstant. cbv zeta.
  repeat case_if; first [apply cm_ret|apply cm_FromCat1Const].
Qed.
Lemma cm_unresolved_side t : cmono (unresolved_side LK t).
Proof.
  intros c x c'. unfold unresolved_side. repeat case_match; intros [= _ <-]; done.
Qed.
Lemma cm_unresolved_merge_entry ids t a b : cmono (unresolved_merge_entry LK ids t a b).
Proof.
  intros c x c'. unfold unresolved_merge_entry. cbv zeta.
  repeat case_if; [by intros [= _ <-]|by apply cm_JavaLangObject|by apply cm_find_or_add].
Qed.
Lemma cm_FromUnresolvedMerge SM t u :
  (forall t u, cmono (SM t u)) -> cmono (FromUnresolvedMerge LK SM t u).
Proof.
  intros H. apply cm_bind; [apply cm_unresolved_side|]. intros [[ids res] arr].
  apply cm_bind; [apply cm_unresolved_side|]. intros [[ids' res'] arr'].
  apply cm_bind; [apply H|]. intros. apply cm_unresolved_merge_entry.
Qed.
Lemma cm_merge_classes t u : cmono (merge_classes LK t u).
Proof.
  apply cm_bind; [apply cm_lift|intros c1]. apply cm_bind; [apply cm_lift|intros c2].
  destruct (ClassJoin _ _ c1 c2); [|apply cm_AddEntry|apply cm_lift].
  repeat case_if; [apply cm_ret..|apply cm_FromClass].
Qed.
Lemma cm_Merge_with SM t u : (forall t u, cmono (SM t u)) -> cmono (Merge_with LK SM t u).
Proof.
  intros H. unfold Merge_with, merge_references. cbv zeta.
  repeat case_if; first
    [ apply cm_ret | apply cm_merge_constants | apply cm_FromCat2ConstLo | apply cm_FromCat2ConstHi
    | apply cm_JavaLangObject | by apply cm_FromUnresolvedMerge | apply cm_merge_classes ].
Qed.
Lemma cm_Merge_rec fuel t u : cmono (Merge_rec LK fuel t u).
Proof.
  revert t u. induction fuel as [|fuel IH]; intros t u; cbn [Merge_rec]; apply cm_Merge_with;
    intros; case_if; auto using cm_ret, cm_lift.
Qed.
Lemma cm_Merge t u : cmono (Merge LK t u).
Proof. apply cm_Merge_rec. Qed.

(** The result of a merge: everything of either type has its type. *)
Definition merge_ok (t u v : RegType) : Prop :=
  valid v /\ (forall r, typed (kind t) r \/ typed (kind u) r -> typed (kind v) r) /\
  (Equals t u = false -> resolved_kind (kind t) -> resolved_kind (kind u) ->
   v = Conflict \/ resolved_kind (kind v)) /\
  kind v <> PreciseConstType 0.

(** Kinds that say nothing about references. *)
Definition unconstrained (k : RegKind) : bool :=
  negb (IsNonZeroReferenceTypes k) && negb (IsPreciseConstant k).
Lemma unconstrained_typed k r : unconstrained k = true -> typed k r.
Proof. by destruct k. Qed.

Lemma resolved_kind_cases k : resolved_kind k -> IsReferenceTypes k = true.
Proof.
  intros [->|(klass & _ & Hn)]; [done|]. unfold IsReferenceTypes. by rewrite Hn.
Qed.

(** Two resolved kinds that are not the same type are not both null. *)
Lemma resolved_not_constants t u :
  valid t -> valid u -> Equals t u = false -> resolved_kind (kind t) -> resolved_kind (kind u) ->
  IsConstant (kind t) && IsConstant (kind u) = false.
Proof.
  intros (Ht & _ & Zt) (Hu & _ & Zu) He [Kt|(k & _ & Hn)] [Ku|(k' & _ & Hn')].
  - specialize (Zt Kt). specialize (Zu Ku). unfold Equals, GetId in He. rewrite Zt, Zu in He.
    by rewrite Z.eqb_refl in He.
  - by rewrite andb_comm; destruct (kind u).
  - by destruct (kind t).
  - by destruct (kind t).
Qed.

Lemma merge_ok_unconstrained t u v :
  valid v -> unconstrained (kind v) = true ->
  (Equals t u = false -> resolved_kind (kind t) -> resolved_kind (kind u) -> v = Conflict \/ False) ->
  merge_ok t u v.
Proof.
  intros Hv Hu Hr. split_and!; [done|intros; by apply unconstrained_typed| |by intros H; rewrite H in Hu].
  intros H1 H2 H3. destruct (Hr H1 H2 H3); [by left|done].
Qed.

Lemma cs_merge_constants t u :
  valid t -> valid u -> IsConstant (kind t) = true -> IsConstant (kind u) = true ->
  cspec (merge_constants LK t u) (merge_ok t u).
Proof.
  intros Ht Hu Ct Cu.
  assert (forall v, valid v -> unconstrained (kind v) = true -> merge_ok t u v) as Hok.
  { intros v Hv Hk. apply merge_ok_unconstrained; [done..|]. intros He Rt Ru. exfalso.
    pose proof (resolved_not_constants t u Ht Hu He Rt Ru) as Hn. by rewrite Ct, Cu in Hn. }
  assert (forall v, cspec (FromCat1Const LK v false) (merge_ok t u)) as Hc.
  { intros v. eapply cs_weaken; [apply cs_FromCat1Const|]. intros w [Hw Hk]. apply Hok; [done|].
    by rewrite Hk. }
  unfold merge_constants, ByteConstant, ShortConstant, IntConstant. cbv zeta.
  repeat case_if; try apply Hc; apply cs_ret, Hok; try done;
    match goal with H : negb (IsPreciseConstant ?k) = true |- _ => by destruct k end.
Qed.

Lemma cs_merge_classes t u :
  valid t -> valid u -> IsNonZeroReferenceTypes (kind t) = true -> IsNonZeroReferenceTypes (kind u) = true ->
  cspec (merge_classes LK t u) (merge_ok t u).
Proof.
  intros Ht Hu Nt Nu. apply (cs_bind _ _ (fun k => GetClass LK (kind t) = Some k)).
  { by apply cs_lift. }
  { intros c1. apply cm_bind; [apply cm_lift|intros c2].
    destruct (ClassJoin _ _ c1 c2); [|apply cm_AddEntry|apply cm_lift].
    repeat case_if; [apply cm_ret..|apply cm_FromClass]. }
  intros c1 H1. apply (cs_bind _ _ (fun k => GetClass LK (kind u) = Some k)).
  { by apply cs_lift. }
  { intros c2. destruct (ClassJoin _ _ c1 c2); [|apply cm_AddEntry|apply cm_lift].
    repeat case_if; [apply cm_ret..|apply cm_FromClass]. }
  intros c2 H2. destruct (class_entry _ _ (valid_ok _ Ht) H1 Nt) as [P1 _].
  destruct (class_entry _ _ (valid_ok _ Hu) H2 Nu) as [P2 _].
  pose proof (ClassJoin_rec_ok (CT := CT) (FindArrayClass LK) ll_array_class (max_chain CT) c1 c2
    (h_rank c1) P1 P2) as Hj.
  pose proof (ll_join c1 c2 P1 P2) as Hn. unfold ClassJoin in *.
  destruct (ClassJoin_rec _ _ _ c1 c2) as [j| |]; [|done..]. destruct Hj as [A1 A2].
  assert (forall v, valid v -> GetClass LK (kind v) = Some j -> IsNonZeroReferenceTypes (kind v) = true ->
    merge_ok t u v) as Hok.
  { intros v Hv Hc Hnv. split_and!; [done| |intros; right; right; eauto|by intros H; rewrite H in Hnv].
    intros r Hr. apply (class_typed _ j); [done..|].
    destruct Hr as [Hr|Hr].
    - eapply has_class_weaken; [exact A1|]. by apply (class_typed (kind t)).
    - eapply has_class_weaken; [exact A2|]. by apply (class_typed (kind u)). }
  destruct ((c1 =? j) && _) eqn:E1; [apply cs_ret, Hok; try done; bools; congruence|].
  destruct ((c2 =? j) && _) eqn:E2; [apply cs_ret, Hok; try done; bools; congruence|].
  eapply cs_weaken; [apply cs_FromClass; by right|]. intros v [Hv Hc]. unfold type_of_class in Hc.
  destruct (IsPrimitive CT j) eqn:Ej; [|destruct Hc; by apply Hok].
  apply assignable_primitive in A1; [|done]. congruence.
Qed.

(** One side of a merge with unresolved types: the unresolved parts and a resolved
    part cover the type. *)
Definition unresolved_ids (ids : gset Z) : Prop :=
  forall id, id ∈ ids -> exists d, E !! Z.to_nat id = Some (UnresolvedReferenceType d) /\
    ResolveClass LK load d = None.
Definition ids_arrays (ids : gset Z) (arr : bool) : Prop :=
  forall id d, id ∈ ids -> E !! Z.to_nat id = Some (UnresolvedReferenceType d) ->
    is_array_descriptor d = arr.
Definition covers (ids : gset Z) (k : RegKind) (r : Z) : Prop :=
  typed k r \/ exists id ku, id ∈ ids /\ E !! Z.to_nat id = Some ku /\ base_typed ku r.
Definition side_ok (t : RegType) (ids : gset Z) (res : RegType) (arr : bool) : Prop :=
  valid res /\ resolved_kind (kind res) /\ unresolved_ids ids /\
  (arr = true \/ kind res = PreciseConstType 0 -> ids_arrays ids arr) /\
  (forall r, typed (kind t) r -> covers ids (kind res) r) /\
  (same_object res t = true -> ids = ∅).

Lemma resolved_base_typed k r : resolved_kind k -> typed k r <-> base_typed k r.
Proof. intros [->|(klass & Hc & _)]; [done|]. by destruct k. Qed.

Lemma same_object_valid t u : valid t -> valid u -> same_object t u = true -> kind t = kind u.
Proof.
  intros (Ht & _) (Hu & _) H%Nat.eqb_eq. rewrite H in Ht. congruence.
Qed.

Lemma resolved_side t klass :
  valid t -> GetClass LK (kind t) = Some klass -> IsNonZeroReferenceTypes (kind t) = true ->
  side_ok t ∅ t false.
Proof.
  intros Ht Hc Hn. split_and!; try done.
  - right. by exists klass.
  - intros r Hr. by left.
Qed.

Lemma unresolved_only_side t d :
  valid t -> kind t = UnresolvedReferenceType d -> side_ok t {[ GetId t ]} Zero (is_array_descriptor d).
Proof.
  intros Ht Ek. pose proof (valid_ok _ Ht) as Hok. rewrite Ek in Hok.
  assert (valid Zero) as Hz by by apply fixed_valid.
  assert (E !! Z.to_nat (GetId t) = Some (UnresolvedReferenceType d)) as Hl.
  { rewrite (valid_id t), Nat2Z.id by done. destruct Ht as [Ht _]. by rewrite Ht, Ek. }
  split_and!; try done.
  - by left.
  - intros id ->%elem_of_singleton. by exists d.
  - intros _ id d' ->%elem_of_singleton Hd. rewrite Hl in Hd. by injection Hd as <-.
  - intros r Hr. right. exists (GetId t), (UnresolvedReferenceType d). split_and!; [set_solver|done|].
    by rewrite Ek in Hr.
  - intros Hs. apply same_object_valid in Hs; [|done..]. by rewrite Ek in Hs.
Qed.

Lemma merged_side t res ids kr c :
  valid t -> kind t = UnresolvedMergedType res ids -> cache_ok c -> entries_ c `prefix_of` E ->
  entries_ c !! res = Some kr ->
  side_ok t ids {| position := res; kind := kr |} (merged_IsArrayTypes LK (entries_ c) res ids).
Proof.
  intros Ht Ek Hc Hpre Er. pose proof (valid_ok _ Ht) as Hok. rewrite Ek in Hok.
  pose proof (cache_valid c {| position := res; kind := kr |} Hc Hpre Er) as Hv.
  pose proof Hok as (kr' & Hr & Hres & Hbok & Hz13 & Hids & Ho).
  pose proof (prefix_lookup_Some _ _ _ _ Er Hpre) as Hr'. rewrite Hr in Hr'. injection Hr' as ->.
  split_and!; cbn [kind]; try done.
  - intros Ha. destruct (merged_IsArrayTypes LK (entries_ c) res ids) eqn:Em.
    + assert (entries_ c !! 0%nat = Some UndefinedType) as H0.
      { destruct Hc as (Ht0 & _). apply (f_equal (fun l => l !! 0%nat)) in Ht0.
        rewrite lookup_take_lt in Ht0 by (unfold primitive_count_; lia). by rewrite Ht0. }
      destruct (merged_array _ _ _ Hpre H0 Hok Em) as (kr1 & _ & _ & _ & _ & Hall).
      intros id d Hid Hd. destruct (Hall id Hid) as (d' & Hd' & _ & Hda). congruence.
    + destruct Ha as [|Ha]; [done|]. destruct (Ho (or_introl Ha)) as [_ Harr]. by rewrite Ha in Harr.
  - intros r Hrt. rewrite Ek in Hrt. destruct Hrt as [(k1 & Hk1 & Hb)|?]; [left|by right].
    rewrite Hr in Hk1. injection Hk1 as <-. by apply resolved_base_typed.
  - intros Hs. exfalso. apply same_object_valid in Hs; [|done..]. cbn in Hs. rewrite Ek in Hs. subst kr.
    by destruct Hres as [?|(? & ? & ?)].
Qed.

Lemma cs_unresolved_side t :
  valid t -> IsNonZeroReferenceTypes (kind t) = true -> IsUninitializedTypes (kind t) = false ->
  cspec (unresolved_side LK t) (fun x => side_ok t x.1.1 x.1.2 x.2).
Proof.
  intros Ht Hn Hi c x c' H Hc Hpre. pose proof (valid_ok _ Ht) as Hok.
  unfold unresolved_side in H. destruct (kind t) as [| | | | | | | | | | | | | | | | | |klass d pc|d pc|klass d|d|
    klass d|klass d|d|id|res ids] eqn:Ek; try done; cbn in H.
  - injection H as <- <-. split; [done|]. apply (resolved_side t klass); by rewrite ?Ek.
  - injection H as <- <-. split; [done|]. apply (resolved_side t klass); by rewrite ?Ek.
  - injection H as <- <-. split; [done|]. by apply unresolved_only_side.
  - destruct (entries_ c !! res) as [kr|] eqn:Er; [|done]. injection H as <- <-.
    split; [done|]. by apply merged_side.
Qed.

(** What is known of the merge of the resolved parts. *)
Definition parts_ok (t u v : RegType) : Prop :=
  valid v /\ (forall r, typed (kind t) r \/ typed (kind u) r -> typed (kind v) r) /\
  (v = Conflict \/ resolved_kind (kind v)) /\
  (kind v = PreciseConstType 0 -> kind t = PreciseConstType 0 /\ kind u = PreciseConstType 0).

Section UnresolvedMerge.
Context (t u : RegType) (Ht : valid t) (Hu : valid u).
Context (ids ids' : gset Z) (res res' merged : RegType) (arr arr' : bool).
Hypothesis St : side_ok t ids res arr.
Hypothesis Su : side_ok u ids' res' arr'.
Hypothesis Hm : parts_ok res res' merged.
Notation some_not_array :=
  ((negb arr && negb (same_object res t)) || (negb arr' && negb (same_object res' u))).

Lemma merge_covers r :
  typed (kind t) r \/ typed (kind u) r -> covers (ids ∪ ids') (kind merged) r.
Proof.
  destruct Hm as (_ & Hr & _).
  assert (forall a b, covers a b r -> (a ⊆ ids ∪ ids') -> (typed b r -> typed (kind merged) r) ->
    covers (ids ∪ ids') (kind merged) r) as Hc.
  { intros a b [Hb|(id & ku & Hid & Hk)] Ha Hb'; [left; auto|]. right. exists id, ku. split; [by apply Ha|done]. }
  destruct St as (_ & _ & _ & _ & Ct & _). destruct Su as (_ & _ & _ & _ & Cu & _).
  intros [H|H]; [apply (Hc ids (kind res))|apply (Hc ids' (kind res'))]; auto; set_solver.
Qed.

Lemma side_arrays t0 (i : gset Z) (s : RegType) (a : bool) :
  side_ok t0 i s a -> negb a && negb (same_object s t0) = false -> ids_arrays i true.
Proof.
  intros (_ & _ & _ & Ha & _ & Hs) H. destruct a; [by apply Ha; left|]. cbn in H.
  apply negb_false_iff in H. rewrite (Hs H). by intros id d Hid%not_elem_of_empty.
Qed.

Lemma merged_entry_ok :
  merged <> Conflict ->
  (arr || arr' || base_IsArrayTypes LK (kind merged)) &&
    ((base_IsArrayTypes LK (kind merged) && negb (base_IsObjectArrayTypes LK (kind merged)))
     || some_not_array || negb (base_IsArrayTypes LK (kind merged))) = false ->
  entry_ok (UnresolvedMergedType (position merged) (ids ∪ ids')).
Proof.
  intros Hne Hcond. destruct Hm as (Hv & _ & [?|Hres] & Hz); [done|]. exists (kind merged).
  pose proof Hv as (Hl & Hok & H13). destruct St as (_ & _ & It & At & _). destruct Su as (_ & _ & Iu & Au & _).
  assert (base_entry_ok (kind merged)) as Hb.
  { destruct Hres as [->|(klass & Hc & _)]; [done|]. by destruct (kind merged). }
  split_and!; [done..| |].
  - intros id [Hid|Hid]%elem_of_union; auto.
  - intros Hk. destruct (base_IsArrayTypes LK (kind merged)) eqn:Ea.
    + rewrite orb_true_r in Hcond. cbn in Hcond. rewrite orb_false_r in Hcond.
      apply orb_false_iff in Hcond as [Ho [Hnt Hnu]%orb_false_iff]. split; [intros _; by apply negb_false_iff|].
      intros id d [Hid|Hid]%elem_of_union;
        [by apply (side_arrays _ _ _ _ St Hnt)|by apply (side_arrays _ _ _ _ Su Hnu)].
    + destruct Hk as [Hk|]; [|done]. split; [done|]. destruct (Hz Hk) as [Kt Ku].
      rewrite orb_true_r, andb_true_r, orb_false_r in Hcond. apply orb_false_iff in Hcond as [Ht0 Hu0].
      rewrite Ht0 in At. rewrite Hu0 in Au.
      intros id d [Hid|Hid]%elem_of_union; [by apply (At (or_intror Kt))|by apply (Au (or_intror Ku))].
Qed.

Lemma parts_not_merged es : merged = Conflict \/ resolved_kind (kind merged) ->
  IsArrayTypes LK es (kind merged) = base_IsArrayTypes LK (kind merged) /\
  IsObjectArrayTypes LK es (kind merged) = base_IsObjectArrayTypes LK (kind merged).
Proof. intros [->|[->|(klass & Hc & _)]]; [done..|]. by destruct (kind merged). Qed.

Lemma cs_unresolved_merge_entry :
  IsReferenceTypes (kind t) = true -> IsReferenceTypes (kind u) = true ->
  IsUnresolvedTypes (kind t) || IsUnresolvedTypes (kind u) = true ->
  cspec (unresolved_merge_entry LK (ids ∪ ids') merged (arr || arr') some_not_array) (merge_ok t u).
Proof.
  intros Rt Ru Hun c v c' H Hc Hpre. unfold unresolved_merge_entry in H. cbv zeta in H.
  pose proof Hm as (Hv & _ & Hk & _). destruct (parts_not_merged (entries_ c) Hk) as [E1 E2].
  rewrite E1, E2 in H.
  assert (~ (resolved_kind (kind t) /\ resolved_kind (kind u))) as Hnr.
  { intros [[Kt|(k1 & Kt & _)] [Ku|(k2 & Ku & _)]]; rewrite ?Kt, ?Ku in Hun; cbn in Hun; try done;
      destruct (kind t), (kind u); done. }
  destruct (IsConflict (kind merged)) eqn:Ec.
  { injection H as <- <-. split; [done|]. apply merge_ok_unconstrained; [by apply fixed_valid|done|].
    intros _ ? ?. tauto. }
  destruct (_ && _) eqn:Econd in H.
  { destruct (cs_JavaLangObject false _ _ _ H Hc Hpre) as (Hc' & Hvv & Hob). split; [done|].
    split_and!; [done| |tauto|].
    - intros r Hr. apply (Object_typed v r Hob).
      destruct Hr as [Hr|Hr]; [apply (typed_object (kind t))|apply (typed_object (kind u))];
        auto using valid_ok.
    - unfold type_of_class in Hob. rewrite object_not_primitive in Hob. intros Hz. rewrite Hz in Hob.
      by destruct Hob. }
  assert (merged <> Conflict) as Hne by (by intros ->).
  edestruct cs_find_or_add as (Hc' & Hvv & Hf); [| |exact H|done|done|]; [by apply merged_entry_ok|done|].
  split; [done|]. assert (kind v = UnresolvedMergedType (position merged) (ids ∪ ids')) as Hkv.
  { destruct Hf as [Hf|Hf]; [|done]. destruct (kind v); try done. apply andb_prop in Hf as [Hp Hi].
    apply Nat.eqb_eq in Hp as ->. by apply bool_decide_eq_true in Hi as ->. }
  split_and!; [done| |tauto|by rewrite Hkv].
  intros r Hr. rewrite Hkv. destruct (merge_covers r Hr) as [Hr'|Hr']; [left|by right].
  exists (kind merged). destruct Hv as [Hl _]. split; [done|]. destruct Hk as [?|Hk]; [done|].
  by apply resolved_base_typed.
Qed.
End UnresolvedMerge.

Section MergeWith.
Context (SM : RegType -> RegType -> C RegType).
Hypothesis SM_mono : forall t u, cmono (SM t u).
Hypothesis SM_ok : forall t u, valid t -> valid u ->
  resolved_kind (kind t) -> resolved_kind (kind u) -> cspec (SM t u) (parts_ok t u).
Context (t u : RegType) (Ht : valid t) (Hu : valid u).

Lemma cs_FromUnresolvedMerge :
  IsNonZeroReferenceTypes (kind t) = true -> IsNonZeroReferenceTypes (kind u) = true ->
  IsUninitializedTypes (kind t) = false -> IsUninitializedTypes (kind u) = false ->
  IsUnresolvedTypes (kind t) || IsUnresolvedTypes (kind u) = true ->
  cspec (FromUnresolvedMerge LK SM t u) (merge_ok t u).
Proof.
  intros Nt Nu It Iu Hun. unfold FromUnresolvedMerge.
  eapply cs_bind; [by apply cs_unresolved_side| |].
  { intros [[ids res] arr]. apply cm_bind; [apply cm_unresolved_side|]. intros [[ids' res'] arr'].
    apply cm_bind; [apply SM_mono|]. intros. apply cm_unresolved_merge_entry. }
  intros [[ids res] arr] St. eapply cs_bind; [by apply cs_unresolved_side| |].
  { intros [[ids' res'] arr']. apply cm_bind; [apply SM_mono|]. intros. apply cm_unresolved_merge_entry. }
  intros [[ids' res'] arr'] Su. cbn in St, Su. eapply cs_bind.
  - pose proof St as (? & ? & _). pose proof Su as (? & ? & _). by apply SM_ok.
  - intros. apply cm_unresolved_merge_entry.
  - intros merged Hm. eapply cs_unresolved_merge_entry; try done;
      unfold IsReferenceTypes; by rewrite ?Nt, ?Nu.
Qed.

Lemma resolved_reference k : resolved_kind k -> IsNonZeroReferenceTypes k = true \/ IsZero k = true.
Proof. intros [->|(? & _ & ?)]; [by right|by left]. Qed.

Lemma merge_ok_select :
  IsReferenceTypes (kind t) = true -> IsReferenceTypes (kind u) = true ->
  IsConstant (kind t) && IsConstant (kind u) = false ->
  IsZero (kind t) || IsZero (kind u) = true -> merge_ok t u (SelectNonConstant t u).
Proof.
  intros Rt Ru Hc Hz.
  assert (forall a b r, valid b -> IsZero (kind a) = true -> typed (kind a) r \/ typed (kind b) r -> typed (kind b) r) as Hsel.
  { intros a b r Hb Ha [Hr|Hr]; [|done]. destruct (kind a); try done. cbn in Ha, Hr.
    apply Z.eqb_eq in Ha as ->. rewrite (Hr eq_refl). by apply typed_null, valid_ok. }
  unfold SelectNonConstant. destruct (IsZero (kind t)) eqn:Et.
  - assert (IsConstantTypes (kind t) = true) as -> by (by destruct (kind t)).
    split_and!; [done|intros r; by apply Hsel|by right|]. intros Hk. rewrite Hk in Hc.
    by destruct (kind t).
  - assert (IsConstantTypes (kind t) = false) as ->.
    { unfold IsReferenceTypes in Rt. rewrite Et, orb_false_r in Rt. by destruct (kind t). }
    split_and!; [done| |by right|].
    + intros r Hr. apply (Hsel u t); [done..|tauto].
    + intros Hk. by rewrite Hk in Et.
Qed.

Lemma cs_merge_references :
  IsReferenceTypes (kind t) = true -> IsReferenceTypes (kind u) = true ->
  IsConstant (kind t) && IsConstant (kind u) = false ->
  cspec (merge_references LK SM t u) (merge_ok t u).
Proof.
  intros Rt Ru Hc. unfold merge_references. cbv zeta.
  destruct (IsUninitializedTypes (kind t) || _) eqn:Ei.
  { apply cs_ret, merge_ok_unconstrained; [by apply fixed_valid|done|by left]. }
  apply orb_false_iff in Ei as [It Iu].
  destruct (IsZero (kind t) || IsZero (kind u)) eqn:Ez; [apply cs_ret; by apply merge_ok_select|].
  apply orb_false_iff in Ez as [Zt Zu]. pose proof Rt as Nt. pose proof Ru as Nu.
  unfold IsReferenceTypes in Nt, Nu. rewrite Zt, orb_false_r in Nt. rewrite Zu, orb_false_r in Nu.
  destruct (IsJavaLangObject LK (kind t) || _) eqn:Ej.
  { eapply cs_weaken; [apply cs_JavaLangObject|]. intros v [Hv Hob]. split_and!; [done| | |].
    - intros r Hr. apply (Object_typed v r Hob).
      destruct Hr as [Hr|Hr]; [apply (typed_object (kind t))|apply (typed_object (kind u))];
        auto using valid_ok.
    - intros _ _ _. right. right. unfold type_of_class in Hob. rewrite object_not_primitive in Hob. eauto.
    - unfold type_of_class in Hob. rewrite object_not_primitive in Hob. intros Hz. rewrite Hz in Hob.
      by destruct Hob. }
  destruct (IsUnresolvedTypes (kind t) || _) eqn:Eu; [by apply cs_FromUnresolvedMerge|].
  by apply cs_merge_classes.
Qed.

Lemma select_unconstrained :
  IsConstantTypes (kind t) && IsConstantTypes (kind u) = false ->
  negb (IsReferenceTypes (kind t)) || negb (IsReferenceTypes (kind u)) = true ->
  (IsConstantTypes (kind t) = false -> unconstrained (kind t) = true) ->
  (IsConstantTypes (kind u) = false -> unconstrained (kind u) = true) ->
  merge_ok t u (SelectNonConstant t u).
Proof.
  intros Hc Hr Kt Ku. unfold SelectNonConstant. destruct (IsConstantTypes (kind t)) eqn:Et;
    apply merge_ok_unconstrained; try done; auto.
  1,2: intros _ R1%resolved_kind_cases R2%resolved_kind_cases; by rewrite R1, R2 in Hr.
Qed.

Lemma cs_Merge_with : cspec (Merge_with LK SM t u) (merge_ok t u).
Proof.
  assert (forall v, valid v -> unconstrained (kind v) = true ->
    negb (IsReferenceTypes (kind t)) || negb (IsReferenceTypes (kind u)) = true -> merge_ok t u v) as Hun.
  { intros v Hv Hk Hr. apply merge_ok_unconstrained; [done..|].
    intros _ R1%resolved_kind_cases R2%resolved_kind_cases. by rewrite R1, R2 in Hr. }
  unfold Merge_with. cbv zeta.
  destruct (same_object t Undefined || _) eqn:E0.
  { apply cs_ret, Hun; [by apply fixed_valid|done|].
    apply orb_prop in E0 as [H|H]; apply same_object_valid in H; try done;
      try (by apply fixed_valid); rewrite H; cbn; by rewrite ?orb_true_r. }
  destruct (same_object t Conflict || _) eqn:E1.
  { apply cs_ret, merge_ok_unconstrained; [by apply fixed_valid|done|by left]. }
  destruct (IsConstant (kind t) && IsConstant (kind u)) eqn:E2.
  { apply andb_prop in E2 as [? ?]. by apply cs_merge_constants. }
  destruct (IsConstantLo (kind t) && IsConstantLo (kind u)) eqn:E3.
  { eapply cs_weaken; [apply cs_FromCat2ConstLo|]. intros v [Hv Hk].
    apply Hun; [done|by destruct (kind v)|]. apply andb_prop in E3 as [E3 _]. by destruct (kind t). }
  destruct (IsConstantHi (kind t) && IsConstantHi (kind u)) eqn:E4.
  { eapply cs_weaken; [apply cs_FromCat2ConstHi|]. intros v [Hv Hk].
    apply Hun; [done|by destruct (kind v)|]. apply andb_prop in E4 as [E4 _]. by destruct (kind t). }
  destruct (IsIntegralTypes (kind t) && IsIntegralTypes (kind u)) eqn:E5.
  { apply cs_ret, Hun.
    - unfold merge_integral. repeat case_if; by apply fixed_valid.
    - unfold merge_integral. by repeat case_if.
    - apply andb_prop in E5 as [I1 I2]. destruct (kind t), (kind u); try done; cbn; by rewrite ?orb_true_r. }
  destruct (_ || _ || _ || _ || _) eqn:E6.
  { apply cs_ret, select_unconstrained; destruct (kind t), (kind u); try done; cbn; by rewrite ?orb_true_r. }
  destruct (IsReferenceTypes (kind t) && IsReferenceTypes (kind u)) eqn:E7.
  { apply andb_prop in E7 as [? ?]. by apply cs_merge_references. }
  apply cs_ret, merge_ok_unconstrained; [by apply fixed_valid|done|by left].
Qed.
End MergeWith.

Lemma cs_Merge_rec fuel t u : valid t -> valid u -> cspec (Merge_rec LK fuel t u) (merge_ok t u).
Proof.
  revert t u. induction fuel as [|fuel IH]; intros t u Ht Hu; cbn [Merge_rec]; apply cs_Merge_with; try done.
  1,3: intros; case_if; auto using cm_ret, cm_lift, cm_Merge_rec.
  all: intros t' u' Ht' Hu' Rt Ru; destruct (Equals t' u') eqn:Eq;
    [apply cs_ret; rewrite <-(valid_Equals t' u') by done; split_and!; auto; tauto|].
  - by apply cs_lift.
  - eapply cs_weaken; [by apply IH|]. intros v (Hv & Hr & Hres & Hz). split_and!; auto. done.
Qed.

Lemma cs_Merge t u : valid t -> valid u -> cspec (Merge LK t u) (merge_ok t u).
Proof. apply cs_Merge_rec. Qed.
End World.
