(* ===== verification/SampleLinker.v ===== *)
(** * A class linker over the sample class table

    The linker finds every class of the table and nothing else; it satisfies the
    laws the soundness theorems assume. *)
From Stdlib Require Import String Ascii.
From stdpp Require Import gmap.
From S2P Require Import Prelude MirrorClass RegType RegTypeFacts.

Definition class_named (descriptor : string) : option Z :=
  find (fun k => String.eqb (GetDescriptor sample_table k) descriptor) (map Z.of_nat (seq 0 28)).
(** Type index [i] names class [i]. *)
Definition class_index (i : Z) : option Z := if (0 <=? i) && (i <? 28) then Some i else None.
Definition sample_primitive (p : Primitive) : Z :=
  match p with
  | kPrimBoolean => 7 | kPrimByte => 8 | kPrimChar => 9 | kPrimShort => 10 | kPrimInt => 11
  | kPrimLong => 12 | kPrimFloat => 13 | kPrimDouble => 14 | _ => 28
  end.
Definition sample_linker : ClassLinker :=
  {| classes := sample_table; primitive_class := sample_primitive; GetJavaLangClass := 2;
     GetJavaLangString := 1; GetJavaLangThrowable := 3; FindClass_linker := class_named;
     LookupClass := class_named; ResolveType := class_index; LookupResolvedType := class_index;
     FindArrayClass := sample_array_class |}.
(** Type 30 names a class that does not exist. *)
Definition sample_names (i : Z) : string :=
  if i =? 30 then "Lmissing;"%string else GetDescriptor sample_table i.

(** ** The laws *)

Lemma class_named_descriptor d k : class_named d = Some k -> GetDescriptor sample_table k = d.
Proof. intros [_ H]%find_some. by apply String.eqb_eq in H. Qed.

Lemma class_index_name i k : class_index i = Some k -> GetDescriptor sample_table k = sample_names i.
Proof.
  unfold class_index, sample_names. destruct (_ && _) eqn:E; [|done]. intros [= <-]. bools.
  by destruct (Z.eqb_spec i 30); [lia|].
Qed.

(** Outside the table there are only primitive classes. *)
Lemma sample_class_range k : IsPrimitive sample_table k = false -> k ∈ map Z.of_nat (seq 0 28).
Proof.
  intros Hp. apply list_elem_of_In. destruct (decide (0 <= k < 28)) as [Hk|Hk].
  - apply in_map_iff. exists (Z.to_nat k). split; [lia|]. apply in_seq. lia.
  - exfalso. revert Hp. unfold IsPrimitive, GetPrimitiveTypeOf. cbn [class_at sample_table].
    destruct (Z.leb_spec 0 k); [|done]. by rewrite nth_overflow by (change (length sample_classes) with 28%nat; lia).
Qed.

Definition classes_distinct (k k' : Z) : bool :=
  IsPrimitive sample_table k || IsPrimitive sample_table k' ||
  negb (String.eqb (GetDescriptor sample_table k) (GetDescriptor sample_table k')) || (k =? k').
Lemma sample_unique k k' : IsPrimitive sample_table k = false -> IsPrimitive sample_table k' = false ->
  GetDescriptor sample_table k = GetDescriptor sample_table k' -> k = k'.
Proof.
  intros Hk Hk' Hd.
  assert (forallb (fun k => forallb (classes_distinct k) (map Z.of_nat (seq 0 28)))
    (map Z.of_nat (seq 0 28)) = true) as H by (vm_compute; reflexivity).
  rewrite forallb_forall in H. specialize (H k (proj1 (list_elem_of_In _ _) (sample_class_range k Hk))).
  rewrite forallb_forall in H. specialize (H k' (proj1 (list_elem_of_In _ _) (sample_class_range k' Hk'))).
  unfold classes_distinct in H. rewrite Hk, Hk', Hd, String.eqb_refl in H. by apply Z.eqb_eq.
Qed.

Definition join_exists (k k' : Z) : bool :=
  match ClassJoin sample_table sample_array_class k k' with JoinNull => false | _ => true end.
Lemma sample_join k k' : IsPrimitive sample_table k = false -> IsPrimitive sample_table k' = false ->
  ClassJoin sample_table sample_array_class k k' <> JoinNull.
Proof.
  intros Hk Hk'.
  assert (forallb (fun k => forallb (join_exists k) (map Z.of_nat (seq 0 28)))
    (map Z.of_nat (seq 0 28)) = true) as H by (vm_compute; reflexivity).
  rewrite forallb_forall in H. specialize (H k (proj1 (list_elem_of_In _ _) (sample_class_range k Hk))).
  rewrite forallb_forall in H. specialize (H k' (proj1 (list_elem_of_In _ _) (sample_class_range k' Hk'))).
  unfold join_exists in H. by destruct (ClassJoin _ _ _ _).
Qed.

Lemma sample_plain k : IsPrimitive sample_table k = false -> GetComponentType sample_table k = None ->
  is_class_descriptor (dex_descriptor_ (class_at sample_table k)) = true.
Proof.
  intros Hk Hc.
  assert (forallb (fun k => IsPrimitive sample_table k ||
    bool_decide (is_Some (GetComponentType sample_table k)) ||
    is_class_descriptor (dex_descriptor_ (class_at sample_table k))) (map Z.of_nat (seq 0 28)) = true)
    as H by (vm_compute; reflexivity).
  rewrite forallb_forall in H. specialize (H k (proj1 (list_elem_of_In _ _) (sample_class_range k Hk))).
  by rewrite Hk, Hc in H.
Qed.
Lemma sample_no_void k c : GetComponentType sample_table k = Some c ->
  GetPrimitiveTypeOf sample_table c <> kPrimVoid.
Proof. revert k c. by_sample_classes. Qed.

#[export] Instance sample_laws load : LinkerLaws sample_linker sample_hierarchy load sample_names.
Proof.
  split.
  - split; vm_compute; reflexivity.
  - vm_compute; reflexivity.
  - split; vm_compute; reflexivity.
  - split; vm_compute; reflexivity.
  - by intros [].
  - apply class_named_descriptor.
  - apply class_named_descriptor.
  - apply class_index_name.
  - apply class_index_name.
  - apply sample_unique.
  - apply sample_plain.
  - apply sample_no_void.
  - apply sample_array_component.
  - apply sample_join.
  - intros d Hd. repeat (apply elem_of_cons in Hd as [->|Hd]; [by destruct load; vm_compute|]).
    by apply not_elem_of_nil in Hd.
Qed.
