(* ===== verification/RegTypeSoundness.v ===== *)
(** * Soundness of the register types

    Merging and assigning register types never loses a value: what a type says
    about a register also holds of the types the verifier derives from it. *)
From Stdlib Require Import String Ascii.
From stdpp Require Import gmap.
From S2P Require Import Prelude Utf Descriptors MirrorClass RegType RegTypeFacts SampleLinker.

Section Soundness.
Context {LK : ClassLinker} {CH : ClassHierarchy (classes LK)} {load : bool}.
Context {StringByTypeIdx : Z -> string} {LL : LinkerLaws LK CH load StringByTypeIdx}.

Notation typed := (typed (LK := LK)).
Notation entry_ok := (entry_ok (LK := LK) (load := load)).
Notation cache_ok := (cache_ok (LK := LK) (load := load)).
Notation merge_ok := (merge_ok (LK := LK) (load := load)).

(** ** Caches that grow *)

Section Grow.
Context (es es' : list RegKind) (Hpre : es `prefix_of` es').

Lemma entry_ok_grow k : entry_ok es k -> entry_ok es' k.
Proof.
  destruct k; try done. intros (kr & Hr & Hres & Hb & Hz & Hids & Ha). exists kr.
  split_and!; try done; [by eapply prefix_lookup_Some| |].
  - intros id Hid. destruct (Hids id Hid) as (d & Hd & Hn). exists d. split; [by eapply prefix_lookup_Some|done].
  - intros H. destruct (Ha H) as [Ho Harr]. split; [done|]. intros id d Hid Hd.
    destruct (Hids id Hid) as (d' & Hd' & _). apply (Harr id d Hid).
    pose proof (prefix_lookup_Some _ _ _ _ Hd' Hpre). congruence.
Qed.

Lemma cache_ok_grow c : cache_ok es c -> cache_ok es' c.
Proof.
  intros (Ht & Hf & ? & ?). split_and!; [done| |done..].
  eapply Forall_impl; [|done]. intros k. apply entry_ok_grow.
Qed.

Lemma typed_grow klass_of k r : typed klass_of es k r -> typed klass_of es' k r.
Proof.
  destruct k; try done. intros [(kr & Hr & Hb)|(id & ku & Hid & Hu & Hb)]; [left|right].
  - exists kr. split; [by eapply prefix_lookup_Some|done].
  - exists id, ku. split_and!; [done|by eapply prefix_lookup_Some|done].
Qed.
End Grow.

Lemma cache_ok_fill es c : cache_ok es c ->
  FillPrimitiveAndSmallConstantTypes `prefix_of` entries_ c.
Proof. intros (<- & _). exists (drop primitive_count_ (entries_ c)). by rewrite take_drop. Qed.


End Soundness.

(** ** Arrays of exceptions and of errors *)

Definition exceptions : RegType :=
  {| position := 18; kind := ReferenceType 25 "[Ljava/lang/Exception;" |}.
Definition errors : RegType := {| position := 19; kind := ReferenceType 26 "[Ljava/lang/Error;" |}.
Definition throwables : RegType :=
  {| position := 20; kind := ReferenceType 24 "[Ljava/lang/Throwable;" |}.
Definition two_arrays : RegTypeCache :=
  {| entries_ := FillPrimitiveAndSmallConstantTypes ++ [kind exceptions; kind errors];
     klass_entries_ := [(25, 18%nat); (26, 19%nat)] |}.
Definition three_arrays : RegTypeCache :=
  {| entries_ := entries_ two_arrays ++ [kind throwables];
     klass_entries_ := klass_entries_ two_arrays ++ [(24, 20%nat)] |}.

Lemma sample_cache_ok (l : list Z) (es : list RegKind) ks c :
  es = map (fun k => ReferenceType k (GetDescriptor sample_table k)) l ->
  Forall (fun k => IsPrimitive sample_table k = false) l ->
  c = {| entries_ := FillPrimitiveAndSmallConstantTypes ++ es; klass_entries_ := ks |} ->
  (forall klass i, (klass, i) ∈ ks -> exists k, entries_ c !! i = Some k /\ GetClass sample_linker k = Some klass) ->
  cache_ok (LK := sample_linker) (load := true) (entries_ c) c.
Proof.
  intros -> Hl -> Hk. split_and!; [done| | |done].
  - apply Forall_app. split; [apply (fill_ok (load := true))|]. apply Forall_map.
    eapply Forall_impl; [|done]. intros k Hp. cbn. auto.
  - intros p Hp. cbn [entries_] in Hp. apply lookup_app_Some in Hp as [Hp|[_ Hp]].
    + by apply fill_zero.
    + apply list_elem_of_lookup_2, list_elem_of_fmap in Hp as (k & ? & _). done.
Qed.

Lemma two_arrays_ok : cache_ok (LK := sample_linker) (load := true) (entries_ two_arrays) two_arrays.
Proof.
  eapply (sample_cache_ok [25; 26]); [reflexivity|repeat constructor|reflexivity|].
  intros klass i H. repeat (apply elem_of_cons in H as [[= -> ->]|H]; [eexists; split; reflexivity|]).
  by apply not_elem_of_nil in H.
Qed.
Lemma three_arrays_ok : cache_ok (LK := sample_linker) (load := true) (entries_ three_arrays) three_arrays.
Proof.
  eapply (sample_cache_ok [25; 26; 24]); [reflexivity|repeat constructor|reflexivity|].
  intros klass i H. repeat (apply elem_of_cons in H as [[= -> ->]|H]; [eexists; split; reflexivity|]).
  by apply not_elem_of_nil in H.
Qed.


