(* ===== verification/LockWord.v ===== *)
(** * Lock words ([runtime/lock_word.h], [runtime/lock_word-inl.h])

    The 32-bit word in every object header: unlocked, thin-locked by a thread,
    a monitor id, an identity hash, or a forwarding address, with the two GC
    bits (mark and read barrier) beside the first four.  A word is its [uint32_t]
    value; a failing [CHECK] of a constructor is [None].  [kUseReadBarrier] is
    the build's configuration. *)
From S2P Require Import Prelude BitUtils.

(** ** Layout *)

Definition kStateSize : Z := 2.
Definition kReadBarrierStateSize : Z := 1.
Definition kMarkBitStateSize : Z := 1.
Definition kThinLockOwnerSize : Z := 16.
Definition kThinLockCountSize : Z :=
  32 - kThinLockOwnerSize - kStateSize - kReadBarrierStateSize - kMarkBitStateSize.
Definition kThinLockOwnerShift : Z := 0.
Definition kThinLockOwnerMask : Z := (1 << kThinLockOwnerSize) - 1.
Definition kThinLockMaxOwner : Z := kThinLockOwnerMask.
Definition kThinLockCountShift : Z := kThinLockOwnerSize + kThinLockOwnerShift.
Definition kThinLockCountMask : Z := (1 << kThinLockCountSize) - 1.
Definition kThinLockMaxCount : Z := kThinLockCountMask.
Definition kStateShift : Z :=
  kReadBarrierStateSize + kThinLockCountSize + kThinLockCountShift + kMarkBitStateSize.
Definition kStateMask : Z := (1 << kStateSize) - 1.
Definition kStateThinOrUnlocked : Z := 0.
Definition kStateFat : Z := 1.
Definition kStateHash : Z := 2.
Definition kStateForwardingAddress : Z := 3.
Definition kStateForwardingAddressShifted : Z := u32 (kStateForwardingAddress << kStateShift).
Definition kReadBarrierStateShift : Z := kThinLockCountSize + kThinLockCountShift.
Definition kReadBarrierStateMask : Z := (1 << kReadBarrierStateSize) - 1.
Definition kReadBarrierStateMaskShifted : Z := kReadBarrierStateMask << kReadBarrierStateShift.
Definition kMarkBitStateShift : Z := kReadBarrierStateSize + kReadBarrierStateShift.
Definition kMarkBitStateMask : Z := (1 << kMarkBitStateSize) - 1.
Definition kMarkBitStateMaskShifted : Z := kMarkBitStateMask << kMarkBitStateShift.
Definition kMarkBitStateMaskShiftedToggled : Z := u32 (Z.lnot kMarkBitStateMaskShifted).
Definition kGCStateShift : Z := kReadBarrierStateShift.
Definition kGCStateMaskShifted : Z := kReadBarrierStateMaskShifted ||| kMarkBitStateMaskShifted.
Definition kGCStateMaskShiftedToggled : Z := u32 (Z.lnot kGCStateMaskShifted).
Definition kHashShift : Z := 0.
Definition kHashSize : Z := 32 - kStateSize - kReadBarrierStateSize - kMarkBitStateSize.
Definition kHashMask : Z := (1 << kHashSize) - 1.
Definition kMaxHash : Z := kHashMask.
Definition kObjectAlignmentShift : Z := 3.
Definition kForwardingAddressShift : Z := kObjectAlignmentShift.
Definition kMonitorIdShift : Z := kHashShift.
Definition kMonitorIdMask : Z := kHashMask.
Definition kMaxMonitorId : Z := kMaxHash.

(** ** Construction *)

Definition FromThinLockId (thread_id count gc_state : Z) : option Z :=
  if (thread_id <=? kThinLockMaxOwner) && (count <=? kThinLockMaxCount) then
    Some (u32 (thread_id << kThinLockOwnerShift) ||| u32 (count << kThinLockCountShift)
          ||| u32 (gc_state << kGCStateShift) ||| u32 (kStateThinOrUnlocked << kStateShift))
  else None.

Definition FromForwardingAddress (target : Z) : Z :=
  u32 ((target >> kForwardingAddressShift) ||| kStateForwardingAddressShifted).

Definition FromHashCode (hash_code gc_state : Z) : option Z :=
  if hash_code <=? kMaxHash then
    Some (u32 (hash_code << kHashShift) ||| u32 (gc_state << kGCStateShift)
          ||| u32 (kStateHash << kStateShift))
  else None.

Definition FromDefault (gc_state : Z) : Z := u32 (gc_state << kGCStateShift).
Definition Default : Z := 0.
Definition IsDefault (lw : Z) : bool := Default =? lw.

(** [LockWord(Monitor*, gc_state)], by the monitor's id. *)
Definition FromMonitorId (monitor_id gc_state : Z) : Z :=
  monitor_id ||| u32 (gc_state << kGCStateShift) ||| u32 (kStateFat << kStateShift).

(** ** Observation *)

Inductive LockState :=
| kUnlocked | kThinLocked | kFatLocked | kHashCode | kForwardingAddress.

#[global] Instance LockState_eq_dec : EqDecision LockState.
Proof. solve_decision. Defined.

Definition GetState (kUseReadBarrier : bool) (value : Z) : LockState :=
  if (negb kUseReadBarrier && (value =? 0))
     || (kUseReadBarrier && (value &&& kGCStateMaskShiftedToggled =? 0))
  then kUnlocked
  else
    let internal_state := (value >> kStateShift) &&& kStateMask in
    if internal_state =? kStateThinOrUnlocked then kThinLocked
    else if internal_state =? kStateHash then kHashCode
    else if internal_state =? kStateForwardingAddress then kForwardingAddress
    else kFatLocked.

Definition ReadBarrierState (value : Z) : Z :=
  (value >> kReadBarrierStateShift) &&& kReadBarrierStateMask.
Definition GCState (value : Z) : Z := (value &&& kGCStateMaskShifted) >> kGCStateShift.
Definition MarkBitState (value : Z) : Z := (value >> kMarkBitStateShift) &&& kMarkBitStateMask.
Definition ThinLockOwner (value : Z) : Z := (value >> kThinLockOwnerShift) &&& kThinLockOwnerMask.
Definition ThinLockCount (value : Z) : Z := (value >> kThinLockCountShift) &&& kThinLockCountMask.
Definition FatLockMonitorId (value : Z) : Z := (value >> kMonitorIdShift) &&& kMonitorIdMask.
Definition ForwardingAddress (value : Z) : Z := u32 (value << kForwardingAddressShift).
Definition GetHashCode (value : Z) : Z := (value >> kHashShift) &&& kHashMask.
Definition GetValueWithoutGCState (value : Z) : Z := value &&& kGCStateMaskShiftedToggled.
Definition Equal (kIncludeReadBarrierState : bool) (lw1 lw2 : Z) : bool :=
  if kIncludeReadBarrierState then lw1 =? lw2
  else GetValueWithoutGCState lw1 =? GetValueWithoutGCState lw2.

(** ** GC bits *)

Definition SetReadBarrierState (value rb_state : Z) : Z :=
  (value &&& u32 (Z.lnot (kReadBarrierStateMask << kReadBarrierStateShift)))
  ||| ((rb_state &&& kReadBarrierStateMask) << kReadBarrierStateShift).
Definition SetMarkBitState (value mark_bit : Z) : Z :=
  (value &&& kMarkBitStateMaskShiftedToggled) ||| u32 (mark_bit << kMarkBitStateShift).

(** ** Fields *)

(** A word as the arithmetic combination of its state, GC and payload fields. *)
Definition compose (state gc payload : Z) : Z := payload + gc * 2 ^ 28 + state * 2 ^ 30.

Lemma compose_decompose v :
  v = compose (v / 2 ^ 30) ((v / 2 ^ 28) mod 4) (v mod 2 ^ 28).
Proof. unfold compose. pows. zdiv. Qed.

Lemma compose_range st gc p :
  0 <= st < 4 -> 0 <= gc < 4 -> 0 <= p < 2 ^ 28 -> in_u 32 (compose st gc p).
Proof. unfold compose, in_u. pows. lia. Qed.

(** The masks that leave out a field. *)
Lemma land_clear_field v m k n :
  in_u 32 v -> 0 <= k -> 0 <= n -> k + n <= 32 ->
  m = u32 (Z.lnot (Z.ones n << k)) ->
  v &&& m = v - ((v / 2 ^ k) mod 2 ^ n) * 2 ^ k.
Proof.
  intros Hv Hk Hn Hkn ->.
  assert (Hs : ((v / 2 ^ k) mod 2 ^ n) * 2 ^ k = v &&& (Z.ones n << k)).
  { rewrite <- Z.shiftl_mul_pow2, <- Z.shiftr_div_pow2, <- Z.land_ones by lia.
    apply Z.bits_inj'. intros i Hi. rewrite Z.land_spec, !Z.shiftl_spec, Z.land_spec by lia.
    destruct (Z.lt_ge_cases i k).
    - by rewrite !(Z.testbit_neg_r _ (i - k)), !andb_false_r by lia.
    - rewrite Z.shiftr_spec by lia. do 2 f_equal. lia. }
  rewrite Hs.
  assert (v = (v &&& u32 (Z.lnot (Z.ones n << k))) + (v &&& (Z.ones n << k))) as E; [|lia].
  rewrite Z.add_nocarry_lor.
  - apply Z.bits_inj'. intros i Hi. rewrite Z.lor_spec, !Z.land_spec.
    destruct (Z.lt_ge_cases i 32).
    + rewrite testbit_low_u, Z.lnot_spec by lia.
      by destruct (Z.testbit v i), (Z.testbit (Z.ones n << k) i).
    + by rewrite (testbit_high_u 32 v) by (try done; lia).
  - apply Z.bits_inj'. intros i Hi. rewrite !Z.land_spec, Z.bits_0.
    destruct (Z.lt_ge_cases i 32).
    + rewrite testbit_low_u, Z.lnot_spec by lia.
      by destruct (Z.testbit v i), (Z.testbit (Z.ones n << k) i).
    + by rewrite (testbit_high_u 32 v) by (try done; lia).
Qed.

Lemma GetValueWithoutGCState_eq v :
  in_u 32 v -> GetValueWithoutGCState v = v - ((v / 2 ^ 28) mod 4) * 2 ^ 28.
Proof. intros. by apply (land_clear_field v _ 28 2). Qed.

(** The accessors as arithmetic. *)
Lemma accessors_eq v :
  in_u 32 v ->
  ThinLockOwner v = v mod 2 ^ 16 /\ ThinLockCount v = (v / 2 ^ 16) mod 2 ^ 12 /\
  GetHashCode v = v mod 2 ^ 28 /\ FatLockMonitorId v = v mod 2 ^ 28 /\
  GCState v = (v / 2 ^ 28) mod 4 /\ ReadBarrierState v = (v / 2 ^ 28) mod 2 /\
  MarkBitState v = (v / 2 ^ 29) mod 2 /\ (v >> kStateShift) &&& kStateMask = v / 2 ^ 30.
Proof.
  intros Hv.
  repeat split;
    unfold ThinLockOwner, ThinLockCount, GetHashCode, FatLockMonitorId, GCState,
      ReadBarrierState, MarkBitState.
  - change kThinLockOwnerMask with (2 ^ 16 - 1). rewrite land_ones_mod by lia. reflexivity.
  - change kThinLockCountMask with (2 ^ 12 - 1). rewrite land_ones_mod by lia.
    by rewrite Z.shiftr_div_pow2.
  - change kHashMask with (2 ^ 28 - 1). rewrite land_ones_mod by lia. reflexivity.
  - change kMonitorIdMask with (2 ^ 28 - 1). rewrite land_ones_mod by lia. reflexivity.
  - rewrite Z.shiftr_land. change (kGCStateMaskShifted >> kGCStateShift) with (2 ^ 2 - 1).
    rewrite land_ones_mod by lia. by rewrite Z.shiftr_div_pow2.
  - change kReadBarrierStateMask with (2 ^ 1 - 1). rewrite land_ones_mod by lia.
    by rewrite Z.shiftr_div_pow2.
  - change kMarkBitStateMask with (2 ^ 1 - 1). rewrite land_ones_mod by lia.
    by rewrite Z.shiftr_div_pow2.
  - change kStateMask with (2 ^ 2 - 1). change kStateShift with 30.
    rewrite land_ones_mod, Z.shiftr_div_pow2 by lia. unfold in_u in Hv. apply Z.mod_small. pows. zdiv.
Qed.

Section Compose.
Context (st gc p : Z) (Hst : 0 <= st < 4) (Hgc : 0 <= gc < 4) (Hp : 0 <= p < 2 ^ 28).

Lemma compose_fields :
  ThinLockOwner (compose st gc p) = p mod 2 ^ 16 /\
  ThinLockCount (compose st gc p) = p / 2 ^ 16 /\
  GetHashCode (compose st gc p) = p /\ FatLockMonitorId (compose st gc p) = p /\
  GCState (compose st gc p) = gc /\ ReadBarrierState (compose st gc p) = gc mod 2 /\
  MarkBitState (compose st gc p) = gc / 2.
Proof.
  pose proof (compose_range st gc p Hst Hgc Hp) as Hr.
  destruct (accessors_eq _ Hr) as (-> & -> & -> & -> & -> & -> & -> & _).
  unfold compose. pows. repeat split; zdiv.
Qed.

Lemma compose_without_gc : GetValueWithoutGCState (compose st gc p) = compose st 0 p.
Proof.
  rewrite GetValueWithoutGCState_eq by (by apply compose_range). unfold compose. pows. zdiv.
Qed.

Lemma compose_GetState rb :
  (rb = false -> st = 0 -> gc = 0) ->
  GetState rb (compose st gc p) =
  (if (st =? 0) && (p =? 0) then kUnlocked
   else if st =? 0 then kThinLocked else if st =? 2 then kHashCode
   else if st =? 3 then kForwardingAddress else kFatLocked).
Proof.
  intros Hrb. unfold GetState. fold (GetValueWithoutGCState (compose st gc p)).
  destruct (accessors_eq _ (compose_range st gc p Hst Hgc Hp)) as (_ & _ & _ & _ & _ & _ & _ & ->).
  rewrite compose_without_gc.
  assert ((negb rb && (compose st gc p =? 0)) || (rb && (compose st 0 p =? 0)) =
          (st =? 0) && (p =? 0)) as ->.
  { destruct rb; simpl; rewrite ?orb_false_r; unfold compose; pows;
      destruct (Z.eqb_spec st 0) as [E|E], (Z.eqb_spec p 0); simpl;
      try rewrite (Hrb eq_refl E);
      first [apply Z.eqb_eq; lia|apply Z.eqb_neq; lia]. }
  unfold compose. pows.
  replace ((p + gc * 268435456 + st * 1073741824) / 1073741824) with st by zdiv. done.
Qed.
End Compose.

(** The constructors in terms of fields. *)
Lemma lor_gc_state p gc st :
  0 <= st < 4 -> 0 <= gc < 4 -> 0 <= p < 2 ^ 28 ->
  p ||| u32 (gc << kGCStateShift) ||| u32 (st << kStateShift) = compose st gc p.
Proof.
  intros Hst Hgc Hp. change kGCStateShift with 28. change kStateShift with 30.
  rewrite !wrap_u_id by (rewrite Z.shiftl_mul_pow2 by lia; unfold in_u; pows; lia).
  rewrite (lor_shiftl p gc 28), lor_shiftl by (pows; lia). unfold compose. lia.
Qed.

Lemma FromThinLockId_compose id count gc :
  0 <= id -> 0 <= count -> 0 <= gc < 4 ->
  FromThinLockId id count gc =
  (if (id <=? kThinLockMaxOwner) && (count <=? kThinLockMaxCount)
   then Some (compose 0 gc (id + count * 2 ^ 16)) else None).
Proof.
  intros Hi Hc Hg. unfold FromThinLockId. case_if; [|done]. bools.
  change kThinLockMaxOwner with 65535 in *. change kThinLockMaxCount with 4095 in *. f_equal.
  change kThinLockOwnerShift with 0. change kThinLockCountShift with 16.
  rewrite Z.shiftl_0_r, (wrap_u_id 32 id), (wrap_u_id 32 (count << 16))
    by (rewrite ?Z.shiftl_mul_pow2 by lia; unfold in_u; pows; lia).
  rewrite lor_shiftl by (pows; lia). apply lor_gc_state; pows; lia.
Qed.

Lemma FromHashCode_compose hash gc :
  0 <= hash -> 0 <= gc < 4 ->
  FromHashCode hash gc = (if hash <=? kMaxHash then Some (compose 2 gc hash) else None).
Proof.
  intros Hh Hg. unfold FromHashCode. case_if; [|done]. bools.
  change kMaxHash with 268435455 in *. f_equal. change kHashShift with 0.
  rewrite Z.shiftl_0_r, wrap_u_id by (unfold in_u; pows; lia). apply lor_gc_state; pows; lia.
Qed.

Lemma FromMonitorId_compose id gc :
  0 <= id <= kMaxMonitorId -> 0 <= gc < 4 -> FromMonitorId id gc = compose 1 gc id.
Proof.
  intros Hi Hg. change kMaxMonitorId with 268435455 in *. apply lor_gc_state; pows; lia.
Qed.

Lemma FromDefault_compose gc : 0 <= gc < 4 -> FromDefault gc = compose 0 gc 0.
Proof.
  intros. unfold FromDefault. change kGCStateShift with 28.
  rewrite Z.shiftl_mul_pow2, wrap_u_id by (unfold in_u; pows; lia). unfold compose. lia.
Qed.

Lemma FromForwardingAddress_compose target :
  0 <= target < 2 ^ 32 ->
  FromForwardingAddress target = compose 3 (target / 8 / 2 ^ 28) ((target / 8) mod 2 ^ 28).
Proof.
  intros Ht. unfold FromForwardingAddress. change kStateForwardingAddressShifted with (3 << 30).
  change kForwardingAddressShift with 3. rewrite Z.shiftr_div_pow2 by lia.
  rewrite lor_shiftl by (pows; zdiv). unfold compose. wraps.
Qed.

(** ** Theorems *)



(** The 4-byte alignment that [FromForwardingAddress] asserts is not enough. *)
Lemma forwarding_address_needs_8_bytes :
  4 mod 2 ^ kStateSize = 0 /\ ForwardingAddress (FromForwardingAddress 4) = 0.
Proof. split; reflexivity. Qed.

Lemma word_fields v :
  in_u 32 v ->
  exists st gc p, v = compose st gc p /\ 0 <= st < 4 /\ 0 <= gc < 4 /\ 0 <= p < 2 ^ 28.
Proof.
  intros Hv. eexists _, _, _. split; [apply compose_decompose|]. unfold in_u in Hv. pows. zdiv.
Qed.

(** Lock words are canonical: every 32-bit word is in exactly one state,
    and building a word of that state from the fields the accessors read gives
    the same word, so two words with equal states and fields are equal (a
    forwarding word keeps its bit 29 clear). *)
Theorem lock_word_canonical v :
  in_u 32 v ->
  match GetState true v with
  | kUnlocked => FromDefault (GCState v) = v
  | kThinLocked => FromThinLockId (ThinLockOwner v) (ThinLockCount v) (GCState v) = Some v
  | kHashCode => FromHashCode (GetHashCode v) (GCState v) = Some v
  | kFatLocked => FromMonitorId (FatLockMonitorId v) (GCState v) = v
  | kForwardingAddress =>
      MarkBitState v = 0 -> FromForwardingAddress (ForwardingAddress v) = v
  end.
Proof.
  intros Hv. destruct (word_fields v Hv) as (st & gc & p & -> & Hst & Hgc & Hp).
  rewrite compose_GetState by done.
  destruct (compose_fields st gc p Hst Hgc Hp) as (E1 & E2 & E3 & E4 & E5 & _ & E7).
  rewrite E1, E2, E3, E4, E5, E7. clear E1 E2 E3 E4 E5 E7.
  repeat case_if; bools; subst; try lia.
  - by rewrite FromDefault_compose.
  - rewrite FromThinLockId_compose by (pows; zdiv).
    change kThinLockMaxOwner with 65535. change kThinLockMaxCount with 4095. pows.
    rewrite !(proj2 (Z.leb_le _ _)) by zdiv. simpl. do 2 f_equal. zdiv.
  - rewrite FromHashCode_compose by lia. change kMaxHash with 268435455. pows.
    by rewrite (proj2 (Z.leb_le _ _)) by lia.
  - intros Hm. unfold ForwardingAddress. change kForwardingAddressShift with 3.
    rewrite Z.shiftl_mul_pow2 by lia.
    rewrite FromForwardingAddress_compose by (unfold compose; wraps). unfold compose. wraps.
  - replace st with 1 by lia. rewrite FromMonitorId_compose; [done| |done].
    change kMaxMonitorId with 268435455. pows. lia.
Qed.

Lemma lock_word_canonical_witness :
  GetState true 0x10030007 = kThinLocked /\
  FromThinLockId (ThinLockOwner 0x10030007) (ThinLockCount 0x10030007) (GCState 0x10030007)
  = Some 0x10030007.
Proof.
  split; [reflexivity|].
  exact (lock_word_canonical 0x10030007 ltac:(unfold in_u; lia)).
Defined.

(** The GC bit setters on fields. *)
Lemma SetReadBarrierState_compose st gc p b :
  0 <= st < 4 -> 0 <= gc < 4 -> 0 <= p < 2 ^ 28 -> 0 <= b < 2 ->
  SetReadBarrierState (compose st gc p) b = compose st (gc / 2 * 2 + b) p.
Proof.
  intros Hst Hgc Hp Hb. pose proof (compose_range st gc p Hst Hgc Hp) as Hr.
  unfold SetReadBarrierState.
  change (kReadBarrierStateMask << kReadBarrierStateShift) with (Z.ones 1 << 28).
  rewrite (land_clear_field _ _ 28 1 Hr ltac:(lia) ltac:(lia) ltac:(lia) eq_refl).
  change kReadBarrierStateMask with (2 ^ 1 - 1). rewrite land_ones_mod by lia.
  change kReadBarrierStateShift with 28.
  assert (compose st gc p - (compose st gc p / 2 ^ 28) mod 2 ^ 1 * 2 ^ 28 =
          p + (gc / 2 + st * 2) * 2 ^ 29) as -> by (unfold compose; pows; zdiv).
  rewrite <- lor_shiftl by (pows; lia).
  rewrite <- Z.lor_assoc, (Z.lor_comm (_ << 29)), Z.lor_assoc.
  rewrite (lor_shiftl p) by (pows; lia). rewrite lor_shiftl by (pows; zdiv).
  unfold compose. pows. zdiv.
Qed.

Lemma SetMarkBitState_compose st gc p b :
  0 <= st < 4 -> 0 <= gc < 4 -> 0 <= p < 2 ^ 28 -> 0 <= b < 2 ->
  SetMarkBitState (compose st gc p) b = compose st (b * 2 + gc mod 2) p.
Proof.
  intros Hst Hgc Hp Hb. pose proof (compose_range st gc p Hst Hgc Hp) as Hr.
  unfold SetMarkBitState.
  change kMarkBitStateMaskShiftedToggled with (u32 (Z.lnot (Z.ones 1 << 29))).
  rewrite (land_clear_field _ _ 29 1 Hr ltac:(lia) ltac:(lia) ltac:(lia) eq_refl).
  change kMarkBitStateShift with 29.
  rewrite wrap_u_id by (rewrite Z.shiftl_mul_pow2 by lia; unfold in_u; pows; lia).
  assert (compose st gc p - (compose st gc p / 2 ^ 29) mod 2 ^ 1 * 2 ^ 29 =
          (p + gc mod 2 * 2 ^ 28) + st * 2 ^ 30) as -> by (unfold compose; pows; zdiv).
  rewrite <- (lor_shiftl (p + _)) by (pows; zdiv).
  rewrite <- Z.lor_assoc, (Z.lor_comm (_ << 30)), Z.lor_assoc.
  rewrite (lor_shiftl (p + _)) by (pows; zdiv). rewrite lor_shiftl by (pows; zdiv).
  unfold compose. pows. zdiv.
Qed.

(** The collector's updates are invisible to the lock: setting the mark or
    read barrier bit of a word changes that bit only; the state, the fields of
    the state and the other GC bit are unchanged, and [Equal] without the GC
    state cannot tell the words apart. *)
Theorem gc_bit_updates_preserve_lock v b :
  in_u 32 v -> 0 <= b < 2 ->
  let r := SetReadBarrierState v b in
  let m := SetMarkBitState v b in
  ReadBarrierState r = b /\ MarkBitState r = MarkBitState v /\
  MarkBitState m = b /\ ReadBarrierState m = ReadBarrierState v /\
  Equal false v r = true /\ Equal false v m = true /\
  forall w, w = r \/ w = m ->
    in_u 32 w /\ GetState true w = GetState true v /\
    ThinLockOwner w = ThinLockOwner v /\ ThinLockCount w = ThinLockCount v /\
    GetHashCode w = GetHashCode v /\ FatLockMonitorId w = FatLockMonitorId v.
Proof.
  intros Hv Hb r m. destruct (word_fields v Hv) as (st & gc & p & -> & Hst & Hgc & Hp).
  assert (exists gr, 0 <= gr < 4 /\ r = compose st gr p /\ gr mod 2 = b /\ gr / 2 = gc / 2)
    as (gr & Hgr & -> & Er1 & Er2).
  { exists (gc / 2 * 2 + b). unfold r. rewrite SetReadBarrierState_compose by done.
    split; [zdiv|]. split; [done|]. zdiv. }
  assert (exists gm, 0 <= gm < 4 /\ m = compose st gm p /\ gm mod 2 = gc mod 2 /\ gm / 2 = b)
    as (gm & Hgm & -> & Em1 & Em2).
  { exists (b * 2 + gc mod 2). unfold m. rewrite SetMarkBitState_compose by done.
    split; [zdiv|]. split; [done|]. zdiv. }
  destruct (compose_fields st gc p Hst Hgc Hp) as (F1 & F2 & F3 & F4 & F5 & F6 & F7).
  destruct (compose_fields st gr p Hst Hgr Hp) as (R1 & R2 & R3 & R4 & R5 & R6 & R7).
  destruct (compose_fields st gm p Hst Hgm Hp) as (M1 & M2 & M3 & M4 & M5 & M6 & M7).
  unfold Equal. rewrite !compose_without_gc, Z.eqb_refl by done.
  do 4 (split; [congruence|]). do 2 (split; [done|]).
  intros w [-> | ->]; (split; [by apply compose_range|]);
    (split; [by rewrite !compose_GetState|]); repeat split; congruence.
Qed.

Lemma gc_bit_updates_preserve_lock_witness :
  SetReadBarrierState 0x00030007 1 = 0x10030007 /\
  Equal false 0x00030007 (SetReadBarrierState 0x00030007 1) = true.
Proof.
  split; [reflexivity|].
  destruct (gc_bit_updates_preserve_lock 0x00030007 1) as (_ & _ & _ & _ & H & _);
    [unfold in_u; lia|lia|exact H].
Defined.
