(* ===== verification/DexInstructionList.v ===== *)
(** * DEX instructions: the instruction list ([runtime/dex_instruction_list.h],
    the enumerations of [runtime/dex_instruction.h])

    The opcodes, formats, index types and flag sets, and the 256 rows of
    [DEX_INSTRUCTION_LIST] as a list of records, in the order of the source. *)
From S2P Require Import Prelude.
From Stdlib Require Import String.
#[local] Open Scope string_scope.
#[local] Open Scope Z_scope.

(** ** [Instruction::Code] *)

Definition NOP : Z := 0x00.
Definition MOVE : Z := 0x01.
Definition MOVE_FROM16 : Z := 0x02.
Definition MOVE_16 : Z := 0x03.
Definition MOVE_WIDE : Z := 0x04.
Definition MOVE_WIDE_FROM16 : Z := 0x05.
Definition MOVE_WIDE_16 : Z := 0x06.
Definition MOVE_OBJECT : Z := 0x07.
Definition MOVE_OBJECT_FROM16 : Z := 0x08.
Definition MOVE_OBJECT_16 : Z := 0x09.
Definition MOVE_RESULT : Z := 0x0A.
Definition MOVE_RESULT_WIDE : Z := 0x0B.
Definition MOVE_RESULT_OBJECT : Z := 0x0C.
Definition MOVE_EXCEPTION : Z := 0x0D.
Definition RETURN_VOID : Z := 0x0E.
Definition RETURN : Z := 0x0F.
Definition RETURN_WIDE : Z := 0x10.
Definition RETURN_OBJECT : Z := 0x11.
Definition CONST_4 : Z := 0x12.
Definition CONST_16 : Z := 0x13.
Definition CONST : Z := 0x14.
Definition CONST_HIGH16 : Z := 0x15.
Definition CONST_WIDE_16 : Z := 0x16.
Definition CONST_WIDE_32 : Z := 0x17.
Definition CONST_WIDE : Z := 0x18.
Definition CONST_WIDE_HIGH16 : Z := 0x19.
Definition CONST_STRING : Z := 0x1A.
Definition CONST_STRING_JUMBO : Z := 0x1B.
Definition CONST_CLASS : Z := 0x1C.
Definition MONITOR_ENTER : Z := 0x1D.
Definition MONITOR_EXIT : Z := 0x1E.
Definition CHECK_CAST : Z := 0x1F.
Definition INSTANCE_OF : Z := 0x20.
Definition ARRAY_LENGTH : Z := 0x21.
Definition NEW_INSTANCE : Z := 0x22.
Definition NEW_ARRAY : Z := 0x23.
Definition FILLED_NEW_ARRAY : Z := 0x24.
Definition FILLED_NEW_ARRAY_RANGE : Z := 0x25.
Definition FILL_ARRAY_DATA : Z := 0x26.
Definition THROW : Z := 0x27.
Definition GOTO : Z := 0x28.
Definition GOTO_16 : Z := 0x29.
Definition GOTO_32 : Z := 0x2A.
Definition PACKED_SWITCH : Z := 0x2B.
Definition SPARSE_SWITCH : Z := 0x2C.
Definition CMPL_FLOAT : Z := 0x2D.
Definition CMPG_FLOAT : Z := 0x2E.
Definition CMPL_DOUBLE : Z := 0x2F.
Definition CMPG_DOUBLE : Z := 0x30.
Definition CMP_LONG : Z := 0x31.
Definition IF_EQ : Z := 0x32.
Definition IF_NE : Z := 0x33.
Definition IF_LT : Z := 0x34.
Definition IF_GE : Z := 0x35.
Definition IF_GT : Z := 0x36.
Definition IF_LE : Z := 0x37.
Definition IF_EQZ : Z := 0x38.
Definition IF_NEZ : Z := 0x39.
Definition IF_LTZ : Z := 0x3A.
Definition IF_GEZ : Z := 0x3B.
Definition IF_GTZ : Z := 0x3C.
Definition IF_LEZ : Z := 0x3D.
Definition UNUSED_3E : Z := 0x3E.
Definition UNUSED_3F : Z := 0x3F.
Definition UNUSED_40 : Z := 0x40.
Definition UNUSED_41 : Z := 0x41.
Definition UNUSED_42 : Z := 0x42.
Definition UNUSED_43 : Z := 0x43.
Definition AGET : Z := 0x44.
Definition AGET_WIDE : Z := 0x45.
Definition AGET_OBJECT : Z := 0x46.
Definition AGET_BOOLEAN : Z := 0x47.
Definition AGET_BYTE : Z := 0x48.
Definition AGET_CHAR : Z := 0x49.
Definition AGET_SHORT : Z := 0x4A.
Definition APUT : Z := 0x4B.
Definition APUT_WIDE : Z := 0x4C.
Definition APUT_OBJECT : Z := 0x4D.
Definition APUT_BOOLEAN : Z := 0x4E.
Definition APUT_BYTE : Z := 0x4F.
Definition APUT_CHAR : Z := 0x50.
Definition APUT_SHORT : Z := 0x51.
Definition IGET : Z := 0x52.
Definition IGET_WIDE : Z := 0x53.
Definition IGET_OBJECT : Z := 0x54.
Definition IGET_BOOLEAN : Z := 0x55.
Definition IGET_BYTE : Z := 0x56.
Definition IGET_CHAR : Z := 0x57.
Definition IGET_SHORT : Z := 0x58.
Definition IPUT : Z := 0x59.
Definition IPUT_WIDE : Z := 0x5A.
Definition IPUT_OBJECT : Z := 0x5B.
Definition IPUT_BOOLEAN : Z := 0x5C.
Definition IPUT_BYTE : Z := 0x5D.
Definition IPUT_CHAR : Z := 0x5E.
Definition IPUT_SHORT : Z := 0x5F.
Definition SGET : Z := 0x60.
Definition SGET_WIDE : Z := 0x61.
Definition SGET_OBJECT : Z := 0x62.
Definition SGET_BOOLEAN : Z := 0x63.
Definition SGET_BYTE : Z := 0x64.
Definition SGET_CHAR : Z := 0x65.
Definition SGET_SHORT : Z := 0x66.
Definition SPUT : Z := 0x67.
Definition SPUT_WIDE : Z := 0x68.
Definition SPUT_OBJECT : Z := 0x69.
Definition SPUT_BOOLEAN : Z := 0x6A.
Definition SPUT_BYTE : Z := 0x6B.
Definition SPUT_CHAR : Z := 0x6C.
Definition SPUT_SHORT : Z := 0x6D.
Definition INVOKE_VIRTUAL : Z := 0x6E.
Definition INVOKE_SUPER : Z := 0x6F.
Definition INVOKE_DIRECT : Z := 0x70.
Definition INVOKE_STATIC : Z := 0x71.
Definition INVOKE_INTERFACE : Z := 0x72.
Definition RETURN_VOID_NO_BARRIER : Z := 0x73.
Definition INVOKE_VIRTUAL_RANGE : Z := 0x74.
Definition INVOKE_SUPER_RANGE : Z := 0x75.
Definition INVOKE_DIRECT_RANGE : Z := 0x76.
Definition INVOKE_STATIC_RANGE : Z := 0x77.
Definition INVOKE_INTERFACE_RANGE : Z := 0x78.
Definition UNUSED_79 : Z := 0x79.
Definition UNUSED_7A : Z := 0x7A.
Definition NEG_INT : Z := 0x7B.
Definition NOT_INT : Z := 0x7C.
Definition NEG_LONG : Z := 0x7D.
Definition NOT_LONG : Z := 0x7E.
Definition NEG_FLOAT : Z := 0x7F.
Definition NEG_DOUBLE : Z := 0x80.
Definition INT_TO_LONG : Z := 0x81.
Definition INT_TO_FLOAT : Z := 0x82.
Definition INT_TO_DOUBLE : Z := 0x83.
Definition LONG_TO_INT : Z := 0x84.
Definition LONG_TO_FLOAT : Z := 0x85.
Definition LONG_TO_DOUBLE : Z := 0x86.
Definition FLOAT_TO_INT : Z := 0x87.
Definition FLOAT_TO_LONG : Z := 0x88.
Definition FLOAT_TO_DOUBLE : Z := 0x89.
Definition DOUBLE_TO_INT : Z := 0x8A.
Definition DOUBLE_TO_LONG : Z := 0x8B.
Definition DOUBLE_TO_FLOAT : Z := 0x8C.
Definition INT_TO_BYTE : Z := 0x8D.
Definition INT_TO_CHAR : Z := 0x8E.
Definition INT_TO_SHORT : Z := 0x8F.
Definition ADD_INT : Z := 0x90.
Definition SUB_INT : Z := 0x91.
Definition MUL_INT : Z := 0x92.
Definition DIV_INT : Z := 0x93.
Definition REM_INT : Z := 0x94.
Definition AND_INT : Z := 0x95.
Definition OR_INT : Z := 0x96.
Definition XOR_INT : Z := 0x97.
Definition SHL_INT : Z := 0x98.
Definition SHR_INT : Z := 0x99.
Definition USHR_INT : Z := 0x9A.
Definition ADD_LONG : Z := 0x9B.
Definition SUB_LONG : Z := 0x9C.
Definition MUL_LONG : Z := 0x9D.
Definition DIV_LONG : Z := 0x9E.
Definition REM_LONG : Z := 0x9F.
Definition AND_LONG : Z := 0xA0.
Definition OR_LONG : Z := 0xA1.
Definition XOR_LONG : Z := 0xA2.
Definition SHL_LONG : Z := 0xA3.
Definition SHR_LONG : Z := 0xA4.
Definition USHR_LONG : Z := 0xA5.
Definition ADD_FLOAT : Z := 0xA6.
Definition SUB_FLOAT : Z := 0xA7.
Definition MUL_FLOAT : Z := 0xA8.
Definition DIV_FLOAT : Z := 0xA9.
Definition REM_FLOAT : Z := 0xAA.
Definition ADD_DOUBLE : Z := 0xAB.
Definition SUB_DOUBLE : Z := 0xAC.
Definition MUL_DOUBLE : Z := 0xAD.
Definition DIV_DOUBLE : Z := 0xAE.
Definition REM_DOUBLE : Z := 0xAF.
Definition ADD_INT_2ADDR : Z := 0xB0.
Definition SUB_INT_2ADDR : Z := 0xB1.
Definition MUL_INT_2ADDR : Z := 0xB2.
Definition DIV_INT_2ADDR : Z := 0xB3.
Definition REM_INT_2ADDR : Z := 0xB4.
Definition AND_INT_2ADDR : Z := 0xB5.
Definition OR_INT_2ADDR : Z := 0xB6.
Definition XOR_INT_2ADDR : Z := 0xB7.
Definition SHL_INT_2ADDR : Z := 0xB8.
Definition SHR_INT_2ADDR : Z := 0xB9.
Definition USHR_INT_2ADDR : Z := 0xBA.
Definition ADD_LONG_2ADDR : Z := 0xBB.
Definition SUB_LONG_2ADDR : Z := 0xBC.
Definition MUL_LONG_2ADDR : Z := 0xBD.
Definition DIV_LONG_2ADDR : Z := 0xBE.
Definition REM_LONG_2ADDR : Z := 0xBF.
Definition AND_LONG_2ADDR : Z := 0xC0.
Definition OR_LONG_2ADDR : Z := 0xC1.
Definition XOR_LONG_2ADDR : Z := 0xC2.
Definition SHL_LONG_2ADDR : Z := 0xC3.
Definition SHR_LONG_2ADDR : Z := 0xC4.
Definition USHR_LONG_2ADDR : Z := 0xC5.
Definition ADD_FLOAT_2ADDR : Z := 0xC6.
Definition SUB_FLOAT_2ADDR : Z := 0xC7.
Definition MUL_FLOAT_2ADDR : Z := 0xC8.
Definition DIV_FLOAT_2ADDR : Z := 0xC9.
Definition REM_FLOAT_2ADDR : Z := 0xCA.
Definition ADD_DOUBLE_2ADDR : Z := 0xCB.
Definition SUB_DOUBLE_2ADDR : Z := 0xCC.
Definition MUL_DOUBLE_2ADDR : Z := 0xCD.
Definition DIV_DOUBLE_2ADDR : Z := 0xCE.
Definition REM_DOUBLE_2ADDR : Z := 0xCF.
Definition ADD_INT_LIT16 : Z := 0xD0.
Definition RSUB_INT : Z := 0xD1.
Definition MUL_INT_LIT16 : Z := 0xD2.
Definition DIV_INT_LIT16 : Z := 0xD3.
Definition REM_INT_LIT16 : Z := 0xD4.
Definition AND_INT_LIT16 : Z := 0xD5.
Definition OR_INT_LIT16 : Z := 0xD6.
Definition XOR_INT_LIT16 : Z := 0xD7.
Definition ADD_INT_LIT8 : Z := 0xD8.
Definition RSUB_INT_LIT8 : Z := 0xD9.
Definition MUL_INT_LIT8 : Z := 0xDA.
Definition DIV_INT_LIT8 : Z := 0xDB.
Definition REM_INT_LIT8 : Z := 0xDC.
Definition AND_INT_LIT8 : Z := 0xDD.
Definition OR_INT_LIT8 : Z := 0xDE.
Definition XOR_INT_LIT8 : Z := 0xDF.
Definition SHL_INT_LIT8 : Z := 0xE0.
Definition SHR_INT_LIT8 : Z := 0xE1.
Definition USHR_INT_LIT8 : Z := 0xE2.
Definition IGET_QUICK : Z := 0xE3.
Definition IGET_WIDE_QUICK : Z := 0xE4.
Definition IGET_OBJECT_QUICK : Z := 0xE5.
Definition IPUT_QUICK : Z := 0xE6.
Definition IPUT_WIDE_QUICK : Z := 0xE7.
Definition IPUT_OBJECT_QUICK : Z := 0xE8.
Definition INVOKE_VIRTUAL_QUICK : Z := 0xE9.
Definition INVOKE_VIRTUAL_RANGE_QUICK : Z := 0xEA.
Definition IPUT_BOOLEAN_QUICK : Z := 0xEB.
Definition IPUT_BYTE_QUICK : Z := 0xEC.
Definition IPUT_CHAR_QUICK : Z := 0xED.
Definition IPUT_SHORT_QUICK : Z := 0xEE.
Definition IGET_BOOLEAN_QUICK : Z := 0xEF.
Definition IGET_BYTE_QUICK : Z := 0xF0.
Definition IGET_CHAR_QUICK : Z := 0xF1.
Definition IGET_SHORT_QUICK : Z := 0xF2.
Definition UNUSED_F3 : Z := 0xF3.
Definition UNUSED_F4 : Z := 0xF4.
Definition UNUSED_F5 : Z := 0xF5.
Definition UNUSED_F6 : Z := 0xF6.
Definition UNUSED_F7 : Z := 0xF7.
Definition UNUSED_F8 : Z := 0xF8.
Definition UNUSED_F9 : Z := 0xF9.
Definition INVOKE_POLYMORPHIC : Z := 0xFA.
Definition INVOKE_POLYMORPHIC_RANGE : Z := 0xFB.
Definition INVOKE_CUSTOM : Z := 0xFC.
Definition INVOKE_CUSTOM_RANGE : Z := 0xFD.
Definition UNUSED_FE : Z := 0xFE.
Definition UNUSED_FF : Z := 0xFF.

Definition RSUB_INT_LIT16 : Z := RSUB_INT.

(** ** [Instruction::Format] *)

Inductive Format :=
| k10x | k12x | k11n | k11x | k10t | k20t | k22x | k21t | k21s
| k21h | k21c | k23x | k22b | k22t | k22s | k22c | k32x | k30t
| k31t | k31i | k31c | k35c | k3rc | k45cc | k4rcc | k51l.

#[global] Instance Format_eq_dec : EqDecision Format.
Proof. solve_decision. Defined.

(** The position in the enumeration, which the range tests compare. *)
Definition format_index (f : Format) : Z :=
  match f with
  | k10x => 0
  | k12x => 1
  | k11n => 2
  | k11x => 3
  | k10t => 4
  | k20t => 5
  | k22x => 6
  | k21t => 7
  | k21s => 8
  | k21h => 9
  | k21c => 10
  | k23x => 11
  | k22b => 12
  | k22t => 13
  | k22s => 14
  | k22c => 15
  | k32x => 16
  | k30t => 17
  | k31t => 18
  | k31i => 19
  | k31c => 20
  | k35c => 21
  | k3rc => 22
  | k45cc => 23
  | k4rcc => 24
  | k51l => 25
  end.

(** ** [Instruction::IndexType] *)

Inductive IndexType :=
| kIndexUnknown | kIndexNone | kIndexTypeRef | kIndexStringRef | kIndexMethodRef
| kIndexFieldRef | kIndexFieldOffset | kIndexVtableOffset | kIndexMethodAndProtoRef
| kIndexCallSiteRef.

#[global] Instance IndexType_eq_dec : EqDecision IndexType.
Proof. solve_decision. Defined.

(** ** [Instruction::Flags] *)

Definition kBranch : Z := 0x01.
Definition kContinue : Z := 0x02.
Definition kSwitch : Z := 0x04.
Definition kThrow : Z := 0x08.
Definition kReturn : Z := 0x10.
Definition kInvoke : Z := 0x20.
Definition kUnconditional : Z := 0x40.
Definition kExperimental : Z := 0x80.

(** ** [Instruction::ExtendedFlags] *)

Definition kAdd : Z := 0x0000080.
Definition kSubtract : Z := 0x0000100.
Definition kMultiply : Z := 0x0000200.
Definition kDivide : Z := 0x0000400.
Definition kRemainder : Z := 0x0000800.
Definition kAnd : Z := 0x0001000.
Definition kOr : Z := 0x0002000.
Definition kXor : Z := 0x0004000.
Definition kShl : Z := 0x0008000.
Definition kShr : Z := 0x0010000.
Definition kUshr : Z := 0x0020000.
Definition kCast : Z := 0x0040000.
Definition kStore : Z := 0x0080000.
Definition kLoad : Z := 0x0100000.
Definition kClobber : Z := 0x0200000.
Definition kRegCFieldOrConstant : Z := 0x0400000.
Definition kRegBFieldOrConstant : Z := 0x0800000.

(** ** [Instruction::VerifyFlag] *)

Definition kVerifyNone : Z := 0x0000000.
Definition kVerifyRegA : Z := 0x0000001.
Definition kVerifyRegAWide : Z := 0x0000002.
Definition kVerifyRegB : Z := 0x0000004.
Definition kVerifyRegBField : Z := 0x0000008.
Definition kVerifyRegBMethod : Z := 0x0000010.
Definition kVerifyRegBNewInstance : Z := 0x0000020.
Definition kVerifyRegBString : Z := 0x0000040.
Definition kVerifyRegBType : Z := 0x0000080.
Definition kVerifyRegBWide : Z := 0x0000100.
Definition kVerifyRegC : Z := 0x0000200.
Definition kVerifyRegCField : Z := 0x0000400.
Definition kVerifyRegCNewArray : Z := 0x0000800.
Definition kVerifyRegCType : Z := 0x0001000.
Definition kVerifyRegCWide : Z := 0x0002000.
Definition kVerifyArrayData : Z := 0x0004000.
Definition kVerifyBranchTarget : Z := 0x0008000.
Definition kVerifySwitchTargets : Z := 0x0010000.
Definition kVerifyVarArg : Z := 0x0020000.
Definition kVerifyVarArgNonZero : Z := 0x0040000.
Definition kVerifyVarArgRange : Z := 0x0080000.
Definition kVerifyVarArgRangeNonZero : Z := 0x0100000.
Definition kVerifyRuntimeOnly : Z := 0x0200000.
Definition kVerifyError : Z := 0x0400000.
Definition kVerifyRegHPrototype : Z := 0x0800000.
Definition kVerifyRegBCallSite : Z := 0x1000000.

(** ** [DEX_INSTRUCTION_LIST] *)

Record instruction_row := V {
  row_opcode : Z;
  row_code : Z;
  row_name : string;
  row_format : Format;
  row_index : IndexType;
  row_flags : Z;
  row_extended_flags : Z;
  row_verify_flags : Z
}.

Definition DEX_INSTRUCTION_LIST_00_7F : list instruction_row := [
  V 0x00 NOP "nop" k10x kIndexNone (kContinue) (0) (kVerifyNone);
  V 0x01 MOVE "move" k12x kIndexNone (kContinue) (0) (kVerifyRegA ||| kVerifyRegB);
  V 0x02 MOVE_FROM16 "move/from16" k22x kIndexNone (kContinue) (0) (kVerifyRegA ||| kVerifyRegB);
  V 0x03 MOVE_16 "move/16" k32x kIndexNone (kContinue) (0) (kVerifyRegA ||| kVerifyRegB);
  V 0x04 MOVE_WIDE "move-wide" k12x kIndexNone (kContinue) (0) (kVerifyRegAWide ||| kVerifyRegBWide);
  V 0x05 MOVE_WIDE_FROM16 "move-wide/from16" k22x kIndexNone (kContinue) (0) (kVerifyRegAWide ||| kVerifyRegBWide);
  V 0x06 MOVE_WIDE_16 "move-wide/16" k32x kIndexNone (kContinue) (0) (kVerifyRegAWide ||| kVerifyRegBWide);
  V 0x07 MOVE_OBJECT "move-object" k12x kIndexNone (kContinue) (0) (kVerifyRegA ||| kVerifyRegB);
  V 0x08 MOVE_OBJECT_FROM16 "move-object/from16" k22x kIndexNone (kContinue) (0) (kVerifyRegA ||| kVerifyRegB);
  V 0x09 MOVE_OBJECT_16 "move-object/16" k32x kIndexNone (kContinue) (0) (kVerifyRegA ||| kVerifyRegB);
  V 0x0A MOVE_RESULT "move-result" k11x kIndexNone (kContinue) (0) (kVerifyRegA);
  V 0x0B MOVE_RESULT_WIDE "move-result-wide" k11x kIndexNone (kContinue) (0) (kVerifyRegAWide);
  V 0x0C MOVE_RESULT_OBJECT "move-result-object" k11x kIndexNone (kContinue) (0) (kVerifyRegA);
  V 0x0D MOVE_EXCEPTION "move-exception" k11x kIndexNone (kContinue) (0) (kVerifyRegA);
  V 0x0E RETURN_VOID "return-void" k10x kIndexNone (kReturn) (0) (kVerifyNone);
  V 0x0F RETURN "return" k11x kIndexNone (kReturn) (0) (kVerifyRegA);
  V 0x10 RETURN_WIDE "return-wide" k11x kIndexNone (kReturn) (0) (kVerifyRegAWide);
  V 0x11 RETURN_OBJECT "return-object" k11x kIndexNone (kReturn) (0) (kVerifyRegA);
  V 0x12 CONST_4 "const/4" k11n kIndexNone (kContinue) (kRegBFieldOrConstant) (kVerifyRegA);
  V 0x13 CONST_16 "const/16" k21s kIndexNone (kContinue) (kRegBFieldOrConstant) (kVerifyRegA);
  V 0x14 CONST "const" k31i kIndexNone (kContinue) (kRegBFieldOrConstant) (kVerifyRegA);
  V 0x15 CONST_HIGH16 "const/high16" k21h kIndexNone (kContinue) (kRegBFieldOrConstant) (kVerifyRegA);
  V 0x16 CONST_WIDE_16 "const-wide/16" k21s kIndexNone (kContinue) (kRegBFieldOrConstant) (kVerifyRegAWide);
  V 0x17 CONST_WIDE_32 "const-wide/32" k31i kIndexNone (kContinue) (kRegBFieldOrConstant) (kVerifyRegAWide);
  V 0x18 CONST_WIDE "const-wide" k51l kIndexNone (kContinue) (kRegBFieldOrConstant) (kVerifyRegAWide);
  V 0x19 CONST_WIDE_HIGH16 "const-wide/high16" k21h kIndexNone (kContinue) (kRegBFieldOrConstant) (kVerifyRegAWide);
  V 0x1A CONST_STRING "const-string" k21c kIndexStringRef (kContinue ||| kThrow) (0) (kVerifyRegA ||| kVerifyRegBString);
  V 0x1B CONST_STRING_JUMBO "const-string/jumbo" k31c kIndexStringRef (kContinue ||| kThrow) (0) (kVerifyRegA ||| kVerifyRegBString);
  V 0x1C CONST_CLASS "const-class" k21c kIndexTypeRef (kContinue ||| kThrow) (0) (kVerifyRegA ||| kVerifyRegBType);
  V 0x1D MONITOR_ENTER "monitor-enter" k11x kIndexNone (kContinue ||| kThrow) (kClobber) (kVerifyRegA);
  V 0x1E MONITOR_EXIT "monitor-exit" k11x kIndexNone (kContinue ||| kThrow) (kClobber) (kVerifyRegA);
  V 0x1F CHECK_CAST "check-cast" k21c kIndexTypeRef (kContinue ||| kThrow) (0) (kVerifyRegA ||| kVerifyRegBType);
  V 0x20 INSTANCE_OF "instance-of" k22c kIndexTypeRef (kContinue ||| kThrow) (0) (kVerifyRegA ||| kVerifyRegB ||| kVerifyRegCType);
  V 0x21 ARRAY_LENGTH "array-length" k12x kIndexNone (kContinue ||| kThrow) (0) (kVerifyRegA ||| kVerifyRegB);
  V 0x22 NEW_INSTANCE "new-instance" k21c kIndexTypeRef (kContinue ||| kThrow) (kClobber) (kVerifyRegA ||| kVerifyRegBNewInstance);
  V 0x23 NEW_ARRAY "new-array" k22c kIndexTypeRef (kContinue ||| kThrow) (kClobber) (kVerifyRegA ||| kVerifyRegB ||| kVerifyRegCNewArray);
  V 0x24 FILLED_NEW_ARRAY "filled-new-array" k35c kIndexTypeRef (kContinue ||| kThrow) (kClobber) (kVerifyRegBType ||| kVerifyVarArg);
  V 0x25 FILLED_NEW_ARRAY_RANGE "filled-new-array/range" k3rc kIndexTypeRef (kContinue ||| kThrow) (kClobber) (kVerifyRegBType ||| kVerifyVarArgRange);
  V 0x26 FILL_ARRAY_DATA "fill-array-data" k31t kIndexNone (kContinue ||| kThrow) (kClobber) (kVerifyRegA ||| kVerifyArrayData);
  V 0x27 THROW "throw" k11x kIndexNone (kThrow) (0) (kVerifyRegA);
  V 0x28 GOTO "goto" k10t kIndexNone (kBranch ||| kUnconditional) (0) (kVerifyBranchTarget);
  V 0x29 GOTO_16 "goto/16" k20t kIndexNone (kBranch ||| kUnconditional) (0) (kVerifyBranchTarget);
  V 0x2A GOTO_32 "goto/32" k30t kIndexNone (kBranch ||| kUnconditional) (0) (kVerifyBranchTarget);
  V 0x2B PACKED_SWITCH "packed-switch" k31t kIndexNone (kContinue ||| kSwitch) (0) (kVerifyRegA ||| kVerifySwitchTargets);
  V 0x2C SPARSE_SWITCH "sparse-switch" k31t kIndexNone (kContinue ||| kSwitch) (0) (kVerifyRegA ||| kVerifySwitchTargets);
  V 0x2D CMPL_FLOAT "cmpl-float" k23x kIndexNone (kContinue) (0) (kVerifyRegA ||| kVerifyRegB ||| kVerifyRegC);
  V 0x2E CMPG_FLOAT "cmpg-float" k23x kIndexNone (kContinue) (0) (kVerifyRegA ||| kVerifyRegB ||| kVerifyRegC);
  V 0x2F CMPL_DOUBLE "cmpl-double" k23x kIndexNone (kContinue) (0) (kVerifyRegA ||| kVerifyRegBWide ||| kVerifyRegCWide);
  V 0x30 CMPG_DOUBLE "cmpg-double" k23x kIndexNone (kContinue) (0) (kVerifyRegA ||| kVerifyRegBWide ||| kVerifyRegCWide);
  V 0x31 CMP_LONG "cmp-long" k23x kIndexNone (kContinue) (0) (kVerifyRegA ||| kVerifyRegBWide ||| kVerifyRegCWide);
  V 0x32 IF_EQ "if-eq" k22t kIndexNone (kContinue ||| kBranch) (0) (kVerifyRegA ||| kVerifyRegB ||| kVerifyBranchTarget);
  V 0x33 IF_NE "if-ne" k22t kIndexNone (kContinue ||| kBranch) (0) (kVerifyRegA ||| kVerifyRegB ||| kVerifyBranchTarget);
  V 0x34 IF_LT "if-lt" k22t kIndexNone (kContinue ||| kBranch) (0) (kVerifyRegA ||| kVerifyRegB ||| kVerifyBranchTarget);
  V 0x35 IF_GE "if-ge" k22t kIndexNone (kContinue ||| kBranch) (0) (kVerifyRegA ||| kVerifyRegB ||| kVerifyBranchTarget);
  V 0x36 IF_GT "if-gt" k22t kIndexNone (kContinue ||| kBranch) (0) (kVerifyRegA ||| kVerifyRegB ||| kVerifyBranchTarget);
  V 0x37 IF_LE "if-le" k22t kIndexNone (kContinue ||| kBranch) (0) (kVerifyRegA ||| kVerifyRegB ||| kVerifyBranchTarget);
  V 0x38 IF_EQZ "if-eqz" k21t kIndexNone (kContinue ||| kBranch) (0) (kVerifyRegA ||| kVerifyBranchTarget);
  V 0x39 IF_NEZ "if-nez" k21t kIndexNone (kContinue ||| kBranch) (0) (kVerifyRegA ||| kVerifyBranchTarget);
  V 0x3A IF_LTZ "if-ltz" k21t kIndexNone (kContinue ||| kBranch) (0) (kVerifyRegA ||| kVerifyBranchTarget);
  V 0x3B IF_GEZ "if-gez" k21t kIndexNone (kContinue ||| kBranch) (0) (kVerifyRegA ||| kVerifyBranchTarget);
  V 0x3C IF_GTZ "if-gtz" k21t kIndexNone (kContinue ||| kBranch) (0) (kVerifyRegA ||| kVerifyBranchTarget);
  V 0x3D IF_LEZ "if-lez" k21t kIndexNone (kContinue ||| kBranch) (0) (kVerifyRegA ||| kVerifyBranchTarget);
  V 0x3E UNUSED_3E "unused-3e" k10x kIndexUnknown (0) (0) (kVerifyError);
  V 0x3F UNUSED_3F "unused-3f" k10x kIndexUnknown (0) (0) (kVerifyError);
  V 0x40 UNUSED_40 "unused-40" k10x kIndexUnknown (0) (0) (kVerifyError);
  V 0x41 UNUSED_41 "unused-41" k10x kIndexUnknown (0) (0) (kVerifyError);
  V 0x42 UNUSED_42 "unused-42" k10x kIndexUnknown (0) (0) (kVerifyError);
  V 0x43 UNUSED_43 "unused-43" k10x kIndexUnknown (0) (0) (kVerifyError);
  V 0x44 AGET "aget" k23x kIndexNone (kContinue ||| kThrow) (kLoad) (kVerifyRegA ||| kVerifyRegB ||| kVerifyRegC);
  V 0x45 AGET_WIDE "aget-wide" k23x kIndexNone (kContinue ||| kThrow) (kLoad) (kVerifyRegAWide ||| kVerifyRegB ||| kVerifyRegC);
  V 0x46 AGET_OBJECT "aget-object" k23x kIndexNone (kContinue ||| kThrow) (kLoad) (kVerifyRegA ||| kVerifyRegB ||| kVerifyRegC);
  V 0x47 AGET_BOOLEAN "aget-boolean" k23x kIndexNone (kContinue ||| kThrow) (kLoad) (kVerifyRegA ||| kVerifyRegB ||| kVerifyRegC);
  V 0x48 AGET_BYTE "aget-byte" k23x kIndexNone (kContinue ||| kThrow) (kLoad) (kVerifyRegA ||| kVerifyRegB ||| kVerifyRegC);
  V 0x49 AGET_CHAR "aget-char" k23x kIndexNone (kContinue ||| kThrow) (kLoad) (kVerifyRegA ||| kVerifyRegB ||| kVerifyRegC);
  V 0x4A AGET_SHORT "aget-short" k23x kIndexNone (kContinue ||| kThrow) (kLoad) (kVerifyRegA ||| kVerifyRegB ||| kVerifyRegC);
  V 0x4B APUT "aput" k23x kIndexNone (kContinue ||| kThrow) (kStore) (kVerifyRegA ||| kVerifyRegB ||| kVerifyRegC);
  V 0x4C APUT_WIDE "aput-wide" k23x kIndexNone (kContinue ||| kThrow) (kStore) (kVerifyRegAWide ||| kVerifyRegB ||| kVerifyRegC);
  V 0x4D APUT_OBJECT "aput-object" k23x kIndexNone (kContinue ||| kThrow) (kStore) (kVerifyRegA ||| kVerifyRegB ||| kVerifyRegC);
  V 0x4E APUT_BOOLEAN "aput-boolean" k23x kIndexNone (kContinue ||| kThrow) (kStore) (kVerifyRegA ||| kVerifyRegB ||| kVerifyRegC);
  V 0x4F APUT_BYTE "aput-byte" k23x kIndexNone (kContinue ||| kThrow) (kStore) (kVerifyRegA ||| kVerifyRegB ||| kVerifyRegC);
  V 0x50 APUT_CHAR "aput-char" k23x kIndexNone (kContinue ||| kThrow) (kStore) (kVerifyRegA ||| kVerifyRegB ||| kVerifyRegC);
  V 0x51 APUT_SHORT "aput-short" k23x kIndexNone (kContinue ||| kThrow) (kStore) (kVerifyRegA ||| kVerifyRegB ||| kVerifyRegC);
  V 0x52 IGET "iget" k22c kIndexFieldRef (kContinue ||| kThrow) (kLoad ||| kRegCFieldOrConstant) (kVerifyRegA ||| kVerifyRegB ||| kVerifyRegCField);
  V 0x53 IGET_WIDE "iget-wide" k22c kIndexFieldRef (kContinue ||| kThrow) (kLoad ||| kRegCFieldOrConstant) (kVerifyRegAWide ||| kVerifyRegB ||| kVerifyRegCField);
  V 0x54 IGET_OBJECT "iget-object" k22c kIndexFieldRef (kContinue ||| kThrow) (kLoad ||| kRegCFieldOrConstant) (kVerifyRegA ||| kVerifyRegB ||| kVerifyRegCField);
  V 0x55 IGET_BOOLEAN "iget-boolean" k22c kIndexFieldRef (kContinue ||| kThrow) (kLoad ||| kRegCFieldOrConstant) (kVerifyRegA ||| kVerifyRegB ||| kVerifyRegCField);
  V 0x56 IGET_BYTE "iget-byte" k22c kIndexFieldRef (kContinue ||| kThrow) (kLoad ||| kRegCFieldOrConstant) (kVerifyRegA ||| kVerifyRegB ||| kVerifyRegCField);
  V 0x57 IGET_CHAR "iget-char" k22c kIndexFieldRef (kContinue ||| kThrow) (kLoad ||| kRegCFieldOrConstant) (kVerifyRegA ||| kVerifyRegB ||| kVerifyRegCField);
  V 0x58 IGET_SHORT "iget-short" k22c kIndexFieldRef (kContinue ||| kThrow) (kLoad ||| kRegCFieldOrConstant) (kVerifyRegA ||| kVerifyRegB ||| kVerifyRegCField);
  V 0x59 IPUT "iput" k22c kIndexFieldRef (kContinue ||| kThrow) (kStore ||| kRegCFieldOrConstant) (kVerifyRegA ||| kVerifyRegB ||| kVerifyRegCField);
  V 0x5A IPUT_WIDE "iput-wide" k22c kIndexFieldRef (kContinue ||| kThrow) (kStore ||| kRegCFieldOrConstant) (kVerifyRegAWide ||| kVerifyRegB ||| kVerifyRegCField);
  V 0x5B IPUT_OBJECT "iput-object" k22c kIndexFieldRef (kContinue ||| kThrow) (kStore ||| kRegCFieldOrConstant) (kVerifyRegA ||| kVerifyRegB ||| kVerifyRegCField);
  V 0x5C IPUT_BOOLEAN "iput-boolean" k22c kIndexFieldRef (kContinue ||| kThrow) (kStore ||| kRegCFieldOrConstant) (kVerifyRegA ||| kVerifyRegB ||| kVerifyRegCField);
  V 0x5D IPUT_BYTE "iput-byte" k22c kIndexFieldRef (kContinue ||| kThrow) (kStore ||| kRegCFieldOrConstant) (kVerifyRegA ||| kVerifyRegB ||| kVerifyRegCField);
  V 0x5E IPUT_CHAR "iput-char" k22c kIndexFieldRef (kContinue ||| kThrow) (kStore ||| kRegCFieldOrConstant) (kVerifyRegA ||| kVerifyRegB ||| kVerifyRegCField);
  V 0x5F IPUT_SHORT "iput-short" k22c kIndexFieldRef (kContinue ||| kThrow) (kStore ||| kRegCFieldOrConstant) (kVerifyRegA ||| kVerifyRegB ||| kVerifyRegCField);
  V 0x60 SGET "sget" k21c kIndexFieldRef (kContinue ||| kThrow) (kLoad ||| kRegBFieldOrConstant) (kVerifyRegA ||| kVerifyRegBField);
  V 0x61 SGET_WIDE "sget-wide" k21c kIndexFieldRef (kContinue ||| kThrow) (kLoad ||| kRegBFieldOrConstant) (kVerifyRegAWide ||| kVerifyRegBField);
  V 0x62 SGET_OBJECT "sget-object" k21c kIndexFieldRef (kContinue ||| kThrow) (kLoad ||| kRegBFieldOrConstant) (kVerifyRegA ||| kVerifyRegBField);
  V 0x63 SGET_BOOLEAN "sget-boolean" k21c kIndexFieldRef (kContinue ||| kThrow) (kLoad ||| kRegBFieldOrConstant) (kVerifyRegA ||| kVerifyRegBField);
  V 0x64 SGET_BYTE "sget-byte" k21c kIndexFieldRef (kContinue ||| kThrow) (kLoad ||| kRegBFieldOrConstant) (kVerifyRegA ||| kVerifyRegBField);
  V 0x65 SGET_CHAR "sget-char" k21c kIndexFieldRef (kContinue ||| kThrow) (kLoad ||| kRegBFieldOrConstant) (kVerifyRegA ||| kVerifyRegBField);
  V 0x66 SGET_SHORT "sget-short" k21c kIndexFieldRef (kContinue ||| kThrow) (kLoad ||| kRegBFieldOrConstant) (kVerifyRegA ||| kVerifyRegBField);
  V 0x67 SPUT "sput" k21c kIndexFieldRef (kContinue ||| kThrow) (kStore ||| kRegBFieldOrConstant) (kVerifyRegA ||| kVerifyRegBField);
  V 0x68 SPUT_WIDE "sput-wide" k21c kIndexFieldRef (kContinue ||| kThrow) (kStore ||| kRegBFieldOrConstant) (kVerifyRegAWide ||| kVerifyRegBField);
  V 0x69 SPUT_OBJECT "sput-object" k21c kIndexFieldRef (kContinue ||| kThrow) (kStore ||| kRegBFieldOrConstant) (kVerifyRegA ||| kVerifyRegBField);
  V 0x6A SPUT_BOOLEAN "sput-boolean" k21c kIndexFieldRef (kContinue ||| kThrow) (kStore ||| kRegBFieldOrConstant) (kVerifyRegA ||| kVerifyRegBField);
  V 0x6B SPUT_BYTE "sput-byte" k21c kIndexFieldRef (kContinue ||| kThrow) (kStore ||| kRegBFieldOrConstant) (kVerifyRegA ||| kVerifyRegBField);
  V 0x6C SPUT_CHAR "sput-char" k21c kIndexFieldRef (kContinue ||| kThrow) (kStore ||| kRegBFieldOrConstant) (kVerifyRegA ||| kVerifyRegBField);
  V 0x6D SPUT_SHORT "sput-short" k21c kIndexFieldRef (kContinue ||| kThrow) (kStore ||| kRegBFieldOrConstant) (kVerifyRegA ||| kVerifyRegBField);
  V 0x6E INVOKE_VIRTUAL "invoke-virtual" k35c kIndexMethodRef (kContinue ||| kThrow ||| kInvoke) (0) (kVerifyRegBMethod ||| kVerifyVarArgNonZero);
  V 0x6F INVOKE_SUPER "invoke-super" k35c kIndexMethodRef (kContinue ||| kThrow ||| kInvoke) (0) (kVerifyRegBMethod ||| kVerifyVarArgNonZero);
  V 0x70 INVOKE_DIRECT "invoke-direct" k35c kIndexMethodRef (kContinue ||| kThrow ||| kInvoke) (0) (kVerifyRegBMethod ||| kVerifyVarArgNonZero);
  V 0x71 INVOKE_STATIC "invoke-static" k35c kIndexMethodRef (kContinue ||| kThrow ||| kInvoke) (0) (kVerifyRegBMethod ||| kVerifyVarArg);
  V 0x72 INVOKE_INTERFACE "invoke-interface" k35c kIndexMethodRef (kContinue ||| kThrow ||| kInvoke) (0) (kVerifyRegBMethod ||| kVerifyVarArgNonZero);
  V 0x73 RETURN_VOID_NO_BARRIER "return-void-no-barrier" k10x kIndexNone (kReturn) (0) (kVerifyNone);
  V 0x74 INVOKE_VIRTUAL_RANGE "invoke-virtual/range" k3rc kIndexMethodRef (kContinue ||| kThrow ||| kInvoke) (0) (kVerifyRegBMethod ||| kVerifyVarArgRangeNonZero);
  V 0x75 INVOKE_SUPER_RANGE "invoke-super/range" k3rc kIndexMethodRef (kContinue ||| kThrow ||| kInvoke) (0) (kVerifyRegBMethod ||| kVerifyVarArgRangeNonZero);
  V 0x76 INVOKE_DIRECT_RANGE "invoke-direct/range" k3rc kIndexMethodRef (kContinue ||| kThrow ||| kInvoke) (0) (kVerifyRegBMethod ||| kVerifyVarArgRangeNonZero);
  V 0x77 INVOKE_STATIC_RANGE "invoke-static/range" k3rc kIndexMethodRef (kContinue ||| kThrow ||| kInvoke) (0) (kVerifyRegBMethod ||| kVerifyVarArgRange);
  V 0x78 INVOKE_INTERFACE_RANGE "invoke-interface/range" k3rc kIndexMethodRef (kContinue ||| kThrow ||| kInvoke) (0) (kVerifyRegBMethod ||| kVerifyVarArgRangeNonZero);
  V 0x79 UNUSED_79 "unused-79" k10x kIndexUnknown (0) (0) (kVerifyError);
  V 0x7A UNUSED_7A "unused-7a" k10x kIndexUnknown (0) (0) (kVerifyError);
  V 0x7B NEG_INT "neg-int" k12x kIndexNone (kContinue) (0) (kVerifyRegA ||| kVerifyRegB);
  V 0x7C NOT_INT "not-int" k12x kIndexNone (kContinue) (0) (kVerifyRegA ||| kVerifyRegB);
  V 0x7D NEG_LONG "neg-long" k12x kIndexNone (kContinue) (0) (kVerifyRegAWide ||| kVerifyRegBWide);
  V 0x7E NOT_LONG "not-long" k12x kIndexNone (kContinue) (0) (kVerifyRegAWide ||| kVerifyRegBWide);
  V 0x7F NEG_FLOAT "neg-float" k12x kIndexNone (kContinue) (0) (kVerifyRegA ||| kVerifyRegB)
].

Definition DEX_INSTRUCTION_LIST_80_FF : list instruction_row := [
  V 0x80 NEG_DOUBLE "neg-double" k12x kIndexNone (kContinue) (0) (kVerifyRegAWide ||| kVerifyRegBWide);
  V 0x81 INT_TO_LONG "int-to-long" k12x kIndexNone (kContinue) (kCast) (kVerifyRegAWide ||| kVerifyRegB);
  V 0x82 INT_TO_FLOAT "int-to-float" k12x kIndexNone (kContinue) (kCast) (kVerifyRegA ||| kVerifyRegB);
  V 0x83 INT_TO_DOUBLE "int-to-double" k12x kIndexNone (kContinue) (kCast) (kVerifyRegAWide ||| kVerifyRegB);
  V 0x84 LONG_TO_INT "long-to-int" k12x kIndexNone (kContinue) (kCast) (kVerifyRegA ||| kVerifyRegBWide);
  V 0x85 LONG_TO_FLOAT "long-to-float" k12x kIndexNone (kContinue) (kCast) (kVerifyRegA ||| kVerifyRegBWide);
  V 0x86 LONG_TO_DOUBLE "long-to-double" k12x kIndexNone (kContinue) (kCast) (kVerifyRegAWide ||| kVerifyRegBWide);
  V 0x87 FLOAT_TO_INT "float-to-int" k12x kIndexNone (kContinue) (kCast) (kVerifyRegA ||| kVerifyRegB);
  V 0x88 FLOAT_TO_LONG "float-to-long" k12x kIndexNone (kContinue) (kCast) (kVerifyRegAWide ||| kVerifyRegB);
  V 0x89 FLOAT_TO_DOUBLE "float-to-double" k12x kIndexNone (kContinue) (kCast) (kVerifyRegAWide ||| kVerifyRegB);
  V 0x8A DOUBLE_TO_INT "double-to-int" k12x kIndexNone (kContinue) (kCast) (kVerifyRegA ||| kVerifyRegBWide);
  V 0x8B DOUBLE_TO_LONG "double-to-long" k12x kIndexNone (kContinue) (kCast) (kVerifyRegAWide ||| kVerifyRegBWide);
  V 0x8C DOUBLE_TO_FLOAT "double-to-float" k12x kIndexNone (kContinue) (kCast) (kVerifyRegA ||| kVerifyRegBWide);
  V 0x8D INT_TO_BYTE "int-to-byte" k12x kIndexNone (kContinue) (kCast) (kVerifyRegA ||| kVerifyRegB);
  V 0x8E INT_TO_CHAR "int-to-char" k12x kIndexNone (kContinue) (kCast) (kVerifyRegA ||| kVerifyRegB);
  V 0x8F INT_TO_SHORT "int-to-short" k12x kIndexNone (kContinue) (kCast) (kVerifyRegA ||| kVerifyRegB);
  V 0x90 ADD_INT "add-int" k23x kIndexNone (kContinue) (kAdd) (kVerifyRegA ||| kVerifyRegB ||| kVerifyRegC);
  V 0x91 SUB_INT "sub-int" k23x kIndexNone (kContinue) (kSubtract) (kVerifyRegA ||| kVerifyRegB ||| kVerifyRegC);
  V 0x92 MUL_INT "mul-int" k23x kIndexNone (kContinue) (kMultiply) (kVerifyRegA ||| kVerifyRegB ||| kVerifyRegC);
  V 0x93 DIV_INT "div-int" k23x kIndexNone (kContinue ||| kThrow) (kDivide) (kVerifyRegA ||| kVerifyRegB ||| kVerifyRegC);
  V 0x94 REM_INT "rem-int" k23x kIndexNone (kContinue ||| kThrow) (kRemainder) (kVerifyRegA ||| kVerifyRegB ||| kVerifyRegC);
  V 0x95 AND_INT "and-int" k23x kIndexNone (kContinue) (kAnd) (kVerifyRegA ||| kVerifyRegB ||| kVerifyRegC);
  V 0x96 OR_INT "or-int" k23x kIndexNone (kContinue) (kOr) (kVerifyRegA ||| kVerifyRegB ||| kVerifyRegC);
  V 0x97 XOR_INT "xor-int" k23x kIndexNone (kContinue) (kXor) (kVerifyRegA ||| kVerifyRegB ||| kVerifyRegC);
  V 0x98 SHL_INT "shl-int" k23x kIndexNone (kContinue) (kShl) (kVerifyRegA ||| kVerifyRegB ||| kVerifyRegC);
  V 0x99 SHR_INT "shr-int" k23x kIndexNone (kContinue) (kShr) (kVerifyRegA ||| kVerifyRegB ||| kVerifyRegC);
  V 0x9A USHR_INT "ushr-int" k23x kIndexNone (kContinue) (kUshr) (kVerifyRegA ||| kVerifyRegB ||| kVerifyRegC);
  V 0x9B ADD_LONG "add-long" k23x kIndexNone (kContinue) (kAdd) (kVerifyRegAWide ||| kVerifyRegBWide ||| kVerifyRegCWide);
  V 0x9C SUB_LONG "sub-long" k23x kIndexNone (kContinue) (kSubtract) (kVerifyRegAWide ||| kVerifyRegBWide ||| kVerifyRegCWide);
  V 0x9D MUL_LONG "mul-long" k23x kIndexNone (kContinue) (kMultiply) (kVerifyRegAWide ||| kVerifyRegBWide ||| kVerifyRegCWide);
  V 0x9E DIV_LONG "div-long" k23x kIndexNone (kContinue ||| kThrow) (kDivide) (kVerifyRegAWide ||| kVerifyRegBWide ||| kVerifyRegCWide);
  V 0x9F REM_LONG "rem-long" k23x kIndexNone (kContinue ||| kThrow) (kRemainder) (kVerifyRegAWide ||| kVerifyRegBWide ||| kVerifyRegCWide);
  V 0xA0 AND_LONG "and-long" k23x kIndexNone (kContinue) (kAnd) (kVerifyRegAWide ||| kVerifyRegBWide ||| kVerifyRegCWide);
  V 0xA1 OR_LONG "or-long" k23x kIndexNone (kContinue) (kOr) (kVerifyRegAWide ||| kVerifyRegBWide ||| kVerifyRegCWide);
  V 0xA2 XOR_LONG "xor-long" k23x kIndexNone (kContinue) (kXor) (kVerifyRegAWide ||| kVerifyRegBWide ||| kVerifyRegCWide);
  V 0xA3 SHL_LONG "shl-long" k23x kIndexNone (kContinue) (kShl) (kVerifyRegAWide ||| kVerifyRegBWide ||| kVerifyRegC);
  V 0xA4 SHR_LONG "shr-long" k23x kIndexNone (kContinue) (kShr) (kVerifyRegAWide ||| kVerifyRegBWide ||| kVerifyRegC);
  V 0xA5 USHR_LONG "ushr-long" k23x kIndexNone (kContinue) (kUshr) (kVerifyRegAWide ||| kVerifyRegBWide ||| kVerifyRegC);
  V 0xA6 ADD_FLOAT "add-float" k23x kIndexNone (kContinue) (kAdd) (kVerifyRegA ||| kVerifyRegB ||| kVerifyRegC);
  V 0xA7 SUB_FLOAT "sub-float" k23x kIndexNone (kContinue) (kSubtract) (kVerifyRegA ||| kVerifyRegB ||| kVerifyRegC);
  V 0xA8 MUL_FLOAT "mul-float" k23x kIndexNone (kContinue) (kMultiply) (kVerifyRegA ||| kVerifyRegB ||| kVerifyRegC);
  V 0xA9 DIV_FLOAT "div-float" k23x kIndexNone (kContinue) (kDivide) (kVerifyRegA ||| kVerifyRegB ||| kVerifyRegC);
  V 0xAA REM_FLOAT "rem-float" k23x kIndexNone (kContinue) (kRemainder) (kVerifyRegA ||| kVerifyRegB ||| kVerifyRegC);
  V 0xAB ADD_DOUBLE "add-double" k23x kIndexNone (kContinue) (kAdd) (kVerifyRegAWide ||| kVerifyRegBWide ||| kVerifyRegCWide);
  V 0xAC SUB_DOUBLE "sub-double" k23x kIndexNone (kContinue) (kSubtract) (kVerifyRegAWide ||| kVerifyRegBWide ||| kVerifyRegCWide);
  V 0xAD MUL_DOUBLE "mul-double" k23x kIndexNone (kContinue) (kMultiply) (kVerifyRegAWide ||| kVerifyRegBWide ||| kVerifyRegCWide);
  V 0xAE DIV_DOUBLE "div-double" k23x kIndexNone (kContinue) (kDivide) (kVerifyRegAWide ||| kVerifyRegBWide ||| kVerifyRegCWide);
  V 0xAF REM_DOUBLE "rem-double" k23x kIndexNone (kContinue) (kRemainder) (kVerifyRegAWide ||| kVerifyRegBWide ||| kVerifyRegCWide);
  V 0xB0 ADD_INT_2ADDR "add-int/2addr" k12x kIndexNone (kContinue) (kAdd) (kVerifyRegA ||| kVerifyRegB);
  V 0xB1 SUB_INT_2ADDR "sub-int/2addr" k12x kIndexNone (kContinue) (kSubtract) (kVerifyRegA ||| kVerifyRegB);
  V 0xB2 MUL_INT_2ADDR "mul-int/2addr" k12x kIndexNone (kContinue) (kMultiply) (kVerifyRegA ||| kVerifyRegB);
  V 0xB3 DIV_INT_2ADDR "div-int/2addr" k12x kIndexNone (kContinue ||| kThrow) (kDivide) (kVerifyRegA ||| kVerifyRegB);
  V 0xB4 REM_INT_2ADDR "rem-int/2addr" k12x kIndexNone (kContinue ||| kThrow) (kRemainder) (kVerifyRegA ||| kVerifyRegB);
  V 0xB5 AND_INT_2ADDR "and-int/2addr" k12x kIndexNone (kContinue) (kAnd) (kVerifyRegA ||| kVerifyRegB);
  V 0xB6 OR_INT_2ADDR "or-int/2addr" k12x kIndexNone (kContinue) (kOr) (kVerifyRegA ||| kVerifyRegB);
  V 0xB7 XOR_INT_2ADDR "xor-int/2addr" k12x kIndexNone (kContinue) (kXor) (kVerifyRegA ||| kVerifyRegB);
  V 0xB8 SHL_INT_2ADDR "shl-int/2addr" k12x kIndexNone (kContinue) (kShl) (kVerifyRegA ||| kVerifyRegB);
  V 0xB9 SHR_INT_2ADDR "shr-int/2addr" k12x kIndexNone (kContinue) (kShr) (kVerifyRegA ||| kVerifyRegB);
  V 0xBA USHR_INT_2ADDR "ushr-int/2addr" k12x kIndexNone (kContinue) (kUshr) (kVerifyRegA ||| kVerifyRegB);
  V 0xBB ADD_LONG_2ADDR "add-long/2addr" k12x kIndexNone (kContinue) (kAdd) (kVerifyRegAWide ||| kVerifyRegBWide);
  V 0xBC SUB_LONG_2ADDR "sub-long/2addr" k12x kIndexNone (kContinue) (kSubtract) (kVerifyRegAWide ||| kVerifyRegBWide);
  V 0xBD MUL_LONG_2ADDR "mul-long/2addr" k12x kIndexNone (kContinue) (kMultiply) (kVerifyRegAWide ||| kVerifyRegBWide);
  V 0xBE DIV_LONG_2ADDR "div-long/2addr" k12x kIndexNone (kContinue ||| kThrow) (kDivide) (kVerifyRegAWide ||| kVerifyRegBWide);
  V 0xBF REM_LONG_2ADDR "rem-long/2addr" k12x kIndexNone (kContinue ||| kThrow) (kRemainder) (kVerifyRegAWide ||| kVerifyRegBWide);
  V 0xC0 AND_LONG_2ADDR "and-long/2addr" k12x kIndexNone (kContinue) (kAnd) (kVerifyRegAWide ||| kVerifyRegBWide);
  V 0xC1 OR_LONG_2ADDR "or-long/2addr" k12x kIndexNone (kContinue) (kOr) (kVerifyRegAWide ||| kVerifyRegBWide);
  V 0xC2 XOR_LONG_2ADDR "xor-long/2addr" k12x kIndexNone (kContinue) (kXor) (kVerifyRegAWide ||| kVerifyRegBWide);
  V 0xC3 SHL_LONG_2ADDR "shl-long/2addr" k12x kIndexNone (kContinue) (kShl) (kVerifyRegAWide ||| kVerifyRegB);
  V 0xC4 SHR_LONG_2ADDR "shr-long/2addr" k12x kIndexNone (kContinue) (kShr) (kVerifyRegAWide ||| kVerifyRegB);
  V 0xC5 USHR_LONG_2ADDR "ushr-long/2addr" k12x kIndexNone (kContinue) (kUshr) (kVerifyRegAWide ||| kVerifyRegB);
  V 0xC6 ADD_FLOAT_2ADDR "add-float/2addr" k12x kIndexNone (kContinue) (kAdd) (kVerifyRegA ||| kVerifyRegB);
  V 0xC7 SUB_FLOAT_2ADDR "sub-float/2addr" k12x kIndexNone (kContinue) (kSubtract) (kVerifyRegA ||| kVerifyRegB);
  V 0xC8 MUL_FLOAT_2ADDR "mul-float/2addr" k12x kIndexNone (kContinue) (kMultiply) (kVerifyRegA ||| kVerifyRegB);
  V 0xC9 DIV_FLOAT_2ADDR "div-float/2addr" k12x kIndexNone (kContinue) (kDivide) (kVerifyRegA ||| kVerifyRegB);
  V 0xCA REM_FLOAT_2ADDR "rem-float/2addr" k12x kIndexNone (kContinue) (kRemainder) (kVerifyRegA ||| kVerifyRegB);
  V 0xCB ADD_DOUBLE_2ADDR "add-double/2addr" k12x kIndexNone (kContinue) (kAdd) (kVerifyRegAWide ||| kVerifyRegBWide);
  V 0xCC SUB_DOUBLE_2ADDR "sub-double/2addr" k12x kIndexNone (kContinue) (kSubtract) (kVerifyRegAWide ||| kVerifyRegBWide);
  V 0xCD MUL_DOUBLE_2ADDR "mul-double/2addr" k12x kIndexNone (kContinue) (kMultiply) (kVerifyRegAWide ||| kVerifyRegBWide);
  V 0xCE DIV_DOUBLE_2ADDR "div-double/2addr" k12x kIndexNone (kContinue) (kDivide) (kVerifyRegAWide ||| kVerifyRegBWide);
  V 0xCF REM_DOUBLE_2ADDR "rem-double/2addr" k12x kIndexNone (kContinue) (kRemainder) (kVerifyRegAWide ||| kVerifyRegBWide);
  V 0xD0 ADD_INT_LIT16 "add-int/lit16" k22s kIndexNone (kContinue) (kAdd ||| kRegCFieldOrConstant) (kVerifyRegA ||| kVerifyRegB);
  V 0xD1 RSUB_INT "rsub-int" k22s kIndexNone (kContinue) (kSubtract ||| kRegCFieldOrConstant) (kVerifyRegA ||| kVerifyRegB);
  V 0xD2 MUL_INT_LIT16 "mul-int/lit16" k22s kIndexNone (kContinue) (kMultiply ||| kRegCFieldOrConstant) (kVerifyRegA ||| kVerifyRegB);
  V 0xD3 DIV_INT_LIT16 "div-int/lit16" k22s kIndexNone (kContinue ||| kThrow) (kDivide ||| kRegCFieldOrConstant) (kVerifyRegA ||| kVerifyRegB);
  V 0xD4 REM_INT_LIT16 "rem-int/lit16" k22s kIndexNone (kContinue ||| kThrow) (kRemainder ||| kRegCFieldOrConstant) (kVerifyRegA ||| kVerifyRegB);
  V 0xD5 AND_INT_LIT16 "and-int/lit16" k22s kIndexNone (kContinue) (kAnd ||| kRegCFieldOrConstant) (kVerifyRegA ||| kVerifyRegB);
  V 0xD6 OR_INT_LIT16 "or-int/lit16" k22s kIndexNone (kContinue) (kOr ||| kRegCFieldOrConstant) (kVerifyRegA ||| kVerifyRegB);
  V 0xD7 XOR_INT_LIT16 "xor-int/lit16" k22s kIndexNone (kContinue) (kXor ||| kRegCFieldOrConstant) (kVerifyRegA ||| kVerifyRegB);
  V 0xD8 ADD_INT_LIT8 "add-int/lit8" k22b kIndexNone (kContinue) (kAdd ||| kRegCFieldOrConstant) (kVerifyRegA ||| kVerifyRegB);
  V 0xD9 RSUB_INT_LIT8 "rsub-int/lit8" k22b kIndexNone (kContinue) (kSubtract ||| kRegCFieldOrConstant) (kVerifyRegA ||| kVerifyRegB);
  V 0xDA MUL_INT_LIT8 "mul-int/lit8" k22b kIndexNone (kContinue) (kMultiply ||| kRegCFieldOrConstant) (kVerifyRegA ||| kVerifyRegB);
  V 0xDB DIV_INT_LIT8 "div-int/lit8" k22b kIndexNone (kContinue ||| kThrow) (kDivide ||| kRegCFieldOrConstant) (kVerifyRegA ||| kVerifyRegB);
  V 0xDC REM_INT_LIT8 "rem-int/lit8" k22b kIndexNone (kContinue ||| kThrow) (kRemainder ||| kRegCFieldOrConstant) (kVerifyRegA ||| kVerifyRegB);
  V 0xDD AND_INT_LIT8 "and-int/lit8" k22b kIndexNone (kContinue) (kAnd ||| kRegCFieldOrConstant) (kVerifyRegA ||| kVerifyRegB);
  V 0xDE OR_INT_LIT8 "or-int/lit8" k22b kIndexNone (kContinue) (kOr ||| kRegCFieldOrConstant) (kVerifyRegA ||| kVerifyRegB);
  V 0xDF XOR_INT_LIT8 "xor-int/lit8" k22b kIndexNone (kContinue) (kXor ||| kRegCFieldOrConstant) (kVerifyRegA ||| kVerifyRegB);
  V 0xE0 SHL_INT_LIT8 "shl-int/lit8" k22b kIndexNone (kContinue) (kShl ||| kRegCFieldOrConstant) (kVerifyRegA ||| kVerifyRegB);
  V 0xE1 SHR_INT_LIT8 "shr-int/lit8" k22b kIndexNone (kContinue) (kShr ||| kRegCFieldOrConstant) (kVerifyRegA ||| kVerifyRegB);
  V 0xE2 USHR_INT_LIT8 "ushr-int/lit8" k22b kIndexNone (kContinue) (kUshr ||| kRegCFieldOrConstant) (kVerifyRegA ||| kVerifyRegB);
  V 0xE3 IGET_QUICK "iget-quick" k22c kIndexFieldOffset (kContinue ||| kThrow) (kLoad ||| kRegCFieldOrConstant) (kVerifyRegA ||| kVerifyRegB ||| kVerifyRuntimeOnly);
  V 0xE4 IGET_WIDE_QUICK "iget-wide-quick" k22c kIndexFieldOffset (kContinue ||| kThrow) (kLoad ||| kRegCFieldOrConstant) (kVerifyRegAWide ||| kVerifyRegB ||| kVerifyRuntimeOnly);
  V 0xE5 IGET_OBJECT_QUICK "iget-object-quick" k22c kIndexFieldOffset (kContinue ||| kThrow) (kLoad ||| kRegCFieldOrConstant) (kVerifyRegA ||| kVerifyRegB ||| kVerifyRuntimeOnly);
  V 0xE6 IPUT_QUICK "iput-quick" k22c kIndexFieldOffset (kContinue ||| kThrow) (kStore ||| kRegCFieldOrConstant) (kVerifyRegA ||| kVerifyRegB ||| kVerifyRuntimeOnly);
  V 0xE7 IPUT_WIDE_QUICK "iput-wide-quick" k22c kIndexFieldOffset (kContinue ||| kThrow) (kStore ||| kRegCFieldOrConstant) (kVerifyRegAWide ||| kVerifyRegB ||| kVerifyRuntimeOnly);
  V 0xE8 IPUT_OBJECT_QUICK "iput-object-quick" k22c kIndexFieldOffset (kContinue ||| kThrow) (kStore ||| kRegCFieldOrConstant) (kVerifyRegA ||| kVerifyRegB ||| kVerifyRuntimeOnly);
  V 0xE9 INVOKE_VIRTUAL_QUICK "invoke-virtual-quick" k35c kIndexVtableOffset (kContinue ||| kThrow ||| kInvoke) (0) (kVerifyVarArgNonZero ||| kVerifyRuntimeOnly);
  V 0xEA INVOKE_VIRTUAL_RANGE_QUICK "invoke-virtual/range-quick" k3rc kIndexVtableOffset (kContinue ||| kThrow ||| kInvoke) (0) (kVerifyVarArgRangeNonZero ||| kVerifyRuntimeOnly);
  V 0xEB IPUT_BOOLEAN_QUICK "iput-boolean-quick" k22c kIndexFieldOffset (kContinue ||| kThrow) (kStore ||| kRegCFieldOrConstant) (kVerifyRegA ||| kVerifyRegB ||| kVerifyRuntimeOnly);
  V 0xEC IPUT_BYTE_QUICK "iput-byte-quick" k22c kIndexFieldOffset (kContinue ||| kThrow) (kStore ||| kRegCFieldOrConstant) (kVerifyRegA ||| kVerifyRegB ||| kVerifyRuntimeOnly);
  V 0xED IPUT_CHAR_QUICK "iput-char-quick" k22c kIndexFieldOffset (kContinue ||| kThrow) (kStore ||| kRegCFieldOrConstant) (kVerifyRegA ||| kVerifyRegB ||| kVerifyRuntimeOnly);
  V 0xEE IPUT_SHORT_QUICK "iput-short-quick" k22c kIndexFieldOffset (kContinue ||| kThrow) (kStore ||| kRegCFieldOrConstant) (kVerifyRegA ||| kVerifyRegB ||| kVerifyRuntimeOnly);
  V 0xEF IGET_BOOLEAN_QUICK "iget-boolean-quick" k22c kIndexFieldOffset (kContinue ||| kThrow) (kLoad ||| kRegCFieldOrConstant) (kVerifyRegA ||| kVerifyRegB ||| kVerifyRuntimeOnly);
  V 0xF0 IGET_BYTE_QUICK "iget-byte-quick" k22c kIndexFieldOffset (kContinue ||| kThrow) (kLoad ||| kRegCFieldOrConstant) (kVerifyRegA ||| kVerifyRegB ||| kVerifyRuntimeOnly);
  V 0xF1 IGET_CHAR_QUICK "iget-char-quick" k22c kIndexFieldOffset (kContinue ||| kThrow) (kLoad ||| kRegCFieldOrConstant) (kVerifyRegA ||| kVerifyRegB ||| kVerifyRuntimeOnly);
  V 0xF2 IGET_SHORT_QUICK "iget-short-quick" k22c kIndexFieldOffset (kContinue ||| kThrow) (kLoad ||| kRegCFieldOrConstant) (kVerifyRegA ||| kVerifyRegB ||| kVerifyRuntimeOnly);
  V 0xF3 UNUSED_F3 "unused-f3" k10x kIndexUnknown (0) (0) (kVerifyError);
  V 0xF4 UNUSED_F4 "unused-f4" k10x kIndexUnknown (0) (0) (kVerifyError);
  V 0xF5 UNUSED_F5 "unused-f5" k10x kIndexUnknown (0) (0) (kVerifyError);
  V 0xF6 UNUSED_F6 "unused-f6" k10x kIndexUnknown (0) (0) (kVerifyError);
  V 0xF7 UNUSED_F7 "unused-f7" k10x kIndexUnknown (0) (0) (kVerifyError);
  V 0xF8 UNUSED_F8 "unused-f8" k10x kIndexUnknown (0) (0) (kVerifyError);
  V 0xF9 UNUSED_F9 "unused-f9" k10x kIndexUnknown (0) (0) (kVerifyError);
  V 0xFA INVOKE_POLYMORPHIC "invoke-polymorphic" k45cc kIndexMethodAndProtoRef (kContinue ||| kThrow ||| kInvoke) (0) (kVerifyRegBMethod ||| kVerifyVarArgNonZero ||| kVerifyRegHPrototype);
  V 0xFB INVOKE_POLYMORPHIC_RANGE "invoke-polymorphic/range" k4rcc kIndexMethodAndProtoRef (kContinue ||| kThrow ||| kInvoke) (0) (kVerifyRegBMethod ||| kVerifyVarArgRangeNonZero ||| kVerifyRegHPrototype);
  V 0xFC INVOKE_CUSTOM "invoke-custom" k35c kIndexCallSiteRef (kContinue ||| kThrow) (0) (kVerifyRegBCallSite ||| kVerifyVarArg);
  V 0xFD INVOKE_CUSTOM_RANGE "invoke-custom/range" k3rc kIndexCallSiteRef (kContinue ||| kThrow) (0) (kVerifyRegBCallSite ||| kVerifyVarArgRange);
  V 0xFE UNUSED_FE "unused-fe" k10x kIndexUnknown (0) (0) (kVerifyError);
  V 0xFF UNUSED_FF "unused-ff" k10x kIndexUnknown (0) (0) (kVerifyError)
].

Definition DEX_INSTRUCTION_LIST : list instruction_row :=
  DEX_INSTRUCTION_LIST_00_7F ++ DEX_INSTRUCTION_LIST_80_FF.
