(* ===== verification/DexInstruction.v ===== *)
(** * DEX instructions ([runtime/dex_instruction.h], [-inl.h], [.cc])

    The descriptor table built from the instruction list, the size computation,
    the operand accessors of every format and the flag queries.  An instruction
    is the code units from its address on ([Z -> Z], unit 0 first), as the
    [const Instruction*] overlay of the code array; a [LOG(FATAL)] is [None]. *)
From S2P Require Import Prelude DexInstructionList.

(** ** Descriptors ([dex_instruction.cc]) *)

Definition InstructionSizeInCodeUnitsByOpcode (opcode : Z) (format : Format) : Z :=
  let f := format_index format in
  if opcode =? NOP then -1
  else if (format_index k10x <=? f) && (f <=? format_index k10t) then 1
  else if (format_index k20t <=? f) && (f <=? format_index k22c) then 2
  else if (format_index k32x <=? f) && (f <=? format_index k3rc) then 3
  else if (format_index k45cc <=? f) && (f <=? format_index k4rcc) then 4
  else if decide (format = k51l) then 5
  else -1.

Record InstructionDescriptor := {
  verify_flags : Z;
  format : Format;
  index_type : IndexType;
  flags : Z;
  size_in_code_units : Z
}.

Definition INSTRUCTION_DESCR (r : instruction_row) : InstructionDescriptor := {|
  verify_flags := row_verify_flags r;
  format := row_format r;
  index_type := row_index r;
  flags := row_flags r;
  size_in_code_units := InstructionSizeInCodeUnitsByOpcode (row_code r) (row_format r)
|}.

Definition kInstructionDescriptors : list InstructionDescriptor :=
  INSTRUCTION_DESCR <$> DEX_INSTRUCTION_LIST.

(** The array access [kInstructionDescriptors[opcode]]; opcodes are bytes. *)
Definition descriptor (opcode : Z) : InstructionDescriptor :=
  nth (Z.to_nat opcode) kInstructionDescriptors
    (Build_InstructionDescriptor kVerifyError k10x kIndexUnknown 0 1).

Definition FormatOf (opcode : Z) : Format := format (descriptor opcode).
Definition IndexTypeOf (opcode : Z) : IndexType := index_type (descriptor opcode).
Definition FlagsOf (opcode : Z) : Z := flags (descriptor opcode).
Definition VerifyFlagsOf (opcode : Z) : Z := verify_flags (descriptor opcode).

(** ** Code units *)

Definition Instruction := Z -> Z.

Definition RelativeAt (inst : Instruction) (offset : Z) : Instruction :=
  fun i => inst (offset + i).
Definition Fetch16 (inst : Instruction) (offset : Z) : Z := inst offset.
Definition Fetch32 (inst : Instruction) (offset : Z) : Z :=
  Fetch16 inst offset ||| u32 (Fetch16 inst (offset + 1) << 16).
Definition Opcode (inst : Instruction) : Z := Fetch16 inst 0 &&& 0xFF.
Definition InstA (inst : Instruction) : Z := (Fetch16 inst 0 >> 8) &&& 0x0f.
Definition InstB (inst : Instruction) : Z := u8 (Fetch16 inst 0 >> 12).
Definition InstAA (inst : Instruction) : Z := u8 (Fetch16 inst 0 >> 8).

(** ** Sizes *)

Definition kPackedSwitchSignature : Z := 0x0100.
Definition kSparseSwitchSignature : Z := 0x0200.
Definition kArrayDataSignature : Z := 0x0300.

Definition SizeInCodeUnitsComplexOpcode (inst : Instruction) : option Z :=
  if Fetch16 inst 0 =? kPackedSwitchSignature then Some (4 + Fetch16 inst 1 * 2)
  else if Fetch16 inst 0 =? kSparseSwitchSignature then Some (2 + Fetch16 inst 1 * 4)
  else if Fetch16 inst 0 =? kArrayDataSignature then
    let element_size := Fetch16 inst 1 in
    let length := Fetch16 inst 2 ||| u32 (Fetch16 inst 3 << 16) in
    Some (u32 (4 + u32 (u32 (element_size * length) + 1) / 2))
  else if Fetch16 inst 0 &&& 0xFF =? 0 then Some 1
  else None.

Definition SizeInCodeUnits (inst : Instruction) : option Z :=
  let result := size_in_code_units (descriptor (Opcode inst)) in
  if result <? 0 then SizeInCodeUnitsComplexOpcode inst else Some result.

(** ** Operand A *)

Definition HasVRegA (inst : Instruction) : bool :=
  match FormatOf (Opcode inst) with
  | k10t | k10x | k11n | k11x | k12x | k20t | k21c | k21h | k21s | k21t | k22b | k22c | k22s
  | k22t | k22x | k23x | k30t | k31c | k31i | k31t | k32x | k35c | k3rc | k45cc | k4rcc
  | k51l => true
  end.

Definition VRegA_10t (inst : Instruction) : Z := s8 (InstAA inst).
Definition VRegA_10x (inst : Instruction) : Z := InstAA inst.
Definition VRegA_11n (inst : Instruction) : Z := InstA inst.
Definition VRegA_11x (inst : Instruction) : Z := InstAA inst.
Definition VRegA_12x (inst : Instruction) : Z := InstA inst.
Definition VRegA_20t (inst : Instruction) : Z := s16 (Fetch16 inst 1).
Definition VRegA_21c (inst : Instruction) : Z := InstAA inst.
Definition VRegA_21h (inst : Instruction) : Z := InstAA inst.
Definition VRegA_21s (inst : Instruction) : Z := InstAA inst.
Definition VRegA_21t (inst : Instruction) : Z := InstAA inst.
Definition VRegA_22b (inst : Instruction) : Z := InstAA inst.
Definition VRegA_22c (inst : Instruction) : Z := InstA inst.
Definition VRegA_22s (inst : Instruction) : Z := InstA inst.
Definition VRegA_22t (inst : Instruction) : Z := InstA inst.
Definition VRegA_22x (inst : Instruction) : Z := InstAA inst.
Definition VRegA_23x (inst : Instruction) : Z := InstAA inst.
Definition VRegA_30t (inst : Instruction) : Z := s32 (Fetch32 inst 1).
Definition VRegA_31c (inst : Instruction) : Z := InstAA inst.
Definition VRegA_31i (inst : Instruction) : Z := InstAA inst.
Definition VRegA_31t (inst : Instruction) : Z := InstAA inst.
Definition VRegA_32x (inst : Instruction) : Z := Fetch16 inst 1.
Definition VRegA_35c (inst : Instruction) : Z := InstB inst.
Definition VRegA_3rc (inst : Instruction) : Z := InstAA inst.
Definition VRegA_51l (inst : Instruction) : Z := InstAA inst.
Definition VRegA_45cc (inst : Instruction) : Z := InstB inst.
Definition VRegA_4rcc (inst : Instruction) : Z := InstAA inst.

Definition VRegA (inst : Instruction) : Z :=
  match FormatOf (Opcode inst) with
  | k10t => VRegA_10t inst
  | k10x => VRegA_10x inst
  | k11n => VRegA_11n inst
  | k11x => VRegA_11x inst
  | k12x => VRegA_12x inst
  | k20t => VRegA_20t inst
  | k21c => VRegA_21c inst
  | k21h => VRegA_21h inst
  | k21s => VRegA_21s inst
  | k21t => VRegA_21t inst
  | k22b => VRegA_22b inst
  | k22c => VRegA_22c inst
  | k22s => VRegA_22s inst
  | k22t => VRegA_22t inst
  | k22x => VRegA_22x inst
  | k23x => VRegA_23x inst
  | k30t => VRegA_30t inst
  | k31c => VRegA_31c inst
  | k31i => VRegA_31i inst
  | k31t => VRegA_31t inst
  | k32x => VRegA_32x inst
  | k35c => VRegA_35c inst
  | k3rc => VRegA_3rc inst
  | k45cc => VRegA_45cc inst
  | k4rcc => VRegA_4rcc inst
  | k51l => VRegA_51l inst
  end.

(** ** Operand B *)

Definition HasVRegB (inst : Instruction) : bool :=
  match FormatOf (Opcode inst) with
  | k11n | k12x | k21c | k21h | k21s | k21t | k22b | k22c | k22s | k22t | k22x | k23x
  | k31c | k31i | k31t | k32x | k35c | k3rc | k45cc | k4rcc | k51l => true
  | _ => false
  end.
Definition HasWideVRegB (inst : Instruction) : bool :=
  bool_decide (FormatOf (Opcode inst) = k51l).

Definition VRegB_11n (inst : Instruction) : Z := s32 (InstB inst << 28) >> 28.
Definition VRegB_12x (inst : Instruction) : Z := InstB inst.
Definition VRegB_21c (inst : Instruction) : Z := Fetch16 inst 1.
Definition VRegB_21h (inst : Instruction) : Z := Fetch16 inst 1.
Definition VRegB_21s (inst : Instruction) : Z := s16 (Fetch16 inst 1).
Definition VRegB_21t (inst : Instruction) : Z := s16 (Fetch16 inst 1).
Definition VRegB_22b (inst : Instruction) : Z := u8 (Fetch16 inst 1 &&& 0xff).
Definition VRegB_22c (inst : Instruction) : Z := InstB inst.
Definition VRegB_22s (inst : Instruction) : Z := InstB inst.
Definition VRegB_22t (inst : Instruction) : Z := InstB inst.
Definition VRegB_22x (inst : Instruction) : Z := Fetch16 inst 1.
Definition VRegB_23x (inst : Instruction) : Z := u8 (Fetch16 inst 1 &&& 0xff).
Definition VRegB_31c (inst : Instruction) : Z := Fetch32 inst 1.
Definition VRegB_31i (inst : Instruction) : Z := s32 (Fetch32 inst 1).
Definition VRegB_31t (inst : Instruction) : Z := s32 (Fetch32 inst 1).
Definition VRegB_32x (inst : Instruction) : Z := Fetch16 inst 2.
Definition VRegB_35c (inst : Instruction) : Z := Fetch16 inst 1.
Definition VRegB_3rc (inst : Instruction) : Z := Fetch16 inst 1.
Definition VRegB_45cc (inst : Instruction) : Z := Fetch16 inst 1.
Definition VRegB_4rcc (inst : Instruction) : Z := Fetch16 inst 1.
Definition VRegB_51l (inst : Instruction) : Z :=
  Fetch32 inst 1 ||| u64 (Fetch32 inst 3 << 32).
Definition WideVRegB (inst : Instruction) : Z := VRegB_51l inst.

(** The [int32_t] result of the switch over formats. *)
Definition VRegB (inst : Instruction) : option Z :=
  match FormatOf (Opcode inst) with
  | k11n => Some (VRegB_11n inst)
  | k12x => Some (VRegB_12x inst)
  | k21c => Some (VRegB_21c inst)
  | k21h => Some (VRegB_21h inst)
  | k21s => Some (VRegB_21s inst)
  | k21t => Some (VRegB_21t inst)
  | k22b => Some (VRegB_22b inst)
  | k22c => Some (VRegB_22c inst)
  | k22s => Some (VRegB_22s inst)
  | k22t => Some (VRegB_22t inst)
  | k22x => Some (VRegB_22x inst)
  | k23x => Some (VRegB_23x inst)
  | k31c => Some (s32 (VRegB_31c inst))
  | k31i => Some (VRegB_31i inst)
  | k31t => Some (VRegB_31t inst)
  | k32x => Some (VRegB_32x inst)
  | k35c => Some (VRegB_35c inst)
  | k3rc => Some (VRegB_3rc inst)
  | k45cc => Some (VRegB_45cc inst)
  | k4rcc => Some (VRegB_4rcc inst)
  | k51l => Some (s32 (VRegB_51l inst))
  | _ => None
  end.

(** ** Operands C and H *)

Definition HasVRegC (inst : Instruction) : bool :=
  match FormatOf (Opcode inst) with
  | k22b | k22c | k22s | k22t | k23x | k35c | k3rc | k45cc | k4rcc => true
  | _ => false
  end.

Definition VRegC_22b (inst : Instruction) : Z := s8 (Fetch16 inst 1 >> 8).
Definition VRegC_22c (inst : Instruction) : Z := Fetch16 inst 1.
Definition VRegC_22s (inst : Instruction) : Z := s16 (Fetch16 inst 1).
Definition VRegC_22t (inst : Instruction) : Z := s16 (Fetch16 inst 1).
Definition VRegC_23x (inst : Instruction) : Z := u8 (Fetch16 inst 1 >> 8).
Definition VRegC_35c (inst : Instruction) : Z := Fetch16 inst 2 &&& 0x0f.
Definition VRegC_3rc (inst : Instruction) : Z := Fetch16 inst 2.
Definition VRegC_45cc (inst : Instruction) : Z := Fetch16 inst 2 &&& 0x0f.
Definition VRegC_4rcc (inst : Instruction) : Z := Fetch16 inst 2.

Definition VRegC (inst : Instruction) : option Z :=
  match FormatOf (Opcode inst) with
  | k22b => Some (VRegC_22b inst)
  | k22c => Some (VRegC_22c inst)
  | k22s => Some (VRegC_22s inst)
  | k22t => Some (VRegC_22t inst)
  | k23x => Some (VRegC_23x inst)
  | k35c => Some (VRegC_35c inst)
  | k3rc => Some (VRegC_3rc inst)
  | k45cc => Some (VRegC_45cc inst)
  | k4rcc => Some (VRegC_4rcc inst)
  | _ => None
  end.

Definition HasVRegH (inst : Instruction) : bool :=
  match FormatOf (Opcode inst) with
  | k45cc | k4rcc => true
  | _ => false
  end.
Definition VRegH_45cc (inst : Instruction) : Z := Fetch16 inst 3.
Definition VRegH_4rcc (inst : Instruction) : Z := Fetch16 inst 3.
Definition VRegH (inst : Instruction) : option Z :=
  match FormatOf (Opcode inst) with
  | k45cc => Some (VRegH_45cc inst)
  | k4rcc => Some (VRegH_4rcc inst)
  | _ => None
  end.

(** ** Variable arguments *)

Definition HasVarArgs (inst : Instruction) : bool :=
  bool_decide (FormatOf (Opcode inst) = k35c) || bool_decide (FormatOf (Opcode inst) = k45cc).

(** The slots of [arg] the fall-through switch writes, slot 0 first. *)
Definition GetVarArgs (inst : Instruction) : list Z :=
  let regList := Fetch16 inst 2 in
  let count := InstB inst in
  let a0 := regList &&& 0x0f in
  let a1 := (regList >> 4) &&& 0x0f in
  let a2 := (regList >> 8) &&& 0x0f in
  let a3 := (regList >> 12) &&& 0x0f in
  let a4 := InstA inst in
  if count =? 5 then [a0; a1; a2; a3; a4]
  else if count =? 4 then [a0; a1; a2; a3]
  else if count =? 3 then [a0; a1; a2]
  else if count =? 2 then [a0; a1]
  else if count =? 1 then [a0]
  else [].

(** ** Flag queries *)

Definition flag_set (fl bit : Z) : bool := negb (fl &&& bit =? 0).

Definition IsBranch (inst : Instruction) : bool := flag_set (FlagsOf (Opcode inst)) kBranch.
Definition IsUnconditional (inst : Instruction) : bool :=
  flag_set (FlagsOf (Opcode inst)) kUnconditional.
Definition IsQuickened (inst : Instruction) : bool :=
  bool_decide (IndexTypeOf (Opcode inst) = kIndexFieldOffset)
  || bool_decide (IndexTypeOf (Opcode inst) = kIndexVtableOffset).
Definition IsSwitch (inst : Instruction) : bool := flag_set (FlagsOf (Opcode inst)) kSwitch.
Definition IsThrow (inst : Instruction) : bool := flag_set (FlagsOf (Opcode inst)) kThrow.
Definition IsReturn (inst : Instruction) : bool := flag_set (FlagsOf (Opcode inst)) kReturn.
Definition IsBasicBlockEnd (inst : Instruction) : bool :=
  IsBranch inst || IsReturn inst || (Opcode inst =? THROW).
Definition IsInvoke (inst : Instruction) : bool := flag_set (FlagsOf (Opcode inst)) kInvoke.
Definition IsExperimental (inst : Instruction) : bool :=
  flag_set (FlagsOf (Opcode inst)) kExperimental.
Definition CanFlowThrough (inst : Instruction) : bool :=
  flag_set (FlagsOf (Fetch16 inst 0 &&& 0xFF)) kContinue.

Definition GetVerifyTypeArgumentA (inst : Instruction) : Z :=
  VerifyFlagsOf (Opcode inst) &&& (kVerifyRegA ||| kVerifyRegAWide).
Definition GetVerifyTypeArgumentB (inst : Instruction) : Z :=
  VerifyFlagsOf (Opcode inst) &&&
  (kVerifyRegB ||| kVerifyRegBField ||| kVerifyRegBMethod ||| kVerifyRegBNewInstance
   ||| kVerifyRegBString ||| kVerifyRegBType ||| kVerifyRegBWide).
Definition GetVerifyTypeArgumentC (inst : Instruction) : Z :=
  VerifyFlagsOf (Opcode inst) &&&
  (kVerifyRegC ||| kVerifyRegCField ||| kVerifyRegCNewArray ||| kVerifyRegCType
   ||| kVerifyRegCWide).
Definition GetVerifyTypeArgumentH (inst : Instruction) : Z :=
  VerifyFlagsOf (Opcode inst) &&& kVerifyRegHPrototype.
Definition GetVerifyExtraFlags (inst : Instruction) : Z :=
  VerifyFlagsOf (Opcode inst) &&&
  (kVerifyArrayData ||| kVerifyBranchTarget ||| kVerifySwitchTargets ||| kVerifyVarArg
   ||| kVerifyVarArgNonZero ||| kVerifyVarArgRange ||| kVerifyVarArgRangeNonZero
   ||| kVerifyError).
Definition GetVerifyIsRuntimeOnly (inst : Instruction) : bool :=
  flag_set (VerifyFlagsOf (Opcode inst)) kVerifyRuntimeOnly.

Definition GetTargetOffset (inst : Instruction) : option Z :=
  match FormatOf (Opcode inst) with
  | k22t => Some (VRegC_22t inst)
  | k21t => Some (VRegB_21t inst)
  | k10t => Some (VRegA_10t inst)
  | k20t => Some (VRegA_20t inst)
  | k30t => Some (VRegA_30t inst)
  | _ => None
  end.

(** ** Rewriting an instruction in place (the quickening setters) *)

Definition set_unit (inst : Instruction) (i v : Z) : Instruction :=
  fun j => if j =? i then v else inst j.

Definition SetOpcode (inst : Instruction) (opcode : Z) : Instruction :=
  set_unit inst 0 (u16 ((inst 0 &&& 0xff00) ||| opcode)).
Definition SetVRegA_10x (inst : Instruction) (val : Z) : Instruction :=
  set_unit inst 0 (u16 ((val << 8) ||| (inst 0 &&& 0x00ff))).
Definition SetVRegB_3rc (inst : Instruction) (val : Z) : Instruction := set_unit inst 1 val.
Definition SetVRegB_35c (inst : Instruction) (val : Z) : Instruction := set_unit inst 1 val.
Definition SetVRegC_22c (inst : Instruction) (val : Z) : Instruction := set_unit inst 1 val.
Definition SetVRegA_21c (inst : Instruction) (val : Z) : Instruction :=
  set_unit inst 0 (u16 ((val << 8) ||| (inst 0 &&& 0x00ff))).
Definition SetVRegB_21c (inst : Instruction) (val : Z) : Instruction := set_unit inst 1 val.

(** ** The descriptor table *)

(** Facts about all opcodes are decided by evaluating the table. *)
Definition all_opcodes : list Z := Z.of_nat <$> seq 0 256.

Lemma opcode_all (P : Z -> bool) op :
  forallb P all_opcodes = true -> 0 <= op < 256 -> P op = true.
Proof.
  intros H Hop. rewrite forallb_forall in H. apply H.
  unfold all_opcodes. apply list_elem_of_In, list_elem_of_fmap. exists (Z.to_nat op).
  split; [lia|]. apply elem_of_seq. lia.
Qed.

Lemma Opcode_range inst : 0 <= Opcode inst < 256.
Proof.
  unfold Opcode. change 0xFF with (2 ^ 8 - 1). rewrite land_ones_mod by lia.
  apply Z.mod_pos_bound. lia.
Qed.

(** The operands of a format. *)
Definition is_target_format (f : Format) : bool :=
  match f with k10t | k20t | k30t | k21t | k22t => true | _ => false end.
Definition has_b (f : Format) : bool :=
  match f with
  | k11n | k12x | k21c | k21h | k21s | k21t | k22b | k22c | k22s | k22t | k22x | k23x
  | k31c | k31i | k31t | k32x | k35c | k3rc | k45cc | k4rcc | k51l => true
  | _ => false
  end.
Definition has_c (f : Format) : bool :=
  match f with
  | k22b | k22c | k22s | k22t | k23x | k35c | k3rc | k45cc | k4rcc => true
  | _ => false
  end.
Definition has_h (f : Format) : bool := match f with k45cc | k4rcc => true | _ => false end.
Definition b_flags : Z :=
  kVerifyRegB ||| kVerifyRegBField ||| kVerifyRegBMethod ||| kVerifyRegBNewInstance
  ||| kVerifyRegBString ||| kVerifyRegBType ||| kVerifyRegBWide.
Definition c_flags : Z :=
  kVerifyRegC ||| kVerifyRegCField ||| kVerifyRegCNewArray ||| kVerifyRegCType ||| kVerifyRegCWide.

(** What the table promises about one opcode. *)
Definition descriptor_ok (op : Z) : bool :=
  let fl := flag_set (FlagsOf op) in
  let vf := flag_set (VerifyFlagsOf op) in
  let f := FormatOf op in
  eqb (fl kBranch) (is_target_format f)
  && eqb (fl kBranch) (vf kVerifyBranchTarget)
  && eqb (fl kSwitch) (vf kVerifySwitchTargets)
  && implb (fl kUnconditional) (fl kBranch && negb (fl kContinue))
  && implb (fl kBranch && negb (fl kUnconditional)) (fl kContinue)
  && implb (fl kReturn) (negb (fl kContinue))
  && implb (vf b_flags) (has_b f)
  && implb (vf c_flags) (has_c f)
  && eqb (vf kVerifyRegHPrototype) (has_h f)
  && eqb (vf kVerifyVarArg || vf kVerifyVarArgNonZero)
         (bool_decide (f = k35c) || bool_decide (f = k45cc))
  && implb (negb (op =? NOP)) (negb (size_in_code_units (descriptor op) <? 0)).

Definition row_in_place (i : Z) : bool :=
  match DEX_INSTRUCTION_LIST !! Z.to_nat i with
  | Some r => (row_opcode r =? i) && (row_code r =? i)
  | None => false
  end.

Lemma descriptors_ok inst : descriptor_ok (Opcode inst) = true.
Proof. apply (opcode_all descriptor_ok); [vm_compute; reflexivity|apply Opcode_range]. Qed.

Lemma rows_in_place i : 0 <= i < 256 -> row_in_place i = true.
Proof. apply (opcode_all row_in_place). vm_compute. reflexivity. Qed.

Section Table.
Context (inst : Instruction).
Let fl := flag_set (FlagsOf (Opcode inst)).
Let vf := flag_set (VerifyFlagsOf (Opcode inst)).
Let f := FormatOf (Opcode inst).

(** The promise as propositions. *)
Lemma table_facts :
  fl kBranch = is_target_format f /\ fl kBranch = vf kVerifyBranchTarget /\
  fl kSwitch = vf kVerifySwitchTargets /\
  (fl kUnconditional = true -> fl kBranch = true /\ fl kContinue = false) /\
  (fl kBranch = true -> fl kUnconditional = false -> fl kContinue = true) /\
  (fl kReturn = true -> fl kContinue = false) /\
  (vf b_flags = true -> has_b f = true) /\ (vf c_flags = true -> has_c f = true) /\
  vf kVerifyRegHPrototype = has_h f /\
  (Opcode inst <> NOP -> size_in_code_units (descriptor (Opcode inst)) <? 0 = false).
Proof.
  pose proof (descriptors_ok inst) as H. unfold descriptor_ok in H. cbv zeta in H.
  change (flag_set (FlagsOf (Opcode inst))) with fl in H.
  change (flag_set (VerifyFlagsOf (Opcode inst))) with vf in H.
  change (FormatOf (Opcode inst)) with f in H. clearbody fl vf f. bools.
  repeat match goal with
  | E : eqb _ _ = true |- _ => apply eqb_prop in E
  | E : implb _ _ = true |- _ => rewrite implb_true_iff in E
  end.
  repeat split; try assumption; intros;
    repeat match goal with
    | E : (?a = true -> _), F : ?a = true |- _ => specialize (E F)
    end; bools; try assumption.
  - match goal with E : (_ && _ = true -> ?x) |- _ => apply E end.
    apply andb_true_iff. split; [done|]. by apply negb_true_iff.
  - apply negb_true_iff. match goal with E : (_ -> negb (_ <? _) = true) |- _ => apply E end.
    by apply negb_true_iff, Z.eqb_neq.
Qed.
End Table.

Lemma flag_set_nonzero fl bit : fl &&& bit <> 0 <-> flag_set fl bit = true.
Proof. unfold flag_set. rewrite negb_true_iff. symmetry. apply Z.eqb_neq. Qed.

(** The 256-row descriptor table is consistent: row [i] describes opcode
    [i], and for every instruction the flags the verifier and the compilers
    dispatch on agree with the operands its format has.  A branch is exactly an
    instruction whose target offset can be read (no fatal access), an
    unconditional branch or return never falls through and a conditional branch
    does, every operand whose verification the table requests exists, argument
    lists have an argument format, and only [NOP] has a variable size. *)
Theorem descriptor_table_consistent :
  (forall i, 0 <= i < 256 ->
     exists r, DEX_INSTRUCTION_LIST !! Z.to_nat i = Some r /\ row_opcode r = i /\ row_code r = i) /\
  forall inst,
  (IsBranch inst = true <-> GetTargetOffset inst <> None) /\
  (IsUnconditional inst = true -> IsBranch inst = true /\ CanFlowThrough inst = false) /\
  (IsBranch inst = true -> IsUnconditional inst = false -> CanFlowThrough inst = true) /\
  (IsReturn inst = true -> CanFlowThrough inst = false) /\
  (GetVerifyTypeArgumentB inst <> 0 -> VRegB inst <> None) /\
  (GetVerifyTypeArgumentC inst <> 0 -> VRegC inst <> None) /\
  (GetVerifyTypeArgumentH inst <> 0 <-> VRegH inst <> None) /\
  (Opcode inst <> NOP -> SizeInCodeUnits inst = Some (size_in_code_units (descriptor (Opcode inst)))).
Proof.
  split.
  { intros i Hi. pose proof (rows_in_place i Hi) as H. unfold row_in_place in H.
    destruct (DEX_INSTRUCTION_LIST !! Z.to_nat i) as [r|]; [|done]. bools. by exists r. }
  intros inst.
  destruct (table_facts inst) as (T1 & _ & _ & T4 & T5 & T6 & T7 & T8 & T9 & T10).
  unfold IsBranch, IsUnconditional, IsReturn, GetTargetOffset, VRegB, VRegC, VRegH,
    GetVerifyTypeArgumentB, GetVerifyTypeArgumentC, GetVerifyTypeArgumentH, SizeInCodeUnits.
  change (CanFlowThrough inst) with (flag_set (FlagsOf (Opcode inst)) kContinue).
  fold b_flags c_flags. rewrite !flag_set_nonzero, T9.
  split; [rewrite T1; destruct (FormatOf (Opcode inst)); done|].
  split; [done|]. split; [done|]. split; [done|].
  split; [intros H; specialize (T7 H); destruct (FormatOf (Opcode inst)); done|].
  split; [intros H; specialize (T8 H); destruct (FormatOf (Opcode inst)); done|].
  split; [destruct (FormatOf (Opcode inst)); done|].
  intros H. by rewrite T10.
Qed.

(** The verifier's B argument mask leaves out the flag that the table gives the
    call site index of [invoke-custom]. *)
Lemma verify_argument_b_misses_call_site inst :
  Opcode inst = INVOKE_CUSTOM \/ Opcode inst = INVOKE_CUSTOM_RANGE ->
  VerifyFlagsOf (Opcode inst) &&& kVerifyRegBCallSite <> 0 /\ GetVerifyTypeArgumentB inst = 0.
Proof. unfold GetVerifyTypeArgumentB. intros [-> | ->]; split; vm_compute; done. Qed.

Lemma descriptor_table_consistent_witness :
  let goto_self : Instruction := fun i => if i =? 0 then 0x0028 else 0 in
  IsBranch goto_self = true /\ CanFlowThrough goto_self = false.
Proof.
  intros g. apply (proj1 (proj2 (proj2 descriptor_table_consistent g))). reflexivity.
Defined.

(** ** Instruction formats *)

(** The layouts of the format table, as an assembler writes them: the code units
    of an instruction from its operands, low byte of each unit first. *)
Record operands := { opA : Z; opB : Z; opC : Z; opD : Z; opE : Z; opF : Z; opG : Z; opH : Z }.

Definition word (lo hi : Z) : Z := lo + hi * 256.
Definition nibbles (lo hi : Z) : Z := lo + hi * 16.
Definition half (k v : Z) : Z := (v / 65536 ^ k) mod 65536.

Definition assemble (f : Format) (op : Z) (o : operands) : list Z :=
  let '(Build_operands a b c d e g_ g h) := o in
  match f with
  | k10x | k11x => [word op a]
  | k10t => [word op (a mod 256)]
  | k12x => [word op (nibbles a b)]
  | k11n => [word op (nibbles a (b mod 16))]
  | k20t => [word op 0; a mod 65536]
  | k22x | k21t | k21s | k21h | k21c => [word op a; b mod 65536]
  | k23x => [word op a; word b c]
  | k22b => [word op a; word b (c mod 256)]
  | k22t | k22s | k22c => [word op (nibbles a b); c mod 65536]
  | k32x => [word op 0; a; b]
  | k30t => [word op 0; half 0 a; half 1 a]
  | k31t | k31i | k31c => [word op a; half 0 b; half 1 b]
  | k35c => [word op (nibbles g a); b; word (nibbles c d) (nibbles e g_)]
  | k3rc => [word op a; b; c]
  | k45cc => [word op (nibbles g a); b; word (nibbles c d) (nibbles e g_); h]
  | k4rcc => [word op a; b; c; h]
  | k51l => [word op a; half 0 b; half 1 b; half 2 b; half 3 b]
  end.

(** The operand widths that the names of the formats document. *)
Definition operands_fit (f : Format) (o : operands) : Prop :=
  let '(Build_operands a b c d e g_ g h) := o in
  match f with
  | k10x | k11x => in_u 8 a
  | k10t => in_s 8 a
  | k12x => in_u 4 a /\ in_u 4 b
  | k11n => in_u 4 a /\ in_s 4 b
  | k20t => in_s 16 a
  | k22x | k21h | k21c => in_u 8 a /\ in_u 16 b
  | k21t | k21s => in_u 8 a /\ in_s 16 b
  | k23x => in_u 8 a /\ in_u 8 b /\ in_u 8 c
  | k22b => in_u 8 a /\ in_u 8 b /\ in_s 8 c
  | k22t | k22s => in_u 4 a /\ in_u 4 b /\ in_s 16 c
  | k22c => in_u 4 a /\ in_u 4 b /\ in_u 16 c
  | k32x => in_u 16 a /\ in_u 16 b
  | k30t => in_s 32 a
  | k31t | k31i => in_u 8 a /\ in_s 32 b
  | k31c => in_u 8 a /\ in_u 32 b
  | k35c => in_u 4 a /\ in_u 16 b /\ in_u 4 c /\ in_u 4 d /\ in_u 4 e /\ in_u 4 g_ /\ in_u 4 g
  | k3rc => in_u 8 a /\ in_u 16 b /\ in_u 16 c
  | k45cc => in_u 4 a /\ in_u 16 b /\ in_u 4 c /\ in_u 4 d /\ in_u 4 e /\ in_u 4 g_ /\ in_u 4 g
             /\ in_u 16 h
  | k4rcc => in_u 8 a /\ in_u 16 b /\ in_u 16 c /\ in_u 16 h
  | k51l => in_u 8 a /\ in_u 64 b
  end.

(** The instruction overlay of a code array at its first unit. *)
Definition overlay (units : list Z) : Instruction := fun i => nth (Z.to_nat i) units 0.

(** The B operand as the accessors return it: the 32-bit index and the 64-bit
    literal are unsigned, [VRegB] returns them as [int32_t]. *)
Definition decodes_b (f : Format) (inst : Instruction) (b : Z) : Prop :=
  match f with
  | k31c => VRegB_31c inst = b /\ VRegB inst = Some (s32 b)
  | k51l => WideVRegB inst = b /\ VRegB inst = Some (s32 b)
  | _ => has_b f = true -> VRegB inst = Some b
  end.

Lemma land_ff x : x &&& 0xff = x mod 256.
Proof. apply (land_ones_mod x 8). lia. Qed.
Lemma land_f x : x &&& 0x0f = x mod 16.
Proof. apply (land_ones_mod x 4). lia. Qed.

Lemma Fetch32_halves inst k :
  in_u 16 (inst k) -> in_u 16 (inst (k + 1)) -> Fetch32 inst k = inst k + inst (k + 1) * 65536.
Proof.
  intros H1 H2. unfold Fetch32, Fetch16, in_u in *. pows.
  rewrite wrap_u_id by (rewrite Z.shiftl_mul_pow2 by lia; wraps).
  rewrite lor_shiftl by (pows; lia). pows. lia.
Qed.

Lemma sign_extend4 x : s32 (x << 28) >> 28 = wrap_s 4 x.
Proof. rewrite Z.shiftl_mul_pow2, Z.shiftr_div_pow2 by lia. wraps. Qed.

(** Unfolds an accessor on an assembled instruction down to arithmetic. *)
Ltac decode_units :=
  cbn [overlay nth Z.to_nat Pos.to_nat Pos.iter_op Init.Nat.add] in *;
  rewrite ?Z.shiftr_div_pow2, ?land_ff, ?land_f by lia; pows.

Lemma overlay_Opcode f op o rest :
  0 <= op < 256 -> operands_fit f o -> Opcode (overlay (assemble f op o ++ rest)) = op.
Proof.
  intros Hop Hf. destruct o as [a b c d e g_ g h]. unfold Opcode, Fetch16, overlay.
  rewrite land_ff. destruct f; simpl in *; unfold word, nibbles; wraps.
Qed.

Lemma size_of_format op :
  0 <= op < 256 -> op <> NOP ->
  forall o, size_in_code_units (descriptor op) = Z.of_nat (length (assemble (FormatOf op) op o)).
Proof.
  intros Hop Hn [a b c d e g_ g h].
  assert (size_in_code_units (descriptor op) =
          InstructionSizeInCodeUnitsByOpcode op (FormatOf op)) as ->.
  { apply Z.eqb_eq, (opcode_all (fun op => size_in_code_units (descriptor op) =?
      InstructionSizeInCodeUnitsByOpcode op (FormatOf op))); [vm_compute; reflexivity|done]. }
  unfold InstructionSizeInCodeUnitsByOpcode. rewrite (proj2 (Z.eqb_neq op NOP)) by done.
  by destruct (FormatOf op).
Qed.

(** Evaluates the units of an assembled instruction and proves field equations. *)
Ltac eval_nth :=
  unfold overlay; change (1 + 1) with 2; change (3 + 1) with 4;
  change (Z.to_nat 0) with 0%nat; change (Z.to_nat 1) with 1%nat;
  change (Z.to_nat 2) with 2%nat; change (Z.to_nat 3) with 3%nat;
  change (Z.to_nat 4) with 4%nat; simpl.
Ltac units :=
  repeat match goal with
  | |- context [Fetch32 ?i ?k] =>
      rewrite (Fetch32_halves i k) by (eval_nth; unfold half; wraps)
  end;
  unfold InstA, InstB, InstAA, Fetch16; eval_nth;
  rewrite ?sign_extend4, ?Z.shiftr_div_pow2, ?land_ff, ?land_f by lia;
  unfold word, nibbles, half; pows.

Lemma decode_A f op o rest :
  0 <= op < 256 -> FormatOf op = f -> operands_fit f o ->
  VRegA (overlay (assemble f op o ++ rest)) = opA o.
Proof.
  intros Hop Hf Hfit. unfold VRegA. rewrite overlay_Opcode, Hf by done. clear Hf.
  destruct o as [a b c d e g_ g h]; destruct f; simpl in Hfit;
    unfold VRegA_10t, VRegA_10x, VRegA_11n, VRegA_11x, VRegA_12x, VRegA_20t, VRegA_21c, VRegA_21h,
      VRegA_21s, VRegA_21t, VRegA_22b, VRegA_22c, VRegA_22s, VRegA_22t, VRegA_22x, VRegA_23x,
      VRegA_30t, VRegA_31c, VRegA_31i, VRegA_31t, VRegA_32x, VRegA_35c, VRegA_3rc, VRegA_45cc,
      VRegA_4rcc, VRegA_51l;
    units; wraps.
Qed.

Lemma VRegB_51l_halves inst :
  (forall k, 1 <= k <= 4 -> in_u 16 (inst k)) ->
  VRegB_51l inst = inst 1 + inst 2 * 2 ^ 16 + inst 3 * 2 ^ 32 + inst 4 * 2 ^ 48.
Proof.
  intros H. pose proof (H 1) as H1. pose proof (H 2) as H2. pose proof (H 3) as H3.
  pose proof (H 4) as H4. unfold VRegB_51l.
  rewrite !Fetch32_halves by (apply H; lia). change (1 + 1) with 2. change (3 + 1) with 4.
  unfold in_u in *. pows. rewrite wrap_u_id by (rewrite Z.shiftl_mul_pow2 by lia; wraps).
  rewrite lor_shiftl by (pows; lia). pows. lia.
Qed.

Lemma decode_B f op o rest :
  0 <= op < 256 -> FormatOf op = f -> operands_fit f o ->
  decodes_b f (overlay (assemble f op o ++ rest)) (opB o).
Proof.
  intros Hop Hf Hfit. unfold decodes_b, VRegB, WideVRegB. rewrite overlay_Opcode, Hf by done.
  clear Hf.
  destruct o as [a b c d e g_ g h]; destruct f; simpl in Hfit; try done; simpl has_b;
    try (intros _);
    try (rewrite VRegB_51l_halves by
      (intros k Hk; assert (k = 1 \/ k = 2 \/ k = 3 \/ k = 4) as [->|[->|[->| ->]]] by lia;
       eval_nth; unfold half; wraps));
    try split; f_equal;
    unfold VRegB_11n, VRegB_12x, VRegB_21c, VRegB_21h, VRegB_21s, VRegB_21t, VRegB_22b, VRegB_22c,
      VRegB_22s, VRegB_22t, VRegB_22x, VRegB_23x, VRegB_31c, VRegB_31i, VRegB_31t, VRegB_32x,
      VRegB_35c, VRegB_3rc, VRegB_45cc, VRegB_4rcc;
    units; wraps.
Qed.

Lemma decode_C_H f op o rest :
  0 <= op < 256 -> FormatOf op = f -> operands_fit f o ->
  let inst := overlay (assemble f op o ++ rest) in
  (has_c f = true -> VRegC inst = Some (opC o)) /\ (has_h f = true -> VRegH inst = Some (opH o)).
Proof.
  intros Hop Hf Hfit inst. subst inst. unfold VRegC, VRegH.
  rewrite overlay_Opcode, Hf by done. clear Hf.
  destruct o as [a b c d e g_ g h]; destruct f; simpl in Hfit; split; simpl has_c; simpl has_h;
    try done; intros _; f_equal;
    unfold VRegC_22b, VRegC_22c, VRegC_22s, VRegC_22t, VRegC_23x, VRegC_35c, VRegC_3rc,
      VRegC_45cc, VRegC_4rcc, VRegH_45cc, VRegH_4rcc;
    units; wraps.
Qed.

Lemma decode_args f op o rest :
  0 <= op < 256 -> FormatOf op = f -> operands_fit f o -> f = k35c \/ f = k45cc -> opA o <= 5 ->
  GetVarArgs (overlay (assemble f op o ++ rest)) =
  take (Z.to_nat (opA o)) [opC o; opD o; opE o; opF o; opG o].
Proof.
  intros Hop Hf Hfit Hv Ha. destruct o as [a b c d e g_ g h].
  set (inst := overlay _).
  assert (InstB inst = a /\ InstA inst = g /\ Fetch16 inst 2 = c + d * 16 + e * 256 + g_ * 4096)
    as (E1 & E2 & E3).
  { subst inst. destruct Hv as [-> | ->]; simpl in Hfit; repeat split; units; wraps. }
  unfold GetVarArgs. rewrite E1, E2, E3. simpl opA in *.
  assert (in_u 4 a /\ in_u 4 c /\ in_u 4 d /\ in_u 4 e /\ in_u 4 g_ /\ in_u 4 g)
    as (Ha4 & Hc & Hd & He & Hg_ & Hg)
    by (destruct Hv as [-> | ->]; simpl in Hfit; tauto).
  rewrite !land_f, !Z.shiftr_div_pow2 by lia.
  unfold in_u in *. pows.
  replace ((c + d * 16 + e * 256 + g_ * 4096) mod 16) with c by zdiv.
  replace (((c + d * 16 + e * 256 + g_ * 4096) / 16) mod 16) with d by zdiv.
  replace (((c + d * 16 + e * 256 + g_ * 4096) / 256) mod 16) with e by zdiv.
  replace (((c + d * 16 + e * 256 + g_ * 4096) / 4096) mod 16) with g_ by zdiv.
  assert (a = 0 \/ a = 1 \/ a = 2 \/ a = 3 \/ a = 4 \/ a = 5)
    as [->|[->|[->|[->|[->| ->]]]]] by lia; reflexivity.
Qed.

(** C38. Instruction decoding inverts the documented layouts: for every opcode
    and all operands that fit its format, assembling the code units and reading
    them back gives the opcode, the size in code units, the A, B, C and H
    operands (signed ones sign-extended, the wide literal at 64 bits) and the
    argument registers of the 35c and 45cc formats, whatever follows in the code
    array. *)
Theorem decode_assembled op o rest :
  0 <= op < 256 -> let f := FormatOf op in operands_fit f o ->
  let inst := overlay (assemble f op o ++ rest) in
  Opcode inst = op /\
  (op <> NOP -> SizeInCodeUnits inst = Some (Z.of_nat (length (assemble f op o)))) /\
  VRegA inst = opA o /\ decodes_b f inst (opB o) /\
  (has_c f = true -> VRegC inst = Some (opC o)) /\
  (has_h f = true -> VRegH inst = Some (opH o)) /\
  (HasVarArgs inst = true -> opA o <= 5 ->
     GetVarArgs inst = take (Z.to_nat (opA o)) [opC o; opD o; opE o; opF o; opG o]).
Proof.
  intros Hop f Hfit inst. assert (Opcode inst = op) as Eop by (by apply overlay_Opcode).
  split; [done|]. split.
  { intros Hn. unfold SizeInCodeUnits. rewrite Eop, (size_of_format op Hop Hn o). fold f.
    rewrite (proj2 (Z.ltb_ge _ _)) by lia. done. }
  split; [by apply decode_A|]. split; [by apply decode_B|].
  destruct (decode_C_H f op o rest Hop eq_refl Hfit) as [HC HH]. split; [done|]. split; [done|].
  unfold HasVarArgs. rewrite Eop. fold f. intros Hv Ha. apply decode_args; try done.
  apply orb_true_iff in Hv as [Hv|Hv]; apply bool_decide_eq_true in Hv; auto.
Qed.

(** [invoke-virtual {v1, v2, v3}, meth@0x1234] *)
Lemma decode_assembled_witness :
  let o := Build_operands 3 0x1234 1 2 3 0 0 0 in
  let inst := overlay (assemble (FormatOf INVOKE_VIRTUAL) INVOKE_VIRTUAL o ++ []) in
  SizeInCodeUnits inst = Some 3 /\ VRegB inst = Some 0x1234 /\ GetVarArgs inst = [1; 2; 3].
Proof.
  intros o inst.
  destruct (decode_assembled INVOKE_VIRTUAL o []) as (_ & H1 & _ & H2 & _ & _ & H3).
  - unfold INVOKE_VIRTUAL. lia.
  - vm_compute. repeat split; done.
  - split; [exact (H1 ltac:(done))|]. split; [exact (H2 eq_refl)|].
    exact (H3 eq_refl ltac:(done)).
Defined.

(** ** Payloads *)

Definition payload_length (inst : Instruction) : Z := Fetch16 inst 2 + Fetch16 inst 3 * 65536.

Lemma payload_opcode inst sig :
  Fetch16 inst 0 = sig -> sig mod 256 = 0 ->
  SizeInCodeUnits inst = SizeInCodeUnitsComplexOpcode inst.
Proof.
  intros E Hs. unfold SizeInCodeUnits, Opcode. rewrite E, land_ff, Hs. reflexivity.
Qed.

(** Sizes of the variable-length payloads: a packed switch of [n] cases
    takes [4 + 2n] units, a sparse switch [2 + 4n], and an array payload of
    [n] elements of [w] bytes the four header units and the bytes rounded up to
    whole units, as long as the byte count is below [2^32 - 1]. *)
Theorem payload_sizes inst :
  (forall k, in_u 16 (inst k)) ->
  (Fetch16 inst 0 = kPackedSwitchSignature ->
     SizeInCodeUnits inst = Some (4 + 2 * Fetch16 inst 1)) /\
  (Fetch16 inst 0 = kSparseSwitchSignature ->
     SizeInCodeUnits inst = Some (2 + 4 * Fetch16 inst 1)) /\
  (Fetch16 inst 0 = kArrayDataSignature ->
     Fetch16 inst 1 * payload_length inst < 2 ^ 32 - 1 ->
     exists units, SizeInCodeUnits inst = Some (4 + units) /\
       2 * units - 1 <= Fetch16 inst 1 * payload_length inst <= 2 * units) /\
  (Fetch16 inst 0 = 0 -> SizeInCodeUnits inst = Some 1).
Proof.
  intros Hu. pose proof (Hu 2) as H2. pose proof (Hu 3) as H3. pose proof (Hu 1) as H1.
  repeat split.
  - intros E. rewrite (payload_opcode _ _ E) by done. unfold SizeInCodeUnitsComplexOpcode.
    rewrite E. simpl. f_equal. lia.
  - intros E. rewrite (payload_opcode _ _ E) by done. unfold SizeInCodeUnitsComplexOpcode.
    rewrite E. simpl. f_equal. lia.
  - intros E Hl. rewrite (payload_opcode _ _ E) by done. unfold SizeInCodeUnitsComplexOpcode.
    rewrite E. simpl. fold (Fetch32 inst 2).
    assert (Fetch16 inst 2 ||| u32 (Fetch16 inst 3 << 16) = payload_length inst) as ->
      by (apply (Fetch32_halves inst 2); apply Hu).
    set (n := Fetch16 inst 1 * payload_length inst) in *.
    assert (0 <= n) by (unfold n, payload_length, Fetch16, in_u in *; nia).
    exists ((n + 1) / 2). split; [f_equal; wraps|zdiv].
  - intros E. rewrite (payload_opcode _ _ E) by done. unfold SizeInCodeUnitsComplexOpcode.
    by rewrite E.
Qed.

Lemma payload_sizes_witness :
  SizeInCodeUnits (overlay [0x0300; 4; 3; 0]) = Some 10 /\
  SizeInCodeUnits (overlay [0x0100; 5]) = Some (4 + 2 * 5).
Proof.
  split; [reflexivity|].
  refine (proj1 (payload_sizes (overlay [0x0100; 5]) _) eq_refl).
  intros k. unfold overlay. destruct (Z.to_nat k) as [|[|[|]]]; simpl; unfold in_u; lia.
Defined.

(** Beyond that bound the 32-bit product wraps: an array payload of 2^29 longs
    is given the size of an empty one. *)
Lemma array_payload_size_wraps :
  payload_length (overlay [0x0300; 8; 0; 0x2000]) = 2 ^ 29 /\
  SizeInCodeUnits (overlay [0x0300; 8; 0; 0x2000]) = Some 4.
Proof. split; reflexivity. Qed.

(** ** Quickening setters *)

(** The in-place setters replace their field and nothing else: after
    [SetOpcode] the opcode is the new one and the A field and all later units
    are unchanged; after the [VRegA] setters the A field is the new one and the
    opcode is unchanged; the unit setters change unit 1 only. *)
Theorem instruction_setters inst v :
  (forall k, in_u 16 (inst k)) -> in_u 8 v ->
  (Opcode (SetOpcode inst v) = v /\ InstAA (SetOpcode inst v) = InstAA inst /\
   forall k, k <> 0 -> SetOpcode inst v k = inst k) /\
  (forall set, set = SetVRegA_10x \/ set = SetVRegA_21c ->
     InstAA (set inst v) = v /\ Opcode (set inst v) = Opcode inst /\
     forall k, k <> 0 -> set inst v k = inst k) /\
  (forall set, set = SetVRegB_3rc \/ set = SetVRegB_35c \/ set = SetVRegC_22c \/ set = SetVRegB_21c ->
     Fetch16 (set inst v) 1 = v /\ forall k, k <> 1 -> set inst v k = inst k).
Proof.
  intros Hu Hv. pose proof (Hu 0) as H0. unfold in_u in H0, Hv. pows.
  assert (forall i w k, k <> i -> set_unit inst i w k = inst k) as Hother.
  { intros i w k Hk. unfold set_unit. by rewrite (proj2 (Z.eqb_neq k i)). }
  assert (inst 0 &&& 0xff00 = inst 0 - inst 0 mod 256) as Eff.
  { rewrite <- (Z.land_comm 0xff00). change 0xff00 with (Z.ones 8 << 8).
    pose proof (Z.land_ones (inst 0 >> 8) 8 ltac:(lia)) as E.
    assert ((Z.ones 8 << 8) &&& inst 0 = (Z.ones 8 &&& (inst 0 >> 8)) << 8) as ->.
    { apply Z.bits_inj'. intros i Hi. rewrite Z.land_spec, !Z.shiftl_spec, Z.land_spec by lia.
      destruct (Z.lt_ge_cases i 8).
      - by rewrite !(Z.testbit_neg_r _ (i - 8)) by lia.
      - rewrite Z.shiftr_spec by lia. do 2 f_equal. lia. }
    rewrite Z.land_comm, E, Z.shiftl_mul_pow2, Z.shiftr_div_pow2 by lia. pows. zdiv. }
  split; [|split].
  - unfold SetOpcode, Opcode, InstAA, Fetch16. unfold set_unit at 1 2. simpl.
    rewrite land_ff, !Z.shiftr_div_pow2, Eff, Z.lor_comm by lia.
    rewrite (lor_multiple _ _ 8) by (pows; zdiv). pows. repeat split; [wraps|wraps|].
    intros; by apply Hother.
  - intros set Hset.
    assert (set inst v = set_unit inst 0 (u16 ((v << 8) ||| (inst 0 &&& 0x00ff)))) as ->
      by (by destruct Hset as [-> | ->]).
    unfold Opcode, InstAA, Fetch16. unfold set_unit at 1 2. simpl.
    change 0x00ff with 0xff. rewrite !land_ff, !Z.shiftr_div_pow2 by lia.
    rewrite shiftl_lor by (pows; zdiv). pows. repeat split; [wraps|wraps|].
    intros; by apply Hother.
  - intros set Hset.
    assert (set inst v = set_unit inst 1 v) as -> by (by destruct Hset as [->|[->|[->| ->]]]).
    split; [done|]. intros; by apply Hother.
Qed.

Lemma instruction_setters_witness :
  Opcode (SetOpcode (overlay [0x1252; 7]) IGET_QUICK) = IGET_QUICK /\
  InstAA (SetOpcode (overlay [0x1252; 7]) IGET_QUICK) = 0x12.
Proof.
  destruct (instruction_setters (overlay [0x1252; 7]) IGET_QUICK) as [(H1 & H2 & _) _].
  - intros k. unfold overlay. destruct (Z.to_nat k) as [|[|[|]]]; simpl; unfold in_u; lia.
  - unfold in_u, IGET_QUICK. lia.
  - split; [exact H1|rewrite H2; reflexivity].
Defined.
