(* ===== verification/ShadowFrame.v ===== *)
(** * Interpreter frames ([runtime/interpreter/shadow_frame.h])

    A frame of [n] virtual registers is one array of [2n] words: the raw
    registers and, behind them, the reference copies the collector scans.  The
    accessors compute indices into that array as the code does, so a wide access
    at the last register reaches the reference part.  [None] is an access the
    [DCHECK]s or the array bounds exclude. *)
From S2P Require Import Prelude.

Definition kMovingCollector : bool := true.

Record ShadowFrame := {
  number_of_vregs : nat;
  vregs : list Z;
  dex_pc : Z
}.

(** The constructor clears both parts. *)
Definition CreateShadowFrame (num_vregs : nat) (dex_pc : Z) : ShadowFrame :=
  {| number_of_vregs := num_vregs; vregs := replicate (2 * num_vregs) 0; dex_pc := dex_pc |}.

Definition SetDexPC (f : ShadowFrame) (pc : Z) : ShadowFrame :=
  {| number_of_vregs := number_of_vregs f; vregs := vregs f; dex_pc := pc |}.

(** ** Raw words of the two-part array *)

Definition read_word (f : ShadowFrame) (i : nat) : option Z := vregs f !! i.
Definition write_word (f : ShadowFrame) (i : nat) (v : Z) : option ShadowFrame :=
  if decide (i < length (vregs f))%nat then
    Some {| number_of_vregs := number_of_vregs f; vregs := <[i := v]> (vregs f);
            dex_pc := dex_pc f |}
  else None.

(** [DCHECK_LT(i, NumberOfVRegs())] *)
Definition check_vreg (f : ShadowFrame) (i : Z) : option nat :=
  if decide (0 <= i < Z.of_nat (number_of_vregs f)) then Some (Z.to_nat i) else None.

(** [References()[i]] *)
Definition reference_index (f : ShadowFrame) (i : nat) : nat := number_of_vregs f + i.

(** ** Accessors *)

Definition GetVReg (f : ShadowFrame) (i : Z) : option Z :=
  i ← check_vreg f i;
  w ← read_word f i; Some (s32 w).

Definition GetVRegLong (f : ShadowFrame) (i : Z) : option Z :=
  i ← check_vreg f i;
  lo ← read_word f i; hi ← read_word f (S i); Some (s64 (lo ||| (hi << 32))).

Definition GetVRegReference (f : ShadowFrame) (i : Z) : option Z :=
  i ← check_vreg f i; read_word f (reference_index f i).

Definition SetVReg (f : ShadowFrame) (i val : Z) : option ShadowFrame :=
  i ← check_vreg f i;
  f ← write_word f i (u32 val);
  if kMovingCollector then write_word f (reference_index f i) 0 else Some f.

Definition SetVRegLong (f : ShadowFrame) (i val : Z) : option ShadowFrame :=
  i ← check_vreg f i;
  f ← write_word f i (u32 val);
  f ← write_word f (S i) (u32 (val >> 32));
  if kMovingCollector then
    f ← write_word f (reference_index f i) 0;
    write_word f (reference_index f (S i)) 0
  else Some f.

(** A reference is a 32-bit heap address, null is 0. *)
Definition SetVRegReference (f : ShadowFrame) (i val : Z) : option ShadowFrame :=
  i ← check_vreg f i;
  f ← write_word f i (u32 val);
  write_word f (reference_index f i) (u32 val).

(** [AssignRegister] ([interpreter_common.h]): copies a register between frames,
    as a reference when both parts of the source agree. *)
Definition AssignRegister (new_frame frame : ShadowFrame) (dest_reg src_reg : Z)
    : option ShadowFrame :=
  v ← GetVReg frame src_reg;
  o ← GetVRegReference frame src_reg;
  let src_value := u32 v in
  if src_value =? o then SetVRegReference new_frame dest_reg o
  else SetVReg new_frame dest_reg src_value.

(** ** Invariant *)

(** Both parts are there, every word has 32 bits, and a reference slot is null
    or a copy of its register. *)
Definition frame_ok (f : ShadowFrame) : Prop :=
  length (vregs f) = (2 * number_of_vregs f)%nat /\
  Forall (in_u 32) (vregs f) /\
  forall i, (i < number_of_vregs f)%nat ->
    vregs f !! reference_index f i = Some 0 \/ vregs f !! reference_index f i = vregs f !! i.

Lemma CreateShadowFrame_ok n pc : frame_ok (CreateShadowFrame n pc).
Proof.
  split; [apply length_replicate|]. split.
  - apply Forall_replicate. unfold in_u. pows. lia.
  - intros i Hi. left. apply lookup_replicate. split; [done|].
    unfold reference_index in *. simpl in *. lia.
Qed.

Lemma check_vreg_Some f i k :
  check_vreg f i = Some k <-> (k < number_of_vregs f)%nat /\ i = Z.of_nat k.
Proof.
  unfold check_vreg. case_decide; split; intros; simplify_eq.
  - lia.
  - f_equal. lia.
  - destruct H0. lia.
Qed.

Lemma write_word_Some f i v f' :
  write_word f i v = Some f' <->
  (i < length (vregs f))%nat /\
  f' = {| number_of_vregs := number_of_vregs f; vregs := <[i := v]> (vregs f);
          dex_pc := dex_pc f |}.
Proof.
  unfold write_word. case_decide; split; [by intros [= <-]|by intros [_ ->]|done|by intros [??]].
Qed.

(** Destructs an access into its checked steps. *)
Ltac frame_steps :=
  repeat match goal with
  | H : (check_vreg _ _ ≫= _) = Some _ |- _ =>
      let E := fresh "Ek" in apply bind_Some in H as (? & E & H);
      apply check_vreg_Some in E as [? ->]
  | H : (write_word _ _ _ ≫= _) = Some _ |- _ =>
      let E := fresh "Ew" in apply bind_Some in H as (? & E & H);
      apply write_word_Some in E as [? ->]; simpl in H
  | H : (read_word _ _ ≫= _) = Some _ |- _ =>
      let E := fresh "Er" in apply bind_Some in H as (? & E & H)
  | H : write_word _ _ _ = Some _ |- _ => apply write_word_Some in H as [? ->]
  end.

(** ** Success and effect of the setters *)

Section Setters.
Context (f : ShadowFrame) (Hok : frame_ok f).
Notation n := (number_of_vregs f).

Lemma frame_length : length (vregs f) = (2 * n)%nat.
Proof. apply Hok. Qed.

(** The words after a setter: which are written, by index into the array. *)
Lemma SetVReg_eq (k : nat) v :
  (k < n)%nat ->
  SetVReg f (Z.of_nat k) v =
  Some {| number_of_vregs := n; vregs := <[(n + k)%nat := 0]> (<[k := u32 v]> (vregs f));
          dex_pc := dex_pc f |}.
Proof.
  intros Hk. unfold SetVReg. rewrite (proj2 (check_vreg_Some f _ k)) by done. simpl.
  pose proof frame_length. rewrite (proj2 (write_word_Some f k _ _)) by (split; [lia|done]).
  simpl. apply write_word_Some. simpl. rewrite length_insert. split; [|done].
  unfold reference_index. simpl.  lia.
Qed.

Lemma SetVRegReference_eq (k : nat) v :
  (k < n)%nat ->
  SetVRegReference f (Z.of_nat k) v =
  Some {| number_of_vregs := n; vregs := <[(n + k)%nat := u32 v]> (<[k := u32 v]> (vregs f));
          dex_pc := dex_pc f |}.
Proof.
  intros Hk. unfold SetVRegReference. rewrite (proj2 (check_vreg_Some f _ k)) by done. simpl.
  pose proof frame_length. rewrite (proj2 (write_word_Some f k _ _)) by (split; [lia|done]).
  simpl. apply write_word_Some. simpl. rewrite length_insert. split; [|done].
  unfold reference_index. simpl.  lia.
Qed.

Lemma SetVRegLong_eq (k : nat) v :
  (S k < n)%nat ->
  SetVRegLong f (Z.of_nat k) v =
  Some {| number_of_vregs := n;
          vregs := <[(n + S k)%nat := 0]> (<[(n + k)%nat := 0]>
                     (<[S k := u32 (v >> 32)]> (<[k := u32 v]> (vregs f))));
          dex_pc := dex_pc f |}.
Proof.
  intros Hk. unfold SetVRegLong. rewrite (proj2 (check_vreg_Some f _ k)) by (split; [lia|done]).
  pose proof frame_length. cbn [mbind option_bind].
  rewrite (proj2 (write_word_Some f k _ _)) by (split; [lia|done]). cbn [mbind option_bind].
  rewrite (proj2 (write_word_Some _ (S k) _ _))
    by (simpl; rewrite length_insert; split; [lia|done]).
  cbn [mbind option_bind kMovingCollector number_of_vregs reference_index vregs].
  rewrite (proj2 (write_word_Some _ (n + k) _ _))
    by (simpl; rewrite !length_insert; split; [lia|done]).
  cbn [mbind option_bind]. apply write_word_Some. simpl. rewrite !length_insert.
  split; [|done]. unfold reference_index. simpl. lia.
Qed.

(** A word that is neither a register nor a reference slot of the written
    registers keeps its value. *)
Lemma frame_ok_set (ws : list Z) :
  length ws = (2 * n)%nat -> Forall (in_u 32) ws ->
  (forall i, (i < n)%nat -> ws !! (n + i)%nat = Some 0 \/ ws !! (n + i)%nat = ws !! i) ->
  frame_ok {| number_of_vregs := n; vregs := ws; dex_pc := dex_pc f |}.
Proof. intros H1 H2 H3. split; [done|]. split; [done|]. exact H3. Qed.

Lemma slot_ok i :
  (i < n)%nat -> vregs f !! (n + i)%nat = Some 0 \/ vregs f !! (n + i)%nat = vregs f !! i.
Proof. apply Hok. Qed.

Ltac lookups :=
  repeat first
    [ rewrite list_lookup_insert_eq by (rewrite ?length_insert, ?frame_length; lia)
    | rewrite list_lookup_insert_ne by lia ].

Lemma SetVReg_ok k v f' : SetVReg f k v = Some f' -> frame_ok f'.
Proof.
  intros H. destruct (check_vreg f k) as [i|] eqn:E; [|by unfold SetVReg in H; rewrite E in H].
  apply check_vreg_Some in E as [Hi ->]. 
  rewrite SetVReg_eq in H by done. injection H as <-. apply frame_ok_set.
  - by rewrite !length_insert, frame_length.
  - apply Forall_insert; [apply Forall_insert; [apply Hok|apply wrap_u_range; lia]|].
    unfold in_u. pows. lia.
  - intros j Hj. destruct (decide (j = i)) as [->|Hne]; [left; by lookups|].
    lookups. by apply slot_ok.
Qed.

Lemma SetVRegReference_ok k v f' : SetVRegReference f k v = Some f' -> frame_ok f'.
Proof.
  intros H. destruct (check_vreg f k) as [i|] eqn:E; [|by unfold SetVRegReference in H; rewrite E in H].
  apply check_vreg_Some in E as [Hi ->]. 
  rewrite SetVRegReference_eq in H by done. injection H as <-. apply frame_ok_set.
  - by rewrite !length_insert, frame_length.
  - apply Forall_insert; [apply Forall_insert; [apply Hok|]|]; apply wrap_u_range; lia.
  - intros j Hj. destruct (decide (j = i)) as [->|Hne]; [right; by lookups|].
    lookups. by apply slot_ok.
Qed.
(** A wide store at the last register would leave the array. *)
Lemma SetVRegLong_Some k v f' :
  SetVRegLong f k v = Some f' -> exists i, k = Z.of_nat i /\ (S i < n)%nat.
Proof.
  intros H. unfold SetVRegLong in H. frame_steps. exists x. split; [done|].
  cbn [kMovingCollector] in H. frame_steps. pose proof frame_length.
  unfold reference_index in *. simpl in *. rewrite !length_insert in *.  lia.
Qed.

Lemma SetVRegLong_ok k v f' : SetVRegLong f k v = Some f' -> frame_ok f'.
Proof.
  intros H. destruct (SetVRegLong_Some _ _ _ H) as (i & -> & Hi).
  rewrite SetVRegLong_eq in H by done. injection H as <-. apply frame_ok_set.
  - by rewrite !length_insert, frame_length.
  - repeat (apply Forall_insert; [|try (apply wrap_u_range; lia); unfold in_u; pows; lia]).
    apply Hok.
  - intros j Hj. destruct (decide (j = i)) as [->|Hne]; [left; by lookups|].
    destruct (decide (j = S i)) as [->|Hne']; [left; by lookups|].
    lookups. by apply slot_ok.
Qed.
End Setters.

(** ** Reading back *)

Lemma long_halves v :
  in_s 64 v -> s64 (u32 v ||| (u32 (v >> 32) << 32)) = v.
Proof.
  intros Hv. rewrite Z.shiftr_div_pow2 by lia. rewrite lor_shiftl by (try lia; apply wrap_u_range; lia).
  wraps.
Qed.

Lemma GetVReg_at f (k : nat) :
  (k < number_of_vregs f)%nat -> GetVReg f (Z.of_nat k) = s32 <$> vregs f !! k.
Proof.
  intros Hk. unfold GetVReg, read_word. rewrite (proj2 (check_vreg_Some f _ k)) by done.
  done.
Qed.

Lemma GetVRegReference_at f (k : nat) :
  (k < number_of_vregs f)%nat ->
  GetVRegReference f (Z.of_nat k) = vregs f !! (number_of_vregs f + k)%nat.
Proof.
  intros Hk. unfold GetVRegReference. by rewrite (proj2 (check_vreg_Some f _ k)).
Qed.

(** Frames that agree on the two words of a register agree on its accessors. *)
Lemma accessors_agree f g j :
  number_of_vregs g = number_of_vregs f ->
  (forall i, j = Z.of_nat i -> (i < number_of_vregs f)%nat ->
     vregs g !! i = vregs f !! i /\
     vregs g !! (number_of_vregs f + i)%nat = vregs f !! (number_of_vregs f + i)%nat) ->
  GetVReg g j = GetVReg f j /\ GetVRegReference g j = GetVRegReference f j.
Proof.
  intros Hn Hw. unfold GetVReg, GetVRegReference, check_vreg, read_word, reference_index.
  rewrite Hn. case_decide; [|done]. simpl.
  destruct (Hw (Z.to_nat j)) as [-> ->]; [lia|lia|done].
Qed.

(** What a store of one register promises: the word [v] in the register, [r] in
    its reference slot, everything else as before. *)
Definition stored (f f' : ShadowFrame) (k v r : Z) : Prop :=
  frame_ok f' /\ GetVReg f' k = Some (s32 v) /\ GetVRegReference f' k = Some r /\
  forall j, j <> k ->
    GetVReg f' j = GetVReg f j /\ GetVRegReference f' j = GetVRegReference f j.

Lemma s32_u32 v : s32 (u32 v) = s32 v.
Proof. by apply wrap_s_wrap_u. Qed.

Lemma SetVReg_spec f k v :
  frame_ok f ->
  match SetVReg f k v with
  | Some f' => 0 <= k < Z.of_nat (number_of_vregs f) /\ stored f f' k v 0
  | None => ~ 0 <= k < Z.of_nat (number_of_vregs f)
  end.
Proof.
  intros Hok. destruct (SetVReg f k v) as [f'|] eqn:E.
  - pose proof (SetVReg_ok f Hok k v f' E) as Hok'. pose proof (frame_length f Hok) as Hl.
    destruct (check_vreg f k) as [i|] eqn:Ek; [|by unfold SetVReg in E; rewrite Ek in E].
    apply check_vreg_Some in Ek as [Hi ->]. rewrite SetVReg_eq in E by done.
    injection E as <-. split; [lia|]. split; [done|].
    rewrite GetVReg_at, GetVRegReference_at by done. simpl.
    split_and!; [| |intros j Hj; apply accessors_agree; [done|]; intros i' -> Hi'; simpl].
    + rewrite list_lookup_insert_ne, list_lookup_insert_eq by lia. simpl. by rewrite s32_u32.
    + by rewrite list_lookup_insert_eq by (rewrite length_insert; lia).
    + by rewrite !list_lookup_insert_ne by lia.
  - intros Hk. replace k with (Z.of_nat (Z.to_nat k)) in E by lia.
    by rewrite SetVReg_eq in E by (done || lia).
Qed.

Lemma SetVRegReference_spec f k v :
  frame_ok f ->
  match SetVRegReference f k v with
  | Some f' => 0 <= k < Z.of_nat (number_of_vregs f) /\ stored f f' k v (u32 v)
  | None => ~ 0 <= k < Z.of_nat (number_of_vregs f)
  end.
Proof.
  intros Hok. destruct (SetVRegReference f k v) as [f'|] eqn:E.
  - pose proof (SetVRegReference_ok f Hok k v f' E) as Hok'. pose proof (frame_length f Hok) as Hl.
    destruct (check_vreg f k) as [i|] eqn:Ek; [|by unfold SetVRegReference in E; rewrite Ek in E].
    apply check_vreg_Some in Ek as [Hi ->]. rewrite SetVRegReference_eq in E by done.
    injection E as <-. split; [lia|]. split; [done|].
    rewrite GetVReg_at, GetVRegReference_at by done. simpl.
    split_and!; [| |intros j Hj; apply accessors_agree; [done|]; intros i' -> Hi'; simpl].
    + rewrite list_lookup_insert_ne, list_lookup_insert_eq by lia. simpl. by rewrite s32_u32.
    + by rewrite list_lookup_insert_eq by (rewrite length_insert; lia).
    + by rewrite !list_lookup_insert_ne by lia.
  - intros Hk. replace k with (Z.of_nat (Z.to_nat k)) in E by lia.
    by rewrite SetVRegReference_eq in E by (done || lia).
Qed.

Lemma SetVRegLong_spec f k v :
  frame_ok f -> in_s 64 v ->
  match SetVRegLong f k v with
  | Some f' => 0 <= k /\ k + 1 < Z.of_nat (number_of_vregs f) /\ frame_ok f' /\
      GetVRegLong f' k = Some v /\
      GetVReg f' k = Some (s32 v) /\ GetVReg f' (k + 1) = Some (s32 (v >> 32)) /\
      GetVRegReference f' k = Some 0 /\ GetVRegReference f' (k + 1) = Some 0 /\
      forall j, j <> k -> j <> k + 1 ->
        GetVReg f' j = GetVReg f j /\ GetVRegReference f' j = GetVRegReference f j
  | None => ~ (0 <= k /\ k + 1 < Z.of_nat (number_of_vregs f))
  end.
Proof.
  intros Hok Hv. destruct (SetVRegLong f k v) as [f'|] eqn:E.
  - pose proof (SetVRegLong_ok f Hok k v f' E) as Hok'. pose proof (frame_length f Hok) as Hl.
    destruct (SetVRegLong_Some f Hok k v f' E) as (i & -> & Hi).
    rewrite SetVRegLong_eq in E by done. injection E as <-.
    replace (Z.of_nat i + 1) with (Z.of_nat (S i)) by lia.
    rewrite !GetVReg_at, !GetVRegReference_at by (simpl; lia). simpl.
    unfold GetVRegLong, read_word. rewrite (proj2 (check_vreg_Some _ _ i)) by (simpl; lia). simpl.
    split_and!; try lia; try done.
    + rewrite !(list_lookup_insert_ne _ (_ + _)) by lia.
      rewrite (list_lookup_insert_ne _ (S i) i), !list_lookup_insert_eq
        by (rewrite ?length_insert; lia). simpl. by rewrite long_halves.
    + rewrite !list_lookup_insert_ne, list_lookup_insert_eq by lia. simpl. by rewrite s32_u32.
    + rewrite !(list_lookup_insert_ne _ (_ + _)), list_lookup_insert_eq
        by (rewrite ?length_insert; lia). simpl. by rewrite s32_u32.
    + by rewrite list_lookup_insert_ne, list_lookup_insert_eq by (rewrite ?length_insert; lia).
    + by rewrite list_lookup_insert_eq by (rewrite ?length_insert; lia).
    + intros j H1 H2. apply accessors_agree; [done|]. intros i' -> Hi'. simpl.
      by rewrite !list_lookup_insert_ne by lia.
  - intros Hk. replace k with (Z.of_nat (Z.to_nat k)) in E by lia.
    by rewrite SetVRegLong_eq in E by (done || lia).
Qed.

(** Interpreter frames keep the collector's invariant (every reference slot
    is null or a copy of its register): a 32-bit or reference store into a
    well-formed frame succeeds exactly when its register exists, a wide one
    exactly when both do; the result is well-formed, reads back what was stored,
    marks non-references as such, and leaves all other registers and reference
    slots alone. *)
Theorem shadow_frame_stores f k v :
  frame_ok f -> in_s 64 v ->
  let n := Z.of_nat (number_of_vregs f) in
  match SetVReg f k v with
  | Some f' => 0 <= k < n /\ stored f f' k v 0
  | None => ~ 0 <= k < n
  end /\
  match SetVRegReference f k v with
  | Some f' => 0 <= k < n /\ stored f f' k v (u32 v)
  | None => ~ 0 <= k < n
  end /\
  match SetVRegLong f k v with
  | Some f' => 0 <= k /\ k + 1 < n /\ frame_ok f' /\ GetVRegLong f' k = Some v /\
      GetVReg f' k = Some (s32 v) /\ GetVReg f' (k + 1) = Some (s32 (v >> 32)) /\
      GetVRegReference f' k = Some 0 /\ GetVRegReference f' (k + 1) = Some 0 /\
      forall j, j <> k -> j <> k + 1 ->
        GetVReg f' j = GetVReg f j /\ GetVRegReference f' j = GetVRegReference f j
  | None => ~ (0 <= k /\ k + 1 < n)
  end.
Proof.
  intros Hok Hv n. split_and!;
    [by apply SetVReg_spec|by apply SetVRegReference_spec|by apply SetVRegLong_spec].
Qed.

Lemma shadow_frame_stores_witness :
  match SetVRegLong (CreateShadowFrame 3 0) 1 (-5) with
  | Some f' => GetVRegLong f' 1 = Some (-5)
  | None => False
  end.
Proof.
  destruct (shadow_frame_stores (CreateShadowFrame 3 0) 1 (-5) (CreateShadowFrame_ok 3 0)
              ltac:(unfold in_s; pows; lia)) as (_ & _ & H).
  destruct (SetVRegLong _ 1 (-5)).
  - apply H.
  - apply H. simpl. lia.
Defined.

Lemma read_words f (k : nat) :
  frame_ok f -> (k < number_of_vregs f)%nat ->
  exists w r, vregs f !! k = Some w /\ in_u 32 w /\
    vregs f !! (number_of_vregs f + k)%nat = Some r /\ (r = 0 \/ r = w).
Proof.
  intros (Hl & Hf & Hr) Hk.
  destruct (lookup_lt_is_Some_2 (vregs f) k ltac:(lia)) as [w Hw].
  destruct (lookup_lt_is_Some_2 (vregs f) (number_of_vregs f + k) ltac:(lia)) as [r Hr'].
  exists w, r. split_and!; [done|by apply (Forall_lookup_1 _ _ _ _ Hf Hw)|done|].
  destruct (Hr k Hk) as [H|H]; unfold reference_index in H; rewrite Hr' in H; [left|right];
    congruence.
Qed.

Lemma u32_s32 w : in_u 32 w -> u32 (s32 w) = w.
Proof. intros H. rewrite wrap_u_wrap_s, wrap_u_id by (done || lia). done. Qed.

(** Copying a register between frames with [AssignRegister] (the argument
    passing of calls) copies both the word and its reference slot, and keeps
    every other register of the callee's frame. *)
Theorem assign_register_copies new_frame frame dest src :
  frame_ok new_frame -> frame_ok frame ->
  0 <= src < Z.of_nat (number_of_vregs frame) ->
  0 <= dest < Z.of_nat (number_of_vregs new_frame) ->
  exists f', AssignRegister new_frame frame dest src = Some f' /\ frame_ok f' /\
    GetVReg f' dest = GetVReg frame src /\
    GetVRegReference f' dest = GetVRegReference frame src /\
    forall j, j <> dest ->
      GetVReg f' j = GetVReg new_frame j /\
      GetVRegReference f' j = GetVRegReference new_frame j.
Proof.
  intros Hn Hf Hs Hd.
  destruct (read_words frame (Z.to_nat src) Hf ltac:(lia)) as (w & r & Hw & Iw & Hr & Hrw).
  assert (Es : src = Z.of_nat (Z.to_nat src)) by lia.
  unfold AssignRegister. rewrite Es, GetVReg_at, GetVRegReference_at, Hw, Hr by lia. simpl.
  rewrite u32_s32 by done. destruct (Z.eqb_spec w r) as [->|Hne].
  - pose proof (SetVRegReference_spec new_frame dest r Hn) as H.
    destruct (SetVRegReference _ _ _) as [f'|]; [|lia].
    destruct H as (_ & H1 & H2 & H3 & H4). exists f'.
    rewrite H2, H3, (wrap_u_id 32 r) by (done || lia). by split_and!.
  - pose proof (SetVReg_spec new_frame dest w Hn) as H.
    destruct (SetVReg _ _ _) as [f'|]; [|lia].
    destruct H as (_ & H1 & H2 & H3 & H4). exists f'. destruct Hrw as [->| ->]; [|done].
    by rewrite H2, H3.
Qed.

Lemma assign_register_copies_witness :
  exists f', AssignRegister (CreateShadowFrame 2 0) (CreateShadowFrame 3 0) 1 2 = Some f' /\
    GetVReg f' 1 = GetVReg (CreateShadowFrame 3 0) 2.
Proof.
  destruct (assign_register_copies (CreateShadowFrame 2 0) (CreateShadowFrame 3 0) 1 2
    (CreateShadowFrame_ok _ _) (CreateShadowFrame_ok _ _) ltac:(simpl; lia) ltac:(simpl; lia))
    as (f' & H & _ & H' & _).
  by exists f'.
Defined.
