(* ===== verification/ExceptionTable.v ===== *)
(** * Exception tables of dex code ([runtime/dex_file.h], [runtime/dex_file.cc],
      [runtime/art_method.cc])

    The code item of a method in memory, the binary search for the try range of
    a dex pc, the iterator over the LEB128 encoded catch handlers and the search
    for the catch block of an exception.  Class resolution is a parameter of the
    search. *)
From S2P Require Import Prelude BitUtils Leb128 DexInstructionList DexInstruction.

(** ** Little-endian reads *)

Definition read_u16 (m : mem) (a : Z) : Z := m a ||| (m (a + 1) << 8).
Definition read_u32 (m : mem) (a : Z) : Z := read_u16 m a ||| (read_u16 m (a + 2) << 16).

(** ** [DexFile::CodeItem] and [DexFile::TryItem] *)

(** [insns_] is the address of the first code unit. *)
Record CodeItem := {
  registers_size_ : Z;
  ins_size_ : Z;
  outs_size_ : Z;
  tries_size_ : Z;
  debug_info_off_ : Z;
  insns_size_in_code_units_ : Z;
  insns_ : Z
}.

Record TryItem := { start_addr_ : Z; insn_count_ : Z; handler_off_ : Z }.

Definition kDexNoIndex : Z := 0xFFFFFFFF.
Definition kDexNoIndex16 : Z := 0xFFFF.

(** [sizeof(TryItem)] is 8; [GetTryItems] returns an address. *)
Definition GetTryItems (code_item : CodeItem) (offset : Z) : Z :=
  let insns_end_ := insns_ code_item + 2 * insns_size_in_code_units_ code_item in
  RoundUp 64 insns_end_ 4 + 8 * offset.

Definition read_TryItem (m : mem) (a : Z) : TryItem :=
  {| start_addr_ := read_u32 m a; insn_count_ := read_u16 m (a + 4);
     handler_off_ := read_u16 m (a + 6) |}.

Definition GetCatchHandlerData (code_item : CodeItem) (offset : Z) : Z :=
  GetTryItems code_item (tries_size_ code_item) + offset.

Section Tables.
Context (m : mem) (code_item : CodeItem).

(** ** Searching the try ranges *)

Fixpoint FindTryItem_loop (fuel : nat) (address min max : Z) : option Z :=
  match fuel with
  | O => None
  | S fuel =>
      if min <=? max then
        let mid := min + Z.quot (max - min) 2 in
        let ti := read_TryItem m (GetTryItems code_item mid) in
        let start := start_addr_ ti in
        let end_ := u32 (start + insn_count_ ti) in
        if address <? start then FindTryItem_loop fuel address min (mid - 1)
        else if end_ <=? address then FindTryItem_loop fuel address (mid + 1) max
        else Some mid
      else Some (-1)
  end.

(** Each turn removes a try item from the range. *)
Definition FindTryItem (address : Z) : option Z :=
  FindTryItem_loop (S (Z.to_nat (tries_size_ code_item))) address 0 (tries_size_ code_item - 1).

Definition FindCatchHandlerOffset (address : Z) : option Z :=
  try_item ← FindTryItem address;
  if try_item =? -1 then Some (-1)
  else Some (handler_off_ (read_TryItem m (GetTryItems code_item try_item))).

(** ** [CatchHandlerIterator] *)

Record CatchHandlerIterator := {
  type_idx_ : Z;
  address_ : Z;
  current_data_ : Z;
  remaining_count_ : Z;
  catch_all_ : bool
}.

Definition GetHandlerTypeIndex (it : CatchHandlerIterator) : Z := type_idx_ it.
Definition GetHandlerAddress (it : CatchHandlerIterator) : Z := address_ it.
Definition HasNext (it : CatchHandlerIterator) : bool :=
  negb (remaining_count_ it =? -1) || catch_all_ it.

(** [dex::TypeIndex] holds 16 bits. *)
Definition TypeIndex (idx : Z) : Z := u16 idx.
Definition TypeIndex_IsValid (idx : Z) : bool := negb (idx =? 0xFFFF).

Definition Next (it : CatchHandlerIterator) : CatchHandlerIterator :=
  if 0 <? remaining_count_ it then
    let '(ty, p) := DecodeUnsignedLeb128 m (current_data_ it) in
    let '(addr, p) := DecodeUnsignedLeb128 m p in
    {| type_idx_ := TypeIndex ty; address_ := addr; current_data_ := p;
       remaining_count_ := remaining_count_ it - 1; catch_all_ := catch_all_ it |}
  else if catch_all_ it then
    let '(addr, p) := DecodeUnsignedLeb128 m (current_data_ it) in
    {| type_idx_ := TypeIndex kDexNoIndex16; address_ := addr; current_data_ := p;
       remaining_count_ := remaining_count_ it; catch_all_ := false |}
  else
    {| type_idx_ := type_idx_ it; address_ := address_ it; current_data_ := current_data_ it;
       remaining_count_ := -1; catch_all_ := catch_all_ it |}.

Definition Init_data (handler_data : Z) : CatchHandlerIterator :=
  let '(count, p) := DecodeSignedLeb128 m handler_data in
  Next {| type_idx_ := 0xFFFF; address_ := u32 (-1); current_data_ := p;
          remaining_count_ := if count <=? 0 then s32 (- count) else count;
          catch_all_ := count <=? 0 |}.

Definition Init (offset : Z) : CatchHandlerIterator :=
  if 0 <=? offset then Init_data (GetCatchHandlerData code_item offset)
  else
    {| type_idx_ := 0xFFFF; address_ := u32 (-1); current_data_ := 0;
       remaining_count_ := -1; catch_all_ := false |}.

(** The constructor from a dex pc: the cases of no and of one try item are
    written out. *)
Definition CatchHandlerIterator_at (address : Z) : option CatchHandlerIterator :=
  if tries_size_ code_item =? 0 then Some (Init (-1))
  else if tries_size_ code_item =? 1 then
    let tries := read_TryItem m (GetTryItems code_item 0) in
    let start := start_addr_ tries in
    if start <=? address then
      let end_ := u32 (start + insn_count_ tries) in
      if address <? end_ then Some (Init (handler_off_ tries)) else Some (Init (-1))
    else Some (Init (-1))
  else
    offset ← FindCatchHandlerOffset address; Some (Init offset).

(** The constructor from a try item, which the verifier uses. *)
Definition CatchHandlerIterator_of (try_item : TryItem) : CatchHandlerIterator :=
  Init (handler_off_ try_item).

(** A [for (...; it.HasNext(); it.Next())] loop needs as many turns as there are
    handlers left. *)
Definition handlers_fuel (it : CatchHandlerIterator) : nat :=
  Z.to_nat (remaining_count_ it) + 3.

(** ** [ArtMethod::FindCatchBlock] *)

(** What resolving the class of a handler and testing it against the class of
    the exception gives: [None] when it does not resolve (the error is dropped). *)
Context (catches : Z -> option bool).

Fixpoint FindCatchBlock_loop (fuel : nat) (it : CatchHandlerIterator) : option Z :=
  match fuel with
  | O => None
  | S fuel =>
      if HasNext it then
        let iter_type_idx := GetHandlerTypeIndex it in
        if negb (TypeIndex_IsValid iter_type_idx) then Some (GetHandlerAddress it)
        else
          match catches iter_type_idx with
          | None => FindCatchBlock_loop fuel (Next it)
          | Some true => Some (GetHandlerAddress it)
          | Some false => FindCatchBlock_loop fuel (Next it)
          end
      else Some kDexNoIndex
  end.

(** The instruction at a dex pc of the code item. *)
Definition instruction_at (pc : Z) : Instruction :=
  fun i => read_u16 m (insns_ code_item + 2 * (pc + i)).

(** The found dex pc and [has_no_move_exception] (its value is left alone when
    no handler is found). *)
Definition FindCatchBlock (dex_pc : Z) (has_no_move_exception : bool) : option (Z * bool) :=
  it ← CatchHandlerIterator_at dex_pc;
  found_dex_pc ← FindCatchBlock_loop (handlers_fuel it) it;
  Some (found_dex_pc,
        if found_dex_pc =? kDexNoIndex then has_no_move_exception
        else negb (Opcode (instruction_at found_dex_pc) =? MOVE_EXCEPTION)).
End Tables.

(** ** The try ranges of a well-formed code item *)

Section Lookup.
Context (m : mem) (code_item : CodeItem).

Definition try_at (i : Z) : TryItem := read_TryItem m (GetTryItems code_item i).
Definition covers (i address : Z) : Prop :=
  start_addr_ (try_at i) <= address < start_addr_ (try_at i) + insn_count_ (try_at i).

(** What the dex file verifier establishes: the ranges are sorted and do not
    overlap, and none of them wraps around. *)
Definition tries_sorted : Prop :=
  0 <= tries_size_ code_item /\
  (forall i, 0 <= i < tries_size_ code_item ->
     0 <= start_addr_ (try_at i) /\ 0 <= insn_count_ (try_at i) /\
     start_addr_ (try_at i) + insn_count_ (try_at i) < 2 ^ 32) /\
  (forall i j, 0 <= i < j -> j < tries_size_ code_item ->
     start_addr_ (try_at i) + insn_count_ (try_at i) <= start_addr_ (try_at j)).

Lemma FindTryItem_loop_spec fuel address lo hi :
  tries_sorted -> 0 <= lo -> hi < tries_size_ code_item -> hi - lo + 1 < Z.of_nat fuel ->
  lo <= hi + 1 ->
  (forall i, 0 <= i < lo -> ~ covers i address) ->
  (forall i, hi < i < tries_size_ code_item -> ~ covers i address) ->
  exists r, FindTryItem_loop m code_item fuel address lo hi = Some r /\
    ((r = -1 /\ forall i, 0 <= i < tries_size_ code_item -> ~ covers i address) \/
     (0 <= r < tries_size_ code_item /\ covers r address)).
Proof.
  intros (Hn & Hr & Hs). revert lo hi.
  induction fuel as [|fuel IH]; intros lo hi Hlo Hhi Hf Hord Hl Hh; [lia|].
  cbn [FindTryItem_loop]. cbv zeta.
  destruct (Z.leb_spec lo hi) as [Hle|Hgt].
  2:{ exists (-1). split; [done|]. left. split; [done|]. intros i Hi.
      destruct (Z.lt_ge_cases i lo); [apply Hl; lia|apply Hh; lia]. }
  rewrite Z.quot_div_nonneg by lia. set (mid := lo + (hi - lo) / 2).
  assert (lo <= mid <= hi) as Hmid by (unfold mid; zdiv).
  fold (try_at mid). destruct (Hr mid ltac:(lia)) as (H1 & H2 & H3).
  rewrite (wrap_u_id 32 (_ + _)) by (unfold in_u; pows; lia).
  destruct (Z.ltb_spec address (start_addr_ (try_at mid))).
  - apply IH; try lia; [done|]. intros i Hi [Hc1 Hc2].
    destruct (Z.eq_dec i mid) as [->|]; [lia|].
    destruct (Z.lt_ge_cases hi i); [by apply (Hh i); [lia|]|].
    specialize (Hs mid i ltac:(lia) ltac:(lia)). lia.
  - destruct (Z.leb_spec (start_addr_ (try_at mid) + insn_count_ (try_at mid)) address).
    + apply IH; try lia; [|done]. intros i Hi [Hc1 Hc2].
      destruct (Z.eq_dec i mid) as [->|]; [lia|].
      destruct (Z.lt_ge_cases i lo); [by apply (Hl i); [lia|]|].
      specialize (Hs i mid ltac:(lia) ltac:(lia)). lia.
    + exists mid. split; [done|]. right. split; [lia|]. unfold covers. lia.
Qed.

Lemma FindTryItem_spec address :
  tries_sorted ->
  exists r, FindTryItem m code_item address = Some r /\
    ((r = -1 /\ forall i, 0 <= i < tries_size_ code_item -> ~ covers i address) \/
     (0 <= r < tries_size_ code_item /\ covers r address)).
Proof.
  intros Hs. pose proof Hs as (Hn & _). apply FindTryItem_loop_spec; try done; lia.
Qed.

Lemma covers_unique i j address :
  tries_sorted -> 0 <= i < tries_size_ code_item -> 0 <= j < tries_size_ code_item ->
  covers i address -> covers j address -> i = j.
Proof.
  unfold covers. intros (_ & _ & Hs) Hi Hj [? ?] [? ?].
  destruct (Z.lt_trichotomy i j) as [H'|[H'|H']]; [|done|].
  - specialize (Hs i j). lia.
  - specialize (Hs j i). lia.
Qed.

(** The cases of the constructor that avoid the search agree with it. *)
Lemma CatchHandlerIterator_at_search address :
  0 <= tries_size_ code_item ->
  CatchHandlerIterator_at m code_item address =
  Init m code_item <$> FindCatchHandlerOffset m code_item address.
Proof.
  intros Hn. unfold CatchHandlerIterator_at.
  destruct (Z.eqb_spec (tries_size_ code_item) 0) as [E|_].
  { unfold FindCatchHandlerOffset, FindTryItem. by rewrite E. }
  destruct (Z.eqb_spec (tries_size_ code_item) 1) as [E|_].
  { unfold FindCatchHandlerOffset, FindTryItem. rewrite E.
    change (S (Z.to_nat 1)) with 2%nat. cbn [FindTryItem_loop].
    change (0 <=? 1 - 1) with true. change (0 + Z.quot (1 - 1 - 0) 2) with 0.
    change (0 <=? 0 - 1) with false. change (0 + 1 <=? 1 - 1) with false. cbv iota zeta.
    rewrite Z.leb_antisym. destruct (address <? _) eqn:E1; simpl; [done|].
    rewrite Z.ltb_antisym. by destruct (_ <=? address). }
  by destruct (FindCatchHandlerOffset m code_item address).
Qed.
End Lookup.

(** Looking up the handlers of a dex pc terminates and finds the try range
    that covers it: with sorted, disjoint ranges the binary search (and the
    cases that avoid it) starts the iterator at the handler list of the only
    range that covers the address, and starts an empty iterator exactly when no
    range does. *)
Theorem catch_handler_lookup m code_item address :
  tries_sorted m code_item ->
  (exists i, 0 <= i < tries_size_ code_item /\ covers m code_item i address /\
     (forall j, 0 <= j < tries_size_ code_item -> covers m code_item j address -> j = i) /\
     FindTryItem m code_item address = Some i /\
     CatchHandlerIterator_at m code_item address =
       Some (Init m code_item (handler_off_ (try_at m code_item i)))) \/
  ((forall i, 0 <= i < tries_size_ code_item -> ~ covers m code_item i address) /\
   FindTryItem m code_item address = Some (-1) /\
   exists it, CatchHandlerIterator_at m code_item address = Some it /\ HasNext it = false).
Proof.
  intros Hs. pose proof Hs as (Hn & _).
  destruct (FindTryItem_spec m code_item address Hs) as (r & Hr & [[-> Hno]|[Hb Hc]]);
    [right|left]; rewrite CatchHandlerIterator_at_search by done;
    unfold FindCatchHandlerOffset; rewrite Hr; simpl.
  - split; [done|]. split; [done|]. eexists. by split.
  - exists r. rewrite (proj2 (Z.eqb_neq r (-1))) by lia. split_and!; try done; try lia.
    intros j Hj Hcj. by apply (covers_unique m code_item j r address).
Qed.

(** Two ranges, [2..5) and [5..9), at addresses 0 and 8. *)
Definition two_tries : mem :=
  store_list (fun _ => 0) 0 [2; 0; 0; 0; 3; 0; 1; 0;  5; 0; 0; 0; 4; 0; 7; 0].
Definition two_tries_item : CodeItem :=
  {| registers_size_ := 0; ins_size_ := 0; outs_size_ := 0; tries_size_ := 2;
     debug_info_off_ := 0; insns_size_in_code_units_ := 0; insns_ := 0 |}.

Lemma two_tries_sorted : tries_sorted two_tries two_tries_item.
Proof.
  unfold tries_sorted. change (tries_size_ two_tries_item) with 2. split; [lia|]. split.
  - intros i Hi. assert (i = 0 \/ i = 1) as [-> | ->] by lia; vm_compute; done.
  - intros i j Hi Hj. assert (i = 0 /\ j = 1) as [-> ->] by lia. vm_compute. done.
Qed.

Lemma catch_handler_lookup_witness :
  CatchHandlerIterator_at two_tries two_tries_item 6 = Some (Init two_tries two_tries_item 7).
Proof.
  destruct (catch_handler_lookup two_tries two_tries_item 6 two_tries_sorted)
    as [(i & _ & _ & _ & Hi & E)|(_ & E & _)].
  - vm_compute in Hi. injection Hi as <-. exact E.
  - vm_compute in E. discriminate.
Defined.

(** ** Encoded handler lists *)

(** A handler list as the dex format has it: typed handlers, then perhaps a
    catch-all handler.  The count is negated when there is one. *)
Record handler_list := { typed : list (Z * Z); catch_all : option Z }.

Definition handler_count (h : handler_list) : Z :=
  match catch_all h with
  | None => Z.of_nat (length (typed h))
  | Some _ => - Z.of_nat (length (typed h))
  end.
Definition handler_values (h : handler_list) : list Z :=
  flat_map (fun '(ty, addr) => [ty; addr]) (typed h) ++ option_list (catch_all h).
Definition encode_handlers (h : handler_list) : option (list Z) :=
  data ← PushBackSigned [] (handler_count h); InsertBackUnsigned data (handler_values h).

(** Type indices are 16-bit and not the reserved one, addresses 32-bit; a list
    without catch-all has a handler. *)
Definition handlers_ok (h : handler_list) : Prop :=
  Forall (fun '(ty, addr) => 0 <= ty < 0xFFFF /\ in_u 32 addr) (typed h) /\
  (forall addr, catch_all h = Some addr -> in_u 32 addr) /\
  (catch_all h = None -> typed h <> []) /\
  Z.of_nat (length (typed h)) < 2 ^ 31.

(** The handler an exception goes to: the first typed one that catches it, else
    the catch-all one. *)
Fixpoint first_handler (catches : Z -> option bool) (hs : list (Z * Z)) (ca : option Z) : Z :=
  match hs with
  | [] => default kDexNoIndex ca
  | (ty, addr) :: hs =>
      if bool_decide (catches ty = Some true) then addr else first_handler catches hs ca
  end.

Section Handlers.
Context (m : mem) (catches : Z -> option bool).

(** An iterator about to read the handlers [hs] and [ca]. *)
Definition reads (it : CatchHandlerIterator) (hs : list (Z * Z)) (ca : option Z) : Prop :=
  remaining_count_ it = Z.of_nat (length hs) /\
  catch_all_ it = bool_decide (is_Some ca) /\
  exists e, decode_many DecodeUnsignedLeb128
              (length (handler_values {| typed := hs; catch_all := ca |})) m (current_data_ it) =
            (handler_values {| typed := hs; catch_all := ca |}, e).

Lemma decode_many_cons n a v vs e :
  decode_many DecodeUnsignedLeb128 (S n) m a = (v :: vs, e) ->
  exists q, DecodeUnsignedLeb128 m a = (v, q) /\
    decode_many DecodeUnsignedLeb128 n m q = (vs, e).
Proof.
  simpl. destruct (DecodeUnsignedLeb128 m a) as [v' q].
  destruct (decode_many _ n m q) as [vs' e'] eqn:E. intros [= <- <- <-]. eauto.
Qed.

Lemma Next_typed it ty addr hs ca :
  reads it ((ty, addr) :: hs) ca -> 0 <= ty < 0xFFFF ->
  GetHandlerTypeIndex (Next m it) = ty /\ GetHandlerAddress (Next m it) = addr /\
  HasNext (Next m it) = true /\ reads (Next m it) hs ca.
Proof.
  intros (Hc & Ha & e & Hd) Hty.
  change (handler_values {| typed := (ty, addr) :: hs; catch_all := ca |})
    with (ty :: addr :: handler_values {| typed := hs; catch_all := ca |}) in Hd.
  cbn [length] in Hd.
  apply decode_many_cons in Hd as (q & Hq & Hd). apply decode_many_cons in Hd as (q' & Hq' & Hd).
  unfold Next. rewrite Hc. simpl length. rewrite (proj2 (Z.ltb_lt 0 _)) by lia.
  rewrite Hq, Hq'. unfold HasNext, GetHandlerTypeIndex, GetHandlerAddress, reads, TypeIndex. simpl.
  rewrite (proj2 (Z.eqb_neq _ (-1))) by lia. split_and!; try done.
  - apply wrap_u_id; unfold in_u; pows; lia.
  - lia.
  - by exists e.
Qed.

Lemma FindCatchBlock_loop_reads hs ca it fuel :
  reads it hs ca -> Forall (fun '(ty, addr) => 0 <= ty < 0xFFFF /\ in_u 32 addr) hs ->
  (length hs + 1 < fuel)%nat ->
  FindCatchBlock_loop m catches fuel (Next m it) = Some (first_handler catches hs ca).
Proof.
  intros Hr Hok. revert it fuel Hr. induction Hok as [|[ty addr] hs [Hty Haddr] Hok IH];
    intros it fuel Hr Hf; (destruct fuel as [|fuel]; [simpl in Hf; lia|]).
  - destruct Hr as (Hc & Ha & e & Hd). unfold Next. rewrite Hc, Ha. simpl.
    destruct ca as [addr|]; [|done].
    change (handler_values {| typed := []; catch_all := Some addr |}) with [addr] in Hd.
    apply decode_many_cons in Hd as (q & Hq & _). by rewrite Hq.
  - destruct (Next_typed it ty addr hs ca Hr Hty) as (H1 & H2 & H3 & H4).
    simpl FindCatchBlock_loop. rewrite H3, H1, H2.
    unfold TypeIndex_IsValid. rewrite (proj2 (Z.eqb_neq ty _)) by lia. simpl.
    destruct (catches ty) as [[]|] eqn:Ec.
    + by rewrite bool_decide_true.
    + rewrite bool_decide_false by congruence. apply IH; [done|simpl in Hf; lia].
    + rewrite bool_decide_false by congruence. apply IH; [done|simpl in Hf; lia].
Qed.

Lemma handler_values_ok h : handlers_ok h -> Forall (in_u 32) (handler_values h).
Proof.
  intros (H1 & H2 & _). unfold handler_values. apply Forall_app. split.
  - induction H1 as [|[ty addr] hs [Ht Ha] _ IH]; simpl; [constructor|].
    constructor; [unfold in_u; pows; lia|]. by constructor.
  - destruct (catch_all h) as [a|]; simpl; [|constructor]. constructor; [eauto|constructor].
Qed.

(** An encoded list in memory starts an iterator that reads it. *)
Lemma Init_data_reads h a bs :
  handlers_ok h -> bytes_ok m -> encode_handlers h = Some bs -> bytes_at m a bs ->
  exists it, Init_data m a = Next m it /\ reads it (typed h) (catch_all h) /\
    remaining_count_ it = Z.of_nat (length (typed h)).
Proof.
  intros Hh Hm He Hb. pose proof Hh as (_ & _ & Hne & Hlen).
  assert (in_s 32 (handler_count h)) as Hcount
    by (unfold handler_count, in_s; pows; destruct (catch_all h); lia).
  destruct (codec_law (LebCodec := signed_codec) _ Hcount) as (b1 & Hp1 & Hd1).
  destruct (push_all_stream (decode := DecodeUnsignedLeb128) _ (handler_values_ok h Hh))
    as (b2 & Hp2 & Hd2).
  unfold encode_handlers in He. rewrite Hp1 in He. simpl in He.
  rewrite InsertBackUnsigned_push_all, Hp2 in He. injection He as <-.
  apply bytes_at_app in Hb as [Hb1 Hb2].
  unfold Init_data. rewrite (Hd1 m a) by done. eexists. split; [done|].
  assert ((if handler_count h <=? 0 then s32 (- handler_count h) else handler_count h) =
          Z.of_nat (length (typed h))) as Hrem.
  { unfold handler_count. destruct (catch_all h) as [c|] eqn:Ec.
    - rewrite (proj2 (Z.leb_le _ 0)) by lia.
      rewrite wrap_s_id; [lia|lia|unfold in_s; pows; lia].
    - specialize (Hne eq_refl). destruct (typed h) as [|x l]; [done|].
      by rewrite (proj2 (Z.leb_gt _ 0)) by (simpl length; lia). }
  split; [split; [|split; [|exists (a + Z.of_nat (length b1) + Z.of_nat (length b2))]]|];
    simpl; try exact Hrem.
  - unfold handler_count. destruct (catch_all h) as [c|] eqn:Ec; simpl.
    + apply Z.leb_le. lia.
    + specialize (Hne eq_refl). destruct (typed h) as [|x l]; [done|]. apply Z.leb_gt.
      simpl length. lia.
  - destruct h. by apply Hd2.
Qed.
End Handlers.

Lemma read_u16_nonneg m a : bytes_ok m -> 0 <= read_u16 m a.
Proof.
  intros Hm. pose proof (Hm a) as [? _]. pose proof (Hm (a + 1)) as [? _].
  unfold read_u16. apply Z.lor_nonneg. rewrite Z.shiftl_nonneg. done.
Qed.

(** C24. [FindCatchBlock] finds the right handler: in a code item whose sorted
    try ranges carry LEB128 encoded handler lists, the search for a dex pc ends
    with the address of the first typed handler of the covering range whose
    class resolves and catches the exception, else with its catch-all handler,
    else (or when no range covers the pc) with [kDexNoIndex]; the flag tells
    whether the found block starts without a move-exception and is left alone
    when none is found. *)
Theorem find_catch_block_correct m code_item catches (hs : Z -> handler_list) dex_pc flag :
  bytes_ok m -> tries_sorted m code_item ->
  (forall i, 0 <= i < tries_size_ code_item ->
     handlers_ok (hs i) /\
     exists bs, encode_handlers (hs i) = Some bs /\
       bytes_at m (GetCatchHandlerData code_item (handler_off_ (try_at m code_item i))) bs) ->
  exists found no_move, FindCatchBlock m code_item catches dex_pc flag = Some (found, no_move) /\
    (forall i, 0 <= i < tries_size_ code_item -> covers m code_item i dex_pc ->
       found = first_handler catches (typed (hs i)) (catch_all (hs i))) /\
    ((forall i, 0 <= i < tries_size_ code_item -> ~ covers m code_item i dex_pc) ->
       found = kDexNoIndex) /\
    no_move = (if found =? kDexNoIndex then flag
               else negb (Opcode (instruction_at m code_item found) =? MOVE_EXCEPTION)).
Proof.
  intros Hm Hs Hh. pose proof Hs as (Hn & _). unfold FindCatchBlock.
  rewrite CatchHandlerIterator_at_search by done. unfold FindCatchHandlerOffset.
  destruct (FindTryItem_spec m code_item dex_pc Hs) as (r & -> & [[-> Hno]|[Hb Hc]]);
    cbn [fmap option_fmap option_map mbind option_bind].
  - do 2 eexists. split; [done|]. split_and!; try done.
    intros i Hi Hci. by destruct (Hno i Hi).
  - rewrite (proj2 (Z.eqb_neq r (-1))) by lia.
    cbn [fmap option_fmap option_map mbind option_bind].
    destruct (Hh r Hb) as (Hok & bs & He & Hbs). fold (try_at m code_item r).
    unfold Init. rewrite (proj2 (Z.leb_le 0 _)) by (apply read_u16_nonneg, Hm).
    destruct (Init_data_reads m (hs r) _ bs Hok Hm He Hbs) as (it & -> & Hr & Hrem).
    rewrite (FindCatchBlock_loop_reads m catches (typed (hs r)) (catch_all (hs r)) it);
      [|done|apply Hok|].
    + do 2 eexists. split; [done|]. split_and!; try done.
      * intros i Hi Hci. by rewrite (covers_unique m code_item i r dex_pc).
      * intros Hno. by destruct (Hno r Hb).
    + unfold handlers_fuel, Next. rewrite Hrem.
      destruct (Z.ltb_spec 0 (Z.of_nat (length (typed (hs r))))).
      * do 2 destruct (DecodeUnsignedLeb128 _ _). simpl. lia.
      * lia.
Qed.

(** A method of one unit covered by a range whose list is a handler of type 7 at
    pc 3 and a catch-all at pc 5. *)
Definition one_try : mem :=
  store_list (fun _ => 0) 0 [0x0d; 0; 0; 0;  0; 0; 0; 0; 1; 0; 0; 0;  0x7f; 7; 3; 5].
Definition one_try_item : CodeItem :=
  {| registers_size_ := 0; ins_size_ := 0; outs_size_ := 0; tries_size_ := 1;
     debug_info_off_ := 0; insns_size_in_code_units_ := 1; insns_ := 0 |}.

Lemma find_catch_block_correct_witness :
  FindCatchBlock one_try one_try_item (fun ty => Some (ty =? 7)) 0 false = Some (3, true) /\
  exists found no_move,
    FindCatchBlock one_try one_try_item (fun ty => None) 0 false = Some (found, no_move) /\
    found = 5.
Proof.
  split; [reflexivity|].
  destruct (find_catch_block_correct one_try one_try_item (fun _ => None)
    (fun _ => {| typed := [(7, 3)]; catch_all := Some 5 |}) 0 false)
    as (found & no_move & E & H1 & _).
  - apply bytes_ok_store_list; [intros a|repeat constructor]; unfold in_u; pows; lia.
  - unfold tries_sorted. change (tries_size_ one_try_item) with 1. split; [lia|]. split.
    + intros i Hi. assert (i = 0) as -> by lia. vm_compute. done.
    + intros i j Hi Hj. lia.
  - intros i Hi. change (tries_size_ one_try_item) with 1 in Hi. assert (i = 0) as -> by lia. split.
    + split_and!; simpl; [|intros a [= <-]; unfold in_u; pows; lia|done|pows; lia].
      repeat constructor; pows; lia.
    + exists [0x7f; 7; 3; 5]. split; [reflexivity|]. vm_compute. done.
  - exists found, no_move. split; [exact E|].
    clear E. assert (covers one_try one_try_item 0 0) as Hc by (vm_compute; done).
    rewrite (H1 0 ltac:(vm_compute; done) Hc). reflexivity.
Defined.

(** ** Arbitrary bytes *)

Section Total.
Context (m : mem).

Lemma FindTryItem_loop_total code_item fuel address lo hi :
  lo <= hi + 1 -> hi - lo + 1 < Z.of_nat fuel -> is_Some (FindTryItem_loop m code_item fuel address lo hi).
Proof.
  revert lo hi. induction fuel as [|fuel IH]; intros lo hi Hle Hf.
  - lia.
  - cbn [FindTryItem_loop]. destruct (Z.leb_spec lo hi); [|eauto].
    rewrite Z.quot_div_nonneg by lia. cbv zeta. repeat case_if; [apply IH; zdiv|apply IH; zdiv|eauto].
Qed.

Lemma FindCatchBlock_loop_total (catches : Z -> option bool) fuel it :
  (HasNext it = true -> Z.to_nat (remaining_count_ it) + (if catch_all_ it then 1 else 0) + 1 < fuel)%nat ->
  (0 < fuel)%nat ->
  is_Some (FindCatchBlock_loop m catches fuel it).
Proof.
  revert it. induction fuel as [|fuel IH]; intros it Hf H0; [lia|]. simpl.
  destruct (HasNext it) eqn:Eh; [|eauto]. specialize (Hf eq_refl).
  assert (is_Some (FindCatchBlock_loop m catches fuel (Next m it))) as Hnext.
  { apply IH; [|lia]. unfold Next. destruct (Z.ltb_spec 0 (remaining_count_ it)).
    - do 2 destruct (DecodeUnsignedLeb128 _ _). simpl. intros _. lia.
    - destruct (catch_all_ it) eqn:Ec.
      + destruct (DecodeUnsignedLeb128 _ _). simpl. lia.
      + unfold HasNext. simpl. done. }
  destruct (TypeIndex_IsValid _); simpl; [|eauto].
  by destruct (catches _) as [[]|]; eauto.
Qed.
End Total.

Lemma FindCatchBlock_some m code_item catches dex_pc flag :
  0 <= tries_size_ code_item ->
  exists found no_move, FindCatchBlock m code_item catches dex_pc flag = Some (found, no_move).
Proof.
  intros Hn. unfold FindCatchBlock. rewrite CatchHandlerIterator_at_search by done.
  unfold FindCatchHandlerOffset, FindTryItem.
  destruct (FindTryItem_loop_total m code_item (S (Z.to_nat (tries_size_ code_item))) dex_pc 0
    (tries_size_ code_item - 1)) as [r ->]; [lia|lia|]. cbn [mbind option_bind].
  match goal with |- context [Init _ _ <$> ?o] => assert (is_Some o) as [off ->] end.
  { by destruct (r =? -1). }
  cbn [fmap option_fmap option_map mbind option_bind].
  set (i := Init m code_item off).
  destruct (FindCatchBlock_loop_total m catches (handlers_fuel i) i) as [found ->].
  - intros _. unfold handlers_fuel. destruct (catch_all_ i); lia.
  - unfold handlers_fuel. lia.
  - simpl. eauto.
Qed.

(** ** The handlers that cover an address *)

Section Handlers.
Context (m : mem) (code_item : CodeItem).

(** The addresses an iterator goes through. *)
Inductive handler_to : CatchHandlerIterator -> Z -> Prop :=
| handler_here it : HasNext it = true -> handler_to it (GetHandlerAddress it)
| handler_next it x : HasNext it = true -> handler_to (Next m it) x -> handler_to it x.

Lemma FindCatchBlock_loop_handler catches fuel it r :
  FindCatchBlock_loop m catches fuel it = Some r -> r = kDexNoIndex \/ handler_to it r.
Proof.
  revert it. induction fuel as [|fuel IH]; intros it; [done|]. cbn [FindCatchBlock_loop].
  destruct (HasNext it) eqn:Eh; [|intros [= <-]; by left].
  assert (FindCatchBlock_loop m catches fuel (Next m it) = Some r -> r = kDexNoIndex \/ handler_to it r) as Hn.
  { intros [?|?]%IH; [by left|right; by apply handler_next]. }
  case_if; [intros [= <-]; right; by constructor|].
  destruct (catches _) as [[]|]; [intros [= <-]; right; by constructor|done|done].
Qed.

(** The address is in the range of a try item. *)
Definition in_try (i pc : Z) : Prop :=
  let t := read_TryItem m (GetTryItems code_item i) in
  start_addr_ t <= pc < u32 (start_addr_ t + insn_count_ t).

Lemma FindTryItem_loop_range fuel address lo hi r :
  0 <= lo -> FindTryItem_loop m code_item fuel address lo hi = Some r ->
  r = -1 \/ 0 <= r <= hi /\ in_try r address.
Proof.
  revert lo hi. induction fuel as [|fuel IH]; intros lo hi Hlo; [done|].
  cbn [FindTryItem_loop]. destruct (Z.leb_spec lo hi); [|intros [= <-]; by left].
  rewrite Z.quot_div_nonneg by lia. cbv zeta.
  repeat case_if; intros H'.
  - apply IH in H' as [?|[? ?]]; [by left|right; split; [zdiv|done]|done].
  - apply IH in H' as [?|[? ?]]; [by left|right; split; [lia|done]|zdiv].
  - injection H' as <-. right. bools. split; [zdiv|]. by unfold in_try.
Qed.

(** The iterator of an address is empty or that of a try item it is in. *)
Lemma CatchHandlerIterator_at_cases address it :
  0 <= tries_size_ code_item -> CatchHandlerIterator_at m code_item address = Some it ->
  HasNext it = false \/
  exists t, 0 <= t < tries_size_ code_item /\ in_try t address /\
    it = Init m code_item (handler_off_ (read_TryItem m (GetTryItems code_item t))).
Proof.
  intros Hn H. rewrite CatchHandlerIterator_at_search in H by done. unfold FindCatchHandlerOffset in H.
  destruct (FindTryItem m code_item address) as [t|] eqn:Et; [|done]. cbn [mbind option_bind] in H.
  apply FindTryItem_loop_range in Et as [->|[Ht Hin]]; [|right|lia].
  - change (-1 =? -1) with true in H. injection H as <-. by left.
  - rewrite (proj2 (Z.eqb_neq t (-1))) in H by lia. injection H as <-. exists t. split_and!; [lia..|done|done].
Qed.

(** The handlers an exception thrown at [pc] may end in. *)
Definition throw_to (pc x : Z) : Prop :=
  exists it, CatchHandlerIterator_at m code_item pc = Some it /\ handler_to it x.

Lemma FindCatchBlock_throw_to catches pc flag r b :
  FindCatchBlock m code_item catches pc flag = Some (r, b) -> r = kDexNoIndex \/ throw_to pc r.
Proof.
  unfold FindCatchBlock. destruct (CatchHandlerIterator_at m code_item pc) as [it|] eqn:Ei; [|done].
  cbn [mbind option_bind]. destruct (FindCatchBlock_loop _ _ _ _) as [r'|] eqn:Er; [|done].
  intros [= -> _]. apply FindCatchBlock_loop_handler in Er as [?|?]; [by left|right; by exists it].
Qed.

Lemma throw_to_try pc x :
  0 <= tries_size_ code_item -> throw_to pc x ->
  exists t, 0 <= t < tries_size_ code_item /\ in_try t pc /\
    handler_to (Init m code_item (handler_off_ (read_TryItem m (GetTryItems code_item t)))) x.
Proof.
  intros Hn (it & Hi & Hx). apply CatchHandlerIterator_at_cases in Hi as [Hf|(t & Ht & Hin & ->)]; [|eauto|done].
  by destruct Hx; rewrite Hf in *.
Qed.
End Handlers.

(** The search for a catch block is total: whatever bytes the tables hold
    (unsorted ranges, malformed handler lists), it ends with a result. *)
Theorem find_catch_block_total m code_item catches dex_pc flag :
  0 <= tries_size_ code_item ->
  exists found no_move, FindCatchBlock m code_item catches dex_pc flag = Some (found, no_move).
Proof. apply FindCatchBlock_some. Qed.

(** Two ranges in the wrong order and no handler data. *)
Lemma find_catch_block_total_witness :
  exists found no_move,
    FindCatchBlock (store_list (fun _ => 0) 0 [9; 0; 0; 0; 3; 0; 1; 0;  5; 0; 0; 0; 4; 0; 7; 0])
      two_tries_item (fun _ => None) 6 true = Some (found, no_move).
Proof. apply find_catch_block_total. simpl. lia. Defined.
