(* ===== verification/StaticVerifier.v ===== *)
(** * The static pass of the method verifier ([runtime/verifier/method_verifier.cc],
      [instruction_flags.h])

    The checks [MethodVerifier::Verify] makes before the data flow analysis: the
    linear sweep that finds instruction starts, the try and catch tables, and
    the operands of every instruction.  The verifier's state is threaded through
    a small monad; [None] is an access outside [insn_flags_] or an operand the
    format does not have. *)
From Stdlib Require Import String Ascii.
From S2P Require Import Prelude BitUtils Leb128 DexInstructionList DexInstruction ExceptionTable.

(** ** Instruction flags: one byte per code unit *)

Definition kVisited : Z := 0.
Definition kChanged : Z := 1.
Definition kOpcode : Z := 2.
Definition kInTry : Z := 3.
Definition kBranchTarget : Z := 4.
Definition kCompileTimeInfoPoint : Z := 5.
Definition kReturnFlag : Z := 6.

Definition SetFlag (bit flags : Z) : Z := u8 (flags ||| (1 << bit)).
Definition TestFlag (bit flags : Z) : bool := negb (flags &&& (1 << bit) =? 0).
Definition SetIsOpcode : Z -> Z := SetFlag kOpcode.
Definition IsOpcode : Z -> bool := TestFlag kOpcode.
Definition SetInTry : Z -> Z := SetFlag kInTry.
Definition SetBranchTarget : Z -> Z := SetFlag kBranchTarget.
Definition SetCompileTimeInfoPoint : Z -> Z := SetFlag kCompileTimeInfoPoint.
Definition SetReturn : Z -> Z := SetFlag kReturnFlag.
Definition SetCompileTimeInfoPointAndReturn (flags : Z) : Z :=
  SetReturn (SetCompileTimeInfoPoint flags).

(** ** State *)

Inductive VerifyError :=
| VERIFY_ERROR_BAD_CLASS_HARD
| VERIFY_ERROR_BAD_CLASS_SOFT
| VERIFY_ERROR_NO_CLASS
| VERIFY_ERROR_NO_FIELD
| VERIFY_ERROR_NO_METHOD
| VERIFY_ERROR_ACCESS_CLASS
| VERIFY_ERROR_ACCESS_FIELD
| VERIFY_ERROR_ACCESS_METHOD
| VERIFY_ERROR_CLASS_CHANGE
| VERIFY_ERROR_INSTANTIATION
| VERIFY_ERROR_FORCE_INTERPRETER
| VERIFY_ERROR_LOCKING.

Definition verify_error_bit (e : VerifyError) : Z :=
  match e with
  | VERIFY_ERROR_BAD_CLASS_HARD => 1
  | VERIFY_ERROR_BAD_CLASS_SOFT => 2
  | VERIFY_ERROR_NO_CLASS => 4
  | VERIFY_ERROR_NO_FIELD => 8
  | VERIFY_ERROR_NO_METHOD => 16
  | VERIFY_ERROR_ACCESS_CLASS => 32
  | VERIFY_ERROR_ACCESS_FIELD => 64
  | VERIFY_ERROR_ACCESS_METHOD => 128
  | VERIFY_ERROR_CLASS_CHANGE => 256
  | VERIFY_ERROR_INSTANTIATION => 512
  | VERIFY_ERROR_FORCE_INTERPRETER => 1024
  | VERIFY_ERROR_LOCKING => 2048
  end.

(** The failures met so far, and what the verifier has to do about them. *)
Record Failures := {
  failures_ : list VerifyError;
  encountered_failure_types_ : Z;
  have_pending_hard_failure_ : bool;
  have_pending_runtime_throw_failure_ : bool;
  have_pending_experimental_failure_ : bool
}.

(** [Runtime::Current()->IsAotCompiler()] and the constructor's arguments. *)
Record Settings := {
  IsAotCompiler : bool;
  can_load_classes_ : bool;
  allow_soft_failures_ : bool
}.

Record VState := {
  insn_flags_ : list Z;
  pending : Failures;
  has_check_casts_ : bool;
  has_virtual_or_interface_invokes_ : bool;
  new_instance_count_ : Z;
  monitor_enter_count_ : Z;
  settings : Settings
}.

Definition with_flags (v : VState) (fl : list Z) : VState :=
  {| insn_flags_ := fl; pending := pending v; has_check_casts_ := has_check_casts_ v;
     has_virtual_or_interface_invokes_ := has_virtual_or_interface_invokes_ v;
     new_instance_count_ := new_instance_count_ v;
     monitor_enter_count_ := monitor_enter_count_ v; settings := settings v |}.
Definition with_pending (v : VState) (p : Failures) : VState :=
  {| insn_flags_ := insn_flags_ v; pending := p; has_check_casts_ := has_check_casts_ v;
     has_virtual_or_interface_invokes_ := has_virtual_or_interface_invokes_ v;
     new_instance_count_ := new_instance_count_ v;
     monitor_enter_count_ := monitor_enter_count_ v; settings := settings v |}.

(** The effect of [Fail(error)] while [work_insn_idx_] is still [kDexNoIndex], as
    it is throughout the static pass: no register line is saved. *)
Definition record_failure (s : Settings) (p : Failures) (error : VerifyError) : Failures :=
  let encountered := u32 (encountered_failure_types_ p ||| verify_error_bit error) in
  let push e hard runtime_throw :=
    {| failures_ := failures_ p ++ [e]; encountered_failure_types_ := encountered;
       have_pending_hard_failure_ := hard;
       have_pending_runtime_throw_failure_ := runtime_throw;
       have_pending_experimental_failure_ := have_pending_experimental_failure_ p |} in
  match error with
  | VERIFY_ERROR_BAD_CLASS_SOFT =>
      push error (have_pending_hard_failure_ p || negb (allow_soft_failures_ s))
        (have_pending_runtime_throw_failure_ p)
  | VERIFY_ERROR_BAD_CLASS_HARD => push error true (have_pending_runtime_throw_failure_ p)
  | _ =>
      if IsAotCompiler s || negb (can_load_classes_ s)
      then push VERIFY_ERROR_BAD_CLASS_SOFT (have_pending_hard_failure_ p)
             (have_pending_runtime_throw_failure_ p)
      else push error (have_pending_hard_failure_ p) true
  end.

Definition V (A : Type) : Type := VState -> option (A * VState).
#[export] Instance V_ret : MRet V := fun A a v => Some (a, v).
#[export] Instance V_bind : MBind V := fun A B k c v =>
  match c v with Some (a, v) => k a v | None => None end.

Definition lift {A} (o : option A) : V A := fun v =>
  match o with Some a => Some (a, v) | None => None end.

Definition Fail (error : VerifyError) : V unit := fun v =>
  Some (tt, with_pending v (record_failure (settings v) (pending v) error)).
Definition fail_hard : V bool := Fail VERIFY_ERROR_BAD_CLASS_HARD;; mret false.

(** [if (UNLIKELY(bad)) { Fail(...); return false; } ...] *)
Definition reject_if (bad : bool) (rest : V bool) : V bool :=
  if bad then fail_hard else rest.

(** [result = result && check] *)
Definition and_also (result : bool) (check : V bool) : V bool :=
  if result then check else mret false.

(** [GetInstructionFlags(index)] read and updated in place. *)
Definition get_flags (index : Z) : V Z := fun v =>
  if 0 <=? index then
    match insn_flags_ v !! Z.to_nat index with Some f => Some (f, v) | None => None end
  else None.
Definition update_flags (index : Z) (f : Z -> Z) : V unit := fun v =>
  if (0 <=? index) && (index <? Z.of_nat (length (insn_flags_ v))) then
    Some (tt, with_flags v (alter f (Z.to_nat index) (insn_flags_ v)))
  else None.

(** The sizes in the dex file header and the type descriptors. *)
Record DexHeader := {
  string_ids_size_ : Z;
  type_ids_size_ : Z;
  proto_ids_size_ : Z;
  field_ids_size_ : Z;
  method_ids_size_ : Z;
  StringByTypeIdx : Z -> string
}.

Section Verifier.
Context (m : mem) (code_item : CodeItem) (dex_file : DexHeader).

Definition insns_size : Z := insns_size_in_code_units_ code_item.
Definition registers_size : Z := registers_size_ code_item.
Definition inst_at (pc : Z) : Instruction := instruction_at m code_item pc.

(** ** The linear sweep *)

(** The instructions the sweep counts. *)
Definition count_op (opcode : Z) : V unit := fun v =>
  Some (tt,
    {| insn_flags_ := insn_flags_ v; pending := pending v;
       has_check_casts_ :=
         has_check_casts_ v || (opcode =? APUT_OBJECT) || (opcode =? CHECK_CAST);
       has_virtual_or_interface_invokes_ :=
         has_virtual_or_interface_invokes_ v || (opcode =? INVOKE_VIRTUAL)
         || (opcode =? INVOKE_VIRTUAL_RANGE) || (opcode =? INVOKE_INTERFACE)
         || (opcode =? INVOKE_INTERFACE_RANGE);
       new_instance_count_ := new_instance_count_ v;
       monitor_enter_count_ := monitor_enter_count_ v;
       settings := settings v |}).

Definition set_counts (new_instance_count monitor_enter_count : Z) : V unit := fun v =>
  Some (tt,
    {| insn_flags_ := insn_flags_ v; pending := pending v;
       has_check_casts_ := has_check_casts_ v;
       has_virtual_or_interface_invokes_ := has_virtual_or_interface_invokes_ v;
       new_instance_count_ := new_instance_count;
       monitor_enter_count_ := monitor_enter_count;
       settings := settings v |}).

(** The loop of [ComputeWidthsAndCountOps]: the final dex pc and the counts.
    Every instruction has at least one unit, so it turns at most [insns_size]
    times. *)
Fixpoint ComputeWidths_loop (fuel : nat) (dex_pc new_instances monitor_enters : Z)
    : V (Z * Z * Z) :=
  match fuel with
  | O => lift None
  | S fuel =>
      if dex_pc <? insns_size then
        let inst := inst_at dex_pc in
        let opcode := Opcode inst in
        count_op opcode;;
        inst_size ← lift (SizeInCodeUnits inst);
        update_flags dex_pc SetIsOpcode;;
        ComputeWidths_loop fuel (dex_pc + inst_size)
          (new_instances + (if opcode =? NEW_INSTANCE then 1 else 0))
          (monitor_enters + (if opcode =? MONITOR_ENTER then 1 else 0))
      else mret (dex_pc, new_instances, monitor_enters)
  end.

Definition ComputeWidthsAndCountOps : V bool :=
  '(dex_pc, new_instances, monitor_enters) ← ComputeWidths_loop (S (Z.to_nat insns_size)) 0 0 0;
  if negb (dex_pc =? insns_size) then fail_hard
  else set_counts new_instances monitor_enters;; mret true.

(** ** Try and catch tables *)

(** [insns[insn_idx] & 0xff] is not a move-result. *)
Definition CheckNotMoveResult (insn_idx : Z) : V bool :=
  let op := Fetch16 (inst_at insn_idx) 0 &&& 0xff in
  reject_if ((MOVE_RESULT <=? op) && (op <=? MOVE_RESULT_OBJECT)) (mret true).

(** Flags the instructions of a try range. *)
Fixpoint mark_in_try (fuel : nat) (dex_pc end_ : Z) : V unit :=
  match fuel with
  | O => lift None
  | S fuel =>
      if dex_pc <? end_ then
        update_flags dex_pc SetInTry;;
        insn_size ← lift (SizeInCodeUnits (inst_at dex_pc));
        mark_in_try fuel (dex_pc + insn_size) end_
      else mret tt
  end.

Definition scan_try (idx : Z) : V bool :=
  let try_item := read_TryItem m (GetTryItems code_item idx) in
  let start := start_addr_ try_item in
  let end_ := u32 (start + insn_count_ try_item) in
  reject_if ((end_ <=? start) || (insns_size <=? start) || (insns_size <? end_))
    (fl ← get_flags start;
     reject_if (negb (IsOpcode fl))
       (mark_in_try (S (Z.to_nat (end_ - start))) start end_;; mret true)).

(** [for (idx = 0; idx < n; idx++) { if (!body(idx)) return false; }] from [idx]. *)
Fixpoint for_each (n : nat) (idx : Z) (body : Z -> V bool) : V bool :=
  match n with
  | O => mret true
  | S n =>
      ok ← body idx;
      if ok : bool then for_each n (idx + 1) body else mret false
  end.

(** The handlers of one list; resolving their types has no effect on the result. *)
Fixpoint scan_handlers (fuel : nat) (it : CatchHandlerIterator) : V (option CatchHandlerIterator) :=
  match fuel with
  | O => lift None
  | S fuel =>
      if HasNext it then
        let dex_pc := GetHandlerAddress it in
        fl ← get_flags dex_pc;
        if negb (IsOpcode fl) then fail_hard;; mret None
        else
          ok ← CheckNotMoveResult dex_pc;
          if negb ok then fail_hard;; mret None
          else
            update_flags dex_pc SetBranchTarget;;
            scan_handlers fuel (Next m it)
      else mret (Some it)
  end.

(** The encoded handler lists in a row. *)
Fixpoint scan_handler_lists (handlers_size : nat) (handlers_ptr : Z) : V bool :=
  match handlers_size with
  | O => mret true
  | S n =>
      let iterator := Init_data m handlers_ptr in
      r ← scan_handlers (handlers_fuel iterator) iterator;
      match r with
      | Some it => scan_handler_lists n (current_data_ it)
      | None => mret false
      end
  end.

Definition ScanTryCatchBlocks : V bool :=
  let tries_size := tries_size_ code_item in
  if tries_size =? 0 then mret true
  else
    ok ← for_each (Z.to_nat tries_size) 0 scan_try;
    if ok : bool then
      let '(handlers_size, handlers_ptr) :=
        DecodeUnsignedLeb128 m (GetCatchHandlerData code_item 0) in
      scan_handler_lists (Z.to_nat handlers_size) handlers_ptr
    else mret false.

(** ** Operands *)

Definition CheckRegisterIndex (idx : Z) : V bool :=
  reject_if (registers_size <=? u32 idx) (mret true).
Definition CheckWideRegisterIndex (idx : Z) : V bool :=
  reject_if (registers_size <=? u32 (u32 idx + 1)) (mret true).
Definition CheckFieldIndex (idx : Z) : V bool :=
  reject_if (field_ids_size_ dex_file <=? u32 idx) (mret true).
Definition CheckMethodIndex (idx : Z) : V bool :=
  reject_if (method_ids_size_ dex_file <=? u32 idx) (mret true).
Definition CheckPrototypeIndex (idx : Z) : V bool :=
  reject_if (proto_ids_size_ dex_file <=? u32 idx) (mret true).
Definition CheckStringIndex (idx : Z) : V bool :=
  reject_if (string_ids_size_ dex_file <=? u32 idx) (mret true).
Definition CheckTypeIndex (idx : Z) : V bool :=
  reject_if (type_ids_size_ dex_file <=? TypeIndex idx) (mret true).

Definition starts_with (c : ascii) (s : string) : bool :=
  match s with String c' _ => Ascii.eqb c' c | EmptyString => false end.

Definition CheckNewInstance (idx : Z) : V bool :=
  reject_if (type_ids_size_ dex_file <=? TypeIndex idx)
    (let descriptor := StringByTypeIdx dex_file (TypeIndex idx) in
     if negb (starts_with "L"%char descriptor) then fail_hard
     else if String.eqb descriptor "Ljava/lang/Class;"
     then Fail VERIFY_ERROR_INSTANTIATION;; mret true
     else mret true).

(** [while ( *cp++ == '[') bracket_count++] *)
Fixpoint count_brackets (descriptor : string) : Z :=
  match descriptor with
  | String c rest => if Ascii.eqb c "["%char then 1 + count_brackets rest else 0
  | EmptyString => 0
  end.

Definition CheckNewArray (idx : Z) : V bool :=
  reject_if (type_ids_size_ dex_file <=? TypeIndex idx)
    (let bracket_count := count_brackets (StringByTypeIdx dex_file (TypeIndex idx)) in
     reject_if (bracket_count =? 0) (reject_if (255 <? bracket_count) (mret true))).

(** ** Payloads and branch targets *)

(** [insns[1] | (static_cast<int32_t>(insns[2]) << 16)] *)
Definition payload_offset (inst : Instruction) : Z :=
  s32 (Fetch16 inst 1 ||| (Fetch16 inst 2 << 16)).

Definition CheckArrayData (cur_offset : Z) : V bool :=
  let insn_count := insns_size in
  let insns := inst_at cur_offset in
  let array_data_offset := payload_offset insns in
  reject_if ((s32 (s32 cur_offset + array_data_offset) <? 0)
             || (insn_count <=? u32 (cur_offset + array_data_offset + 2)))
    (let array_data := RelativeAt insns array_data_offset in
     reject_if (negb (IsAligned 4 (insns_ code_item + 2 * (cur_offset + array_data_offset))))
       (fl ← get_flags (u32 (cur_offset + array_data_offset));
        reject_if (negb (IsOpcode fl))
          (let value_width := Fetch16 array_data 1 in
           let value_count := Fetch32 array_data 2 in
           let table_size := u32 (4 + u32 (u32 (value_width * value_count) + 1) / 2) in
           reject_if (insn_count <? u32 (cur_offset + array_data_offset + table_size))
             (mret true)))).

(** The offset and whether a branch to itself is allowed. *)
Definition GetBranchOffset (cur_offset : Z) : option (Z * bool * bool) :=
  let insns := inst_at cur_offset in
  let op := Fetch16 insns 0 &&& 0xff in
  if op =? GOTO then Some (s16 (Fetch16 insns 0) >> 8, false, false)
  else if op =? GOTO_32 then
    Some (s32 (Fetch16 insns 1 ||| u32 (Fetch16 insns 2 << 16)), false, true)
  else if op =? GOTO_16 then Some (s16 (Fetch16 insns 1), false, false)
  else if (op =? IF_EQ) || (op =? IF_NE) || (op =? IF_LT) || (op =? IF_GE) || (op =? IF_GT)
          || (op =? IF_LE) || (op =? IF_EQZ) || (op =? IF_NEZ) || (op =? IF_LTZ)
          || (op =? IF_GEZ) || (op =? IF_GTZ) || (op =? IF_LEZ)
  then Some (s16 (Fetch16 insns 1), true, false)
  else None.

Definition CheckBranchTarget (cur_offset : Z) : V bool :=
  match GetBranchOffset cur_offset with
  | None => mret false
  | Some (offset, isConditional, selfOkay) =>
      reject_if (negb selfOkay && (offset =? 0))
        (reject_if (negb (cur_offset + offset =? u32 (cur_offset + offset)))
           (let insn_count := insns_size in
            let abs_offset := s32 (cur_offset + offset) in
            reject_if ((abs_offset <? 0) || (insn_count <=? u32 abs_offset))
              (fl ← get_flags abs_offset;
               reject_if (negb (IsOpcode fl))
                 (update_flags abs_offset SetBranchTarget;; mret true))))
  end.

(** ** Switches *)

(** A 32-bit entry of a switch table at unit [i]. *)
Definition table_int (switch_insns : Instruction) (i : Z) : Z :=
  s32 (Fetch16 switch_insns i ||| (Fetch16 switch_insns (i + 1) << 16)).

(** Keys [targ], [targ + 1], ... ascend from [last_key]. *)
Fixpoint keys_ascend (n : nat) (switch_insns : Instruction) (targ last_key : Z) : bool :=
  match n with
  | O => true
  | S n =>
      let key := table_int switch_insns (2 + targ * 2) in
      if key <=? last_key then false else keys_ascend n switch_insns (targ + 1) key
  end.

Definition check_keys (is_packed_switch : bool) (switch_insns : Instruction)
    (switch_count : Z) : bool :=
  if 1 <? switch_count then
    let first_key := table_int switch_insns 2 in
    if is_packed_switch then
      let max_first_key := (2 ^ 31 - 1) - (switch_count - 1) in
      negb (max_first_key <? first_key)
    else keys_ascend (Z.to_nat (switch_count - 1)) switch_insns 1 first_key
  else true.

Definition check_target (cur_offset : Z) (switch_insns : Instruction) (targets_offset targ : Z)
    : V bool :=
  let offset := table_int switch_insns (targets_offset + targ * 2) in
  let abs_offset := s32 (cur_offset + offset) in
  reject_if ((abs_offset <? 0) || (s32 insns_size <=? abs_offset))
    (fl ← get_flags abs_offset;
     reject_if (negb (IsOpcode fl))
       (update_flags abs_offset SetBranchTarget;; mret true)).

Definition CheckSwitchTargets (cur_offset : Z) : V bool :=
  let insn_count := insns_size in
  let insns := inst_at cur_offset in
  let switch_offset := payload_offset insns in
  reject_if ((s32 (s32 cur_offset + switch_offset) <? 0)
             || (insn_count <? u32 (cur_offset + switch_offset + 2)))
    (let switch_insns := RelativeAt insns switch_offset in
     reject_if (negb (IsAligned 4 (insns_ code_item + 2 * (cur_offset + switch_offset))))
       (fl ← get_flags (u32 (cur_offset + switch_offset));
        reject_if (negb (IsOpcode fl))
          (let is_packed_switch := Fetch16 insns 0 &&& 0xff =? PACKED_SWITCH in
           let switch_count := Fetch16 switch_insns 1 in
           let targets_offset := if is_packed_switch then 4 else 2 + 2 * switch_count in
           let expected_signature :=
             if is_packed_switch then kPackedSwitchSignature else kSparseSwitchSignature in
           let table_size := u32 (targets_offset + switch_count * 2) in
           reject_if (negb (Fetch16 switch_insns 0 =? expected_signature))
             (reject_if (insn_count <? u32 (cur_offset + switch_offset + table_size))
                (reject_if (negb (check_keys is_packed_switch switch_insns switch_count))
                   (for_each (Z.to_nat switch_count) 0
                      (check_target cur_offset switch_insns targets_offset))))))).

(** ** Variable arguments *)

Fixpoint CheckVarArgRegs (vA : nat) (arg : list Z) : V bool :=
  match vA with
  | O => mret true
  | S vA =>
      match arg with
      | a :: arg => reject_if (registers_size <=? a) (CheckVarArgRegs vA arg)
      | [] => lift None
      end
  end.

Definition CheckVarArgRangeRegs (vA vC : Z) : V bool :=
  reject_if (registers_size <? u32 (vA + vC)) (mret true).

(** ** [VerifyInstruction] *)

Definition kMaxVarArgRegs : Z := 5.
Definition kHaveExperimentalInstructions : bool := false.

Definition set_experimental_failure : V unit := fun v =>
  Some (tt, with_pending v
    {| failures_ := failures_ (pending v);
       encountered_failure_types_ := encountered_failure_types_ (pending v);
       have_pending_hard_failure_ := have_pending_hard_failure_ (pending v);
       have_pending_runtime_throw_failure_ := have_pending_runtime_throw_failure_ (pending v);
       have_pending_experimental_failure_ := true |}).

(** The switches on the kind of each operand, in order. *)
Definition check_argument_a (inst : Instruction) : V bool :=
  let k := GetVerifyTypeArgumentA inst in
  if k =? kVerifyRegA then CheckRegisterIndex (VRegA inst)
  else if k =? kVerifyRegAWide then CheckWideRegisterIndex (VRegA inst)
  else mret true.

Definition check_argument_b (inst : Instruction) : V bool :=
  let k := GetVerifyTypeArgumentB inst in
  if k =? kVerifyRegB then b ← lift (VRegB inst); CheckRegisterIndex b
  else if k =? kVerifyRegBField then b ← lift (VRegB inst); CheckFieldIndex b
  else if k =? kVerifyRegBMethod then b ← lift (VRegB inst); CheckMethodIndex b
  else if k =? kVerifyRegBNewInstance then b ← lift (VRegB inst); CheckNewInstance b
  else if k =? kVerifyRegBString then b ← lift (VRegB inst); CheckStringIndex b
  else if k =? kVerifyRegBType then b ← lift (VRegB inst); CheckTypeIndex b
  else if k =? kVerifyRegBWide then b ← lift (VRegB inst); CheckWideRegisterIndex b
  else mret true.

Definition check_argument_c (inst : Instruction) : V bool :=
  let k := GetVerifyTypeArgumentC inst in
  if k =? kVerifyRegC then c ← lift (VRegC inst); CheckRegisterIndex c
  else if k =? kVerifyRegCField then c ← lift (VRegC inst); CheckFieldIndex c
  else if k =? kVerifyRegCNewArray then c ← lift (VRegC inst); CheckNewArray c
  else if k =? kVerifyRegCType then c ← lift (VRegC inst); CheckTypeIndex c
  else if k =? kVerifyRegCWide then c ← lift (VRegC inst); CheckWideRegisterIndex c
  else mret true.

Definition check_argument_h (inst : Instruction) : V bool :=
  if GetVerifyTypeArgumentH inst =? kVerifyRegHPrototype
  then h ← lift (VRegH inst); CheckPrototypeIndex h
  else mret true.

Definition check_extra (inst : Instruction) (code_offset : Z) (result : bool) : V bool :=
  let k := GetVerifyExtraFlags inst in
  if k =? kVerifyArrayData then and_also result (CheckArrayData code_offset)
  else if k =? kVerifyBranchTarget then and_also result (CheckBranchTarget code_offset)
  else if k =? kVerifySwitchTargets then and_also result (CheckSwitchTargets code_offset)
  else if (k =? kVerifyVarArgNonZero) || (k =? kVerifyVarArg) then
    let v_a := u32 (VRegA inst) in
    reject_if (((k =? kVerifyVarArgNonZero) && (v_a =? 0)) || (kMaxVarArgRegs <? v_a))
      (and_also result (CheckVarArgRegs (Z.to_nat v_a) (GetVarArgs inst)))
  else if (k =? kVerifyVarArgRangeNonZero) || (k =? kVerifyVarArgRange) then
    reject_if ((k =? kVerifyVarArgRangeNonZero) && (VRegA inst <=? 0))
      (c ← lift (VRegC inst); and_also result (CheckVarArgRangeRegs (VRegA inst) c))
  else if k =? kVerifyError then fail_hard
  else mret result.

Definition VerifyInstruction (kAllowRuntimeOnlyInstructions : bool) (inst : Instruction)
    (code_offset : Z) : V bool :=
  if kHaveExperimentalInstructions && IsExperimental inst then
    Fail VERIFY_ERROR_FORCE_INTERPRETER;; set_experimental_failure;; mret false
  else
    result ← check_argument_a inst;
    result ← and_also result (check_argument_b inst);
    result ← and_also result (check_argument_c inst);
    result ← and_also result (check_argument_h inst);
    result ← check_extra inst code_offset result;
    if negb kAllowRuntimeOnlyInstructions && GetVerifyIsRuntimeOnly inst
    then fail_hard
    else mret result.

(** ** [VerifyInstructions] and the static part of [Verify] *)

(** The flags set for the compiler after an instruction passed. *)
Definition flag_safepoints (inst : Instruction) (dex_pc : Z) : V unit :=
  if IsBranch inst then
    update_flags dex_pc SetCompileTimeInfoPoint;;
    '(offset, _, _) ← lift (GetBranchOffset dex_pc);
    update_flags (dex_pc + offset) SetCompileTimeInfoPoint
  else if IsSwitch inst || IsThrow inst then update_flags dex_pc SetCompileTimeInfoPoint
  else if IsReturn inst then update_flags dex_pc SetCompileTimeInfoPointAndReturn
  else mret tt.

Fixpoint VerifyInstructions_loop (allow : bool) (fuel : nat) (dex_pc : Z) : V bool :=
  match fuel with
  | O => lift None
  | S fuel =>
      if dex_pc <? insns_size then
        let inst := inst_at dex_pc in
        ok ← VerifyInstruction allow inst dex_pc;
        if negb ok then mret false
        else
          flag_safepoints inst dex_pc;;
          inst_size ← lift (SizeInCodeUnits inst);
          VerifyInstructions_loop allow fuel (dex_pc + inst_size)
      else mret true
  end.

Definition VerifyInstructions (allow : bool) : V bool :=
  update_flags 0 SetBranchTarget;;
  update_flags 0 SetCompileTimeInfoPoint;;
  VerifyInstructions_loop allow (S (Z.to_nat insns_size)) 0.

(** [insn_flags_.reset(...)] *)
Definition alloc_flags : V unit := fun v =>
  Some (tt, with_flags v (replicate (Z.to_nat insns_size) 0)).

(** [Verify] from the register counts up to [VerifyCodeFlow]. *)
Definition VerifyStatic (allow : bool) : V bool :=
  reject_if (registers_size <? ins_size_ code_item)
    (alloc_flags;;
     result ← ComputeWidthsAndCountOps;
     result ← and_also result ScanTryCatchBlocks;
     and_also result (VerifyInstructions allow)).
End Verifier.

(** The state the constructor sets up. *)
Definition new_verifier (s : Settings) : VState :=
  {| insn_flags_ := [];
     pending := {| failures_ := []; encountered_failure_types_ := 0;
                   have_pending_hard_failure_ := false;
                   have_pending_runtime_throw_failure_ := false;
                   have_pending_experimental_failure_ := false |};
     has_check_casts_ := false; has_virtual_or_interface_invokes_ := false;
     new_instance_count_ := 0; monitor_enter_count_ := 0; settings := s |}.
Definition initial_state : VState :=
  new_verifier {| IsAotCompiler := false; can_load_classes_ := true;
                  allow_soft_failures_ := true |}.
