(* ===== verification/StaticVerifierFacts.v ===== *)
(** * What the static pass of the method verifier establishes

    The linear sweep as a relation, that the flag [IsOpcode] marks exactly the
    units it reaches, that no later check loses the mark, and what a passed
    [VerifyStatic] says about every instruction of the method. *)
From Stdlib Require Import String.
From S2P Require Import Prelude BitUtils Leb128 DexInstructionList DexInstruction ExceptionTable StaticVerifier.

(** ** Inverting the monad *)

Lemma V_bind_inv {A B} (c : V A) (k : A -> V B) v b v'' :
  (c ≫= k) v = Some (b, v'') -> exists a v', c v = Some (a, v') /\ k a v' = Some (b, v'').
Proof. unfold mbind, V_bind. destruct (c v) as [[a v']|]; [eauto|done]. Qed.

Lemma reject_if_inv bad rest v v' :
  reject_if bad rest v = Some (true, v') -> bad = false /\ rest v = Some (true, v').
Proof. unfold reject_if. by destruct bad. Qed.

Lemma and_also_inv r check v v' :
  and_also r check v = Some (true, v') -> r = true /\ check v = Some (true, v').
Proof. unfold and_also. by destruct r. Qed.

Lemma lift_inv {A} (o : option A) v a v' : lift o v = Some (a, v') -> o = Some a /\ v' = v.
Proof. unfold lift. destruct o; [|done]. by intros [= -> ->]. Qed.

Lemma V_ret_inv {A} (a b : A) v v' : (mret a : V A) v = Some (b, v') -> b = a /\ v' = v.
Proof. by intros [= -> ->]. Qed.

Lemma get_flags_inv i v f v' :
  get_flags i v = Some (f, v') -> v' = v /\ 0 <= i /\ insn_flags_ v !! Z.to_nat i = Some f.
Proof.
  unfold get_flags. destruct (Z.leb_spec 0 i); [|done].
  destruct (_ !! _) as [f'|] eqn:E; [|done]. intros [= -> ->]. eauto.
Qed.

(** Takes a passed check apart along its structure. *)
Ltac passed H :=
  repeat first
    [ apply reject_if_inv in H as [? H]
    | apply and_also_inv in H as [? H]
    | let a := fresh "a" in let v := fresh "v" in let H' := fresh "Hc" in
      apply V_bind_inv in H as (a & v & H' & H) ].

Section Facts.
Context (m : mem) (code_item : CodeItem) (dex_file : DexHeader).
Notation size := (insns_size code_item).
Notation inst_at := (inst_at m code_item).

(** ** The units the sweep reaches *)

Inductive sweep_from : Z -> Z -> Prop :=
| sweep_here pc : sweep_from pc pc
| sweep_next pc k x :
    pc < size -> SizeInCodeUnits (inst_at pc) = Some k -> sweep_from (pc + k) x -> sweep_from pc x.
Notation sweep := (sweep_from 0).

Lemma sweep_step pc x k :
  sweep_from pc x -> x < size -> SizeInCodeUnits (inst_at x) = Some k -> sweep_from pc (x + k).
Proof.
  induction 1 as [x|pc k' x Hp Hk _ IH]; intros Hx Hs.
  - eapply sweep_next; [done..|]. constructor.
  - eapply sweep_next; [done..|]. by apply IH.
Qed.

Definition instruction_start (pc : Z) : Prop := sweep pc /\ 0 <= pc < size.

(** The sweep has marked exactly the instruction starts. *)
Definition marked (v : VState) : Prop :=
  Z.of_nat (length (insn_flags_ v)) = Z.max 0 size /\
  forall i f, insn_flags_ v !! i = Some f -> (IsOpcode f = true <-> sweep (Z.of_nat i)).

Lemma marked_start v i f :
  marked v -> 0 <= i -> insn_flags_ v !! Z.to_nat i = Some f -> IsOpcode f = true ->
  instruction_start i.
Proof.
  intros [Hl Hm] Hi Hf Ho. apply (Hm _ _ Hf) in Ho.
  rewrite Z2Nat.id in Ho by lia. apply lookup_lt_Some in Hf. split; [done|lia].
Qed.

(** ** Updates that keep the marks *)

Lemma TestFlag_testbit bit fl : 0 <= bit -> TestFlag bit fl = Z.testbit fl bit.
Proof.
  intros Hb. unfold TestFlag. rewrite Z.shiftl_1_l, land_pow2_test by lia.
  rewrite <- Z.shiftr_div_pow2, <- Z.bit0_mod, Z.shiftr_spec, Z.add_0_l by lia.
  by destruct (Z.testbit fl bit).
Qed.

Lemma SetFlag_testbit bit fl i :
  0 <= bit -> 0 <= i < 8 -> Z.testbit (SetFlag bit fl) i = Z.testbit fl i || (bit =? i).
Proof.
  intros Hb Hi. unfold SetFlag, wrap_u.
  rewrite Z.mod_pow2_bits_low, Z.lor_spec, Z.shiftl_1_l, Z.pow2_bits_eqb by lia. done.
Qed.

Lemma TestFlag_SetFlag bit fl i :
  0 <= bit -> 0 <= i < 8 -> TestFlag i (SetFlag bit fl) = TestFlag i fl || (bit =? i).
Proof. intros. rewrite !TestFlag_testbit by lia. by apply SetFlag_testbit. Qed.

(** Later checks set further flags, but neither the mark of a start nor those of
    the data flow pass. *)
Definition flag_later (f f' : Z) : Prop :=
  IsOpcode f' = IsOpcode f /\ TestFlag kVisited f' = TestFlag kVisited f /\
  TestFlag kChanged f' = TestFlag kChanged f /\
  forall bit, 0 <= bit < 8 -> TestFlag bit f = true -> TestFlag bit f' = true.
Definition later (v v' : VState) : Prop := Forall2 flag_later (insn_flags_ v) (insn_flags_ v').

#[export] Instance flag_later_preorder : PreOrder flag_later.
Proof.
  split; [by intros f|]. intros f1 f2 f3 (? & ? & ? & Hb1) (? & ? & ? & Hb2).
  split_and!; [congruence..|]. intros bit Hb Ht. by apply Hb2, Hb1.
Qed.
#[export] Instance later_preorder : PreOrder later.
Proof.
  split; [intros v; unfold later; reflexivity|]. intros v1 v2 v3 H1 H2. unfold later in *. by etrans.
Qed.

Lemma later_marked v v' : later v v' -> marked v -> marked v'.
Proof.
  intros H [Hl Hm]. split; [by rewrite <- (Forall2_length H)|].
  intros i f' Hf'. destruct (Forall2_lookup_r _ _ _ _ _ H Hf') as (f & Hf & Ho & _).
  rewrite Ho. by apply Hm.
Qed.

Definition sets (f : Z -> Z) : Prop := forall fl, flag_later fl (f fl).

Lemma SetFlag_sets bit : 2 < bit < 8 -> sets (SetFlag bit).
Proof.
  intros Hb fl. unfold flag_later, IsOpcode.
  rewrite !TestFlag_SetFlag by (unfold kOpcode, kVisited, kChanged; lia).
  unfold kOpcode, kVisited, kChanged.
  rewrite !(proj2 (Z.eqb_neq bit _)), !orb_false_r by lia. split_and!; [done..|].
  intros i Hi Ht. by rewrite TestFlag_SetFlag, Ht by lia.
Qed.

Lemma SetInTry_sets : sets SetInTry.
Proof. by apply SetFlag_sets. Qed.
Lemma SetBranchTarget_sets : sets SetBranchTarget.
Proof. by apply SetFlag_sets. Qed.
Lemma SetCompileTimeInfoPoint_sets : sets SetCompileTimeInfoPoint.
Proof. by apply SetFlag_sets. Qed.
Lemma SetCompileTimeInfoPointAndReturn_sets : sets SetCompileTimeInfoPointAndReturn.
Proof.
  intros fl. unfold SetCompileTimeInfoPointAndReturn, SetReturn.
  etrans; [apply SetCompileTimeInfoPoint_sets|by apply SetFlag_sets].
Qed.

(** A computation that keeps the marks, whatever its result. *)
Definition keeps {A} (c : V A) : Prop := forall v a v', c v = Some (a, v') -> later v v'.

Lemma keeps_marked {A} (c : V A) v a v' : keeps c -> c v = Some (a, v') -> marked v -> marked v'.
Proof. intros Hc E. by eapply later_marked, Hc. Qed.

Lemma keeps_ret {A} (a : A) : keeps (mret a).
Proof. by intros v b v' [= -> ->]. Qed.
Lemma keeps_bind {A B} (c : V A) (k : A -> V B) :
  keeps c -> (forall a, keeps (k a)) -> keeps (c ≫= k).
Proof. intros Hc Hk v b v'' E. apply V_bind_inv in E as (a & v' & E1 & E2). etrans; [by eapply Hc|by eapply Hk]. Qed.
Lemma keeps_lift {A} (o : option A) : keeps (lift o).
Proof. intros v a v' E. by apply lift_inv in E as [_ ->]. Qed.
Lemma keeps_Fail e : keeps (Fail e).
Proof. intros v a v' [= <- <-]. by change (later v v). Qed.
Lemma keeps_get i : keeps (get_flags i).
Proof. intros v a v' E. by apply get_flags_inv in E as [-> _]. Qed.

Lemma Forall2_alter_r {A} (R : A -> A -> Prop) (f : A -> A) l i :
  Reflexive R -> (forall x, R x (f x)) -> Forall2 R l (alter f i l).
Proof.
  intros Hr Hf. revert i. induction l as [|x l IH]; intros i; [done|].
  destruct i as [|i]; apply List.Forall2_cons; [apply Hf|reflexivity|reflexivity|apply IH].
Qed.

Lemma keeps_update i f : sets f -> keeps (update_flags i f).
Proof.
  intros Hf v a v' E. unfold update_flags in E.
  destruct (_ && _); [|done]. injection E as <- <-. apply Forall2_alter_r; [apply _|done].
Qed.

#[local] Hint Resolve keeps_ret keeps_lift keeps_Fail keeps_get keeps_update
  SetInTry_sets SetBranchTarget_sets SetCompileTimeInfoPoint_sets
  SetCompileTimeInfoPointAndReturn_sets : keeps.

(** Descends through the structure of a computation. *)
Ltac keep :=
  repeat (cbv zeta; match goal with
  | |- keeps (_ ≫= _) => apply keeps_bind; [|intros ?]
  | |- keeps (reject_if _ _) => unfold reject_if
  | |- keeps (and_also _ _) => unfold and_also
  | |- keeps fail_hard => unfold fail_hard
  | |- keeps (if ?b then _ else _) => destruct b
  | |- keeps (match ?o with Some _ => _ | None => _ end) => destruct o
  | |- keeps (let '(_, _) := ?p in _) => destruct p
  | |- keeps _ => solve [auto with keeps]
  end).

Lemma keeps_for_each n idx body : (forall i, keeps (body i)) -> keeps (for_each n idx body).
Proof. intros Hb. revert idx. induction n as [|n IH]; intros idx; simpl; keep; auto. Qed.

(** Every round of a loop that passed was run, and nothing was lost after it. *)
Lemma for_each_later n idx body v1 v2 :
  for_each n idx body v1 = Some (true, v2) -> (forall i, keeps (body i)) ->
  forall i, idx <= i < idx + Z.of_nat n ->
    exists u1 u2, later v1 u1 /\ body i u1 = Some (true, u2) /\ later u2 v2.
Proof.
  intros H Hk. revert idx v1 H. induction n as [|n IH]; intros idx v1 H i Hi; [lia|].
  cbn [for_each] in H. apply V_bind_inv in H as (ok & v3 & Hb & H). destruct ok; [|done].
  destruct (Z.eq_dec i idx) as [->|Hne].
  - exists v1, v3. split_and!; [done..|]. exact (keeps_for_each _ _ _ Hk _ _ _ H).
  - destruct (IH (idx + 1) v3 H i) as (u1 & u2 & Hu & ? & ?); [lia|]. exists u1, u2.
    split_and!; try done. etrans; [exact (Hk _ _ _ _ Hb)|exact Hu].
Qed.

Lemma keeps_mark_in_try fuel pc e : keeps (mark_in_try m code_item fuel pc e).
Proof. revert pc. induction fuel as [|fuel IH]; intros pc; simpl; keep; auto. Qed.

Lemma keeps_CheckNotMoveResult i : keeps (CheckNotMoveResult m code_item i).
Proof. unfold CheckNotMoveResult. keep. Qed.

Lemma keeps_scan_handlers fuel it : keeps (scan_handlers m code_item fuel it).
Proof.
  revert it. induction fuel as [|fuel IH]; intros it; simpl; keep; auto.
  apply keeps_CheckNotMoveResult.
Qed.

Lemma keeps_scan_handler_lists n ptr : keeps (scan_handler_lists m code_item n ptr).
Proof.
  revert ptr. induction n as [|n IH]; intros ptr; simpl; keep; auto. apply keeps_scan_handlers.
Qed.

Lemma keeps_scan_try i : keeps (scan_try m code_item i).
Proof. unfold scan_try. keep. apply keeps_mark_in_try. Qed.

Lemma keeps_ScanTryCatchBlocks : keeps (ScanTryCatchBlocks m code_item).
Proof.
  unfold ScanTryCatchBlocks. keep; [|apply keeps_scan_handler_lists].
  apply keeps_for_each, keeps_scan_try.
Qed.

Lemma keeps_CheckVarArgRegs n l : keeps (CheckVarArgRegs code_item n l).
Proof.
  revert l. induction n as [|n IH]; intros [|a l]; simpl; keep; auto.
Qed.

Lemma keeps_check_target pc insns off targ : keeps (check_target code_item pc insns off targ).
Proof. unfold check_target. keep. Qed.

Lemma keeps_check_extra inst pc r : keeps (check_extra m code_item inst pc r).
Proof.
  unfold check_extra, CheckArrayData, CheckBranchTarget, CheckSwitchTargets, CheckVarArgRangeRegs.
  keep; try apply keeps_CheckVarArgRegs; apply keeps_for_each; intros i;
    apply keeps_check_target.
Qed.

Lemma keeps_check_argument_a inst : keeps (check_argument_a code_item inst).
Proof. unfold check_argument_a, CheckRegisterIndex, CheckWideRegisterIndex. keep. Qed.
Lemma keeps_check_argument_b inst : keeps (check_argument_b code_item dex_file inst).
Proof.
  unfold check_argument_b, CheckRegisterIndex, CheckWideRegisterIndex, CheckFieldIndex,
    CheckMethodIndex, CheckNewInstance, CheckStringIndex, CheckTypeIndex.
  keep.
Qed.
Lemma keeps_check_argument_c inst : keeps (check_argument_c code_item dex_file inst).
Proof.
  unfold check_argument_c, CheckRegisterIndex, CheckWideRegisterIndex, CheckFieldIndex,
    CheckNewArray, CheckTypeIndex.
  keep.
Qed.
Lemma keeps_check_argument_h inst : keeps (check_argument_h dex_file inst).
Proof. unfold check_argument_h, CheckPrototypeIndex. keep. Qed.

Lemma keeps_VerifyInstruction allow inst pc :
  keeps (VerifyInstruction m code_item dex_file allow inst pc).
Proof.
  unfold VerifyInstruction, kHaveExperimentalInstructions. cbn [andb].
  keep; auto using keeps_check_argument_a, keeps_check_argument_b, keeps_check_argument_c,
    keeps_check_argument_h, keeps_check_extra.
Qed.

(** ** The sweep marks the instruction starts *)

Hypothesis Hbytes : bytes_ok m.

Lemma inst_at_units pc i : in_u 16 (inst_at pc i).
Proof.
  unfold StaticVerifier.inst_at, instruction_at, read_u16.
  pose proof (Hbytes (insns_ code_item + 2 * (pc + i))) as H0.
  pose proof (Hbytes (insns_ code_item + 2 * (pc + i) + 1)) as H1.
  unfold in_u in *. rewrite lor_shiftl by lia. pows. lia.
Qed.

Lemma table_sizes inst :
  (Opcode inst =? NOP) || (1 <=? size_in_code_units (descriptor (Opcode inst))) = true.
Proof.
  apply (opcode_all (fun op => (op =? NOP) || (1 <=? size_in_code_units (descriptor op))));
    [vm_compute; reflexivity|apply Opcode_range].
Qed.

(** Every instruction has a size, of at least one unit. *)
Lemma SizeInCodeUnits_pos inst :
  (forall i, in_u 16 (inst i)) -> exists k, SizeInCodeUnits inst = Some k /\ 1 <= k.
Proof.
  intros Hu. pose proof (table_sizes inst) as Ht. unfold SizeInCodeUnits.
  destruct (Z.ltb_spec (size_in_code_units (descriptor (Opcode inst))) 0) as [Hneg|Hpos].
  - unfold SizeInCodeUnitsComplexOpcode, Fetch16.
    pose proof (Hu 1) as H1. unfold in_u in H1.
    do 2 (case_if; [eexists; split; [done|lia]|]).
    case_if; [|case_if; [eexists; split; [done|lia]|]].
    + eexists. split; [done|]. generalize (u32 (inst 1 * (inst 2 ||| u32 (inst 3 << 16)))). intros x.
      wrap_unfold. zdiv.
    + apply orb_prop in Ht as [Ht|Ht]; bools; [|lia]. exfalso.
      unfold Opcode, Fetch16, NOP in *. congruence.
  - apply orb_prop in Ht as [Ht|Ht]; bools; [|eauto].
    exfalso. rewrite Ht in Hpos. vm_compute in Hpos. congruence.
Qed.

Lemma IsOpcode_set f : IsOpcode (SetIsOpcode f) = true.
Proof.
  unfold IsOpcode, SetIsOpcode. rewrite TestFlag_testbit, SetFlag_testbit by (unfold kOpcode; lia).
  by rewrite Z.eqb_refl, orb_true_r.
Qed.

(** [base] with the units the sweep reaches from [pc] marked in addition. *)
Definition adds_marks (pc : Z) (base fl : list Z) : Prop :=
  length fl = length base /\
  forall i f, fl !! i = Some f ->
    exists f0, base !! i = Some f0 /\
      (IsOpcode f = true <-> IsOpcode f0 = true \/ sweep_from pc (Z.of_nat i)).

Lemma adds_marks_step pc k base fl :
  0 <= pc < size -> SizeInCodeUnits (inst_at pc) = Some k ->
  adds_marks (pc + k) (alter SetIsOpcode (Z.to_nat pc) base) fl -> adds_marks pc base fl.
Proof.
  intros Hpc Hk [Hl Hm]. split; [by rewrite Hl, length_alter|].
  intros i f Hi. destruct (Hm i f Hi) as (f0 & Hf0 & Hiff).
  destruct (decide (Z.to_nat pc = i)) as [<-|Hne].
  - rewrite list_lookup_alter_eq in Hf0.
    destruct (base !! Z.to_nat pc) as [f1|]; [|done]. injection Hf0 as <-.
    exists f1. split; [done|]. rewrite Hiff, IsOpcode_set, Z2Nat.id by lia.
    split; [intros _; right; constructor|by left].
  - rewrite list_lookup_alter_ne in Hf0 by done. exists f0. split; [done|]. rewrite Hiff.
    split; (intros [?|Hs]; [by left|right]).
    + by eapply sweep_next; [apply Hpc|done|].
    + inversion Hs as [? E|? k' ? ? E' ?]; subst; [lia|]. congruence.
Qed.

Lemma ComputeWidths_loop_spec fuel pc a b v :
  Z.of_nat (length (insn_flags_ v)) = Z.max 0 size -> 0 <= pc -> size - pc < Z.of_nat fuel ->
  (0 < fuel)%nat ->
  exists e x y v', ComputeWidths_loop m code_item fuel pc a b v = Some ((e, x, y), v') /\
    sweep_from pc e /\ size <= e /\ adds_marks pc (insn_flags_ v) (insn_flags_ v').
Proof.
  revert pc a b v. induction fuel as [|fuel IH]; intros pc a b v Hl Hpc Hf H0; [lia|].
  cbn [ComputeWidths_loop]. destruct (Z.ltb_spec pc size) as [Hlt|Hge].
  - destruct (SizeInCodeUnits_pos (inst_at pc) (inst_at_units pc)) as (k & Hk & Hk1).
    unfold mbind at 1, V_bind at 1, count_op. unfold mbind at 1, V_bind at 1, lift. rewrite Hk.
    unfold mbind at 1, V_bind at 1, update_flags. cbn [insn_flags_].
    rewrite (proj2 (Z.leb_le 0 pc)), (proj2 (Z.ltb_lt pc _)) by lia. cbn [andb].
    match goal with |- context [ComputeWidths_loop _ _ fuel (pc + k) ?a' ?b' ?v1] =>
      destruct (IH (pc + k) a' b' v1) as (e & x & y & v' & E & Hs & He & Hm) end;
      try (cbn [with_flags insn_flags_]; rewrite ?length_alter; lia).
    exists e, x, y, v'. split; [exact E|]. split; [by eapply sweep_next|]. split; [done|].
    cbn [with_flags insn_flags_] in Hm. by eapply adds_marks_step.
  - exists pc, a, b, v. split; [done|]. split; [constructor|]. split; [done|].
    split; [done|]. intros i f Hi. exists f. split; [done|]. split; [by left|].
    intros [?|Hs]; [done|]. exfalso. apply lookup_lt_Some in Hi.
    inversion Hs; subst; lia.
Qed.

Lemma compute_widths_marks v :
  insn_flags_ v = replicate (Z.to_nat size) 0 -> 0 <= size ->
  exists ok v', ComputeWidthsAndCountOps m code_item v = Some (ok, v') /\
    (ok = true -> marked v' /\ sweep size) /\
    (ok = false -> exists e, sweep e /\ size < e).
Proof.
  intros Hfl Hsz. unfold ComputeWidthsAndCountOps.
  destruct (ComputeWidths_loop_spec (S (Z.to_nat size)) 0 0 0 v)
    as (e & x & y & v' & E & Hs & He & Hl & Hm);
    try (rewrite ?Hfl, ?length_replicate; lia).
  unfold mbind at 1, V_bind at 1. rewrite E.
  destruct (Z.eqb_spec e size) as [->|Hne]; cbn [negb].
  - do 2 eexists. split; [done|]. split; [|done]. intros _. split; [|done].
    split; cbn [insn_flags_]; [rewrite Hl, Hfl, length_replicate; lia|].
    intros i f Hi. destruct (Hm i f Hi) as (f0 & Hf0 & ->).
    rewrite Hfl in Hf0. apply lookup_replicate in Hf0 as [-> _].
    split; [intros [?|?]; [done|done]|by right].
  - do 2 eexists. split; [done|]. split; [done|]. intros _. exists e. split; [done|lia].
Qed.

(** ** What passed *)

Lemma keeps_flag_safepoints inst pc : keeps (flag_safepoints m code_item inst pc).
Proof. unfold flag_safepoints. keep. Qed.

Lemma VerifyInstructions_loop_passed allow fuel pc v v' :
  marked v -> VerifyInstructions_loop m code_item dex_file allow fuel pc v = Some (true, v') ->
  forall x, sweep_from pc x -> x < size ->
    exists v1 v2, marked v1 /\
      VerifyInstruction m code_item dex_file allow (inst_at x) x v1 = Some (true, v2).
Proof.
  revert pc v. induction fuel as [|fuel IH]; intros pc v Hm H x Hs Hx; [done|].
  cbn [VerifyInstructions_loop] in H. destruct (Z.ltb_spec pc size) as [Hlt|Hge].
  - apply V_bind_inv in H as (ok & v1 & Hv & H). destruct ok; [|done]. cbn [negb] in H.
    apply V_bind_inv in H as (u & v2 & Hf & H). apply V_bind_inv in H as (k & v3 & Hk & H).
    apply lift_inv in Hk as [Hk ->].
    inversion Hs as [|? k' ? ? Hk' Hs']; subst; [eauto|].
    rewrite Hk in Hk'. injection Hk' as <-. apply (IH (pc + k) v2); try done.
    eapply keeps_marked; [apply keeps_flag_safepoints|exact Hf|].
    by eapply keeps_marked; [apply keeps_VerifyInstruction|exact Hv|].
  - inversion Hs; subst; lia.
Qed.

(** The addresses of the encoded handler lists. *)
Fixpoint skip_handlers (fuel : nat) (it : CatchHandlerIterator) : option CatchHandlerIterator :=
  match fuel with
  | O => None
  | S fuel => if HasNext it then skip_handlers fuel (Next m it) else Some it
  end.
Fixpoint lists_from (n : nat) (ptr : Z) : list Z :=
  match n with
  | O => []
  | S n =>
      ptr :: match skip_handlers (handlers_fuel (Init_data m ptr)) (Init_data m ptr) with
             | Some it => lists_from n (current_data_ it)
             | None => []
             end
  end.
Definition handler_lists : list Z :=
  let '(n, ptr) := DecodeUnsignedLeb128 m (GetCatchHandlerData code_item 0) in
  lists_from (Z.to_nat n) ptr.

Lemma scan_handlers_passed fuel it v it' v' :
  marked v -> scan_handlers m code_item fuel it v = Some (Some it', v') ->
  skip_handlers fuel it = Some it' /\ forall x, handler_to m it x -> instruction_start x.
Proof.
  revert it v. induction fuel as [|fuel IH]; intros it v Hm H; [done|].
  cbn [scan_handlers] in H. cbn [skip_handlers]. destruct (HasNext it) eqn:Eh.
  - apply V_bind_inv in H as (fl & v1 & Hg & H). apply get_flags_inv in Hg as (-> & H0 & Hl).
    destruct (IsOpcode fl) eqn:Eo; [cbn [negb] in H|done].
    apply V_bind_inv in H as (ok & v2 & Hc & H). destruct ok; [cbn [negb] in H|done].
    apply V_bind_inv in H as ([] & v3 & Hu & H).
    assert (marked v3) as Hm3.
    { eapply keeps_marked; [apply keeps_update, SetBranchTarget_sets|exact Hu|].
      by eapply keeps_marked; [apply keeps_CheckNotMoveResult|exact Hc|]. }
    destruct (IH _ _ Hm3 H) as [E Hr]. split; [done|]. intros x Hx.
    inversion Hx; subst; [exact (marked_start _ _ _ Hm H0 Hl Eo)|by apply Hr].
  - injection H as <- <-. split; [done|]. intros x Hx. by destruct Hx; rewrite Eh in *.
Qed.

Lemma scan_handler_lists_passed n ptr v v' :
  marked v -> scan_handler_lists m code_item n ptr v = Some (true, v') ->
  forall p, p ∈ lists_from n ptr -> forall x, handler_to m (Init_data m p) x -> instruction_start x.
Proof.
  revert ptr v. induction n as [|n IH]; intros ptr v Hm H p Hp; [by apply not_elem_of_nil in Hp|].
  cbn [scan_handler_lists] in H. apply V_bind_inv in H as ([it|] & v1 & Hs & H); [|done].
  destruct (scan_handlers_passed _ _ _ _ _ Hm Hs) as [E Hr]. cbn [lists_from] in Hp.
  apply elem_of_cons in Hp as [->|Hp]; [done|]. rewrite E in Hp.
  eapply IH; [|done..]. by eapply keeps_marked; [apply keeps_scan_handlers|exact Hs|].
Qed.

Lemma VerifyStatic_passed allow v v' :
  0 <= size -> VerifyStatic m code_item dex_file allow v = Some (true, v') ->
  sweep size /\
  (forall x, instruction_start x ->
     exists v1 v2, marked v1 /\
       VerifyInstruction m code_item dex_file allow (inst_at x) x v1 = Some (true, v2)) /\
  (tries_size_ code_item <> 0 -> forall p, p ∈ handler_lists ->
     forall x, handler_to m (Init_data m p) x -> instruction_start x).
Proof.
  intros Hsz H. unfold VerifyStatic in H. apply reject_if_inv in H as [_ H].
  apply V_bind_inv in H as ([] & v0 & Ha & H). injection Ha as <-.
  apply V_bind_inv in H as (r1 & v1 & Hc & H). apply V_bind_inv in H as (r2 & v2 & Hs & H).
  apply and_also_inv in H as [-> H]. apply and_also_inv in Hs as [-> Hs].
  destruct (compute_widths_marks _ (eq_refl : insn_flags_ (with_flags v _) = _) Hsz)
    as (ok & v1' & E & Hok & _).
  rewrite E in Hc. injection Hc as -> ->. destruct (Hok eq_refl) as [Hm1 Hsw]. split; [done|].
  assert (marked v2) as Hm2 by (by eapply keeps_marked; [apply keeps_ScanTryCatchBlocks|exact Hs|]). split.
  - unfold VerifyInstructions in H. apply V_bind_inv in H as ([] & v3 & Hu1 & H).
    apply V_bind_inv in H as ([] & v4 & Hu2 & H). intros x [Hx1 Hx2].
    eapply VerifyInstructions_loop_passed; [|exact H|done|lia].
    eapply keeps_marked; [apply keeps_update, SetCompileTimeInfoPoint_sets|exact Hu2|].
    by eapply keeps_marked; [apply keeps_update, SetBranchTarget_sets|exact Hu1|].
  - intros Ht. unfold ScanTryCatchBlocks in Hs.
    rewrite (proj2 (Z.eqb_neq _ 0)) in Hs by done.
    apply V_bind_inv in Hs as (ok & v3 & Hf & Hs). destruct ok; [|done].
    unfold handler_lists. destruct (DecodeUnsignedLeb128 _ _) as [n ptr].
    eapply scan_handler_lists_passed; [|exact Hs].
    eapply keeps_marked; [apply keeps_for_each, keeps_scan_try|exact Hf|done].
Qed.

(** ** The flags the data flow pass starts from *)

Lemma sweep_ge p x : sweep_from p x -> p <= x.
Proof.
  induction 1 as [|p k x _ Hk _ IH]; [lia|].
  destruct (SizeInCodeUnits_pos (inst_at p) (inst_at_units p)) as (k' & E & ?).
  rewrite E in Hk. injection Hk as ->. lia.
Qed.

Lemma sweep_split p a b : sweep_from p a -> sweep_from p b -> a <= b -> sweep_from a b.
Proof.
  induction 1 as [|p k a _ Hk Ha IH]; [done|]. intros Hb Hle.
  inversion Hb as [|? k' ? _ Hk' Hb']; subst.
  - apply sweep_ge in Ha. destruct (SizeInCodeUnits_pos (inst_at b) (inst_at_units b)) as (k' & E & ?).
    rewrite E in Hk. injection Hk as ->. lia.
  - rewrite Hk in Hk'. injection Hk' as <-. by apply IH.
Qed.

(** No instruction is visited or changed. *)
Definition unvisited (v : VState) : Prop :=
  Forall (fun f => TestFlag kVisited f = false /\ TestFlag kChanged f = false) (insn_flags_ v).

Lemma later_unvisited v v' : later v v' -> unvisited v -> unvisited v'.
Proof.
  intros H Hv. apply Forall_lookup. intros i f' Hf'.
  destruct (Forall2_lookup_r _ _ _ _ _ H Hf') as (f & Hf & _ & -> & -> & _).
  by apply (Forall_lookup_1 _ _ _ _ Hv Hf).
Qed.

Lemma ComputeWidths_loop_unvisited fuel pc a b v r v' :
  ComputeWidths_loop m code_item fuel pc a b v = Some (r, v') -> unvisited v -> unvisited v'.
Proof.
  revert pc a b v. induction fuel as [|fuel IH]; intros pc a b v H Hv; [done|].
  cbn [ComputeWidths_loop] in H. destruct (pc <? size); [|by injection H as _ <-].
  apply V_bind_inv in H as (u & v1 & Hc & H). injection Hc as _ <-.
  apply V_bind_inv in H as (k & v2 & Hk & H). apply lift_inv in Hk as [_ ->].
  apply V_bind_inv in H as (u' & v3 & Hu & H). eapply IH; [exact H|]. unfold update_flags in Hu.
  destruct (_ && _) in Hu; [|done]. injection Hu as _ <-. apply Forall_alter; [done|].
  intros f _ [Hf1 Hf2]. unfold SetIsOpcode.
  rewrite !TestFlag_SetFlag by (unfold kOpcode, kVisited, kChanged; lia). by rewrite Hf1, Hf2.
Qed.

(** A flag that is set at a unit of the code. *)
Definition flag_at (v : VState) (bit pc : Z) : Prop :=
  0 <= pc /\ exists f, insn_flags_ v !! Z.to_nat pc = Some f /\ TestFlag bit f = true.

Lemma later_flag_at v v' bit pc : 0 <= bit < 8 -> later v v' -> flag_at v bit pc -> flag_at v' bit pc.
Proof.
  intros Hb H (Hpc & f & Hf & Ht). split; [done|].
  destruct (Forall2_lookup_l _ _ _ _ _ H Hf) as (f' & Hf' & _ & _ & _ & Hk). eauto.
Qed.

Lemma update_flags_flag_at i bit v u v' :
  0 <= bit < 8 -> update_flags i (SetFlag bit) v = Some (u, v') -> flag_at v' bit i.
Proof.
  intros Hb. unfold update_flags. destruct (_ && _) eqn:E; [|done]. intros [= _ <-]. bools.
  split; [done|]. cbn. rewrite list_lookup_alter_eq.
  destruct (lookup_lt_is_Some_2 (insn_flags_ v) (Z.to_nat i)) as [f Hf]; [lia|]. rewrite Hf.
  eexists. split; [done|]. rewrite TestFlag_SetFlag by lia. by rewrite Z.eqb_refl, orb_true_r.
Qed.

Lemma mark_in_try_flag_at fuel pc e v u v' x :
  mark_in_try m code_item fuel pc e v = Some (u, v') -> sweep_from pc x -> x < e ->
  flag_at v' kInTry x.
Proof.
  revert pc v. induction fuel as [|fuel IH]; intros pc v H Hs Hx; [done|].
  cbn [mark_in_try] in H. pose proof (sweep_ge _ _ Hs).
  rewrite (proj2 (Z.ltb_lt pc e)) in H by lia.
  apply V_bind_inv in H as ([] & v1 & Hu & H). apply V_bind_inv in H as (k & v2 & Hk & H).
  apply lift_inv in Hk as [Hk ->]. inversion Hs as [|? k' ? _ Hk' Hs']; subst.
  - eapply later_flag_at; [by unfold kInTry|exact (keeps_mark_in_try _ _ _ _ _ _ H)|].
    by eapply update_flags_flag_at, Hu.
  - rewrite Hk in Hk'. injection Hk' as <-. by eapply IH.
Qed.

Lemma keeps_VerifyInstructions allow : keeps (VerifyInstructions m code_item dex_file allow).
Proof.
  unfold VerifyInstructions. keep.
  generalize 0. induction (S (Z.to_nat size)) as [|fuel IH]; intros pc; simpl; keep;
    auto using keeps_VerifyInstruction, keeps_flag_safepoints.
Qed.

(** The units of a try block are flagged. *)
Lemma ScanTryCatchBlocks_flag_at v v' i pc :
  marked v -> ScanTryCatchBlocks m code_item v = Some (true, v') ->
  0 <= i < tries_size_ code_item -> instruction_start pc -> in_try m code_item i pc ->
  flag_at v' kInTry pc.
Proof.
  intros Hm H Hi [Hpc Hr] Hc. unfold ScanTryCatchBlocks in H.
  rewrite (proj2 (Z.eqb_neq _ 0)) in H by lia.
  apply V_bind_inv in H as (ok & v1 & Hf & H). destruct ok; [|done].
  destruct (for_each_later _ _ _ _ _ Hf (fun i => keeps_scan_try i) i) as (u1 & u2 & Hu1 & Ht & Hu2); [lia|].
  assert (later v1 v') as Hl.
  { destruct (DecodeUnsignedLeb128 _ _). exact (keeps_scan_handler_lists _ _ _ _ _ H). }
  eapply later_flag_at; [by unfold kInTry|etrans; [exact Hu2|exact Hl]|].
  unfold scan_try in Ht. unfold in_try in Hc. cbv zeta in Ht, Hc.
  set (t := read_TryItem _ _) in *. apply reject_if_inv in Ht as [_ Ht].
  apply V_bind_inv in Ht as (fl & u3 & Hg & Ht). apply get_flags_inv in Hg as (-> & H0 & Hl0).
  apply reject_if_inv in Ht as [Ho Ht]. apply negb_false_iff in Ho.
  apply V_bind_inv in Ht as ([] & u4 & Hmk & Ht). injection Ht as <-.
  pose proof (marked_start _ _ _ (later_marked _ _ Hu1 Hm) H0 Hl0 Ho) as [Hs _].
  eapply mark_in_try_flag_at; [exact Hmk| |lia]. by eapply sweep_split; [exact Hs|done|lia].
Qed.

Lemma VerifyStatic_flags allow v v' :
  0 <= size -> VerifyStatic m code_item dex_file allow v = Some (true, v') ->
  marked v' /\ unvisited v' /\
  (forall i pc, 0 <= i < tries_size_ code_item -> instruction_start pc -> in_try m code_item i pc ->
     flag_at v' kInTry pc).
Proof.
  intros Hsz H. unfold VerifyStatic in H. apply reject_if_inv in H as [_ H].
  apply V_bind_inv in H as ([] & v0 & Ha & H). injection Ha as <-.
  apply V_bind_inv in H as (r1 & v1 & Hc & H). apply V_bind_inv in H as (r2 & v2 & Hs & H).
  apply and_also_inv in H as [-> H]. apply and_also_inv in Hs as [-> Hs].
  pose proof (keeps_ScanTryCatchBlocks _ _ _ Hs) as L1. pose proof (keeps_VerifyInstructions _ _ _ _ H) as L2.
  destruct (compute_widths_marks _ (eq_refl : insn_flags_ (with_flags v _) = _) Hsz)
    as (ok & v1' & E & Hok & _).
  pose proof Hc as Hc'. rewrite E in Hc'. injection Hc' as -> ->. destruct (Hok eq_refl) as [Hm1 _].
  split; [|split].
  - by eapply later_marked, later_marked.
  - eapply later_unvisited; [exact L2|]. eapply later_unvisited; [exact L1|].
    unfold ComputeWidthsAndCountOps in Hc. apply V_bind_inv in Hc as ([[e x] y] & v3 & Hw & Hc).
    assert (unvisited v3) as H3.
    { eapply ComputeWidths_loop_unvisited; [exact Hw|]. apply Forall_replicate. done. }
    destruct (negb _); [done|]. by injection Hc as <-.
  - intros i pc Hi Hpc Hcov. eapply later_flag_at; [by unfold kInTry|exact L2|].
    by eapply ScanTryCatchBlocks_flag_at.
Qed.
End Facts.

(** ** What a passed instruction satisfies *)

(** Register operands are inside a frame of [n] registers, wide ones with their
    second half. *)
Definition register_checks (n : Z) (inst : Instruction) : Prop :=
  (GetVerifyTypeArgumentA inst = kVerifyRegA -> u32 (VRegA inst) < n) /\
  (GetVerifyTypeArgumentA inst = kVerifyRegAWide -> u32 (u32 (VRegA inst) + 1) < n) /\
  (forall b, VRegB inst = Some b ->
     (GetVerifyTypeArgumentB inst = kVerifyRegB -> u32 b < n) /\
     (GetVerifyTypeArgumentB inst = kVerifyRegBWide -> u32 (u32 b + 1) < n)) /\
  (forall c, VRegC inst = Some c ->
     (GetVerifyTypeArgumentC inst = kVerifyRegC -> u32 c < n) /\
     (GetVerifyTypeArgumentC inst = kVerifyRegCWide -> u32 (u32 c + 1) < n)).

Section Passed.
Context (m : mem) (code_item : CodeItem) (dex_file : DexHeader).
Context (allow : bool) (inst : Instruction) (pc : Z) (v v' : VState).
Hypothesis Hpassed : VerifyInstruction m code_item dex_file allow inst pc v = Some (true, v').

(** The checks that ran, each with the state it started from. *)
Lemma VerifyInstruction_parts :
  exists va vb vc vh,
    check_argument_a code_item inst v = Some (true, va) /\
    check_argument_b code_item dex_file inst va = Some (true, vb) /\
    check_argument_c code_item dex_file inst vb = Some (true, vc) /\
    check_argument_h dex_file inst vc = Some (true, vh) /\
    check_extra m code_item inst pc true vh = Some (true, v').
Proof.
  unfold VerifyInstruction, kHaveExperimentalInstructions in Hpassed. cbn [andb] in Hpassed.
  apply V_bind_inv in Hpassed as (ra & va & Ha & H). apply V_bind_inv in H as (rb & vb & Hb & H).
  apply V_bind_inv in H as (rc & vc & Hc & H). apply V_bind_inv in H as (rh & vh & Hh & H).
  apply V_bind_inv in H as (re & ve & He & H).
  destruct (_ && _); [done|]. apply V_ret_inv in H as [<- ->].
  assert (rh = true) as -> .
  { destruct rh; [done|]. unfold check_extra, and_also, reject_if, fail_hard in He.
    repeat (match type of He with context [if ?b then _ else _] => destruct b end; try done);
      apply V_bind_inv in He as (? & ? & _ & He); done. }
  apply and_also_inv in Hh as [-> Hh]. apply and_also_inv in Hc as [-> Hc].
  apply and_also_inv in Hb as [-> Hb]. by exists va, vb, vc, vh.
Qed.

Lemma check_register_passed n idx v1 v2 :
  reject_if (n <=? u32 idx) (mret true) v1 = Some (true, v2) -> u32 idx < n.
Proof. intros H. apply reject_if_inv in H as [H _]. bools. lia. Qed.

Lemma VerifyInstruction_registers : register_checks (registers_size code_item) inst.
Proof.
  destruct VerifyInstruction_parts as (va & vb & vc & vh & Ha & Hb & Hc & _ & _).
  unfold check_argument_a, check_argument_b, check_argument_c in *.
  split; [|split; [|split; [intros b Eb; rewrite Eb in Hb|intros c Ec; rewrite Ec in Hc]]].
  - intros E. rewrite E in Ha. by apply check_register_passed in Ha.
  - intros E. rewrite E in Ha. by apply check_register_passed in Ha.
  - split; intros E; rewrite E in Hb; by apply check_register_passed in Hb.
  - split; intros E; rewrite E in Hc; by apply check_register_passed in Hc.
Qed.

Lemma VerifyInstruction_known : GetVerifyExtraFlags inst <> kVerifyError.
Proof.
  destruct VerifyInstruction_parts as (va & vb & vc & vh & _ & _ & _ & _ & H).
  intros E. unfold check_extra in H. by rewrite E in H.
Qed.

Hypothesis Hmarked : marked m code_item v.

Lemma marked_extra :
  exists vh, marked m code_item vh /\ check_extra m code_item inst pc true vh = Some (true, v').
Proof.
  destruct VerifyInstruction_parts as (va & vb & vc & vh & Ha & Hb & Hc & Hh & He).
  exists vh. split; [|done].
  eapply keeps_marked; [apply keeps_check_argument_h|exact Hh|].
  eapply keeps_marked; [apply keeps_check_argument_c|exact Hc|].
  eapply keeps_marked; [apply keeps_check_argument_b|exact Hb|].
  by eapply keeps_marked; [apply keeps_check_argument_a|exact Ha|].
Qed.

Hypothesis Hpc : 0 <= pc < insns_size code_item.
Hypothesis Hsize : in_u 32 (insns_size code_item).

(** A branch goes to an instruction start. *)
Lemma VerifyInstruction_branch :
  GetVerifyExtraFlags inst = kVerifyBranchTarget ->
  exists off c s, GetBranchOffset m code_item pc = Some (off, c, s) /\
    instruction_start m code_item (pc + off).
Proof.
  intros E. destruct marked_extra as (vh & Hm & H). unfold check_extra in H. rewrite E in H.
  change (CheckBranchTarget m code_item pc vh = Some (true, v')) in H.
  unfold CheckBranchTarget in H.
  destruct (GetBranchOffset m code_item pc) as [[[off c] s]|]; [|done]. exists off, c, s.
  split; [done|]. apply reject_if_inv in H as [_ H]. apply reject_if_inv in H as [H1 H].
  apply reject_if_inv in H as [H2 H]. apply V_bind_inv in H as (fl & v1 & Hg & H).
  apply get_flags_inv in Hg as (-> & Hge & Hl). apply reject_if_inv in H as [H3 _].
  rewrite negb_false_iff in H1, H3. apply Z.eqb_eq in H1. bools.
  assert (s32 (pc + off) = pc + off) as Eo.
  { unfold in_u in Hsize. revert H1 Hge. wrap_unfold. clear. intros. zdiv. }
  rewrite Eo in *. by eapply marked_start.
Qed.

Lemma check_target_passed switch_insns targets_offset targ v1 v2 :
  marked m code_item v1 ->
  check_target code_item pc switch_insns targets_offset targ v1 = Some (true, v2) ->
  instruction_start m code_item (pc + table_int switch_insns (targets_offset + targ * 2)).
Proof.
  intros Hm H. unfold check_target in H.
  assert (in_s 32 (table_int switch_insns (targets_offset + targ * 2))) as Ht
    by (apply wrap_s_range; lia).
  set (off := table_int _ _) in *. apply reject_if_inv in H as [H1 H].
  apply V_bind_inv in H as (fl & v3 & Hg & H). apply get_flags_inv in Hg as (-> & Hge & Hl).
  apply reject_if_inv in H as [H2 _]. rewrite negb_false_iff in H2.
  apply orb_false_elim in H1 as [_ H1]. apply Z.leb_gt in H1.
  assert (s32 (pc + off) = pc + off) as Eo.
  { unfold in_u in Hsize. unfold in_s in Ht. revert Hsize Ht H1 Hge Hpc.
    generalize (insns_size code_item). wrap_unfold. clear. intros. zdiv. }
  rewrite Eo in *. by eapply marked_start.
Qed.

(** The number of cases and the place of the targets in a switch payload. *)
Definition switch_count (inst : Instruction) : Z :=
  Fetch16 (RelativeAt inst (payload_offset inst)) 1.
Definition switch_targets_offset (inst : Instruction) : Z :=
  if Fetch16 inst 0 &&& 0xff =? PACKED_SWITCH then 4 else 2 + 2 * switch_count inst.

(** Every case of a switch goes to an instruction start, and the keys are those
    the search of the interpreter needs. *)
Lemma VerifyInstruction_switch :
  inst = StaticVerifier.inst_at m code_item pc ->
  GetVerifyExtraFlags inst = kVerifySwitchTargets ->
  (forall targ, 0 <= targ < switch_count inst ->
     instruction_start m code_item
       (pc + table_int (RelativeAt inst (payload_offset inst))
               (switch_targets_offset inst + targ * 2))) /\
  check_keys (Fetch16 inst 0 &&& 0xff =? PACKED_SWITCH) (RelativeAt inst (payload_offset inst))
    (switch_count inst) = true.
Proof.
  intros Ei E. destruct marked_extra as (vh & Hm & H). unfold check_extra in H. rewrite E in H.
  change (CheckSwitchTargets m code_item pc vh = Some (true, v')) in H.
  unfold CheckSwitchTargets in H. rewrite <- Ei in H.
  apply reject_if_inv in H as [_ H]. apply reject_if_inv in H as [_ H].
  apply V_bind_inv in H as (fl & v1 & Hg & H). apply get_flags_inv in Hg as (-> & _ & _).
  do 3 apply reject_if_inv in H as [_ H]. apply reject_if_inv in H as [Hkeys H].
  rewrite negb_false_iff in Hkeys. split; [|exact Hkeys].
  intros targ Ht.
  destruct (for_each_later _ _ _ _ _ H (fun i => keeps_check_target _ _ _ _ _) targ)
    as (u1 & u2 & Hu & Hb & _); [unfold switch_count in Ht; lia|].
  eapply check_target_passed; [by eapply later_marked|done].
Qed.
End Passed.

(** The verifier and the interpreter read branch offsets and switch payloads in
    different ways; they agree. *)

Lemma lor_units a b : in_u 16 a -> in_u 16 b -> a ||| u32 (b << 16) = a ||| (b << 16).
Proof.
  intros Ha Hb. f_equal. apply wrap_u_id. unfold in_u in *.
  rewrite Z.shiftl_mul_pow2 by lia. pows. lia.
Qed.

Lemma payload_offset_31t inst :
  (forall i, in_u 16 (inst i)) -> payload_offset inst = VRegB_31t inst.
Proof.
  intros Hu. unfold payload_offset, VRegB_31t, Fetch32, Fetch16. change (1 + 1) with 2.
  by rewrite lor_units.
Qed.

Lemma table_int_Fetch32 inst off i :
  (forall i, in_u 16 (inst i)) ->
  table_int (RelativeAt inst off) i = s32 (Fetch32 inst (off + i)).
Proof.
  intros Hu. unfold table_int, Fetch32, Fetch16, RelativeAt. rewrite lor_units by done.
  by rewrite Z.add_assoc.
Qed.

Definition branch_format_ok (op : Z) : bool :=
  implb (flag_set (FlagsOf op) kBranch)
    (match FormatOf op with
     | k10t => op =? GOTO
     | k20t => op =? GOTO_16
     | k30t => op =? GOTO_32
     | k22t => (IF_EQ <=? op) && (op <=? IF_LE)
     | k21t => (IF_EQZ <=? op) && (op <=? IF_LEZ)
     | _ => false
     end).

Lemma branch_formats inst : branch_format_ok (Opcode inst) = true.
Proof. apply (opcode_all branch_format_ok); [vm_compute; reflexivity|apply Opcode_range]. Qed.

(** [((int16_t) *insns) >> 8] is the sign-extended operand byte. *)
Lemma goto_offset u : in_u 16 u -> s16 u >> 8 = s8 (u8 (u >> 8)).
Proof. intros Hu. rewrite !Z.shiftr_div_pow2 by lia. unfold in_u in Hu. wraps. Qed.

Lemma if_ops op : IF_EQ <= op <= IF_LEZ ->
  (op =? IF_EQ) || (op =? IF_NE) || (op =? IF_LT) || (op =? IF_GE) || (op =? IF_GT)
    || (op =? IF_LE) || (op =? IF_EQZ) || (op =? IF_NEZ) || (op =? IF_LTZ)
    || (op =? IF_GEZ) || (op =? IF_GTZ) || (op =? IF_LEZ) = true.
Proof.
  intros H. cbv [IF_EQ IF_NE IF_LT IF_GE IF_GT IF_LE IF_EQZ IF_NEZ IF_LTZ IF_GEZ IF_GTZ IF_LEZ] in *.
  rewrite !orb_true_iff, !Z.eqb_eq. lia.
Qed.

Lemma if_ops_not_goto op : IF_EQ <= op <= IF_LEZ ->
  (op =? GOTO) = false /\ (op =? GOTO_32) = false /\ (op =? GOTO_16) = false.
Proof. cbv [IF_EQ IF_LEZ GOTO GOTO_16 GOTO_32]. intros. rewrite !Z.eqb_neq. lia. Qed.

Lemma GetBranchOffset_target m code_item pc off c s :
  bytes_ok m -> let inst := StaticVerifier.inst_at m code_item pc in
  IsBranch inst = true -> GetBranchOffset m code_item pc = Some (off, c, s) ->
  GetTargetOffset inst = Some off.
Proof.
  intros Hm inst Hb Hg. unfold GetBranchOffset in Hg. fold inst in Hg.
  pose proof (inst_at_units m code_item Hm pc) as Hu. fold inst in Hu.
  pose proof (branch_formats inst) as Hf. unfold branch_format_ok in Hf. unfold IsBranch in Hb.
  rewrite Hb in Hf. cbn [implb] in Hf. unfold GetTargetOffset.
  change (Fetch16 inst 0 &&& 0xff) with (Opcode inst) in Hg.
  destruct (FormatOf (Opcode inst)); try done; rewrite ?andb_true_iff, ?Z.leb_le, ?Z.eqb_eq in Hf;
    first
      [ rewrite Hf in Hg; cbn in Hg; injection Hg as <- <- <-; f_equal;
        first [reflexivity | by rewrite goto_offset]
      | assert (IF_EQ <= Opcode inst <= IF_LEZ) as Hr
          by (cbv [IF_EQ IF_LE IF_EQZ IF_LEZ] in *; lia);
        destruct (if_ops_not_goto _ Hr) as (E1 & E2 & E3);
        rewrite E1, E2, E3, (if_ops _ Hr) in Hg; by injection Hg as <- <- <- ].
Qed.

(** ** The claims about the static pass *)

(** The sweep of [ComputeWidthsAndCountOps] terminates on every code item;
    it accepts exactly when the instructions fill the code array, and then the
    flag [IsOpcode] marks exactly the first unit of each instruction. *)
Theorem compute_widths_correct m code_item v :
  bytes_ok m -> 0 <= insns_size code_item ->
  insn_flags_ v = replicate (Z.to_nat (insns_size code_item)) 0 ->
  exists ok v', ComputeWidthsAndCountOps m code_item v = Some (ok, v') /\
    (ok = true -> marked m code_item v' /\ sweep_from m code_item 0 (insns_size code_item)) /\
    (ok = false -> exists e, sweep_from m code_item 0 e /\ insns_size code_item < e).
Proof. intros. by apply compute_widths_marks. Qed.

(** [const/16 v0, #1] in one unit: the sweep runs past the end. *)
Lemma compute_widths_correct_witness :
  let m : mem := store_list (fun _ => 0) 0 [0x13; 0; 1; 0] in
  let item := {| registers_size_ := 1; ins_size_ := 0; outs_size_ := 0; tries_size_ := 0;
                 debug_info_off_ := 0; insns_size_in_code_units_ := 1; insns_ := 0 |} in
  exists v', ComputeWidthsAndCountOps m item (with_flags initial_state [0]) = Some (false, v') /\
    exists e, sweep_from m item 0 e /\ 1 < e.
Proof.
  intros m item.
  destruct (compute_widths_correct m item (with_flags initial_state [0])) as (ok & v' & E & _ & H).
  - apply bytes_ok_store_list; [intros a|repeat constructor]; unfold in_u; pows; lia.
  - done.
  - reflexivity.
  - destruct ok; [vm_compute in E; discriminate|]. exists v'. by split; [|apply H].
Defined.

(** The operand checks other than those on registers. *)
Definition index_checks (dex_file : DexHeader) (inst : Instruction) : Prop :=
  (forall b, VRegB inst = Some b ->
     (GetVerifyTypeArgumentB inst = kVerifyRegBField -> u32 b < field_ids_size_ dex_file) /\
     (GetVerifyTypeArgumentB inst = kVerifyRegBMethod -> u32 b < method_ids_size_ dex_file) /\
     (GetVerifyTypeArgumentB inst = kVerifyRegBString -> u32 b < string_ids_size_ dex_file) /\
     (GetVerifyTypeArgumentB inst = kVerifyRegBType -> TypeIndex b < type_ids_size_ dex_file) /\
     (GetVerifyTypeArgumentB inst = kVerifyRegBNewInstance ->
        TypeIndex b < type_ids_size_ dex_file)) /\
  (forall c, VRegC inst = Some c ->
     (GetVerifyTypeArgumentC inst = kVerifyRegCField -> u32 c < field_ids_size_ dex_file) /\
     (GetVerifyTypeArgumentC inst = kVerifyRegCType -> TypeIndex c < type_ids_size_ dex_file) /\
     (GetVerifyTypeArgumentC inst = kVerifyRegCNewArray ->
        TypeIndex c < type_ids_size_ dex_file /\
        1 <= count_brackets (StringByTypeIdx dex_file (TypeIndex c)) <= 255)) /\
  (forall h, VRegH inst = Some h -> GetVerifyTypeArgumentH inst = kVerifyRegHPrototype ->
     u32 h < proto_ids_size_ dex_file).

(** The registers an invoke or a filled-new-array names. *)
Definition argument_checks (n : Z) (inst : Instruction) : Prop :=
  (GetVerifyExtraFlags inst = kVerifyVarArg \/ GetVerifyExtraFlags inst = kVerifyVarArgNonZero ->
     u32 (VRegA inst) <= kMaxVarArgRegs /\
     Forall (fun r => r < n) (take (Z.to_nat (u32 (VRegA inst))) (GetVarArgs inst))) /\
  (GetVerifyExtraFlags inst = kVerifyVarArgRange \/
   GetVerifyExtraFlags inst = kVerifyVarArgRangeNonZero ->
     forall c, VRegC inst = Some c -> u32 (VRegA inst + c) <= n).

Section PassedOperands.
Context (m : mem) (code_item : CodeItem) (dex_file : DexHeader).
Context (allow : bool) (inst : Instruction) (pc : Z) (v v' : VState).
Hypothesis Hpassed : VerifyInstruction m code_item dex_file allow inst pc v = Some (true, v').

Lemma count_brackets_nonneg s : 0 <= count_brackets s.
Proof. induction s; simpl; [lia|]. case_if; lia. Qed.

Lemma VerifyInstruction_indices : index_checks dex_file inst.
Proof.
  destruct (VerifyInstruction_parts _ _ _ _ _ _ _ _ Hpassed)
    as (va & vb & vc & vh & _ & Hb & Hc & Hh & _).
  unfold check_argument_b, check_argument_c, check_argument_h in *.
  split; [intros b Eb; rewrite Eb in Hb|split; [intros c Ec; rewrite Ec in Hc|]].
  - split_and!; intros E; rewrite E in Hb; apply reject_if_inv in Hb as [Hb _]; bools; lia.
  - split_and!; intros E; rewrite E in Hc; apply reject_if_inv in Hc as [Hb' Hc]; bools; try lia.
    apply reject_if_inv in Hc as [H1 Hc]. apply reject_if_inv in Hc as [H2 _]. bools.
    pose proof (count_brackets_nonneg (StringByTypeIdx dex_file (TypeIndex c))). lia.
  - intros h Eh E. rewrite Eh, E in Hh. apply reject_if_inv in Hh as [Hh _]. bools. lia.
Qed.

Lemma CheckVarArgRegs_passed k l v1 v2 :
  CheckVarArgRegs code_item k l v1 = Some (true, v2) ->
  Forall (fun r => r < registers_size code_item) (take k l).
Proof.
  revert l. induction k as [|k IH]; intros [|a l] H; simpl in *; try done; try constructor.
  - apply reject_if_inv in H as [H _]. bools. lia.
  - apply reject_if_inv in H as [_ H]. by apply IH.
Qed.

Lemma VerifyInstruction_arguments : argument_checks (registers_size code_item) inst.
Proof.
  destruct (VerifyInstruction_parts _ _ _ _ _ _ _ _ Hpassed)
    as (va & vb & vc & vh & _ & _ & _ & _ & H).
  unfold check_extra in H. split.
  - intros [E|E]; rewrite E in H; apply reject_if_inv in H as [Hr H]; bools;
      (split; [unfold kMaxVarArgRegs in *; lia|]); by apply CheckVarArgRegs_passed in H.
  - intros [E|E] c Ec; rewrite E, Ec in H; apply reject_if_inv in H as [_ H];
      apply V_bind_inv in H as (c' & v1 & Hc & H); apply lift_inv in Hc as [[= <-] ->];
      apply reject_if_inv in H as [H _]; bools; lia.
Qed.
End PassedOperands.


