(* ===== verification/VerifierFailures.v ===== *)
(** * How the method verifier reports what it rejects

    The checks of [MethodVerifier::Verify] in front of the static pass, and that every
    check up to the data flow analysis records a hard failure exactly when it returns
    false, as the [CHECK]s of [MethodVerifier::VerifyMethod] expect. *)
From Stdlib Require Import String.
From S2P Require Import Prelude BitUtils Leb128 DexInstructionList DexInstruction ExceptionTable.
From S2P Require Import StaticVerifier StaticVerifierFacts.

(** ** Access flags *)

Definition kAccPublic : Z := 0x0001.
Definition kAccPrivate : Z := 0x0002.
Definition kAccProtected : Z := 0x0004.
Definition kAccStatic : Z := 0x0008.
Definition kAccFinal : Z := 0x0010.
Definition kAccSynchronized : Z := 0x0020.
Definition kAccSuper : Z := 0x0020.
Definition kAccNative : Z := 0x0100.
Definition kAccInterface : Z := 0x0200.
Definition kAccAbstract : Z := 0x0400.
Definition kAccStrict : Z := 0x0800.
Definition kAccSynthetic : Z := 0x1000.
Definition kAccAnnotation : Z := 0x2000.
Definition kAccEnum : Z := 0x4000.
Definition kAccConstructor : Z := 0x00010000.

Definition kAccValidClassFlags : Z :=
  kAccPublic ||| kAccFinal ||| kAccSuper ||| kAccAbstract ||| kAccSynthetic ||| kAccEnum.
Definition kAccValidInterfaceFlags : Z :=
  kAccPublic ||| kAccInterface ||| kAccAbstract ||| kAccSynthetic ||| kAccAnnotation.

(** [(flags & mask) != 0] *)
Definition any_flag (flags mask : Z) : bool := negb (flags &&& mask =? 0).

(** [ClassDef::GetJavaAccessFlags] *)
Definition GetJavaAccessFlags (access_flags : Z) : Z :=
  if any_flag access_flags kAccInterface
  then access_flags &&& kAccValidInterfaceFlags
  else access_flags &&& kAccValidClassFlags.

Definition kDefaultMethodsVersion : Z := 37.

(** The method under verification. *)
Record MethodInfo := {
  method_name : string;
  method_access_flags_ : Z;
  class_access_flags : Z;
  dex_version : Z;
  code_item_ : option CodeItem
}.

(** ** The checks before the static pass *)

Section Verify.
Context (kIsDebugBuild : bool) (info : MethodInfo).

Definition static_constructor_by_name : bool := String.eqb (method_name info) "<clinit>".
Definition constructor_by_name : bool :=
  String.eqb (method_name info) "<init>" || static_constructor_by_name.
Definition has (mask : Z) : bool := any_flag (method_access_flags_ info) mask.

(** [is_constructor_] after the first check. *)
Definition IsConstructor : bool := has kAccConstructor || constructor_by_name.
Definition IsStatic : bool := has kAccStatic.
Definition IsInstanceConstructor : bool := IsConstructor && negb IsStatic.
Definition in_interface : bool := any_flag (GetJavaAccessFlags (class_access_flags info)) kAccInterface.

(** [if (kIsDebugBuild && bad) { Fail(...); return false; }] *)
Definition reject_in_debug_if (bad : bool) (rest : V bool) : V bool :=
  reject_if (kIsDebugBuild && bad) rest.

Definition access_mod_count : Z :=
  Z.b2z (has kAccPublic) + Z.b2z (has kAccProtected) + Z.b2z (has kAccPrivate).

Definition check_declaration (rest : V bool) : V bool :=
  reject_if (has kAccConstructor && negb constructor_by_name)
    (reject_in_debug_if (IsConstructor && xorb IsStatic static_constructor_by_name)
       (reject_in_debug_if (1 <? access_mod_count) rest)).

(** A method without code. *)
Definition check_no_code : V bool :=
  reject_if (negb (has (kAccNative ||| kAccAbstract)))
    (reject_in_debug_if
       (has kAccAbstract
        && has (kAccPrivate ||| kAccStatic ||| kAccFinal ||| kAccNative ||| kAccStrict
                ||| kAccSynchronized))
       (reject_in_debug_if (in_interface && negb (method_access_flags_ info &&& kAccPublic =? kAccPublic))
          (reject_in_debug_if (in_interface && has kAccProtected)
             (reject_in_debug_if IsConstructor (mret true))))).

Definition access_flag_options : Z :=
  if kDefaultMethodsVersion <=? dex_version info then kAccPublic ||| kAccPrivate else kAccPublic.

(** The flags of a method with code. *)
Definition check_code_flags (rest : V bool) : V bool :=
  reject_in_debug_if (has (kAccNative ||| kAccAbstract))
    (reject_in_debug_if
       (in_interface && negb (IsConstructor && IsStatic)
        && (IsInstanceConstructor || has kAccFinal || negb (has access_flag_options)))
       (reject_in_debug_if (IsInstanceConstructor && has kAccSynchronized) rest)).

(** [Verify] up to [VerifyCodeFlow]. *)
Definition Verify_before_flow (m : mem) (dex_file : DexHeader) (allow : bool) : V bool :=
  check_declaration
    match code_item_ info with
    | None => check_no_code
    | Some code_item => check_code_flags (VerifyStatic m code_item dex_file allow)
    end.
End Verify.

(** ** What a check records *)

Definition hard (v : VState) : bool := have_pending_hard_failure_ (pending v).

Definition is_hard (e : VerifyError) : bool :=
  match e with VERIFY_ERROR_BAD_CLASS_HARD => true | _ => false end.

(** [new] are the failures recorded between two states; a hard one sets the flag. *)
Definition recorded (v v' : VState) (new : list VerifyError) : Prop :=
  failures_ (pending v') = failures_ (pending v) ++ new /\
  hard v' = hard v || existsb is_hard new.

(** Given the result so far, a check gives false exactly when that was false or a hard
    failure is recorded. *)
Definition reports (so_far : bool) (c : V bool) : Prop :=
  forall v r v', c v = Some (r, v') ->
  exists new, recorded v v' new /\ r = so_far && negb (existsb is_hard new).

(** A computation that records nothing. *)
Definition quiet {A} (c : V A) : Prop :=
  forall v a v', c v = Some (a, v') -> pending v' = pending v.

Create HintDb reports.

Lemma recorded_nil v v' : pending v' = pending v -> recorded v v' [].
Proof. intros E. unfold recorded, hard. by rewrite E, app_nil_r, orb_false_r. Qed.

Lemma recorded_app v v1 v2 l1 l2 :
  recorded v v1 l1 -> recorded v1 v2 l2 -> recorded v v2 (l1 ++ l2).
Proof.
  intros [E1 H1] [E2 H2]. split.
  - by rewrite E2, E1, app_assoc.
  - by rewrite H2, H1, existsb_app, orb_assoc.
Qed.

(** ** Quiet computations *)

Lemma quiet_ret {A} (a : A) : quiet (mret a : V A).
Proof. by intros v b v' [= <- <-]. Qed.
Lemma quiet_lift {A} (o : option A) : quiet (lift o).
Proof. intros v b v' [_ ->]%lift_inv. done. Qed.
Lemma quiet_get_flags i : quiet (get_flags i).
Proof. intros v b v' (-> & _)%get_flags_inv. done. Qed.
Lemma quiet_update_flags i f : quiet (update_flags i f).
Proof. intros v b v'. unfold update_flags. case_match; [|done]. by intros [= _ <-]. Qed.
Lemma quiet_bind {A B} (c : V A) (k : A -> V B) :
  quiet c -> (forall a, quiet (k a)) -> quiet (c ≫= k).
Proof.
  intros Hc Hk v b v'' (a & v' & E1 & E2)%V_bind_inv.
  by rewrite (Hk _ _ _ _ E2), (Hc _ _ _ E1).
Qed.
Lemma quiet_count_op op : quiet (count_op op).
Proof. by intros v a v' [= _ <-]. Qed.
Lemma quiet_set_counts a b : quiet (set_counts a b).
Proof. by intros v x v' [= _ <-]. Qed.
Lemma quiet_alloc_flags code_item : quiet (alloc_flags code_item).
Proof. by intros v x v' [= _ <-]. Qed.
#[export] Hint Resolve quiet_ret quiet_lift quiet_get_flags quiet_update_flags quiet_count_op
  quiet_set_counts quiet_alloc_flags : reports.

Lemma quiet_mark_in_try m code_item fuel pc e : quiet (mark_in_try m code_item fuel pc e).
Proof.
  revert pc. induction fuel as [|fuel IH]; intros pc; simpl; [auto with reports|].
  case_match; [|auto with reports]. repeat (apply quiet_bind; [auto with reports|intros ?]). apply IH.
Qed.

Lemma quiet_ComputeWidths m code_item fuel pc a b :
  quiet (ComputeWidths_loop m code_item fuel pc a b).
Proof.
  revert pc a b. induction fuel as [|fuel IH]; intros pc a b; simpl; [auto with reports|].
  case_match; [|auto with reports]. repeat (apply quiet_bind; [auto with reports|intros ?]). apply IH.
Qed.

Lemma quiet_flag_safepoints m code_item inst pc : quiet (flag_safepoints m code_item inst pc).
Proof.
  unfold flag_safepoints. repeat case_match; auto with reports.
  repeat (apply quiet_bind; [auto with reports|intros ?]). repeat case_match. auto with reports.
Qed.
#[export] Hint Resolve quiet_mark_in_try quiet_ComputeWidths quiet_flag_safepoints : reports.

(** ** Checks that report *)

Lemma reports_ret b : reports b (mret b).
Proof. intros v r v' [= <- <-]. exists []. split; [by apply recorded_nil|by rewrite andb_true_r]. Qed.

(** A failure other than a soft one is recorded as it is, or as a soft one. *)
Lemma Fail_recorded error v v' u :
  error <> VERIFY_ERROR_BAD_CLASS_SOFT -> Fail error v = Some (u, v') ->
  exists new, recorded v v' new /\ existsb is_hard new = is_hard error.
Proof.
  intros Hsoft [= _ <-]. unfold recorded, hard. simpl.
  destruct error; try done; simpl;
    try (exists [VERIFY_ERROR_BAD_CLASS_HARD]; by rewrite orb_true_r);
    destruct (_ || negb _); simpl; eexists; (split; [split; [reflexivity|]|]); simpl;
    by rewrite ?orb_false_r.
Qed.

Lemma reports_fail_hard b : reports b fail_hard.
Proof.
  intros v r v'' (a & v' & E1 & E2)%V_bind_inv. apply V_ret_inv in E2 as [-> ->].
  apply Fail_recorded in E1 as (new & Hr & Hn); [|done].
  exists new. split; [done|]. rewrite Hn. by destruct b.
Qed.

Lemma reports_reject_if b bad c : reports b c -> reports b (reject_if bad c).
Proof. intros H. unfold reject_if. destruct bad; [apply reports_fail_hard|done]. Qed.

Lemma reports_quiet {A} b (c : V A) (k : A -> V bool) :
  quiet c -> (forall a, reports b (k a)) -> reports b (c ≫= k).
Proof.
  intros Hc Hk v r v'' (a & v' & E1 & E2)%V_bind_inv.
  destruct (Hk a _ _ _ E2) as (new & Hr & Hres). exists new. split; [|done].
  apply (recorded_app v v' v'' [] new); [|done]. apply recorded_nil. by eapply Hc.
Qed.

(** The result of one check handed to the next. *)
Lemma reports_then b (c : V bool) (k : bool -> V bool) :
  reports b c -> (forall r, reports r (k r)) -> reports b (c ≫= k).
Proof.
  intros Hc Hk v r v'' (a & v' & E1 & E2)%V_bind_inv.
  destruct (Hc _ _ _ E1) as (l1 & Hr1 & ->). destruct (Hk _ _ _ _ E2) as (l2 & Hr2 & ->).
  exists (l1 ++ l2). split; [by eapply recorded_app|].
  by rewrite existsb_app, negb_orb, andb_assoc.
Qed.

Lemma reports_and_also r c : reports true c -> reports r (and_also r c).
Proof. intros H. destruct r; [done|apply reports_ret]. Qed.

Lemma reports_if_ok (r : bool) c : reports true c -> reports r (if r then c else mret false).
Proof. apply reports_and_also. Qed.

#[export] Hint Resolve reports_ret reports_fail_hard reports_reject_if reports_and_also
  reports_if_ok : reports.

(** Splits a check into its steps. *)
Ltac report_steps :=
  repeat first
    [ solve [auto with reports]
    | apply reports_reject_if
    | apply reports_and_also
    | apply reports_quiet; [solve [auto with reports]|intros ?]
    | apply reports_then; [|intros ?] ].

(** ** The checks of the verifier *)

Section Checks.
Context (m : mem) (code_item : CodeItem) (dex_file : DexHeader).

Lemma reports_widths : reports true (ComputeWidthsAndCountOps m code_item).
Proof. unfold ComputeWidthsAndCountOps. report_steps. repeat case_match; report_steps. Qed.

Lemma reports_for_each n idx body :
  (forall i, reports true (body i)) -> reports true (for_each n idx body).
Proof.
  intros Hb. revert idx. induction n as [|n IH]; intros idx; simpl; [auto with reports|].
  report_steps.
Qed.

Lemma reports_scan_try idx : reports true (scan_try m code_item idx).
Proof. unfold scan_try. report_steps. Qed.

Lemma reports_not_move_result pc : reports true (CheckNotMoveResult m code_item pc).
Proof. unfold CheckNotMoveResult. report_steps. Qed.

(** The iterator is lost exactly when a hard failure is recorded. *)
Lemma scan_handlers_reports fuel it v r v' :
  scan_handlers m code_item fuel it v = Some (r, v') ->
  exists new, recorded v v' new /\ bool_decide (is_Some r) = negb (existsb is_hard new).
Proof.
  revert it v. induction fuel as [|fuel IH]; intros it v; [done|]. cbn [scan_handlers].
  destruct (HasNext it).
  2: { intros [-> ->]%V_ret_inv. exists []. split; [by apply recorded_nil|done]. }
  intros (fl & v1 & E1 & E)%V_bind_inv. apply quiet_get_flags, recorded_nil in E1.
  assert (forall b v v', (fail_hard;; mret (A:=option CatchHandlerIterator) None : V _) v = Some (b, v') ->
            b = None /\ exists new, recorded v v' new /\ existsb is_hard new = true) as Hfail.
  { intros b w w' (x & w1 & Ef & [-> ->]%V_ret_inv)%V_bind_inv. split; [done|].
    apply V_bind_inv in Ef as ([] & w2 & Ef & [_ ->]%V_ret_inv). by apply Fail_recorded in Ef. }
  destruct (negb (IsOpcode fl)).
  { apply Hfail in E as [-> (new & Hr & Hn)]. exists ([] ++ new).
    split; [by eapply recorded_app|simpl; by rewrite Hn]. }
  apply V_bind_inv in E as (ok & v2 & E2 & E).
  apply reports_not_move_result in E2 as (l2 & Hr2 & Hok). destruct ok; cbn [negb] in E.
  - apply V_bind_inv in E as ([] & v3 & E3 & E). apply quiet_update_flags, recorded_nil in E3.
    destruct (IH _ _ E) as (l4 & Hr4 & Hn). exists ([] ++ l2 ++ [] ++ l4).
    split; [by repeat (eapply recorded_app; [done|])|].
    simpl. rewrite Hn, existsb_app. by destruct (existsb is_hard l2).
  - apply Hfail in E as [-> (new & Hr & Hn)]. exists ([] ++ l2 ++ new).
    split; [by repeat (eapply recorded_app; [done|])|].
    simpl. by rewrite existsb_app, Hn, orb_true_r.
Qed.

Lemma reports_handler_lists n ptr : reports true (scan_handler_lists m code_item n ptr).
Proof.
  revert ptr. induction n as [|n IH]; intros ptr; cbn [scan_handler_lists]; [auto with reports|].
  intros v r v'' (it & v' & E1 & E2)%V_bind_inv.
  apply scan_handlers_reports in E1 as (l1 & Hr1 & Hn).
  destruct it as [it|]; simpl in Hn.
  - apply IH in E2 as (l2 & Hr2 & ->). exists (l1 ++ l2). split; [by eapply recorded_app|].
    rewrite existsb_app. by destruct (existsb is_hard l1).
  - apply V_ret_inv in E2 as [-> ->]. exists l1. split; [done|]. by rewrite <- Hn.
Qed.

Lemma reports_tries : reports true (ScanTryCatchBlocks m code_item).
Proof.
  unfold ScanTryCatchBlocks. case_match; [auto with reports|].
  apply reports_then; [apply reports_for_each, reports_scan_try|intros ok].
  apply reports_if_ok. case_match. apply reports_handler_lists.
Qed.

Lemma reports_register i : reports true (CheckRegisterIndex code_item i).
Proof. unfold CheckRegisterIndex. report_steps. Qed.
Lemma reports_wide_register i : reports true (CheckWideRegisterIndex code_item i).
Proof. unfold CheckWideRegisterIndex. report_steps. Qed.
Lemma reports_field i : reports true (CheckFieldIndex dex_file i).
Proof. unfold CheckFieldIndex. report_steps. Qed.
Lemma reports_method i : reports true (CheckMethodIndex dex_file i).
Proof. unfold CheckMethodIndex. report_steps. Qed.
Lemma reports_prototype i : reports true (CheckPrototypeIndex dex_file i).
Proof. unfold CheckPrototypeIndex. report_steps. Qed.
Lemma reports_string i : reports true (CheckStringIndex dex_file i).
Proof. unfold CheckStringIndex. report_steps. Qed.
Lemma reports_type i : reports true (CheckTypeIndex dex_file i).
Proof. unfold CheckTypeIndex. report_steps. Qed.
Lemma reports_new_array i : reports true (CheckNewArray dex_file i).
Proof. unfold CheckNewArray. report_steps. Qed.

(** A [Class] object cannot be made, which is an error at run time only. *)
Lemma reports_new_instance i : reports true (CheckNewInstance dex_file i).
Proof.
  unfold CheckNewInstance. apply reports_reject_if. cbv zeta. repeat case_match; report_steps.
  intros v r v'' ([] & v' & E1 & [-> ->]%V_ret_inv)%V_bind_inv.
  apply Fail_recorded in E1 as (new & Hr & Hn); [|done]. exists new. by rewrite Hn.
Qed.
End Checks.

#[export] Hint Resolve reports_register reports_wide_register reports_field reports_method
  reports_prototype reports_string reports_type reports_new_array reports_new_instance : reports.

(** ** Instructions *)

(** The opcodes with a branch offset. *)
Definition has_branch_offset (op : Z) : bool :=
  (op =? GOTO) || (op =? GOTO_32) || (op =? GOTO_16)
  || ((op =? IF_EQ) || (op =? IF_NE) || (op =? IF_LT) || (op =? IF_GE) || (op =? IF_GT)
      || (op =? IF_LE) || (op =? IF_EQZ) || (op =? IF_NEZ) || (op =? IF_LTZ)
      || (op =? IF_GEZ) || (op =? IF_GTZ) || (op =? IF_LEZ)).

Definition branch_row_ok (op : Z) : bool :=
  implb (flag_set (VerifyFlagsOf op) kVerifyBranchTarget) (has_branch_offset op).

Lemma branch_rows_ok op : 0 <= op < 256 -> branch_row_ok op = true.
Proof. apply (opcode_all branch_row_ok). vm_compute. reflexivity. Qed.

Lemma extra_branch_flag flags mask :
  flags &&& mask = kVerifyBranchTarget -> flag_set flags kVerifyBranchTarget = true.
Proof.
  intros E. unfold flag_set. apply negb_true_iff, Z.eqb_neq. intros H.
  assert (Z.testbit (flags &&& kVerifyBranchTarget) 15 = false) as Hb by (rewrite H; apply Z.bits_0).
  assert (Z.testbit (flags &&& mask) 15 = true) as Hb' by (by rewrite E).
  rewrite Z.land_spec in Hb, Hb'. apply andb_true_iff in Hb' as [Hb' _]. by rewrite Hb' in Hb.
Qed.

Section Instructions.
Context (m : mem) (code_item : CodeItem) (dex_file : DexHeader).

Lemma branch_offset_defined pc :
  GetVerifyExtraFlags (inst_at m code_item pc) = kVerifyBranchTarget ->
  is_Some (GetBranchOffset m code_item pc).
Proof.
  intros E%extra_branch_flag. set (inst := inst_at m code_item pc) in *.
  pose proof (branch_rows_ok (Opcode inst) (Opcode_range inst)) as H. unfold branch_row_ok in H.
  rewrite E in H. cbn [implb] in H. unfold has_branch_offset in H. unfold GetBranchOffset. fold inst.
  change (Fetch16 inst 0 &&& 0xff) with (Opcode inst).
  repeat (case_match; [by eexists|]). by rewrite !orb_false_r in H; simplify_eq/=.
Qed.

Lemma reports_array_data pc : reports true (CheckArrayData m code_item pc).
Proof. unfold CheckArrayData. report_steps. Qed.

Lemma reports_branch_target pc :
  is_Some (GetBranchOffset m code_item pc) -> reports true (CheckBranchTarget m code_item pc).
Proof.
  intros [[[off c] s] E]. unfold CheckBranchTarget. rewrite E. report_steps.
Qed.

Lemma reports_switch_targets pc : reports true (CheckSwitchTargets m code_item pc).
Proof.
  unfold CheckSwitchTargets. report_steps. apply reports_for_each. intros i.
  unfold check_target. report_steps.
Qed.

Lemma reports_var_args n args : reports true (CheckVarArgRegs code_item n args).
Proof.
  revert args. induction n as [|n IH]; intros [|a args]; simpl; report_steps. by intros v r v'.
Qed.

Lemma reports_var_range a c : reports true (CheckVarArgRangeRegs code_item a c).
Proof. unfold CheckVarArgRangeRegs. report_steps. Qed.

Lemma reports_arguments inst :
  reports true (check_argument_a code_item inst) /\
  reports true (check_argument_b code_item dex_file inst) /\
  reports true (check_argument_c code_item dex_file inst) /\
  reports true (check_argument_h dex_file inst).
Proof.
  unfold check_argument_a, check_argument_b, check_argument_c, check_argument_h.
  split_and!; repeat case_match; report_steps.
Qed.

Lemma reports_extra pc result :
  reports result (check_extra m code_item (inst_at m code_item pc) pc result).
Proof.
  unfold check_extra. cbv zeta.
  case_match; [apply reports_and_also, reports_array_data|].
  case_match eqn:E; [apply Z.eqb_eq in E; by apply reports_and_also, reports_branch_target, branch_offset_defined|].
  case_match; [apply reports_and_also, reports_switch_targets|].
  case_match; [apply reports_reject_if, reports_and_also, reports_var_args|].
  case_match; [report_steps; apply reports_var_range|].
  case_match; auto with reports.
Qed.

Lemma reports_instruction allow pc :
  reports true (VerifyInstruction m code_item dex_file allow (inst_at m code_item pc) pc).
Proof.
  unfold VerifyInstruction, kHaveExperimentalInstructions. cbn [andb].
  destruct (reports_arguments (inst_at m code_item pc)) as (Ha & Hb & Hc & Hh).
  apply reports_then; [done|intros r1]. do 3 (apply reports_then; [by apply reports_and_also|intros ?]).
  apply reports_then; [apply reports_extra|intros ?]. case_match; auto with reports.
Qed.

Lemma reports_instructions allow : reports true (VerifyInstructions m code_item dex_file allow).
Proof.
  unfold VerifyInstructions. do 2 (apply reports_quiet; [auto with reports|intros []]).
  generalize 0. induction (S _) as [|fuel IH]; intros pc; [by intros v r v'|].
  cbn [VerifyInstructions_loop]. case_match; [|auto with reports].
  apply reports_then; [apply reports_instruction|]. intros [|]; cbn [negb]; [|apply reports_ret].
  do 2 (apply reports_quiet; [auto with reports|intros ?]). apply IH.
Qed.

Lemma reports_static allow : reports true (VerifyStatic m code_item dex_file allow).
Proof.
  unfold VerifyStatic. apply reports_reject_if, reports_quiet; [auto with reports|intros []].
  apply reports_then; [apply reports_widths|intros r1].
  apply reports_then; [apply reports_and_also, reports_tries|intros r2].
  apply reports_and_also, reports_instructions.
Qed.

End Instructions.

Lemma reports_before_flow m dex_file debug info allow :
  reports true (Verify_before_flow debug info m dex_file allow).
Proof.
  unfold Verify_before_flow, check_declaration, check_no_code, check_code_flags, reject_in_debug_if.
  do 3 apply reports_reject_if. case_match; [|report_steps].
  do 3 apply reports_reject_if. apply reports_static.
Qed.

(** C27. The verifier reports what it rejects.  Whenever the checks of [Verify] up to the
    data flow analysis return, they return false exactly when they recorded a hard
    failure: then the flag for a pending hard failure is set and the list of failures is
    not empty, and otherwise the flag is what it was.  These are the [CHECK]s of
    [VerifyMethod] on either result. *)
Theorem verifier_rejections_recorded m dex_file debug info allow v r v' :
  have_pending_hard_failure_ (pending v) = false ->
  Verify_before_flow debug info m dex_file allow v = Some (r, v') ->
  have_pending_hard_failure_ (pending v') = negb r /\
  (r = false -> VERIFY_ERROR_BAD_CLASS_HARD ∈ failures_ (pending v')).
Proof.
  intros Hv E. apply reports_before_flow in E as (new & [Hf Hh] & ->). unfold hard in Hh.
  rewrite Hv in Hh. rewrite Hh. simpl. split; [by rewrite negb_involutive|].
  intros Hn%negb_false_iff. apply existsb_exists in Hn as (e & Hin & He).
  rewrite Hf. apply elem_of_app. right. destruct e; try done. by apply list_elem_of_In.
Qed.

(** A goto to itself is rejected with a hard failure. *)
Lemma verifier_rejections_recorded_witness :
  let m : mem := store_list (fun _ => 0) 0 [0x28; 0; 0x0e; 0] in
  let item := {| registers_size_ := 1; ins_size_ := 0; outs_size_ := 0; tries_size_ := 0;
                 debug_info_off_ := 0; insns_size_in_code_units_ := 2; insns_ := 0 |} in
  let header := {| string_ids_size_ := 0; type_ids_size_ := 0; proto_ids_size_ := 0;
                   field_ids_size_ := 0; method_ids_size_ := 0;
                   StringByTypeIdx := fun _ => EmptyString |} in
  let info := {| method_name := "run"; method_access_flags_ := kAccPublic;
                 class_access_flags := kAccPublic; dex_version := 37;
                 code_item_ := Some item |} in
  exists v', Verify_before_flow true info m header true initial_state = Some (false, v') /\
    have_pending_hard_failure_ (pending v') = true.
Proof.
  intros m item header info.
  destruct (Verify_before_flow true info m header true initial_state) as [[r v']|] eqn:E.
  - assert (r = false) as -> by (vm_compute in E; congruence).
    exists v'. split; [done|].
    exact (proj1 (verifier_rejections_recorded m header true info true initial_state false v' eq_refl E)).
  - by vm_compute in E.
Defined.
