(* ===== verification/RegisterLine.v ===== *)
(** * Register lines ([runtime/verifier/register_line.h], [register_line-inl.h],
      [register_line.cc])

    The types of all registers at one point of a method, the monitors held
    there, and the operations the data flow pass performs on them.  The state of
    the pass is threaded through a monad; an operation takes the line it works
    on and returns the changed line. *)
From Stdlib Require Import String.
From stdpp Require Import gmap.
From S2P Require Import Prelude Leb128 DexInstructionList DexInstruction ExceptionTable StaticVerifier MirrorClass RegType.

(** [line_] and [result_] hold ids of the cache, [monitors_] the dex pcs of the
    [monitor-enter]s, [reg_to_lock_depths_] a bit per monitor. *)
Record RegisterLine := {
  line_ : list Z;
  result_ : Z * Z;
  monitors_ : list Z;
  reg_to_lock_depths_ : gmap Z Z;
  this_initialized_ : bool
}.

Definition NumRegs (l : RegisterLine) : Z := Z.of_nat (length (line_ l)).

(** [RegisterLine::Create]: all registers undefined. *)
Definition Create (num_regs : Z) : RegisterLine :=
  {| line_ := replicate (Z.to_nat num_regs) 0; result_ := (GetId Undefined, GetId Undefined);
     monitors_ := []; reg_to_lock_depths_ := ∅; this_initialized_ := false |}.

Definition with_line (l : RegisterLine) (ids : list Z) : RegisterLine :=
  {| line_ := ids; result_ := result_ l; monitors_ := monitors_ l;
     reg_to_lock_depths_ := reg_to_lock_depths_ l; this_initialized_ := this_initialized_ l |}.
Definition with_result (l : RegisterLine) (r : Z * Z) : RegisterLine :=
  {| line_ := line_ l; result_ := r; monitors_ := monitors_ l;
     reg_to_lock_depths_ := reg_to_lock_depths_ l; this_initialized_ := this_initialized_ l |}.
Definition with_monitors (l : RegisterLine) (ms : list Z) : RegisterLine :=
  {| line_ := line_ l; result_ := result_ l; monitors_ := ms;
     reg_to_lock_depths_ := reg_to_lock_depths_ l; this_initialized_ := this_initialized_ l |}.
Definition with_depths (l : RegisterLine) (d : gmap Z Z) : RegisterLine :=
  {| line_ := line_ l; result_ := result_ l; monitors_ := monitors_ l;
     reg_to_lock_depths_ := d; this_initialized_ := this_initialized_ l |}.
Definition SetThisInitialized (l : RegisterLine) : RegisterLine :=
  {| line_ := line_ l; result_ := result_ l; monitors_ := monitors_ l;
     reg_to_lock_depths_ := reg_to_lock_depths_ l; this_initialized_ := true |}.

(** [target->CopyFromLine(src)] leaves the result register of the target. *)
Definition CopyFromLine (target src : RegisterLine) : RegisterLine :=
  {| line_ := line_ src; result_ := result_ target; monitors_ := monitors_ src;
     reg_to_lock_depths_ := reg_to_lock_depths_ src; this_initialized_ := this_initialized_ src |}.

Definition MonitorStackDepth (l : RegisterLine) : Z := Z.of_nat (length (monitors_ l)).

(** ** The state of the pass *)

(** The fields of [MethodVerifier] the pass uses, on top of those of the static
    pass; the types that are computed on demand are [None] until then. *)
Record FlowState := {
  reg_types_ : RegTypeCache;
  work_line_ : RegisterLine;
  saved_line_ : RegisterLine;
  reg_table_ : gmap Z RegisterLine;
  work_insn_idx_ : Z;
  have_any_pending_runtime_throw_failure_ : bool;
  return_type_ : option RegType;
  declaring_class_ : option RegType;
  static_state : VState
}.

Definition with_cache (s : FlowState) (c : RegTypeCache) : FlowState :=
  {| reg_types_ := c; work_line_ := work_line_ s; saved_line_ := saved_line_ s;
     reg_table_ := reg_table_ s; work_insn_idx_ := work_insn_idx_ s;
     have_any_pending_runtime_throw_failure_ := have_any_pending_runtime_throw_failure_ s;
     return_type_ := return_type_ s; declaring_class_ := declaring_class_ s;
     static_state := static_state s |}.
Definition with_work (s : FlowState) (l : RegisterLine) : FlowState :=
  {| reg_types_ := reg_types_ s; work_line_ := l; saved_line_ := saved_line_ s;
     reg_table_ := reg_table_ s; work_insn_idx_ := work_insn_idx_ s;
     have_any_pending_runtime_throw_failure_ := have_any_pending_runtime_throw_failure_ s;
     return_type_ := return_type_ s; declaring_class_ := declaring_class_ s;
     static_state := static_state s |}.
Definition with_saved (s : FlowState) (l : RegisterLine) : FlowState :=
  {| reg_types_ := reg_types_ s; work_line_ := work_line_ s; saved_line_ := l;
     reg_table_ := reg_table_ s; work_insn_idx_ := work_insn_idx_ s;
     have_any_pending_runtime_throw_failure_ := have_any_pending_runtime_throw_failure_ s;
     return_type_ := return_type_ s; declaring_class_ := declaring_class_ s;
     static_state := static_state s |}.
Definition with_table (s : FlowState) (t : gmap Z RegisterLine) : FlowState :=
  {| reg_types_ := reg_types_ s; work_line_ := work_line_ s; saved_line_ := saved_line_ s;
     reg_table_ := t; work_insn_idx_ := work_insn_idx_ s;
     have_any_pending_runtime_throw_failure_ := have_any_pending_runtime_throw_failure_ s;
     return_type_ := return_type_ s; declaring_class_ := declaring_class_ s;
     static_state := static_state s |}.
Definition with_idx (s : FlowState) (i : Z) : FlowState :=
  {| reg_types_ := reg_types_ s; work_line_ := work_line_ s; saved_line_ := saved_line_ s;
     reg_table_ := reg_table_ s; work_insn_idx_ := i;
     have_any_pending_runtime_throw_failure_ := have_any_pending_runtime_throw_failure_ s;
     return_type_ := return_type_ s; declaring_class_ := declaring_class_ s;
     static_state := static_state s |}.
Definition with_static (s : FlowState) (v : VState) : FlowState :=
  {| reg_types_ := reg_types_ s; work_line_ := work_line_ s; saved_line_ := saved_line_ s;
     reg_table_ := reg_table_ s; work_insn_idx_ := work_insn_idx_ s;
     have_any_pending_runtime_throw_failure_ := have_any_pending_runtime_throw_failure_ s;
     return_type_ := return_type_ s; declaring_class_ := declaring_class_ s;
     static_state := v |}.
Definition with_types (s : FlowState) (any_throw : bool) (ret decl : option RegType) : FlowState :=
  {| reg_types_ := reg_types_ s; work_line_ := work_line_ s; saved_line_ := saved_line_ s;
     reg_table_ := reg_table_ s; work_insn_idx_ := work_insn_idx_ s;
     have_any_pending_runtime_throw_failure_ := any_throw;
     return_type_ := ret; declaring_class_ := decl; static_state := static_state s |}.

(** How a computation of the pass ends: normally, in undefined behaviour or
    [LOG(FATAL)], or at an instruction whose verification is not modelled. *)
Inductive FlowOutcome (A : Type) :=
| FDone (a : A) (s : FlowState)
| FAbort
| FNotModelled.
Arguments FDone {A} a s.
Arguments FAbort {A}.
Arguments FNotModelled {A}.

Definition F (A : Type) : Type := FlowState -> FlowOutcome A.
#[export] Instance F_ret : MRet F := fun A a s => FDone a s.
#[export] Instance F_bind : MBind F := fun A B k m s =>
  match m s with FDone a s => k a s | FAbort => FAbort | FNotModelled => FNotModelled end.

Definition abort {A} : F A := fun _ => FAbort.
Definition liftF {A} (o : option A) : F A := fun s =>
  match o with Some a => FDone a s | None => FAbort end.
(** A computation on the cache. *)
Definition types {A} (m : C A) : F A := fun s =>
  match m (reg_types_ s) with Some (a, c) => FDone a (with_cache s c) | None => FAbort end.
(** The same for those that may load classes. *)
Definition loading {A} (m : bool -> C A) : F A := fun s =>
  types (m (can_load_classes_ (settings (static_state s)))) s.
(** A computation of the static pass. *)
Definition static {A} (m : V A) : F A := fun s =>
  match m (static_state s) with Some (a, v) => FDone a (with_static s v) | None => FAbort end.

Definition get_work : F RegisterLine := fun s => FDone (work_line_ s) s.
Definition set_work (l : RegisterLine) : F unit := fun s => FDone tt (with_work s l).
Definition get_failures : F Failures := fun s => FDone (pending (static_state s)) s.
Definition get_idx : F Z := fun s => FDone (work_insn_idx_ s) s.

(** [if (condition) { first; }] *)
Definition when (b : bool) (m : F unit) : F unit := if b then m else mret tt.

(** An operation on [work_line_].  Where such an operation calls [Fail] after it
    changed the line, the opcode is flagged [kThrow] or the failure is hard, so
    that [Fail] does not read the line. *)
Definition on_work {A} (op : RegisterLine -> F (A * RegisterLine)) : F A :=
  l ← get_work; '(a, l) ← op l; set_work l;; mret a.
Definition on_work_ (op : RegisterLine -> F RegisterLine) : F unit :=
  l ← get_work; l ← op l; set_work l.

Section Line.
Context (LK : ClassLinker) (m : mem) (code_item : CodeItem).

(** The errors [Fail] turns into soft failures or runtime throws. *)
Definition is_deferred_error (error : VerifyError) : bool :=
  match error with
  | VERIFY_ERROR_BAD_CLASS_HARD | VERIFY_ERROR_BAD_CLASS_SOFT => false
  | _ => true
  end.

(** [Fail(error)] while an instruction is processed: the bookkeeping of the
    static pass, and a copy of the work line for the catch handlers if the
    instruction was not going to throw. *)
Definition FailFlow (error : VerifyError) : F unit := fun s =>
  let v := static_state s in
  let s' := with_static s (with_pending v (record_failure (settings v) (pending v) error)) in
  if is_deferred_error error && negb (IsAotCompiler (settings v) || negb (can_load_classes_ (settings v)))
     && (work_insn_idx_ s <? kDexNoIndex)
  then
    match get_flags (work_insn_idx_ s) v with
    | Some (fl, _) =>
        if negb (flag_set (FlagsOf (Opcode (inst_at m code_item (work_insn_idx_ s)))) kThrow)
           && TestFlag kInTry fl
        then FDone tt (with_saved s' (CopyFromLine (saved_line_ s) (work_line_ s)))
        else FDone tt s'
    | None => FAbort
    end
  else FDone tt s'.
Definition fail_flow {A} (error : VerifyError) (result : A) : F A := FailFlow error;; mret result.

(** ** Reading and writing types *)

Definition lookup_reg (l : RegisterLine) (i : Z) : option Z :=
  if 0 <=? i then line_ l !! Z.to_nat i else None.
Definition store_reg (l : RegisterLine) (i : Z) (t : RegType) : option RegisterLine :=
  if (0 <=? i) && (i <? NumRegs l) then Some (with_line l (<[Z.to_nat i := GetId t]> (line_ l)))
  else None.

Definition GetRegisterType (l : RegisterLine) (vsrc : Z) : F RegType :=
  id ← liftF (lookup_reg l vsrc); types (GetFromId id).

Inductive LockOp := kClear | kKeep.

Definition ClearAllRegToLockDepths (l : RegisterLine) (reg : Z) : RegisterLine :=
  with_depths l (delete reg (reg_to_lock_depths_ l)).

Definition SetRegisterType (lock_op : LockOp) (vdst : Z) (new_type : RegType) (l : RegisterLine)
    : F (bool * RegisterLine) :=
  if IsLowHalf (kind new_type) || IsHighHalf (kind new_type)
  then fail_flow VERIFY_ERROR_BAD_CLASS_HARD (false, l)
  else
    l ← liftF (store_reg l vdst new_type);
    mret (true, match lock_op with kClear => ClearAllRegToLockDepths l vdst | kKeep => l end).

Definition SetRegisterTypeWide (vdst : Z) (new_type1 new_type2 : RegType) (l : RegisterLine)
    : F (bool * RegisterLine) :=
  if negb (CheckWidePair (kind new_type1) (kind new_type2))
  then fail_flow VERIFY_ERROR_BAD_CLASS_SOFT (false, l)
  else
    l ← liftF (store_reg l vdst new_type1);
    l ← liftF (store_reg l (vdst + 1) new_type2);
    mret (true, ClearAllRegToLockDepths (ClearAllRegToLockDepths l vdst) (vdst + 1)).

Definition set_type (vdst : Z) (t : RegType) (l : RegisterLine) : F RegisterLine :=
  '(_, l) ← SetRegisterType kClear vdst t l; mret l.
Definition set_type_wide (vdst : Z) (t1 t2 : RegType) (l : RegisterLine) : F RegisterLine :=
  '(_, l) ← SetRegisterTypeWide vdst t1 t2 l; mret l.

Definition SetResultTypeToUnknown (l : RegisterLine) : RegisterLine :=
  with_result l (GetId Undefined, GetId Undefined).
Definition SetResultRegisterType (l : RegisterLine) (new_type : RegType) : RegisterLine :=
  with_result l (GetId new_type, GetId Undefined).
Definition SetResultRegisterTypeWide (l : RegisterLine) (new_type1 new_type2 : RegType)
    : RegisterLine :=
  with_result l (GetId new_type1, GetId new_type2).

(** ** Lock depths *)

Definition IsSetLockDepth (l : RegisterLine) (reg depth : Z) : bool :=
  match reg_to_lock_depths_ l !! reg with
  | Some d => negb (d &&& u32 (1 << depth) =? 0)
  | None => false
  end.
(** [false] if the register already holds the lock. *)
Definition SetRegToLockDepth (l : RegisterLine) (reg depth : Z) : bool * RegisterLine :=
  if IsSetLockDepth l reg depth then (false, l)
  else
    let d := match reg_to_lock_depths_ l !! reg with
             | Some d => d ||| u32 (1 << depth)
             | None => u32 (1 << depth)
             end in
    (true, with_depths l (<[reg := d]> (reg_to_lock_depths_ l))).
Definition ClearRegToLockDepth (l : RegisterLine) (reg depth : Z) : RegisterLine :=
  let mask := u32 (1 << depth) in
  let d := match reg_to_lock_depths_ l !! reg with Some d => d ^^^ mask | None => 0 end in
  let cleared := if negb (d =? 0) then <[reg := d]> (reg_to_lock_depths_ l)
                 else delete reg (reg_to_lock_depths_ l) in
  with_depths l ((fun d => if negb (d &&& mask =? 0) then d ^^^ mask else d) <$> cleared).
Definition CopyRegToLockDepth (l : RegisterLine) (dst src : Z) : RegisterLine :=
  match reg_to_lock_depths_ l !! src with
  | Some d => with_depths l (<[dst := d]> (reg_to_lock_depths_ l))
  | None => l
  end.

(** ** Moves *)

Inductive TypeCategory := kTypeCategory1nr | kTypeCategoryRef.

Definition CopyRegister1 (vdst vsrc : Z) (cat : TypeCategory) (l : RegisterLine)
    : F RegisterLine :=
  type ← GetRegisterType l vsrc;
  '(ok, l) ← SetRegisterType kClear vdst type l;
  if negb ok then mret l
  else if negb (IsConflict (kind type)) &&
          match cat with
          | kTypeCategory1nr => negb (IsCategory1Types (kind type))
          | kTypeCategoryRef => negb (IsReferenceTypes (kind type))
          end
  then fail_flow VERIFY_ERROR_BAD_CLASS_HARD l
  else mret match cat with kTypeCategoryRef => CopyRegToLockDepth l vdst vsrc | _ => l end.

Definition CopyRegister2 (vdst vsrc : Z) (l : RegisterLine) : F RegisterLine :=
  type_l ← GetRegisterType l vsrc;
  type_h ← GetRegisterType l (vsrc + 1);
  if negb (CheckWidePair (kind type_l) (kind type_h))
  then fail_flow VERIFY_ERROR_BAD_CLASS_HARD l
  else set_type_wide vdst type_l type_h l.

Definition CopyResultRegister1 (vdst : Z) (is_reference : bool) (l : RegisterLine)
    : F RegisterLine :=
  type ← types (GetFromId (fst (result_ l)));
  if (negb is_reference && negb (IsCategory1Types (kind type)))
     || (is_reference && negb (IsReferenceTypes (kind type)))
  then fail_flow VERIFY_ERROR_BAD_CLASS_HARD l
  else
    l ← set_type vdst type l;
    mret (with_result l (GetId Undefined, snd (result_ l))).

Definition CopyResultRegister2 (vdst : Z) (l : RegisterLine) : F RegisterLine :=
  type_l ← types (GetFromId (fst (result_ l)));
  type_h ← types (GetFromId (snd (result_ l)));
  if negb (IsCategory2Types (kind type_l)) then fail_flow VERIFY_ERROR_BAD_CLASS_HARD l
  else
    l ← set_type_wide vdst type_l type_h l;
    mret (with_result l (GetId Undefined, GetId Undefined)).

(** ** Checking types *)

Definition check_failure (check_type src_type : RegKind) : VerifyError :=
  if negb (IsNonZeroReferenceTypes check_type) || negb (IsNonZeroReferenceTypes src_type)
  then VERIFY_ERROR_BAD_CLASS_HARD
  else if IsUninitializedTypes check_type || IsUninitializedTypes src_type
  then VERIFY_ERROR_BAD_CLASS_HARD
  else if IsUnresolvedTypes check_type || IsUnresolvedTypes src_type
  then VERIFY_ERROR_NO_CLASS
  else VERIFY_ERROR_BAD_CLASS_SOFT.

Definition VerifyRegisterType (l : RegisterLine) (vsrc : Z) (check_type : RegType) : F bool :=
  src_type ← GetRegisterType l vsrc;
  ok ← types (RegType_IsAssignableFrom LK check_type src_type);
  if negb ok then fail_flow (check_failure (kind check_type) (kind src_type)) false
  else if IsLowHalf (kind check_type) then
    src_type_h ← GetRegisterType l (vsrc + 1);
    if negb (CheckWidePair (kind src_type) (kind src_type_h))
    then fail_flow VERIFY_ERROR_BAD_CLASS_HARD false
    else mret true
  else mret true.

Definition VerifyRegisterTypeWide (l : RegisterLine) (vsrc : Z) (check_type1 check_type2 : RegType)
    : F bool :=
  src_type ← GetRegisterType l vsrc;
  ok ← types (RegType_IsAssignableFrom LK check_type1 src_type);
  if negb ok then fail_flow VERIFY_ERROR_BAD_CLASS_HARD false
  else
    src_type_h ← GetRegisterType l (vsrc + 1);
    if negb (CheckWidePair (kind src_type) (kind src_type_h))
    then fail_flow VERIFY_ERROR_BAD_CLASS_HARD false
    else mret true.

Definition VerifyMonitorStackEmpty (l : RegisterLine) : F unit :=
  when (negb (MonitorStackDepth l =? 0)) (FailFlow VERIFY_ERROR_LOCKING).

Definition CheckConstructorReturn (l : RegisterLine) : F bool :=
  if this_initialized_ l then mret true else fail_flow VERIFY_ERROR_BAD_CLASS_HARD false.

(** [check1 && check2] with the effects of [check2] only if it is reached. *)
Definition both (check1 check2 : F bool) : F bool := ok ← check1; if ok : bool then check2 else mret false.

(** ** Operators *)

Definition CheckUnaryOp (inst : Instruction) (dst_type src_type : RegType) (l : RegisterLine)
    : F RegisterLine :=
  ok ← VerifyRegisterType l (VRegB_12x inst) src_type;
  if ok : bool then set_type (VRegA_12x inst) dst_type l else mret l.

Definition CheckUnaryOpWide (inst : Instruction) (dst_type1 dst_type2 src_type1 src_type2 : RegType)
    (l : RegisterLine) : F RegisterLine :=
  ok ← VerifyRegisterTypeWide l (VRegB_12x inst) src_type1 src_type2;
  if ok : bool then set_type_wide (VRegA_12x inst) dst_type1 dst_type2 l else mret l.

Definition CheckUnaryOpToWide (inst : Instruction) (dst_type1 dst_type2 src_type : RegType)
    (l : RegisterLine) : F RegisterLine :=
  ok ← VerifyRegisterType l (VRegB_12x inst) src_type;
  if ok : bool then set_type_wide (VRegA_12x inst) dst_type1 dst_type2 l else mret l.

Definition CheckUnaryOpFromWide (inst : Instruction) (dst_type src_type1 src_type2 : RegType)
    (l : RegisterLine) : F RegisterLine :=
  ok ← VerifyRegisterTypeWide l (VRegB_12x inst) src_type1 src_type2;
  if ok : bool then set_type (VRegA_12x inst) dst_type l else mret l.

(** The result of [and], [or] and [xor] on booleans is a boolean. *)
Definition boolean_or (check_boolean_op : bool) (l : RegisterLine) (vreg1 vreg2 : Z)
    (dst_type : RegType) : F RegType :=
  if check_boolean_op then
    type1 ← GetRegisterType l vreg1;
    if IsBooleanTypes (kind type1) then
      type2 ← GetRegisterType l vreg2;
      mret (if IsBooleanTypes (kind type2) then Boolean else dst_type)
    else mret dst_type
  else mret dst_type.

Definition CheckBinaryOp (inst : Instruction) (dst_type src_type1 src_type2 : RegType)
    (check_boolean_op : bool) (l : RegisterLine) : F RegisterLine :=
  let vregB := VRegB_23x inst in
  let vregC := VRegC_23x inst in
  ok ← both (VerifyRegisterType l vregB src_type1) (VerifyRegisterType l vregC src_type2);
  if ok : bool then
    t ← boolean_or check_boolean_op l vregB vregC dst_type;
    set_type (VRegA_23x inst) t l
  else mret l.

Definition CheckBinaryOpWide (inst : Instruction)
    (dst_type1 dst_type2 src_type1_1 src_type1_2 src_type2_1 src_type2_2 : RegType)
    (l : RegisterLine) : F RegisterLine :=
  ok ← both (VerifyRegisterTypeWide l (VRegB_23x inst) src_type1_1 src_type1_2)
            (VerifyRegisterTypeWide l (VRegC_23x inst) src_type2_1 src_type2_2);
  if ok : bool then set_type_wide (VRegA_23x inst) dst_type1 dst_type2 l else mret l.

Definition CheckBinaryOpWideShift (inst : Instruction) (long_lo_type long_hi_type int_type : RegType)
    (l : RegisterLine) : F RegisterLine :=
  ok ← both (VerifyRegisterTypeWide l (VRegB_23x inst) long_lo_type long_hi_type)
            (VerifyRegisterType l (VRegC_23x inst) int_type);
  if ok : bool then set_type_wide (VRegA_23x inst) long_lo_type long_hi_type l else mret l.

Definition CheckBinaryOp2addr (inst : Instruction) (dst_type src_type1 src_type2 : RegType)
    (check_boolean_op : bool) (l : RegisterLine) : F RegisterLine :=
  let vregA := VRegA_12x inst in
  let vregB := VRegB_12x inst in
  ok ← both (VerifyRegisterType l vregA src_type1) (VerifyRegisterType l vregB src_type2);
  if ok : bool then
    t ← boolean_or check_boolean_op l vregA vregB dst_type;
    set_type vregA t l
  else mret l.

Definition CheckBinaryOp2addrWide (inst : Instruction)
    (dst_type1 dst_type2 src_type1_1 src_type1_2 src_type2_1 src_type2_2 : RegType)
    (l : RegisterLine) : F RegisterLine :=
  ok ← both (VerifyRegisterTypeWide l (VRegA_12x inst) src_type1_1 src_type1_2)
            (VerifyRegisterTypeWide l (VRegB_12x inst) src_type2_1 src_type2_2);
  if ok : bool then set_type_wide (VRegA_12x inst) dst_type1 dst_type2 l else mret l.

Definition CheckBinaryOp2addrWideShift (inst : Instruction)
    (long_lo_type long_hi_type int_type : RegType) (l : RegisterLine) : F RegisterLine :=
  ok ← both (VerifyRegisterTypeWide l (VRegA_12x inst) long_lo_type long_hi_type)
            (VerifyRegisterType l (VRegB_12x inst) int_type);
  if ok : bool then set_type_wide (VRegA_12x inst) long_lo_type long_hi_type l else mret l.

Definition CheckLiteralOp (inst : Instruction) (dst_type src_type : RegType)
    (check_boolean_op is_lit16 : bool) (l : RegisterLine) : F RegisterLine :=
  let vregA := if is_lit16 then VRegA_22s inst else VRegA_22b inst in
  let vregB := if is_lit16 then VRegB_22s inst else VRegB_22b inst in
  ok ← VerifyRegisterType l vregB src_type;
  if ok : bool then
    t ← (if check_boolean_op then
           let val := u32 (if is_lit16 then VRegC_22s inst else VRegC_22b inst) in
           type ← GetRegisterType l vregB;
           mret (if IsBooleanTypes (kind type) && ((val =? 0) || (val =? 1)) then Boolean else dst_type)
         else mret dst_type);
    set_type vregA t l
  else mret l.

(** ** Whole lines *)

(** [GetRegisterType(i).Equals(uninit_type)]: ids that name [uninit_type]. *)
Definition MarkRefsAsInitialized (uninit_type : RegType) (l : RegisterLine) : F RegisterLine :=
  init_type ← types (FromUninitialized LK uninit_type);
  let l := with_line l
    (map (fun id => if id =? GetId uninit_type then GetId init_type else id) (line_ l)) in
  mret (if IsUninitializedThisReference (kind uninit_type)
           || IsUnresolvedAndUninitializedThisReference (kind uninit_type)
        then SetThisInitialized l else l).

Fixpoint clear_depths_of (id : Z) (ids : list Z) (i : Z) (d : gmap Z Z) : gmap Z Z :=
  match ids with
  | [] => d
  | id' :: ids => clear_depths_of id ids (i + 1) (if id' =? id then delete i d else d)
  end.
Definition MarkUninitRefsAsInvalid (uninit_type : RegType) (l : RegisterLine) : RegisterLine :=
  with_depths
    (with_line l (map (fun id => if id =? GetId uninit_type then GetId Conflict else id) (line_ l)))
    (clear_depths_of (GetId uninit_type) (line_ l) 0 (reg_to_lock_depths_ l)).

(** All registers but those [kept] become conflicts. *)
Definition conflicts_except (kept : Z -> bool) (l : RegisterLine) : RegisterLine :=
  with_line l (imap (fun i id => if kept (Z.of_nat i) then id else GetId Conflict) (line_ l)).
Definition MarkAllRegistersAsConflicts (l : RegisterLine) : RegisterLine :=
  conflicts_except (fun _ => false) l.
Definition MarkAllRegistersAsConflictsExcept (vsrc : Z) (l : RegisterLine) : RegisterLine :=
  conflicts_except (fun i => i =? vsrc) l.
Definition MarkAllRegistersAsConflictsExceptWide (vsrc : Z) (l : RegisterLine) : RegisterLine :=
  conflicts_except (fun i => (i =? vsrc) || (i =? vsrc + 1)) l.

(** ** Monitors *)

Definition kVirtualNullRegister : Z := 2 ^ 32 - 1.

Definition PushMonitor (reg_idx insn_idx : Z) (l : RegisterLine) : F RegisterLine :=
  reg_type ← GetRegisterType l reg_idx;
  if negb (IsReferenceTypes (kind reg_type)) then fail_flow VERIFY_ERROR_BAD_CLASS_HARD l
  else if 32 <=? MonitorStackDepth l then fail_flow VERIFY_ERROR_LOCKING l
  else
    let '(ok, l') := SetRegToLockDepth l reg_idx (MonitorStackDepth l) in
    if ok : bool then
      let l' := if IsZero (kind reg_type)
                then snd (SetRegToLockDepth l' kVirtualNullRegister (MonitorStackDepth l)) else l' in
      mret (with_monitors l' (monitors_ l' ++ [u32 insn_idx]))
    else fail_flow VERIFY_ERROR_LOCKING l.

Definition PopMonitor (reg_idx : Z) (l : RegisterLine) : F RegisterLine :=
  reg_type ← GetRegisterType l reg_idx;
  if negb (IsReferenceTypes (kind reg_type)) then fail_flow VERIFY_ERROR_BAD_CLASS_HARD l
  else
    match reverse (monitors_ l) with
    | [] => fail_flow VERIFY_ERROR_LOCKING l
    | _ :: rest =>
        let l := with_monitors l (reverse rest) in
        let depth := MonitorStackDepth l in
        let success := IsSetLockDepth l reg_idx depth in
        let null_success :=
          negb success && IsZero (kind reg_type) && IsSetLockDepth l kVirtualNullRegister depth in
        if success then mret (ClearRegToLockDepth l reg_idx depth)
        else if null_success then mret (ClearRegToLockDepth l kVirtualNullRegister depth)
        else fail_flow VERIFY_ERROR_LOCKING l
    end.

(** ** Merging lines *)

Definition FindLockAliasedRegister (src : Z) (src_map search_map : gmap Z Z) : bool :=
  match src_map !! src with
  | None => true
  | Some src_lock_levels =>
      if src_lock_levels =? 0 then true
      else existsb (fun '(reg, d) => negb (reg =? src) && (d =? src_lock_levels))
             (map_to_list search_map)
  end.

(** The types of the registers from [idx] on: the merged ids and whether one
    of them changed. *)
Fixpoint merge_types (ids incoming : list Z) (changed : bool) : C (list Z * bool) :=
  match ids, incoming with
  | id :: ids, id' :: incoming =>
      if negb (id =? id') then
        incoming_reg_type ← GetFromId id';
        cur_type ← GetFromId id;
        new_type ← Merge LK cur_type incoming_reg_type;
        '(merged, changed) ← merge_types ids incoming (changed || negb (Equals cur_type new_type));
        mret (GetId new_type :: merged, changed)
      else
        '(merged, changed) ← merge_types ids incoming changed;
        mret (id :: merged, changed)
  | [], [] => mret ([], changed)
  | _, _ => liftC None
  end.

(** The lock depths of registers [idx], [idx + 1], ..., and whether the loop ran
    to its end or stopped at a register whose lock would be lost. *)
Fixpoint merge_depths (n : nat) (idx : Z) (depths incoming : gmap Z Z) : gmap Z Z * bool :=
  match n with
  | O => (depths, true)
  | S n =>
      let differ := negb (bool_decide (depths !! idx = incoming !! idx)) in
      if negb differ then merge_depths n (idx + 1) depths incoming
      else if FindLockAliasedRegister idx depths depths
              && FindLockAliasedRegister idx incoming depths
      then merge_depths n (idx + 1) (delete idx depths) incoming
      else (depths, false)
  end.

Definition MergeRegisters (incoming_line l : RegisterLine) : F (bool * RegisterLine) :=
  '(ids, changed) ← types (merge_types (line_ l) (line_ incoming_line) false);
  let l := with_line l ids in
  l ← (if (0 <? MonitorStackDepth l) || (0 <? MonitorStackDepth incoming_line) then
         if negb (MonitorStackDepth l =? MonitorStackDepth incoming_line)
         then fail_flow VERIFY_ERROR_LOCKING l
         else
           let '(depths, complete) :=
             merge_depths (length (line_ l)) 0 (reg_to_lock_depths_ l)
               (reg_to_lock_depths_ incoming_line) in
           when (negb complete) (FailFlow VERIFY_ERROR_LOCKING);; mret (with_depths l depths)
       else mret l);
  if this_initialized_ l && negb (this_initialized_ incoming_line)
  then mret (true, {| line_ := line_ l; result_ := result_ l; monitors_ := monitors_ l;
                      reg_to_lock_depths_ := reg_to_lock_depths_ l; this_initialized_ := false |})
  else mret (changed, l).
End Line.
