(* ===== verification/CodeFlow.v ===== *)
(** * The data flow pass of the method verifier
      ([runtime/verifier/method_verifier.cc], from [VerifyCodeFlow] on)

    The registers a method starts with, the effect of each instruction on the
    register line, the merge into the lines of the instructions it can go on at,
    and the work list.  The build is a release build: [DCHECK]s and the checks
    under [kIsDebugBuild] are not there.  Field accesses and invocations stop
    with [FNotModelled]. *)
From Stdlib Require Import String Ascii.
From stdpp Require Import gmap.
From S2P Require Import Prelude Leb128 DexInstructionList DexInstruction ExceptionTable StaticVerifier MirrorClass RegType RegisterLine.

(** What the verifier is constructed with: [mirror_method_] is the declaring class
    of the method and the class its return type resolves to, [parameters] the type
    indices of its prototype, [instance_fields] the index and access flags of the
    fields in the class data. *)
Record MethodToVerify := {
  IsStatic : bool;
  IsConstructor : bool;
  parameters : list Z;
  GetReturnTypeDescriptor : string;
  class_descriptor : string;
  mirror_method_ : option (Z * option Z);
  instance_fields : list (Z * Z);
  need_precise_constants_ : bool
}.

Definition IsInstanceConstructor (method : MethodToVerify) : bool :=
  IsConstructor method && negb (IsStatic method).

(** ** Instruction flags of the pass *)

Definition SetVisited : Z -> Z := SetFlag kVisited.
Definition IsVisited : Z -> bool := TestFlag kVisited.
Definition SetChanged : Z -> Z := SetFlag kChanged.
Definition IsChanged : Z -> bool := TestFlag kChanged.
Definition ClearChanged (flags : Z) : Z := u8 (flags &&& Z.lnot (1 << kChanged)).
Definition IsVisitedOrChanged (flags : Z) : bool := IsVisited flags || IsChanged flags.
Definition IsInTry : Z -> bool := TestFlag kInTry.
Definition IsBranchTarget : Z -> bool := TestFlag kBranchTarget.
Definition IsCompileTimeInfoPoint : Z -> bool := TestFlag kCompileTimeInfoPoint.
Definition IsReturnFlag : Z -> bool := TestFlag kReturnFlag.

Section Pass.
Context (LK : ClassLinker) (m : mem) (code_item : CodeItem) (dex_file : DexHeader).
Context (method : MethodToVerify).
Notation CT := (classes LK).
Notation inst_at := (inst_at m code_item).
Notation insns_size := (insns_size code_item).
Notation registers_size := (registers_size code_item).
Notation FailFlow := (FailFlow m code_item).
Notation fail_flow := (fail_flow m code_item).
Notation VerifyRegisterType := (VerifyRegisterType LK m code_item).
Notation VerifyRegisterTypeWide := (VerifyRegisterTypeWide LK m code_item).

Definition hard : F unit := FailFlow VERIFY_ERROR_BAD_CLASS_HARD.

Definition work_type (vreg : Z) : F RegType := l ← get_work; GetRegisterType l vreg.
Definition set_work_type (vreg : Z) (t : RegType) : F unit :=
  on_work_ (set_type m code_item vreg t).
Definition set_work_type_wide (vreg : Z) (t1 t2 : RegType) : F unit :=
  on_work_ (set_type_wide m code_item vreg t1 t2).
Definition keep_work_type (vreg : Z) (t : RegType) : F unit :=
  on_work_ (fun l => '(_, l) ← SetRegisterType m code_item kKeep vreg t l; mret l).
Definition verify_work (vreg : Z) (t : RegType) : F bool :=
  l ← get_work; VerifyRegisterType l vreg t.
Definition assignable_from (lhs rhs : RegType) : F bool := types (RegType_IsAssignableFrom LK lhs rhs).

(** ** Classes *)

(** [MethodVerifier::FromClass] *)
Definition FromClassF (descriptor : string) (klass : Z) (precise : bool) : F RegType :=
  let broken := precise && negb (IsInstantiable CT klass) && negb (IsPrimitive CT klass) in
  when broken (FailFlow VERIFY_ERROR_NO_CLASS);;
  types (FromClass LK descriptor klass (precise && negb broken)).

Definition set_declaring_class (t : RegType) : F unit := fun s =>
  FDone tt (with_types s (have_any_pending_runtime_throw_failure_ s) (return_type_ s) (Some t)).
Definition set_return_type (t : RegType) : F unit := fun s =>
  FDone tt (with_types s (have_any_pending_runtime_throw_failure_ s) (Some t) (declaring_class_ s)).

Definition compute_declaring_class : F RegType :=
  t ← (match mirror_method_ method with
       | Some (klass, _) =>
           FromClassF (class_descriptor method) klass (CannotBeAssignedFromOtherTypes CT klass)
       | None => loading (fun load => FromDescriptor LK load (class_descriptor method) false)
       end);
  set_declaring_class t;; mret t.
Definition GetDeclaringClass : F RegType := fun s =>
  match declaring_class_ s with Some t => FDone t s | None => compute_declaring_class s end.

Definition compute_return_type : F RegType :=
  t ← (match mirror_method_ method with
       | Some (_, Some klass) =>
           FromClassF (GetReturnTypeDescriptor method) klass (CannotBeAssignedFromOtherTypes CT klass)
       | _ => loading (fun load => FromDescriptor LK load (GetReturnTypeDescriptor method) false)
       end);
  set_return_type t;; mret t.
Definition GetMethodReturnType : F RegType := fun s =>
  match return_type_ s with Some t => FDone t s | None => compute_return_type s end.

Definition IsInstantiableOrPrimitive (klass : Z) : bool :=
  IsInstantiable CT klass || IsPrimitive CT klass.

(** The class of a type index, resolved or looked up. *)
Definition resolve_index (class_idx : Z) : F (option Z) := fun s =>
  FDone (if can_load_classes_ (settings (static_state s)) then ResolveType LK class_idx
         else LookupResolvedType LK class_idx) s.

Definition class_of_index (class_idx : Z) : F RegType :=
  let descriptor := StringByTypeIdx dex_file class_idx in
  klass ← resolve_index class_idx;
  match klass with
  | Some klass =>
      let precise := CannotBeAssignedFromOtherTypes CT klass in
      let broken := precise && negb (IsInstantiableOrPrimitive klass) in
      when broken (FailFlow VERIFY_ERROR_NO_CLASS);;
      types (FromClass LK descriptor klass (precise && negb broken))
  | None => loading (fun load => FromDescriptor LK load descriptor false)
  end.

Definition ResolveClassAndCheckAccess (class_idx : Z) : F RegType :=
  result ← class_of_index class_idx;
  if IsConflict (kind result) then
    FailFlow VERIFY_ERROR_BAD_CLASS_SOFT;; GetDeclaringClass;; mret result
  else if IsNonZeroReferenceTypes (kind result) && negb (IsUnresolvedTypes (kind result)) then
    referrer ← GetDeclaringClass;
    if IsUnresolvedTypes (kind referrer) then mret result
    else
      ok ← liftF (RegType_CanAccess LK referrer result);
      when (negb ok) (FailFlow VERIFY_ERROR_ACCESS_CLASS);; mret result
  else mret result.

Definition DetermineCat1Constant (value : Z) (precise : bool) : C RegType :=
  if precise then FromCat1Const LK value true
  else if value <? -32768 then IntConstant LK
  else if value <? -128 then ShortConstant LK
  else if value <? 0 then ByteConstant LK
  else if value =? 0 then mret Zero
  else if value =? 1 then mret One
  else if value <? 128 then PosByteConstant LK
  else if value <? 32768 then PosShortConstant LK
  else if value <? 65536 then CharConstant LK
  else IntConstant LK.

(** ** Caught exceptions *)

(** [FailOrAbort] in a release build: [true] on failure. *)
Definition FailOrAbort (condition : bool) : F bool :=
  if condition then mret false else hard;; mret true.

(** One handler of the list, at the address of the current instruction: the
    common type so far becomes [inl] of the new one, [inr] returns early; the
    flag says that the loop over the list goes on. *)
Definition caught_type (type_idx : Z) (common_super : option RegType)
    : F (option RegType * bool + RegType) :=
  if negb (TypeIndex_IsValid type_idx) then
    t ← types (JavaLangThrowable LK false); mret (inl (Some t, true))
  else
    exception ← ResolveClassAndCheckAccess type_idx;
    throwable ← types (JavaLangThrowable LK false);
    ok ← assignable_from throwable exception;
    if negb ok then
      if IsUnresolvedTypes (kind exception) then
        FailFlow VERIFY_ERROR_NO_CLASS;; mret (inr exception)
      else FailFlow VERIFY_ERROR_BAD_CLASS_SOFT;; mret (inr Conflict)
    else
      match common_super with
      | None => mret (inl (Some exception, true))
      | Some common =>
          if Equals common exception then mret (inl (Some common, true))
          else
            merged ← types (Merge LK common exception);
            throwable ← types (JavaLangThrowable LK false);
            ok ← assignable_from throwable merged;
            failed ← FailOrAbort ok;
            mret (inl (Some merged, negb failed))
      end.

Fixpoint caught_in_list (fuel : nat) (it : CatchHandlerIterator) (common_super : option RegType)
    : F (option RegType * CatchHandlerIterator + RegType) :=
  match fuel with
  | O => abort
  | S fuel =>
      if HasNext it then
        idx ← get_idx;
        if GetHandlerAddress it =? idx then
          r ← caught_type (GetHandlerTypeIndex it) common_super;
          match r with
          | inr t => mret (inr t)
          | inl (common, true) => caught_in_list fuel (Next m it) common
          | inl (common, false) => mret (inl (common, it))
          end
        else caught_in_list fuel (Next m it) common_super
      else mret (inl (common_super, it))
  end.

Fixpoint caught_in_lists (handlers_size : nat) (handlers_ptr : Z) (common_super : option RegType)
    : F (option RegType + RegType) :=
  match handlers_size with
  | O => mret (inl common_super)
  | S n =>
      let iterator := Init_data m handlers_ptr in
      r ← caught_in_list (handlers_fuel iterator) iterator common_super;
      match r with
      | inr t => mret (inr t)
      | inl (common, it) => caught_in_lists n (current_data_ it) common
      end
  end.

Definition GetCaughtExceptionType : F RegType :=
  r ← (if negb (tries_size_ code_item =? 0) then
         let '(handlers_size, handlers_ptr) :=
           DecodeUnsignedLeb128 m (GetCatchHandlerData code_item 0) in
         caught_in_lists (Z.to_nat handlers_size) handlers_ptr None
       else mret (inl None));
  match r with
  | inr t => mret t
  | inl (Some t) => mret t
  | inl None => fail_flow VERIFY_ERROR_BAD_CLASS_SOFT Conflict
  end.

(** ** The registers at entry *)

Definition IsPrimitiveDescriptor (c : ascii) : bool :=
  existsb (Ascii.eqb c) ["I"%char; "C"%char; "S"%char; "B"%char; "Z"%char; "F"%char; "D"%char; "J"%char].

(** A class name is closed by [';'], whatever follows it. *)
Fixpoint has_semicolon (d : string) : bool :=
  match d with
  | EmptyString => false
  | String c d => Ascii.eqb c ";"%char || has_semicolon d
  end.

(** The part of an array descriptor after its leading brackets. *)
Fixpoint array_element_ok (d : string) : bool :=
  match d with
  | EmptyString => false
  | String c d' =>
      if Ascii.eqb c "["%char then array_element_ok d'
      else if Ascii.eqb c "L"%char then has_semicolon d'
      else IsPrimitiveDescriptor c && match d' with EmptyString => true | _ => false end
  end.

Definition return_descriptor_ok (d : string) : bool :=
  match d with
  | EmptyString => false
  | String c d' =>
      if IsPrimitiveDescriptor c || Ascii.eqb c "V"%char
      then match d' with EmptyString => true | _ => false end
      else if Ascii.eqb c "["%char then array_element_ok d'
      else if Ascii.eqb c "L"%char then has_semicolon d'
      else false
  end.

(** The register type a primitive descriptor's letter gives to an argument of one
    register. *)
Definition narrow_argument (c : ascii) : option RegType :=
  if Ascii.eqb c "Z"%char then Some Boolean
  else if Ascii.eqb c "C"%char then Some Char
  else if Ascii.eqb c "B"%char then Some Byte
  else if Ascii.eqb c "I"%char then Some Integer
  else if Ascii.eqb c "S"%char then Some Short
  else if Ascii.eqb c "F"%char then Some Float
  else None.

(** One parameter: the updated line and the next argument, or nothing on failure. *)
Definition set_parameter (arg_start expected_args type_idx cur_arg : Z) (l : RegisterLine)
    : F (option (Z * RegisterLine)) :=
  match StringByTypeIdx dex_file type_idx with
  | EmptyString => hard;; mret None
  | String c _ =>
      if Ascii.eqb c "L"%char || Ascii.eqb c "["%char then
        reg_type ← ResolveClassAndCheckAccess type_idx;
        if negb (IsNonZeroReferenceTypes (kind reg_type)) then mret None
        else l ← set_type m code_item (arg_start + cur_arg) reg_type l; mret (Some (cur_arg + 1, l))
      else
        match narrow_argument c with
        | Some t => l ← set_type m code_item (arg_start + cur_arg) t l; mret (Some (cur_arg + 1, l))
        | None =>
            if Ascii.eqb c "J"%char || Ascii.eqb c "D"%char then
              if expected_args <=? cur_arg + 1 then hard;; mret None
              else
                let '(lo_half, hi_half) :=
                  if Ascii.eqb c "J"%char then (LongLo, LongHi) else (DoubleLo, DoubleHi) in
                l ← set_type_wide m code_item (arg_start + cur_arg) lo_half hi_half l;
                mret (Some (cur_arg + 2, l))
            else hard;; mret None
        end
  end.

Fixpoint set_parameters (arg_start expected_args : Z) (types : list Z) (cur_arg : Z)
    (l : RegisterLine) : F (option (Z * RegisterLine)) :=
  match types with
  | [] => mret (Some (cur_arg, l))
  | type_idx :: types =>
      if expected_args <=? cur_arg then hard;; mret None
      else
        r ← set_parameter arg_start expected_args type_idx cur_arg l;
        match r with
        | Some (cur_arg, l) => set_parameters arg_start expected_args types cur_arg l
        | None => mret None
        end
  end.

(** The receiver: argument 0 of a method that is not static. *)
Definition set_receiver (arg_start : Z) (l : RegisterLine) : F RegisterLine :=
  declaring_class ← GetDeclaringClass;
  if IsConstructor method then
    if IsJavaLangObject LK (kind declaring_class) then
      set_type m code_item arg_start declaring_class (SetThisInitialized l)
    else
      t ← types (UninitializedThisArgument LK declaring_class);
      set_type m code_item arg_start t l
  else set_type m code_item arg_start declaring_class l.

Definition get_line (insn_idx : Z) : F (option RegisterLine) := fun s =>
  FDone (reg_table_ s !! insn_idx) s.
Definition put_line (insn_idx : Z) (l : RegisterLine) : F unit := fun s =>
  FDone tt (with_table s (<[insn_idx := l]> (reg_table_ s))).

(** The line goes back into the table once all parameters are set; a failure
    before that ends the verification. *)
Definition SetTypesFromSignature : F bool :=
  line ← get_line 0; reg_line ← liftF line;
  let arg_start := registers_size - ins_size_ code_item in
  let expected_args := ins_size_ code_item in
  if negb (IsStatic method) && (expected_args =? 0) then hard;; mret false
  else
    l ← (if IsStatic method then mret reg_line else set_receiver arg_start reg_line);
    r ← set_parameters arg_start expected_args (parameters method)
          (if IsStatic method then 0 else 1) l;
    match r with
    | None => mret false
    | Some (cur_arg, l) =>
        put_line 0 l;;
        if negb (cur_arg =? expected_args) then hard;; mret false
        else if return_descriptor_ok (GetReturnTypeDescriptor method) then mret true
        else hard;; mret false
    end.

(** ** Arrays *)

Definition GetComponentTypeF (array_type : RegType) : F RegType :=
  loading (fun load => RegType_GetComponentType LK load array_type).
Definition is_array_type (t : RegType) : F bool := fun s =>
  FDone (IsArrayTypes LK (entries_ (reg_types_ s)) (kind t)) s.

(** [have_pending_runtime_throw_failure_ = b] *)
Definition set_runtime_throw (b : bool) : F unit := fun s =>
  let v := static_state s in
  let p := pending v in
  FDone tt (with_static s (with_pending v
    {| failures_ := failures_ p; encountered_failure_types_ := encountered_failure_types_ p;
       have_pending_hard_failure_ := have_pending_hard_failure_ p;
       have_pending_runtime_throw_failure_ := b;
       have_pending_experimental_failure_ := have_pending_experimental_failure_ p |})).

(** The registers from [regs] against [expected_type], in order. *)
Fixpoint verify_elements (regs : list Z) (expected_type : RegType) : F bool :=
  match regs with
  | [] => mret true
  | r :: regs => both (verify_work r expected_type) (verify_elements regs expected_type)
  end.

Definition set_work_result (t : RegType) : F unit :=
  on_work_ (fun l => mret (SetResultRegisterType l t)).

(** The registers of [filled-new-array]; a sixth argument would be read past the
    end of [arg]. *)
Definition element_registers (inst : Instruction) (is_range : bool) : option (list Z) :=
  if is_range
  then Some (map (fun i => u32 (VRegC_3rc inst + Z.of_nat i)) (seq 0 (Z.to_nat (VRegA_3rc inst))))
  else
    let arg_count := Z.to_nat (VRegA_35c inst) in
    if (arg_count <=? 5)%nat then Some (take arg_count (GetVarArgs inst)) else None.

Definition VerifyNewArray (inst : Instruction) (is_filled is_range : bool) : F unit :=
  let type_idx := if negb is_filled then VRegC_22c inst
                  else if negb is_range then VRegB_35c inst else VRegB_3rc inst in
  res_type ← ResolveClassAndCheckAccess type_idx;
  if IsConflict (kind res_type) then mret tt
  else
    is_array ← is_array_type res_type;
    if negb is_array then hard
    else if negb is_filled then
      verify_work (VRegB_22c inst) Integer;;
      precise_type ← types (FromUninitialized LK res_type);
      set_work_type (VRegA_22c inst) precise_type
    else
      expected_type ← GetComponentTypeF res_type;
      regs ← liftF (element_registers inst is_range);
      ok ← verify_elements regs expected_type;
      if ok : bool then
        precise_type ← types (FromUninitialized LK res_type);
        set_work_result precise_type
      else set_work_result Conflict.

(** What [aget] may load from an array of this component type. *)
Definition aget_component (insn_type component_type : RegType) (is_primitive : bool) : bool :=
  let k := kind component_type in
  if negb (IsReferenceTypes k) && negb is_primitive then false
  else if IsNonZeroReferenceTypes k && is_primitive then false
  else
    negb (is_primitive && negb (Equals insn_type component_type)
          && negb ((IsInteger (kind insn_type) && IsFloat k)
                   || (IsLong (kind insn_type) && IsDouble k))).

Definition aget_null (inst : Instruction) (insn_type : RegType) (is_primitive : bool) : F unit :=
  set_runtime_throw true;;
  if negb is_primitive || IsCategory1Types (kind insn_type)
  then set_work_type (VRegA_23x inst) Zero
  else
    lo ← types (FromCat2ConstLo LK 0 false);
    hi ← types (FromCat2ConstHi LK 0 false);
    set_work_type_wide (VRegA_23x inst) lo hi.

Definition aget_element (inst : Instruction) (insn_type component_type : RegType)
    (is_primitive : bool) : F unit :=
  if negb (aget_component insn_type component_type is_primitive) then hard
  else if negb (IsLowHalf (kind component_type)) then
    set_work_type (VRegA_23x inst) component_type
  else
    hi ← types (HighHalf LK component_type);
    set_work_type_wide (VRegA_23x inst) component_type hi.

Definition VerifyAGet (inst : Instruction) (insn_type : RegType) (is_primitive : bool) : F unit :=
  index_type ← work_type (VRegC_23x inst);
  if negb (IsArrayIndexTypes (kind index_type)) then hard
  else
    array_type ← work_type (VRegB_23x inst);
    if IsZero (kind array_type) then aget_null inst insn_type is_primitive
    else
      is_array ← is_array_type array_type;
      if negb is_array then hard
      else if IsUnresolvedMergedReference (kind array_type) then
        if is_primitive then hard
        else
          FailFlow VERIFY_ERROR_NO_CLASS;;
          object ← types (JavaLangObject LK false);
          set_work_type (VRegA_23x inst) object
      else
        component_type ← GetComponentTypeF array_type;
        aget_element inst insn_type component_type is_primitive.

(** A value of two registers: the target type's own test and the pair. *)
Definition wide_value (is_type : RegKind -> bool) (instruction_compatible : bool) (value_type : RegType)
    (vregA : Z) : F bool :=
  l ← get_work;
  if instruction_compatible && (vregA + 1 <? NumRegs l) then
    value_type_hi ← work_type (vregA + 1);
    mret (is_type (kind value_type) && CheckWidePair (kind value_type) (kind value_type_hi))
  else mret false.

Definition VerifyPrimitivePut (target_type insn_type : RegType) (vregA : Z) : F unit :=
  value_type ← work_type vregA;
  let target := kind target_type in
  let insn := kind insn_type in
  '(instruction_compatible, value_compatible) ←
    (if IsIntegralTypes target then
       mret (Equals target_type insn_type, IsIntegralTypes (kind value_type))
     else if IsFloat target then mret (IsInteger insn, IsFloatTypes (kind value_type))
     else if IsLong target then
       ok ← wide_value IsLongTypes (IsLong insn) value_type vregA; mret (IsLong insn, ok)
     else if IsDouble target then
       ok ← wide_value IsDoubleTypes (IsLong insn) value_type vregA; mret (IsLong insn, ok)
     else mret (false, false));
  when (negb (instruction_compatible && value_compatible)) hard.

(** The type a value stored into null is checked against. *)
Definition aput_null_type (insn_type : RegType) (vregA : Z) : F RegType :=
  if same_object insn_type Integer || same_object insn_type LongLo then
    value_type ← work_type vregA;
    mret (if same_object insn_type Integer
          then if same_object value_type Float then value_type else insn_type
          else if same_object value_type DoubleLo then value_type else insn_type)
  else mret insn_type.

Definition VerifyAPut (inst : Instruction) (insn_type : RegType) (is_primitive : bool) : F unit :=
  let vregA := VRegA_23x inst in
  index_type ← work_type (VRegC_23x inst);
  if negb (IsArrayIndexTypes (kind index_type)) then hard
  else
    array_type ← work_type (VRegB_23x inst);
    if IsZero (kind array_type) then
      t ← aput_null_type insn_type vregA; verify_work vregA t;; mret tt
    else
      is_array ← is_array_type array_type;
      if negb is_array then hard
      else if IsUnresolvedMergedReference (kind array_type) then
        if is_primitive then hard else FailFlow VERIFY_ERROR_NO_CLASS
      else
        component_type ← GetComponentTypeF array_type;
        if is_primitive then VerifyPrimitivePut component_type insn_type vregA
        else if negb (IsReferenceTypes (kind component_type)) then hard
        else verify_work vregA insn_type;; mret tt.

(** ** Joining paths *)

Definition CheckNotMoveException (insn_idx : Z) : F bool :=
  if Fetch16 (inst_at insn_idx) 0 &&& 0xff =? MOVE_EXCEPTION
  then fail_flow VERIFY_ERROR_BAD_CLASS_HARD false else mret true.
Definition CheckNotMoveExceptionOrMoveResult (insn_idx : Z) : F bool :=
  both (CheckNotMoveException insn_idx) (static (CheckNotMoveResult m code_item insn_idx)).

Definition flags_at (insn_idx : Z) : F Z := static (get_flags insn_idx).
Definition change_flags (insn_idx : Z) (f : Z -> Z) : F unit := static (update_flags insn_idx f).

Definition SafelyMarkAllRegistersAsConflicts (l : RegisterLine) : F RegisterLine :=
  (if IsInstanceConstructor method then CheckConstructorReturn m code_item l;; mret tt else mret tt);;
  mret (MarkAllRegistersAsConflicts l).

Definition AdjustReturnLine (ret_inst : Instruction) (l : RegisterLine) : F RegisterLine :=
  let opcode := Opcode ret_inst in
  if (opcode =? RETURN_VOID) || (opcode =? RETURN_VOID_NO_BARRIER)
  then SafelyMarkAllRegistersAsConflicts l
  else if (opcode =? RETURN) || (opcode =? RETURN_OBJECT)
  then mret (MarkAllRegistersAsConflictsExcept (VRegA_11x ret_inst) l)
  else if opcode =? RETURN_WIDE
  then mret (MarkAllRegistersAsConflictsExceptWide (VRegA_11x ret_inst) l)
  else abort.

Definition hard_failure : F bool := p ← get_failures; mret (have_pending_hard_failure_ p).

(** The first visit: the line is copied; at a return only the operand is kept.
    [false] on a hard failure. *)
Definition first_visit (next_insn : Z) (target_line merge_line : RegisterLine) : F bool :=
  let target_line := CopyFromLine target_line merge_line in
  flags ← flags_at next_insn;
  if IsReturnFlag flags then
    VerifyMonitorStackEmpty m code_item merge_line;;
    target_line ← AdjustReturnLine (inst_at next_insn) target_line;
    put_line next_insn target_line;;
    failed ← hard_failure; mret (negb failed)
  else put_line next_insn target_line;; mret true.

(** [UpdateRegisters]: the result and [merge_line] as it leaves it. *)
Definition UpdateRegisters (next_insn : Z) (merge_line : RegisterLine) (update_merge_line : bool)
    : F (bool * RegisterLine) :=
  line ← get_line next_insn; target_line ← liftF line;
  flags ← flags_at next_insn;
  if negb (IsVisitedOrChanged flags) then
    ok ← first_visit next_insn target_line merge_line;
    when ok (change_flags next_insn SetChanged);; mret (ok, merge_line)
  else
    '(changed, target_line) ← MergeRegisters LK m code_item merge_line target_line;
    put_line next_insn target_line;;
    failed ← hard_failure;
    if failed : bool then mret (false, merge_line)
    else
      when changed (change_flags next_insn SetChanged);;
      mret (true, if update_merge_line && changed then CopyFromLine merge_line target_line
                  else merge_line).

(** ** Instructions *)

(** The local variables of [CodeFlowVerifyInstruction] the cases set; [may_throw]
    says that [opcode_flags] keeps [kThrow]. *)
Record Locals := {
  just_set_result : bool;
  may_throw : bool;
  branch_line : option RegisterLine;
  fallthrough_line : option RegisterLine
}.
Definition no_locals : Locals :=
  {| just_set_result := false; may_throw := true; branch_line := None; fallthrough_line := None |}.
Definition result_set : Locals :=
  {| just_set_result := true; may_throw := true; branch_line := None; fallthrough_line := None |}.
Definition cannot_throw : Locals :=
  {| just_set_result := false; may_throw := false; branch_line := None; fallthrough_line := None |}.

Definition Case := Instruction -> F Locals.
Definition Cases := list (Z * Case).
(** [case A: case B: ... body; break;] *)
Definition cases (opcodes : list Z) (body : Instruction -> F unit) : Cases :=
  map (fun op => (op, fun inst => body inst;; mret no_locals)) opcodes.

Notation CopyRegister1 := (CopyRegister1 m code_item).
Notation CopyRegister2 := (CopyRegister2 m code_item).

Definition flow_nop_moves : Cases :=
  cases [NOP] (fun inst => when (negb (VRegA_10x inst =? 0)) hard) ++
  cases [MOVE] (fun inst =>
    on_work_ (CopyRegister1 (VRegA_12x inst) (VRegB_12x inst) kTypeCategory1nr)) ++
  cases [MOVE_FROM16] (fun inst =>
    on_work_ (CopyRegister1 (VRegA_22x inst) (VRegB_22x inst) kTypeCategory1nr)) ++
  cases [MOVE_16] (fun inst =>
    on_work_ (CopyRegister1 (VRegA_32x inst) (VRegB_32x inst) kTypeCategory1nr)) ++
  cases [MOVE_WIDE] (fun inst => on_work_ (CopyRegister2 (VRegA_12x inst) (VRegB_12x inst))) ++
  cases [MOVE_WIDE_FROM16] (fun inst =>
    on_work_ (CopyRegister2 (VRegA_22x inst) (VRegB_22x inst))) ++
  cases [MOVE_WIDE_16] (fun inst => on_work_ (CopyRegister2 (VRegA_32x inst) (VRegB_32x inst))) ++
  cases [MOVE_OBJECT] (fun inst =>
    on_work_ (CopyRegister1 (VRegA_12x inst) (VRegB_12x inst) kTypeCategoryRef)) ++
  cases [MOVE_OBJECT_FROM16] (fun inst =>
    on_work_ (CopyRegister1 (VRegA_22x inst) (VRegB_22x inst) kTypeCategoryRef)) ++
  cases [MOVE_OBJECT_16] (fun inst =>
    on_work_ (CopyRegister1 (VRegA_32x inst) (VRegB_32x inst) kTypeCategoryRef)).

Definition flow_move_results : Cases :=
  cases [MOVE_RESULT] (fun inst => on_work_ (CopyResultRegister1 m code_item (VRegA_11x inst) false)) ++
  cases [MOVE_RESULT_WIDE] (fun inst => on_work_ (CopyResultRegister2 m code_item (VRegA_11x inst))) ++
  cases [MOVE_RESULT_OBJECT] (fun inst =>
    on_work_ (CopyResultRegister1 m code_item (VRegA_11x inst) true)) ++
  cases [MOVE_EXCEPTION] (fun inst =>
    idx ← get_idx;
    if idx =? 0 then hard
    else res_type ← GetCaughtExceptionType; set_work_type (VRegA_11x inst) res_type).

(** *** Returns *)

(** [!IsInstanceConstructor() || work_line_->CheckConstructorReturn(this)] *)
Definition may_return : F bool :=
  if IsInstanceConstructor method
  then l ← get_work; CheckConstructorReturn m code_item l else mret true.

Definition flow_return_void (inst : Instruction) : F unit :=
  ok ← may_return;
  when ok (return_type ← GetMethodReturnType; when (negb (IsConflict (kind return_type))) hard).

Definition flow_return (inst : Instruction) : F unit :=
  ok ← may_return;
  when ok
    (return_type ← GetMethodReturnType;
     if negb (IsCategory1Types (kind return_type)) then hard
     else
       let vregA := VRegA_11x inst in
       src_type ← work_type vregA;
       let r := kind return_type in
       let use_src := (IsBoolean r && IsByte (kind src_type))
                      || ((IsBoolean r || IsByte r || IsShort r || IsChar r)
                          && IsInteger (kind src_type)) in
       verify_work vregA (if use_src then src_type else return_type);; mret tt).

Definition flow_return_wide (inst : Instruction) : F unit :=
  ok ← may_return;
  when ok
    (return_type ← GetMethodReturnType;
     if negb (IsCategory2Types (kind return_type)) then hard
     else verify_work (VRegA_11x inst) return_type;; mret tt).

(** A returned object that cannot be assigned to the return type; an array type
    has at most 255 dimensions. *)
Definition return_object_failure (return_type reg_type : RegType) : F unit :=
  if IsUnresolvedTypes (kind reg_type) || IsUnresolvedTypes (kind return_type)
  then FailFlow VERIFY_ERROR_NO_CLASS
  else
    a1 ← is_array_type reg_type; a2 ← is_array_type return_type;
    soft_error ← (if a1 && a2 then
                    '(_, soft_error) ←
                      loading (fun load => CanAssignArray LK load 256 return_type reg_type false);
                    mret soft_error
                  else mret false);
    FailFlow (if soft_error : bool then VERIFY_ERROR_BAD_CLASS_SOFT else VERIFY_ERROR_BAD_CLASS_HARD).

Definition flow_return_object (inst : Instruction) : F unit :=
  ok ← may_return;
  when ok
    (return_type ← GetMethodReturnType;
     if negb (IsReferenceTypes (kind return_type)) then hard
     else
       reg_type ← work_type (VRegA_11x inst);
       let k := kind reg_type in
       if IsUndefined k || IsConflict k || IsUninitializedTypes k || negb (IsReferenceTypes k)
       then hard
       else
         ok ← assignable_from return_type reg_type;
         when (negb ok) (return_object_failure return_type reg_type)).

(** The first final field among the instance fields. *)
Definition GetFirstFinalInstanceFieldIndex : option Z :=
  fst <$> find (fun f => flag_set (snd f) kAccFinal) (instance_fields method).
Definition has_final_field (declaring_class : RegType) : option bool :=
  if IsUnresolvedReference (kind declaring_class)
  then Some (bool_decide (GetFirstFinalInstanceFieldIndex <> None))
  else
    klass ← GetClass LK (kind declaring_class);
    Some (existsb (fun flags => flag_set flags kAccFinal) (field_access_flags_ (class_at CT klass))).

Definition flow_return_void_no_barrier (inst : Instruction) : F unit :=
  unresolved ←
    (if IsInstanceConstructor method then
       declaring_class ← GetDeclaringClass;
       final ← liftF (has_final_field declaring_class);
       when final hard;; mret (IsUnresolvedReference (kind declaring_class))
     else mret false);
  when (negb unresolved && negb (IsConstructor method))
    (return_type ← GetMethodReturnType; when (negb (IsConflict (kind return_type))) hard).

Definition flow_returns : Cases :=
  cases [RETURN_VOID] flow_return_void ++ cases [RETURN] flow_return ++
  cases [RETURN_WIDE] flow_return_wide ++ cases [RETURN_OBJECT] flow_return_object ++
  cases [RETURN_VOID_NO_BARRIER] flow_return_void_no_barrier.

(** *** Constants *)

Definition set_constant (vreg val : Z) : F unit :=
  t ← types (DetermineCat1Constant val (need_precise_constants_ method)); set_work_type vreg t.
Definition set_wide_constant (vreg val : Z) : F unit :=
  lo ← types (FromCat2ConstLo LK (s32 val) true);
  hi ← types (FromCat2ConstHi LK (s32 (val >> 32)) true);
  set_work_type_wide vreg lo hi.

Definition flow_const_class (inst : Instruction) : F unit :=
  res_type ← ResolveClassAndCheckAccess (VRegB_21c inst);
  t ← (if IsConflict (kind res_type) then mret res_type else types (JavaLangClass LK));
  set_work_type (VRegA_21c inst) t.

Definition flow_consts : Cases :=
  cases [CONST_4] (fun inst => set_constant (VRegA_11n inst) (s32 (VRegB_11n inst << 28) >> 28)) ++
  cases [CONST_16] (fun inst => set_constant (VRegA_21s inst) (s16 (VRegB_21s inst))) ++
  cases [CONST] (fun inst => set_constant (VRegA_31i inst) (VRegB_31i inst)) ++
  cases [CONST_HIGH16] (fun inst => set_constant (VRegA_21h inst) (s32 (VRegB_21h inst << 16))) ++
  cases [CONST_WIDE_16] (fun inst => set_wide_constant (VRegA_21s inst) (s16 (VRegB_21s inst))) ++
  cases [CONST_WIDE_32] (fun inst => set_wide_constant (VRegA_31i inst) (s32 (VRegB_31i inst))) ++
  cases [CONST_WIDE] (fun inst => set_wide_constant (VRegA_51l inst) (VRegB_51l inst)) ++
  cases [CONST_WIDE_HIGH16] (fun inst =>
    set_wide_constant (VRegA_21h inst) (s64 (u64 (VRegB_21h inst << 48)))) ++
  cases [CONST_STRING] (fun inst =>
    t ← types (JavaLangString LK); set_work_type (VRegA_21c inst) t) ++
  cases [CONST_STRING_JUMBO] (fun inst =>
    t ← types (JavaLangString LK); set_work_type (VRegA_31c inst) t) ++
  cases [CONST_CLASS] flow_const_class.

(** *** Monitors *)

(** The start of the instruction before [idx]:
    [while (0 != prev && !GetInstructionFlags(prev).IsOpcode()) prev--]. *)
Fixpoint previous_opcode (n : nat) : F Z :=
  match n with
  | O => mret 0
  | S n' =>
      flags ← flags_at (Z.of_nat n);
      if IsOpcode flags then mret (Z.of_nat n) else previous_opcode n'
  end.
Definition previous_instruction (idx : Z) : F Z := previous_opcode (Z.to_nat (idx - 1)).

Definition is_move_object (op : Z) : bool :=
  (op =? MOVE_OBJECT) || (op =? MOVE_OBJECT_16) || (op =? MOVE_OBJECT_FROM16).

(** A preceding [move-object] of the locked register is redone, so that the copy
    counts as locked too. *)
Definition alias_monitor (inst : Instruction) : F unit :=
  idx ← get_idx;
  if idx =? 0 then mret tt
  else
    flags ← flags_at idx;
    if IsBranchTarget flags then mret tt
    else
      prev_idx ← previous_instruction idx;
      let prev_inst := inst_at prev_idx in
      if is_move_object (Opcode prev_inst) then
        b ← liftF (VRegB prev_inst);
        when (b =? VRegA_11x inst)
          (on_work_ (CopyRegister1 (VRegA prev_inst) b kTypeCategoryRef))
      else mret tt.

Definition flow_monitors : Cases :=
  cases [MONITOR_ENTER] (fun inst =>
    idx ← get_idx; on_work_ (PushMonitor m code_item (VRegA_11x inst) idx);; alias_monitor inst) ++
  [(MONITOR_EXIT, fun inst =>
      on_work_ (PopMonitor m code_item (VRegA_11x inst));; mret cannot_throw)].

(** *** Casts and allocation *)

Definition flow_cast (is_checkcast : bool) (inst : Instruction) : F unit :=
  let type_idx := if is_checkcast then VRegB_21c inst else VRegC_22c inst in
  res_type ← ResolveClassAndCheckAccess type_idx;
  if IsConflict (kind res_type) then
    if match LookupResolvedType LK type_idx with Some k => IsPrimitive CT k | None => false end
    then hard;; GetDeclaringClass;; mret tt
    else when (negb is_checkcast) (set_work_type (VRegA_22c inst) Boolean)
  else
    let orig_type_reg := if is_checkcast then VRegA_21c inst else VRegB_22c inst in
    orig_type ← work_type orig_type_reg;
    if negb (IsNonZeroReferenceTypes (kind res_type)) then hard
    else if negb (IsReferenceTypes (kind orig_type)) then hard
    else if IsUninitializedTypes (kind orig_type) then hard
    else if is_checkcast then keep_work_type (VRegA_21c inst) res_type
    else set_work_type (VRegA_22c inst) Boolean.

Definition flow_new_instance (inst : Instruction) : F unit :=
  res_type ← ResolveClassAndCheckAccess (VRegB_21c inst);
  if IsConflict (kind res_type) then mret tt
  else
    when (negb (IsInstantiableTypes LK (kind res_type))) (FailFlow VERIFY_ERROR_INSTANTIATION);;
    idx ← get_idx;
    uninit_type ← types (Uninitialized LK res_type idx);
    on_work_ (fun l => mret (MarkUninitRefsAsInvalid uninit_type l));;
    set_work_type (VRegA_21c inst) uninit_type.

Definition flow_array_length (inst : Instruction) : F unit :=
  res_type ← work_type (VRegB_12x inst);
  is_array ← is_array_type res_type;
  if IsReferenceTypes (kind res_type) && (is_array || IsZero (kind res_type))
  then set_work_type (VRegA_12x inst) Integer
  else hard.

Definition flow_objects : Cases :=
  cases [CHECK_CAST] (flow_cast true) ++ cases [INSTANCE_OF] (flow_cast false) ++
  cases [ARRAY_LENGTH] flow_array_length ++ cases [NEW_INSTANCE] flow_new_instance ++
  cases [NEW_ARRAY] (fun inst => VerifyNewArray inst false false) ++
  [(FILLED_NEW_ARRAY, fun inst => VerifyNewArray inst true false;; mret result_set);
   (FILLED_NEW_ARRAY_RANGE, fun inst => VerifyNewArray inst true true;; mret result_set)].

(** *** Comparisons, [throw] and switches *)

Definition flow_cmp_float (inst : Instruction) : F unit :=
  ok ← both (verify_work (VRegB_23x inst) Float) (verify_work (VRegC_23x inst) Float);
  when ok (set_work_type (VRegA_23x inst) Integer).
Definition flow_cmp_wide (lo hi : RegType) (inst : Instruction) : F unit :=
  l ← get_work;
  ok ← both (VerifyRegisterTypeWide l (VRegB_23x inst) lo hi)
            (VerifyRegisterTypeWide l (VRegC_23x inst) lo hi);
  when ok (set_work_type (VRegA_23x inst) Integer).

Definition flow_throw (inst : Instruction) : F unit :=
  res_type ← work_type (VRegA_11x inst);
  throwable ← types (JavaLangThrowable LK false);
  ok ← assignable_from throwable res_type;
  when (negb ok)
    (let k := kind res_type in
     if IsUninitializedTypes k || negb (IsReferenceTypes k) then hard
     else FailFlow (if IsUnresolvedTypes k then VERIFY_ERROR_NO_CLASS
                    else VERIFY_ERROR_BAD_CLASS_SOFT)).

(** The payload's element width against the component type of the array. *)
Definition check_array_data (inst : Instruction) (component_type : RegType) : F unit :=
  let array_data := RelativeAt inst (payload_offset inst) in
  when (negb (Fetch16 array_data 0 =? kArrayDataSignature)
        || negb (Fetch16 array_data 1 =? ComponentSize (GetPrimitiveType (kind component_type)))) hard.

Definition flow_fill_array_data (inst : Instruction) : F unit :=
  array_type ← work_type (VRegA_31t inst);
  if IsZero (kind array_type) then mret tt
  else
    is_array ← is_array_type array_type;
    if negb is_array then hard
    else if IsUnresolvedTypes (kind array_type) then hard
    else
      component_type ← GetComponentTypeF array_type;
      if IsNonZeroReferenceTypes (kind component_type) then hard
      else check_array_data inst component_type.

Definition flow_others : Cases :=
  cases [CMPL_FLOAT; CMPG_FLOAT] flow_cmp_float ++
  cases [CMPL_DOUBLE; CMPG_DOUBLE] (flow_cmp_wide DoubleLo DoubleHi) ++
  cases [CMP_LONG] (flow_cmp_wide LongLo LongHi) ++
  cases [THROW] flow_throw ++
  cases [GOTO; GOTO_16; GOTO_32] (fun _ => mret tt) ++
  cases [PACKED_SWITCH; SPARSE_SWITCH] (fun inst => verify_work (VRegA_31t inst) Integer;; mret tt) ++
  cases [FILL_ARRAY_DATA] flow_fill_array_data.

(** *** Conditional branches *)

Definition flow_if_eq (inst : Instruction) : F unit :=
  reg_type1 ← work_type (VRegA_22t inst);
  reg_type2 ← work_type (VRegB_22t inst);
  let k1 := kind reg_type1 in
  let k2 := kind reg_type2 in
  when (if IsZero k1 then negb (IsReferenceTypes k2) && negb (IsIntegralTypes k2)
        else if IsReferenceTypes k1 then negb (IsReferenceTypes k2)
        else negb (IsIntegralTypes k1) || negb (IsIntegralTypes k2)) hard.

Definition flow_if_lt (inst : Instruction) : F unit :=
  reg_type1 ← work_type (VRegA_22t inst);
  reg_type2 ← work_type (VRegB_22t inst);
  when (negb (IsIntegralTypes (kind reg_type1)) || negb (IsIntegralTypes (kind reg_type2))) hard.

Definition flow_if_ltz (inst : Instruction) : F unit :=
  reg_type ← work_type (VRegA_21t inst);
  when (negb (IsIntegralTypes (kind reg_type))) hard.

(** The source register of a [move-object] into [vreg]. *)
Definition moved_from (move_inst : Instruction) (vreg : Z) : option Z :=
  let op := Opcode move_inst in
  if (op =? MOVE_OBJECT) && (VRegA_12x move_inst =? vreg) then Some (VRegB_12x move_inst)
  else if (op =? MOVE_OBJECT_FROM16) && (VRegA_22x move_inst =? vreg) then Some (VRegB_22x move_inst)
  else if (op =? MOVE_OBJECT_16) && (VRegA_32x move_inst =? vreg) then Some (VRegB_32x move_inst)
  else None.

Definition keep_type (vreg : Z) (t : RegType) (l : RegisterLine) : F RegisterLine :=
  '(_, l) ← SetRegisterType m code_item kKeep vreg t l; mret l.

(** The source of a [move-object] before the [instance-of] gets the cast type
    too; the line as it is after a failure otherwise. *)
Definition sharpen_moved (instance_of_idx : Z) (instance_of_inst : Instruction) (cast_type : RegType)
    (update_line : RegisterLine) : F RegisterLine :=
  flags ← flags_at instance_of_idx;
  if negb (IsBranchTarget flags) && negb (instance_of_idx =? 0) then
    move_idx ← previous_instruction instance_of_idx;
    move_flags ← flags_at move_idx;
    failed ← FailOrAbort (IsOpcode move_flags);
    if failed : bool then mret update_line
    else
      match moved_from (inst_at move_idx) (VRegB_22c instance_of_inst) with
      | Some v => keep_type v cast_type update_line
      | None => mret update_line
      end
  else mret update_line.

(** Whether the type of the tested register is sharpened to the cast type. *)
Definition may_sharpen (orig_type cast_type : RegType) : F bool :=
  if negb (Equals orig_type cast_type)
     && negb (IsUnresolvedTypes (kind cast_type)) && negb (IsUnresolvedTypes (kind orig_type))
     && HasClass LK (kind cast_type) && negb (class_test LK (IsInterface CT) (kind cast_type))
  then
    if IsZero (kind orig_type) then mret true
    else
      merged ← types (Merge LK cast_type orig_type);
      types (IsStrictlyAssignableFrom LK orig_type merged)
  else mret false.

Definition sharpen (inst : Instruction) (instance_of_idx : Z) : F Locals :=
  let instance_of_inst := inst_at instance_of_idx in
  orig_type ← work_type (VRegB_22c instance_of_inst);
  cast_type ← ResolveClassAndCheckAccess (VRegC_22c instance_of_inst);
  ok ← may_sharpen orig_type cast_type;
  if negb ok then mret no_locals
  else
    work ← get_work;
    update_line ← keep_type (VRegB_22c instance_of_inst) cast_type
                    (CopyFromLine (Create registers_size) work);
    update_line ← sharpen_moved instance_of_idx instance_of_inst cast_type update_line;
    mret (if Opcode inst =? IF_EQZ
          then {| just_set_result := false; may_throw := true;
                  branch_line := None; fallthrough_line := Some update_line |}
          else {| just_set_result := false; may_throw := true;
                  branch_line := Some update_line; fallthrough_line := None |}).

Definition is_peephole (inst instance_of_inst : Instruction) (flags : Z) : bool :=
  negb (IsBranchTarget flags) && (Opcode instance_of_inst =? INSTANCE_OF)
  && (VRegA_21t inst =? VRegA_22c instance_of_inst)
  && negb (VRegA_22c instance_of_inst =? VRegB_22c instance_of_inst).

(** [if-eqz] and [if-nez], with the peephole for a preceding [instance-of]. *)
Definition flow_if_eqz : Case := fun inst =>
  reg_type ← work_type (VRegA_21t inst);
  when (negb (IsReferenceTypes (kind reg_type)) && negb (IsIntegralTypes (kind reg_type))) hard;;
  idx ← get_idx;
  if idx =? 0 then mret no_locals
  else
    instance_of_idx ← previous_instruction idx;
    prev_flags ← flags_at instance_of_idx;
    failed ← FailOrAbort (IsOpcode prev_flags);
    if failed : bool then mret no_locals
    else
      flags ← flags_at idx;
      if is_peephole inst (inst_at instance_of_idx) flags then sharpen inst instance_of_idx
      else mret no_locals.

Definition flow_ifs : Cases :=
  cases [IF_EQ; IF_NE] flow_if_eq ++ cases [IF_LT; IF_GE; IF_GT; IF_LE] flow_if_lt ++
  [(IF_EQZ, flow_if_eqz); (IF_NEZ, flow_if_eqz)] ++
  cases [IF_LTZ; IF_GEZ; IF_GTZ; IF_LEZ] flow_if_ltz.

(** *** Array accesses *)

Definition object_access (access : Instruction -> RegType -> bool -> F unit) (inst : Instruction)
    : F unit :=
  object ← types (JavaLangObject LK false); access inst object false.

Definition flow_arrays : Cases :=
  cases [AGET_BOOLEAN] (fun inst => VerifyAGet inst Boolean true) ++
  cases [AGET_BYTE] (fun inst => VerifyAGet inst Byte true) ++
  cases [AGET_CHAR] (fun inst => VerifyAGet inst Char true) ++
  cases [AGET_SHORT] (fun inst => VerifyAGet inst Short true) ++
  cases [AGET] (fun inst => VerifyAGet inst Integer true) ++
  cases [AGET_WIDE] (fun inst => VerifyAGet inst LongLo true) ++
  cases [AGET_OBJECT] (object_access VerifyAGet) ++
  cases [APUT_BOOLEAN] (fun inst => VerifyAPut inst Boolean true) ++
  cases [APUT_BYTE] (fun inst => VerifyAPut inst Byte true) ++
  cases [APUT_CHAR] (fun inst => VerifyAPut inst Char true) ++
  cases [APUT_SHORT] (fun inst => VerifyAPut inst Short true) ++
  cases [APUT] (fun inst => VerifyAPut inst Integer true) ++
  cases [APUT_WIDE] (fun inst => VerifyAPut inst LongLo true) ++
  cases [APUT_OBJECT] (object_access VerifyAPut).

(** *** Arithmetic *)

Definition unop (dst src : RegType) (inst : Instruction) : F unit :=
  on_work_ (CheckUnaryOp LK m code_item inst dst src).
Definition unop_wide (dst1 dst2 src1 src2 : RegType) (inst : Instruction) : F unit :=
  on_work_ (CheckUnaryOpWide LK m code_item inst dst1 dst2 src1 src2).
Definition unop_to_wide (dst1 dst2 src : RegType) (inst : Instruction) : F unit :=
  on_work_ (CheckUnaryOpToWide LK m code_item inst dst1 dst2 src).
Definition unop_from_wide (dst src1 src2 : RegType) (inst : Instruction) : F unit :=
  on_work_ (CheckUnaryOpFromWide LK m code_item inst dst src1 src2).

Definition flow_unops : Cases :=
  cases [NEG_INT; NOT_INT] (unop Integer Integer) ++
  cases [NEG_LONG; NOT_LONG] (unop_wide LongLo LongHi LongLo LongHi) ++
  cases [NEG_FLOAT] (unop Float Float) ++
  cases [NEG_DOUBLE] (unop_wide DoubleLo DoubleHi DoubleLo DoubleHi) ++
  cases [INT_TO_LONG] (unop_to_wide LongLo LongHi Integer) ++
  cases [INT_TO_FLOAT] (unop Float Integer) ++
  cases [INT_TO_DOUBLE] (unop_to_wide DoubleLo DoubleHi Integer) ++
  cases [LONG_TO_INT] (unop_from_wide Integer LongLo LongHi) ++
  cases [LONG_TO_FLOAT] (unop_from_wide Float LongLo LongHi) ++
  cases [LONG_TO_DOUBLE] (unop_wide DoubleLo DoubleHi LongLo LongHi) ++
  cases [FLOAT_TO_INT] (unop Integer Float) ++
  cases [FLOAT_TO_LONG] (unop_to_wide LongLo LongHi Float) ++
  cases [FLOAT_TO_DOUBLE] (unop_to_wide DoubleLo DoubleHi Float) ++
  cases [DOUBLE_TO_INT] (unop_from_wide Integer DoubleLo DoubleHi) ++
  cases [DOUBLE_TO_LONG] (unop_wide LongLo LongHi DoubleLo DoubleHi) ++
  cases [DOUBLE_TO_FLOAT] (unop_from_wide Float DoubleLo DoubleHi) ++
  cases [INT_TO_BYTE] (unop Byte Integer) ++
  cases [INT_TO_CHAR] (unop Char Integer) ++
  cases [INT_TO_SHORT] (unop Short Integer).

Definition binop (t : RegType) (check_boolean_op : bool) (inst : Instruction) : F unit :=
  on_work_ (CheckBinaryOp LK m code_item inst t t t check_boolean_op).
Definition binop_wide (lo hi : RegType) (inst : Instruction) : F unit :=
  on_work_ (CheckBinaryOpWide LK m code_item inst lo hi lo hi lo hi).
Definition binop_2addr (t : RegType) (check_boolean_op : bool) (inst : Instruction) : F unit :=
  on_work_ (CheckBinaryOp2addr LK m code_item inst t t t check_boolean_op).
Definition binop_2addr_wide (lo hi : RegType) (inst : Instruction) : F unit :=
  on_work_ (CheckBinaryOp2addrWide LK m code_item inst lo hi lo hi lo hi).
Definition literal_op (check_boolean_op is_lit16 : bool) (inst : Instruction) : F unit :=
  on_work_ (CheckLiteralOp LK m code_item inst Integer Integer check_boolean_op is_lit16).

Definition flow_binops : Cases :=
  cases [ADD_INT; SUB_INT; MUL_INT; REM_INT; DIV_INT; SHL_INT; SHR_INT; USHR_INT]
    (binop Integer false) ++
  cases [AND_INT; OR_INT; XOR_INT] (binop Integer true) ++
  cases [ADD_LONG; SUB_LONG; MUL_LONG; DIV_LONG; REM_LONG; AND_LONG; OR_LONG; XOR_LONG]
    (binop_wide LongLo LongHi) ++
  cases [SHL_LONG; SHR_LONG; USHR_LONG] (fun inst =>
    on_work_ (CheckBinaryOpWideShift LK m code_item inst LongLo LongHi Integer)) ++
  cases [ADD_FLOAT; SUB_FLOAT; MUL_FLOAT; DIV_FLOAT; REM_FLOAT] (binop Float false) ++
  cases [ADD_DOUBLE; SUB_DOUBLE; MUL_DOUBLE; DIV_DOUBLE; REM_DOUBLE]
    (binop_wide DoubleLo DoubleHi).

Definition flow_binops_2addr : Cases :=
  cases [ADD_INT_2ADDR; SUB_INT_2ADDR; MUL_INT_2ADDR; REM_INT_2ADDR; SHL_INT_2ADDR;
         SHR_INT_2ADDR; USHR_INT_2ADDR] (binop_2addr Integer false) ++
  cases [AND_INT_2ADDR; OR_INT_2ADDR; XOR_INT_2ADDR] (binop_2addr Integer true) ++
  cases [DIV_INT_2ADDR] (binop_2addr Integer false) ++
  cases [ADD_LONG_2ADDR; SUB_LONG_2ADDR; MUL_LONG_2ADDR; DIV_LONG_2ADDR; REM_LONG_2ADDR;
         AND_LONG_2ADDR; OR_LONG_2ADDR; XOR_LONG_2ADDR] (binop_2addr_wide LongLo LongHi) ++
  cases [SHL_LONG_2ADDR; SHR_LONG_2ADDR; USHR_LONG_2ADDR] (fun inst =>
    on_work_ (CheckBinaryOp2addrWideShift LK m code_item inst LongLo LongHi Integer)) ++
  cases [ADD_FLOAT_2ADDR; SUB_FLOAT_2ADDR; MUL_FLOAT_2ADDR; DIV_FLOAT_2ADDR; REM_FLOAT_2ADDR]
    (binop_2addr Float false) ++
  cases [ADD_DOUBLE_2ADDR; SUB_DOUBLE_2ADDR; MUL_DOUBLE_2ADDR; DIV_DOUBLE_2ADDR;
         REM_DOUBLE_2ADDR] (binop_2addr_wide DoubleLo DoubleHi).

Definition flow_literals : Cases :=
  cases [ADD_INT_LIT16; RSUB_INT_LIT16; MUL_INT_LIT16; DIV_INT_LIT16; REM_INT_LIT16]
    (literal_op false true) ++
  cases [AND_INT_LIT16; OR_INT_LIT16; XOR_INT_LIT16] (literal_op true true) ++
  cases [ADD_INT_LIT8; RSUB_INT_LIT8; MUL_INT_LIT8; DIV_INT_LIT8; REM_INT_LIT8; SHL_INT_LIT8;
         SHR_INT_LIT8; USHR_INT_LIT8] (literal_op false false) ++
  cases [AND_INT_LIT8; OR_INT_LIT8; XOR_INT_LIT8] (literal_op true false).

Definition flow_unused : Cases :=
  cases [UNUSED_3E; UNUSED_3F; UNUSED_40; UNUSED_41; UNUSED_42; UNUSED_43;
         UNUSED_F3; UNUSED_F4; UNUSED_F5; UNUSED_F6; UNUSED_F7; UNUSED_F8; UNUSED_F9;
         UNUSED_FE; UNUSED_FF; UNUSED_79; UNUSED_7A] (fun _ => hard).

(** The [switch]; opcodes without an entry are field accesses and invocations. *)
Definition flow_cases : Cases :=
  flow_nop_moves ++ flow_move_results ++ flow_returns ++ flow_consts ++ flow_monitors ++
  flow_objects ++ flow_others ++ flow_ifs ++ flow_arrays ++ flow_unops ++ flow_binops ++
  flow_binops_2addr ++ flow_literals ++ flow_unused.

Definition case_of (op : Z) : Case :=
  match find (fun e => fst e =? op) flow_cases with
  | Some (_, c) => c
  | None => fun _ _ => FNotModelled
  end.

(** ** Where the instruction goes on *)

Definition update_work (next_insn : Z) : F bool :=
  l ← get_work; '(ok, _) ← UpdateRegisters next_insn l false; mret ok.

(** The target of the branch, or nothing on failure. *)
Definition do_branch (locals : Locals) (idx : Z) : F (option Z) :=
  match GetBranchOffset m code_item idx with
  | None => hard;; mret None
  | Some (branch_target, _, _) =>
      let target := u32 (idx + branch_target) in
      ok ← CheckNotMoveExceptionOrMoveResult target;
      if negb ok then mret None
      else
        ok ← (match branch_line locals with
              | Some l => '(ok, _) ← UpdateRegisters target l false; mret ok
              | None => update_work target
              end);
        mret (if ok : bool then Some target else None)
  end.

Definition do_switch_target (idx : Z) (switch_insns : Instruction) (offset_to_targets targ : Z)
    : F bool :=
  let offset := table_int switch_insns (offset_to_targets + targ * 2) in
  let abs_offset := u32 (idx + offset) in
  both (CheckNotMoveExceptionOrMoveResult abs_offset) (update_work abs_offset).

(** [for (targ = 0; targ < n; targ++) { if (!body(targ)) return false; }] from [targ]. *)
Fixpoint for_targets (n : nat) (targ : Z) (body : Z -> F bool) : F bool :=
  match n with
  | O => mret true
  | S n => both (body targ) (for_targets n (targ + 1) body)
  end.

Definition do_switch (inst : Instruction) (idx : Z) : F bool :=
  let switch_insns := RelativeAt inst (payload_offset inst) in
  let switch_count := Fetch16 switch_insns 1 in
  let offset_to_targets :=
    if Fetch16 inst 0 &&& 0xff =? PACKED_SWITCH then 4 else 2 + 2 * switch_count in
  for_targets (Z.to_nat switch_count) 0 (do_switch_target idx switch_insns offset_to_targets).

(** The handlers of the try block: whether one of them catches everything, or
    nothing on failure. *)
Fixpoint do_handlers (fuel : nat) (it : CatchHandlerIterator) (has_catch_all_handler : bool)
    : F (option bool) :=
  match fuel with
  | O => abort
  | S fuel =>
      if HasNext it then
        let handler_type_idx := GetHandlerTypeIndex it in
        let catch_all :=
          if negb (TypeIndex_IsValid handler_type_idx) then true
          else bool_decide (ResolveType LK handler_type_idx = Some (GetJavaLangThrowable LK))
               || has_catch_all_handler in
        saved ← (fun s => FDone (saved_line_ s) s);
        '(ok, _) ← UpdateRegisters (GetHandlerAddress it) saved false;
        if ok : bool then do_handlers fuel (Next m it) catch_all else mret None
      else mret (Some has_catch_all_handler)
  end.

Definition do_throw (inst : Instruction) (idx : Z) : F bool :=
  iterator ← liftF (CatchHandlerIterator_at m code_item idx);
  r ← do_handlers (handlers_fuel iterator) iterator false;
  match r with
  | None => mret false
  | Some has_catch_all_handler =>
      l ← get_work;
      if (0 <? MonitorStackDepth l) && negb has_catch_all_handler
         && (negb (Opcode inst =? MONITOR_ENTER) || negb (MonitorStackDepth l =? 1))
      then hard;; mret false
      else mret true
  end.

Definition do_continue (locals : Locals) (inst : Instruction) (next_insn_idx : Z) : F bool :=
  if insns_size <=? next_insn_idx then hard;; mret false
  else
    ok ← CheckNotMoveException next_insn_idx;
    if negb ok then mret false
    else
      (match fallthrough_line locals with
       | Some l => on_work_ (fun w => mret (CopyFromLine w l))
       | None => mret tt
       end);;
      flags ← flags_at next_insn_idx;
      when (IsReturnFlag flags) (on_work_ (AdjustReturnLine (inst_at next_insn_idx)));;
      next_line ← get_line next_insn_idx;
      match next_line with
      | Some _ => on_work (fun w => UpdateRegisters next_insn_idx w true)
      | None => change_flags next_insn_idx SetChanged;; mret true
      end.

Definition save_work : F unit := fun s =>
  FDone tt (with_saved s (CopyFromLine (saved_line_ s) (work_line_ s))).

(** [opcode_flags] after the [switch]. *)
Definition opcode_flags_of (inst : Instruction) (locals : Locals) (runtime_throw : bool) : Z :=
  let flags := FlagsOf (Opcode inst) in
  if runtime_throw then kThrow
  else if may_throw locals then flags else flags &&& Z.lnot kThrow.

(** After a hard failure: the compiler insists that it was the last one. *)
Definition rejected : F unit := fun s =>
  let v := static_state s in
  if IsAotCompiler (settings v)
     && match head (reverse (failures_ (pending v))) with
        | Some VERIFY_ERROR_BAD_CLASS_HARD => false
        | _ => true
        end
  then FAbort else FDone tt s.

Definition end_instruction : F unit := fun s =>
  if have_pending_runtime_throw_failure_ (pending (static_state s))
  then set_runtime_throw false (with_types s true (return_type_ s) (declaring_class_ s))
  else FDone tt s.

(** Everything after the [switch]: the new [start_guess], or nothing on failure. *)
Definition flow_on (inst : Instruction) (idx opcode_flags : Z) (locals : Locals) (start_guess : Z)
    : F (option Z) :=
  when (negb (just_set_result locals)) (on_work_ (fun l => mret (SetResultTypeToUnknown l)));;
  branched ← (if flag_set opcode_flags kBranch then do_branch locals idx else mret (Some start_guess));
  match branched with
  | None => mret None
  | Some branch_guess =>
      inst_size ← liftF (SizeInCodeUnits inst);
      let next_insn_idx := u32 (idx + inst_size) in
      flags ← flags_at idx;
      ok ← both (if flag_set opcode_flags kSwitch then do_switch inst idx else mret true)
          (both (if flag_set opcode_flags kThrow && IsInTry flags then do_throw inst idx else mret true)
                (if flag_set opcode_flags kContinue then do_continue locals inst next_insn_idx
                 else mret true));
      if negb ok then mret None
      else
        when (flag_set opcode_flags kReturn) (l ← get_work; VerifyMonitorStackEmpty m code_item l);;
        end_instruction;;
        mret (Some (if flag_set opcode_flags kContinue then next_insn_idx
                    else if flag_set opcode_flags kBranch then branch_guess
                    else start_guess))
  end.

Definition CodeFlowVerifyInstruction (start_guess : Z) : F (option Z) :=
  idx ← get_idx;
  let inst := inst_at idx in
  flags ← flags_at idx;
  when (flag_set (FlagsOf (Opcode inst)) kThrow && IsInTry flags) save_work;;
  locals ← case_of (Opcode inst) inst;
  p ← get_failures;
  if have_pending_hard_failure_ p then rejected;; mret None
  else
    flow_on inst idx
      (opcode_flags_of inst locals (have_pending_runtime_throw_failure_ p)) locals start_guess.

(** ** The work list *)

(** The first changed instruction at or after [insn_idx]. *)
Fixpoint first_changed (n : nat) (insn_idx : Z) : F Z :=
  match n with
  | O => mret insn_idx
  | S n =>
      flags ← flags_at insn_idx;
      if IsChanged flags then mret insn_idx else first_changed n (insn_idx + 1)
  end.

Definition load_line (insn_idx : Z) : F unit :=
  flags ← flags_at insn_idx;
  when (IsBranchTarget flags)
    (line ← get_line insn_idx; l ← liftF line; on_work_ (fun w => mret (CopyFromLine w l))).

Definition set_idx (insn_idx : Z) : F unit := fun s => FDone tt (with_idx s insn_idx).

(** One turn of the loop: [inl] of the next [start_guess], or [inr] of the result. *)
Definition CodeFlowVerify_step (start_guess : Z) : F (Z + bool) :=
  insn_idx ← first_changed (Z.to_nat (insns_size - start_guess)) start_guess;
  if insn_idx =? insns_size then
    mret (if negb (start_guess =? 0) then inl 0 else inr true)
  else
    set_idx insn_idx;; load_line insn_idx;;
    r ← CodeFlowVerifyInstruction start_guess;
    match r with
    | None => mret (inr false)
    | Some start_guess =>
        change_flags insn_idx SetVisited;; change_flags insn_idx ClearChanged;;
        mret (inl start_guess)
    end.

(** The loop, with fuel: [None] when that was not enough. *)
Fixpoint CodeFlowVerify_loop (fuel : nat) (start_guess : Z) : F (option bool) :=
  match fuel with
  | O => mret None
  | S fuel =>
      r ← CodeFlowVerify_step start_guess;
      match r with
      | inl start_guess => CodeFlowVerify_loop fuel start_guess
      | inr result => mret (Some result)
      end
  end.

Definition CodeFlowVerifyMethod (fuel : nat) : F (option bool) :=
  change_flags 0 SetChanged;; CodeFlowVerify_loop fuel 0.

(** [PcToRegisterLineTable::Init] with [kTrackCompilerInterestPoints]. *)
Fixpoint table_from (flags : list Z) (i : Z) : gmap Z RegisterLine :=
  match flags with
  | [] => ∅
  | f :: flags =>
      if IsCompileTimeInfoPoint f || IsBranchTarget f
      then <[i := Create registers_size]> (table_from flags (i + 1))
      else table_from flags (i + 1)
  end.
Definition init_table : F unit := fun s =>
  FDone tt (with_table s (table_from (insn_flags_ (static_state s)) 0)).
Definition init_lines : F unit := fun s =>
  FDone tt (with_saved (with_work s (Create registers_size)) (Create registers_size)).

Definition VerifyCodeFlow (fuel : nat) : F (option bool) :=
  init_table;; init_lines;;
  ok ← SetTypesFromSignature;
  if negb ok then mret (Some false)
  else set_runtime_throw false;; CodeFlowVerifyMethod fuel.

(** The passes of [Verify] in order. *)
Definition VerifyPasses (allow : bool) (fuel : nat) : F (option bool) :=
  ok ← static (VerifyStatic m code_item dex_file allow);
  if ok : bool then VerifyCodeFlow fuel else mret (Some false).
End Pass.

(** The state a verifier starts with, from the static pass's. *)
Definition initial_flow (v : VState) : FlowState :=
  {| reg_types_ := new_cache; work_line_ := Create 0; saved_line_ := Create 0; reg_table_ := ∅;
     work_insn_idx_ := kDexNoIndex; have_any_pending_runtime_throw_failure_ := false;
     return_type_ := None; declaring_class_ := None; static_state := v |}.
