(* ===== verification/FlowFacts.v ===== *)
(** * What computations of the data flow pass leave alone

    Every computation of the pass only adds types to the cache and failures to the
    list, keeps the settings, and keeps a failure that throws at run time on
    record; all but the marking of successors leave the instruction flags
    alone. *)
From Stdlib Require Import String Ascii.
From stdpp Require Import gmap.
From S2P Require Import Prelude Utf Descriptors Leb128 DexInstructionList DexInstruction ExceptionTable StaticVerifier StaticVerifierFacts MirrorClass RegType RegTypeFacts RegisterLine CodeFlow.

(** ** Growing states *)

Definition failures (s : FlowState) : list VerifyError := failures_ (pending (static_state s)).
Definition entries (s : FlowState) : list RegKind := entries_ (reg_types_ s).

(** A failure that will throw at run time is or was pending. *)
Definition throws_at_runtime (s : FlowState) : bool :=
  have_any_pending_runtime_throw_failure_ s
  || have_pending_runtime_throw_failure_ (pending (static_state s)).

(** From one state to a later one: types and failures are added, and the flags of
    the instructions change as [R] says. *)
Definition evolves (R : list Z -> list Z -> Prop) (s s' : FlowState) : Prop :=
  entries s `prefix_of` entries s' /\ failures s `prefix_of` failures s' /\
  settings (static_state s) = settings (static_state s') /\
  R (insn_flags_ (static_state s)) (insn_flags_ (static_state s')) /\
  (throws_at_runtime s = true -> throws_at_runtime s' = true).

#[export] Instance evolves_preorder R : PreOrder R -> PreOrder (evolves R).
Proof.
  intros HR. split; [intros s; by split_and!|]. intros s1 s2 s3 (? & ? & ? & ? & ?) (? & ? & ? & ? & ?).
  split_and!; [by etrans|by etrans|congruence|by etrans|auto].
Qed.
Lemma evolves_weaken (R R' : list Z -> list Z -> Prop) s s' :
  (forall l l', R l l' -> R' l l') -> evolves R s s' -> evolves R' s s'.
Proof. intros H (? & ? & ? & ? & ?). split_and!; auto. Qed.

Definition evolve {A} (R : list Z -> list Z -> Prop) (c : F A) : Prop :=
  forall s a s', c s = FDone a s' -> evolves R s s'.

Lemma e_weaken {A} (R R' : list Z -> list Z -> Prop) (c : F A) :
  (forall l l', R l l' -> R' l l') -> evolve R c -> evolve R' c.
Proof. intros HR H s a s' E. by eapply evolves_weaken, H. Qed.
Lemma e_bind {A B} R `{!PreOrder R} (c : F A) (k : A -> F B) :
  evolve R c -> (forall a, evolve R (k a)) -> evolve R (c ≫= k).
Proof.
  intros Hc Hk s b s' H. unfold mbind, F_bind in H. destruct (c s) as [a s1| |] eqn:Ec; try done.
  etrans; [by eapply Hc|by eapply Hk].
Qed.

(** Most operations leave the flags alone. *)
Notation grows := (evolves eq).
Notation fmono := (evolve eq).

Lemma fm_ret {A} (a : A) : fmono (mret a).
Proof. by intros s b s' [= _ <-]. Qed.
Lemma fm_bind {A B} (c : F A) (k : A -> F B) : fmono c -> (forall a, fmono (k a)) -> fmono (c ≫= k).
Proof. apply e_bind, _. Qed.
Lemma fm_abort {A} : fmono (abort (A := A)).
Proof. done. Qed.
Lemma fm_liftF {A} (o : option A) : fmono (liftF o).
Proof. intros s a s'. unfold liftF. destruct o; [|done]. by intros [= _ <-]. Qed.
Lemma fm_types {A} (c : C A) : cmono c -> fmono (types c).
Proof.
  intros Hc s a s'. unfold types. destruct (c _) as [[b c']|] eqn:Ec; [|done].
  intros [= _ <-]. split_and!; [by eapply Hc|done..].
Qed.
Lemma fm_loading {A} (c : bool -> C A) : (forall b, cmono (c b)) -> fmono (loading c).
Proof. intros Hc s a s'. unfold loading. by apply fm_types. Qed.
Lemma fm_when b (c : F unit) : fmono c -> fmono (when b c).
Proof. intros Hc. unfold when. destruct b; [done|apply fm_ret]. Qed.

(** State that is only read or that the relation does not mention. *)
Lemma fm_read {A} (f : FlowState -> A) : fmono (fun s => FDone (f s) s).
Proof. by intros s a s' [= _ <-]. Qed.
Lemma fm_write (f : FlowState -> FlowState) : (forall s, grows s (f s)) -> fmono (fun s => FDone tt (f s)).
Proof. by intros H s a s' [= _ <-]. Qed.

Lemma record_failure_failures st p e : exists e', failures_ (record_failure st p e) = failures_ p ++ [e'].
Proof. unfold record_failure. cbv zeta. destruct e; repeat case_if; eexists; reflexivity. Qed.

Lemma record_failure_throws st p e :
  have_pending_runtime_throw_failure_ p = true ->
  have_pending_runtime_throw_failure_ (record_failure st p e) = true.
Proof. unfold record_failure. cbv zeta. destruct e; repeat case_if; done. Qed.

Lemma FailFlow_done m code_item error s s' u :
  FailFlow m code_item error s = FDone u s' ->
  grows s s' /\ failures s' <> [] /\ reg_types_ s' = reg_types_ s /\ work_line_ s' = work_line_ s /\
  reg_table_ s' = reg_table_ s /\ insn_flags_ (static_state s') = insn_flags_ (static_state s) /\
  work_insn_idx_ s' = work_insn_idx_ s.
Proof.
  unfold FailFlow. cbv zeta.
  destruct (record_failure_failures (settings (static_state s)) (pending (static_state s)) error) as (e' & He).
  intros H. assert (exists s1, s' = s1 /\
    (s1 = with_static s (with_pending (static_state s)
       (record_failure (settings (static_state s)) (pending (static_state s)) error)) \/
     s1 = with_saved (with_static s (with_pending (static_state s)
       (record_failure (settings (static_state s)) (pending (static_state s)) error)))
       (CopyFromLine (saved_line_ s) (work_line_ s)))) as (s1 & -> & [-> | ->]).
  { repeat case_match; try done; injection H as _ <-; eauto. }
  all: unfold evolves, failures, entries, with_saved, with_static, with_pending; cbn [static_state pending];
    rewrite He; split_and!;
    first [done|by apply prefix_app_r|by intros [_ Hn]%app_nil
          |unfold throws_at_runtime; cbn; intros [?|?]%orb_prop; apply orb_true_intro;
           [by left|right; by apply record_failure_throws]].
Qed.

Lemma fm_FailFlow m code_item error : fmono (FailFlow m code_item error).
Proof. intros s a s' H. by destruct (FailFlow_done _ _ _ _ _ _ H). Qed.

Create HintDb flow.
#[export] Hint Resolve fm_ret fm_abort fm_liftF fm_read fm_FailFlow : flow.

(** Proves [fmono] by following the structure of a computation. *)
Ltac fmono :=
  repeat first
  [ solve [eauto 2 with flow]
  | progress intros
  | apply fm_bind
  | apply fm_when
  | match goal with
    | |- fmono (if ?b then _ else _) => destruct b
    | |- fmono (match ?x with _ => _ end) => destruct x
    | |- fmono (let '(_, _) := ?x in _) => destruct x
    end ].

(** ** Primitives *)

Lemma fm_get_work : fmono get_work.
Proof. apply fm_read. Qed.
Lemma fm_get_failures : fmono get_failures.
Proof. apply fm_read. Qed.
Lemma fm_get_idx : fmono get_idx.
Proof. apply fm_read. Qed.
Lemma fm_set_work l : fmono (set_work l).
Proof. by apply fm_write. Qed.
#[export] Hint Resolve fm_get_work fm_get_failures fm_get_idx fm_set_work : flow.
Lemma fm_on_work {A} (op : RegisterLine -> F (A * RegisterLine)) :
  (forall l, fmono (op l)) -> fmono (on_work op).
Proof. intros. unfold on_work. fmono. Qed.
Lemma fm_on_work_ (op : RegisterLine -> F RegisterLine) : (forall l, fmono (op l)) -> fmono (on_work_ op).
Proof. intros. unfold on_work_. fmono. Qed.
#[export] Hint Resolve fm_on_work fm_on_work_ : flow.

Definition vgrows (v v' : VState) : Prop :=
  failures_ (pending v) `prefix_of` failures_ (pending v') /\ settings v = settings v' /\
  insn_flags_ v = insn_flags_ v' /\
  (have_pending_runtime_throw_failure_ (pending v) = true ->
   have_pending_runtime_throw_failure_ (pending v') = true).

Lemma fm_static {A} (c : V A) :
  (forall v a v', c v = Some (a, v') -> vgrows v v') -> fmono (static c).
Proof.
  intros Hc s a s'. unfold static. destruct (c _) as [[b v]|] eqn:Ec; [|done].
  intros [= _ <-]. destruct (Hc _ _ _ Ec) as (? & ? & ? & Ht). split_and!; try done.
  unfold throws_at_runtime. cbn. intros [->|?]%orb_prop; [done|]. rewrite Ht by done. apply orb_true_r.
Qed.
Lemma fm_get_flags i : fmono (flags_at i).
Proof.
  apply fm_static. intros v a v'. unfold get_flags. repeat case_match; try done. by intros [= _ <-].
Qed.
#[export] Hint Resolve fm_get_flags : flow.

Lemma fm_fail_flow m code_item {A} error (a : A) : fmono (fail_flow m code_item error a).
Proof. unfold fail_flow. fmono. Qed.
Lemma fm_hard m code_item : fmono (hard m code_item).
Proof. unfold hard. fmono. Qed.
#[export] Hint Resolve fm_fail_flow fm_hard : flow.

#[export] Hint Resolve fm_types fm_loading : flow.
#[export] Hint Resolve cm_ret cm_lift cm_GetFromId cm_AddEntry cm_find_or_add cm_FromClass
  cm_FromCat1Const cm_FromCat2ConstLo cm_FromCat2ConstHi cm_JavaLangObject cm_FromDescriptor
  cm_GetComponentType cm_HighHalf cm_Uninitialized cm_UninitializedThisArgument
  cm_FromUninitialized cm_Merge : flow.

Lemma cm_assignable LK lhs rhs : cmono (RegType_IsAssignableFrom LK lhs rhs).
Proof. intros c a c'. unfold RegType_IsAssignableFrom. case_match; [|done]. by intros [= _ <-]. Qed.
Lemma cm_strictly LK lhs rhs : cmono (IsStrictlyAssignableFrom LK lhs rhs).
Proof. intros c a c'. unfold IsStrictlyAssignableFrom. case_match; [|done]. by intros [= _ <-]. Qed.
Lemma cm_JavaLangThrowable LK precise : cmono (JavaLangThrowable LK precise).
Proof. apply cm_FromClass. Qed.
Lemma cm_JavaLangClass LK : cmono (JavaLangClass LK).
Proof. apply cm_FromClass. Qed.
Lemma cm_JavaLangString LK : cmono (JavaLangString LK).
Proof. apply cm_FromClass. Qed.
Lemma cm_DetermineCat1Constant LK v precise : cmono (DetermineCat1Constant LK v precise).
Proof.
  unfold DetermineCat1Constant, IntConstant, ShortConstant, ByteConstant, PosByteConstant,
    PosShortConstant, CharConstant. repeat case_if; auto using cm_ret, cm_FromCat1Const.
Qed.
#[export] Hint Resolve cm_assignable cm_strictly cm_JavaLangThrowable cm_JavaLangClass cm_JavaLangString
  cm_DetermineCat1Constant : flow.

(** ** Register lines *)

Section LineMono.
Context (LK : ClassLinker) (m : mem) (code_item : CodeItem).

Lemma fm_GetRegisterType l v : fmono (GetRegisterType l v).
Proof. unfold GetRegisterType. fmono. Qed.
Hint Resolve fm_GetRegisterType : flow.
Lemma fm_SetRegisterType op v t l : fmono (SetRegisterType m code_item op v t l).
Proof. unfold SetRegisterType. fmono. Qed.
Lemma fm_SetRegisterTypeWide v t1 t2 l : fmono (SetRegisterTypeWide m code_item v t1 t2 l).
Proof. unfold SetRegisterTypeWide. fmono. Qed.
Hint Resolve fm_SetRegisterType fm_SetRegisterTypeWide : flow.
Lemma fm_set_type v t l : fmono (set_type m code_item v t l).
Proof. unfold set_type. fmono. Qed.
Lemma fm_set_type_wide v t1 t2 l : fmono (set_type_wide m code_item v t1 t2 l).
Proof. unfold set_type_wide. fmono. Qed.
Hint Resolve fm_set_type fm_set_type_wide : flow.
Lemma fm_CopyRegister1 d s cat l : fmono (CopyRegister1 m code_item d s cat l).
Proof. unfold CopyRegister1. fmono. Qed.
Lemma fm_CopyRegister2 d s l : fmono (CopyRegister2 m code_item d s l).
Proof. unfold CopyRegister2. fmono. Qed.
Lemma fm_CopyResultRegister1 d b l : fmono (CopyResultRegister1 m code_item d b l).
Proof. unfold CopyResultRegister1. fmono. Qed.
Lemma fm_CopyResultRegister2 d l : fmono (CopyResultRegister2 m code_item d l).
Proof. unfold CopyResultRegister2. fmono. Qed.
Lemma fm_VerifyRegisterType l v t : fmono (VerifyRegisterType LK m code_item l v t).
Proof. unfold VerifyRegisterType. fmono. Qed.
Lemma fm_VerifyRegisterTypeWide l v t1 t2 : fmono (VerifyRegisterTypeWide LK m code_item l v t1 t2).
Proof. unfold VerifyRegisterTypeWide. fmono. Qed.
Lemma fm_VerifyMonitorStackEmpty l : fmono (VerifyMonitorStackEmpty m code_item l).
Proof. unfold VerifyMonitorStackEmpty. fmono. Qed.
Lemma fm_CheckConstructorReturn l : fmono (CheckConstructorReturn m code_item l).
Proof. unfold CheckConstructorReturn. fmono. Qed.
Hint Resolve fm_VerifyRegisterType fm_VerifyRegisterTypeWide : flow.
Lemma fm_both c1 c2 : fmono c1 -> fmono c2 -> fmono (both c1 c2).
Proof. intros. unfold both. fmono. Qed.
Hint Resolve fm_both : flow.
Lemma fm_boolean_or b l v1 v2 t : fmono (boolean_or b l v1 v2 t).
Proof. unfold boolean_or. fmono. Qed.
Hint Resolve fm_boolean_or : flow.

Lemma fm_CheckUnaryOp inst d s l : fmono (CheckUnaryOp LK m code_item inst d s l).
Proof. unfold CheckUnaryOp. fmono. Qed.
Lemma fm_CheckUnaryOpWide inst d1 d2 s1 s2 l : fmono (CheckUnaryOpWide LK m code_item inst d1 d2 s1 s2 l).
Proof. unfold CheckUnaryOpWide. fmono. Qed.
Lemma fm_CheckUnaryOpToWide inst d1 d2 s l : fmono (CheckUnaryOpToWide LK m code_item inst d1 d2 s l).
Proof. unfold CheckUnaryOpToWide. fmono. Qed.
Lemma fm_CheckUnaryOpFromWide inst d s1 s2 l :
  fmono (CheckUnaryOpFromWide LK m code_item inst d s1 s2 l).
Proof. unfold CheckUnaryOpFromWide. fmono. Qed.
Lemma fm_CheckBinaryOp inst d s1 s2 b l : fmono (CheckBinaryOp LK m code_item inst d s1 s2 b l).
Proof. unfold CheckBinaryOp. fmono. Qed.
Lemma fm_CheckBinaryOpWide inst d1 d2 s11 s12 s21 s22 l :
  fmono (CheckBinaryOpWide LK m code_item inst d1 d2 s11 s12 s21 s22 l).
Proof. unfold CheckBinaryOpWide. fmono. Qed.
Lemma fm_CheckBinaryOpWideShift inst d1 d2 s l :
  fmono (CheckBinaryOpWideShift LK m code_item inst d1 d2 s l).
Proof. unfold CheckBinaryOpWideShift. fmono. Qed.
Lemma fm_CheckBinaryOp2addr inst d s1 s2 b l : fmono (CheckBinaryOp2addr LK m code_item inst d s1 s2 b l).
Proof. unfold CheckBinaryOp2addr. fmono. Qed.
Lemma fm_CheckBinaryOp2addrWide inst d1 d2 s11 s12 s21 s22 l :
  fmono (CheckBinaryOp2addrWide LK m code_item inst d1 d2 s11 s12 s21 s22 l).
Proof. unfold CheckBinaryOp2addrWide. fmono. Qed.
Lemma fm_CheckBinaryOp2addrWideShift inst d1 d2 s l :
  fmono (CheckBinaryOp2addrWideShift LK m code_item inst d1 d2 s l).
Proof. unfold CheckBinaryOp2addrWideShift. fmono. Qed.
Lemma fm_CheckLiteralOp inst d s b b' l : fmono (CheckLiteralOp LK m code_item inst d s b b' l).
Proof. unfold CheckLiteralOp. fmono. Qed.
Lemma fm_PushMonitor r i l : fmono (PushMonitor m code_item r i l).
Proof. unfold PushMonitor. fmono. Qed.
Lemma fm_PopMonitor r l : fmono (PopMonitor m code_item r l).
Proof. unfold PopMonitor. cbv zeta. fmono. Qed.

Lemma cm_merge_types ids inc b : cmono (merge_types LK ids inc b).
Proof.
  revert inc b. induction ids as [|id ids IH]; intros [|id' inc] b; cbn [merge_types];
    try apply cm_ret; try apply cm_lift.
  case_if; repeat first [apply cm_bind; intros|apply IH|apply cm_GetFromId|apply cm_Merge|apply cm_ret];
    case_match; apply cm_ret.
Qed.
Hint Resolve cm_merge_types : flow.
Lemma fm_MergeRegisters i l : fmono (MergeRegisters LK m code_item i l).
Proof. unfold MergeRegisters. fmono. Qed.
End LineMono.
#[export] Hint Resolve fm_GetRegisterType fm_SetRegisterType fm_SetRegisterTypeWide fm_set_type
  fm_set_type_wide fm_CopyRegister1 fm_CopyRegister2 fm_CopyResultRegister1 fm_CopyResultRegister2
  fm_VerifyRegisterType fm_VerifyRegisterTypeWide fm_VerifyMonitorStackEmpty
  fm_CheckConstructorReturn fm_both fm_boolean_or fm_CheckUnaryOp fm_CheckUnaryOpWide
  fm_CheckUnaryOpToWide fm_CheckUnaryOpFromWide fm_CheckBinaryOp fm_CheckBinaryOpWide
  fm_CheckBinaryOpWideShift fm_CheckBinaryOp2addr fm_CheckBinaryOp2addrWide
  fm_CheckBinaryOp2addrWideShift fm_CheckLiteralOp fm_PushMonitor fm_PopMonitor
  fm_MergeRegisters : flow.

(** ** Instructions *)

Ltac cmono :=
  repeat first
  [ solve [eauto 2 with flow]
  | progress intros
  | apply cm_bind
  | match goal with
    | |- cmono (if ?b then _ else _) => destruct b
    | |- cmono (match ?x with _ => _ end) => destruct x
    end ].

Section PassMono.
Context (LK : ClassLinker) (m : mem) (code_item : CodeItem) (dex_file : DexHeader).
Context (method : MethodToVerify).

Lemma fm_work_type v : fmono (work_type v).
Proof. unfold work_type. fmono. Qed.
Lemma fm_set_work_type v t : fmono (set_work_type m code_item v t).
Proof. unfold set_work_type. fmono. Qed.
Lemma fm_set_work_type_wide v t1 t2 : fmono (set_work_type_wide m code_item v t1 t2).
Proof. unfold set_work_type_wide. fmono. Qed.
Lemma fm_keep_work_type v t : fmono (keep_work_type m code_item v t).
Proof. unfold keep_work_type. apply fm_on_work_. fmono. Qed.
Lemma fm_verify_work v t : fmono (verify_work LK m code_item v t).
Proof. unfold verify_work. fmono. Qed.
Lemma fm_assignable_from l r : fmono (assignable_from LK l r).
Proof. apply fm_types, cm_assignable. Qed.
Hint Resolve fm_work_type fm_set_work_type fm_set_work_type_wide fm_keep_work_type fm_verify_work
  fm_assignable_from : flow.

Lemma fm_FromClassF d k p : fmono (FromClassF LK m code_item d k p).
Proof. unfold FromClassF. cbv zeta. fmono. Qed.
Hint Resolve fm_FromClassF : flow.
Lemma fm_set_declaring_class t : fmono (set_declaring_class t).
Proof. by apply fm_write. Qed.
Lemma fm_set_return_type t : fmono (set_return_type t).
Proof. by apply fm_write. Qed.
Hint Resolve fm_set_declaring_class fm_set_return_type : flow.
Lemma fm_compute_declaring_class : fmono (compute_declaring_class LK m code_item method).
Proof. unfold compute_declaring_class. fmono. Qed.
Lemma fm_compute_return_type : fmono (compute_return_type LK m code_item method).
Proof. unfold compute_return_type. fmono. Qed.
Lemma fm_GetDeclaringClass : fmono (GetDeclaringClass LK m code_item method).
Proof.
  intros s a s'. unfold GetDeclaringClass. destruct (declaring_class_ s); [by intros [= _ <-]|].
  apply fm_compute_declaring_class.
Qed.
Lemma fm_GetMethodReturnType : fmono (GetMethodReturnType LK m code_item method).
Proof.
  intros s a s'. unfold GetMethodReturnType. destruct (return_type_ s); [by intros [= _ <-]|].
  apply fm_compute_return_type.
Qed.
Hint Resolve fm_GetDeclaringClass fm_GetMethodReturnType : flow.
Lemma fm_resolve_index i : fmono (resolve_index LK i).
Proof. apply fm_read. Qed.
Hint Resolve fm_resolve_index : flow.
Lemma fm_class_of_index i : fmono (class_of_index LK m code_item dex_file i).
Proof. unfold class_of_index. cbv zeta. fmono. Qed.
Hint Resolve fm_class_of_index : flow.
Lemma fm_ResolveClassAndCheckAccess i :
  fmono (ResolveClassAndCheckAccess LK m code_item dex_file method i).
Proof. unfold ResolveClassAndCheckAccess. fmono. Qed.
Hint Resolve fm_ResolveClassAndCheckAccess : flow.
Lemma fm_FailOrAbort b : fmono (FailOrAbort m code_item b).
Proof. unfold FailOrAbort. fmono. Qed.
Hint Resolve fm_FailOrAbort : flow.
Lemma fm_caught_type i c : fmono (caught_type LK m code_item dex_file method i c).
Proof. unfold caught_type. fmono. Qed.
Hint Resolve fm_caught_type : flow.
Lemma fm_caught_in_list fuel it c : fmono (caught_in_list LK m code_item dex_file method fuel it c).
Proof. revert it c. induction fuel; intros; cbn [caught_in_list]; fmono. Qed.
Hint Resolve fm_caught_in_list : flow.
Lemma fm_caught_in_lists n p c : fmono (caught_in_lists LK m code_item dex_file method n p c).
Proof. revert p c. induction n; intros; cbn [caught_in_lists]; fmono. Qed.
Hint Resolve fm_caught_in_lists : flow.
Lemma fm_GetCaughtExceptionType : fmono (GetCaughtExceptionType LK m code_item dex_file method).
Proof. unfold GetCaughtExceptionType. fmono. Qed.
Hint Resolve fm_GetCaughtExceptionType : flow.

Lemma fm_set_parameter a e i c l : fmono (set_parameter LK m code_item dex_file method a e i c l).
Proof. unfold set_parameter. fmono. Qed.
Hint Resolve fm_set_parameter : flow.
Lemma fm_set_parameters a e ts c l : fmono (set_parameters LK m code_item dex_file method a e ts c l).
Proof. revert c l. induction ts; intros; cbn [set_parameters]; fmono. Qed.
Hint Resolve fm_set_parameters : flow.
Lemma fm_set_receiver a l : fmono (set_receiver LK m code_item method a l).
Proof. unfold set_receiver. fmono. Qed.
Lemma fm_get_line i : fmono (get_line i).
Proof. apply fm_read. Qed.
Lemma fm_put_line i l : fmono (put_line i l).
Proof. by apply fm_write. Qed.
Hint Resolve fm_set_receiver fm_get_line fm_put_line : flow.
Lemma fm_SetTypesFromSignature : fmono (SetTypesFromSignature LK m code_item dex_file method).
Proof. unfold SetTypesFromSignature. fmono. Qed.

Lemma fm_GetComponentTypeF t : fmono (GetComponentTypeF LK t).
Proof. unfold GetComponentTypeF. fmono. Qed.
Lemma fm_is_array_type t : fmono (is_array_type LK t).
Proof. apply fm_read. Qed.
Lemma fm_set_runtime_throw : fmono (set_runtime_throw true).
Proof. apply fm_write. intros s. split_and!; try done. intros _. apply orb_true_r. Qed.
Hint Resolve fm_GetComponentTypeF fm_is_array_type fm_set_runtime_throw : flow.
Lemma fm_verify_elements rs t : fmono (verify_elements LK m code_item rs t).
Proof. induction rs; cbn [verify_elements]; fmono. Qed.
Lemma fm_set_work_result t : fmono (set_work_result t).
Proof. unfold set_work_result. fmono. Qed.
Hint Resolve fm_verify_elements fm_set_work_result : flow.
Lemma fm_VerifyNewArray inst f r : fmono (VerifyNewArray LK m code_item dex_file method inst f r).
Proof. unfold VerifyNewArray. cbv zeta. fmono. Qed.
Lemma fm_aget_null inst t p : fmono (aget_null LK m code_item inst t p).
Proof. unfold aget_null. fmono. Qed.
Lemma fm_aget_element inst t c p : fmono (aget_element LK m code_item inst t c p).
Proof. unfold aget_element. fmono. Qed.
Hint Resolve fm_VerifyNewArray fm_aget_null fm_aget_element : flow.
Lemma fm_VerifyAGet inst t p : fmono (VerifyAGet LK m code_item inst t p).
Proof. unfold VerifyAGet. fmono. Qed.
Lemma fm_wide_value f b t v : fmono (wide_value f b t v).
Proof. unfold wide_value. fmono. Qed.
Hint Resolve fm_wide_value : flow.
Lemma fm_VerifyPrimitivePut t i v : fmono (VerifyPrimitivePut m code_item t i v).
Proof. unfold VerifyPrimitivePut. cbv zeta. fmono. Qed.
Lemma fm_aput_null_type t v : fmono (aput_null_type t v).
Proof. unfold aput_null_type. fmono. Qed.
Hint Resolve fm_VerifyPrimitivePut fm_aput_null_type : flow.
Lemma fm_VerifyAPut inst t p : fmono (VerifyAPut LK m code_item inst t p).
Proof. unfold VerifyAPut. cbv zeta. fmono. Qed.
Hint Resolve fm_VerifyAGet fm_VerifyAPut : flow.

Lemma fm_CheckNotMoveException i : fmono (CheckNotMoveException m code_item i).
Proof. unfold CheckNotMoveException. fmono. Qed.
Lemma fm_CheckNotMoveResult i : fmono (static (CheckNotMoveResult m code_item i)).
Proof.
  apply fm_static. intros v a v'. unfold CheckNotMoveResult, reject_if. case_if; intros H';
    [|by injection H' as _ <-]. cbn in H'. injection H' as _ <-. cbn [pending settings with_pending].
  destruct (record_failure_failures (settings v) (pending v) VERIFY_ERROR_BAD_CLASS_HARD) as (e & He).
  split; [|done]. exists [e]. exact He.
Qed.
Hint Resolve fm_CheckNotMoveException fm_CheckNotMoveResult : flow.
Lemma fm_CheckNotMoveExceptionOrMoveResult i : fmono (CheckNotMoveExceptionOrMoveResult m code_item i).
Proof. unfold CheckNotMoveExceptionOrMoveResult. fmono. Qed.
Hint Resolve fm_CheckNotMoveExceptionOrMoveResult : flow.
Lemma fm_SafelyMark l : fmono (SafelyMarkAllRegistersAsConflicts m code_item method l).
Proof. unfold SafelyMarkAllRegistersAsConflicts. fmono. Qed.
Hint Resolve fm_SafelyMark : flow.
Lemma fm_AdjustReturnLine inst l : fmono (AdjustReturnLine m code_item method inst l).
Proof. unfold AdjustReturnLine. cbv zeta. fmono. Qed.
Lemma fm_hard_failure : fmono hard_failure.
Proof. unfold hard_failure. fmono. Qed.
Hint Resolve fm_AdjustReturnLine fm_hard_failure : flow.
Lemma fm_first_visit i t l : fmono (first_visit m code_item method i t l).
Proof. unfold first_visit. cbv zeta. fmono. Qed.
Hint Resolve fm_first_visit : flow.
(** *** The cases *)

Lemma fm_may_return : fmono (may_return m code_item method).
Proof. unfold may_return. fmono. Qed.
Hint Resolve fm_may_return : flow.
Lemma fm_flow_return_void inst : fmono (flow_return_void LK m code_item method inst).
Proof. unfold flow_return_void. fmono. Qed.
Lemma fm_flow_return inst : fmono (flow_return LK m code_item method inst).
Proof. unfold flow_return. cbv zeta. fmono. Qed.
Lemma fm_flow_return_wide inst : fmono (flow_return_wide LK m code_item method inst).
Proof. unfold flow_return_wide. fmono. Qed.
Lemma cm_can_assign_components rec t u b :
  (forall t u b, cmono (rec t u b)) -> cmono (can_assign_components LK rec t u b).
Proof.
  intros H c a c'. unfold can_assign_components. cbv zeta.
  repeat case_if; first [by intros [= _ <-]|apply H].
Qed.
Lemma cm_CanAssignArray load fuel t u b : cmono (CanAssignArray LK load fuel t u b).
Proof.
  revert t u b. induction fuel; intros t u b; cbn [CanAssignArray]; [cmono|].
  intros c a c'. cbv zeta. repeat case_if; try by intros [= _ <-].
  generalize c a c'. change (cmono (cmp1 ← RegType_GetComponentType LK load t;
    cmp2 ← RegType_GetComponentType LK load u; ok ← RegType_IsAssignableFrom LK cmp1 cmp2;
    if ok : bool then mret (true, b) else can_assign_components LK (CanAssignArray LK load fuel) cmp1 cmp2 b)).
  cmono. by apply cm_can_assign_components.
Qed.
Hint Resolve cm_CanAssignArray : flow.
Lemma fm_return_object_failure t u : fmono (return_object_failure LK m code_item t u).
Proof. unfold return_object_failure. fmono. Qed.
Hint Resolve fm_return_object_failure : flow.
Lemma fm_flow_return_object inst : fmono (flow_return_object LK m code_item method inst).
Proof. unfold flow_return_object. cbv zeta. fmono. Qed.
Lemma fm_flow_return_void_no_barrier inst :
  fmono (flow_return_void_no_barrier LK m code_item method inst).
Proof. unfold flow_return_void_no_barrier. fmono. Qed.
Lemma fm_set_constant v c : fmono (set_constant LK m code_item method v c).
Proof. unfold set_constant. fmono. Qed.
Lemma fm_set_wide_constant v c : fmono (set_wide_constant LK m code_item v c).
Proof. unfold set_wide_constant. fmono. Qed.
Lemma fm_flow_const_class inst : fmono (flow_const_class LK m code_item dex_file method inst).
Proof. unfold flow_const_class. fmono. Qed.
Lemma fm_previous_opcode n : fmono (previous_opcode n).
Proof. induction n; cbn [previous_opcode]; fmono. Qed.
Lemma fm_previous_instruction i : fmono (previous_instruction i).
Proof. apply fm_previous_opcode. Qed.
Hint Resolve fm_previous_instruction : flow.
Lemma fm_alias_monitor inst : fmono (alias_monitor m code_item inst).
Proof. unfold alias_monitor. cbv zeta. fmono. Qed.
Lemma fm_flow_cast b inst : fmono (flow_cast LK m code_item dex_file method b inst).
Proof. unfold flow_cast. cbv zeta. fmono. Qed.
Lemma fm_flow_new_instance inst : fmono (flow_new_instance LK m code_item dex_file method inst).
Proof. unfold flow_new_instance. fmono. Qed.
Lemma fm_flow_array_length inst : fmono (flow_array_length LK m code_item inst).
Proof. unfold flow_array_length. fmono. Qed.
Lemma fm_flow_cmp_float inst : fmono (flow_cmp_float LK m code_item inst).
Proof. unfold flow_cmp_float. fmono. Qed.
Lemma fm_flow_cmp_wide lo hi inst : fmono (flow_cmp_wide LK m code_item lo hi inst).
Proof. unfold flow_cmp_wide. fmono. Qed.
Lemma fm_flow_throw inst : fmono (flow_throw LK m code_item inst).
Proof. unfold flow_throw. cbv zeta. fmono. Qed.
Lemma fm_check_array_data inst t : fmono (check_array_data m code_item inst t).
Proof. unfold check_array_data. cbv zeta. fmono. Qed.
Hint Resolve fm_check_array_data : flow.
Lemma fm_flow_fill_array_data inst : fmono (flow_fill_array_data LK m code_item inst).
Proof. unfold flow_fill_array_data. fmono. Qed.
Lemma fm_flow_if_eq inst : fmono (flow_if_eq m code_item inst).
Proof. unfold flow_if_eq. cbv zeta. fmono. Qed.
Lemma fm_flow_if_lt inst : fmono (flow_if_lt m code_item inst).
Proof. unfold flow_if_lt. fmono. Qed.
Lemma fm_flow_if_ltz inst : fmono (flow_if_ltz m code_item inst).
Proof. unfold flow_if_ltz. fmono. Qed.
Lemma fm_keep_type v t l : fmono (keep_type m code_item v t l).
Proof. unfold keep_type. fmono. Qed.
Hint Resolve fm_keep_type : flow.
Lemma fm_sharpen_moved i inst t l : fmono (sharpen_moved m code_item i inst t l).
Proof. unfold sharpen_moved. fmono. Qed.
Lemma fm_may_sharpen t u : fmono (may_sharpen LK t u).
Proof. unfold may_sharpen. fmono. Qed.
Hint Resolve fm_sharpen_moved fm_may_sharpen : flow.
Lemma fm_sharpen inst i : fmono (sharpen LK m code_item dex_file method inst i).
Proof. unfold sharpen. cbv zeta. fmono. Qed.
Hint Resolve fm_sharpen : flow.
Lemma fm_flow_if_eqz inst : fmono (flow_if_eqz LK m code_item dex_file method inst).
Proof. unfold flow_if_eqz. fmono. Qed.
Lemma fm_object_access access inst :
  (forall inst t b, fmono (access inst t b)) -> fmono (object_access LK access inst).
Proof. intros. unfold object_access. fmono. Qed.
Hint Resolve fm_flow_return_void fm_flow_return fm_flow_return_wide fm_flow_return_object
  fm_flow_return_void_no_barrier fm_set_constant fm_set_wide_constant fm_flow_const_class
  fm_alias_monitor fm_flow_cast fm_flow_new_instance fm_flow_array_length fm_flow_cmp_float
  fm_flow_cmp_wide fm_flow_throw fm_flow_fill_array_data fm_flow_if_eq fm_flow_if_lt
  fm_flow_if_ltz fm_flow_if_eqz fm_object_access : flow.

Lemma fm_cases ops body : (forall inst, fmono (body inst)) ->
  Forall (fun e : Z * Case => forall inst, fmono (e.2 inst)) (cases ops body).
Proof. intros H. apply Forall_map, Forall_true. intros op inst. cbn. fmono. Qed.

Ltac fcases :=
  repeat first [ apply Forall_app; split | apply fm_cases; intros
               | apply List.Forall_cons | apply List.Forall_nil ]; cbn [snd];
  try (intros; unfold unop, unop_wide, unop_to_wide, unop_from_wide, binop, binop_wide, binop_2addr,
    binop_2addr_wide, literal_op; fmono).

Lemma fm_flow_cases :
  Forall (fun e => forall inst, fmono (e.2 inst)) (flow_cases LK m code_item dex_file method).
Proof.
  unfold flow_cases, flow_nop_moves, flow_move_results, flow_returns, flow_consts, flow_monitors,
    flow_objects, flow_others, flow_ifs, flow_arrays, flow_unops, flow_binops, flow_binops_2addr,
    flow_literals, flow_unused. fcases.
Qed.
Lemma fm_case_of op inst : fmono (case_of LK m code_item dex_file method op inst).
Proof.
  unfold case_of. destruct (find _ _) as [[op' c]|] eqn:Ef; [|by intros s a s'].
  apply find_some in Ef as [Hin _]. pose proof fm_flow_cases as H.
  rewrite List.Forall_forall in H. apply (H _ Hin).
Qed.
Hint Resolve fm_case_of : flow.

End PassMono.
#[export] Hint Resolve fm_work_type fm_set_work_type fm_set_work_type_wide fm_keep_work_type
  fm_verify_work fm_assignable_from fm_FromClassF fm_set_declaring_class fm_set_return_type
  fm_compute_declaring_class fm_compute_return_type fm_GetDeclaringClass fm_GetMethodReturnType
  fm_resolve_index fm_class_of_index fm_ResolveClassAndCheckAccess fm_FailOrAbort fm_caught_type
  fm_caught_in_list fm_caught_in_lists fm_GetCaughtExceptionType fm_set_parameter
  fm_set_parameters fm_set_receiver fm_get_line fm_put_line fm_SetTypesFromSignature
  fm_GetComponentTypeF fm_is_array_type fm_set_runtime_throw fm_verify_elements fm_set_work_result
  fm_VerifyNewArray fm_aget_null fm_aget_element fm_VerifyAGet fm_wide_value fm_VerifyPrimitivePut
  fm_aput_null_type fm_VerifyAPut fm_CheckNotMoveException fm_CheckNotMoveResult
  fm_CheckNotMoveExceptionOrMoveResult fm_SafelyMark fm_AdjustReturnLine fm_hard_failure
  fm_first_visit fm_may_return fm_flow_return_void fm_flow_return
  fm_flow_return_wide cm_CanAssignArray fm_return_object_failure fm_flow_return_object
  fm_flow_return_void_no_barrier fm_set_constant fm_set_wide_constant fm_flow_const_class
  fm_previous_instruction fm_alias_monitor fm_flow_cast fm_flow_new_instance fm_flow_array_length
  fm_flow_cmp_float fm_flow_cmp_wide fm_flow_throw fm_check_array_data fm_flow_fill_array_data
  fm_flow_if_eq fm_flow_if_lt fm_flow_if_ltz fm_keep_type fm_sharpen_moved fm_may_sharpen
  fm_sharpen fm_flow_if_eqz fm_object_access fm_case_of : flow.
