(* ===== verification/CodeFlowResults.v ===== *)
(** * Concrete verdicts of the data flow pass

    Methods the pass accepts and rejects with the sample class linker, and methods it accepts although they are not safe. *)
From Stdlib Require Import String Ascii.
From stdpp Require Import gmap.
From S2P Require Import Prelude Leb128 DexInstructionList DexInstruction ExceptionTable StaticVerifier MirrorClass RegType SampleLinker RegisterLine CodeFlow.

(** ** Methods to verify *)

Definition sample_dex : DexHeader :=
  {| string_ids_size_ := 0; type_ids_size_ := 31; proto_ids_size_ := 0; field_ids_size_ := 0;
     method_ids_size_ := 0;
     StringByTypeIdx := sample_names |}.

(** A static method of [Object]. *)
Definition sample_method (parameter_types : list Z) (return_descriptor : string) : MethodToVerify :=
  {| IsStatic := true; IsConstructor := false; parameters := parameter_types;
     GetReturnTypeDescriptor := return_descriptor; class_descriptor := "Ljava/lang/Object;";
     mirror_method_ := Some (0, class_named return_descriptor); instance_fields := [];
     need_precise_constants_ := true |}.
Definition sample_item (registers ins tries : Z) (units : list Z) : CodeItem :=
  {| registers_size_ := registers; ins_size_ := ins; outs_size_ := 0; tries_size_ := tries;
     debug_info_off_ := 0; insns_size_in_code_units_ := Z.of_nat (length units); insns_ := 0 |}.
(** The code units, and the bytes of the try items and handlers behind them. *)
Definition sample_code (units : list Z) (handlers : list Z) : mem :=
  store_list (fun _ => 0) 0 (flat_map (fun u => [u mod 256; u / 256]) units ++ handlers).

(** The verdict and the failures recorded. *)
Definition verdict (registers tries : Z) (parameter_types : list Z) (return_descriptor : string)
    (units handlers : list Z) : option (option bool * list VerifyError) :=
  match VerifyPasses sample_linker (sample_code units handlers)
          (sample_item registers (Z.of_nat (length parameter_types)) tries units) sample_dex
          (sample_method parameter_types return_descriptor) true 100 (initial_flow initial_state) with
  | FDone b s => Some (b, failures_ (pending (static_state s)))
  | _ => None
  end.
Definition accepted : option (option bool * list VerifyError) := Some (Some true, []).
Definition rejected_hard : option (option bool * list VerifyError) :=
  Some (Some false, [VERIFY_ERROR_BAD_CLASS_HARD]).

(** [const/4 v0, #3; const/4 v1, #0; add-int/2addr v1, v0; add-int/lit8 v0, v0, #-1;
    if-nez v0, -3; return v1] *)
Definition sum_units : list Z := [0x3012; 0x0112; 0x01b0; 0x00d8; 0xff00; 0x0039; 0xfffd; 0x010f].

Lemma sum_accepted : verdict 2 0 [] "I" sum_units [] = accepted.
Proof. vm_compute. reflexivity. Qed.
Lemma sum_wrong_return : verdict 2 0 [] "V" sum_units [] = rejected_hard.
Proof. vm_compute. reflexivity. Qed.

(** ** The move before an [instance-of] *)

(** [move-object v0, v2; instance-of v2, v0, int array; if-eqz v2, +4;
    array-length v0, v2; return-void; return-void]: the [instance-of] overwrites
    the source of the move. *)
Definition clobbered_units : list Z :=
  [0x2007; 0x0220; 19; 0x0238; 4; 0x2021; 0x000e; 0x000e].

(** The peephole gives the source of the move the cast type even if the
    [instance-of] has overwritten it, so that the length of the 1 it wrote is
    taken; without the test of [v2] the code is rejected. *)
Lemma peephole_types_clobbered_register :
  verdict 3 0 [0] "V" clobbered_units [] = accepted /\
  verdict 3 0 [0] "V" [0x2007; 0x0220; 19; 0x2021; 0x000e] [] = rejected_hard.
Proof. split; vm_compute; reflexivity. Qed.

(** ** Lock aliases dropped by a merge *)

(** [monitor-enter v1; move-object v0, v1; L: if-eqz v3, X; move-object v0, v2;
    const/4 v3, #0; goto L; X: monitor-exit v0; return-void] *)
Definition unlock_units : list Z :=
  [0x011d; 0x1007; 0x0338; 5; 0x2007; 0x0312; 0xfc28; 0x001e; 0x000e].

(** The loop leaves the object of [v2], which was never locked, in [v0]; the
    merge at [L] forgets that [v0] holds the lock but does not mark the loop as
    changed, so the [monitor-exit] is not checked again.  Without the loop the
    failure is reported. *)
Lemma dropped_lock_alias_not_propagated :
  verdict 4 0 [0; 0; 11] "V" unlock_units [] = accepted /\
  verdict 4 0 [0; 0; 11] "V" [0x011d; 0x1007; 0x2007; 0x001e; 0x000e] [] =
    Some (Some true, [VERIFY_ERROR_LOCKING]).
Proof. split; vm_compute; reflexivity. Qed.

(** ** A handler shared by a class that resolves and one that does not *)

(** [div-int v0, v1, v1; return-void; move-exception v0; array-length v0, v1;
    return-void] with an [int] in [v1]; the try block covers the division. *)
Definition shared_units : list Z := [0x0093; 0x0101; 0x000e; 0x000d; 0x1021; 0x000e].
(** The handlers of the try block, all at [move-exception]. *)
Definition shared_handlers (type_indices : list Z) : list Z :=
  [0; 0; 0; 0; 2; 0; 1; 0; 1; Z.of_nat (length type_indices)] ++
  flat_map (fun t => [t; 3]) type_indices.

(** With [Exception] alone the handler's code is rejected; with an unresolved
    class beside it, it is taken for unreachable and not looked at. *)
Lemma shared_handler_not_verified :
  verdict 2 1 [11] "V" shared_units (shared_handlers [4]) = rejected_hard /\
  verdict 2 1 [11] "V" shared_units (shared_handlers [4; 30]) =
    Some (Some true, [VERIFY_ERROR_NO_CLASS]).
Proof. split; vm_compute; reflexivity. Qed.

(** ** More types than ids *)

(** The type behind the first 65549 is read back from its id as [Zero]. *)
Lemma type_id_wraps LK c k :
  Z.of_nat (length (entries_ c)) = 2 ^ 16 + 13 ->
  take primitive_count_ (entries_ c) = FillPrimitiveAndSmallConstantTypes ->
  match AddEntry LK k c with
  | Some (t, c') => GetFromId (GetId t) c' = Some (Zero, c')
  | None => False
  end.
Proof.
  intros Hl Hp. unfold AddEntry, GetFromId, GetId. cbn [position entries_].
  replace (u16 (Z.of_nat (length (entries_ c)))) with 13 by (rewrite Hl; reflexivity).
  assert (entries_ c !! Z.to_nat 13 = Some (PreciseConstType 0)) as E.
  { rewrite <-(lookup_take_lt (entries_ c) primitive_count_) by (unfold primitive_count_; lia).
    by rewrite Hp. }
  by rewrite (lookup_app_l_Some _ _ _ _ E).
Qed.
