(* ===== verification/Interpreter.v ===== *)
(** * The switch interpreter ([runtime/interpreter/interpreter_switch_impl.cc],
      [interpreter_common.h], [safe_math.h])

    The loop of [ExecuteSwitchImpl<do_access_check = false, transaction_active =
    false>] without instrumentation listeners and JIT.  Each [case] is an entry of
    a dispatch table: the opcode and its handler in a small state and error monad.
    Register moves, constants, returns, branches, switches, array accesses,
    integer arithmetic and conversions are modelled; allocation, field access,
    calls, class tests, monitors and floating point stop with [NotModelled]. *)
From stdpp Require Import gmap.
From S2P Require Import Prelude Leb128 DexInstructionList DexInstruction ShadowFrame ExceptionTable.

(** ** Objects, exceptions and the machine *)

Inductive Component :=
| kBooleanArray | kByteArray | kCharArray | kShortArray | kIntArray | kFloatArray
| kLongArray | kDoubleArray | kObjectArray.

#[export] Instance Component_eq_dec : EqDecision Component.
Proof. solve_decision. Defined.

(** Elements are kept at the width of the component type: [float] and [double]
    as the bits of an [int32_t] and an [int64_t], references as addresses. *)
Record ArrayObject := { component : Component; elements : list Z }.

Definition GetLength (a : ArrayObject) : Z := Z.of_nat (length (elements a)).

Definition component_value (c : Component) (v : Z) : Z :=
  match c with
  | kBooleanArray => u8 v
  | kByteArray => s8 v
  | kCharArray => u16 v
  | kShortArray => s16 v
  | kIntArray | kFloatArray => s32 v
  | kLongArray | kDoubleArray => s64 v
  | kObjectArray => u32 v
  end.

Definition component_size (c : Component) : Z :=
  match c with
  | kBooleanArray | kByteArray => 1
  | kCharArray | kShortArray => 2
  | kIntArray | kFloatArray | kObjectArray => 4
  | kLongArray | kDoubleArray => 8
  end.

Inductive ExceptionKind :=
| NullPointerException
| ArithmeticException
| ArrayIndexOutOfBoundsException (index length : Z)
| ArrayStoreException (object : Z).

(** The interpreter's state: the frame, the register calls leave results in, the
    thread's pending exception (null is 0) and the arrays of the heap. *)
Record Machine := {
  frame : ShadowFrame;
  result_register : Z;
  exception : Z;
  heap : gmap Z ArrayObject
}.

Definition with_frame (s : Machine) (f : ShadowFrame) : Machine :=
  {| frame := f; result_register := result_register s; exception := exception s; heap := heap s |}.
Definition with_exception (s : Machine) (e : Z) : Machine :=
  {| frame := frame s; result_register := result_register s; exception := e; heap := heap s |}.
Definition with_heap (s : Machine) (h : gmap Z ArrayObject) : Machine :=
  {| frame := frame s; result_register := result_register s; exception := exception s; heap := h |}.

(** What the interpreter asks of the rest of the runtime: the exception object
    it allocates, whether an object may be stored into an array of references,
    and whether a handler's type resolves and catches an exception. *)
Class Runtime := {
  new_throwable : ExceptionKind -> Machine -> Z;
  instance_of_component : Machine -> Z -> Z -> bool;
  catches : Machine -> Z -> Z -> option bool;
  new_throwable_nonnull : forall k s, 0 < new_throwable k s < 2 ^ 32
}.

(** ** The monad *)

(** How a piece of a handler ends: normally, with a pending exception, by
    returning from the method, or outside what the source defines (a register
    index or an object its [DCHECK]s exclude), with [LOG(FATAL)], or in a part
    that is not modelled. *)
Inductive Outcome (A : Type) :=
| Done (a : A) (s : Machine)
| Raised (s : Machine)
| Returned (v : Z) (s : Machine)
| BadRegister
| BadObject
| Fatal
| NotModelled.
Arguments Done {A} a s.
Arguments Raised {A} s.
Arguments Returned {A} v s.
Arguments BadRegister {A}.
Arguments BadObject {A}.
Arguments Fatal {A}.
Arguments NotModelled {A}.

Definition M (A : Type) : Type := Machine -> Outcome A.

#[export] Instance M_ret : MRet M := fun A a s => Done a s.
#[export] Instance M_bind : MBind M := fun A B k c s =>
  match c s with
  | Done a s => k a s
  | Raised s => Raised s
  | Returned v s => Returned v s
  | BadRegister => BadRegister
  | BadObject => BadObject
  | Fatal => Fatal
  | NotModelled => NotModelled
  end.

Definition read_frame (get : ShadowFrame -> option Z) : M Z := fun s =>
  match get (frame s) with Some v => Done v s | None => BadRegister end.
Definition write_frame (set : ShadowFrame -> option ShadowFrame) : M unit := fun s =>
  match set (frame s) with Some f => Done tt (with_frame s f) | None => BadRegister end.

Definition vreg (i : Z) : M Z := read_frame (fun f => GetVReg f i).
Definition vreg_long (i : Z) : M Z := read_frame (fun f => GetVRegLong f i).
Definition vreg_ref (i : Z) : M Z := read_frame (fun f => GetVRegReference f i).

(** The setters convert their argument to [int32_t], [int64_t] or a reference. *)
Definition set_vreg (i v : Z) : M unit := write_frame (fun f => SetVReg f i (s32 v)).
Definition set_vreg_long (i v : Z) : M unit := write_frame (fun f => SetVRegLong f i (s64 v)).
Definition set_vreg_ref (i v : Z) : M unit := write_frame (fun f => SetVRegReference f i (u32 v)).

(** [inst = inst->Next_1xx()] and the like: the distance to the next instruction. *)
Definition Next_1xx : M Z := mret 1.
Definition Next_2xx : M Z := mret 2.
Definition Next_3xx : M Z := mret 3.
Definition Next_51l : M Z := mret 5.

Definition IsBackwardBranch (branch_offset : Z) : bool := branch_offset <=? 0.

(** [inst = inst->RelativeAt(offset)] and [HANDLE_BACKWARD_BRANCH(offset)], which
    records the new dex pc for the suspend point. *)
Definition branch (offset : Z) : M Z := fun s =>
  Done offset
    (if IsBackwardBranch offset
     then with_frame s (SetDexPC (frame s) (u32 (dex_pc (frame s) + offset))) else s).

Section Handlers.
Context `{RT : Runtime} (interpret_one_instruction : bool).

Definition throw {A} (k : ExceptionKind) : M A := fun s =>
  Raised (with_exception s (new_throwable k s)).

(** The end of the return instructions. *)
Definition return_value (v : Z) : M Z := fun s =>
  Returned v (if interpret_one_instruction
              then with_frame s (SetDexPC (frame s) kDexNoIndex) else s).

Definition Handler := Instruction -> M Z.
Definition Table := list (Z * Handler).

(** ** Arithmetic with defined wrapping ([safe_math.h]) *)

Definition SafeMath (w : Z) (op : Z -> Z -> Z) (a b : Z) : Z :=
  wrap_s w (wrap_u w (op (wrap_u w a) (wrap_u w b))).
Definition SafeAdd (w a b : Z) : Z := SafeMath w Z.add a b.
Definition SafeSub (w a b : Z) : Z := SafeMath w Z.sub a b.
Definition SafeMul (w a b : Z) : Z := SafeMath w Z.mul a b.

(** The operators the source applies to signed operands directly; the results
    C++ leaves undefined are those of two's complement. *)
Definition shl (w a b : Z) : Z := wrap_s w (a << b).
Definition neg (w a : Z) : Z := wrap_s w (- a).

(** ** [interpreter_common.h] *)

Definition kMinInt : Z := - 2 ^ 31.
Definition kMinLong : Z := - 2 ^ 63.

Definition DoIntDivide (result_reg dividend divisor : Z) : M unit :=
  if divisor =? 0 then throw ArithmeticException
  else if (dividend =? kMinInt) && (divisor =? -1) then set_vreg result_reg kMinInt
  else set_vreg result_reg (Z.quot dividend divisor).

Definition DoIntRemainder (result_reg dividend divisor : Z) : M unit :=
  if divisor =? 0 then throw ArithmeticException
  else if (dividend =? kMinInt) && (divisor =? -1) then set_vreg result_reg 0
  else set_vreg result_reg (Z.rem dividend divisor).

Definition DoLongDivide (result_reg dividend divisor : Z) : M unit :=
  if divisor =? 0 then throw ArithmeticException
  else if (dividend =? kMinLong) && (divisor =? -1) then set_vreg_long result_reg kMinLong
  else set_vreg_long result_reg (Z.quot dividend divisor).

Definition DoLongRemainder (result_reg dividend divisor : Z) : M unit :=
  if divisor =? 0 then throw ArithmeticException
  else if (dividend =? kMinLong) && (divisor =? -1) then set_vreg_long result_reg 0
  else set_vreg_long result_reg (Z.rem dividend divisor).

(** [POSSIBLY_HANDLE_PENDING_EXCEPTION(self->IsExceptionPending(), ...)] *)
Definition handle_if_pending : M unit := fun s =>
  if exception s =? 0 then Done tt s else Raised s.

(** [switch_data[i]] for the payload of a switch, and its 32-bit entries. *)
Definition switch_word (inst : Instruction) (i : Z) : Z := Fetch16 inst (VRegB_31t inst + i).
Definition switch_int (inst : Instruction) (i : Z) : Z :=
  s32 (Fetch32 inst (VRegB_31t inst + i)).

Definition packed_switch_offset (inst : Instruction) (test_val : Z) : Z :=
  let size := switch_word inst 1 in
  if size =? 0 then 3
  else
    let first_key := switch_int inst 2 in
    let index := s32 (test_val - first_key) in
    if (0 <=? index) && (index <? size) then switch_int inst (4 + 2 * index) else 3.

Definition DoPackedSwitch (inst : Instruction) : M Z :=
  test_val ← vreg (VRegA_31t inst);
  mret (packed_switch_offset inst test_val).

Fixpoint sparse_switch_loop (fuel : nat) (inst : Instruction) (size test_val lo hi : Z)
    : option Z :=
  match fuel with
  | O => None
  | S fuel =>
      if lo <=? hi then
        let mid := Z.quot (lo + hi) 2 in
        let foundVal := switch_int inst (2 + 2 * mid) in
        if test_val <? foundVal then sparse_switch_loop fuel inst size test_val lo (mid - 1)
        else if foundVal <? test_val then
          sparse_switch_loop fuel inst size test_val (mid + 1) hi
        else Some (switch_int inst (2 + 2 * (size + mid)))
      else Some 3
  end.

(** Each turn removes a key from the range. *)
Definition sparse_switch_offset (inst : Instruction) (test_val : Z) : option Z :=
  let size := switch_word inst 1 in
  if size =? 0 then Some 3
  else sparse_switch_loop (S (Z.to_nat size)) inst size test_val 0 (size - 1).

(** The fuel is enough for every payload, so the second case does not arise. *)
Definition returned_or_fatal (o : option Z) : M Z := fun s =>
  match o with Some v => Done v s | None => Fatal end.
Definition DoSparseSwitch (inst : Instruction) : M Z :=
  test_val ← vreg (VRegA_31t inst);
  returned_or_fatal (sparse_switch_offset inst test_val).

(** ** Arrays ([mirror/array-inl.h], [mirror/object_array-inl.h]) *)

Definition CheckIsValidIndex (array : ArrayObject) (index : Z) : M unit :=
  if u32 (GetLength array) <=? u32 index
  then throw (ArrayIndexOutOfBoundsException index (GetLength array))
  else mret tt.

Definition CheckAssignable (array_ref object : Z) : M unit := fun s =>
  if negb (object =? 0) && negb (instance_of_component s array_ref object)
  then throw (ArrayStoreException object) s
  else Done tt s.

(** [a->AsBooleanArray()] and the like, with their [DCHECK] on the class. *)
Definition as_array (allowed : list Component) (a : Z) : M ArrayObject := fun s =>
  match heap s !! a with
  | Some array => if decide (component array ∈ allowed) then Done array s else BadObject
  | None => BadObject
  end.

Definition GetWithoutChecks (array : ArrayObject) (index : Z) : M Z := fun s =>
  match elements array !! Z.to_nat index with
  | Some v => if 0 <=? index then Done v s else BadObject
  | None => BadObject
  end.

Definition SetWithoutChecks (a : Z) (array : ArrayObject) (index v : Z) : M unit := fun s =>
  if (0 <=? index) && (index <? GetLength array) then
    Done tt (with_heap s
      (<[a := {| component := component array;
                 elements := <[Z.to_nat index := component_value (component array) v]>
                               (elements array) |}]> (heap s)))
  else BadObject.

(** ** [FillArrayData] ([entrypoints/entrypoint_utils.cc]) *)

(** Byte [i] of the payload's data, little endian, and the element made of
    [width] bytes of it. *)
Definition payload_byte (payload : Instruction) (i : Z) : Z :=
  u8 (Fetch16 payload (4 + i / 2) >> (8 * (i mod 2))).
Fixpoint payload_value (payload : Instruction) (i : Z) (width : nat) : Z :=
  match width with
  | O => 0
  | S width => payload_byte payload i + payload_value payload (i + 1) width * 2 ^ 8
  end.

(** [memcpy] of [n] elements over the front of an array of the payload's element
    width; past its end the heap is overwritten. *)
Definition copy_payload (a : Z) (array : ArrayObject) (payload : Instruction)
    (size_in_bytes : Z) : M unit := fun s =>
  let width := component_size (component array) in
  let n := size_in_bytes / width in
  if (Fetch16 payload 1 =? width) && (n <=? GetLength array) then
    Done tt (with_heap s
      (<[a := {| component := component array;
                 elements :=
                   map (fun i => component_value (component array)
                          (payload_value payload (Z.of_nat i * width) (Z.to_nat width)))
                     (seq 0 (Z.to_nat n)) ++ drop (Z.to_nat n) (elements array) |}]> (heap s)))
  else BadObject.

Definition FillArrayData (obj : Z) (payload : Instruction) : M unit :=
  if obj =? 0 then throw NullPointerException
  else
    array ← as_array [kBooleanArray; kByteArray; kCharArray; kShortArray; kIntArray; kFloatArray;
                      kLongArray; kDoubleArray] obj;
    let element_count := Fetch32 payload 2 in
    if GetLength array <? s32 element_count
    then throw (ArrayIndexOutOfBoundsException element_count (GetLength array))
    else copy_payload obj array payload (u32 (element_count * Fetch16 payload 1)).

(** ** The cases of the switch *)

Definition nop_moves : Table :=
  [ (NOP, fun inst => Next_1xx);
    (MOVE, fun inst =>
       v ← vreg (VRegB_12x inst); set_vreg (VRegA_12x inst) v;; Next_1xx);
    (MOVE_FROM16, fun inst =>
       v ← vreg (VRegB_22x inst); set_vreg (VRegA_22x inst) v;; Next_2xx);
    (MOVE_16, fun inst =>
       v ← vreg (VRegB_32x inst); set_vreg (VRegA_32x inst) v;; Next_3xx);
    (MOVE_WIDE, fun inst =>
       v ← vreg_long (VRegB_12x inst); set_vreg_long (VRegA_12x inst) v;; Next_1xx);
    (MOVE_WIDE_FROM16, fun inst =>
       v ← vreg_long (VRegB_22x inst); set_vreg_long (VRegA_22x inst) v;; Next_2xx);
    (MOVE_WIDE_16, fun inst =>
       v ← vreg_long (VRegB_32x inst); set_vreg_long (VRegA_32x inst) v;; Next_3xx);
    (MOVE_OBJECT, fun inst =>
       v ← vreg_ref (VRegB_12x inst); set_vreg_ref (VRegA_12x inst) v;; Next_1xx);
    (MOVE_OBJECT_FROM16, fun inst =>
       v ← vreg_ref (VRegB_22x inst); set_vreg_ref (VRegA_22x inst) v;; Next_2xx);
    (MOVE_OBJECT_16, fun inst =>
       v ← vreg_ref (VRegB_32x inst); set_vreg_ref (VRegA_32x inst) v;; Next_3xx) ].

(** [JValue]: 64 bits; [GetI] is its low half, [SetI] sign-extends. *)
Definition JValue_GetI (v : Z) : Z := s32 v.
Definition JValue_GetL (v : Z) : Z := u32 v.
Definition result : M Z := fun s => Done (result_register s) s.

(** [self->GetException()] with the check of [MOVE_EXCEPTION], and
    [self->ClearException()]. *)
Definition pending_exception : M Z := fun s =>
  if exception s =? 0 then BadObject else Done (exception s) s.
Definition ClearException : M unit := fun s => Done tt (with_exception s 0).

Definition move_results : Table :=
  [ (MOVE_RESULT, fun inst =>
       v ← result; set_vreg (VRegA_11x inst) (JValue_GetI v);; Next_1xx);
    (MOVE_RESULT_WIDE, fun inst =>
       v ← result; set_vreg_long (VRegA_11x inst) v;; Next_1xx);
    (MOVE_RESULT_OBJECT, fun inst =>
       v ← result; set_vreg_ref (VRegA_11x inst) (JValue_GetL v);; Next_1xx);
    (MOVE_EXCEPTION, fun inst =>
       e ← pending_exception; set_vreg_ref (VRegA_11x inst) e;; ClearException;; Next_1xx) ].

(** With [do_assignability_check] off, [HANDLE_MONITOR_CHECKS] and the check of
    the returned object's class do nothing. *)
Definition returns : Table :=
  [ (RETURN_VOID_NO_BARRIER, fun inst => return_value 0);
    (RETURN_VOID, fun inst => return_value 0);
    (RETURN, fun inst => v ← vreg (VRegA_11x inst); return_value v);
    (RETURN_WIDE, fun inst => v ← vreg_long (VRegA_11x inst); return_value v);
    (RETURN_OBJECT, fun inst => v ← vreg_ref (VRegA_11x inst); return_value v) ].

(** A constant; zero may be the null reference. *)
Definition const_int (dst val : Z) : M unit :=
  set_vreg dst val;; (if val =? 0 then set_vreg_ref dst 0 else mret tt).

Definition consts : Table :=
  [ (CONST_4, fun inst => const_int (VRegA_11n inst) (VRegB_11n inst);; Next_1xx);
    (CONST_16, fun inst => const_int (VRegA_21s inst) (VRegB_21s inst);; Next_2xx);
    (CONST, fun inst => const_int (VRegA_31i inst) (VRegB_31i inst);; Next_3xx);
    (CONST_HIGH16, fun inst =>
       const_int (VRegA_21h inst) (s32 (VRegB_21h inst << 16));; Next_2xx);
    (CONST_WIDE_16, fun inst => set_vreg_long (VRegA_21s inst) (VRegB_21s inst);; Next_2xx);
    (CONST_WIDE_32, fun inst => set_vreg_long (VRegA_31i inst) (VRegB_31i inst);; Next_3xx);
    (CONST_WIDE, fun inst => set_vreg_long (VRegA_51l inst) (VRegB_51l inst);; Next_51l);
    (CONST_WIDE_HIGH16, fun inst =>
       set_vreg_long (VRegA_21h inst) (u64 (VRegB_21h inst << 48));; Next_2xx) ].

Definition array_length : Table :=
  [ (ARRAY_LENGTH, fun inst =>
       a ← vreg_ref (VRegB_12x inst);
       if a =? 0 then throw NullPointerException
       else
         array ← as_array [kBooleanArray; kByteArray; kCharArray; kShortArray; kIntArray;
                           kFloatArray; kLongArray; kDoubleArray; kObjectArray] a;
         set_vreg (VRegA_12x inst) (GetLength array);; Next_1xx) ].

Definition fill_array_data : Table :=
  [ (FILL_ARRAY_DATA, fun inst =>
       obj ← vreg_ref (VRegA_31t inst);
       FillArrayData obj (RelativeAt inst (VRegB_31t inst));; Next_3xx) ].

Definition SetException {A} (e : Z) : M A := fun s => Raised (with_exception s e).

Definition throws : Table :=
  [ (THROW, fun inst =>
       e ← vreg_ref (VRegA_11x inst);
       if e =? 0 then throw NullPointerException
       else SetException e) ].

Definition gotos_and_switches : Table :=
  [ (GOTO, fun inst => branch (VRegA_10t inst));
    (GOTO_16, fun inst => branch (VRegA_20t inst));
    (GOTO_32, fun inst => branch (VRegA_30t inst));
    (PACKED_SWITCH, fun inst => offset ← DoPackedSwitch inst; branch offset);
    (SPARSE_SWITCH, fun inst => offset ← DoSparseSwitch inst; branch offset) ].

Definition compare_long (val1 val2 : Z) : Z :=
  if val2 <? val1 then 1 else if val1 =? val2 then 0 else -1.

Definition cmps : Table :=
  [ (CMP_LONG, fun inst =>
       val1 ← vreg_long (VRegB_23x inst); val2 ← vreg_long (VRegC_23x inst);
       set_vreg (VRegA_23x inst) (compare_long val1 val2);; Next_2xx) ].

(** [if-test vA, vB, +CCCC] and [if-testz vAA, +BBBB] *)
Definition if_test (test : Z -> Z -> bool) : Handler := fun inst =>
  a ← vreg (VRegA_22t inst); b ← vreg (VRegB_22t inst);
  if test a b then branch (VRegC_22t inst) else Next_2xx.
Definition if_testz (test : Z -> bool) : Handler := fun inst =>
  a ← vreg (VRegA_21t inst);
  if test a then branch (VRegB_21t inst) else Next_2xx.

Definition ifs : Table :=
  [ (IF_EQ, if_test (fun a b => a =? b));
    (IF_NE, if_test (fun a b => negb (a =? b)));
    (IF_LT, if_test (fun a b => a <? b));
    (IF_GE, if_test (fun a b => b <=? a));
    (IF_GT, if_test (fun a b => b <? a));
    (IF_LE, if_test (fun a b => a <=? b)) ].

Definition ifzs : Table :=
  [ (IF_EQZ, if_testz (fun a => a =? 0));
    (IF_NEZ, if_testz (fun a => negb (a =? 0)));
    (IF_LTZ, if_testz (fun a => a <? 0));
    (IF_GEZ, if_testz (fun a => 0 <=? a));
    (IF_GTZ, if_testz (fun a => 0 <? a));
    (IF_LEZ, if_testz (fun a => a <=? 0)) ].

(** [aget-kind vAA, vBB, vCC]: the array's class and how the element is stored. *)
Definition aget (allowed : list Component) (set : Z -> Z -> M unit) : Handler := fun inst =>
  a ← vreg_ref (VRegB_23x inst);
  if a =? 0 then throw NullPointerException
  else
    index ← vreg (VRegC_23x inst);
    array ← as_array allowed a;
    CheckIsValidIndex array index;;
    v ← GetWithoutChecks array index;
    set (VRegA_23x inst) v;; Next_2xx.

Definition agets : Table :=
  [ (AGET_BOOLEAN, aget [kBooleanArray] set_vreg);
    (AGET_BYTE, aget [kByteArray] set_vreg);
    (AGET_CHAR, aget [kCharArray] set_vreg);
    (AGET_SHORT, aget [kShortArray] set_vreg);
    (AGET, aget [kIntArray; kFloatArray] set_vreg);
    (AGET_WIDE, aget [kLongArray; kDoubleArray] set_vreg_long);
    (AGET_OBJECT, aget [kObjectArray] set_vreg_ref) ].

(** [aput-kind vAA, vBB, vCC] for primitive components: the value is read
    before the index. *)
Definition aput (allowed : list Component) (get : Z -> M Z) (convert : Z -> Z) : Handler :=
  fun inst =>
  a ← vreg_ref (VRegB_23x inst);
  if a =? 0 then throw NullPointerException
  else
    v ← get (VRegA_23x inst);
    index ← vreg (VRegC_23x inst);
    array ← as_array allowed a;
    CheckIsValidIndex array index;;
    SetWithoutChecks a array index (convert v);; Next_2xx.

Definition aputs : Table :=
  [ (APUT_BOOLEAN, aput [kBooleanArray] vreg (fun v => u8 v));
    (APUT_BYTE, aput [kByteArray] vreg (fun v => s8 v));
    (APUT_CHAR, aput [kCharArray] vreg (fun v => u16 v));
    (APUT_SHORT, aput [kShortArray] vreg (fun v => s16 v));
    (APUT, aput [kIntArray; kFloatArray] vreg (fun v => v));
    (APUT_WIDE, aput [kLongArray; kDoubleArray] vreg_long (fun v => v)) ].

Definition aput_object : Table :=
  [ (APUT_OBJECT, fun inst =>
       a ← vreg_ref (VRegB_23x inst);
       if a =? 0 then throw NullPointerException
       else
         index ← vreg (VRegC_23x inst);
         v ← vreg_ref (VRegA_23x inst);
         array ← as_array [kObjectArray] a;
         CheckIsValidIndex array index;; CheckAssignable a v;;
         SetWithoutChecks a array index v;; Next_2xx) ].


(** ** Arithmetic *)

Definition unops : Table :=
  [ (NEG_INT, fun inst =>
       v ← vreg (VRegB_12x inst); set_vreg (VRegA_12x inst) (neg 32 v);; Next_1xx);
    (NOT_INT, fun inst =>
       v ← vreg (VRegB_12x inst); set_vreg (VRegA_12x inst) (Z.lnot v);; Next_1xx);
    (NEG_LONG, fun inst =>
       v ← vreg_long (VRegB_12x inst); set_vreg_long (VRegA_12x inst) (neg 64 v);; Next_1xx);
    (NOT_LONG, fun inst =>
       v ← vreg_long (VRegB_12x inst); set_vreg_long (VRegA_12x inst) (Z.lnot v);; Next_1xx) ].

Definition int_to_long : Table :=
  [ (INT_TO_LONG, fun inst =>
       v ← vreg (VRegB_12x inst); set_vreg_long (VRegA_12x inst) v;; Next_1xx) ].
Definition long_to_int : Table :=
  [ (LONG_TO_INT, fun inst =>
       v ← vreg_long (VRegB_12x inst); set_vreg (VRegA_12x inst) v;; Next_1xx) ].

Definition narrowings : Table :=
  [ (INT_TO_BYTE, fun inst =>
       v ← vreg (VRegB_12x inst); set_vreg (VRegA_12x inst) (s8 v);; Next_1xx);
    (INT_TO_CHAR, fun inst =>
       v ← vreg (VRegB_12x inst); set_vreg (VRegA_12x inst) (u16 v);; Next_1xx);
    (INT_TO_SHORT, fun inst =>
       v ← vreg (VRegB_12x inst); set_vreg (VRegA_12x inst) (s16 v);; Next_1xx) ].

(** The three encodings of a binary operation on [int]: [vAA <- vBB op vCC],
    [vA <- vA op vB], [vA <- vB op #CCCC] and [vAA <- vBB op #CC]. *)
Definition int_23x (op : Z -> Z -> Z -> M unit) : Handler := fun inst =>
  b ← vreg (VRegB_23x inst); c ← vreg (VRegC_23x inst);
  op (VRegA_23x inst) b c;; Next_2xx.
Definition int_2addr (op : Z -> Z -> Z -> M unit) : Handler := fun inst =>
  a ← vreg (VRegA_12x inst); b ← vreg (VRegB_12x inst);
  op (VRegA_12x inst) a b;; Next_1xx.
Definition int_lit16 (op : Z -> Z -> Z -> M unit) : Handler := fun inst =>
  b ← vreg (VRegB_22s inst);
  op (VRegA_22s inst) b (VRegC_22s inst);; Next_2xx.
Definition int_lit8 (op : Z -> Z -> Z -> M unit) : Handler := fun inst =>
  b ← vreg (VRegB_22b inst);
  op (VRegA_22b inst) b (VRegC_22b inst);; Next_2xx.

(** Binary operations on [long]; the shift distance is an [int]. *)
Definition long_23x (op : Z -> Z -> Z -> M unit) : Handler := fun inst =>
  b ← vreg_long (VRegB_23x inst); c ← vreg_long (VRegC_23x inst);
  op (VRegA_23x inst) b c;; Next_2xx.
Definition long_2addr (op : Z -> Z -> Z -> M unit) : Handler := fun inst =>
  a ← vreg_long (VRegA_12x inst); b ← vreg_long (VRegB_12x inst);
  op (VRegA_12x inst) a b;; Next_1xx.
Definition long_shift_23x (op : Z -> Z -> Z -> M unit) : Handler := fun inst =>
  b ← vreg_long (VRegB_23x inst); c ← vreg (VRegC_23x inst);
  op (VRegA_23x inst) b c;; Next_2xx.
Definition long_shift_2addr (op : Z -> Z -> Z -> M unit) : Handler := fun inst =>
  a ← vreg_long (VRegA_12x inst); b ← vreg (VRegB_12x inst);
  op (VRegA_12x inst) a b;; Next_1xx.

Definition int_binops : Table :=
  [ (ADD_INT, int_23x (fun r a b => set_vreg r (SafeAdd 32 a b)));
    (SUB_INT, int_23x (fun r a b => set_vreg r (SafeSub 32 a b)));
    (MUL_INT, int_23x (fun r a b => set_vreg r (SafeMul 32 a b)));
    (DIV_INT, int_23x (fun r a b => DoIntDivide r a b));
    (REM_INT, int_23x (fun r a b => DoIntRemainder r a b));
    (SHL_INT, int_23x (fun r a b => set_vreg r (shl 32 a (b &&& 0x1f))));
    (SHR_INT, int_23x (fun r a b => set_vreg r (a >> (b &&& 0x1f))));
    (USHR_INT, int_23x (fun r a b => set_vreg r (u32 a >> (b &&& 0x1f))));
    (AND_INT, int_23x (fun r a b => set_vreg r (a &&& b)));
    (OR_INT, int_23x (fun r a b => set_vreg r (a ||| b)));
    (XOR_INT, int_23x (fun r a b => set_vreg r (a ^^^ b))) ].

Definition long_binops : Table :=
  [ (ADD_LONG, long_23x (fun r a b => set_vreg_long r (SafeAdd 64 a b)));
    (SUB_LONG, long_23x (fun r a b => set_vreg_long r (SafeSub 64 a b)));
    (MUL_LONG, long_23x (fun r a b => set_vreg_long r (SafeMul 64 a b)));
    (DIV_LONG, long_23x (fun r a b => DoLongDivide r a b;; handle_if_pending));
    (REM_LONG, long_23x (fun r a b => DoLongRemainder r a b;; handle_if_pending));
    (AND_LONG, long_23x (fun r a b => set_vreg_long r (a &&& b)));
    (OR_LONG, long_23x (fun r a b => set_vreg_long r (a ||| b)));
    (XOR_LONG, long_23x (fun r a b => set_vreg_long r (a ^^^ b)));
    (SHL_LONG, long_shift_23x (fun r a b => set_vreg_long r (shl 64 a (b &&& 0x3f))));
    (SHR_LONG, long_shift_23x (fun r a b => set_vreg_long r (a >> (b &&& 0x3f))));
    (USHR_LONG, long_shift_23x (fun r a b => set_vreg_long r (u64 a >> (b &&& 0x3f)))) ].

Definition int_binops_2addr : Table :=
  [ (ADD_INT_2ADDR, int_2addr (fun r a b => set_vreg r (SafeAdd 32 a b)));
    (SUB_INT_2ADDR, int_2addr (fun r a b => set_vreg r (SafeSub 32 a b)));
    (MUL_INT_2ADDR, int_2addr (fun r a b => set_vreg r (SafeMul 32 a b)));
    (DIV_INT_2ADDR, int_2addr (fun r a b => DoIntDivide r a b));
    (REM_INT_2ADDR, int_2addr (fun r a b => DoIntRemainder r a b));
    (SHL_INT_2ADDR, int_2addr (fun r a b => set_vreg r (shl 32 a (b &&& 0x1f))));
    (SHR_INT_2ADDR, int_2addr (fun r a b => set_vreg r (a >> (b &&& 0x1f))));
    (USHR_INT_2ADDR, int_2addr (fun r a b => set_vreg r (u32 a >> (b &&& 0x1f))));
    (AND_INT_2ADDR, int_2addr (fun r a b => set_vreg r (a &&& b)));
    (OR_INT_2ADDR, int_2addr (fun r a b => set_vreg r (a ||| b)));
    (XOR_INT_2ADDR, int_2addr (fun r a b => set_vreg r (a ^^^ b))) ].

Definition long_binops_2addr : Table :=
  [ (ADD_LONG_2ADDR, long_2addr (fun r a b => set_vreg_long r (SafeAdd 64 a b)));
    (SUB_LONG_2ADDR, long_2addr (fun r a b => set_vreg_long r (SafeSub 64 a b)));
    (MUL_LONG_2ADDR, long_2addr (fun r a b => set_vreg_long r (SafeMul 64 a b)));
    (DIV_LONG_2ADDR, long_2addr (fun r a b => DoLongDivide r a b;; handle_if_pending));
    (REM_LONG_2ADDR, long_2addr (fun r a b => DoLongRemainder r a b;; handle_if_pending));
    (AND_LONG_2ADDR, long_2addr (fun r a b => set_vreg_long r (a &&& b)));
    (OR_LONG_2ADDR, long_2addr (fun r a b => set_vreg_long r (a ||| b)));
    (XOR_LONG_2ADDR, long_2addr (fun r a b => set_vreg_long r (a ^^^ b)));
    (SHL_LONG_2ADDR, long_shift_2addr (fun r a b => set_vreg_long r (shl 64 a (b &&& 0x3f))));
    (SHR_LONG_2ADDR, long_shift_2addr (fun r a b => set_vreg_long r (a >> (b &&& 0x3f))));
    (USHR_LONG_2ADDR, long_shift_2addr (fun r a b => set_vreg_long r (u64 a >> (b &&& 0x3f)))) ].

Definition int_binops_lit16 : Table :=
  [ (ADD_INT_LIT16, int_lit16 (fun r a b => set_vreg r (SafeAdd 32 a b)));
    (RSUB_INT_LIT16, int_lit16 (fun r a b => set_vreg r (SafeSub 32 b a)));
    (MUL_INT_LIT16, int_lit16 (fun r a b => set_vreg r (SafeMul 32 a b)));
    (DIV_INT_LIT16, int_lit16 (fun r a b => DoIntDivide r a b));
    (REM_INT_LIT16, int_lit16 (fun r a b => DoIntRemainder r a b));
    (AND_INT_LIT16, int_lit16 (fun r a b => set_vreg r (a &&& b)));
    (OR_INT_LIT16, int_lit16 (fun r a b => set_vreg r (a ||| b)));
    (XOR_INT_LIT16, int_lit16 (fun r a b => set_vreg r (a ^^^ b))) ].

Definition int_binops_lit8 : Table :=
  [ (ADD_INT_LIT8, int_lit8 (fun r a b => set_vreg r (SafeAdd 32 a b)));
    (RSUB_INT_LIT8, int_lit8 (fun r a b => set_vreg r (SafeSub 32 b a)));
    (MUL_INT_LIT8, int_lit8 (fun r a b => set_vreg r (SafeMul 32 a b)));
    (DIV_INT_LIT8, int_lit8 (fun r a b => DoIntDivide r a b));
    (REM_INT_LIT8, int_lit8 (fun r a b => DoIntRemainder r a b));
    (AND_INT_LIT8, int_lit8 (fun r a b => set_vreg r (a &&& b)));
    (OR_INT_LIT8, int_lit8 (fun r a b => set_vreg r (a ||| b)));
    (XOR_INT_LIT8, int_lit8 (fun r a b => set_vreg r (a ^^^ b)));
    (SHL_INT_LIT8, int_lit8 (fun r a b => set_vreg r (shl 32 a (b &&& 0x1f))));
    (SHR_INT_LIT8, int_lit8 (fun r a b => set_vreg r (a >> (b &&& 0x1f))));
    (USHR_INT_LIT8, int_lit8 (fun r a b => set_vreg r (u32 a >> (b &&& 0x1f)))) ].


(** [UNUSED_*]: [UnexpectedOpcode] is [LOG(FATAL)]. *)
Definition unused : Table :=
  map (fun op => (op, fun _ _ => Fatal))
    [UNUSED_3E; UNUSED_3F; UNUSED_40; UNUSED_41; UNUSED_42; UNUSED_43;
     UNUSED_F3; UNUSED_F4; UNUSED_F5; UNUSED_F6; UNUSED_F7; UNUSED_F8; UNUSED_F9;
     UNUSED_FE; UNUSED_FF; UNUSED_79; UNUSED_7A].

(** The [switch]; opcodes without an entry are not modelled. *)
Definition dispatch : Table :=
  nop_moves ++ move_results ++ returns ++ consts ++ array_length ++ fill_array_data ++ throws ++
  gotos_and_switches ++ cmps ++ ifs ++ ifzs ++ agets ++ aputs ++ aput_object ++ unops ++
  int_to_long ++ long_to_int ++ narrowings ++ int_binops ++ long_binops ++ int_binops_2addr ++
  long_binops_2addr ++ int_binops_lit16 ++ int_binops_lit8 ++ unused.

Definition handler_of (op : Z) : Handler :=
  match find (fun '(op', _) => op' =? op) dispatch with
  | Some (_, h) => h
  | None => fun _ _ => NotModelled
  end.
End Handlers.

(** ** The loop *)

Section Execute.
Context `{RT : Runtime} (m : mem) (code_item : CodeItem) (interpret_one_instruction : bool).

(** [FindNextInstructionFollowingException] without listeners. *)
Definition FindNextInstructionFollowingException (pc : Z) (s : Machine) : option (Z * Machine) :=
  match FindCatchBlock m code_item (catches s (exception s)) pc false with
  | Some (found_dex_pc, clear_exception) =>
      Some (found_dex_pc, if clear_exception then with_exception s 0 else s)
  | None => None
  end.

(** [HANDLE_PENDING_EXCEPTION]: continue at the handler or leave the method with
    the exception pending. *)
Definition handle_pending_exception (pc : Z) (s : Machine) : Outcome Z :=
  match FindNextInstructionFollowingException pc s with
  | None => Fatal
  | Some (found_dex_pc, s) =>
      if found_dex_pc =? kDexNoIndex then
        Returned 0 (if interpret_one_instruction
                    then with_frame s (SetDexPC (frame s) kDexNoIndex) else s)
      else
        let displacement := s32 found_dex_pc - s32 pc in
        Done (u32 (pc + displacement)) s
  end.

(** One turn of the loop at [dex_pc]: the dex pc of the next instruction. *)
Definition execute_instruction (pc : Z) (s : Machine) : Outcome Z :=
  let s := with_frame s (SetDexPC (frame s) pc) in
  let inst := instruction_at m code_item pc in
  match handler_of interpret_one_instruction (Opcode inst) inst s with
  | Done offset s => Done (u32 (pc + offset)) s
  | Raised s => handle_pending_exception pc s
  | o => o
  end.

(** [ExecuteSwitchImpl]: [None] when [fuel] turns were not enough. *)
Fixpoint execute_loop (fuel : nat) (pc : Z) (s : Machine) : option (Outcome Z) :=
  match fuel with
  | O => None
  | S fuel =>
      match execute_instruction pc s with
      | Done pc s =>
          if interpret_one_instruction
          then Some (Returned (result_register s) (with_frame s (SetDexPC (frame s) pc)))
          else execute_loop fuel pc s
      | o => Some o
      end
  end.
Definition ExecuteSwitchImpl (fuel : nat) (s : Machine) : option (Outcome Z) :=
  execute_loop fuel (dex_pc (frame s)) s.
End Execute.
