(* ===== verification/InterpreterFacts.v ===== *)
(** * A program logic for the interpreter's handlers

    A triple bounds every way a handler can end: the state it leaves is
    well-formed, and normal ends, exceptions, returns, aborts and accesses outside
    the frame happen only as allowed.  The rules for the primitives are proved
    once; each entry of the dispatch table follows by applying them. *)
From stdpp Require Import gmap.
From S2P Require Import Prelude BitUtils Leb128 DexInstructionList DexInstruction ShadowFrame ExceptionTable StaticVerifier StaticVerifierFacts Interpreter.

(** ** Well-formed machines *)

Definition array_ok (o : ArrayObject) : Prop :=
  Forall (fun v => component_value (component o) v = v) (elements o).

Definition heap_ok (h : gmap Z ArrayObject) : Prop := map_Forall (fun _ o => array_ok o) h.

Definition machine_ok (n : nat) (s : Machine) : Prop :=
  frame_ok (frame s) /\ number_of_vregs (frame s) = n /\
  in_s 64 (result_register s) /\ in_u 32 (exception s) /\ heap_ok (heap s).

Lemma component_value_idem c v : component_value c (component_value c v) = component_value c v.
Proof.
  destruct c; simpl;
    first [apply wrap_u_id, wrap_u_range; lia | apply wrap_s_id; [lia|apply wrap_s_range; lia]].
Qed.

(** ** Triples *)

Section Logic.
Context `{RT : Runtime} (one : bool) (n : nat) (strict raises returns aborts : Prop).

Definition triple {A} (c : M A) (Q : A -> Prop) : Prop :=
  forall s, machine_ok n s ->
    match c s with
    | Done a s' => machine_ok n s' /\ Q a
    | Raised s' => machine_ok n s' /\ exception s' <> 0 /\ raises
    | Returned v s' => machine_ok n s' /\ in_s 64 v /\ returns
    | BadRegister => ~ strict
    | Fatal => aborts
    | BadObject | NotModelled => True
    end.

Lemma t_ret {A} (a : A) (Q : A -> Prop) : Q a -> triple (mret a) Q.
Proof. by intros H s Hs. Qed.

Lemma t_bind {A B} (c : M A) (k : A -> M B) P Q :
  triple c P -> (forall a, P a -> triple (k a) Q) -> triple (c ≫= k) Q.
Proof.
  intros Hc Hk s Hs. unfold mbind, M_bind. specialize (Hc s Hs).
  destruct (c s); try done. destruct Hc as [Hs' Ha]. by apply Hk.
Qed.

Lemma t_weaken {A} (c : M A) (P Q : A -> Prop) :
  triple c P -> (forall a, P a -> Q a) -> triple c Q.
Proof. intros Hc H s Hs. specialize (Hc s Hs). destruct (c s); try done. destruct Hc. auto. Qed.

(** ** Registers *)

Definition reg (i : Z) : Prop := 0 <= i < Z.of_nat n.
Definition wide_reg (i : Z) : Prop := 0 <= i /\ i + 1 < Z.of_nat n.

Lemma t_vreg i : (strict -> reg i) -> triple (vreg i) (in_s 32).
Proof.
  intros Hi s Hs. pose proof Hs as (Hf & Hn & _). unfold vreg, read_frame.
  destruct (GetVReg (frame s) i) as [v|] eqn:E.
  - split; [done|]. unfold GetVReg in E. frame_steps. injection E as <-. apply wrap_s_range. lia.
  - intros H. specialize (Hi H). unfold reg in Hi.
    destruct (read_words (frame s) (Z.to_nat i) Hf) as (w & r & Hw & _); [lia|].
    replace i with (Z.of_nat (Z.to_nat i)) in E by lia.
    rewrite GetVReg_at, Hw in E by lia. done.
Qed.

Lemma t_vreg_long i : (strict -> wide_reg i) -> triple (vreg_long i) (in_s 64).
Proof.
  intros Hi s Hs. pose proof Hs as (Hf & Hn & _). unfold vreg_long, read_frame.
  destruct (GetVRegLong (frame s) i) as [v|] eqn:E.
  - split; [done|]. unfold GetVRegLong in E. frame_steps. injection E as <-. apply wrap_s_range. lia.
  - intros H. specialize (Hi H). unfold wide_reg in Hi. unfold GetVRegLong, read_word in E.
    rewrite (proj2 (check_vreg_Some (frame s) i (Z.to_nat i))) in E by lia.
    destruct (read_words (frame s) (Z.to_nat i) Hf) as (w & r & Hw & _); [lia|].
    destruct (read_words (frame s) (S (Z.to_nat i)) Hf) as (w' & r' & Hw' & _); [lia|].
    simpl in E. rewrite Hw, Hw' in E. done.
Qed.

Lemma t_vreg_ref i : (strict -> reg i) -> triple (vreg_ref i) (in_u 32).
Proof.
  intros Hi s Hs. pose proof Hs as (Hf & Hn & _). unfold vreg_ref, read_frame.
  destruct (GetVRegReference (frame s) i) as [v|] eqn:E.
  - split; [done|]. unfold GetVRegReference in E. frame_steps.
    by apply (Forall_lookup_1 _ _ _ _ (proj1 (proj2 Hf)) E).
  - intros H. specialize (Hi H). unfold reg in Hi.
    destruct (read_words (frame s) (Z.to_nat i) Hf) as (w & r & _ & _ & Hr & _); [lia|].
    replace i with (Z.of_nat (Z.to_nat i)) in E by lia.
    rewrite GetVRegReference_at, Hr in E by lia. done.
Qed.

Lemma stored_frame f f' k v r : stored f f' k v r -> frame_ok f'.
Proof. by intros [H _]. Qed.

Lemma with_frame_ok s f :
  machine_ok n s -> frame_ok f -> number_of_vregs f = n -> machine_ok n (with_frame s f).
Proof. intros (_ & _ & H) Hf Hn. by split; [|split]. Qed.

Lemma t_set_vreg i v : (strict -> reg i) -> triple (set_vreg i v) (fun _ => True).
Proof.
  intros Hi s Hs. pose proof Hs as (Hf & Hn & _). unfold set_vreg, write_frame.
  pose proof (SetVReg_spec (frame s) i (s32 v) Hf) as H.
  destruct (SetVReg _ _ _) as [f|] eqn:E.
  - destruct H as [_ H]. split; [|done]. apply with_frame_ok; [done|by eapply stored_frame|].
    unfold SetVReg in E. by frame_steps.
  - intros Hst. specialize (Hi Hst). unfold reg in Hi. rewrite Hn in H. tauto.
Qed.

Lemma t_set_vreg_ref i v : (strict -> reg i) -> triple (set_vreg_ref i v) (fun _ => True).
Proof.
  intros Hi s Hs. pose proof Hs as (Hf & Hn & _). unfold set_vreg_ref, write_frame.
  pose proof (SetVRegReference_spec (frame s) i (u32 v) Hf) as H.
  destruct (SetVRegReference _ _ _) as [f|] eqn:E.
  - destruct H as [_ H]. split; [|done]. apply with_frame_ok; [done|by eapply stored_frame|].
    unfold SetVRegReference in E. by frame_steps.
  - intros Hst. specialize (Hi Hst). unfold reg in Hi. rewrite Hn in H. tauto.
Qed.

Lemma t_set_vreg_long i v : (strict -> wide_reg i) -> triple (set_vreg_long i v) (fun _ => True).
Proof.
  intros Hi s Hs. pose proof Hs as (Hf & Hn & _). unfold set_vreg_long, write_frame.
  pose proof (SetVRegLong_spec (frame s) i (s64 v) Hf ltac:(apply wrap_s_range; lia)) as H.
  destruct (SetVRegLong _ _ _) as [f|] eqn:E.
  - destruct H as (_ & _ & H & _). split; [|done]. apply with_frame_ok; [done..|].
    unfold SetVRegLong in E. cbn [kMovingCollector] in E. by frame_steps.
  - intros Hst. specialize (Hi Hst). unfold wide_reg in Hi. rewrite Hn in H. tauto.
Qed.

(** ** Exceptions, returns and branches *)

Lemma t_throw {A} k (Q : A -> Prop) : raises -> triple (throw k) Q.
Proof.
  intros H s (Hf & Hn & Hr & He & Hh). pose proof (new_throwable_nonnull k s).
  unfold throw. split; [|by split; [simpl; lia|]]. split_and!; try done. unfold in_u. simpl. lia.
Qed.

Lemma t_SetException {A} e (Q : A -> Prop) :
  in_u 32 e -> e <> 0 -> raises -> triple (SetException e) Q.
Proof. intros Hi H0 H s (Hf & Hn & Hr & He & Hh). by split_and!. Qed.

Lemma t_handle_if_pending : raises -> triple handle_if_pending (fun _ => True).
Proof.
  intros H s Hs. unfold handle_if_pending. case_if; [by split|]. bools. by split_and!.
Qed.

Lemma t_pending_exception : triple pending_exception (in_u 32).
Proof.
  intros s Hs. unfold pending_exception. case_if; [done|]. split; [done|]. apply Hs.
Qed.

Lemma t_ClearException : triple ClearException (fun _ => True).
Proof.
  intros s (Hf & Hn & Hr & He & Hh). split; [|done]. split_and!; try done.
Qed.

Lemma t_result : triple result (in_s 64).
Proof. intros s Hs. split; [done|]. apply Hs. Qed.

Lemma SetDexPC_ok s pc : machine_ok n s -> machine_ok n (with_frame s (SetDexPC (frame s) pc)).
Proof. intros Hs. apply with_frame_ok; [done| |]; apply Hs. Qed.

Lemma t_return_value v (Q : Z -> Prop) : in_s 64 v -> returns -> triple (return_value one v) Q.
Proof.
  intros Hv H s Hs. unfold return_value. split; [|by split]. case_if; [by apply SetDexPC_ok|done].
Qed.

Lemma t_branch off (Q : Z -> Prop) : Q off -> triple (branch off) Q.
Proof.
  intros H s Hs. unfold branch. split; [|done]. case_if; [by apply SetDexPC_ok|done].
Qed.

(** ** Arrays *)

Lemma t_as_array allowed a : triple (as_array allowed a) array_ok.
Proof.
  intros s Hs. unfold as_array. destruct (heap s !! a) as [o|] eqn:E; [|done].
  case_decide; [|done]. split; [done|]. by apply Hs in E.
Qed.

Lemma t_CheckIsValidIndex o i : raises -> triple (CheckIsValidIndex o i) (fun _ => True).
Proof. intros H. unfold CheckIsValidIndex. case_if; [by apply t_throw|by apply t_ret]. Qed.

Lemma t_CheckAssignable a o : raises -> triple (CheckAssignable a o) (fun _ => True).
Proof.
  intros H s Hs. unfold CheckAssignable. case_if; [by apply (t_throw (ArrayStoreException o))|by split].
Qed.

Lemma t_GetWithoutChecks o i : array_ok o ->
  triple (GetWithoutChecks o i) (fun v => component_value (component o) v = v).
Proof.
  intros Ho s Hs. unfold GetWithoutChecks. destruct (_ !! _) as [v|] eqn:E; [|done].
  case_if; [|done]. split; [done|]. by apply (Forall_lookup_1 _ _ _ _ Ho E).
Qed.

Lemma with_array_ok s a o :
  machine_ok n s -> array_ok o -> machine_ok n (with_heap s (<[a := o]> (heap s))).
Proof.
  intros (Hf & Hn & Hr & He & Hh) Ho. split_and!; try done. by apply map_Forall_insert_2.
Qed.

Lemma t_SetWithoutChecks a o i v : array_ok o ->
  triple (SetWithoutChecks a o i v) (fun _ => True).
Proof.
  intros Ho s Hs. unfold SetWithoutChecks. case_if; [|done]. split; [|done].
  apply with_array_ok; [done|]. apply Forall_insert; [done|]. apply component_value_idem.
Qed.

Lemma t_FillArrayData obj payload : raises -> triple (FillArrayData obj payload) (fun _ => True).
Proof.
  intros H. unfold FillArrayData. case_if; [by apply t_throw|].
  eapply t_bind; [apply t_as_array|]. intros o Ho. cbv zeta. case_if; [by apply t_throw|].
  intros s Hs. unfold copy_payload. cbv zeta. case_if; [|done]. split; [|done].
  apply with_array_ok; [done|]. apply Forall_app. split; [|by apply Forall_drop].
  apply Forall_map, Forall_true. intros i. apply component_value_idem.
Qed.

(** ** Division *)

Lemma t_DoIntDivide r a b : (strict -> reg r) -> raises -> triple (DoIntDivide r a b) (fun _ => True).
Proof. intros. unfold DoIntDivide. repeat case_if; [by apply t_throw|by apply t_set_vreg..]. Qed.
Lemma t_DoIntRemainder r a b :
  (strict -> reg r) -> raises -> triple (DoIntRemainder r a b) (fun _ => True).
Proof. intros. unfold DoIntRemainder. repeat case_if; [by apply t_throw|by apply t_set_vreg..]. Qed.
Lemma t_DoLongDivide r a b :
  (strict -> wide_reg r) -> raises -> triple (DoLongDivide r a b) (fun _ => True).
Proof. intros. unfold DoLongDivide. repeat case_if; [by apply t_throw|by apply t_set_vreg_long..]. Qed.
Lemma t_DoLongRemainder r a b :
  (strict -> wide_reg r) -> raises -> triple (DoLongRemainder r a b) (fun _ => True).
Proof. intros. unfold DoLongRemainder. repeat case_if; [by apply t_throw|by apply t_set_vreg_long..]. Qed.
End Logic.

(** ** Where a handler may go *)

Definition flows (inst : Instruction) (off : Z) : Prop :=
  (CanFlowThrough inst = true /\
     (SizeInCodeUnits inst = Some off \/ Opcode inst = NOP /\ off = 1)) \/
  (IsBranch inst = true /\ GetTargetOffset inst = Some off) \/
  (IsSwitch inst = true /\ exists targ, 0 <= targ < switch_count inst /\
     off = table_int (RelativeAt inst (payload_offset inst))
             (switch_targets_offset inst + targ * 2)).

(** Every entry of the dispatch table obeys the descriptor of its opcode. *)
Definition entry_ok `{RT : Runtime} (one : bool) (e : Z * Handler) : Prop :=
  forall n inst, (forall i, in_u 16 (inst i)) -> Opcode inst = e.1 ->
    triple n (register_checks (Z.of_nat n) inst) (IsThrow inst = true) (IsReturn inst = true)
      (GetVerifyExtraFlags inst = kVerifyError) (e.2 inst) (flows inst).

(** ** Operands *)

Section Operands.
Context (n : nat) (inst : Instruction) (op : Z).
Hypothesis Hu : forall i, in_u 16 (inst i).
Hypothesis Hop : Opcode inst = op.
Hypothesis Hchecks : register_checks (Z.of_nat n) inst.

Lemma u32_small x : 0 <= x < 65536 -> u32 x = x.
Proof. intros. apply wrap_u_id. unfold in_u. pows. lia. Qed.
Lemma u32_small_next x : 0 <= x < 65536 -> u32 (u32 x + 1) = x + 1.
Proof. intros. rewrite (u32_small x) by done. apply wrap_u_id. unfold in_u. pows. lia. Qed.

Lemma operand_a x :
  VerifyFlagsOf op &&& (kVerifyRegA ||| kVerifyRegAWide) = kVerifyRegA ->
  VRegA inst = x -> 0 <= x < 65536 -> reg n x.
Proof.
  intros Hv <- Hx. destruct Hchecks as (H & _). unfold GetVerifyTypeArgumentA in H.
  rewrite Hop in H. specialize (H Hv). rewrite u32_small in H by done. unfold reg. lia.
Qed.
Lemma operand_a_wide x :
  VerifyFlagsOf op &&& (kVerifyRegA ||| kVerifyRegAWide) = kVerifyRegAWide ->
  VRegA inst = x -> 0 <= x < 65536 -> wide_reg n x.
Proof.
  intros Hv <- Hx. destruct Hchecks as (_ & H & _). unfold GetVerifyTypeArgumentA in H.
  rewrite Hop in H. specialize (H Hv). rewrite u32_small_next in H by done. unfold wide_reg. lia.
Qed.
Lemma operand_b x :
  GetVerifyTypeArgumentB inst = kVerifyRegB -> VRegB inst = Some x -> 0 <= x < 65536 -> reg n x.
Proof.
  intros Hv Hb Hx. destruct Hchecks as (_ & _ & H & _). destruct (H x Hb) as [H1 _].
  specialize (H1 Hv). rewrite u32_small in H1 by done. unfold reg. lia.
Qed.
Lemma operand_b_wide x :
  GetVerifyTypeArgumentB inst = kVerifyRegBWide -> VRegB inst = Some x -> 0 <= x < 65536 ->
  wide_reg n x.
Proof.
  intros Hv Hb Hx. destruct Hchecks as (_ & _ & H & _). destruct (H x Hb) as [_ H1].
  specialize (H1 Hv). rewrite u32_small_next in H1 by done. unfold wide_reg. lia.
Qed.
Lemma operand_c x :
  GetVerifyTypeArgumentC inst = kVerifyRegC -> VRegC inst = Some x -> 0 <= x < 65536 -> reg n x.
Proof.
  intros Hv Hb Hx. destruct Hchecks as (_ & _ & _ & H). destruct (H x Hb) as [H1 _].
  specialize (H1 Hv). rewrite u32_small in H1 by done. unfold reg. lia.
Qed.
Lemma operand_c_wide x :
  GetVerifyTypeArgumentC inst = kVerifyRegCWide -> VRegC inst = Some x -> 0 <= x < 65536 ->
  wide_reg n x.
Proof.
  intros Hv Hb Hx. destruct Hchecks as (_ & _ & _ & H). destruct (H x Hb) as [_ H1].
  specialize (H1 Hv). rewrite u32_small_next in H1 by done. unfold wide_reg. lia.
Qed.

(** A wide register is a register. *)
Lemma wide_reg_reg x : wide_reg n x -> reg n x.
Proof. unfold wide_reg, reg. lia. Qed.
End Operands.

Lemma u8_range x : 0 <= u8 x < 65536.
Proof. wrap_unfold. zdiv. Qed.
Lemma nibble_range x : 0 <= x &&& 0x0f < 65536.
Proof. rewrite land_f. zdiv. Qed.
Lemma unit_range (inst : Instruction) i : in_u 16 (inst i) -> 0 <= inst i < 65536.
Proof. unfold in_u. pows. done. Qed.

(** Replaces a closed term by its value. *)
Ltac compute_term t :=
  let v := eval vm_compute in t in
  replace t with v by (vm_compute; reflexivity).

(** A fact about the descriptor of a known opcode.  Only closed terms are
    evaluated. *)
Ltac by_descriptor Hop :=
  match goal with
  | |- CanFlowThrough ?inst = _ =>
      change (CanFlowThrough inst) with (flag_set (FlagsOf (Opcode inst)) kContinue);
      rewrite Hop; vm_compute; reflexivity
  | |- VRegA _ = _ =>
      unfold VRegA; rewrite Hop;
      match goal with |- context [FormatOf ?op] => compute_term (FormatOf op) end; reflexivity
  | |- VRegB _ = _ =>
      unfold VRegB; rewrite Hop;
      match goal with |- context [FormatOf ?op] => compute_term (FormatOf op) end; reflexivity
  | |- VRegC _ = _ =>
      unfold VRegC; rewrite Hop;
      match goal with |- context [FormatOf ?op] => compute_term (FormatOf op) end; reflexivity
  | |- GetTargetOffset _ = _ =>
      unfold GetTargetOffset; rewrite Hop;
      match goal with |- context [FormatOf ?op] => compute_term (FormatOf op) end; reflexivity
  | |- SizeInCodeUnits _ = _ =>
      unfold SizeInCodeUnits; rewrite Hop;
      match goal with |- context [size_in_code_units ?d] =>
        compute_term (size_in_code_units d) end; reflexivity
  | |- _ =>
      unfold GetVerifyTypeArgumentB, GetVerifyTypeArgumentC, IsThrow, IsReturn, IsBranch, IsSwitch,
        GetVerifyExtraFlags;
      rewrite Hop; vm_compute; reflexivity
  end.

Ltac operand_range Hu :=
  lazy beta delta [VRegA_12x VRegA_22x VRegA_32x VRegA_11x VRegA_11n VRegA_21s VRegA_31i VRegA_21h
    VRegA_51l VRegA_23x VRegA_22t VRegA_21t VRegA_31t VRegA_22s VRegA_22b VRegB_12x VRegB_22x
    VRegB_32x VRegB_23x VRegB_22t VRegB_22s VRegB_22b VRegC_23x InstA InstB InstAA Fetch16];
  first [apply u8_range | apply nibble_range | apply unit_range, Hu].

Ltac operand Hu Hop :=
  let H := fresh "Hst" in intros H;
  first
    [ eapply operand_a; [exact Hop|exact H|vm_compute; reflexivity|by_descriptor Hop|operand_range Hu]
    | eapply operand_b; [exact H|by_descriptor Hop|by_descriptor Hop|operand_range Hu]
    | eapply operand_c; [exact H|by_descriptor Hop|by_descriptor Hop|operand_range Hu]
    | eapply operand_a_wide; [exact Hop|exact H|vm_compute; reflexivity|by_descriptor Hop|operand_range Hu]
    | eapply operand_b_wide; [exact H|by_descriptor Hop|by_descriptor Hop|operand_range Hu]
    | eapply operand_c_wide; [exact H|by_descriptor Hop|by_descriptor Hop|operand_range Hu] ].

(** ** Switches *)

Lemma sparse_switch_loop_total fuel inst size v lo hi :
  0 <= lo -> hi < size -> lo <= hi + 1 -> hi - lo + 1 < Z.of_nat fuel ->
  exists r, sparse_switch_loop fuel inst size v lo hi = Some r /\
    (r = 3 \/ exists mid, 0 <= mid < size /\ r = switch_int inst (2 + 2 * (size + mid))).
Proof.
  revert lo hi. induction fuel as [|fuel IH]; intros lo hi Hlo Hhi Hle Hf; [lia|].
  cbn [sparse_switch_loop]. destruct (Z.leb_spec lo hi); [|eauto].
  rewrite Z.quot_div_nonneg by lia. cbv zeta.
  assert (lo <= (lo + hi) / 2 <= hi) by zdiv.
  case_if; [apply IH; lia|]. case_if; [apply IH; lia|].
  eexists. split; [done|]. right. exists ((lo + hi) / 2). split; [lia|done].
Qed.

Section Switches.
Context (inst : Instruction).
Hypothesis Hu : forall i, in_u 16 (inst i).

Lemma switch_int_table i :
  switch_int inst i = table_int (RelativeAt inst (payload_offset inst)) i.
Proof. unfold switch_int. by rewrite table_int_Fetch32, payload_offset_31t. Qed.

Lemma switch_word_count : switch_word inst 1 = switch_count inst.
Proof. unfold switch_word, switch_count, RelativeAt, Fetch16. by rewrite payload_offset_31t. Qed.

Lemma packed_switch_flows v : Opcode inst = PACKED_SWITCH -> flows inst (packed_switch_offset inst v).
Proof.
  intros Hop. unfold packed_switch_offset.
  assert (flows inst 3) as H3 by (left; split; [|left]; by_descriptor Hop).
  rewrite switch_word_count. case_if; [done|]. cbv zeta. case_if; [|done]. bools.
  right. right. split; [by_descriptor Hop|]. exists (s32 (v - switch_int inst 2)).
  split; [lia|]. unfold switch_targets_offset.
  change (Fetch16 inst 0 &&& 255) with (Opcode inst). rewrite Hop, switch_int_table.
  cbn [Z.eqb PACKED_SWITCH Pos.eqb]. f_equal. lia.
Qed.

Lemma sparse_switch_flows v :
  Opcode inst = SPARSE_SWITCH ->
  exists r, sparse_switch_offset inst v = Some r /\ flows inst r.
Proof.
  intros Hop. unfold sparse_switch_offset.
  assert (flows inst 3) as H3 by (left; split; [|left]; by_descriptor Hop).
  rewrite switch_word_count. cbv zeta. case_if; [eauto|]. bools.
  pose proof (unit_range inst (payload_offset inst + 1) (Hu _)) as Hr.
  change (inst (payload_offset inst + 1)) with (switch_count inst) in Hr.
  destruct (sparse_switch_loop_total (S (Z.to_nat (switch_count inst))) inst (switch_count inst) v 0
    (switch_count inst - 1)) as (r & Er & Hor); [lia..|].
  exists r. split; [done|]. destruct Hor as [->|(mid & Hm & ->)]; [done|].
  right. right. split; [by_descriptor Hop|]. exists mid. split; [done|].
  unfold switch_targets_offset. change (Fetch16 inst 0 &&& 255) with (Opcode inst).
  rewrite Hop, switch_int_table. cbn [Z.eqb PACKED_SWITCH SPARSE_SWITCH Pos.eqb]. f_equal. lia.
Qed.
End Switches.

(** ** The entries *)

(** Proves a triple by the rules, the descriptor giving the side conditions. *)
Ltac rules Hu Hop :=
  repeat match goal with
  | |- triple _ _ _ _ _ (_ ≫= _) _ => eapply t_bind; [|intros ? ?]
  | |- triple _ _ _ _ _ (if ?b then _ else _) _ => destruct b eqn:?
  | |- triple _ _ _ _ _ (vreg _) _ => apply t_vreg
  | |- triple _ _ _ _ _ (vreg_long _) _ => apply t_vreg_long
  | |- triple _ _ _ _ _ (vreg_ref _) _ => apply t_vreg_ref
  | |- triple _ _ _ _ _ (set_vreg _ _) _ => apply t_set_vreg
  | |- triple _ _ _ _ _ (set_vreg_long _ _) _ => apply t_set_vreg_long
  | |- triple _ _ _ _ _ (set_vreg_ref _ _) _ => apply t_set_vreg_ref
  | |- triple _ _ _ _ _ (throw _) _ => apply t_throw
  | |- triple _ _ _ _ _ (branch _) _ => apply t_branch
  | |- triple _ _ _ _ _ result _ => apply t_result
  | |- triple _ _ _ _ _ pending_exception _ => apply t_pending_exception
  | |- triple _ _ _ _ _ ClearException _ => apply t_ClearException
  | |- triple _ _ _ _ _ handle_if_pending _ => apply t_handle_if_pending
  | |- triple _ _ _ _ _ (as_array _ _) _ => apply t_as_array
  | |- triple _ _ _ _ _ (CheckIsValidIndex _ _) _ => apply t_CheckIsValidIndex
  | |- triple _ _ _ _ _ (CheckAssignable _ _) _ => apply t_CheckAssignable
  | |- triple _ _ _ _ _ (GetWithoutChecks _ _) _ => apply t_GetWithoutChecks; assumption
  | |- triple _ _ _ _ _ (SetWithoutChecks _ _ _ _) _ => apply t_SetWithoutChecks; assumption
  | |- triple _ _ _ _ _ (FillArrayData _ _) _ => apply t_FillArrayData
  | |- triple _ _ _ _ _ (DoIntDivide _ _ _) _ => apply t_DoIntDivide
  | |- triple _ _ _ _ _ (DoIntRemainder _ _ _) _ => apply t_DoIntRemainder
  | |- triple _ _ _ _ _ (DoLongDivide _ _ _) _ => apply t_DoLongDivide
  | |- triple _ _ _ _ _ (DoLongRemainder _ _ _) _ => apply t_DoLongRemainder
  | |- triple _ _ _ _ _ (mret _) _ => apply t_ret
  | |- register_checks _ _ -> reg _ _ => operand Hu Hop
  | |- register_checks _ _ -> wide_reg _ _ => operand Hu Hop
  | |- IsThrow _ = true => by_descriptor Hop
  | |- IsReturn _ = true => by_descriptor Hop
  | |- GetVerifyExtraFlags _ = _ => by_descriptor Hop
  | |- flows _ _ =>
      first [ left; split; [by_descriptor Hop|left; by_descriptor Hop]
            | right; left; split; [by_descriptor Hop|by_descriptor Hop] ]
  | |- True => exact I
  end.

Section SwitchRules.
Context (inst : Instruction).
Hypothesis Hu : forall i, in_u 16 (inst i).

Lemma t_DoPackedSwitch n raises returns aborts :
  Opcode inst = PACKED_SWITCH ->
  triple n (register_checks (Z.of_nat n) inst) raises returns aborts (DoPackedSwitch inst)
    (flows inst).
Proof.
  intros Hop. unfold DoPackedSwitch. rules Hu Hop. by apply packed_switch_flows.
Qed.

Lemma t_DoSparseSwitch n raises returns aborts :
  Opcode inst = SPARSE_SWITCH ->
  triple n (register_checks (Z.of_nat n) inst) raises returns aborts (DoSparseSwitch inst)
    (flows inst).
Proof.
  intros Hop. unfold DoSparseSwitch. rules Hu Hop.
  destruct (sparse_switch_flows inst Hu a Hop) as (r & -> & Hr). by intros s Hs.
Qed.
End SwitchRules.

Ltac entries :=
  repeat apply List.Forall_cons;
  try (intros n inst Hu Hop; cbn [fst snd] in *;
       unfold Next_1xx, Next_2xx, Next_3xx, Next_51l; rules Hu Hop);
  try apply List.Forall_nil.

Section Entries.
Context `{RT : Runtime} (one : bool).
Notation ok := (Forall (entry_ok one)).

Lemma nop_moves_ok : ok nop_moves.
Proof.
  unfold nop_moves. entries. left. split; [by_descriptor Hop|].
  right. by split.
Qed.

Lemma move_results_ok : ok move_results.
Proof. unfold move_results. entries. Qed.

Lemma JValue_range v : in_s 32 v -> in_s 64 v.
Proof. unfold in_s. pows. lia. Qed.
Lemma ref_range v : in_u 32 v -> in_s 64 v.
Proof. unfold in_s, in_u. pows. lia. Qed.

Lemma returns_ok : ok (returns one).
Proof.
  unfold returns. entries; apply t_return_value; try by_descriptor Hop;
    first [unfold in_s; pows; lia|assumption|by apply JValue_range|by apply ref_range].
Qed.

Lemma t_const_int n inst dst val (Q : Prop) :
  (register_checks (Z.of_nat n) inst -> reg n dst) ->
  triple n (register_checks (Z.of_nat n) inst) (IsThrow inst = true) (IsReturn inst = true) Q
    (const_int dst val) (fun _ => True).
Proof.
  intros H. unfold const_int. eapply t_bind; [by apply t_set_vreg|]. intros _ _.
  case_if; [by apply t_set_vreg_ref|by apply t_ret].
Qed.

Lemma consts_ok : ok consts.
Proof. unfold consts. entries; apply t_const_int; operand Hu Hop. Qed.

Lemma array_length_ok : ok array_length.
Proof. unfold array_length. entries. Qed.

Lemma fill_array_data_ok : ok fill_array_data.
Proof. unfold fill_array_data. entries. Qed.

Lemma throws_ok : ok throws.
Proof. unfold throws. entries. apply t_SetException; [done|by bools|by_descriptor Hop]. Qed.

Lemma gotos_and_switches_ok : ok gotos_and_switches.
Proof.
  unfold gotos_and_switches. entries.
  - intros s Hs. by apply (t_DoPackedSwitch inst Hu).
  - exact H.
  - intros s Hs. by apply (t_DoSparseSwitch inst Hu).
  - exact H.
Qed.

Lemma cmps_ok : ok cmps.
Proof. unfold cmps. entries. Qed.

Lemma ifs_ok : ok ifs.
Proof. unfold ifs, if_test. entries. Qed.

Lemma ifzs_ok : ok ifzs.
Proof. unfold ifzs, if_testz. entries. Qed.

Lemma agets_ok : ok agets.
Proof. unfold agets, aget. entries. Qed.

Lemma aputs_ok : ok aputs.
Proof. unfold aputs, aput. entries. Qed.

Lemma aput_object_ok : ok aput_object.
Proof. unfold aput_object. entries. Qed.

Lemma unops_ok : ok unops.
Proof. unfold unops. entries. Qed.

Lemma int_to_long_ok : ok int_to_long.
Proof. unfold int_to_long. entries. Qed.

Lemma long_to_int_ok : ok long_to_int.
Proof. unfold long_to_int. entries. Qed.

Lemma narrowings_ok : ok narrowings.
Proof. unfold narrowings. entries. Qed.

Lemma int_binops_ok : ok int_binops.
Proof. unfold int_binops, int_23x. entries. Qed.

Lemma long_binops_ok : ok long_binops.
Proof. unfold long_binops, long_23x, long_shift_23x. entries. Qed.

Lemma int_binops_2addr_ok : ok int_binops_2addr.
Proof. unfold int_binops_2addr, int_2addr. entries. Qed.

Lemma long_binops_2addr_ok : ok long_binops_2addr.
Proof. unfold long_binops_2addr, long_2addr, long_shift_2addr. entries. Qed.

Lemma int_binops_lit16_ok : ok int_binops_lit16.
Proof. unfold int_binops_lit16, int_lit16. entries. Qed.

Lemma int_binops_lit8_ok : ok int_binops_lit8.
Proof. unfold int_binops_lit8, int_lit8. entries. Qed.

Lemma unused_ok : ok unused.
Proof.
  unfold unused, map. entries; intros s Hs; by_descriptor Hop.
Qed.

Lemma dispatch_ok : ok (dispatch one).
Proof.
  unfold dispatch.
  repeat (apply Forall_app; split);
    auto using nop_moves_ok, move_results_ok, returns_ok, consts_ok, array_length_ok, fill_array_data_ok,
      throws_ok, gotos_and_switches_ok, cmps_ok, ifs_ok, ifzs_ok, agets_ok, aputs_ok,
      aput_object_ok, unops_ok, int_to_long_ok, long_to_int_ok, narrowings_ok, int_binops_ok, long_binops_ok,
      int_binops_2addr_ok, long_binops_2addr_ok, int_binops_lit16_ok, int_binops_lit8_ok, unused_ok.
Qed.

(** Whatever the instruction, its handler obeys the descriptor of its opcode. *)
Lemma handler_ok n inst :
  (forall i, in_u 16 (inst i)) ->
  triple n (register_checks (Z.of_nat n) inst) (IsThrow inst = true) (IsReturn inst = true)
    (GetVerifyExtraFlags inst = kVerifyError) (handler_of one (Opcode inst) inst) (flows inst).
Proof.
  intros Hu. unfold handler_of. destruct (find _ _) as [[op h]|] eqn:E; [|by intros s Hs].
  apply find_some in E as [Hin Heq]. apply Z.eqb_eq in Heq as ->.
  pose proof dispatch_ok as Hd. rewrite List.Forall_forall in Hd.
  by apply (Hd _ Hin).
Qed.
End Entries.
