(* ===== verification/InterpreterSoundness.v ===== *)
(** * Verified code runs safely in the interpreter

    The handlers against the descriptor table, one step and whole runs of a
    method that passed the static verifier, and the catch handlers a step can
    reach. *)
From Stdlib Require Import String.
From stdpp Require Import gmap.
From S2P Require Import Prelude BitUtils Leb128 DexInstructionList DexInstruction ShadowFrame ExceptionTable StaticVerifier StaticVerifierFacts Interpreter InterpreterFacts.

(** C35. The interpreter agrees with the descriptor table: from a well-formed
    machine, the handler of any instruction leaves a well-formed machine, moves
    on by the instruction's size only if its opcode is flagged [kContinue], to
    the branch offset only if flagged [kBranch], to a case of its payload only if
    flagged [kSwitch], raises only if flagged [kThrow], returns only if flagged
    [kReturn], aborts only for opcodes the verifier rejects, and stays inside the
    frame whenever the verifier's register checks hold. *)
Theorem interpreter_respects_descriptors `{RT : Runtime} one n inst s :
  (forall i, in_u 16 (inst i)) -> machine_ok n s ->
  match handler_of one (Opcode inst) inst s with
  | Done off s' => machine_ok n s' /\ flows inst off
  | Raised s' => machine_ok n s' /\ exception s' <> 0 /\ IsThrow inst = true
  | Returned v s' => machine_ok n s' /\ in_s 64 v /\ IsReturn inst = true
  | BadRegister => ~ register_checks (Z.of_nat n) inst
  | Fatal => GetVerifyExtraFlags inst = kVerifyError
  | BadObject | NotModelled => True
  end.
Proof. intros Hu. by apply handler_ok. Qed.

(** A runtime whose exception objects live at address 100. *)
Definition sample_runtime : Runtime.
Proof.
  refine {| new_throwable := fun _ _ => 100; instance_of_component := fun _ _ _ => true;
            catches := fun _ _ _ => None |}.
  intros. pows. lia.
Defined.

Definition sample_machine (n : nat) : Machine :=
  {| frame := CreateShadowFrame n 0; result_register := 0; exception := 0; heap := ∅ |}.

Lemma sample_machine_ok n : machine_ok n (sample_machine n).
Proof.
  split; [apply CreateShadowFrame_ok|]. split; [done|]. split; [unfold in_s; pows; simpl; lia|].
  split; [unfold in_u; pows; simpl; lia|]. apply map_Forall_empty.
Qed.

(** [div-int v0, v0, v0] on zero raises, and its opcode is flagged so. *)
Lemma interpreter_respects_descriptors_witness :
  let inst : Instruction := fun i => if i =? 0 then 0x0093 else 0 in
  match handler_of (RT := sample_runtime) false (Opcode inst) inst (sample_machine 1) with
  | Raised s' => exception s' <> 0 /\ IsThrow inst = true
  | _ => False
  end.
Proof.
  intros inst.
  pose proof (interpreter_respects_descriptors (RT := sample_runtime) false 1 inst
    (sample_machine 1)) as H.
  assert (forall i, in_u 16 (inst i)) as Hu
    by (intros i; unfold inst, in_u; destruct (i =? 0); pows; lia).
  specialize (H Hu (sample_machine_ok 1)).
  destruct (handler_of _ _ _ _) as [| s' | | | | | ] eqn:E in H |- *; try (vm_compute in E; discriminate).
  by destruct H as (_ & H).
Defined.

(** ** Catch handlers of verified code *)

Section Verified.
Context `{RT : Runtime} (m : mem) (code_item : CodeItem) (dex_file : DexHeader).
Context (allow one : bool).
Notation size := (insns_size code_item).
Notation start := (instruction_start m code_item).
Notation inst_at := (StaticVerifier.inst_at m code_item).

(** The pseudo instructions that hold switch and array payloads. *)
Definition is_payload (inst : Instruction) : Prop :=
  Fetch16 inst 0 = kPackedSwitchSignature \/ Fetch16 inst 0 = kSparseSwitchSignature \/
  Fetch16 inst 0 = kArrayDataSignature.

(** The code passed the static verifier; the dex file verifier has checked that
    the handler offsets of the try items are those of encoded handler lists. *)
Record verified_method := {
  vm_bytes : bytes_ok m;
  vm_size : in_u 32 size;
  vm_tries : 0 <= tries_size_ code_item;
  vm_passed : exists v v', VerifyStatic m code_item dex_file allow v = Some (true, v');
  vm_lists : forall i, 0 <= i < tries_size_ code_item ->
    GetCatchHandlerData code_item (handler_off_ (try_at m code_item i)) ∈ handler_lists m code_item
}.

Hypothesis Hv : verified_method.

Lemma throw_to_start pc x : throw_to m code_item pc x -> start x.
Proof.
  intros (t & Ht & _ & Hx)%throw_to_try; [|apply Hv]. fold (try_at m code_item t) in Hx.
  unfold Init in Hx. rewrite (proj2 (Z.leb_le 0 _)) in Hx by (apply read_u16_nonneg, Hv).
  destruct (vm_passed Hv) as (v & v' & Hp).
  destruct (VerifyStatic_passed m code_item dex_file (vm_bytes Hv) allow v v') as (_ & _ & Hl);
    [apply Hv|done|]. eapply Hl; [|apply (vm_lists Hv t)|exact Hx]; lia.
Qed.

Lemma FindCatchBlock_start catches pc flag r b :
  FindCatchBlock m code_item catches pc flag = Some (r, b) -> r = kDexNoIndex \/ start r.
Proof. intros [?|?%throw_to_start]%FindCatchBlock_throw_to; auto. Qed.

(** ** One step *)

Definition extra_flags_ok (op : Z) : bool :=
  let extra := VerifyFlagsOf op &&&
    (kVerifyArrayData ||| kVerifyBranchTarget ||| kVerifySwitchTargets ||| kVerifyVarArg
     ||| kVerifyVarArgNonZero ||| kVerifyVarArgRange ||| kVerifyVarArgRangeNonZero
     ||| kVerifyError) in
  implb (flag_set (FlagsOf op) kBranch) (extra =? kVerifyBranchTarget) &&
  implb (flag_set (FlagsOf op) kSwitch) (extra =? kVerifySwitchTargets).

Lemma extra_flags inst :
  (IsBranch inst = true -> GetVerifyExtraFlags inst = kVerifyBranchTarget) /\
  (IsSwitch inst = true -> GetVerifyExtraFlags inst = kVerifySwitchTargets).
Proof.
  assert (extra_flags_ok (Opcode inst) = true) as H
    by (apply (opcode_all extra_flags_ok); [vm_compute; reflexivity|apply Opcode_range]).
  unfold extra_flags_ok in H. apply andb_prop in H as [H1 H2].
  unfold IsBranch, IsSwitch, GetVerifyExtraFlags.
  split; intros E; [rewrite E in H1|rewrite E in H2]; by apply Z.eqb_eq.
Qed.

Lemma sweep_le p x : sweep_from m code_item p x -> sweep_from m code_item p size -> x <= size.
Proof.
  induction 1 as [p|p k x Hp Hk _ IH]; intros Hs.
  - inversion Hs; lia.
  - inversion Hs as [|? k' ? ? Hk' Hs']; subst; [lia|]. apply IH.
    rewrite Hk in Hk'. by injection Hk' as <-.
Qed.

Lemma start_verified pc : start pc ->
  exists v1 v2, marked m code_item v1 /\
    VerifyInstruction m code_item dex_file allow (inst_at pc) pc v1 = Some (true, v2).
Proof.
  intros Hs. destruct (vm_passed Hv) as (v & v' & Hp).
  destruct (VerifyStatic_passed m code_item dex_file (vm_bytes Hv) allow v v') as (_ & H & _);
    [apply Hv|done|]. by apply H.
Qed.

Lemma sweep_end : sweep_from m code_item 0 size.
Proof.
  destruct (vm_passed Hv) as (v & v' & Hp).
  destruct (VerifyStatic_passed m code_item dex_file (vm_bytes Hv) allow v v') as (H & _);
    [apply Hv|done|done].
Qed.

Lemma nop_size inst : ~ is_payload inst -> Opcode inst = NOP -> SizeInCodeUnits inst = Some 1.
Proof.
  intros Hn Hop. unfold SizeInCodeUnits. rewrite Hop.
  change (size_in_code_units (descriptor NOP) <? 0) with true. cbv zeta iota.
  unfold SizeInCodeUnitsComplexOpcode, is_payload in *.
  destruct (Z.eqb_spec (Fetch16 inst 0) kPackedSwitchSignature); [tauto|].
  destruct (Z.eqb_spec (Fetch16 inst 0) kSparseSwitchSignature); [tauto|].
  destruct (Z.eqb_spec (Fetch16 inst 0) kArrayDataSignature); [tauto|].
  change (Fetch16 inst 0 &&& 0xFF) with (Opcode inst). by rewrite Hop.
Qed.

Lemma branch_offset pc off :
  start pc -> IsBranch (inst_at pc) = true -> GetTargetOffset (inst_at pc) = Some off ->
  exists c s, GetBranchOffset m code_item pc = Some (off, c, s) /\ start (pc + off).
Proof.
  intros Hs Hb Ht. destruct (start_verified pc Hs) as (v1 & v2 & Hm & Hp).
  destruct (VerifyInstruction_branch _ _ _ _ _ _ _ _ Hp Hm
    (proj1 (extra_flags _) Hb)) as (off' & c & s' & Hg & Hst).
  pose proof (GetBranchOffset_target m code_item pc off' c s' (vm_bytes Hv) Hb Hg) as Ht'.
  rewrite Ht in Ht'. injection Ht' as ->. eauto.
Qed.
Lemma branch_start pc off :
  start pc -> IsBranch (inst_at pc) = true -> GetTargetOffset (inst_at pc) = Some off -> start (pc + off).
Proof. intros. by destruct (branch_offset pc off) as (? & ? & _ & ?). Qed.

Lemma switch_start pc targ :
  start pc -> IsSwitch (inst_at pc) = true -> 0 <= targ < switch_count (inst_at pc) ->
  start (pc + table_int (RelativeAt (inst_at pc) (payload_offset (inst_at pc)))
                (switch_targets_offset (inst_at pc) + targ * 2)).
Proof.
  intros Hs Hw Ht. destruct (start_verified pc Hs) as (v1 & v2 & Hm & Hp).
  destruct (VerifyInstruction_switch _ _ _ _ _ _ _ _ Hp Hm (proj2 Hs) (vm_size Hv) eq_refl
    (proj2 (extra_flags _) Hw)) as [Hall _]. by apply Hall.
Qed.

Lemma next_start pc k :
  start pc -> SizeInCodeUnits (inst_at pc) = Some k -> start (pc + k) \/ pc + k = size.
Proof.
  intros [Hsw Hpc] Hk.
  destruct (SizeInCodeUnits_pos (inst_at pc) (inst_at_units m code_item (vm_bytes Hv) pc))
    as (k' & Ek & Hk1). rewrite Hk in Ek. injection Ek as <-.
  assert (sweep_from m code_item 0 (pc + k)) as Hs' by (by apply sweep_step; [|lia|]).
  pose proof (sweep_le _ _ Hs' sweep_end).
  destruct (Z.eq_dec (pc + k) size); [by right|left]. split; [done|lia].
Qed.

Lemma in_code x : start x \/ x = size -> u32 x = x.
Proof.
  intros H. pose proof (vm_size Hv) as Hsz. unfold in_u in Hsz. apply wrap_u_id. unfold in_u.
  destruct H as [[_ ?]| ->]; lia.
Qed.

Lemma flows_to pc off :
  start pc -> ~ is_payload (inst_at pc) -> flows (inst_at pc) off ->
  u32 (pc + off) = pc + off /\
  (start (pc + off) \/ pc + off = size /\ CanFlowThrough (inst_at pc) = true).
Proof.
  intros Hs Hn Hf.
  assert (start (pc + off) \/ pc + off = size /\ CanFlowThrough (inst_at pc) = true) as H.
  2:{ split; [|done]. apply in_code. tauto. }
  destruct Hf as [[Hc Hk]|[[Hb Ht]|[Hw (targ & Htg & ->)]]].
  - assert (SizeInCodeUnits (inst_at pc) = Some off) as Hk'
      by (destruct Hk as [?|[? ->]]; [done|by apply nop_size]).
    destruct (next_start pc off Hs Hk'); auto.
  - left. by apply branch_start.
  - left. by apply switch_start.
Qed.

Lemma found_displacement pc found :
  in_u 32 found -> u32 (pc + (s32 found - s32 pc)) = found.
Proof. unfold in_u. wrap_unfold. intros. zdiv. Qed.

Context (n : nat) (Hn : Z.of_nat n = registers_size code_item).

Lemma handle_pending_exception_safe pc s :
  machine_ok n s ->
  match handle_pending_exception m code_item one pc s with
  | Done pc' s' => machine_ok n s' /\ start pc'
  | Returned v s' => machine_ok n s'
  | _ => False
  end.
Proof.
  intros Hs. unfold handle_pending_exception, FindNextInstructionFollowingException.
  destruct (FindCatchBlock_some m code_item (catches s (exception s)) pc false (vm_tries Hv))
    as (r & b & E). rewrite E.
  assert (machine_ok n (if b then with_exception s 0 else s)) as Hs'.
  { destruct b; [|done]. destruct Hs as (? & ? & ? & ? & ?). by split_and!. }
  apply FindCatchBlock_start in E. case_if; bools.
  - case_if; [by apply SetDexPC_ok|done].
  - destruct E as [?|Hst]; [done|]. split; [done|]. rewrite found_displacement; [done|].
    pose proof (vm_size Hv) as Hsz. destruct Hst as [_ ?]. unfold in_u in *. lia.
Qed.

Lemma step_safe pc s :
  start pc -> ~ is_payload (inst_at pc) -> machine_ok n s ->
  match execute_instruction m code_item one pc s with
  | Done pc' s' => machine_ok n s' /\
      (start pc' \/ pc' = size /\ CanFlowThrough (inst_at pc) = true)
  | Returned v s' => machine_ok n s'
  | BadObject | NotModelled => True
  | Raised _ | BadRegister | Fatal => False
  end.
Proof.
  intros Hst Hnp Hs. unfold execute_instruction.
  change (instruction_at m code_item pc) with (inst_at pc).
  pose proof (handler_ok one n (inst_at pc) (inst_at_units m code_item (vm_bytes Hv) pc)
    (with_frame s (SetDexPC (frame s) pc)) (SetDexPC_ok n s pc Hs)) as H.
  destruct (start_verified pc Hst) as (v1 & v2 & Hm & Hp).
  destruct (handler_of _ _ _ _) as [off s'|s'|v s'| | | |]; try done.
  - destruct H as [Hs' Hf]. split; [done|]. by destruct (flows_to pc off Hst Hnp Hf) as [-> ?].
  - destruct H as [Hs' _]. pose proof (handle_pending_exception_safe pc s' Hs') as H.
    destruct (handle_pending_exception _ _ _ _ _); try done. split; [apply H|left; apply H].
  - apply H.
  - apply H. rewrite Hn. by eapply VerifyInstruction_registers.
  - by apply (VerifyInstruction_known _ _ _ _ _ _ _ _ Hp).
Qed.
End Verified.

(** One step of verified code is safe: at the start of an instruction of a
    method that passed the static verifier, in a frame of its registers, the
    interpreter never leaves the frame and never aborts; it continues at the
    start of an instruction of the same method (through fall-through, branch,
    switch or catch handler), or runs off its end after an instruction that can
    fall through, or leaves the method. *)
Theorem verified_step_safe `{RT : Runtime} m code_item dex_file allow one n pc s :
  verified_method m code_item dex_file allow -> Z.of_nat n = registers_size code_item ->
  instruction_start m code_item pc -> ~ is_payload (inst_at m code_item pc) -> machine_ok n s ->
  match execute_instruction m code_item one pc s with
  | Done pc' s' => machine_ok n s' /\
      (instruction_start m code_item pc' \/
       pc' = insns_size code_item /\ CanFlowThrough (inst_at m code_item pc) = true)
  | Returned v s' => machine_ok n s'
  | BadObject | NotModelled => True
  | Raised _ | BadRegister | Fatal => False
  end.
Proof. intros. by eapply step_safe. Qed.

(** A loop that adds 3, 2 and 1 and returns 6:
    [const/4 v0, #3; const/4 v1, #0; add-int/2addr v1, v0; add-int/lit8 v0, v0, #-1;
     if-nez v0, -3; return v1]. *)
Definition sum_code : mem := store_list (fun _ => 0) 0
  [0x12; 0x30; 0x12; 0x01; 0xb0; 0x01; 0xd8; 0x00; 0x00; 0xff; 0x39; 0x00; 0xfd; 0xff; 0x0f; 0x01].
Definition sum_item : CodeItem :=
  {| registers_size_ := 2; ins_size_ := 0; outs_size_ := 0; tries_size_ := 0;
     debug_info_off_ := 0; insns_size_in_code_units_ := 8; insns_ := 0 |}.
Definition empty_header : DexHeader :=
  {| string_ids_size_ := 0; type_ids_size_ := 0; proto_ids_size_ := 0; field_ids_size_ := 0;
     method_ids_size_ := 0; StringByTypeIdx := fun _ => EmptyString |}.

Lemma sum_code_bytes : bytes_ok sum_code.
Proof. apply bytes_ok_store_list; [intros a|repeat constructor]; unfold in_u; pows; lia. Qed.

Lemma sum_verified : verified_method sum_code sum_item empty_header true.
Proof.
  split.
  - apply sum_code_bytes.
  - unfold in_u. vm_compute. done.
  - done.
  - eexists initial_state, _. vm_compute. reflexivity.
  - simpl. lia.
Qed.

Lemma sum_start pc : pc = 0 \/ pc = 1 \/ pc = 2 \/ pc = 3 \/ pc = 5 \/ pc = 7 ->
  instruction_start sum_code sum_item pc.
Proof.
  intros H. split; [|vm_compute; intuition (subst; congruence)].
  destruct H as [->|[->|[->|[->|[->| ->]]]]];
    repeat first [ apply sweep_here
                 | eapply sweep_next; [vm_compute; reflexivity|vm_compute; reflexivity|] ].
Qed.

Lemma verified_step_safe_witness :
  match execute_instruction (RT := sample_runtime) sum_code sum_item false 5 (sample_machine 2) with
  | Done pc' s' => machine_ok 2 s' /\ instruction_start sum_code sum_item pc'
  | _ => False
  end.
Proof.
  pose proof (verified_step_safe (RT := sample_runtime) sum_code sum_item empty_header true false 2 5
    (sample_machine 2) sum_verified eq_refl (sum_start 5 ltac:(tauto))
    ltac:(unfold is_payload; vm_compute; intuition congruence) (sample_machine_ok 2)) as H.
  destruct (execute_instruction _ _ _ _ _) as [pc' s'| | | | | |] eqn:E in H |- *;
    try (vm_compute in E; discriminate).
  destruct H as [H1 [H2|[H2 _]]]; [by split|]. exfalso. vm_compute in E. injection E as <- _.
  discriminate H2.
Defined.

(** ** Whole runs *)

(** What the data flow pass of the verifier adds: a set of dex pcs that holds
    only proper instructions and is closed under every way to go on; the pass
    assumes that [monitor-exit] does not throw. *)
Class FlowContract (m : mem) (code_item : CodeItem) (code : Z -> Prop) : Prop := {
  fc_start pc : code pc -> instruction_start m code_item pc /\ ~ is_payload (inst_at m code_item pc);
  fc_next pc off : code pc -> flows (inst_at m code_item pc) off -> code (pc + off);
  fc_catch pc catches flag r b :
    code pc -> IsThrow (inst_at m code_item pc) = true ->
    Opcode (inst_at m code_item pc) <> MONITOR_EXIT ->
    FindCatchBlock m code_item catches pc flag = Some (r, b) -> r = kDexNoIndex \/ code r
}.

Section Run.
Context `{RT : Runtime} (m : mem) (code_item : CodeItem) (dex_file : DexHeader).
Context (allow one : bool) (n : nat) (code : Z -> Prop) `{FC : !FlowContract m code_item code}.
Hypothesis Hv : verified_method m code_item dex_file allow.
Hypothesis Hn : Z.of_nat n = registers_size code_item.

Lemma step_stays pc s :
  code pc -> machine_ok n s ->
  match execute_instruction m code_item one pc s with
  | Done pc' s' => machine_ok n s' /\ code pc'
  | Returned v s' => machine_ok n s'
  | BadObject | NotModelled => True
  | Raised _ | BadRegister | Fatal => False
  end.
Proof.
  intros Hc Hs. destruct (fc_start pc Hc) as [Hst Hnp].
  pose proof (step_safe m code_item dex_file allow one Hv n Hn pc s Hst Hnp Hs) as H.
  destruct (execute_instruction m code_item one pc s) as [pc' s'| | | | | |] eqn:E; try done.
  split; [apply H|]. unfold execute_instruction in E.
  change (instruction_at m code_item pc) with (inst_at m code_item pc) in E.
  pose proof (handler_ok one n (inst_at m code_item pc)
    (inst_at_units m code_item (vm_bytes _ _ _ _ Hv) pc)
    (with_frame s (SetDexPC (frame s) pc)) (SetDexPC_ok n s pc Hs)) as Hh.
  destruct (handler_of _ _ _ _) as [off s1|s1|v s1| | | |] eqn:Eh; try done.
  - injection E as <- <-. destruct Hh as [_ Hf].
    destruct (flows_to m code_item dex_file allow Hv pc off Hst Hnp Hf) as [-> _].
    by apply fc_next.
  - destruct Hh as (_ & _ & Ht). unfold handle_pending_exception in E.
    unfold FindNextInstructionFollowingException in E.
    destruct (FindCatchBlock _ _ _ _ _) as [[r b]|] eqn:Ec; [|done].
    destruct (Z.eqb_spec r kDexNoIndex); [done|]. injection E as <- _.
    pose proof (FindCatchBlock_start m code_item dex_file allow Hv _ _ _ _ _ Ec) as [?|Hr]; [done|].
    assert (Opcode (inst_at m code_item pc) <> MONITOR_EXIT) as Hx
      by (intros Ex; rewrite Ex in Eh; vm_compute in Eh; discriminate Eh).
    destruct (fc_catch pc _ _ _ _ Hc Ht Hx Ec) as [?|?]; [done|].
    rewrite found_displacement; [done|]. pose proof (vm_size _ _ _ _ Hv).
    destruct Hr as [_ ?]. unfold in_u in *. lia.
Qed.

Lemma loop_safe fuel pc s :
  code pc -> machine_ok n s ->
  match execute_loop m code_item one fuel pc s with
  | None | Some BadObject | Some NotModelled => True
  | Some (Returned v s') => machine_ok n s'
  | Some _ => False
  end.
Proof.
  revert pc s. induction fuel as [|fuel IH]; intros pc s Hc Hs; [done|].
  cbn [execute_loop]. pose proof (step_stays pc s Hc Hs) as H.
  destruct (execute_instruction m code_item one pc s) as [pc' s'| | | | | |]; try done.
  destruct H as [Hs' Hc']. destruct one; [by apply SetDexPC_ok|by apply IH].
Qed.
End Run.
