(* ===== verification/CodeFlowContract.v ===== *)
(** * Where the data flow pass goes

    The pass marks exactly the instructions its successors may go on at.  When it
    accepts a method without failures that throw at run time, the instructions it
    visited are closed under everything the interpreter can do, which is what
    [FlowContract] asks for. *)
From Stdlib Require Import String Ascii.
From stdpp Require Import gmap.
From S2P Require Import Prelude Leb128 DexInstructionList DexInstruction ExceptionTable StaticVerifier StaticVerifierFacts MirrorClass RegType SampleLinker RegisterLine CodeFlow CodeFlowResults FlowFacts ShadowFrame Interpreter InterpreterFacts InterpreterSoundness.

Lemma F_bind_inv {A B} (c : F A) (k : A -> F B) s b s' :
  (c ≫= k) s = FDone b s' -> exists a s1, c s = FDone a s1 /\ k a s1 = FDone b s'.
Proof. unfold mbind, F_bind. destruct (c s); [eauto|done..]. Qed.

Ltac fbind H a s E := apply F_bind_inv in H as (a & s & E & H).

(** ** Flags *)

Lemma TestFlag_ClearChanged fl i :
  0 <= i < 8 -> TestFlag i (ClearChanged fl) = TestFlag i fl && negb (i =? kChanged).
Proof.
  intros Hi. rewrite !TestFlag_testbit by lia. unfold ClearChanged, wrap_u.
  rewrite Z.mod_pow2_bits_low, Z.land_spec, Z.lnot_spec, Z.shiftl_1_l, Z.pow2_bits_eqb by
    (unfold kChanged; lia). by rewrite Z.eqb_sym.
Qed.

Ltac flags :=
  unfold IsVisitedOrChanged, IsVisited, IsChanged, SetVisited, SetChanged in *;
  rewrite ?TestFlag_ClearChanged, ?TestFlag_SetFlag in * by (unfold kVisited, kChanged in *; lia).

Lemma SetChanged_idem f : SetChanged (SetChanged f) = SetChanged f.
Proof.
  unfold SetChanged, SetFlag, wrap_u. apply Z.bits_inj'. intros i Hi.
  destruct (Z.ltb_spec i 8).
  - rewrite !Z.mod_pow2_bits_low, !Z.lor_spec, Z.mod_pow2_bits_low, Z.lor_spec by lia.
    by destruct (Z.testbit f i), (Z.testbit (1 << kChanged) i).
  - by rewrite !Z.mod_pow2_bits_high by lia.
Qed.

(** Instructions in [P] may have been marked as changed. *)
Definition marks (P : Z -> Prop) (l l' : list Z) : Prop :=
  length l' = length l /\
  forall i f, l !! i = Some f ->
    l' !! i = Some f \/ P (Z.of_nat i) /\ l' !! i = Some (SetChanged f).

#[export] Instance marks_preorder P : PreOrder (marks P).
Proof.
  split; [split; auto|]. intros l1 l2 l3 [Hl H] [Hl' H']. split; [congruence|].
  intros i f [Hf|[Hp Hf]]%H; apply H' in Hf as [Hf|[Hp' Hf]]; auto.
  rewrite SetChanged_idem in Hf. auto.
Qed.

(** The flags of the static pass stay, and instructions stay visited or
    changed. *)
Definition flag_turn (f f' : Z) : Prop :=
  (forall bit, 1 < bit < 8 -> TestFlag bit f' = TestFlag bit f) /\
  (IsVisitedOrChanged f = true -> IsVisitedOrChanged f' = true).
Definition turns (l l' : list Z) : Prop :=
  length l' = length l /\
  forall i f, l !! i = Some f -> exists f', l' !! i = Some f' /\ flag_turn f f'.

#[export] Instance turns_preorder : PreOrder turns.
Proof.
  split; [intros l; split; [done|]; intros i f Hf; by exists f|].
  intros l1 l2 l3 [Hl H] [Hl' H']. split; [congruence|].
  intros i f1 (f2 & Hf & Ha & Hb)%H. apply H' in Hf as (f3 & Hf & Ha' & Hb').
  exists f3. split; [done|]. split; [|auto]. intros bit Hbit. by rewrite Ha', Ha.
Qed.

Lemma SetChanged_turn f : flag_turn f (SetChanged f).
Proof.
  split.
  - intros bit Hb. flags. rewrite (proj2 (Z.eqb_neq _ _)) by (unfold kChanged; lia). apply orb_false_r.
  - flags. by rewrite !orb_true_r.
Qed.
Lemma marks_turns P l l' : marks P l l' -> turns l l'.
Proof.
  intros [Hl H]. split; [done|]. intros i f [Hf|[_ Hf]]%H; [by exists f|].
  exists (SetChanged f). split; [done|apply SetChanged_turn].
Qed.
Lemma eq_marks P l l' : l = l' -> marks P l l'.
Proof. by intros ->. Qed.
Lemma marks_weaken (P Q : Z -> Prop) l l' : (forall i, P i -> Q i) -> marks P l l' -> marks Q l l'.
Proof. intros HPQ [Hl H]. split; [done|]. intros i f [Hf|[Hp Hf]]%H; auto. Qed.

Notation fmarks P := (evolve (marks P)).
Lemma fk_mono {A} P (c : F A) : fmono c -> fmarks P c.
Proof. apply e_weaken, eq_marks. Qed.
Lemma fk_weaken {A} (P Q : Z -> Prop) (c : F A) : (forall i, P i -> Q i) -> fmarks P c -> fmarks Q c.
Proof. intros H. apply e_weaken. intros l l'. by apply marks_weaken. Qed.
Lemma fk_bind {A B} P (c : F A) (k : A -> F B) : fmarks P c -> (forall a, fmarks P (k a)) -> fmarks P (c ≫= k).
Proof. apply e_bind, _. Qed.
Lemma fk_lift {A B} P (o : option A) (k : A -> F B) :
  (forall a, o = Some a -> fmarks P (k a)) -> fmarks P (liftF o ≫= k).
Proof. intros H s b s'. unfold mbind, F_bind, liftF. destruct o; [by apply H|done]. Qed.
Lemma fk_when P b (c : F unit) : fmarks P c -> fmarks P (when b c).
Proof. intros Hc. unfold when. destruct b; [done|apply fk_mono; fmono]. Qed.
Lemma fk_SetChanged (P : Z -> Prop) i : P i -> fmarks P (change_flags i SetChanged).
Proof.
  intros Hi s a s'. unfold change_flags, static, update_flags.
  destruct (_ && _) eqn:E; [|done]. bools. intros [= _ <-]. split_and!; try done. cbn.
  split; [apply length_alter|]. intros j f Hf. destruct (decide (Z.to_nat i = j)) as [<-|Hne].
  - right. rewrite list_lookup_alter_eq, Hf, Z2Nat.id by lia. done.
  - left. by rewrite list_lookup_alter_ne.
Qed.

Lemma et_marks {A} P (c : F A) : fmarks P c -> evolve turns c.
Proof. apply e_weaken, marks_turns. Qed.
Lemma et_mono {A} (c : F A) : fmono c -> evolve turns c.
Proof. intros H. by eapply (et_marks (fun _ => False)), fk_mono. Qed.

Create HintDb marks.
Ltac fmarks :=
  repeat first
  [ assumption
  | solve [apply fk_mono; fmono]
  | apply fk_SetChanged; solve [eauto]
  | solve [eauto 2 with marks]
  | progress intros
  | match goal with
    | |- evolve _ (mbind _ (liftF _)) => apply fk_lift
    | |- evolve _ (mbind _ _) => apply fk_bind
    | |- evolve _ (when _ _) => apply fk_when
    | |- evolve _ (if ?b then _ else _) => destruct b eqn:?
    | |- evolve _ (match ?x with _ => _ end) => destruct x eqn:?
    end ].

(** ** Reached instructions *)

Definition flags_of (s : FlowState) : list Z := insn_flags_ (static_state s).
Definition reached (s : FlowState) (pc : Z) : Prop :=
  0 <= pc /\ exists f, flags_of s !! Z.to_nat pc = Some f /\ IsVisitedOrChanged f = true.
(** Visited, and not changed since. *)
Definition settled (s : FlowState) (pc : Z) : Prop :=
  0 <= pc /\ exists f, flags_of s !! Z.to_nat pc = Some f /\ IsVisited f = true /\ IsChanged f = false.

Lemma reached_turns s s' pc : evolves turns s s' -> reached s pc -> reached s' pc.
Proof.
  intros (_ & _ & _ & [_ H] & _) (Hpc & f & (f' & Hf' & _ & Hk)%H & Hv). split; [done|]. eauto.
Qed.
Lemma reached_marks P s s' pc : evolves (marks P) s s' -> reached s pc -> reached s' pc.
Proof. intros H. eapply reached_turns, evolves_weaken, H. apply marks_turns. Qed.
Lemma reached_eq s s' pc : evolves eq s s' -> reached s pc -> reached s' pc.
Proof. intros H. eapply (reached_marks (fun _ => False)), evolves_weaken, H. apply eq_marks. Qed.

Lemma reached_new P s s' pc : evolves (marks P) s s' -> reached s' pc -> reached s pc \/ P pc.
Proof.
  intros (_ & _ & _ & [Hl H] & _) (Hpc & f' & Hf' & Hv).
  destruct (lookup_lt_is_Some_2 (flags_of s) (Z.to_nat pc)) as [f Hf].
  { unfold flags_of. rewrite <- Hl. by eapply lookup_lt_Some. }
  destruct (H _ _ Hf) as [Hf''|[Hp _]]; [left|right; by rewrite Z2Nat.id in Hp].
  split; [done|]. exists f. unfold flags_of in Hf'. rewrite Hf'' in Hf'. injection Hf' as ->. done.
Qed.
Lemma settled_marks P s s' pc : evolves (marks P) s s' -> settled s' pc -> settled s pc.
Proof.
  intros (_ & _ & _ & [Hl H] & _) (Hpc & f' & Hf' & Hv & Hc).
  destruct (lookup_lt_is_Some_2 (flags_of s) (Z.to_nat pc)) as [f Hf].
  { unfold flags_of. rewrite <- Hl. by eapply lookup_lt_Some. }
  unfold flags_of in Hf'. destruct (H _ _ Hf) as [Hf''|[_ Hf'']]; rewrite Hf'' in Hf'; injection Hf' as <-.
  - split; [done|]. eauto.
  - exfalso. revert Hc. flags. by rewrite orb_true_r.
Qed.

Lemma flags_at_inv i s f s' :
  flags_at i s = FDone f s' -> s' = s /\ 0 <= i /\ flags_of s !! Z.to_nat i = Some f.
Proof.
  unfold flags_at, static. destruct (get_flags i (static_state s)) as [[f' v]|] eqn:E; [|done].
  apply get_flags_inv in E as (-> & ? & ?). intros [= <- <-]. split_and!; try done. by destruct s.
Qed.
Lemma SetChanged_reached i s u s' : change_flags i SetChanged s = FDone u s' -> reached s' i.
Proof.
  unfold change_flags, static. destruct (update_flags _ _ _) as [[u' v]|] eqn:E; [|done].
  intros [= _ <-]. apply update_flags_flag_at in E as (Hi & f & Hf & Ht); [|by unfold kChanged].
  split; [done|]. exists f. split; [done|]. unfold IsVisitedOrChanged, IsChanged. rewrite Ht. apply orb_true_r.
Qed.

(** ** Successors *)

Section Successors.
Context (LK : ClassLinker) (m : mem) (code_item : CodeItem) (dex_file : DexHeader).
Context (method : MethodToVerify).
Notation UpdateRegisters := (UpdateRegisters LK m code_item method).
Notation update_work := (update_work LK m code_item method).

Definition branch_to (idx x : Z) : Prop :=
  exists off c e, GetBranchOffset m code_item idx = Some (off, c, e) /\ x = u32 (idx + off).
Definition switch_to (inst : Instruction) (idx x : Z) : Prop :=
  exists targ, 0 <= targ < switch_count inst /\
    x = u32 (idx + table_int (RelativeAt inst (payload_offset inst)) (switch_targets_offset inst + targ * 2)).
Lemma fk_UpdateRegisters (P : Z -> Prop) i l b : P i -> fmarks P (UpdateRegisters i l b).
Proof. intros Hi. unfold CodeFlow.UpdateRegisters. fmarks. Qed.
Hint Resolve fk_UpdateRegisters : marks.
Lemma fk_update_work (P : Z -> Prop) i : P i -> fmarks P (update_work i).
Proof. intros Hi. unfold CodeFlow.update_work. fmarks. Qed.
Hint Resolve fk_update_work : marks.

Lemma UpdateRegisters_reached i l b s l' s' :
  UpdateRegisters i l b s = FDone (true, l') s' -> reached s' i.
Proof.
  intros H. unfold CodeFlow.UpdateRegisters in H. fbind H line s1 E1. fbind H t s2 E2. fbind H f s3 E3.
  apply flags_at_inv in E3 as (-> & Hi & Hf). destruct (IsVisitedOrChanged f) eqn:Ev; cbn [negb] in H.
  - assert (reached s2 i) as Hr by (by split; eauto). eapply (reached_marks (eq i)); [|exact Hr].
    revert H. generalize s2, (true, l'), s'. change (fmarks (eq i) (
      '(changed, target_line) ← MergeRegisters LK m code_item l t;
      put_line i target_line;; failed ← hard_failure;
      if failed : bool then mret (false, l)
      else when changed (change_flags i SetChanged);;
           mret (true, if b && changed then CopyFromLine l target_line else l))). fmarks.
  - fbind H ok s4 E4. fbind H u s5 E5. injection H as -> _ <-. by eapply SetChanged_reached.
Qed.
Lemma update_work_reached i s s' : update_work i s = FDone true s' -> reached s' i.
Proof.
  intros H. unfold CodeFlow.update_work in H. fbind H l s1 E1. fbind H r s2 E2. destruct r as [ok l'].
  injection H as -> <-. by eapply UpdateRegisters_reached.
Qed.

Lemma fk_do_branch locals idx : fmarks (branch_to idx) (do_branch LK m code_item method locals idx).
Proof.
  unfold do_branch. destruct (GetBranchOffset m code_item idx) as [[[off c] e]|] eqn:Eb; [|fmarks].
  assert (branch_to idx (u32 (idx + off))) by (unfold branch_to; eauto 6). cbv zeta. fmarks.
Qed.
Lemma do_branch_reached locals idx s t s' x :
  do_branch LK m code_item method locals idx s = FDone (Some t) s' -> branch_to idx x -> reached s' x.
Proof.
  intros H (off & c & e & Eb & ->). unfold do_branch in H. rewrite Eb in H. cbv zeta in H.
  fbind H ok s1 E1. destruct ok; [|done]. cbn [negb] in H. fbind H ok s2 E2. injection H as H <-.
  destruct ok; [|done]. destruct (branch_line locals) as [bl|].
  - fbind E2 r s3 E3. destruct r as [ok l']. injection E2 as -> <-. by eapply UpdateRegisters_reached.
  - by apply update_work_reached in E2.
Qed.

Lemma both_inv (c1 c2 : F bool) s s' :
  both c1 c2 s = FDone true s' -> exists s1, c1 s = FDone true s1 /\ c2 s1 = FDone true s'.
Proof. unfold both. intros H. fbind H ok s1 E. destruct ok; [eauto|done]. Qed.
Lemma fk_both P c1 c2 : fmarks P c1 -> fmarks P c2 -> fmarks P (both c1 c2).
Proof. intros. unfold both. fmarks. Qed.

Lemma fk_do_switch inst idx : fmarks (switch_to inst idx) (do_switch LK m code_item method inst idx).
Proof.
  unfold do_switch. cbv zeta. set (body := do_switch_target _ _ _ _ _ _ _).
  assert (forall targ, 0 <= targ < switch_count inst -> fmarks (switch_to inst idx) (body targ)) as Hb.
  { intros targ Ht. unfold body, do_switch_target. cbv zeta. apply fk_both; [fmarks|].
    apply fk_update_work. by exists targ. }
  assert (forall n t, 0 <= t -> t + Z.of_nat n <= switch_count inst ->
            fmarks (switch_to inst idx) (for_targets n t body)) as Hf.
  { induction n as [|n IH]; intros t Ht Hn; cbn [for_targets]; [fmarks|].
    apply fk_both; [apply Hb; lia|apply IH; lia]. }
  destruct (decide (0 <= switch_count inst)); [apply Hf; unfold switch_count in *; lia|].
  unfold switch_count in n. replace (Z.to_nat _) with O by lia. cbn [for_targets]. fmarks.
Qed.
Lemma fk_for_targets P n t body : (forall t, fmarks P (body t)) -> fmarks P (for_targets n t body).
Proof. intros Hb. revert t. induction n; intros t; cbn [for_targets]; [fmarks|by apply fk_both]. Qed.
Lemma for_targets_inv P n t body s s' :
  for_targets n t body s = FDone true s' -> (forall t, fmarks P (body t)) ->
  forall i, t <= i < t + Z.of_nat n ->
    exists s1 s2, body i s1 = FDone true s2 /\ evolves (marks P) s2 s'.
Proof.
  intros H Hb. revert t s H. induction n as [|n IH]; intros t s H i Hi; [lia|].
  cbn [for_targets] in H. apply both_inv in H as (s1 & E1 & H).
  destruct (decide (i = t)) as [->|]; [|apply (IH _ _ H); lia].
  exists s, s1. split; [done|]. by eapply fk_for_targets.
Qed.
Lemma do_switch_reached inst idx s s' x :
  do_switch LK m code_item method inst idx s = FDone true s' -> switch_to inst idx x -> reached s' x.
Proof.
  intros H (targ & Ht & ->). unfold do_switch in H. cbv zeta in H.
  eapply (for_targets_inv (fun _ => True)) in H as (s1 & s2 & E & He).
  - eapply reached_marks; [exact He|]. unfold do_switch_target in E. cbv zeta in E.
    apply both_inv in E as (s3 & _ & E). by apply update_work_reached in E.
  - intros t. unfold do_switch_target. cbv zeta. apply fk_both; [fmarks|].
    by apply fk_update_work.
  - unfold switch_count in Ht. lia.
Qed.

Lemma fk_do_handlers fuel it b : fmarks (handler_to m it) (do_handlers LK m code_item method fuel it b).
Proof.
  revert it b. induction fuel as [|fuel IH]; intros it b; cbn [do_handlers]; [fmarks|].
  destruct (HasNext it) eqn:Eh; [|fmarks]. cbv zeta.
  assert (handler_to m it (GetHandlerAddress it)) by (by apply handler_here). fmarks.
  eapply fk_weaken; [|apply IH]. intros i. by apply handler_next.
Qed.
Lemma do_handlers_reached fuel it b s r s' x :
  do_handlers LK m code_item method fuel it b s = FDone (Some r) s' -> handler_to m it x -> reached s' x.
Proof.
  revert it b s. induction fuel as [|fuel IH]; intros it b s H Hx; [done|].
  assert (HasNext it = true) as Eh by (by destruct Hx). cbn [do_handlers] in H. rewrite Eh in H.
  cbv zeta in H. fbind H saved s1 E1. fbind H u s2 E2. destruct u as [ok l']. destruct ok; [|done].
  inversion Hx as [|? ? _ Hn]; subst; [|by eapply IH].
  eapply reached_marks; [by eapply fk_do_handlers|by eapply UpdateRegisters_reached].
Qed.

Lemma fk_do_throw inst idx : fmarks (throw_to m code_item idx) (do_throw LK m code_item method inst idx).
Proof.
  unfold do_throw. fmarks. eapply fk_weaken; [|apply fk_do_handlers]. intros i Hi. by eexists.
Qed.
Lemma do_throw_reached inst idx s s' x :
  do_throw LK m code_item method inst idx s = FDone true s' -> throw_to m code_item idx x -> reached s' x.
Proof.
  intros H (it & Ei & Hx). unfold do_throw in H. rewrite Ei in H. fbind H it' s1 E1. injection E1 as <- <-.
  fbind H r s2 E2. destruct r as [r|]; [|done].
  eapply (reached_marks (fun _ => True)); [|by eapply do_handlers_reached].
  revert H. match goal with |- ?c s2 = _ -> _ => assert (fmarks (fun _ => True) c) as Hc by fmarks end.
  apply Hc.
Qed.

Lemma fk_do_continue (P : Z -> Prop) locals inst next :
  (next < insns_size code_item -> P next) -> fmarks P (do_continue LK m code_item method locals inst next).
Proof.
  intros H. unfold do_continue. destruct (Z.leb_spec (insns_size code_item) next) as [|Hlt]; [fmarks|].
  specialize (H Hlt). fmarks. unfold on_work. fmarks.
Qed.
Lemma do_continue_reached locals inst next s s' :
  do_continue LK m code_item method locals inst next s = FDone true s' ->
  next < insns_size code_item /\ reached s' next.
Proof.
  intros H. unfold do_continue in H. destruct (Z.leb_spec (insns_size code_item) next) as [|Hlt].
  { fbind H u s1 E1. done. }
  split; [done|]. fbind H ok s1 E1. destruct ok; [|done]. cbn [negb] in H.
  fbind H u s2 E2. fbind H f s3 E3. fbind H u' s4 E4. fbind H nl s5 E5. destruct nl as [nl|].
  - unfold on_work in H. fbind H w s6 E6. fbind H r s7 E7. destruct r as [ok l']. fbind H u'' t8 E8.
    injection E8 as _ <-. injection H as -> <-. apply UpdateRegisters_reached in E7. exact E7.
  - fbind H u'' s6 E6. injection H as <-. by eapply SetChanged_reached.
Qed.

(** *** One instruction *)

Definition continue_to (inst : Instruction) (idx x : Z) : Prop :=
  exists k, SizeInCodeUnits inst = Some k /\ x = u32 (idx + k).

(** Where an instruction with the flags [fl] may go on. *)
Definition successor (inst : Instruction) (fl idx x : Z) : Prop :=
  flag_set fl kBranch = true /\ branch_to idx x \/
  flag_set fl kSwitch = true /\ switch_to inst idx x \/
  flag_set fl kThrow = true /\ throw_to m code_item idx x \/
  flag_set fl kContinue = true /\ continue_to inst idx x /\ x < insns_size code_item.

Notation flow_on := (flow_on LK m code_item method).

Lemma fm_end_instruction : fmono end_instruction.
Proof.
  intros s a s'. unfold end_instruction, set_runtime_throw. case_match; intros [= _ <-]; [|done].
  by split_and!.
Qed.
Lemma fm_save_work : fmono save_work.
Proof. by apply fm_write. Qed.
Lemma fm_rejected : fmono rejected.
Proof. intros s a s'. unfold rejected. repeat case_match; try done; by intros [= _ <-]. Qed.
Hint Resolve fm_end_instruction fm_save_work fm_rejected : flow.

Lemma fk_flow_on inst idx fl locals g : fmarks (successor inst fl idx) (flow_on inst idx fl locals g).
Proof.
  unfold CodeFlow.flow_on. cbv zeta. fmarks.
  - eapply fk_weaken; [|apply fk_do_branch]. intros i Hi. left. by split.
  - apply fk_both; [|apply fk_both]; fmarks.
    + eapply fk_weaken; [|apply fk_do_switch]. intros i Hi. right. left. by split.
    + eapply fk_weaken; [|apply fk_do_throw]. bools. intros i Hi. right. right. left. by split.
    + apply fk_do_continue. intros Hlt. right. right. right. split_and!; try done. by eexists.
Qed.

(** Everything after the [switch] reaches all successors. *)
Lemma flow_on_reached inst idx fl locals g s g' s' x :
  flow_on inst idx fl locals g s = FDone (Some g') s' ->
  flag_set fl kBranch = true /\ branch_to idx x \/
  flag_set fl kSwitch = true /\ switch_to inst idx x \/
  flag_set fl kThrow = true /\ flag_at (static_state s) kInTry idx /\ throw_to m code_item idx x \/
  flag_set fl kContinue = true /\ continue_to inst idx x ->
  reached s' x /\ (flag_set fl kContinue = true -> continue_to inst idx x -> x < insns_size code_item).
Proof.
  intros H Hx. unfold CodeFlow.flow_on in H. cbv zeta in H. fbind H u s1 E1. fbind H br s2 E2.
  destruct br as [bg|]; [|done]. fbind H k s3 E3. unfold liftF in E3.
  destruct (SizeInCodeUnits inst) as [k'|] eqn:Ek; [|done]. injection E3 as -> <-.
  fbind H f t3 E3. apply flags_at_inv in E3 as (-> & Hi & Hf). fbind H ok s4 E4. destruct ok; [|done]. cbn [negb] in H.
  fbind H u' s5 E5. fbind H u'' s6 E6. injection H as _ <-.
  apply both_inv in E4 as (t1 & Esw & E4). apply both_inv in E4 as (t2 & Eth & Eco).
  assert (evolves turns s s2) as T0.
  { etrans; [eapply et_mono, E1; fmono|]. destruct (flag_set fl kBranch); [eapply et_marks, E2; apply fk_do_branch|].
    eapply et_mono, E2. fmono. }
  assert (evolves turns s2 t1) as T1.
  { destruct (flag_set fl kSwitch); [eapply et_marks, Esw; apply fk_do_switch|eapply et_mono, Esw; fmono]. }
  assert (evolves turns t1 t2) as T2.
  { destruct (_ && _) in Eth; [eapply et_marks, Eth; apply fk_do_throw|eapply et_mono, Eth; fmono]. }
  assert (evolves turns t2 s4) as T3.
  { destruct (flag_set fl kContinue); [eapply (et_marks (fun _ => True)), Eco; by apply fk_do_continue|eapply et_mono, Eco; fmono]. }
  assert (evolves turns s4 s6) as T4 by (etrans; [eapply et_mono, E5; fmono|eapply et_mono, E6; fmono]).
  assert (evolves turns t2 s6) as T34 by (by etrans). assert (evolves turns t1 s6) as T24 by (by etrans).
  split.
  - destruct Hx as [[Hfl Hx]|[[Hfl Hx]|[(Hfl & (_ & f0 & Hf0 & Ht) & Hx)|[Hfl (k2 & Ek2 & ->)]]]].
    + rewrite Hfl in E2. eapply reached_turns; [etrans; [exact T1|exact T24]|].
      by eapply do_branch_reached.
    + rewrite Hfl in Esw. eapply reached_turns; [exact T24|].
      by eapply do_switch_reached.
    + assert (IsInTry f = true) as Hin.
      { destruct T0 as (_ & _ & _ & [_ HT] & _). destruct (HT _ _ Hf0) as (f1 & Hf1 & Hb & _).
        unfold flags_of in Hf. rewrite Hf1 in Hf. injection Hf as ->.
        unfold IsInTry. rewrite Hb by (unfold kInTry; lia). done. }
      rewrite Hfl, Hin in Eth. cbn [andb] in Eth. eapply reached_turns; [exact T34|].
      by eapply do_throw_reached.
    + rewrite Hfl in Eco. rewrite Ek in Ek2. injection Ek2 as <-. eapply reached_turns; [exact T4|].
      by eapply do_continue_reached.
  - intros Hfl (k2 & Ek2 & ->). rewrite Ek in Ek2. injection Ek2 as <-. rewrite Hfl in Eco.
    by apply do_continue_reached in Eco as [? _].
Qed.

(** *** The [switch] *)

Definition gives {A} (c : F A) (Q : A -> Prop) : Prop := forall s a s', c s = FDone a s' -> Q a.
Lemma g_ret {A} (a : A) (Q : A -> Prop) : Q a -> gives (mret a) Q.
Proof. by intros H s b s' [= <- _]. Qed.
Lemma g_bind {A B} (c : F A) (k : A -> F B) Q : (forall a, gives (k a) Q) -> gives (c ≫= k) Q.
Proof. intros Hk s b s' H. fbind H a s1 E. by eapply Hk. Qed.
Ltac gives :=
  repeat match goal with
  | |- gives (mret _) _ => apply g_ret
  | |- gives (_ ≫= _) _ => apply g_bind; intros ?
  | |- gives (if ?b then _ else _) _ => destruct b
  end; try done.

(** Only [monitor-exit] is taken not to throw. *)
Lemma flow_cases_may_throw :
  Forall (fun e : Z * Case => e.1 = MONITOR_EXIT \/ forall inst, gives (e.2 inst) (fun l => may_throw l = true))
    (flow_cases LK m code_item dex_file method).
Proof.
  assert (forall ops body, Forall (fun e : Z * Case => e.1 = MONITOR_EXIT \/
    forall inst, gives (e.2 inst) (fun l => may_throw l = true)) (cases ops body)) as Hc.
  { intros ops body. apply Forall_map, Forall_true. intros op. right. intros inst. cbn. gives. }
  unfold flow_cases, flow_nop_moves, flow_move_results, flow_returns, flow_consts, flow_monitors,
    flow_objects, flow_others, flow_ifs, flow_arrays, flow_unops, flow_binops, flow_binops_2addr,
    flow_literals, flow_unused.
  repeat first [apply Forall_app; split|apply Hc|apply List.Forall_cons|apply List.Forall_nil]; cbn [fst snd];
    try (by left); right; intros inst; unfold flow_if_eqz, sharpen; cbv zeta; gives; by case_if.
Qed.
Lemma case_of_may_throw op inst :
  gives (case_of LK m code_item dex_file method op inst) (fun l => op <> MONITOR_EXIT -> may_throw l = true).
Proof.
  intros s l s' H Hop. unfold case_of in H. destruct (find _ _) as [[op' c]|] eqn:Ef; [|done].
  apply find_some in Ef as [Hin Heq]. apply Z.eqb_eq in Heq. cbn in Heq. subst op'. pose proof flow_cases_may_throw as Hall.
  rewrite List.Forall_forall in Hall. destruct (Hall _ Hin) as [?|Hg]; [done|]. by eapply Hg.
Qed.

Lemma hard_done s u s' :
  hard m code_item s = FDone u s' -> have_pending_hard_failure_ (pending (static_state s')) = true.
Proof. unfold hard, FailFlow. cbn. by intros [= _ <-]. Qed.

Lemma payload_nop inst :
  is_payload inst -> Opcode inst = NOP /\ VRegA_10x inst <> 0.
Proof.
  unfold is_payload, Opcode, VRegA_10x, InstAA. intros [->|[->| ->]]; split; vm_compute; done.
Qed.

Lemma case_of_payload inst s l s' :
  is_payload inst -> case_of LK m code_item dex_file method (Opcode inst) inst s = FDone l s' ->
  have_pending_hard_failure_ (pending (static_state s')) = true.
Proof.
  intros [-> Ha]%payload_nop H.
  change ((when (negb (VRegA_10x inst =? 0)) (hard m code_item);; mret no_locals) s = FDone l s') in H.
  rewrite (proj2 (Z.eqb_neq _ _) Ha) in H. cbn [negb when] in H. fbind H u s1 E. injection H as _ <-.
  by eapply hard_done.
Qed.

(** *** Processing an instruction *)

Notation inst_at := (inst_at m code_item).
Notation CodeFlowVerifyInstruction := (CodeFlowVerifyInstruction LK m code_item dex_file method).

(** Where the instruction at [idx] goes, whatever its types. *)
Definition may_go (idx x : Z) : Prop :=
  IsBranch (inst_at idx) = true /\ branch_to idx x \/
  IsSwitch (inst_at idx) = true /\ switch_to (inst_at idx) idx x \/
  throw_to m code_item idx x \/
  CanFlowThrough (inst_at idx) = true /\ continue_to (inst_at idx) idx x /\ x < insns_size code_item.

Definition flags_without_throw_ok (op : Z) : bool :=
  forallb (fun k => Bool.eqb (flag_set (FlagsOf op &&& Z.lnot kThrow) k) (flag_set (FlagsOf op) k))
    [kBranch; kSwitch; kContinue].
Lemma flags_without_throw inst k :
  k ∈ [kBranch; kSwitch; kContinue] ->
  flag_set (FlagsOf (Opcode inst) &&& Z.lnot kThrow) k = flag_set (FlagsOf (Opcode inst)) k.
Proof.
  intros Hk. apply Bool.eqb_prop.
  assert (flags_without_throw_ok (Opcode inst) = true) as H
    by (apply (opcode_all flags_without_throw_ok); [vm_compute; reflexivity|apply Opcode_range]).
  unfold flags_without_throw_ok in H. rewrite forallb_forall in H. by apply H, list_elem_of_In.
Qed.
Lemma opcode_flags_of_set inst locals rt k :
  k ∈ [kBranch; kSwitch; kContinue] ->
  flag_set (opcode_flags_of inst locals rt) k = negb rt && flag_set (FlagsOf (Opcode inst)) k.
Proof.
  intros Hk. unfold opcode_flags_of. destruct rt; [|cbn [negb andb]; destruct (may_throw locals);
    [done|by apply flags_without_throw]].
  rewrite !elem_of_cons, elem_of_nil in Hk. by destruct Hk as [->|[->|[->|[]]]].
Qed.

Lemma CodeFlowVerifyInstruction_inv g s g' s' :
  CodeFlowVerifyInstruction g s = FDone (Some g') s' ->
  exists locals s1, evolves eq s s1 /\ ~ is_payload (inst_at (work_insn_idx_ s)) /\
    (Opcode (inst_at (work_insn_idx_ s)) <> MONITOR_EXIT -> may_throw locals = true) /\
    flow_on (inst_at (work_insn_idx_ s)) (work_insn_idx_ s)
      (opcode_flags_of (inst_at (work_insn_idx_ s)) locals
         (have_pending_runtime_throw_failure_ (pending (static_state s1)))) locals g s1 = FDone (Some g') s'.
Proof.
  intros H. unfold CodeFlow.CodeFlowVerifyInstruction in H. cbv zeta in H. fbind H idx s1 E1.
  injection E1 as <- <-. fbind H fl s2 E2. fbind H u s3 E3. fbind H locals s4 E4. fbind H p s5 E5.
  injection E5 as <- <-. destruct (have_pending_hard_failure_ _) eqn:Eh.
  { fbind H u' s5 E5. done. }
  exists locals, s4. split; [|split; [|split]]; try done.
  - etrans; [eapply fm_get_flags; exact E2|]. etrans; [|eapply fm_case_of; exact E4].
    revert E3. generalize s2, u, s3. change (fmono (when (flag_set (FlagsOf (Opcode (inst_at (work_insn_idx_ s)))) kThrow && IsInTry fl) save_work)).
    fmono.
  - intros Hp. by rewrite (case_of_payload _ _ _ _ Hp E4) in Eh.
  - by apply (case_of_may_throw _ _ _ _ _ E4).
Qed.

Lemma instruction_marks g s g' s' :
  CodeFlowVerifyInstruction g s = FDone (Some g') s' -> evolves (marks (may_go (work_insn_idx_ s))) s s'.
Proof.
  intros (locals & s1 & He & _ & _ & H)%CodeFlowVerifyInstruction_inv.
  etrans; [eapply evolves_weaken, He; apply eq_marks|].
  revert H. eapply fk_weaken; [|apply fk_flow_on]. intros x. unfold successor, may_go.
  rewrite (opcode_flags_of_set _ _ _ kBranch), (opcode_flags_of_set _ _ _ kSwitch),
    (opcode_flags_of_set _ _ _ kContinue) by (rewrite !elem_of_cons; auto).
  change (CanFlowThrough ?i) with (flag_set (FlagsOf (Opcode i)) kContinue).
  intros [[[_ ?]%andb_prop ?]|[[[_ ?]%andb_prop ?]|[[_ ?]|[[_ ?]%andb_prop ?]]]]; auto.
Qed.

(** The instruction at [pc] is a proper one and everything it may go on at has
    been reached. *)
Definition closed (s : FlowState) (pc : Z) : Prop :=
  ~ is_payload (inst_at pc) /\
  (forall x, IsBranch (inst_at pc) = true /\ branch_to pc x \/
     IsSwitch (inst_at pc) = true /\ switch_to (inst_at pc) pc x \/
     (IsThrow (inst_at pc) = true /\ Opcode (inst_at pc) <> MONITOR_EXIT) /\
       flag_at (static_state s) kInTry pc /\ throw_to m code_item pc x -> reached s x) /\
  (forall x, CanFlowThrough (inst_at pc) = true -> continue_to (inst_at pc) pc x ->
     reached s x /\ x < insns_size code_item).

Lemma flag_at_turns s s' bit pc :
  1 < bit < 8 -> evolves turns s s' -> flag_at (static_state s') bit pc -> flag_at (static_state s) bit pc.
Proof.
  intros Hb (_ & _ & _ & [Hl H] & _) (Hpc & f' & Hf' & Ht). split; [done|].
  destruct (lookup_lt_is_Some_2 (flags_of s) (Z.to_nat pc)) as [f Hf].
  { unfold flags_of. rewrite <- Hl. by eapply lookup_lt_Some. }
  destruct (H _ _ Hf) as (f1 & Hf1 & Hk & _). rewrite Hf1 in Hf'. injection Hf' as ->.
  exists f. split; [done|]. by rewrite <- Hk.
Qed.
Lemma closed_turns s s' pc : evolves turns s s' -> closed s pc -> closed s' pc.
Proof.
  intros He (Hp & H1 & H2). split; [done|]. split.
  - intros x Hx. eapply reached_turns; [done|]. apply H1.
    destruct Hx as [?|[?|(? & Hf & ?)]]; auto. right. right. split; [done|].
    split; [|done]. by eapply flag_at_turns; [|exact He|].
  - intros x Hc Hx. destruct (H2 x Hc Hx). split; [by eapply reached_turns|done].
Qed.

Lemma instruction_closed g s g' s' :
  CodeFlowVerifyInstruction g s = FDone (Some g') s' -> throws_at_runtime s' = false ->
  closed s' (work_insn_idx_ s).
Proof.
  intros (locals & s1 & He & Hp & Ht & H)%CodeFlowVerifyInstruction_inv Hn. set (idx := work_insn_idx_ s) in *.
  pose proof (fk_flow_on _ _ _ _ _ _ _ _ H) as Hk.
  destruct (have_pending_runtime_throw_failure_ _) eqn:Er in H.
  { exfalso. assert (throws_at_runtime s' = true); [|congruence]. apply Hk.
    unfold throws_at_runtime. rewrite Er. apply orb_true_r. }
  assert (evolves turns s1 s') as Hk' by (eapply evolves_weaken, Hk; apply marks_turns).
  assert (forall k, k ∈ [kBranch; kSwitch; kContinue] ->
    flag_set (opcode_flags_of (inst_at idx) locals false) k = flag_set (FlagsOf (Opcode (inst_at idx))) k) as Hfl
    by (intros; by rewrite opcode_flags_of_set).
  split; [done|]. split.
  - intros x Hx. eapply flow_on_reached; [exact H|].
    rewrite (Hfl kBranch), (Hfl kSwitch) by (rewrite !elem_of_cons; auto).
    destruct Hx as [?|[?|((Hi & Hm) & Hf & ?)]]; auto. right. right. left. split_and!; try done.
    + unfold opcode_flags_of. by rewrite Ht.
    + by eapply flag_at_turns; [|exact Hk'|].
  - intros x Hc Hx. change (CanFlowThrough ?i) with (flag_set (FlagsOf (Opcode i)) kContinue) in Hc.
    rewrite <- Hfl in Hc by (rewrite !elem_of_cons; auto).
    destruct (flow_on_reached _ _ _ _ _ _ _ _ x H) as [? Hlt]; auto 6.
Qed.
End Successors.
(** ** The loop *)

Lemma alter_alter {A} (f g : A -> A) i (l : list A) : alter g i (alter f i l) = alter (g ∘ f) i l.
Proof. revert i. induction l as [|x l IH]; intros [|i]; simpl; try done. f_equal. apply IH. Qed.

(** The instruction is visited and no longer changed. *)
Lemma processed_done {A} i (a b : A) s s' :
  (change_flags i SetVisited;; change_flags i ClearChanged;; mret a) s = FDone b s' ->
  b = a /\ 0 <= i < Z.of_nat (length (flags_of s)) /\
  s' = with_static s (with_flags (static_state s)
         (alter (ClearChanged ∘ SetVisited) (Z.to_nat i) (flags_of s))).
Proof.
  unfold mbind, F_bind, change_flags, static, update_flags.
  destruct (_ && _) eqn:E; [|done]. cbn. rewrite length_alter, E, alter_alter.
  intros [= <- <-]. bools. by split_and!.
Qed.

Lemma processed_turns s i :
  evolves turns s (with_static s (with_flags (static_state s)
    (alter (ClearChanged ∘ SetVisited) i (flags_of s)))).
Proof.
  split_and!; try done. cbn. split; [apply length_alter|]. intros j f Hf.
  destruct (decide (i = j)) as [<-|Hne].
  - rewrite list_lookup_alter_eq. unfold flags_of. rewrite Hf. eexists. split; [done|].
    unfold compose. split; flags; [|by rewrite orb_true_r].
    intros bit Hb. flags. rewrite !(proj2 (Z.eqb_neq _ _)) by (unfold kVisited, kChanged; lia).
    by rewrite orb_false_r, andb_true_r.
  - rewrite list_lookup_alter_ne by done. by exists f.
Qed.

Lemma first_changed_inv n i s r s' :
  first_changed n i s = FDone r s' ->
  s' = s /\ (r = i + Z.of_nat n /\ (forall j, i <= j < i + Z.of_nat n -> ~ flag_at (static_state s) kChanged j) \/
             flag_at (static_state s) kChanged r).
Proof.
  revert i. induction n as [|n IH]; intros i H; cbn [first_changed] in H.
  - injection H as <- <-. split; [done|]. left. split; [lia|]. intros j Hj. lia.
  - fbind H f s1 E. apply flags_at_inv in E as (-> & Hi & Hf). destruct (IsChanged f) eqn:Ec.
    + injection H as <- <-. split; [done|]. right. split; [done|]. by exists f.
    + destruct (IH _ H) as [-> [[-> Hn]|?]]; [|auto]. split; [done|]. left. split; [lia|].
      intros j Hj Hc. destruct (decide (j = i)) as [->|]; [|apply (Hn j); [lia|done]].
      destruct Hc as (_ & f' & Hf' & Ht). unfold flags_of in Hf. rewrite Hf' in Hf. injection Hf as ->.
      unfold IsChanged in Ec. congruence.
Qed.

Lemma changed_reached s pc : flag_at (static_state s) kChanged pc -> reached s pc.
Proof.
  intros (Hpc & f & Hf & Ht). split; [done|]. exists f. split; [done|].
  unfold IsVisitedOrChanged, IsChanged. rewrite Ht. apply orb_true_r.
Qed.

Lemma load_line_inv i s u s' :
  load_line i s = FDone u s' ->
  evolves eq s s' /\ work_insn_idx_ s' = work_insn_idx_ s /\ 0 <= i < Z.of_nat (length (flags_of s)).
Proof.
  intros H. unfold load_line in H. fbind H f s1 E. apply flags_at_inv in E as (-> & Hi & Hf).
  apply lookup_lt_Some in Hf. split; [|split; [|lia]].
  - revert H. generalize s, u, s'. match goal with |- forall s a s', ?c s = _ -> _ => change (fmono c) end. fmono.
  - unfold when in H. destruct (IsBranchTarget f); [|by injection H as _ <-].
    fbind H l s1 E. injection E as <- <-. fbind H l s1 E. unfold liftF in E.
    destruct (reg_table_ s !! i); [|done]. injection E as -> <-. by injection H as _ <-.
Qed.

Section Loop.
Context (LK : ClassLinker) (m : mem) (code_item : CodeItem) (dex_file : DexHeader).
Context (method : MethodToVerify) (allow : bool).
Hypothesis Hv : verified_method m code_item dex_file allow.
Notation size := (insns_size code_item).
Notation start := (instruction_start m code_item).
Notation inst_at := (inst_at m code_item).
Notation CodeFlowVerify_step := (CodeFlowVerify_step LK m code_item dex_file method).
Notation CodeFlowVerify_loop := (CodeFlowVerify_loop LK m code_item dex_file method).

Lemma may_go_start idx x : start idx -> may_go m code_item idx x -> start x.
Proof.
  intros Hs [[Hb (off & c & e & Hg & ->)]|[[Hw (targ & Ht & ->)]|[Ht|(_ & (k & Hk & ->) & Hlt)]]].
  - pose proof (GetBranchOffset_target m code_item idx off c e (vm_bytes _ _ _ _ Hv) Hb Hg) as Ht.
    pose proof (branch_start _ _ _ _ Hv idx off Hs Hb Ht) as H. by rewrite (in_code _ _ _ _ Hv) by auto.
  - pose proof (switch_start _ _ _ _ Hv idx targ Hs Hw Ht) as H. by rewrite (in_code _ _ _ _ Hv) by auto.
  - by eapply throw_to_start.
  - pose proof (next_start _ _ _ _ Hv idx k Hs Hk) as H. rewrite (in_code _ _ _ _ Hv) in * by auto.
    destruct H as [?|?]; [done|lia].
Qed.

Record flow_inv (s : FlowState) : Prop := {
  fi_length : Z.of_nat (length (flags_of s)) = size;
  fi_start pc : reached s pc -> start pc;
  fi_closed pc : settled s pc -> closed m code_item s pc
}.

Lemma step_inv g s g' s' :
  flow_inv s -> CodeFlowVerify_step g s = FDone (inl g') s' -> throws_at_runtime s' = false -> flow_inv s'.
Proof.
  intros [Hlen Hst Hcl] H Hn. unfold CodeFlow.CodeFlowVerify_step in H. fbind H idx s1 E1.
  apply first_changed_inv in E1 as [-> Hidx]. destruct (Z.eqb_spec idx size) as [|Hne].
  { injection H as _ <-. by split. }
  fbind H u s2 E2. injection E2 as _ <-. fbind H u' s3 E3. apply load_line_inv in E3 as (L1 & L2 & L3).
  change (work_insn_idx_ s3 = idx) in L2. change (evolves eq s s3) in L1.
  assert (reached s idx) as Hr.
  { destruct Hidx as [[-> _]|?%changed_reached]; [|done]. change (flags_of (with_idx _ _)) with (flags_of s) in L3. lia. }
  fbind H r s4 E4. destruct r as [g1|]; [|done]. apply processed_done in H as (_ & Hi & ->).
  pose proof (instruction_marks _ _ _ _ _ _ _ _ _ E4) as Hm.
  pose proof (instruction_closed _ _ _ _ _ _ _ _ _ E4 Hn) as Hc. rewrite L2 in Hm, Hc.
  assert (evolves (marks (may_go m code_item idx)) s s4) as Hm'
    by (etrans; [eapply evolves_weaken, L1; apply eq_marks|exact Hm]).
  pose proof (processed_turns s4 (Z.to_nat idx)) as Hp.
  assert (evolves turns s s4) as Ht by (eapply evolves_weaken, Hm'; apply marks_turns).
  split.
  - cbn. unfold flags_of. cbn. rewrite length_alter. destruct Ht as (_ & _ & _ & [-> _] & _). done.
  - intros pc Hpc. assert (reached s4 pc \/ pc = idx) as [Hpc4| ->].
    { destruct (decide (pc = idx)) as [|Hd]; [by right|left]. destruct Hpc as (H0 & f & Hf & Hvf).
      split; [done|]. exists f. split; [|done]. unfold flags_of in Hf. cbn in Hf.
      by rewrite list_lookup_alter_ne in Hf by lia. }
    + destruct (reached_new _ _ _ _ Hm' Hpc4) as [?|Hgo]; [by apply Hst|].
      eapply may_go_start; [|exact Hgo]. by apply Hst.
    + by apply Hst.
  - intros pc Hpc. destruct (decide (pc = idx)) as [->|Hd]; [by eapply closed_turns|].
    eapply closed_turns; [exact Hp|]. eapply closed_turns; [exact Ht|]. apply Hcl.
    eapply settled_marks; [exact Hm'|]. destruct Hpc as (H0 & f & Hf & Hvf).
    split; [done|]. exists f. split; [|done]. unfold flags_of in Hf. cbn in Hf.
    by rewrite list_lookup_alter_ne in Hf by lia.
Qed.

Lemma step_turns g s r s' :
  CodeFlowVerify_step g s = FDone r s' -> r <> inr false -> evolves turns s s'.
Proof.
  intros H Hr. unfold CodeFlow.CodeFlowVerify_step in H. fbind H idx s1 E1.
  apply first_changed_inv in E1 as [-> _]. destruct (idx =? size); [by injection H as _ <-|].
  fbind H u s2 E2. injection E2 as _ <-. fbind H u' s3 E3. apply load_line_inv in E3 as (L1 & _).
  fbind H r' s4 E4. etrans; [eapply evolves_weaken, L1; intros l l' ->; done|].
  destruct r' as [g'|]; [|by injection H as <- _].
  apply processed_done in H as (_ & _ & ->). etrans; [|apply processed_turns].
  eapply evolves_weaken, instruction_marks, E4. apply marks_turns.
Qed.

(** After an instruction no failure is left pending. *)
Definition quiet (s : FlowState) : Prop :=
  have_pending_runtime_throw_failure_ (pending (static_state s)) = false.

Lemma flow_on_quiet inst idx fl locals g s g' s' :
  flow_on LK m code_item method inst idx fl locals g s = FDone (Some g') s' -> quiet s'.
Proof.
  intros H. unfold flow_on in H. cbv zeta in H. fbind H u s1 E1. fbind H br s2 E2.
  destruct br as [bg|]; [|done]. fbind H k s3 E3. fbind H f s4 E4. fbind H ok s5 E5. destruct ok; [|done].
  fbind H u' s6 E6. fbind H u'' s7 E7. injection H as _ <-. unfold end_instruction, set_runtime_throw in E7.
  unfold quiet. destruct (have_pending_runtime_throw_failure_ _) eqn:E in E7; by injection E7 as _ <-.
Qed.
Lemma step_quiet g s g' s' : quiet s -> CodeFlowVerify_step g s = FDone (inl g') s' -> quiet s'.
Proof.
  intros Hq H. unfold CodeFlow.CodeFlowVerify_step in H. fbind H idx s1 E1.
  apply first_changed_inv in E1 as [-> _]. destruct (idx =? size); [by injection H as _ <-|].
  fbind H u s2 E2. fbind H u' s3 E3. fbind H r s4 E4. destruct r as [g1|]; [|done].
  apply processed_done in H as (_ & _ & ->).
  apply CodeFlowVerifyInstruction_inv in E4 as (? & ? & _ & _ & _ & E4). by apply flow_on_quiet in E4.
Qed.

Lemma step_end g s s' :
  flow_inv s -> CodeFlowVerify_step g s = FDone (inr true) s' ->
  s' = s /\ forall pc, reached s pc -> settled s pc.
Proof.
  intros [Hlen Hst _] H. unfold CodeFlow.CodeFlowVerify_step in H. fbind H idx s1 E1.
  apply first_changed_inv in E1 as [-> Hidx]. destruct (Z.eqb_spec idx size) as [->|].
  - destruct (Z.eqb_spec g 0) as [->|]; [|done]. injection H as <-. split; [done|]. intros pc Hpc.
    destruct Hidx as [[_ Hno]|Hc].
    + destruct (Hst pc Hpc) as [_ Hr]. specialize (Hno pc ltac:(lia)). destruct Hpc as (H0 & f & Hf & Hvf).
      split; [done|]. exists f. split; [done|]. assert (IsChanged f = false) as Hc.
      { destruct (IsChanged f) eqn:E; [|done]. exfalso. apply Hno. split; [done|]. by exists f. }
      split; [|done]. unfold IsVisitedOrChanged in Hvf. by rewrite Hc, orb_false_r in Hvf.
    + apply changed_reached, Hst in Hc as [_ ?]. lia.
  - fbind H u s2 E2. fbind H u' s3 E3. fbind H r s4 E4. destruct r as [g1|]; [|done].
    by apply processed_done in H as [? _].
Qed.

Lemma loop_turns fuel g s s' :
  CodeFlowVerify_loop fuel g s = FDone (Some true) s' -> quiet s -> evolves turns s s' /\ quiet s'.
Proof.
  revert g s. induction fuel as [|fuel IH]; intros g s H Hq; [done|]. cbn [CodeFlow.CodeFlowVerify_loop] in H.
  fbind H r s1 E1. destruct r as [g1|b].
  - destruct (IH _ _ H) as [Ht ?]; [by eapply step_quiet|]. split; [|done].
    etrans; [by eapply step_turns|done].
  - injection H as -> <-. split; [by eapply step_turns|]. unfold CodeFlow.CodeFlowVerify_step in E1.
    fbind E1 idx s2 E2. apply first_changed_inv in E2 as [-> _]. destruct (idx =? size).
    { by injection E1 as _ <-. }
    fbind E1 u s3 E3. fbind E1 u' s4 E4. fbind E1 r s5 E5. destruct r as [g1|]; [|done].
    by apply processed_done in E1 as [? _].
Qed.

Lemma loop_inv fuel g s s' :
  CodeFlowVerify_loop fuel g s = FDone (Some true) s' -> quiet s -> flow_inv s ->
  have_any_pending_runtime_throw_failure_ s' = false ->
  flow_inv s' /\ forall pc, reached s' pc -> settled s' pc.
Proof.
  revert g s. induction fuel as [|fuel IH]; intros g s H Hq Hs Hn; [done|]. cbn [CodeFlow.CodeFlowVerify_loop] in H.
  fbind H r s1 E1. destruct r as [g1|b].
  - pose proof (step_quiet _ _ _ _ Hq E1) as Hq1.
    destruct (loop_turns _ _ _ _ H Hq1) as [(_ & _ & _ & _ & Hth) Hq'].
    eapply (IH _ _ H); [done| |done]. eapply step_inv; [done|exact E1|].
    destruct (throws_at_runtime s1); [|done]. specialize (Hth eq_refl).
    unfold throws_at_runtime in Hth. by rewrite Hn, Hq' in Hth.
  - injection H as -> <-. by apply step_end in E1 as [-> ?].
Qed.

(** ** The whole pass *)

Lemma VerifyPasses_accepted fuel s0 s' :
  VerifyPasses LK m code_item dex_file method allow fuel s0 = FDone (Some true) s' ->
  exists v s1, VerifyStatic m code_item dex_file allow (static_state s0) = Some (true, v) /\
    flags_of s1 = alter SetChanged O (insn_flags_ v) /\ 0 < Z.of_nat (length (insn_flags_ v)) /\
    quiet s1 /\ CodeFlowVerify_loop fuel 0 s1 = FDone (Some true) s'.
Proof.
  intros H. unfold VerifyPasses in H. fbind H ok s1 E1. unfold static in E1.
  destruct (VerifyStatic _ _ _ _ _) as [[ok' v]|] eqn:Ev; [|done]. injection E1 as -> <-. destruct ok; [|done].
  unfold VerifyCodeFlow in H. fbind H u s2 E2. injection E2 as _ <-. fbind H u' s3 E3. injection E3 as _ <-.
  fbind H ok s4 E4. destruct ok; [|done]. apply fm_SetTypesFromSignature in E4 as (_ & _ & _ & Hf & _).
  cbn [negb] in H. fbind H u'' s5 E5. injection E5 as _ <-. unfold CodeFlowVerifyMethod in H. fbind H w s6 E6.
  unfold change_flags, static, update_flags in E6. destruct (_ && _) eqn:El in E6; [|done].
  injection E6 as _ <-. exists v. eexists. split; [done|]. split; [|split; [|split; [|exact H]]]; try done.
  - unfold flags_of. cbn in *. by rewrite Hf.
  - bools. cbn in *. rewrite Hf. lia.
Qed.

Lemma initial_inv v s :
  marked m code_item v -> unvisited v -> flags_of s = alter SetChanged O (insn_flags_ v) ->
  0 < Z.of_nat (length (insn_flags_ v)) -> flow_inv s.
Proof.
  intros [Hl _] Hu Hf H0. pose proof (vm_size _ _ _ _ Hv) as [Hsz _].
  assert (forall pc f, flags_of s !! pc = Some f -> IsVisited f = false /\ (IsChanged f = true -> pc = O)) as Hflag.
  { intros pc f Hpc. rewrite Hf in Hpc. destruct (decide (O = pc)) as [<-|Hne].
    - rewrite list_lookup_alter_eq in Hpc. destruct (insn_flags_ v !! O) as [f0|] eqn:E0; [|done].
      injection Hpc as <-. split; [|done]. flags. destruct (Forall_lookup_1 _ _ _ _ Hu E0) as [-> _]. done.
    - rewrite list_lookup_alter_ne in Hpc by done. destruct (Forall_lookup_1 _ _ _ _ Hu Hpc) as [Hv0 Hc0].
      split; [done|]. unfold IsChanged. by rewrite Hc0. }
  split.
  - rewrite Hf, length_alter. lia.
  - intros pc (Hpc & f & Hfp & Hvf). destruct (Hflag _ _ Hfp) as [Hn Hc]. unfold IsVisitedOrChanged in Hvf.
    rewrite Hn in Hvf. specialize (Hc Hvf). replace pc with 0 by lia. split; [constructor|lia].
  - intros pc (Hpc & f & Hfp & Hvf & _). destruct (Hflag _ _ Hfp). congruence.
Qed.

Definition visited (s : FlowState) (pc : Z) : Prop := flag_at (static_state s) kVisited pc.

Lemma flag_at_later s s' bit pc :
  1 < bit < 8 -> evolves turns s s' -> flag_at (static_state s) bit pc -> flag_at (static_state s') bit pc.
Proof.
  intros Hb (_ & _ & _ & [_ H] & _) (Hpc & f & (f' & Hf' & Hk & _)%H & Ht). split; [done|].
  exists f'. by rewrite Hk.
Qed.

Lemma visited_reached s pc : visited s pc -> reached s pc.
Proof.
  intros (Hpc & f & Hf & Ht). split; [done|]. exists f. split; [done|].
  unfold IsVisitedOrChanged, IsVisited. by rewrite Ht.
Qed.
Lemma settled_visited s pc : settled s pc -> visited s pc.
Proof. intros (Hpc & f & Hf & Ht & _). split; [done|]. by exists f. Qed.

Lemma visited_contract s :
  flow_inv s -> (forall pc, reached s pc -> settled s pc) ->
  (forall i pc, 0 <= i < tries_size_ code_item -> start pc -> in_try m code_item i pc ->
     flag_at (static_state s) kInTry pc) ->
  FlowContract m code_item (visited s).
Proof.
  intros [_ Hst Hcl] Hall Htry.
  assert (forall x, reached s x -> visited s x) as Hvis by (intros; by apply settled_visited, Hall).
  split.
  - intros pc Hpc%visited_reached. split; [by apply Hst|]. by apply Hcl, Hall.
  - intros pc off Hpc%visited_reached Hf. destruct (Hcl pc (Hall _ Hpc)) as (Hp & Hgo & Hco).
    pose proof (Hst pc Hpc) as Hs. destruct (flows_to _ _ _ _ Hv pc off Hs Hp Hf) as [Hu _]. apply Hvis.
    destruct Hf as [[Hc Hk]|[[Hb Ht]|[Hw (targ & Htg & ->)]]].
    + rewrite <- Hu. apply Hco; [done|]. exists off. split; [|done].
      destruct Hk as [?|[? ->]]; [done|by apply nop_size].
    + destruct (branch_offset _ _ _ _ Hv pc off Hs Hb Ht) as (c & e & Hg & _).
      rewrite <- Hu. apply Hgo. left. split; [done|]. by exists off, c, e.
    + rewrite <- Hu. apply Hgo. right. left. split; [done|]. by exists targ.
  - intros pc catches flag r b Hpc%visited_reached Ht Hx [?|Hr]%FindCatchBlock_throw_to; [by left|right].
    destruct (Hcl pc (Hall _ Hpc)) as (_ & Hgo & _). apply Hvis, Hgo. right. right. split; [done|]. split; [|done].
    apply throw_to_try in Hr as (t & Htr & Hin & _); [|apply Hv]. eapply Htry; [done|by apply Hst|done].
Qed.

Lemma VerifyPasses_contract fuel s0 s' :
  VerifyPasses LK m code_item dex_file method allow fuel s0 = FDone (Some true) s' ->
  have_any_pending_runtime_throw_failure_ s' = false ->
  FlowContract m code_item (visited s') /\ visited s' 0.
Proof.
  intros (v & s1 & Ev & Hf & Hlen & Hq & H)%VerifyPasses_accepted Hn.
  destruct (VerifyStatic_flags m code_item dex_file (vm_bytes _ _ _ _ Hv) allow _ _ (proj1 (vm_size _ _ _ _ Hv)) Ev)
    as (Hm & Hu & Htry).
  pose proof (initial_inv v s1 Hm Hu Hf Hlen) as Hi. destruct (loop_inv _ _ _ _ H Hq Hi Hn) as [Hi' Hall].
  destruct (loop_turns _ _ _ _ H Hq) as [Ht _]. split.
  - apply visited_contract; [done..|]. intros i pc Hr Hs Hin.
    eapply flag_at_later; [by unfold kInTry|exact Ht|]. destruct (Htry i pc Hr Hs Hin) as (Hpc & f & Hfp & Hb).
    split; [done|]. fold (flags_of s1). rewrite Hf. destruct (decide (O = Z.to_nat pc)) as [E|Hne].
    + rewrite E, list_lookup_alter_eq, Hfp. eexists. split; [done|].
      rewrite (proj1 (SetChanged_turn f)) by (unfold kInTry; lia). done.
    + rewrite list_lookup_alter_ne by done. eauto.
  - apply settled_visited, Hall. eapply reached_turns; [exact Ht|]. split; [done|].
    rewrite Hf. cbn. destruct (insn_flags_ v) as [|f l]; [done|]. exists (SetChanged f). split; [done|].
    flags. by rewrite !orb_true_r.
Qed.
End Loop.

(** What the dex file verifier has checked of the bytes of a method: their range,
    and that the handler offsets of the try items are those of encoded lists. *)
Record well_encoded (m : mem) (code_item : CodeItem) : Prop := {
  we_bytes : bytes_ok m;
  we_size : in_u 32 (insns_size code_item);
  we_tries : 0 <= tries_size_ code_item;
  we_lists : forall i, 0 <= i < tries_size_ code_item ->
    GetCatchHandlerData code_item (handler_off_ (try_at m code_item i)) ∈ handler_lists m code_item
}.

Lemma accepted_verified LK m code_item dex_file method allow fuel s0 s' :
  well_encoded m code_item ->
  VerifyPasses LK m code_item dex_file method allow fuel s0 = FDone (Some true) s' ->
  verified_method m code_item dex_file allow.
Proof.
  intros [Hb Hs Ht Hl] (v & s1 & Ev & _)%VerifyPasses_accepted. split; eauto.
Qed.



(** [div-int v0, v1, v1; return-void; move-exception v0; return-void] with the
    division in a try block. *)
Definition caught_units : list Z := [0x0093; 0x0101; 0x000e; 0x000d; 0x000e].
Definition caught_handlers : list Z := [0; 0; 0; 0; 0; 0; 2; 0; 1; 0; 1; 1; 4; 3].
Definition caught_code : mem := sample_code caught_units caught_handlers.
Definition caught_item : CodeItem := sample_item 2 1 1 caught_units.

Lemma sample_code_bytes units handlers :
  forallb (fun b => (0 <=? b) && (b <? 256)) (flat_map (fun u => [u mod 256; u / 256]) units ++ handlers) = true ->
  bytes_ok (sample_code units handlers).
Proof.
  intros H. apply bytes_ok_store_list; [intros a; unfold in_u; pows; lia|].
  apply List.Forall_forall. intros b Hb. rewrite forallb_forall in H. specialize (H b Hb). bools.
  unfold in_u. pows. lia.
Qed.

Lemma caught_well_encoded : well_encoded caught_code caught_item.
Proof.
  split.
  - apply sample_code_bytes. vm_compute. reflexivity.
  - unfold in_u. vm_compute. done.
  - done.
  - cbn [caught_item sample_item tries_size_]. intros i Hi. replace i with 0 by lia. vm_compute. left.
Qed.

(** The verdict on a sample method: accepted, without failures at run time. *)
Definition accepted_quietly (o : FlowOutcome (option bool)) : bool :=
  match o with
  | FDone (Some true) s => negb (have_any_pending_runtime_throw_failure_ s)
  | _ => false
  end.
Lemma accepted_quietly_inv o :
  accepted_quietly o = true ->
  exists s, o = FDone (Some true) s /\ have_any_pending_runtime_throw_failure_ s = false.
Proof.
  destruct o as [[[]|] s| |]; cbn; try done. intros H%negb_true_iff. eauto.
Qed.


Definition sum_sample_item : CodeItem := sample_item 2 0 0 sum_units.

Lemma sum_well_encoded : well_encoded (sample_code sum_units []) sum_sample_item.
Proof.
  split.
  - apply sample_code_bytes. vm_compute. reflexivity.
  - unfold in_u. vm_compute. done.
  - done.
  - cbn [sum_sample_item sample_item tries_size_]. lia.
Qed.

Definition returned_value (o : option (Outcome Z)) : option Z :=
  match o with Some (Returned v _) => Some v | _ => None end.

