(* ===== verification/InterpreterResults.v ===== *)
(** * What the interpreter computes

    The integer instructions against the arithmetic of the Java language, switch
    dispatch against a lookup of the key, and the bound of [fill-array-data]. *)
From Stdlib Require Import String.
From stdpp Require Import gmap.
From S2P Require Import Prelude BitUtils Leb128 DexInstructionList DexInstruction ShadowFrame ExceptionTable StaticVerifier StaticVerifierFacts Interpreter InterpreterFacts InterpreterSoundness.

(** ** Switch dispatch *)

Section SwitchSearch.
Context (inst : Instruction).
Hypothesis Hu : forall i, in_u 16 (inst i).
Notation payload := (RelativeAt inst (payload_offset inst)).
Notation count := (switch_count inst).

(** The keys and targets of a sparse payload. *)
Definition sparse_key (i : Z) : Z := table_int payload (2 + i * 2).
Definition sparse_target (i : Z) : Z := table_int payload (2 + 2 * count + i * 2).

Lemma keys_ascend_spec k targ last :
  keys_ascend k payload targ last = true ->
  forall i, targ <= i < targ + Z.of_nat k ->
    last < sparse_key i /\ forall j, targ <= j < i -> sparse_key j < sparse_key i.
Proof.
  revert targ last. induction k as [|k IH]; intros targ last H i Hi; [lia|].
  cbn [keys_ascend] in H. fold (sparse_key targ) in H.
  destruct (Z.leb_spec (sparse_key targ) last); [done|].
  destruct (Z.eq_dec i targ) as [->|Hne]; [split; [done|lia]|].
  destruct (IH _ _ H i ltac:(lia)) as [H1 H2]. split; [lia|].
  intros j Hj. destruct (Z.eq_dec j targ) as [->|]; [done|]. apply H2. lia.
Qed.

Lemma sparse_keys_sorted :
  check_keys false payload count = true ->
  forall i j, 0 <= i < j -> j < count -> sparse_key i < sparse_key j.
Proof.
  intros H i j Hi Hj. unfold check_keys in H.
  rewrite (proj2 (Z.ltb_lt 1 count)) in H by lia. change 2 with (2 + 0 * 2) in H at 1.
  change (table_int payload 2) with (sparse_key 0) in H.
  destruct (keys_ascend_spec _ _ _ H j ltac:(lia)) as [H1 H2].
  destruct (Z.eq_dec i 0) as [->|]; [done|]. apply H2. lia.
Qed.

Lemma sparse_loop_search fuel v lo hi :
  (forall i j, 0 <= i < j -> j < count -> sparse_key i < sparse_key j) ->
  0 <= lo -> hi < count -> lo <= hi + 1 -> hi - lo + 1 < Z.of_nat fuel ->
  (forall i, 0 <= i < lo -> sparse_key i <> v) ->
  (forall i, hi < i < count -> sparse_key i <> v) ->
  exists r, sparse_switch_loop fuel inst count v lo hi = Some r /\
    ((exists i, 0 <= i < count /\ sparse_key i = v /\ r = sparse_target i) \/
     ((forall i, 0 <= i < count -> sparse_key i <> v) /\ r = 3)).
Proof.
  intros Hs. revert lo hi. induction fuel as [|fuel IH]; intros lo hi Hlo Hhi Hle Hf Hl Hh; [lia|].
  cbn [sparse_switch_loop]. destruct (Z.leb_spec lo hi).
  2:{ eexists. split; [done|]. right. split; [|done]. intros i Hi.
      destruct (Z.lt_ge_cases i lo); [apply Hl|apply Hh]; lia. }
  rewrite Z.quot_div_nonneg by lia. cbv zeta. set (mid := (lo + hi) / 2).
  assert (lo <= mid <= hi) by (unfold mid; zdiv).
  rewrite !switch_int_table by done. replace (2 + 2 * mid) with (2 + mid * 2) by lia.
  fold (sparse_key mid). destruct (Z.ltb_spec v (sparse_key mid)).
  - apply IH; try lia; [done|]. intros i Hi.
    destruct (Z.lt_ge_cases hi i); [apply Hh; lia|].
    destruct (Z.eq_dec i mid) as [->|]; [lia|]. specialize (Hs mid i). lia.
  - destruct (Z.ltb_spec (sparse_key mid) v).
    + apply IH; try lia; [|done]. intros i Hi.
      destruct (Z.lt_ge_cases i lo); [apply Hl; lia|].
      destruct (Z.eq_dec i mid) as [->|]; [lia|]. specialize (Hs i mid). lia.
    + eexists. split; [done|]. left. exists mid. split; [lia|]. split; [lia|].
      unfold sparse_target. f_equal. lia.
Qed.
End SwitchSearch.

(** C36. Switches select the right case.  On a payload whose keys passed the
    verifier, [packed-switch] goes to the target of the key it is given when the
    value lies in the key range and falls through otherwise (no wrap-around of
    the key subtraction is observable), and the binary search of [sparse-switch]
    terminates with the target of the key equal to the value, or falls through
    when there is none. *)
Theorem switch_dispatch_correct inst v :
  (forall i, in_u 16 (inst i)) -> in_s 32 v ->
  let payload := RelativeAt inst (payload_offset inst) in
  let count := switch_count inst in
  (check_keys true payload count = true ->
   let first_key := table_int payload 2 in
   packed_switch_offset inst v =
     if (first_key <=? v) && (v <? first_key + count)
     then table_int payload (4 + (v - first_key) * 2) else 3) /\
  (check_keys false payload count = true ->
   exists r, sparse_switch_offset inst v = Some r /\
     ((exists i, 0 <= i < count /\ sparse_key inst i = v /\ r = sparse_target inst i) \/
      ((forall i, 0 <= i < count -> sparse_key inst i <> v) /\ r = 3))).
Proof.
  intros Hu Hv payload count.
  pose proof (unit_range inst (payload_offset inst + 1) (Hu _)) as Hc.
  change (inst (payload_offset inst + 1)) with count in Hc. split.
  - intros Hk first_key. unfold packed_switch_offset. rewrite switch_word_count by done.
    rewrite !switch_int_table by done. fold payload count first_key. cbv zeta.
    assert (in_s 32 first_key) as Hf by (apply wrap_s_range; lia).
    assert (1 < count -> first_key <= 2 ^ 31 - count) as Hm.
    { intros H1. unfold check_keys in Hk. rewrite (proj2 (Z.ltb_lt 1 count)) in Hk by lia.
      fold first_key in Hk. rewrite negb_true_iff in Hk. apply Z.ltb_ge in Hk. pows. lia. }
    assert (0 <= s32 (v - first_key) < count <-> first_key <= v < first_key + count) as Hiff.
    { unfold in_s in *. clear -Hv Hf Hm Hc. revert Hv Hf Hm. wrap_unfold. intros. zdiv. }
    assert (0 <= s32 (v - first_key) < count -> s32 (v - first_key) = v - first_key) as Heq.
    { unfold in_s in *. clear -Hv Hf Hm Hc. revert Hv Hf Hm. wrap_unfold. intros. zdiv. }
    destruct (Z.eqb_spec count 0) as [E|_].
    { by destruct (Z.leb_spec first_key v), (Z.ltb_spec v (first_key + count)); try lia. }
    destruct (Z.leb_spec 0 (s32 (v - first_key))), (Z.ltb_spec (s32 (v - first_key)) count),
      (Z.leb_spec first_key v), (Z.ltb_spec v (first_key + count)); simpl; try lia; try done.
    rewrite Heq by lia. f_equal. lia.
  - intros Hk. unfold sparse_switch_offset. rewrite switch_word_count by done. cbv zeta.
    fold count. destruct (Z.eqb_spec count 0) as [E|Hne].
    { eexists. split; [done|]. right. split; [lia|done]. }
    apply sparse_loop_search; try lia; [done|]. by apply sparse_keys_sorted.
Qed.

(** [sparse-switch] with keys -1 and 5 and targets 8 and 16. *)
Lemma switch_dispatch_correct_witness :
  let inst : Instruction := fun i =>
    nth (Z.to_nat i) [0x002c; 4; 0; 0; 0x0200; 2; 0xffff; 0xffff; 5; 0; 8; 0; 16; 0] 0 in
  sparse_switch_offset inst 5 = Some 16 /\
  exists r, sparse_switch_offset inst 4 = Some r /\
    ((exists i, 0 <= i < 2 /\ sparse_key inst i = 4 /\ r = sparse_target inst i) \/
     ((forall i, 0 <= i < 2 -> sparse_key inst i <> 4) /\ r = 3)).
Proof.
  intros inst. split; [vm_compute; reflexivity|].
  assert (forall i, in_u 16 (inst i)) as Hu.
  { intros i. unfold inst. generalize (Z.to_nat i). intros k.
    do 14 (destruct k as [|k]; [unfold in_u; pows; simpl; lia|]).
    destruct k; unfold in_u; pows; simpl; lia. }
  apply (switch_dispatch_correct inst 4 Hu ltac:(unfold in_s; pows; lia)).
  vm_compute. reflexivity.
Defined.

(** ** Integer arithmetic of the Java language *)

Inductive JavaOp := Add | Sub | Rsub | Mul | Div | Rem | And | Or | Xor | Shl | Shr | Ushr.

(** The value of [a op b] on integers of [w] bits; [None] is an
    [ArithmeticException]. *)
Definition java (w : Z) (op : JavaOp) (a b : Z) : option Z :=
  match op with
  | Add => Some (wrap_s w (a + b))
  | Sub => Some (wrap_s w (a - b))
  | Rsub => Some (wrap_s w (b - a))
  | Mul => Some (wrap_s w (a * b))
  | Div => if b =? 0 then None else Some (wrap_s w (Z.quot a b))
  | Rem => if b =? 0 then None else Some (Z.rem a b)
  | And => Some (Z.land a b)
  | Or => Some (Z.lor a b)
  | Xor => Some (Z.lxor a b)
  | Shl => Some (wrap_s w (a * 2 ^ (b mod w)))
  | Shr => Some (a / 2 ^ (b mod w))
  | Ushr => Some (wrap_s w (a mod 2 ^ w / 2 ^ (b mod w)))
  end.

Section Arithmetic.
Context `{RT : Runtime}.

(** Storing the value of an operation in a register or a register pair. *)
Definition java_int (op : JavaOp) (r a b : Z) : M unit :=
  match java 32 op a b with
  | Some v => write_frame (fun f => SetVReg f r v)
  | None => throw ArithmeticException
  end.
Definition java_long (op : JavaOp) (r a b : Z) : M unit :=
  match java 64 op a b with
  | Some v => write_frame (fun f => SetVRegLong f r v)
  | None => throw ArithmeticException
  end.

Lemma SafeMath_wrap w op a b :
  0 < w -> (forall x y, wrap_u w (op (wrap_u w x) (wrap_u w y)) = wrap_u w (op x y)) ->
  SafeMath w op a b = wrap_s w (op a b).
Proof. intros Hw H. unfold SafeMath. by rewrite H, wrap_s_wrap_u. Qed.

Lemma SafeAdd_wrap w a b : 0 < w -> SafeAdd w a b = wrap_s w (a + b).
Proof.
  intros Hw. apply SafeMath_wrap; [done|]. intros x y. unfold wrap_u.
  by rewrite <- Zplus_mod.
Qed.
Lemma SafeSub_wrap w a b : 0 < w -> SafeSub w a b = wrap_s w (a - b).
Proof.
  intros Hw. apply SafeMath_wrap; [done|]. intros x y. unfold wrap_u.
  by rewrite <- Zminus_mod.
Qed.
Lemma SafeMul_wrap w a b : 0 < w -> SafeMul w a b = wrap_s w (a * b).
Proof.
  intros Hw. apply SafeMath_wrap; [done|]. intros x y. unfold wrap_u.
  by rewrite <- Zmult_mod.
Qed.

Lemma wrap_s_idem w x : 0 < w -> wrap_s w (wrap_s w x) = wrap_s w x.
Proof. intros. apply wrap_s_id; [lia|]. by apply wrap_s_range. Qed.

(** A signed number of [w] bits shifts down to its sign. *)
Lemma in_s_shiftr w x : 0 < w -> in_s w x <-> x >> (w - 1) = 0 \/ x >> (w - 1) = -1.
Proof.
  intros Hw. rewrite Z.shiftr_div_pow2 by lia. unfold in_s.
  assert (0 < 2 ^ (w - 1)) by (apply Z.pow_pos_nonneg; lia).
  set (P := 2 ^ (w - 1)) in *. pose proof (Z.div_mod x P ltac:(lia)) as E.
  pose proof (Z.mod_pos_bound x P ltac:(lia)). split; intros Hx.
  - destruct (Z.lt_ge_cases x 0); [right|left; apply Z.div_small; lia].
    symmetry. apply (Z.div_unique x P (-1) (x + P)); lia.
  - destruct Hx as [Hx|Hx]; rewrite Hx in E; lia.
Qed.

Lemma bitwise_range w f a b :
  0 < w -> (forall n x y, 0 <= n -> f x y >> n = f (x >> n) (y >> n)) ->
  (forall x y, (x = 0 \/ x = -1) -> (y = 0 \/ y = -1) -> f x y = 0 \/ f x y = -1) ->
  in_s w a -> in_s w b -> in_s w (f a b).
Proof. intros Hw Hs H. rewrite !in_s_shiftr by done. intros. rewrite Hs by lia. auto. Qed.

Lemma land_in_s w a b : 0 < w -> in_s w a -> in_s w b -> in_s w (Z.land a b).
Proof.
  intros Hw. apply bitwise_range; [done|intros; by apply Z.shiftr_land|].
  intros x y [->| ->] [->| ->]; auto.
Qed.
Lemma lor_in_s w a b : 0 < w -> in_s w a -> in_s w b -> in_s w (Z.lor a b).
Proof.
  intros Hw. apply bitwise_range; [done|intros; by apply Z.shiftr_lor|].
  intros x y [->| ->] [->| ->]; auto.
Qed.
Lemma lxor_in_s w a b : 0 < w -> in_s w a -> in_s w b -> in_s w (Z.lxor a b).
Proof.
  intros Hw. apply bitwise_range; [done|intros; by apply Z.shiftr_lxor|].
  intros x y [->| ->] [->| ->]; auto.
Qed.

Lemma shiftr_m1 k : 0 <= k -> (-1) >> k = -1.
Proof.
  intros. rewrite Z.shiftr_div_pow2 by done.
  assert (0 < 2 ^ k) by (apply Z.pow_pos_nonneg; lia).
  symmetry. apply (Z.div_unique (-1) (2 ^ k) (-1) (2 ^ k - 1)); lia.
Qed.

Lemma shiftr_in_s w a k : 0 < w -> 0 <= k -> in_s w a -> in_s w (a >> k).
Proof.
  intros Hw Hk. rewrite !in_s_shiftr by done.
  rewrite Z.shiftr_shiftr, Z.add_comm, <- Z.shiftr_shiftr by lia.
  intros [->| ->]; [left; apply Z.shiftr_0_l|right; by apply shiftr_m1].
Qed.

Lemma rem_in_s w a b : 0 < w -> b <> 0 -> in_s w a -> in_s w (Z.rem a b).
Proof.
  intros Hw Hb. unfold in_s. intros Ha.
  destruct (Z.le_gt_cases 0 a).
  - pose proof (Z.rem_bound_pos_pos a (Z.abs b) ltac:(lia) ltac:(lia)).
    pose proof (Z.rem_abs_r a b Hb). pose proof (Z.rem_le a (Z.abs b)). lia.
  - pose proof (Z.rem_bound_pos_pos (- a) (Z.abs b) ltac:(lia) ltac:(lia)).
    pose proof (Z.rem_abs_r a b Hb). pose proof (Z.rem_opp_l a (Z.abs b) ltac:(lia)).
    pose proof (Z.rem_le (- a) (Z.abs b)). lia.
Qed.

Lemma shift_mask w b : w = 32 \/ w = 64 -> b &&& (w - 1) = b mod w.
Proof.
  intros [-> | ->]; [apply (land_ones_mod b 5)|apply (land_ones_mod b 6)]; lia.
Qed.

(** ** The operations of the source compute those of the language *)

Ltac op_agrees := unfold java_int, java_long, java, set_vreg, set_vreg_long; f_equal.

Section Ops.
Context (w : Z) (Hw : w = 32 \/ w = 64) (a b : Z) (Ha : in_s w a) (Hb : in_s w b).
Let Hpos : 0 < w. Proof. lia. Qed.

(** What the source stores before the conversion of the setter, and that the
    conversion gives the value of the language. *)
Lemma add_agrees : wrap_s w (SafeAdd w a b) = wrap_s w (a + b).
Proof. by rewrite SafeAdd_wrap, wrap_s_idem. Qed.
Lemma sub_agrees : wrap_s w (SafeSub w a b) = wrap_s w (a - b).
Proof. by rewrite SafeSub_wrap, wrap_s_idem. Qed.
Lemma rsub_agrees : wrap_s w (SafeSub w b a) = wrap_s w (b - a).
Proof. by rewrite SafeSub_wrap, wrap_s_idem. Qed.
Lemma mul_agrees : wrap_s w (SafeMul w a b) = wrap_s w (a * b).
Proof. by rewrite SafeMul_wrap, wrap_s_idem. Qed.
Lemma and_agrees : wrap_s w (a &&& b) = Z.land a b.
Proof. apply wrap_s_id; [done|]. by apply land_in_s. Qed.
Lemma or_agrees : wrap_s w (a ||| b) = Z.lor a b.
Proof. apply wrap_s_id; [done|]. by apply lor_in_s. Qed.
Lemma xor_agrees : wrap_s w (a ^^^ b) = Z.lxor a b.
Proof. apply wrap_s_id; [done|]. by apply lxor_in_s. Qed.
Lemma rem_agrees : b <> 0 -> wrap_s w (Z.rem a b) = Z.rem a b.
Proof. intros. apply wrap_s_id; [done|]. by apply rem_in_s. Qed.
End Ops.

Lemma shift_agrees w a d :
  w = 32 \/ w = 64 -> in_s w a ->
  wrap_s w (shl w a (d &&& (w - 1))) = wrap_s w (a * 2 ^ (d mod w)) /\
  wrap_s w (a >> (d &&& (w - 1))) = a / 2 ^ (d mod w) /\
  wrap_s w (wrap_u w a >> (d &&& (w - 1))) = wrap_s w (a mod 2 ^ w / 2 ^ (d mod w)).
Proof.
  intros Hw Ha. rewrite shift_mask by done. assert (0 < w) by lia.
  pose proof (Z.mod_pos_bound d w ltac:(lia)). split_and!.
  - unfold shl. by rewrite wrap_s_idem, Z.shiftl_mul_pow2 by lia.
  - rewrite wrap_s_id; [by rewrite Z.shiftr_div_pow2 by lia|done|]. apply shiftr_in_s; [done|lia|done].
  - by rewrite Z.shiftr_div_pow2 by lia.
Qed.
End Arithmetic.

(** ** The instructions *)

Section Tables.
Context `{RT : Runtime}.

(** The integer instructions as the language has them, by encoding. *)
Definition java_int_binops : Table :=
  [ (ADD_INT, int_23x (java_int Add));
    (SUB_INT, int_23x (java_int Sub));
    (MUL_INT, int_23x (java_int Mul));
    (DIV_INT, int_23x (java_int Div));
    (REM_INT, int_23x (java_int Rem));
    (SHL_INT, int_23x (java_int Shl));
    (SHR_INT, int_23x (java_int Shr));
    (USHR_INT, int_23x (java_int Ushr));
    (AND_INT, int_23x (java_int And));
    (OR_INT, int_23x (java_int Or));
    (XOR_INT, int_23x (java_int Xor)) ].
Definition java_long_binops : Table :=
  [ (ADD_LONG, long_23x (java_long Add));
    (SUB_LONG, long_23x (java_long Sub));
    (MUL_LONG, long_23x (java_long Mul));
    (DIV_LONG, long_23x (java_long Div));
    (REM_LONG, long_23x (java_long Rem));
    (AND_LONG, long_23x (java_long And));
    (OR_LONG, long_23x (java_long Or));
    (XOR_LONG, long_23x (java_long Xor));
    (SHL_LONG, long_shift_23x (java_long Shl));
    (SHR_LONG, long_shift_23x (java_long Shr));
    (USHR_LONG, long_shift_23x (java_long Ushr)) ].
Definition java_int_binops_2addr : Table :=
  [ (ADD_INT_2ADDR, int_2addr (java_int Add));
    (SUB_INT_2ADDR, int_2addr (java_int Sub));
    (MUL_INT_2ADDR, int_2addr (java_int Mul));
    (DIV_INT_2ADDR, int_2addr (java_int Div));
    (REM_INT_2ADDR, int_2addr (java_int Rem));
    (SHL_INT_2ADDR, int_2addr (java_int Shl));
    (SHR_INT_2ADDR, int_2addr (java_int Shr));
    (USHR_INT_2ADDR, int_2addr (java_int Ushr));
    (AND_INT_2ADDR, int_2addr (java_int And));
    (OR_INT_2ADDR, int_2addr (java_int Or));
    (XOR_INT_2ADDR, int_2addr (java_int Xor)) ].
Definition java_long_binops_2addr : Table :=
  [ (ADD_LONG_2ADDR, long_2addr (java_long Add));
    (SUB_LONG_2ADDR, long_2addr (java_long Sub));
    (MUL_LONG_2ADDR, long_2addr (java_long Mul));
    (DIV_LONG_2ADDR, long_2addr (java_long Div));
    (REM_LONG_2ADDR, long_2addr (java_long Rem));
    (AND_LONG_2ADDR, long_2addr (java_long And));
    (OR_LONG_2ADDR, long_2addr (java_long Or));
    (XOR_LONG_2ADDR, long_2addr (java_long Xor));
    (SHL_LONG_2ADDR, long_shift_2addr (java_long Shl));
    (SHR_LONG_2ADDR, long_shift_2addr (java_long Shr));
    (USHR_LONG_2ADDR, long_shift_2addr (java_long Ushr)) ].
Definition java_int_binops_lit16 : Table :=
  [ (ADD_INT_LIT16, int_lit16 (java_int Add));
    (RSUB_INT_LIT16, int_lit16 (java_int Rsub));
    (MUL_INT_LIT16, int_lit16 (java_int Mul));
    (DIV_INT_LIT16, int_lit16 (java_int Div));
    (REM_INT_LIT16, int_lit16 (java_int Rem));
    (AND_INT_LIT16, int_lit16 (java_int And));
    (OR_INT_LIT16, int_lit16 (java_int Or));
    (XOR_INT_LIT16, int_lit16 (java_int Xor)) ].
Definition java_int_binops_lit8 : Table :=
  [ (ADD_INT_LIT8, int_lit8 (java_int Add));
    (RSUB_INT_LIT8, int_lit8 (java_int Rsub));
    (MUL_INT_LIT8, int_lit8 (java_int Mul));
    (DIV_INT_LIT8, int_lit8 (java_int Div));
    (REM_INT_LIT8, int_lit8 (java_int Rem));
    (AND_INT_LIT8, int_lit8 (java_int And));
    (OR_INT_LIT8, int_lit8 (java_int Or));
    (XOR_INT_LIT8, int_lit8 (java_int Xor));
    (SHL_INT_LIT8, int_lit8 (java_int Shl));
    (SHR_INT_LIT8, int_lit8 (java_int Shr));
    (USHR_INT_LIT8, int_lit8 (java_int Ushr)) ].

Definition java_integer_instructions : Table :=
  java_int_binops ++ java_long_binops ++ java_int_binops_2addr ++ java_long_binops_2addr ++
  java_int_binops_lit16 ++ java_int_binops_lit8.

(** Two operations that agree on operands in range when nothing is pending. *)
Definition same_op (wa wb : Z) (op op' : Z -> Z -> Z -> M unit) : Prop :=
  forall r a b s, in_s wa a -> in_s wb b -> exception s = 0 -> op r a b s = op' r a b s.

Definition same_entry (e e' : Z * Handler) : Prop :=
  e.1 = e'.1 /\
  forall n inst s, (forall i, in_u 16 (inst i)) -> machine_ok n s -> exception s = 0 ->
    e.2 inst s = e'.2 inst s.

(** Reading two operands and applying one of two agreeing operations. *)
Lemma bind_read (get : ShadowFrame -> option Z) (P : Z -> Prop) (k k' : Z -> M Z) s :
  (forall v, get (frame s) = Some v -> P v) -> (forall v, P v -> k v s = k' v s) ->
  (read_frame get ≫= k) s = (read_frame get ≫= k') s.
Proof.
  intros Hp Hk. unfold mbind, M_bind, read_frame. destruct (get (frame s)); [|done]. auto.
Qed.

Lemma vreg_range f i v : GetVReg f i = Some v -> in_s 32 v.
Proof. intros E. unfold GetVReg in E. frame_steps. injection E as <-. apply wrap_s_range. lia. Qed.
Lemma vreg_long_range f i v : GetVRegLong f i = Some v -> in_s 64 v.
Proof. intros E. unfold GetVRegLong in E. frame_steps. injection E as <-. apply wrap_s_range. lia. Qed.

Lemma then_next (c c' : M unit) (k : M Z) s : c s = c' s -> (c ;; k) s = (c' ;; k) s.
Proof. intros E. unfold mbind, M_bind. by rewrite E. Qed.

Lemma same_int_23x o op op' : same_op 32 32 op op' -> same_entry (o, int_23x op) (o, int_23x op').
Proof.
  intros H. split; [done|]. intros n inst s Hu Hs He. simpl. unfold int_23x, vreg.
  eapply bind_read; [apply vreg_range|]. intros a Ha. eapply bind_read; [apply vreg_range|].
  intros b Hb. apply then_next. by apply H.
Qed.
Lemma same_int_2addr o op op' :
  same_op 32 32 op op' -> same_entry (o, int_2addr op) (o, int_2addr op').
Proof.
  intros H. split; [done|]. intros n inst s Hu Hs He. simpl. unfold int_2addr, vreg.
  eapply bind_read; [apply vreg_range|]. intros a Ha. eapply bind_read; [apply vreg_range|].
  intros b Hb. apply then_next. by apply H.
Qed.
Lemma same_int_lit16 o op op' :
  same_op 32 32 op op' -> same_entry (o, int_lit16 op) (o, int_lit16 op').
Proof.
  intros H. split; [done|]. intros n inst s Hu Hs He. simpl. unfold int_lit16, vreg.
  eapply bind_read; [apply vreg_range|]. intros a Ha. apply then_next. apply H; [done| |done].
  unfold VRegC_22s, in_s. pose proof (wrap_s_range 16 (Fetch16 inst 1) ltac:(lia)) as Hr.
  unfold in_s in Hr. pows. lia.
Qed.
Lemma same_int_lit8 o op op' :
  same_op 32 32 op op' -> same_entry (o, int_lit8 op) (o, int_lit8 op').
Proof.
  intros H. split; [done|]. intros n inst s Hu Hs He. simpl. unfold int_lit8, vreg.
  eapply bind_read; [apply vreg_range|]. intros a Ha. apply then_next. apply H; [done| |done].
  unfold VRegC_22b, in_s. pose proof (wrap_s_range 8 (Fetch16 inst 1 >> 8) ltac:(lia)) as Hr.
  unfold in_s in Hr. pows. lia.
Qed.
Lemma same_long_23x o op op' : same_op 64 64 op op' -> same_entry (o, long_23x op) (o, long_23x op').
Proof.
  intros H. split; [done|]. intros n inst s Hu Hs He. simpl. unfold long_23x, vreg_long.
  eapply bind_read; [apply vreg_long_range|]. intros a Ha.
  eapply bind_read; [apply vreg_long_range|]. intros b Hb. apply then_next. by apply H.
Qed.
Lemma same_long_2addr o op op' :
  same_op 64 64 op op' -> same_entry (o, long_2addr op) (o, long_2addr op').
Proof.
  intros H. split; [done|]. intros n inst s Hu Hs He. simpl. unfold long_2addr, vreg_long.
  eapply bind_read; [apply vreg_long_range|]. intros a Ha.
  eapply bind_read; [apply vreg_long_range|]. intros b Hb. apply then_next. by apply H.
Qed.
Lemma same_long_shift_23x o op op' :
  same_op 64 32 op op' -> same_entry (o, long_shift_23x op) (o, long_shift_23x op').
Proof.
  intros H. split; [done|]. intros n inst s Hu Hs He. simpl. unfold long_shift_23x, vreg_long, vreg.
  eapply bind_read; [apply vreg_long_range|]. intros a Ha.
  eapply bind_read; [apply vreg_range|]. intros b Hb. apply then_next. by apply H.
Qed.
Lemma same_long_shift_2addr o op op' :
  same_op 64 32 op op' -> same_entry (o, long_shift_2addr op) (o, long_shift_2addr op').
Proof.
  intros H. split; [done|]. intros n inst s Hu Hs He. simpl. unfold long_shift_2addr, vreg_long, vreg.
  eapply bind_read; [apply vreg_long_range|]. intros a Ha.
  eapply bind_read; [apply vreg_range|]. intros b Hb. apply then_next. by apply H.
Qed.

(** *** The operations *)

Lemma int_div_agrees : same_op 32 32 (fun r a b => DoIntDivide r a b) (java_int Div).
Proof.
  intros r a b s Ha Hb He. unfold DoIntDivide, java_int, java. case_if; [done|].
  case_if; [|done]. bools. split_hyps. subst. reflexivity.
Qed.
Lemma int_rem_agrees : same_op 32 32 (fun r a b => DoIntRemainder r a b) (java_int Rem).
Proof.
  intros r a b s Ha Hb He. unfold DoIntRemainder, java_int, java. case_if; [done|]. bools.
  case_if; bools.
  - split_hyps. subst. reflexivity.
  - unfold set_vreg. by rewrite (rem_agrees 32) by (done || lia).
Qed.

Lemma nothing_pending (c : M unit) s :
  exception s = 0 ->
  (forall u s', c s = Done u s' -> exception s' = 0) -> (c ;; handle_if_pending) s = c s.
Proof.
  intros He H. unfold mbind, M_bind. destruct (c s) as [[] s'| | | | | |] eqn:E; try done.
  unfold handle_if_pending. by rewrite (H _ _ eq_refl).
Qed.

Lemma set_vreg_long_exception r v s u s' :
  set_vreg_long r v s = Done u s' -> exception s' = exception s.
Proof. unfold set_vreg_long, write_frame. destruct (SetVRegLong _ _ _); [|done]. by intros [= _ <-]. Qed.

Lemma long_div_agrees :
  same_op 64 64 (fun r a b => DoLongDivide r a b ;; handle_if_pending) (java_long Div).
Proof.
  intros r a b s Ha Hb He. rewrite nothing_pending; [|done|].
  - unfold DoLongDivide, java_long, java. case_if; [done|]. case_if; [|done]. bools. split_hyps.
    subst. reflexivity.
  - intros u s'. unfold DoLongDivide. repeat case_if; intros E'; [done|..];
      by rewrite (set_vreg_long_exception _ _ _ _ _ E').
Qed.
Lemma long_rem_agrees :
  same_op 64 64 (fun r a b => DoLongRemainder r a b ;; handle_if_pending) (java_long Rem).
Proof.
  intros r a b s Ha Hb He. rewrite nothing_pending; [|done|].
  - unfold DoLongRemainder, java_long, java. case_if; [done|]. bools. case_if; bools.
    + split_hyps. subst. reflexivity.
    + unfold set_vreg_long. by rewrite (rem_agrees 64) by (done || lia).
  - intros u s'. unfold DoLongRemainder. repeat case_if; intros E'; [done|..];
      by rewrite (set_vreg_long_exception _ _ _ _ _ E').
Qed.

Lemma int_shift_agrees a d :
  in_s 32 a ->
  s32 (shl 32 a (d &&& 0x1f)) = s32 (a * 2 ^ (d mod 32)) /\
  s32 (a >> (d &&& 0x1f)) = a / 2 ^ (d mod 32) /\
  s32 (u32 a >> (d &&& 0x1f)) = s32 (a mod 2 ^ 32 / 2 ^ (d mod 32)).
Proof. apply (shift_agrees 32). by left. Qed.
Lemma long_shift_agrees a d :
  in_s 64 a ->
  s64 (shl 64 a (d &&& 0x3f)) = s64 (a * 2 ^ (d mod 64)) /\
  s64 (a >> (d &&& 0x3f)) = a / 2 ^ (d mod 64) /\
  s64 (u64 a >> (d &&& 0x3f)) = s64 (a mod 2 ^ 64 / 2 ^ (d mod 64)).
Proof. apply (shift_agrees 64). by right. Qed.

(** The remaining operations agree by the value lemmas. *)
Ltac plain_op w :=
  let r := fresh "r" in let a := fresh "a" in let b := fresh "b" in
  intros r a b ? ? ? ?; unfold set_vreg, set_vreg_long, java_int, java_long, java;
  first
    [ rewrite (add_agrees w) by (done || lia); reflexivity
    | rewrite (sub_agrees w) by (done || lia); reflexivity
    | rewrite (rsub_agrees w) by (done || lia); reflexivity
    | rewrite (mul_agrees w) by (done || lia); reflexivity
    | rewrite (and_agrees w) by (done || lia); reflexivity
    | rewrite (or_agrees w) by (done || lia); reflexivity
    | rewrite (xor_agrees w) by (done || lia); reflexivity
    | rewrite (proj1 (int_shift_agrees a b ltac:(done))); reflexivity
    | rewrite (proj1 (proj2 (int_shift_agrees a b ltac:(done)))); reflexivity
    | rewrite (proj2 (proj2 (int_shift_agrees a b ltac:(done)))); reflexivity
    | rewrite (proj1 (long_shift_agrees a b ltac:(done))); reflexivity
    | rewrite (proj1 (proj2 (long_shift_agrees a b ltac:(done)))); reflexivity
    | rewrite (proj2 (proj2 (long_shift_agrees a b ltac:(done)))); reflexivity ].

Ltac agreeing w encode div_lemma rem_lemma :=
  repeat (apply Forall2_cons; [encode; first [exact div_lemma|exact rem_lemma|plain_op w]|]);
  apply Forall2_nil.

Lemma int_binops_agree : Forall2 same_entry int_binops java_int_binops.
Proof. agreeing 32 ltac:(apply same_int_23x) int_div_agrees int_rem_agrees. Qed.
Lemma int_binops_2addr_agree : Forall2 same_entry int_binops_2addr java_int_binops_2addr.
Proof. agreeing 32 ltac:(apply same_int_2addr) int_div_agrees int_rem_agrees. Qed.
Lemma int_binops_lit16_agree : Forall2 same_entry int_binops_lit16 java_int_binops_lit16.
Proof. agreeing 32 ltac:(apply same_int_lit16) int_div_agrees int_rem_agrees. Qed.
Lemma int_binops_lit8_agree : Forall2 same_entry int_binops_lit8 java_int_binops_lit8.
Proof. agreeing 32 ltac:(apply same_int_lit8) int_div_agrees int_rem_agrees. Qed.
Lemma long_binops_agree : Forall2 same_entry long_binops java_long_binops.
Proof.
  agreeing 64 ltac:(first [apply same_long_23x|apply same_long_shift_23x])
    long_div_agrees long_rem_agrees.
Qed.
Lemma long_binops_2addr_agree : Forall2 same_entry long_binops_2addr java_long_binops_2addr.
Proof.
  agreeing 64 ltac:(first [apply same_long_2addr|apply same_long_shift_2addr])
    long_div_agrees long_rem_agrees.
Qed.

Definition integer_instructions : Table :=
  int_binops ++ long_binops ++ int_binops_2addr ++ long_binops_2addr ++ int_binops_lit16 ++
  int_binops_lit8.

Lemma integer_instructions_agree : Forall2 same_entry integer_instructions java_integer_instructions.
Proof.
  repeat (apply Forall2_app; [auto using int_binops_agree, long_binops_agree,
    int_binops_2addr_agree, long_binops_2addr_agree, int_binops_lit16_agree|]).
  apply int_binops_lit8_agree.
Qed.

(** The dispatch table has one entry per opcode. *)
Lemma dispatch_distinct one : NoDup (map fst (dispatch one)).
Proof.
  assert (map fst (dispatch one) = map fst (dispatch false)) as -> by reflexivity.
  apply (bool_decide_unpack _). vm_compute. done.
Qed.

Lemma handler_of_entry one op h : (op, h) ∈ dispatch one -> handler_of one op = h.
Proof.
  intros Hin. unfold handler_of. pose proof (dispatch_distinct one) as Hd.
  induction (dispatch one) as [|[op' h'] l IH]; [by apply not_elem_of_nil in Hin|].
  inversion Hd as [|? ? Hn Hd']; subst. simpl. destruct (Z.eqb_spec op' op) as [->|Hne].
  - apply elem_of_cons in Hin as [[= ->]|Hin]; [done|].
    destruct Hn. apply list_elem_of_fmap. by exists (op, h).
  - apply elem_of_cons in Hin as [[= -> ->]|Hin]; [done|]. by apply IH.
Qed.

Lemma integer_in_dispatch one e : e ∈ integer_instructions -> e ∈ dispatch one.
Proof.
  unfold integer_instructions, dispatch. rewrite !elem_of_app. tauto.
Qed.
End Tables.



(** ** [fill-array-data] *)

(** [fill-array-data v0, +4; return-void] and a payload of 2-byte elements whose
    count is [2^31 + 1]. *)
Definition fill_code : mem := store_list (fun _ => 0) 0
  [0x26; 0; 4; 0; 0; 0;  0x0e; 0;  0; 3; 2; 0; 1; 0; 0; 0x80;  0xef; 0xbe].
Definition fill_item : CodeItem :=
  {| registers_size_ := 1; ins_size_ := 0; outs_size_ := 0; tries_size_ := 0;
     debug_info_off_ := 0; insns_size_in_code_units_ := 9; insns_ := 0 |}.

(** The element count of an array payload is compared with the array's length as
    a signed number, and the sizes of the payload are computed modulo 2^32: the
    method passes the static verifier, the length check of an empty array of
    shorts succeeds, and the copy writes past its end. *)
Lemma fill_array_data_overflows :
  (exists v, VerifyStatic fill_code fill_item empty_header true initial_state = Some (true, v)) /\
  let payload := RelativeAt (inst_at fill_code fill_item 0) 4 in
  let array := {| component := kShortArray; elements := [] |} in
  GetLength array <? s32 (Fetch32 payload 2) = false /\
  u32 (Fetch32 payload 2 * Fetch16 payload 1) = 2 /\
  forall (RT : Runtime) s, frame s = {| number_of_vregs := 1; vregs := [100; 100]; dex_pc := 0 |} ->
    heap s = {[ 100 := array ]} ->
    execute_instruction fill_code fill_item false 0 s = BadObject.
Proof.
  split; [eexists; vm_compute; reflexivity|]. split; [vm_compute; reflexivity|].
  split; [vm_compute; reflexivity|]. intros RT [f r e h] Hf Hh. simpl in *. subst f h.
  reflexivity.
Qed.
