(* ===== verification/IndirectReferenceTable.v ===== *)
(** * Indirect reference tables ([runtime/indirect_reference_table.h],
      [indirect_reference_table-inl.h], [indirect_reference_table.cc])

    JNI code holds objects through references that encode a table index, a serial
    number and a kind.  The table is an array of entries; its live part is divided
    into segments by the cookies of the callers, and entries removed from the middle
    of the top segment leave holes that later additions fill.  Operations run in a
    state monad whose failures are the ones of the source: [Abort] is [LOG(FATAL)] or
    a failed check, [Fault] an access outside the table. *)
From S2P Require Import Prelude BitUtils.

(** What the table takes from its surroundings: the build mode, the pointer width,
    whether CheckJNI is on, whether memory of a size can be mapped, and the handles
    on the stack of the current thread. *)
Class IrtConfig := {
  kIsDebugBuild : bool;
  pointer_bits : Z;
  IsCheckJniEnabled : bool;
  MapAnonymous : Z -> bool;
  HandleScopeContains : Z -> bool;
  pointer_bits_ok : pointer_bits = 32 \/ pointer_bits = 64
}.

(** ** Entries *)

Inductive IndirectRefKind := kHandleScopeOrInvalid | kLocal | kGlobal | kWeakGlobal.

#[export] Instance IndirectRefKind_eq_dec : EqDecision IndirectRefKind.
Proof. solve_decision. Defined.

Definition kLastKind : Z := 3.
Definition kPageSize : Z := 4096.
Definition kMaxTableSizeInBytes : Z := 128 * (1024 * 1024).
Definition kIRTFirstSegment : Z := 0.

Record IrtEntry := { serial_ : Z; references_ : list Z }.

Section Table.
Context `{Cfg : IrtConfig}.

Definition kIRTPrevCount : Z := if kIsDebugBuild then 7 else 3.
Definition sizeof_IrtEntry : Z := (1 + kIRTPrevCount) * 4.

(** Fresh memory: serial 0 and null references. *)
Definition zero_entry : IrtEntry :=
  {| serial_ := 0; references_ := replicate (Z.to_nat kIRTPrevCount) 0 |}.

(** [*GetReference()], null being 0. *)
Definition GetReference (e : IrtEntry) : option Z := references_ e !! Z.to_nat (serial_ e).

Definition SetReference (e : IrtEntry) (obj : Z) : IrtEntry :=
  {| serial_ := serial_ e; references_ := <[Z.to_nat (serial_ e) := obj]> (references_ e) |}.

Definition IrtEntry_Add (e : IrtEntry) (obj : Z) : IrtEntry :=
  let serial := u32 (serial_ e + 1) in
  let serial := if serial =? kIRTPrevCount then 0 else serial in
  {| serial_ := serial; references_ := <[Z.to_nat serial := obj]> (references_ e) |}.

(** ** Encoding of references *)

Definition kSerialBits : Z := MinimumBitsToStore pointer_bits kIRTPrevCount.
Definition kShiftedSerialMask : Z := u32 ((1 << kSerialBits) - 1).
Definition kKindBits : Z := MinimumBitsToStore 32 kLastKind.
Definition kKindMask : Z := u32 ((1 << kKindBits) - 1).

Definition EncodeIndex (table_index : Z) : Z :=
  wrap_u pointer_bits (wrap_u pointer_bits (table_index << kKindBits) << kSerialBits).
Definition DecodeIndex (uref : Z) : Z := u32 ((uref >> kKindBits) >> kSerialBits).

Definition EncodeIndirectRefKind (kind : IndirectRefKind) : Z :=
  match kind with
  | kHandleScopeOrInvalid => 0
  | kLocal => 1
  | kGlobal => 2
  | kWeakGlobal => 3
  end.
Definition DecodeIndirectRefKind (uref : Z) : IndirectRefKind :=
  let k := uref &&& kKindMask in
  if k =? 1 then kLocal else if k =? 2 then kGlobal else if k =? 3 then kWeakGlobal
  else kHandleScopeOrInvalid.

Definition EncodeSerial (serial : Z) : Z := u32 (serial << kKindBits).
Definition DecodeSerial (uref : Z) : Z := u32 (uref >> kKindBits) &&& kShiftedSerialMask.

Definition EncodeIndirectRef (kind : IndirectRefKind) (table_index serial : Z) : Z :=
  EncodeIndex table_index ||| EncodeSerial serial ||| EncodeIndirectRefKind kind.

Definition GetIndirectRefKind (iref : Z) : IndirectRefKind := DecodeIndirectRefKind iref.
Definition ExtractIndex (iref : Z) : Z := DecodeIndex iref.
End Table.

(** ** The table *)

Record IRT := {
  segment_state_ : Z;
  table_ : list IrtEntry;
  kind_ : IndirectRefKind;
  max_entries_ : Z;
  current_num_holes_ : Z;
  last_known_previous_state_ : Z;
  resizable_ : bool
}.

Inductive Result (A : Type) := Ok (a : A) (t : IRT) | Abort | Fault.
Arguments Ok {A} a t.
Arguments Abort {A}.
Arguments Fault {A}.

Definition T (A : Type) : Type := IRT -> Result A.
#[export] Instance T_ret : MRet T := fun A a t => Ok a t.
#[export] Instance T_bind : MBind T := fun A B k c t =>
  match c t with Ok a t => k a t | Abort => Abort | Fault => Fault end.

Definition get : T IRT := fun t => Ok t t.
Definition abort {A} : T A := fun _ => Abort.
Definition fault {A} : T A := fun _ => Fault.

(** Assignments to the fields. *)
Definition with_top (t : IRT) (i : Z) : IRT :=
  {| segment_state_ := i; table_ := table_ t; kind_ := kind_ t; max_entries_ := max_entries_ t;
     current_num_holes_ := current_num_holes_ t;
     last_known_previous_state_ := last_known_previous_state_ t; resizable_ := resizable_ t |}.
Definition with_holes (t : IRT) (n : Z) : IRT :=
  {| segment_state_ := segment_state_ t; table_ := table_ t; kind_ := kind_ t;
     max_entries_ := max_entries_ t; current_num_holes_ := n;
     last_known_previous_state_ := last_known_previous_state_ t; resizable_ := resizable_ t |}.
Definition with_last_known (t : IRT) (i : Z) : IRT :=
  {| segment_state_ := segment_state_ t; table_ := table_ t; kind_ := kind_ t;
     max_entries_ := max_entries_ t; current_num_holes_ := current_num_holes_ t;
     last_known_previous_state_ := i; resizable_ := resizable_ t |}.
Definition with_table (t : IRT) (tab : list IrtEntry) (max : Z) : IRT :=
  {| segment_state_ := segment_state_ t; table_ := tab; kind_ := kind_ t;
     max_entries_ := max; current_num_holes_ := current_num_holes_ t;
     last_known_previous_state_ := last_known_previous_state_ t; resizable_ := resizable_ t |}.
Definition set_top (i : Z) : T unit := fun t => Ok tt (with_top t i).
Definition set_holes (n : Z) : T unit := fun t => Ok tt (with_holes t n).
Definition set_last_known (i : Z) : T unit := fun t => Ok tt (with_last_known t i).
Definition set_table (tab : list IrtEntry) (max : Z) : T unit := fun t =>
  Ok tt (with_table t tab max).

(** [table_[i]] read, its reference read, and [table_[i]] written. *)
Definition entry_at (i : Z) : T IrtEntry := fun t =>
  if 0 <=? i then
    match table_ t !! Z.to_nat i with Some e => Ok e t | None => Fault end
  else Fault.
Definition read_ref (i : Z) : T Z := fun t =>
  match entry_at i t with
  | Ok e t => match GetReference e with Some r => Ok r t | None => Fault end
  | Abort => Abort
  | Fault => Fault
  end.
Definition update_entry (i : Z) (f : IrtEntry -> IrtEntry) : T unit := fun t =>
  if (0 <=? i) && (i <? Z.of_nat (length (table_ t)))
  then set_table (alter f (Z.to_nat i) (table_ t)) (max_entries_ t) t
  else Fault.

Section Operations.
Context `{Cfg : IrtConfig}.

(** [CHECK(b)] and [DCHECK(b)]; the condition of the latter is not evaluated in
    release builds. *)
Definition check (b : bool) : T unit := if b then mret tt else abort.
Definition dcheck (b : T bool) : T unit :=
  if kIsDebugBuild then c ← b; check c else mret tt.
Definition is_null (i : Z) : T bool := r ← read_ref i; mret (r =? 0).
Definition not_null (i : Z) : T bool := r ← read_ref i; mret (negb (r =? 0)).

(** [AbortIfNoCheckJNI(msg)] *)
Definition AbortIfNoCheckJNI : T unit := if IsCheckJniEnabled then mret tt else abort.

Definition ToIndirectRef (table_index : Z) : T Z :=
  t ← get;
  dcheck (mret (table_index <? max_entries_ t));;
  e ← entry_at table_index;
  mret (EncodeIndirectRef (kind_ t) table_index (serial_ e)).

Definition Capacity : T Z := t ← get; mret (segment_state_ t).

(** The constructor; [None] when its checks fail or no memory can be mapped. *)
Definition IndirectReferenceTable (max_count : Z) (desired_kind : IndirectRefKind)
    (resizable : bool) : option IRT :=
  if bool_decide (desired_kind = kHandleScopeOrInvalid) then None
  else if kMaxTableSizeInBytes / sizeof_IrtEntry <? max_count then None
  else if MapAnonymous (wrap_u pointer_bits (max_count * sizeof_IrtEntry)) then
    Some {| segment_state_ := kIRTFirstSegment;
            table_ := replicate (Z.to_nat max_count) zero_entry;
            kind_ := desired_kind; max_entries_ := max_count; current_num_holes_ := 0;
            last_known_previous_state_ := kIRTFirstSegment; resizable_ := resizable |}
  else None.

(** ** Holes *)

Fixpoint count_nulls (n : nat) (index count : Z) : T Z :=
  match n with
  | O => mret count
  | S n =>
      null ← is_null index;
      count_nulls n (index + 1) (if null : bool then count + 1 else count)
  end.

(** The loop runs until [index] equals [to], so [from] must not be above it. *)
Definition CountNullEntries (from to : Z) : T Z :=
  if to <? from then fault else count_nulls (Z.to_nat (to - from)) from 0.

Definition RecoverHoles (prev_state : Z) : T unit :=
  t ← get;
  if (segment_state_ t <=? last_known_previous_state_ t)
     || (last_known_previous_state_ t <? prev_state)
  then
    count ← CountNullEntries prev_state (segment_state_ t);
    set_holes count;; set_last_known prev_state
  else mret tt.

Definition CheckHoleCount (prev_state : Z) : T unit :=
  t ← get;
  dcheck (count ← CountNullEntries prev_state (segment_state_ t);
          mret (current_num_holes_ t =? count)).

(** ** Growing *)

Definition kMaxEntries : Z := kMaxTableSizeInBytes / sizeof_IrtEntry.

Definition Resize (new_size : Z) : T bool :=
  t ← get;
  check (max_entries_ t <? new_size);;
  if kMaxEntries <? new_size then mret false
  else if negb (MapAnonymous (new_size * sizeof_IrtEntry)) then mret false
  else
    set_table (table_ t ++ replicate (Z.to_nat (new_size - max_entries_ t)) zero_entry) new_size;;
    mret true.

Definition FreeCapacity : T Z :=
  t ← get; mret (wrap_u pointer_bits (max_entries_ t - segment_state_ t)).

Definition EnsureFreeCapacity (free_capacity : Z) : T bool :=
  t ← get;
  let top_index := segment_state_ t in
  if (top_index <? max_entries_ t)
     && (wrap_u pointer_bits (top_index + free_capacity) <=? max_entries_ t)
  then mret true
  else if negb (resizable_ t) then mret false
  else if 2 ^ pointer_bits - 1 - free_capacity <? top_index then mret false
  else Resize (top_index + free_capacity).

(** ** Add *)

(** The scan for a hole below the last entry of the segment. *)
Fixpoint find_hole (fuel : nat) (previous_state p_scan : Z) : T Z :=
  match fuel with
  | O => fault
  | S fuel =>
      null ← is_null p_scan;
      if null : bool then mret p_scan
      else
        dcheck (mret (previous_state <=? p_scan));;
        find_hole fuel previous_state (p_scan - 1)
  end.

(** Doubles a full table. *)
Definition make_room : T unit :=
  t ← get;
  if segment_state_ t =? max_entries_ t then
    if negb (resizable_ t) then abort
    else if (2 ^ pointer_bits - 1) / 2 <? max_entries_ t then abort
    else ok ← Resize (max_entries_ t * 2); check ok
  else mret tt.

Definition choose_index (previous_state : Z) : T Z :=
  t ← get;
  let top_index := segment_state_ t in
  if 0 <? current_num_holes_ t then
    dcheck (mret (1 <? top_index));;
    dcheck (not_null (top_index - 1));;
    index ← find_hole (Z.to_nat top_index) previous_state (top_index - 2);
    set_holes (current_num_holes_ t - 1);;
    mret index
  else
    set_top (u32 (top_index + 1));;
    mret top_index.

Definition Add (previous_state obj : Z) : T Z :=
  check (negb (obj =? 0));;
  make_room;;
  RecoverHoles previous_state;;
  CheckHoleCount previous_state;;
  index ← choose_index previous_state;
  update_entry index (fun e => IrtEntry_Add e obj);;
  result ← ToIndirectRef index;
  dcheck (mret (negb (result =? 0)));;
  mret result.

(** ** Lookup *)

Definition CheckEntry (iref idx : Z) : T bool :=
  checkRef ← ToIndirectRef idx;
  if negb (checkRef =? iref) then AbortIfNoCheckJNI;; mret false else mret true.

Definition GetChecked (iref : Z) : T bool :=
  if iref =? 0 then mret false
  else if bool_decide (GetIndirectRefKind iref = kHandleScopeOrInvalid)
  then AbortIfNoCheckJNI;; mret false
  else
    t ← get;
    let idx := ExtractIndex iref in
    if segment_state_ t <=? idx then AbortIfNoCheckJNI;; mret false
    else
      null ← is_null idx;
      if null : bool then AbortIfNoCheckJNI;; mret false
      else CheckEntry iref idx.

Definition Get (iref : Z) : T Z :=
  ok ← GetChecked iref;
  if ok : bool then read_ref (ExtractIndex iref) else mret 0.

Definition Update (iref obj : Z) : T unit :=
  ok ← GetChecked iref;
  if ok : bool then update_entry (ExtractIndex iref) (fun e => SetReference e obj) else mret tt.

(** ** Remove *)

(** [while (--collapse_top_index > bottom_index && current_num_holes_ != 0)] *)
Fixpoint collapse (fuel : nat) (bottom_index collapse_top_index : Z) : T Z :=
  match fuel with
  | O => fault
  | S fuel =>
      let collapse_top_index := collapse_top_index - 1 in
      t ← get;
      if (bottom_index <? collapse_top_index) && negb (current_num_holes_ t =? 0) then
        null ← is_null (collapse_top_index - 1);
        if null : bool then
          set_holes (current_num_holes_ t - 1);;
          collapse fuel bottom_index collapse_top_index
        else mret collapse_top_index
      else mret collapse_top_index
  end.

Definition remove_top (previous_state iref idx top_index : Z) : T bool :=
  ok ← CheckEntry iref idx;
  if negb ok then mret false
  else
    update_entry idx (fun e => SetReference e 0);;
    t ← get;
    if negb (current_num_holes_ t =? 0) then
      c ← collapse (S (Z.to_nat top_index)) previous_state top_index;
      set_top c;; CheckHoleCount previous_state;; mret true
    else set_top (top_index - 1);; mret true.

Definition remove_inner (previous_state iref idx : Z) : T bool :=
  null ← is_null idx;
  if null : bool then mret false
  else
    ok ← CheckEntry iref idx;
    if negb ok then mret false
    else
      update_entry idx (fun e => SetReference e 0);;
      t ← get;
      set_holes (current_num_holes_ t + 1);;
      CheckHoleCount previous_state;; mret true.

Definition Remove (previous_state iref : Z) : T bool :=
  t ← get;
  let top_index := segment_state_ t in
  let bottom_index := previous_state in
  if bool_decide (GetIndirectRefKind iref = kHandleScopeOrInvalid) && HandleScopeContains iref
  then mret true
  else
    let idx := ExtractIndex iref in
    if idx <? bottom_index then mret false
    else if top_index <=? idx then mret false
    else
      RecoverHoles previous_state;;
      CheckHoleCount previous_state;;
      if idx =? top_index - 1 then remove_top previous_state iref idx top_index
      else remove_inner previous_state iref idx.

(** ** Segments, roots and memory *)

Definition SetSegmentState (new_state : Z) : T unit := set_top new_state.

(** The references [VisitRoots] hands to its visitor, in order. *)
Fixpoint visit_from (n : nat) (i : Z) : T (list Z) :=
  match n with
  | O => mret []
  | S n =>
      r ← read_ref i;
      rest ← visit_from n (i + 1);
      mret (if r =? 0 then rest else r :: rest)
  end.
Definition VisitRoots : T (list Z) :=
  c ← Capacity; visit_from (Z.to_nat c) 0.

Fixpoint assert_empty_from (n : nat) (i : Z) : T unit :=
  match n with
  | O => mret tt
  | S n => null ← is_null i; check null;; assert_empty_from n (i + 1)
  end.
Definition AssertEmpty : T unit := c ← Capacity; assert_empty_from (Z.to_nat c) 0.

(** [madvise(MADV_DONTNEED)] on the whole pages past the last entry: they read as
    zero afterwards.  The table starts at a page boundary. *)
Definition Trim : T unit :=
  t ← get;
  let release_start :=
    RoundUp pointer_bits (segment_state_ t * sizeof_IrtEntry) kPageSize / sizeof_IrtEntry in
  let n := Z.to_nat (Z.min release_start (max_entries_ t)) in
  set_table (take n (table_ t) ++ replicate (length (drop n (table_ t))) zero_entry)
    (max_entries_ t).
End Operations.
