(* ===== verification/IndirectReferenceTableFacts.v ===== *)
(** * Facts about indirect reference tables

    The encoding of references, the invariant of a table with its stack of segments,
    and the effect of each operation under it. *)
From S2P Require Import Prelude BitUtils IndirectReferenceTable.

Section Encoding.
Context `{Cfg : IrtConfig}.

Definition serial_bits : Z := if kIsDebugBuild then 3 else 2.

Lemma kSerialBits_eq : kSerialBits = serial_bits.
Proof.
  unfold kSerialBits, kIRTPrevCount, serial_bits.
  destruct pointer_bits_ok as [-> | ->]; destruct kIsDebugBuild; reflexivity.
Qed.

Lemma kIRTPrevCount_range : 3 <= kIRTPrevCount <= 2 ^ serial_bits - 1.
Proof. unfold kIRTPrevCount, serial_bits. destruct kIsDebugBuild; pows; lia. Qed.

Lemma kMaxEntries_eq : kMaxEntries = if kIsDebugBuild then 2 ^ 22 else 2 ^ 23.
Proof. unfold kMaxEntries, sizeof_IrtEntry, kIRTPrevCount. by destruct kIsDebugBuild. Qed.

Lemma kMaxEntries_range : 0 < kMaxEntries <= 2 ^ 23.
Proof. rewrite kMaxEntries_eq. destruct kIsDebugBuild; pows; lia. Qed.

(** A reference is its kind, serial and index side by side. *)
Lemma EncodeIndirectRef_eq kind i s :
  0 <= i < kMaxEntries -> 0 <= s < kIRTPrevCount ->
  EncodeIndirectRef kind i s =
  EncodeIndirectRefKind kind + s * 2 ^ 2 + i * 2 ^ (2 + serial_bits).
Proof.
  intros Hi Hs. pose proof kMaxEntries_range as Hm. pose proof kIRTPrevCount_range as Hp.
  unfold EncodeIndirectRef, EncodeIndex, EncodeSerial. rewrite kSerialBits_eq.
  change kKindBits with 2.
  assert (0 <= EncodeIndirectRefKind kind < 2 ^ 2) as Hk by (destruct kind; simpl; lia).
  assert (in_u pointer_bits (i << 2) /\
          in_u pointer_bits ((i << 2) << serial_bits)) as [E1 E2].
  { unfold in_u, serial_bits. rewrite !Z.shiftl_mul_pow2 by (destruct kIsDebugBuild; lia).
    destruct pointer_bits_ok as [-> | ->]; destruct kIsDebugBuild; pows; lia. }
  rewrite (wrap_u_id _ _ E1), (wrap_u_id _ _ E2).
  rewrite (wrap_u_id 32) by
    (unfold in_u, serial_bits in *; rewrite Z.shiftl_mul_pow2 by lia;
     destruct kIsDebugBuild; pows; lia).
  rewrite Z.shiftl_shiftl by lia.
  rewrite <- Z.lor_assoc, (shiftl_lor (EncodeIndirectRefKind kind) s 2) by (pows; lia).
  rewrite shiftl_lor; [lia|unfold serial_bits; destruct kIsDebugBuild; lia|].
  unfold serial_bits in *. destruct kIsDebugBuild; pows; lia.
Qed.

(** The decoders invert the encoding. *)
Lemma decode_encoded kind i s :
  0 <= i < kMaxEntries -> 0 <= s < kIRTPrevCount ->
  let r := EncodeIndirectRef kind i s in
  ExtractIndex r = i /\ DecodeSerial r = s /\ GetIndirectRefKind r = kind.
Proof.
  intros Hi Hs r. subst r. rewrite EncodeIndirectRef_eq by done.
  pose proof kMaxEntries_range as Hm. pose proof kIRTPrevCount_range as Hp.
  unfold ExtractIndex, DecodeIndex, DecodeSerial, GetIndirectRefKind, DecodeIndirectRefKind.
  unfold kShiftedSerialMask. rewrite !kSerialBits_eq. change kKindBits with 2.
  change kKindMask with (2 ^ 2 - 1). rewrite land_ones_mod by lia.
  replace (u32 ((1 << serial_bits) - 1)) with (2 ^ serial_bits - 1)
    by (unfold serial_bits; by destruct kIsDebugBuild).
  assert (0 <= EncodeIndirectRefKind kind < 4) as Hk by (destruct kind; simpl; lia).
  assert ((EncodeIndirectRefKind kind + s * 2 ^ 2 + i * 2 ^ (2 + serial_bits)) mod 2 ^ 2 =
          EncodeIndirectRefKind kind) as Ek
    by (unfold serial_bits; destruct kIsDebugBuild; pows; zdiv).
  split_and!; [| |rewrite Ek; by destruct kind];
    unfold serial_bits in *; rewrite ?land_ones_mod by (destruct kIsDebugBuild; lia);
    rewrite !Z.shiftr_div_pow2 by (destruct kIsDebugBuild; lia); unfold wrap_u;
    clear Ek; destruct kIsDebugBuild; pows; zdiv.
Qed.

Lemma EncodeIndirectRef_inj kind i s i' s' :
  0 <= i < kMaxEntries -> 0 <= s < kIRTPrevCount ->
  0 <= i' < kMaxEntries -> 0 <= s' < kIRTPrevCount ->
  EncodeIndirectRef kind i s = EncodeIndirectRef kind i' s' -> i = i' /\ s = s'.
Proof.
  intros Hi Hs Hi' Hs' E.
  destruct (decode_encoded kind i s Hi Hs) as (H1 & H2 & _).
  destruct (decode_encoded kind i' s' Hi' Hs') as (H1' & H2' & _).
  rewrite E in H1, H2. split; congruence.
Qed.

Lemma EncodeIndirectRef_nonzero kind i s :
  0 <= i < kMaxEntries -> 0 <= s < kIRTPrevCount -> kind <> kHandleScopeOrInvalid ->
  0 < EncodeIndirectRef kind i s.
Proof.
  intros Hi Hs Hk. rewrite EncodeIndirectRef_eq by done.
  assert (0 < EncodeIndirectRefKind kind) by (destruct kind; simpl; [done|lia..]).
  assert (0 <= i * 2 ^ (2 + serial_bits)) by (apply Z.mul_nonneg_nonneg; lia). lia.
Qed.
End Encoding.

(** ** Counting nulls *)

Fixpoint nulls_from (f : Z -> Z) (n : nat) (i : Z) : Z :=
  match n with
  | O => 0
  | S n => (if f i =? 0 then 1 else 0) + nulls_from f n (i + 1)
  end.

(** The nulls of [f] in [[lo, hi)]. *)
Definition nulls (f : Z -> Z) (lo hi : Z) : Z := nulls_from f (Z.to_nat (hi - lo)) lo.

Lemma nulls_from_ext f g n i :
  (forall j, i <= j < i + Z.of_nat n -> f j = g j) -> nulls_from f n i = nulls_from g n i.
Proof.
  revert i. induction n as [|n IH]; intros i H; simpl; [done|].
  rewrite (H i) by lia. by rewrite (IH (i + 1)) by (intros; apply H; lia).
Qed.

Lemma nulls_from_nonneg f n i : 0 <= nulls_from f n i.
Proof. revert i. induction n as [|n IH]; intros i; simpl; [lia|]. specialize (IH (i + 1)). case_if; lia. Qed.

Lemma nulls_from_app f n k i :
  nulls_from f (n + k) i = nulls_from f n i + nulls_from f k (i + Z.of_nat n).
Proof.
  revert i. induction n as [|n IH]; intros i; cbn [nulls_from Nat.add]; [rewrite Z.add_0_r; lia|].
  rewrite IH. replace (i + 1 + Z.of_nat n) with (i + Z.of_nat (S n)) by lia. lia.
Qed.

Lemma nulls_ext f g lo hi : (forall j, lo <= j < hi -> f j = g j) -> nulls f lo hi = nulls g lo hi.
Proof. intros H. apply nulls_from_ext. intros j Hj. apply H. lia. Qed.

Lemma nulls_nonneg f lo hi : 0 <= nulls f lo hi.
Proof. apply nulls_from_nonneg. Qed.

Lemma nulls_empty f lo hi : hi <= lo -> nulls f lo hi = 0.
Proof. intros. unfold nulls. by replace (Z.to_nat (hi - lo)) with O by lia. Qed.

Lemma nulls_split f lo mid hi :
  lo <= mid <= hi -> nulls f lo hi = nulls f lo mid + nulls f mid hi.
Proof.
  intros. unfold nulls. replace (Z.to_nat (hi - lo)) with
    (Z.to_nat (mid - lo) + Z.to_nat (hi - mid))%nat by lia.
  rewrite nulls_from_app. do 2 f_equal. lia.
Qed.

Lemma nulls_one f i : nulls f i (i + 1) = if f i =? 0 then 1 else 0.
Proof. unfold nulls. replace (Z.to_nat (i + 1 - i)) with 1%nat by lia. simpl. lia. Qed.

(** The count at the top end. *)
Lemma nulls_last f lo hi :
  lo < hi -> nulls f lo hi = nulls f lo (hi - 1) + (if f (hi - 1) =? 0 then 1 else 0).
Proof.
  intros. rewrite (nulls_split f lo (hi - 1) hi) by lia. f_equal.
  rewrite <- nulls_one. f_equal. lia.
Qed.

Lemma nulls_from_pos f n i :
  0 < nulls_from f n i -> exists j, i <= j < i + Z.of_nat n /\ f j = 0.
Proof.
  revert i. induction n as [|n IH]; intros i H; cbn [nulls_from] in H; [lia|].
  destruct (Z.eqb_spec (f i) 0) as [E|E]; [exists i; split; [lia|done]|].
  destruct (IH (i + 1)) as (j & Hj & Ej); [lia|]. exists j. split; [lia|done].
Qed.

Lemma nulls_pos f lo hi : 0 < nulls f lo hi -> exists j, lo <= j < hi /\ f j = 0.
Proof. intros (j & Hj & E)%nulls_from_pos. exists j. split; [lia|done]. Qed.

Lemma nulls_zero f lo hi j : nulls f lo hi = 0 -> lo <= j < hi -> f j <> 0.
Proof.
  intros H Hj E. rewrite (nulls_split f lo j hi), (nulls_split f j (j + 1) hi), nulls_one in H by lia.
  rewrite E in H. simpl in H. pose proof (nulls_nonneg f lo j). pose proof (nulls_nonneg f (j + 1) hi).
  lia.
Qed.

(** The count after a change of one entry. *)
Lemma nulls_update f g lo hi j :
  lo <= j < hi -> (forall k, lo <= k < hi -> k <> j -> g k = f k) ->
  nulls g lo hi =
  nulls f lo hi - (if f j =? 0 then 1 else 0) + (if g j =? 0 then 1 else 0).
Proof.
  intros Hj H. rewrite !(nulls_split _ lo j hi), !(nulls_split _ j (j + 1) hi), !nulls_one by lia.
  rewrite (nulls_ext g f lo j), (nulls_ext g f (j + 1) hi) by (intros; apply H; lia). lia.
Qed.

(** ** The invariant *)

(** The segments below [hi] given the cookies of the callers, innermost first. *)
Fixpoint segments (hi : Z) (bases : list Z) : list (Z * Z) :=
  match bases with
  | [] => []
  | lo :: rest => (lo, hi) :: segments lo rest
  end.

(** Cookies descend to the first segment. *)
Fixpoint descending (hi : Z) (bases : list Z) : Prop :=
  match bases with
  | [] => hi = kIRTFirstSegment
  | lo :: rest => lo <= hi /\ descending lo rest
  end.

Lemma descending_nonneg hi bases : descending hi bases -> 0 <= hi.
Proof.
  revert hi. induction bases as [|lo rest IH]; simpl; intros hi.
  - unfold kIRTFirstSegment. lia.
  - intros [H1 H2%IH]. lia.
Qed.

Lemma segments_bounds hi bases lo h :
  descending hi bases -> (lo, h) ∈ segments hi bases -> 0 <= lo <= h /\ h <= hi.
Proof.
  revert hi. induction bases as [|b rest IH]; simpl; intros hi Hd Hin.
  - by apply not_elem_of_nil in Hin.
  - destruct Hd as [H1 H2]. pose proof (descending_nonneg _ _ H2).
    apply elem_of_cons in Hin as [[= -> ->]|Hin]; [lia|].
    destruct (IH b H2 Hin). lia.
Qed.

Section Invariant.
Context `{Cfg : IrtConfig}.

Definition entry_ok (e : IrtEntry) : Prop :=
  0 <= serial_ e < kIRTPrevCount /\ length (references_ e) = Z.to_nat kIRTPrevCount.

(** The reference and serial of an entry. *)
Definition ref_at (t : IRT) (i : Z) : Z :=
  match table_ t !! Z.to_nat i with Some e => default 0 (GetReference e) | None => 0 end.
Definition serial_at (t : IRT) (i : Z) : Z :=
  match table_ t !! Z.to_nat i with Some e => serial_ e | None => 0 end.

Record table_ok (t : IRT) : Prop := {
  table_length : Z.of_nat (length (table_ t)) = max_entries_ t;
  max_bound : max_entries_ t <= kMaxEntries;
  top_bound : 0 <= segment_state_ t <= max_entries_ t;
  entries_ok : Forall entry_ok (table_ t);
  kind_valid : kind_ t <> kHandleScopeOrInvalid
}.

(** A segment that is not empty ends in a live entry. *)
Definition tight (t : IRT) (seg : Z * Z) : Prop :=
  fst seg < snd seg -> ref_at t (snd seg - 1) <> 0.

(** The cached hole count is that of some segment, or known to be out of date. *)
Definition holes_known (t : IRT) (bases : list Z) : Prop :=
  segment_state_ t <= last_known_previous_state_ t \/
  exists lo hi, (lo, hi) ∈ segments (segment_state_ t) bases /\ lo < hi /\
    last_known_previous_state_ t = lo /\ current_num_holes_ t = nulls (ref_at t) lo hi.

Record irt_ok (t : IRT) (bases : list Z) : Prop := {
  irt_table : table_ok t;
  irt_bases : descending (segment_state_ t) bases;
  irt_tight : Forall (tight t) (segments (segment_state_ t) bases);
  irt_holes : holes_known t bases
}.

(** ** Table accesses *)

Lemma entry_lookup t i :
  table_ok t -> 0 <= i < max_entries_ t ->
  exists e, table_ t !! Z.to_nat i = Some e /\ entry_ok e.
Proof.
  intros [Hl _ _ He _] Hi.
  destruct (lookup_lt_is_Some_2 (table_ t) (Z.to_nat i)) as [e E]; [lia|].
  exists e. split; [done|]. by eapply Forall_lookup_1 in E.
Qed.

Lemma entry_reference e : entry_ok e -> GetReference e = Some (default 0 (GetReference e)).
Proof.
  intros [Hs Hl]. unfold GetReference.
  destruct (lookup_lt_is_Some_2 (references_ e) (Z.to_nat (serial_ e))) as [r ->]; [lia|done].
Qed.

Lemma entry_at_ok t i :
  table_ok t -> 0 <= i < max_entries_ t ->
  exists e, entry_at i t = Ok e t /\ entry_ok e /\ serial_ e = serial_at t i.
Proof.
  intros Ht Hi. destruct (entry_lookup t i Ht Hi) as (e & E & He).
  exists e. unfold entry_at, serial_at. rewrite E. by rewrite (proj2 (Z.leb_le 0 i)) by lia.
Qed.

Lemma read_ref_ok t i :
  table_ok t -> 0 <= i < max_entries_ t -> read_ref i t = Ok (ref_at t i) t.
Proof.
  intros Ht Hi. destruct (entry_lookup t i Ht Hi) as (e & E & He).
  unfold read_ref, entry_at, ref_at. rewrite E, (proj2 (Z.leb_le 0 i)) by lia.
  by rewrite (entry_reference e He).
Qed.

Lemma serial_at_range t i :
  table_ok t -> 0 <= i < max_entries_ t -> 0 <= serial_at t i < kIRTPrevCount.
Proof.
  intros Ht Hi. destruct (entry_lookup t i Ht Hi) as (e & E & He & _).
  unfold serial_at. by rewrite E.
Qed.

Lemma is_null_ok t i :
  table_ok t -> 0 <= i < max_entries_ t -> is_null i t = Ok (ref_at t i =? 0) t.
Proof. intros. unfold is_null, mbind, T_bind. by rewrite read_ref_ok. Qed.

Lemma not_null_ok t i :
  table_ok t -> 0 <= i < max_entries_ t -> not_null i t = Ok (negb (ref_at t i =? 0)) t.
Proof. intros. unfold not_null, mbind, T_bind. by rewrite read_ref_ok. Qed.

(** [DCHECK]s whose condition holds do nothing. *)
Lemma dcheck_ok (b : T bool) t : b t = Ok true t -> dcheck b t = Ok tt t.
Proof.
  intros E. unfold dcheck. destruct kIsDebugBuild; [|done].
  unfold mbind, T_bind. by rewrite E.
Qed.

Lemma ToIndirectRef_ok t i :
  table_ok t -> 0 <= i < max_entries_ t ->
  ToIndirectRef i t = Ok (EncodeIndirectRef (kind_ t) i (serial_at t i)) t.
Proof.
  intros Ht Hi. destruct (entry_at_ok t i Ht Hi) as (e & E & _ & Es).
  unfold ToIndirectRef, mbind, T_bind, get.
  rewrite dcheck_ok by (unfold mret, T_ret; by rewrite (proj2 (Z.ltb_lt _ _)) by lia).
  by rewrite E, Es.
Qed.

Lemma count_nulls_ok t n i c :
  table_ok t -> 0 <= i -> i + Z.of_nat n <= max_entries_ t ->
  count_nulls n i c t = Ok (c + nulls_from (ref_at t) n i) t.
Proof.
  intros Ht. revert i c. induction n as [|n IH]; intros i c Hi Hn; cbn [count_nulls nulls_from].
  - by rewrite Z.add_0_r.
  - unfold mbind, T_bind. rewrite is_null_ok by (try done; lia). rewrite IH by lia.
    f_equal. destruct (ref_at t i =? 0); lia.
Qed.

Lemma CountNullEntries_ok t lo hi :
  table_ok t -> 0 <= lo <= hi -> hi <= max_entries_ t ->
  CountNullEntries lo hi t = Ok (nulls (ref_at t) lo hi) t.
Proof.
  intros Ht Hl Hh. unfold CountNullEntries. rewrite (proj2 (Z.ltb_ge hi lo)) by lia.
  by rewrite count_nulls_ok by (try done; lia).
Qed.

Lemma CheckHoleCount_ok t prev :
  table_ok t -> 0 <= prev <= segment_state_ t ->
  current_num_holes_ t = nulls (ref_at t) prev (segment_state_ t) ->
  CheckHoleCount prev t = Ok tt t.
Proof.
  intros Ht Hp Hh. unfold CheckHoleCount. unfold mbind at 1, T_bind at 1, get.
  apply dcheck_ok. unfold mbind, T_bind. rewrite CountNullEntries_ok by (try done; apply Ht).
  by rewrite Hh, Z.eqb_refl.
Qed.

(** ** Holes and updates *)

Lemma T_bind_ok {A B} (c : T A) (k : A -> T B) t a t' :
  c t = Ok a t' -> (c ≫= k) t = k a t'.
Proof. unfold mbind, T_bind. by intros ->. Qed.

(** The state with the hole count of the segment from [prev] to the top. *)
Definition recovered (t : IRT) (prev : Z) : IRT :=
  with_last_known (with_holes t (nulls (ref_at t) prev (segment_state_ t))) prev.

Lemma top_segment t prev rest lo hi :
  descending (segment_state_ t) (prev :: rest) -> prev <= lo < hi ->
  (lo, hi) ∈ segments (segment_state_ t) (prev :: rest) -> lo = prev /\ hi = segment_state_ t.
Proof.
  intros [_ Hd] Hl Hin. simpl in Hin. apply elem_of_cons in Hin as [[= -> ->]|Hin]; [done|].
  apply segments_bounds in Hin; [lia|done].
Qed.

Lemma RecoverHoles_ok t prev rest :
  irt_ok t (prev :: rest) -> RecoverHoles prev t = Ok tt (recovered t prev).
Proof.
  intros [Ht Hd _ Hh]. unfold RecoverHoles. rewrite (T_bind_ok _ _ _ t t) by done.
  pose proof (descending_nonneg _ _ (proj2 Hd)). destruct Hd as [Hle Hd].
  destruct (_ || _) eqn:E.
  - erewrite T_bind_ok by (apply CountNullEntries_ok; [done|lia|apply Ht]). done.
  - apply orb_false_iff in E as [E1%Z.leb_gt E2%Z.ltb_ge].
    destruct Hh as [Hh|(lo & hi & Hin & Hlt & Hl & Hn)]; [lia|].
    destruct (top_segment t prev rest lo hi) as [-> ->]; [by split|lia|done|].
    unfold recovered. rewrite <- Hn, <- Hl. by destruct t.
Qed.

Lemma recovered_table_ok t prev : table_ok t -> table_ok (recovered t prev).
Proof. by intros [? ? ? ? ?]. Qed.

(** Writing one entry. *)
Definition entry_changed (t t' : IRT) (i r s : Z) : Prop :=
  table_ok t' /\ ref_at t' i = r /\ serial_at t' i = s /\
  (forall j, 0 <= j -> j <> i -> ref_at t' j = ref_at t j /\ serial_at t' j = serial_at t j).

Lemma update_entry_ok t i f :
  table_ok t -> 0 <= i < max_entries_ t -> (forall e, entry_ok e -> entry_ok (f e)) ->
  exists e, table_ t !! Z.to_nat i = Some e /\ entry_ok e /\
    let t' := with_table t (alter f (Z.to_nat i) (table_ t)) (max_entries_ t) in
    update_entry i f t = Ok tt t' /\
    entry_changed t t' i (default 0 (GetReference (f e))) (serial_ (f e)).
Proof.
  intros Ht Hi Hf. destruct (entry_lookup t i Ht Hi) as (e & E & He).
  exists e. do 2 (split; [done|]). intros t'. split.
  - unfold update_entry. rewrite (table_length t Ht).
    by rewrite (proj2 (Z.leb_le 0 i)), (proj2 (Z.ltb_lt _ _)) by lia.
  - destruct Ht as [Hl Hm Htop Hes Hk]. split_and!; subst t'; simpl.
    + constructor; simpl; rewrite ?length_alter; try done.
      apply Forall_alter; [done|]. intros x _ Hx. by apply Hf.
    + unfold ref_at. simpl. by rewrite list_lookup_alter_eq, E.
    + unfold serial_at. simpl. by rewrite list_lookup_alter_eq, E.
    + intros j Hj Hne. unfold ref_at, serial_at. simpl.
      by rewrite list_lookup_alter_ne by lia.
Qed.

Lemma IrtEntry_Add_ok e obj :
  entry_ok e ->
  entry_ok (IrtEntry_Add e obj) /\ GetReference (IrtEntry_Add e obj) = Some obj /\
  serial_ (IrtEntry_Add e obj) <> serial_ e.
Proof.
  intros [Hs Hl]. unfold IrtEntry_Add, entry_ok, GetReference.
  pose proof kIRTPrevCount_range. assert (kIRTPrevCount <= 7) by
    (unfold kIRTPrevCount; destruct kIsDebugBuild; lia).
  rewrite (wrap_u_id 32 (serial_ e + 1)) by (unfold in_u; pows; lia).
  destruct (Z.eqb_spec (serial_ e + 1) kIRTPrevCount); cbn [serial_ references_];
    rewrite length_insert, list_lookup_insert_eq by lia; split_and!; try done; lia.
Qed.

Lemma SetReference_ok e obj :
  entry_ok e ->
  entry_ok (SetReference e obj) /\ GetReference (SetReference e obj) = Some obj /\
  serial_ (SetReference e obj) = serial_ e.
Proof.
  intros [Hs Hl]. unfold SetReference, entry_ok, GetReference. cbn [serial_ references_].
  rewrite length_insert, list_lookup_insert_eq by lia. split; [by split|by split].
Qed.

Lemma add_entry_ok t i obj :
  table_ok t -> 0 <= i < max_entries_ t ->
  exists t' s, update_entry i (fun e => IrtEntry_Add e obj) t = Ok tt t' /\
    t' = with_table t (table_ t') (max_entries_ t) /\
    entry_changed t t' i obj s /\ s <> serial_at t i.
Proof.
  intros Ht Hi.
  destruct (update_entry_ok t i (fun e => IrtEntry_Add e obj) Ht Hi) as (e & E & He & Hu & Hc).
  { intros e He. by apply IrtEntry_Add_ok. }
  destruct (IrtEntry_Add_ok e obj He) as (_ & Hr & Hs).
  eexists _, _. split; [exact Hu|]. split; [done|]. rewrite Hr in Hc. split; [exact Hc|].
  unfold serial_at. by rewrite E.
Qed.

Lemma set_entry_ok t i obj :
  table_ok t -> 0 <= i < max_entries_ t ->
  exists t', update_entry i (fun e => SetReference e obj) t = Ok tt t' /\
    t' = with_table t (table_ t') (max_entries_ t) /\
    entry_changed t t' i obj (serial_at t i).
Proof.
  intros Ht Hi.
  destruct (update_entry_ok t i (fun e => SetReference e obj) Ht Hi) as (e & E & He & Hu & Hc).
  { intros e He. by apply SetReference_ok. }
  destruct (SetReference_ok e obj He) as (_ & Hr & Hs).
  eexists _. split; [exact Hu|]. split; [done|]. rewrite Hr, Hs in Hc.
  unfold serial_at at 1. by rewrite E.
Qed.

(** ** Room for an addition *)

Definition has_room (t : IRT) : Prop :=
  segment_state_ t < max_entries_ t \/
  resizable_ t = true /\ 0 < max_entries_ t /\ max_entries_ t * 2 <= kMaxEntries /\
  MapAnonymous (max_entries_ t * 2 * sizeof_IrtEntry) = true.

(** A larger table with the same entries. *)
Definition grown (t t' : IRT) : Prop :=
  table_ok t' /\ t' = with_table t (table_ t') (max_entries_ t') /\
  max_entries_ t <= max_entries_ t' /\
  forall j, 0 <= j < max_entries_ t -> ref_at t' j = ref_at t j /\ serial_at t' j = serial_at t j.

Lemma zero_entry_ok : entry_ok zero_entry.
Proof.
  pose proof kIRTPrevCount_range. unfold entry_ok, zero_entry. simpl.
  rewrite length_replicate. split; [lia|done].
Qed.

Lemma Resize_ok t n :
  table_ok t -> max_entries_ t < n -> n <= kMaxEntries ->
  MapAnonymous (n * sizeof_IrtEntry) = true ->
  exists t', Resize n t = Ok true t' /\ grown t t' /\ max_entries_ t' = n.
Proof.
  intros Ht H1 H2 Hmap. unfold Resize. rewrite (T_bind_ok _ _ _ t t) by done.
  rewrite (T_bind_ok _ _ _ tt t) by (by rewrite (proj2 (Z.ltb_lt _ _)) by lia).
  rewrite (proj2 (Z.ltb_ge _ _)), Hmap by lia. eexists. split; [done|]. split; [|done].
  destruct Ht as [Hl Hm Htop Hes Hk]. split_and!; simpl; try lia; try done.
  - constructor; simpl; try done; try lia.
    + rewrite length_app, length_replicate. lia.
    + apply Forall_app. split; [done|]. apply Forall_replicate, zero_entry_ok.
  - intros j Hj. unfold ref_at, serial_at. simpl. by rewrite lookup_app_l by lia.
Qed.

Lemma grown_refl t : table_ok t -> grown t t.
Proof. intros Ht. split_and!; [done|by destruct t|lia|done]. Qed.

Lemma make_room_ok t :
  table_ok t -> has_room t ->
  exists t', make_room t = Ok tt t' /\ grown t t' /\ segment_state_ t' < max_entries_ t'.
Proof.
  intros Ht Hr. unfold make_room. rewrite (T_bind_ok _ _ _ t t) by done.
  pose proof (max_bound t Ht). pose proof kMaxEntries_range. pose proof (top_bound t Ht).
  destruct (Z.eqb_spec (segment_state_ t) (max_entries_ t)) as [E|E].
  - destruct Hr as [Hr|(-> & Hr0 & Hr1 & Hr2)]; [lia|]. cbn [negb].
    rewrite (proj2 (Z.ltb_ge _ (max_entries_ t)))
      by (destruct pointer_bits_ok as [-> | ->]; pows; zdiv).
    destruct (Resize_ok t (max_entries_ t * 2)) as (t' & E' & Hg & Hmax); [done|lia|done..|].
    exists t'. rewrite (T_bind_ok _ _ _ _ _ E'). split; [done|]. split; [done|].
    destruct Hg as (_ & Et & _). rewrite Hmax, Et. simpl. lia.
  - exists t. split; [done|]. split; [by apply grown_refl|]. lia.
Qed.

Lemma make_room_abort t : table_ok t -> ~ has_room t -> make_room t = Abort.
Proof.
  intros Ht Hr. unfold make_room. rewrite (T_bind_ok _ _ _ t t) by done.
  pose proof (top_bound t Ht).
  destruct (Z.eqb_spec (segment_state_ t) (max_entries_ t)) as [E|E];
    [|destruct Hr; left; lia].
  destruct (resizable_ t) eqn:Er; [|done]. cbn [negb]. destruct (_ <? _); [done|].
  unfold Resize. unfold mbind, T_bind, get, check.
  destruct (Z.ltb_spec (max_entries_ t) (max_entries_ t * 2)); [|done]. cbn.
  destruct (Z.ltb_spec kMaxEntries (max_entries_ t * 2)); [done|].
  destruct (MapAnonymous _) eqn:Em; [|done]. destruct Hr. right. split_and!; try done; lia.
Qed.

(** ** Keeping the invariant *)

Lemma tight_below t t' hi bases :
  descending hi bases -> (forall j, 0 <= j < hi -> ref_at t' j = ref_at t j) ->
  Forall (tight t) (segments hi bases) -> Forall (tight t') (segments hi bases).
Proof.
  intros Hd Hr. rewrite !Forall_forall. intros H [lo h] Hin Hlt. specialize (H _ Hin Hlt).
  apply list_elem_of_In, segments_bounds in Hin; [|done]. simpl in *. by rewrite Hr by lia.
Qed.

(** An operation on the top segment. *)
Lemma irt_rebuild t t' prev rest :
  irt_ok t (prev :: rest) -> table_ok t' -> prev <= segment_state_ t' ->
  (forall j, 0 <= j < prev -> ref_at t' j = ref_at t j) ->
  tight t' (prev, segment_state_ t') -> last_known_previous_state_ t' = prev ->
  current_num_holes_ t' = nulls (ref_at t') prev (segment_state_ t') ->
  irt_ok t' (prev :: rest).
Proof.
  intros [Ht [Hle Hd] Hti _] Ht' Htop Href Htight Hl Hh. simpl in Hti.
  apply Forall_cons_1 in Hti as [_ Hti]. split; [done|by split| |].
  - simpl. apply List.Forall_cons; [done|]. by eapply tight_below.
  - unfold holes_known. rewrite Hl. destruct (Z.le_gt_cases (segment_state_ t') prev); [by left|].
    right. exists prev, (segment_state_ t'). split_and!; [by left|done..].
Qed.

Lemma grown_irt_ok t t' bases : irt_ok t bases -> grown t t' -> irt_ok t' bases.
Proof.
  intros [Ht Hd Hti Hh] (Ht' & Et & Hmax & Hsame).
  assert (segment_state_ t' = segment_state_ t) as Es by (by rewrite Et).
  pose proof (top_bound t Ht) as Hb. split; [done|by rewrite Es|rewrite Es|].
  - eapply tight_below; [done| |done]. intros j Hj. apply Hsame. lia.
  - unfold holes_known. rewrite Es, Et. cbn [last_known_previous_state_ current_num_holes_ with_table].
    destruct Hh as [Hh|(lo & hi & Hin & Hlt & Hl & Hn)]; [by left|right].
    exists lo, hi. split_and!; [done..|]. rewrite Hn. apply nulls_ext. intros j Hj.
    apply segments_bounds in Hin; [|done]. rewrite <- Et. symmetry. apply Hsame. lia.
Qed.

(** ** Add *)

Lemma find_hole_ok t fuel prev p :
  table_ok t -> 0 <= prev -> p < max_entries_ t -> p < Z.of_nat fuel ->
  (exists j, prev <= j <= p /\ ref_at t j = 0) ->
  exists i, find_hole fuel prev p t = Ok i t /\ prev <= i <= p /\ ref_at t i = 0.
Proof.
  intros Ht Hprev. revert p. induction fuel as [|fuel IH]; intros p Hp Hf (j & Hj & Ej); [lia|].
  cbn [find_hole]. rewrite (T_bind_ok _ _ _ _ _ (is_null_ok t p Ht ltac:(lia))).
  destruct (Z.eqb_spec (ref_at t p) 0) as [E|E]; [exists p; split_and!; done || lia|].
  rewrite (T_bind_ok _ _ _ tt t)
    by (apply dcheck_ok; unfold mret, T_ret; by rewrite (proj2 (Z.leb_le _ _)) by lia).
  destruct (IH (p - 1)) as (i & Ei & Hi & Hr); [lia..| |].
  - exists j. split; [|done]. assert (j <> p) by (intros ->; done). lia.
  - exists i. split_and!; [done|lia..|done].
Qed.

(** The slot an addition takes and the state it is taken from. *)
Lemma choose_index_ok t prev rest :
  irt_ok t (prev :: rest) -> segment_state_ t < max_entries_ t ->
  exists i t', choose_index prev (recovered t prev) = Ok i t' /\
    t' = with_holes (with_top (recovered t prev) (segment_state_ t')) (current_num_holes_ t') /\
    prev <= i < segment_state_ t' /\ segment_state_ t' <= max_entries_ t /\
    (i = segment_state_ t /\ segment_state_ t' = segment_state_ t + 1 /\
       current_num_holes_ t' = 0 /\ nulls (ref_at t) prev (segment_state_ t) = 0 \/
     i < segment_state_ t - 1 /\ ref_at t i = 0 /\ segment_state_ t' = segment_state_ t /\
       current_num_holes_ t' = nulls (ref_at t) prev (segment_state_ t) - 1).
Proof.
  intros [Ht [Hle Hd] Hti _] Hroom. pose proof (descending_nonneg _ _ Hd) as Hp0.
  pose proof (recovered_table_ok t prev Ht) as Ht'. pose proof (top_bound t Ht) as Hb.
  pose proof (max_bound t Ht). pose proof kMaxEntries_range.
  unfold choose_index. rewrite (T_bind_ok _ _ _ (recovered t prev) (recovered t prev)) by done.
  simpl in Hti. apply Forall_cons_1 in Hti as [Htight _].
  cbn [segment_state_ current_num_holes_ recovered with_last_known with_holes].
  pose proof (nulls_nonneg (ref_at t) prev (segment_state_ t)) as Hn0.
  destruct (Z.ltb_spec 0 (nulls (ref_at t) prev (segment_state_ t))) as [Hn|Hn].
  - destruct (nulls_pos _ _ _ Hn) as (j & Hj & Ej).
    assert (ref_at t (segment_state_ t - 1) <> 0) as Hlast by (apply Htight; simpl; lia).
    assert (j <> segment_state_ t - 1) by (by intros ->).
    rewrite (T_bind_ok _ _ _ tt (recovered t prev))
      by (apply dcheck_ok; unfold mret, T_ret; by rewrite (proj2 (Z.ltb_lt _ _)) by lia).
    rewrite (T_bind_ok _ _ _ tt (recovered t prev))
      by (apply dcheck_ok; rewrite not_null_ok by (simpl; done || lia);
          by rewrite (proj2 (Z.eqb_neq (ref_at (recovered t prev) _) 0)) by done).
    destruct (find_hole_ok (recovered t prev) (Z.to_nat (segment_state_ t)) prev
      (segment_state_ t - 2)) as (i & Ei & Hi & Hr); [done|lia|simpl; lia|lia|by exists j; split; [lia|]|].
    rewrite (T_bind_ok _ _ _ _ _ Ei). eexists i, _. split; [reflexivity|].
    cbn [segment_state_ current_num_holes_ recovered with_last_known with_holes with_top].
    split; [done|]. split; [lia|]. split; [lia|]. right. by split_and!; [lia| | |].
  - eexists (segment_state_ t), _. split; [reflexivity|].
    cbn [segment_state_ current_num_holes_ recovered with_last_known with_holes with_top].
    rewrite wrap_u_id by (unfold in_u; pows; lia).
    split; [f_equal; lia|]. split; [lia|]. split; [lia|]. left. lia.
Qed.

(** What an addition does: slot [i] gets the object and a new serial, the other live
    slots stay. *)
Definition added (t t' : IRT) (prev obj i s : Z) : Prop :=
  prev <= i < segment_state_ t' /\
  (kind_ t' = kind_ t /\ resizable_ t' = resizable_ t) /\
  0 <= s < kIRTPrevCount /\ ref_at t' i = obj /\ serial_at t' i = s /\
  (i = segment_state_ t /\ segment_state_ t' = segment_state_ t + 1 \/
   i < segment_state_ t /\ ref_at t i = 0 /\ segment_state_ t' = segment_state_ t) /\
  (forall j, 0 <= j < segment_state_ t' -> j <> i ->
     ref_at t' j = ref_at t j /\ serial_at t' j = serial_at t j) /\
  (i < max_entries_ t -> s <> serial_at t i).

(** The hole count after an addition at slot [i]. *)
Definition holes_after_add (t t' : IRT) (prev i : Z) : Prop :=
  last_known_previous_state_ t' = prev /\
  let n := nulls (ref_at t) prev (segment_state_ t) in
  (i = segment_state_ t -> n = 0 /\ current_num_holes_ t' = 0) /\
  (i <> segment_state_ t -> current_num_holes_ t' = n - 1).

Lemma added_irt_ok t t' prev rest obj i s :
  irt_ok t (prev :: rest) -> obj <> 0 -> table_ok t' ->
  added t t' prev obj i s -> holes_after_add t t' prev i -> irt_ok t' (prev :: rest).
Proof.
  intros Hok Hobj Ht' (Hi & _ & _ & Hr & _ & Hc & Hkeep & _) (Hl & Hn0 & Hn1).
  pose proof (descending_nonneg _ _ (proj2 (irt_bases _ _ Hok))) as Hp0.
  pose proof (Forall_inv (irt_tight _ _ Hok)) as Hti. pose proof (proj1 (irt_bases _ _ Hok)) as Hle.
  assert (forall j, 0 <= j < segment_state_ t' -> j <> i -> ref_at t' j = ref_at t j) as Hk
    by (intros j Hj Hji; by apply Hkeep).
  apply (irt_rebuild t); try done; [lia|intros j Hj; apply Hk; lia| |].
  - intros Hlt. simpl in *. destruct Hc as [[-> Hc]|(Hc & Hz & Hc2)].
    + rewrite Hc. replace (segment_state_ t + 1 - 1) with (segment_state_ t) by lia. by rewrite Hr.
    + assert (ref_at t (segment_state_ t - 1) <> 0) by (apply Hti; simpl; lia).
      rewrite Hk; [by rewrite Hc2|lia|]. intros E. rewrite Hc2 in E. congruence.
  - destruct Hc as [[-> Hc]|(Hc & Hz & Hc2)].
    + destruct Hn0 as [Hn ->]; [done|]. rewrite Hc, nulls_last by lia.
      replace (segment_state_ t + 1 - 1) with (segment_state_ t) by lia.
      rewrite Hr, (proj2 (Z.eqb_neq obj 0)), Z.add_0_r by done.
      rewrite <- Hn. apply nulls_ext. intros j Hj. symmetry. apply Hk; lia.
    + rewrite Hn1 by lia. rewrite Hc2.
      rewrite (nulls_update (ref_at t) (ref_at t') _ _ i), Hz, Hr by (intros; try apply Hk; lia).
      rewrite (proj2 (Z.eqb_neq obj 0)) by done. simpl. lia.
Qed.

(** The part of [Add] after the checks: take a slot and fill it. *)
Lemma fill_slot_ok t prev rest obj :
  irt_ok t (prev :: rest) -> segment_state_ t < max_entries_ t ->
  exists i s t2 t3, choose_index prev (recovered t prev) = Ok i t2 /\
    update_entry i (fun e => IrtEntry_Add e obj) t2 = Ok tt t3 /\
    table_ok t3 /\ i < max_entries_ t3 /\ added t t3 prev obj i s /\ holes_after_add t t3 prev i.
Proof.
  intros Hok Htop. pose proof (irt_table _ _ Hok) as Ht.
  destruct (choose_index_ok t prev rest Hok Htop) as (i & t2 & E2 & Et2 & Hi & Htop2 & Hcase).
  pose proof (descending_nonneg _ _ (proj2 (irt_bases _ _ Hok))) as Hp0.
  pose proof (top_bound t Ht) as Hb.
  assert (table_ok t2) as Ht2.
  { rewrite Et2. destruct Ht as [? ? ? ? ?]. constructor; simpl; done || lia. }
  destruct (add_entry_ok t2 i obj Ht2) as (t3 & s & E3 & Et3 & (Ht3 & Hr3 & Hs3 & Ho3) & Hne).
  { rewrite Et2. simpl. lia. }
  assert (segment_state_ t3 = segment_state_ t2) as Es by (by rewrite Et3).
  assert (max_entries_ t3 = max_entries_ t) as Em by (by rewrite Et3, Et2).
  assert (current_num_holes_ t3 = current_num_holes_ t2) as Eh by (by rewrite Et3).
  exists i, s, t2, t3. do 3 (split; [done|]). split; [lia|]. split.
  - pose proof (serial_at_range t3 i Ht3 ltac:(lia)) as Hsr. rewrite Hs3 in Hsr.
    split; [lia|]. split; [by rewrite Et3, Et2|]. do 3 (split; [done|]). split; [|split].
    + destruct Hcase as [(-> & Hc & _)|(Hc & Hz & Hc2 & _)]; [left|right]; split_and!; done || lia.
    + intros j Hj Hji. destruct (Ho3 j) as [-> ->]; [lia|done|]. by rewrite Et2.
    + intros _. by rewrite Et2 in Hne.
  - split; [by rewrite Et3, Et2|]. rewrite Eh. split.
    + intros ->. destruct Hcase as [(_ & _ & ? & ?)|(? & _)]; [done|lia].
    + intros Hni. destruct Hcase as [(? & _)|(_ & _ & _ & ?)]; [lia|done].
Qed.

Lemma Add_ok t prev rest obj :
  irt_ok t (prev :: rest) -> obj <> 0 -> has_room t ->
  exists t' i s, Add prev obj t = Ok (EncodeIndirectRef (kind_ t) i s) t' /\
    added t t' prev obj i s /\ irt_ok t' (prev :: rest).
Proof.
  intros Hok Hobj Hroom. pose proof (irt_table _ _ Hok) as Ht.
  destruct (make_room_ok t Ht Hroom) as (t1 & E1 & Hg & Htop1).
  pose proof (grown_irt_ok _ _ _ Hok Hg) as Hok1. destruct Hg as (Ht1 & Et1 & Hmax & Hsame).
  destruct (fill_slot_ok t1 prev rest obj Hok1 Htop1)
    as (i & s & t2 & t3 & E2 & E3 & Ht3 & Him & Ha & Hh).
  pose proof (added_irt_ok _ _ _ _ _ _ _ Hok1 Hobj Ht3 Ha Hh) as Hok3.
  assert (segment_state_ t1 = segment_state_ t) as Es by (by rewrite Et1).
  assert (kind_ t1 = kind_ t /\ resizable_ t1 = resizable_ t) as [Ek Er] by (by rewrite Et1).
  destruct Ha as (Hi & [Ek3 Er3] & Hs & Hr & Hsi & Hc & Hkeep & Hne).
  pose proof (descending_nonneg _ _ (proj2 (irt_bases _ _ Hok1))) as Hp0.
  pose proof (proj1 (irt_bases _ _ Hok1)). pose proof (top_bound t Ht).
  pose proof (max_bound t3 Ht3). exists t3, i, s. split; [|split; [|done]].
  - unfold Add. rewrite (T_bind_ok _ _ _ tt t) by (by rewrite (proj2 (Z.eqb_neq obj 0))).
    rewrite (T_bind_ok _ _ _ _ _ E1), (T_bind_ok _ _ _ _ _ (RecoverHoles_ok _ _ _ Hok1)).
    rewrite (T_bind_ok _ _ _ tt (recovered t1 prev))
      by (apply CheckHoleCount_ok; [by apply recovered_table_ok|simpl; lia|done]).
    rewrite (T_bind_ok _ _ _ _ _ E2), (T_bind_ok _ _ _ _ _ E3).
    rewrite (T_bind_ok _ _ _ _ _ (ToIndirectRef_ok t3 i Ht3 ltac:(lia))), Hsi, Ek3, Ek.
    assert (0 < EncodeIndirectRef (kind_ t) i s)
      by (apply EncodeIndirectRef_nonzero; [lia|done|apply Ht]).
    by rewrite (T_bind_ok _ _ _ tt t3)
      by (apply dcheck_ok; unfold mret, T_ret; by rewrite (proj2 (Z.eqb_neq _ 0)) by lia).
  - rewrite Es in Hc. split; [done|]. split; [by rewrite Ek3, Er3|]. do 3 (split; [done|]). split; [|split].
    + destruct Hc as [?|(? & Hz & ?)]; [by left|right]. split_and!; [done| |done].
      rewrite <- Hz. symmetry. apply Hsame. lia.
    + intros j Hj Hji. destruct (Hkeep j Hj Hji) as [-> ->]. apply Hsame. lia.
    + intros Hm. rewrite <- (proj2 (Hsame i ltac:(lia))). apply Hne. lia.
Qed.

Lemma Add_full t prev rest obj :
  irt_ok t (prev :: rest) -> ~ has_room t -> Add prev obj t = Abort.
Proof.
  intros Hok Hroom. unfold Add. unfold mbind at 1, T_bind at 1, check.
  destruct (negb (obj =? 0)); [|done]. unfold mret, T_ret, mbind at 1, T_bind at 1.
  by rewrite (make_room_abort t (irt_table _ _ Hok) Hroom).
Qed.

(** ** Remove *)

Lemma recovered_irt_ok t prev rest :
  irt_ok t (prev :: rest) -> irt_ok (recovered t prev) (prev :: rest).
Proof.
  intros Hok. apply (irt_rebuild t); try done.
  - apply recovered_table_ok, Hok.
  - apply Hok.
  - apply (Forall_inv (irt_tight _ _ Hok)).
Qed.

(** The reference that names slot [i] now. *)
Definition iref_of (t : IRT) (i : Z) : Z := EncodeIndirectRef (kind_ t) i (serial_at t i).

Lemma CheckEntry_ok t iref i :
  table_ok t -> 0 <= i < max_entries_ t ->
  CheckEntry iref i t =
  if iref_of t i =? iref then Ok true t else if IsCheckJniEnabled then Ok false t else Abort.
Proof.
  intros Ht Hi. unfold CheckEntry. rewrite (T_bind_ok _ _ _ _ _ (ToIndirectRef_ok t i Ht Hi)).
  fold (iref_of t i). destruct (iref_of t i =? iref); [done|]. cbn [negb].
  unfold AbortIfNoCheckJNI, mbind, T_bind. by destruct IsCheckJniEnabled.
Qed.

(** Eating the holes below a removed top entry. *)
Lemma collapse_ok fuel t bottom c :
  table_ok t -> 0 <= bottom < c -> c <= max_entries_ t -> c - bottom <= Z.of_nat fuel ->
  current_num_holes_ t = nulls (ref_at t) bottom (c - 1) ->
  exists c', bottom <= c' < c /\
    collapse fuel bottom c t = Ok c' (with_holes t (nulls (ref_at t) bottom c')) /\
    tight t (bottom, c') /\ (forall j, c' <= j < c - 1 -> ref_at t j = 0).
Proof.
  revert t c. induction fuel as [|fuel IH]; intros t c Ht Hb Hc Hf Hn; [lia|].
  cbn [collapse]. rewrite (T_bind_ok _ _ _ t t) by done.
  assert (t = with_holes t (nulls (ref_at t) bottom (c - 1))) as Et
    by (rewrite <- Hn; by destruct t).
  destruct (Z.ltb_spec bottom (c - 1)) as [Hlt|Hge]; cbn [andb].
  2: { exists (c - 1). split_and!; [lia..|by rewrite <- Et|intros H; simpl in H; lia|lia]. }
  destruct (Z.eqb_spec (current_num_holes_ t) 0) as [E0|E0]; cbn [negb].
  { exists (c - 1). rewrite Hn in E0. split_and!; [lia..|by rewrite <- Et| |lia].
    intros H. apply (nulls_zero _ _ _ _ E0). simpl in *. lia. }
  rewrite (T_bind_ok _ _ _ _ _ (is_null_ok t (c - 1 - 1) Ht ltac:(lia))).
  rewrite (nulls_last _ bottom (c - 1)) in Hn by lia.
  destruct (Z.eqb_spec (ref_at t (c - 1 - 1)) 0) as [Ez|Ez].
  - rewrite (T_bind_ok _ _ _ tt (with_holes t (current_num_holes_ t - 1))) by done.
    destruct (IH (with_holes t (current_num_holes_ t - 1)) (c - 1)) as (c' & Hc' & E & Hti & Hz);
      [by destruct Ht as [? ? ? ? ?]|lia|simpl; lia|lia|simpl; rewrite Hn; change (ref_at (with_holes t _)) with (ref_at t); lia|].
    exists c'. split; [lia|]. split; [exact E|]. split; [exact Hti|].
    intros j Hj. destruct (Z.eq_dec j (c - 1 - 1)) as [->|]; [done|]. apply Hz. lia.
  - exists (c - 1). split_and!; [lia..|by rewrite <- Et| |lia].
    intros _. simpl. by replace (c - 1 - 1) with (c - 1 - 1) by lia.
Qed.

(** What a removal does: slot [i] is nulled and the top drops to a live entry. *)
Definition removed (t t' : IRT) (prev i : Z) : Prop :=
  prev <= segment_state_ t' <= segment_state_ t /\
  (kind_ t' = kind_ t /\ resizable_ t' = resizable_ t /\ max_entries_ t' = max_entries_ t) /\
  ref_at t' i = 0 /\ serial_at t' i = serial_at t i /\
  (forall j, 0 <= j -> j <> i -> ref_at t' j = ref_at t j /\ serial_at t' j = serial_at t j) /\
  (forall j, segment_state_ t' <= j < segment_state_ t -> ref_at t' j = 0).

Section Removal.
Context (t : IRT) (prev : Z) (rest : list Z) (i : Z).
Hypothesis Hok : irt_ok t (prev :: rest).
Hypothesis Hi : prev <= i < segment_state_ t.
Hypothesis Hlive : ref_at t i <> 0.

Lemma remove_top_ok :
  i = segment_state_ t - 1 ->
  exists t', remove_top prev (iref_of t i) i (segment_state_ t) (recovered t prev) = Ok true t' /\
    removed t t' prev i /\ irt_ok t' (prev :: rest).
Proof.
  intros Etop. pose proof (recovered_irt_ok _ _ _ Hok) as Hok1.
  pose proof (irt_table _ _ Hok1) as Ht1. set (t1 := recovered t prev) in *.
  pose proof (descending_nonneg _ _ (proj2 (irt_bases _ _ Hok))) as Hp0.
  pose proof (top_bound t1 Ht1) as Hb. change (segment_state_ t1) with (segment_state_ t) in Hb.
  destruct (set_entry_ok t1 i 0 Ht1 ltac:(lia)) as (t2 & E2 & Et2 & Ht2 & Hr2 & Hs2 & Ho2).
  assert (current_num_holes_ t2 = nulls (ref_at t2) prev (segment_state_ t - 1)) as Hn.
  { assert (current_num_holes_ t2 = nulls (ref_at t) prev (segment_state_ t)) as ->
      by (by rewrite Et2).
    rewrite nulls_last, <- Etop, (proj2 (Z.eqb_neq _ 0)), Z.add_0_r by (done || lia).
    apply nulls_ext. intros j Hj. symmetry. apply Ho2; lia. }
  assert (segment_state_ t2 = segment_state_ t /\ max_entries_ t2 = max_entries_ t1) as [Es Em]
    by (by rewrite Et2).
  destruct (collapse_ok (S (Z.to_nat (segment_state_ t))) t2 prev (segment_state_ t))
    as (c & Hc & Ec & Hti & Hz); [done|lia..|done|].
  set (t' := with_holes (with_top t2 c) (nulls (ref_at t2) prev c)).
  assert (table_ok t') as Ht'.
  { destruct Ht2 as [? ? ? ? ?]. constructor; simpl; done || lia. }
  exists t'. split; [|split].
  - unfold remove_top.
    rewrite (T_bind_ok _ _ _ true t1)
      by (rewrite CheckEntry_ok by (done || lia);
          by rewrite (proj2 (Z.eqb_eq (iref_of t1 i) (iref_of t i))) by done).
    cbn [negb]. rewrite (T_bind_ok _ _ _ _ _ E2), (T_bind_ok _ _ _ t2 t2) by done.
    destruct (Z.eqb_spec (current_num_holes_ t2) 0) as [E0|E0]; cbn [negb].
    + assert (c = segment_state_ t - 1) as ->.
      { destruct (Z.eq_dec c (segment_state_ t - 1)) as [|Hne]; [done|].
        rewrite Hn in E0. destruct (nulls_zero _ _ _ c E0); [lia|]. apply Hz. lia. }
      subst t'. rewrite <- Hn. by destruct t2.
    + rewrite (T_bind_ok _ _ _ _ _ Ec).
      rewrite (T_bind_ok _ _ _ tt t') by (subst t'; by destruct t2).
      by rewrite (T_bind_ok _ _ _ tt t') by (apply CheckHoleCount_ok; [done|simpl; lia|done]).
  - split; [simpl; lia|]. split; [subst t'; simpl; by rewrite Et2|].
    split; [done|]. split; [exact Hs2|]. split; [exact Ho2|].
    intros j Hj. simpl in Hj. destruct (Z.eq_dec j i) as [->|]; [done|]. apply Hz. lia.
  - apply (irt_rebuild t1); try done; [simpl; lia| |subst t'; simpl; by rewrite Et2].
    intros j Hj. apply Ho2; lia.
Qed.

Lemma remove_inner_ok :
  i < segment_state_ t - 1 ->
  exists t', remove_inner prev (iref_of t i) i (recovered t prev) = Ok true t' /\
    removed t t' prev i /\ irt_ok t' (prev :: rest).
Proof.
  intros Hin. pose proof (recovered_irt_ok _ _ _ Hok) as Hok1.
  pose proof (irt_table _ _ Hok1) as Ht1. set (t1 := recovered t prev) in *.
  pose proof (descending_nonneg _ _ (proj2 (irt_bases _ _ Hok))) as Hp0.
  pose proof (top_bound t1 Ht1) as Hb. change (segment_state_ t1) with (segment_state_ t) in Hb.
  destruct (set_entry_ok t1 i 0 Ht1 ltac:(lia)) as (t2 & E2 & Et2 & Ht2 & Hr2 & Hs2 & Ho2).
  assert (current_num_holes_ t2 + 1 = nulls (ref_at t2) prev (segment_state_ t)) as Hn.
  { rewrite (nulls_update (ref_at t) (ref_at t2) _ _ i) by (intros; try apply Ho2; lia).
    assert (current_num_holes_ t2 = nulls (ref_at t) prev (segment_state_ t)) as ->
      by (by rewrite Et2).
    rewrite Hr2, (proj2 (Z.eqb_neq (ref_at t i) 0)) by done. simpl. lia. }
  set (t' := with_holes t2 (current_num_holes_ t2 + 1)).
  assert (segment_state_ t' = segment_state_ t) as Es by (subst t'; by rewrite Et2).
  assert (table_ok t') as Ht' by (by destruct Ht2 as [? ? ? ? ?]).
  exists t'. split; [|split].
  - unfold remove_inner. rewrite (T_bind_ok _ _ _ _ _ (is_null_ok t1 i Ht1 ltac:(lia))).
    rewrite (proj2 (Z.eqb_neq (ref_at t1 i) 0)) by done.
    rewrite (T_bind_ok _ _ _ true t1)
      by (rewrite CheckEntry_ok by (done || lia);
          by rewrite (proj2 (Z.eqb_eq (iref_of t1 i) (iref_of t i))) by done).
    cbn [negb]. rewrite (T_bind_ok _ _ _ _ _ E2), (T_bind_ok _ _ _ t2 t2) by done.
    rewrite (T_bind_ok _ _ _ tt t') by done.
    by rewrite (T_bind_ok _ _ _ tt t')
      by (apply CheckHoleCount_ok; [done|rewrite Es; lia|rewrite Es; exact Hn]).
  - split; [lia|]. split; [subst t'; simpl; by rewrite Et2|].
    split; [done|]. split; [exact Hs2|]. split; [exact Ho2|]. lia.
  - apply (irt_rebuild t1); try done; rewrite ?Es; try lia; try exact Hn.
    + intros j Hj. apply Ho2; lia.
    + intros Hlt. simpl. change (ref_at t2 (segment_state_ t - 1) <> 0).
      rewrite (proj1 (Ho2 (segment_state_ t - 1) ltac:(lia) ltac:(lia))).
      apply (Forall_inv (irt_tight _ _ Hok1)). exact Hlt.
    + subst t'. simpl. by rewrite Et2.
Qed.
End Removal.

(** Reference [iref] names object [obj] in the slots [[lo, hi)]. *)
Definition holds (t : IRT) (lo hi iref obj : Z) : Prop :=
  exists i, lo <= i < hi /\ iref = iref_of t i /\ ref_at t i = obj /\ obj <> 0.

Lemma iref_of_decode t i :
  table_ok t -> 0 <= i < max_entries_ t ->
  ExtractIndex (iref_of t i) = i /\ GetIndirectRefKind (iref_of t i) = kind_ t.
Proof.
  intros Ht Hi. pose proof (max_bound t Ht).
  destruct (decode_encoded (kind_ t) i (serial_at t i)) as (? & _ & ?);
    [lia|by apply serial_at_range|done].
Qed.

Lemma iref_of_inj t i j :
  table_ok t -> 0 <= i < max_entries_ t -> 0 <= j < max_entries_ t ->
  iref_of t i = iref_of t j -> i = j.
Proof.
  intros Ht Hi Hj E. rewrite <- (proj1 (iref_of_decode t i Ht Hi)), E. by apply iref_of_decode.
Qed.

Lemma valid_kind t i :
  table_ok t -> 0 <= i < max_entries_ t ->
  bool_decide (GetIndirectRefKind (iref_of t i) = kHandleScopeOrInvalid) = false.
Proof.
  intros Ht Hi. apply bool_decide_eq_false_2. rewrite (proj2 (iref_of_decode t i Ht Hi)). apply Ht.
Qed.

Lemma ExtractIndex_nonneg iref : 0 <= ExtractIndex iref.
Proof. unfold ExtractIndex, DecodeIndex. apply wrap_u_range. lia. Qed.

Lemma Remove_live t prev rest i :
  irt_ok t (prev :: rest) -> prev <= i < segment_state_ t -> ref_at t i <> 0 ->
  exists t', Remove prev (iref_of t i) t = Ok true t' /\ removed t t' prev i /\
    irt_ok t' (prev :: rest).
Proof.
  intros Hok Hi Hlive. pose proof (irt_table _ _ Hok) as Ht. pose proof (top_bound t Ht) as Hb.
  pose proof (descending_nonneg _ _ (proj2 (irt_bases _ _ Hok))) as Hp0.
  unfold Remove. rewrite (T_bind_ok _ _ _ t t) by done. rewrite valid_kind by (done || lia).
  rewrite (proj1 (iref_of_decode t i Ht ltac:(lia))). cbn [andb].
  rewrite (proj2 (Z.ltb_ge i prev)), (proj2 (Z.leb_gt (segment_state_ t) i)) by lia.
  rewrite (T_bind_ok _ _ _ _ _ (RecoverHoles_ok _ _ _ Hok)).
  rewrite (T_bind_ok _ _ _ tt (recovered t prev))
    by (apply CheckHoleCount_ok; [by apply recovered_table_ok|simpl; lia|done]).
  destruct (Z.eqb_spec i (segment_state_ t - 1)) as [E|E].
  - by apply remove_top_ok.
  - apply remove_inner_ok; try done. lia.
Qed.

(** A handle on the stack is reported as removed; every other reference that is not
    live in the top segment is refused, or aborts the runtime without CheckJNI. *)
Lemma Remove_other t prev rest iref :
  irt_ok t (prev :: rest) -> (forall obj, ~ holds t prev (segment_state_ t) iref obj) ->
  (exists t', (t' = t \/ t' = recovered t prev) /\
     Remove prev iref t =
     Ok (bool_decide (GetIndirectRefKind iref = kHandleScopeOrInvalid)
         && HandleScopeContains iref) t') \/
  Remove prev iref t = Abort /\ IsCheckJniEnabled = false.
Proof.
  intros Hok Hno. pose proof (irt_table _ _ Hok) as Ht. pose proof (top_bound t Ht) as Hb.
  pose proof (descending_nonneg _ _ (proj2 (irt_bases _ _ Hok))) as Hp0.
  pose proof (recovered_table_ok t prev Ht) as Ht1.
  unfold Remove. rewrite (T_bind_ok _ _ _ t t) by done.
  destruct (_ && _); [left; exists t; eauto|].
  destruct (Z.ltb_spec (ExtractIndex iref) prev); [left; exists t; eauto|].
  destruct (Z.leb_spec (segment_state_ t) (ExtractIndex iref)); [left; exists t; eauto|].
  set (i := ExtractIndex iref) in *. rewrite (T_bind_ok _ _ _ _ _ (RecoverHoles_ok _ _ _ Hok)).
  rewrite (T_bind_ok _ _ _ tt (recovered t prev)) by (apply CheckHoleCount_ok; [done|simpl; lia|done]).
  assert (ref_at t i <> 0 -> iref_of (recovered t prev) i <> iref) as Hne.
  { intros Hr E. apply (Hno (ref_at t i)). exists i. split_and!; done || lia. }
  destruct (Z.eqb_spec i (segment_state_ t - 1)) as [E|E].
  - assert (ref_at t i <> 0) as Hr.
    { rewrite E. apply (Forall_inv (irt_tight _ _ Hok)). simpl. lia. }
    unfold remove_top, mbind, T_bind. rewrite CheckEntry_ok by (try done; simpl; lia).
    rewrite (proj2 (Z.eqb_neq _ _)) by auto.
    destruct IsCheckJniEnabled; [left; eexists; split; [by right|done]|by right].
  - unfold remove_inner.
    rewrite (T_bind_ok _ _ _ _ _ (is_null_ok (recovered t prev) i Ht1 ltac:(simpl; lia))).
    destruct (Z.eqb_spec (ref_at (recovered t prev) i) 0) as [Hz|Hr];
      [left; eexists; split; [by right|done]|].
    unfold mbind, T_bind. rewrite CheckEntry_ok by (try done; simpl; lia).
    rewrite (proj2 (Z.eqb_neq _ _)) by auto.
    destruct IsCheckJniEnabled; [left; eexists; split; [by right|done]|by right].
Qed.

(** ** Lookup *)

Lemma GetChecked_live t i :
  table_ok t -> 0 <= i < segment_state_ t -> ref_at t i <> 0 ->
  GetChecked (iref_of t i) t = Ok true t.
Proof.
  intros Ht Hi Hr. pose proof (top_bound t Ht) as Hb. pose proof (max_bound t Ht).
  assert (0 < iref_of t i)
    by (apply EncodeIndirectRef_nonzero; [lia|apply serial_at_range; done || lia|apply Ht]).
  unfold GetChecked. rewrite (proj2 (Z.eqb_neq (iref_of t i) 0)) by lia.
  rewrite valid_kind by (done || lia). rewrite (T_bind_ok _ _ _ t t) by done. cbv zeta.
  rewrite (proj1 (iref_of_decode t i Ht ltac:(lia))), (proj2 (Z.leb_gt (segment_state_ t) i)) by lia.
  rewrite (T_bind_ok _ _ _ _ _ (is_null_ok t i Ht ltac:(lia))).
  rewrite (proj2 (Z.eqb_neq _ 0)), CheckEntry_ok by (done || lia). by rewrite Z.eqb_refl.
Qed.

Lemma GetChecked_other t iref :
  table_ok t -> (forall obj, ~ holds t 0 (segment_state_ t) iref obj) ->
  GetChecked iref t = Ok false t \/ GetChecked iref t = Abort /\ IsCheckJniEnabled = false.
Proof.
  intros Ht Hno. pose proof (top_bound t Ht) as Hb. pose proof (ExtractIndex_nonneg iref).
  unfold GetChecked, AbortIfNoCheckJNI. destruct (iref =? 0); [by left|].
  destruct (bool_decide _); [destruct IsCheckJniEnabled; [by left|by right]|].
  rewrite (T_bind_ok _ _ _ t t) by done. cbv zeta.
  destruct (Z.leb_spec (segment_state_ t) (ExtractIndex iref));
    [destruct IsCheckJniEnabled; [by left|by right]|].
  rewrite (T_bind_ok _ _ _ (ref_at t (ExtractIndex iref) =? 0) t)
    by (apply is_null_ok; [done|split; [done|lia]]).
  destruct (Z.eqb_spec (ref_at t (ExtractIndex iref)) 0) as [Hz|Hr];
    [destruct IsCheckJniEnabled; [by left|by right]|].
  rewrite CheckEntry_ok by (done || lia). rewrite (proj2 (Z.eqb_neq _ _)).
  - destruct IsCheckJniEnabled; [by left|by right].
  - intros E. apply (Hno (ref_at t (ExtractIndex iref))). exists (ExtractIndex iref).
    split_and!; done || lia.
Qed.

Lemma Get_live t i :
  table_ok t -> 0 <= i < segment_state_ t -> ref_at t i <> 0 ->
  Get (iref_of t i) t = Ok (ref_at t i) t.
Proof.
  intros Ht Hi Hr. pose proof (top_bound t Ht) as Hb. unfold Get.
  rewrite (T_bind_ok _ _ _ _ _ (GetChecked_live t i Ht Hi Hr)).
  rewrite (proj1 (iref_of_decode t i Ht ltac:(lia))). by rewrite read_ref_ok by (done || lia).
Qed.

Lemma Get_other t iref :
  table_ok t -> (forall obj, ~ holds t 0 (segment_state_ t) iref obj) ->
  Get iref t = Ok 0 t \/ Get iref t = Abort /\ IsCheckJniEnabled = false.
Proof.
  intros Ht Hno. unfold Get, mbind, T_bind.
  destruct (GetChecked_other t iref Ht Hno) as [-> |[-> ?]]; [by left|by right].
Qed.

(** ** Segments, growth and roots *)

Lemma push_segment t bases : irt_ok t bases -> irt_ok t (segment_state_ t :: bases).
Proof.
  intros [Ht Hd Hti Hh]. split; [done|by split|apply List.Forall_cons; [|done]|].
  - intros H. simpl in H. lia.
  - destruct Hh as [?|(lo & hi & Hin & ?)]; [by left|right].
    exists lo, hi. split; [by right|done].
Qed.

Lemma pop_segment t prev rest : irt_ok t (prev :: rest) -> irt_ok (with_top t prev) rest.
Proof.
  intros [Ht [Hle Hd] Hti Hh]. pose proof (descending_nonneg _ _ Hd).
  split; [|done|by apply (Forall_inv_tail Hti)|].
  - destruct Ht as [? ? ? ? ?]. constructor; simpl; done || lia.
  - destruct Hh as [Hh|(lo & hi & Hin & Hlt & Hl & Hn)]; [left; simpl; lia|].
    simpl in Hin. apply elem_of_cons in Hin as [[= -> ->]|Hin]; [left; simpl; lia|].
    right. by exists lo, hi.
Qed.

(** [EnsureFreeCapacity] grows the table or refuses; it aborts exactly when nothing is
    asked of a full resizable table, since [Resize] insists on a larger size. *)
Lemma EnsureFreeCapacity_ok t n :
  table_ok t -> 0 <= n < 2 ^ 31 ->
  (exists t', EnsureFreeCapacity n t = Ok true t' /\ grown t t' /\
     segment_state_ t + n <= max_entries_ t') \/
  EnsureFreeCapacity n t = Ok false t \/
  EnsureFreeCapacity n t = Abort /\ segment_state_ t = max_entries_ t /\ n = 0 /\
    resizable_ t = true.
Proof.
  intros Ht Hn. pose proof (top_bound t Ht). pose proof (max_bound t Ht).
  pose proof kMaxEntries_range. unfold EnsureFreeCapacity. rewrite (T_bind_ok _ _ _ t t) by done.
  rewrite wrap_u_id by (unfold in_u; destruct pointer_bits_ok as [-> | ->]; pows; lia). cbv zeta.
  destruct (_ && _) eqn:E.
  { left. exists t. bools. split_and!; [done|by apply grown_refl|lia]. }
  destruct (resizable_ t) eqn:Er; [|by right; left]. cbn [negb].
  rewrite (proj2 (Z.ltb_ge _ _)) by (destruct pointer_bits_ok as [-> | ->]; pows; lia).
  apply andb_false_iff in E. rewrite Z.ltb_ge, Z.leb_gt in E.
  destruct (Z.lt_ge_cases (max_entries_ t) (segment_state_ t + n)) as [Hlt|Hge].
  - destruct (Z.le_gt_cases (segment_state_ t + n) kMaxEntries) as [Hm|Hm];
      [destruct (MapAnonymous ((segment_state_ t + n) * sizeof_IrtEntry)) eqn:Ea|].
    + left. destruct (Resize_ok t (segment_state_ t + n)) as (t' & Et & Hg & Hmax); try done.
      exists t'. split_and!; [done..|lia].
    + right; left. unfold Resize. rewrite (T_bind_ok _ _ _ t t) by done.
      rewrite (T_bind_ok _ _ _ tt t) by (by rewrite (proj2 (Z.ltb_lt _ _)) by lia).
      by rewrite (proj2 (Z.ltb_ge _ _)), Ea by lia.
    + right; left. unfold Resize. rewrite (T_bind_ok _ _ _ t t) by done.
      rewrite (T_bind_ok _ _ _ tt t) by (by rewrite (proj2 (Z.ltb_lt _ _)) by lia).
      by rewrite (proj2 (Z.ltb_lt _ _)) by lia.
  - right; right. split; [|lia]. unfold Resize. rewrite (T_bind_ok _ _ _ t t) by done.
    unfold mbind, T_bind, check. by rewrite (proj2 (Z.ltb_ge _ _)) by lia.
Qed.

(** The collector sees exactly the live references, in table order. *)
Lemma visit_from_ok t n i :
  table_ok t -> 0 <= i -> i + Z.of_nat n <= max_entries_ t ->
  exists l, visit_from n i t = Ok l t /\
    forall o, o ∈ l <-> exists j, i <= j < i + Z.of_nat n /\ ref_at t j = o /\ o <> 0.
Proof.
  intros Ht. revert i. induction n as [|n IH]; intros i Hi Hn.
  - exists []. split; [done|]. intros o. split; [by intros ?%not_elem_of_nil|].
    intros (j & ? & _). lia.
  - cbn [visit_from]. rewrite (T_bind_ok _ _ _ _ _ (read_ref_ok t i Ht ltac:(lia))).
    destruct (IH (i + 1)) as (l & E & Hl); [lia..|]. rewrite (T_bind_ok _ _ _ _ _ E).
    eexists. split; [done|]. intros o.
    assert ((exists j, i <= j < i + Z.of_nat (S n) /\ ref_at t j = o /\ o <> 0) <->
            ref_at t i = o /\ o <> 0 \/ o ∈ l) as ->.
    { rewrite Hl. split.
      - intros (j & Hj & Hr). destruct (Z.eq_dec j i) as [->|]; [by left|right].
        exists j. split; [lia|done].
      - intros [Hr|(j & Hj & Hr)]; [exists i; split; [lia|done]|exists j; split; [lia|done]]. }
    destruct (Z.eqb_spec (ref_at t i) 0) as [Hz|Hz].
    + split; [by right|]. intros [[<- ?]|?]; done.
    + rewrite elem_of_cons. split; [intros [->|?]; [by left|by right]|].
      intros [[-> ?]|?]; [by left|by right].
Qed.

Lemma VisitRoots_ok t :
  table_ok t ->
  exists l, VisitRoots t = Ok l t /\
    forall o, o ∈ l <-> exists j, 0 <= j < segment_state_ t /\ ref_at t j = o /\ o <> 0.
Proof.
  intros Ht. pose proof (top_bound t Ht). unfold VisitRoots.
  rewrite (T_bind_ok _ _ _ (segment_state_ t) t) by done.
  destruct (visit_from_ok t (Z.to_nat (segment_state_ t)) 0) as (l & E & Hl); [done|lia..|].
  exists l. split; [done|]. intros o. rewrite Hl. split; intros (j & ? & ?); exists j; split; done || lia.
Qed.

(** A new table. *)
Lemma new_table_ok max kind resizable t :
  0 <= max -> IndirectReferenceTable max kind resizable = Some t ->
  irt_ok t [kIRTFirstSegment] /\ kind_ t = kind /\ segment_state_ t = 0.
Proof.
  unfold IndirectReferenceTable. intros Hmax.
  destruct (bool_decide _) eqn:Ek; [done|]. apply bool_decide_eq_false in Ek.
  destruct (Z.ltb_spec (kMaxTableSizeInBytes / sizeof_IrtEntry) max) as [|Hle]; [done|].
  destruct (MapAnonymous _); [|done]. intros [= <-]. split; [|done].
  split; simpl; [|by split| |by left].
  - constructor; simpl; try done.
    + rewrite length_replicate, Z2Nat.id; done.
    + apply Forall_replicate, zero_entry_ok.
  - apply List.Forall_cons; [|constructor]. intros H. simpl in H. lia.
Qed.

(** Two tables with the same live part. *)
Definition same_live (t t' : IRT) : Prop :=
  segment_state_ t' = segment_state_ t /\ kind_ t' = kind_ t /\
  forall j, 0 <= j < segment_state_ t -> ref_at t' j = ref_at t j /\ serial_at t' j = serial_at t j.

Lemma same_live_irt_ok t t' bases :
  irt_ok t bases -> table_ok t' -> same_live t t' ->
  current_num_holes_ t' = current_num_holes_ t ->
  last_known_previous_state_ t' = last_known_previous_state_ t -> irt_ok t' bases.
Proof.
  intros [Ht Hd Hti Hh] Ht' (Es & Ek & Hsame) En El. split; [done|by rewrite Es|rewrite Es|].
  - eapply tight_below; [done| |done]. intros j Hj. apply Hsame. lia.
  - unfold holes_known. rewrite Es, En, El.
    destruct Hh as [Hh|(lo & hi & Hin & Hlt & Hl & Hn)]; [by left|right].
    exists lo, hi. split_and!; [done..|]. rewrite Hn. apply nulls_ext. intros j Hj.
    apply segments_bounds in Hin; [|done]. symmetry. apply Hsame. lia.
Qed.

Lemma trim_start t :
  table_ok t ->
  segment_state_ t <=
  RoundUp pointer_bits (segment_state_ t * sizeof_IrtEntry) kPageSize / sizeof_IrtEntry.
Proof.
  intros Ht. pose proof (top_bound t Ht). pose proof (max_bound t Ht).
  assert (sizeof_IrtEntry = 16 \/ sizeof_IrtEntry = 32) as Hs
    by (unfold sizeof_IrtEntry, kIRTPrevCount; destruct kIsDebugBuild; lia).
  assert (segment_state_ t * sizeof_IrtEntry <= 2 ^ 27) as Hbytes.
  { rewrite kMaxEntries_eq in *. unfold sizeof_IrtEntry, kIRTPrevCount in *.
    destruct kIsDebugBuild; pows; lia. }
  change kPageSize with (2 ^ 12). rewrite RoundUp_eq.
  - apply Z.div_le_lower_bound; [lia|].
    pose proof (Z.mod_pos_bound (segment_state_ t * sizeof_IrtEntry + 2 ^ 12 - 1) (2 ^ 12)).
    pows. lia.
  - destruct pointer_bits_ok; lia.
  - lia.
  - unfold in_u. destruct pointer_bits_ok as [-> | ->]; pows; nia.
Qed.

(** Trimming releases memory above the live part only. *)
Lemma Trim_ok t bases :
  irt_ok t bases -> exists t', Trim t = Ok tt t' /\ irt_ok t' bases /\ same_live t t'.
Proof.
  intros Hok. pose proof (irt_table _ _ Hok) as Ht. pose proof (top_bound t Ht) as Hb.
  pose proof (trim_start t Ht) as Hs. unfold Trim. rewrite (T_bind_ok _ _ _ t t) by done.
  set (n := Z.to_nat (Z.min _ (max_entries_ t))). eexists. split; [reflexivity|].
  assert (same_live t (with_table t (take n (table_ t) ++
            replicate (length (drop n (table_ t))) zero_entry) (max_entries_ t))) as Hsl.
  { split_and!; [done..|]. intros j Hj. unfold ref_at, serial_at. simpl.
    rewrite lookup_app_l, lookup_take_lt; [done|lia|].
    rewrite length_take. pose proof (table_length t Ht). lia. }
  split; [|exact Hsl]. eapply same_live_irt_ok; [done| |done..].
  destruct Ht as [Hl Hm Htop He Hk]. constructor; simpl; try done.
  - rewrite length_app, length_take, length_replicate, length_drop. lia.
  - apply Forall_app. split; [by apply Forall_take|apply Forall_replicate, zero_entry_ok].
Qed.

(** [Update] redirects a live reference. *)
Lemma Update_live t i obj :
  table_ok t -> 0 <= i < segment_state_ t -> ref_at t i <> 0 ->
  exists t', Update (iref_of t i) obj t = Ok tt t' /\
    t' = with_table t (table_ t') (max_entries_ t) /\ entry_changed t t' i obj (serial_at t i).
Proof.
  intros Ht Hi Hr. pose proof (top_bound t Ht) as Hb. unfold Update.
  rewrite (T_bind_ok _ _ _ _ _ (GetChecked_live t i Ht Hi Hr)).
  rewrite (proj1 (iref_of_decode t i Ht ltac:(lia))). apply set_entry_ok; [done|lia].
Qed.
End Invariant.
