(* ===== verification/IndirectReferenceTableSpec.v ===== *)
(** * What an indirect reference table promises

    The life of a reference, from [Add] to [Remove] and past the reuse of its slot, and
    the invariant every operation keeps. *)
From S2P Require Import Prelude IndirectReferenceTable IndirectReferenceTableFacts.

Section Promises.
Context `{Cfg : IrtConfig}.

(** [iref] gives no object: [Get] returns null, or aborts without CheckJNI. *)
Definition dead (iref : Z) (t : IRT) : Prop :=
  Get iref t = Ok 0 t \/ Get iref t = Abort /\ IsCheckJniEnabled = false.

(** [Get] gives [obj]. *)
Definition resolves (iref obj : Z) (t : IRT) : Prop := Get iref t = Ok obj t.

Lemma holds_resolves t iref obj :
  table_ok t -> holds t 0 (segment_state_ t) iref obj -> resolves iref obj t.
Proof. intros Ht (i & Hi & -> & <- & Ho). by apply Get_live. Qed.

Lemma not_held_dead t iref :
  table_ok t -> (forall obj, ~ holds t 0 (segment_state_ t) iref obj) -> dead iref t.
Proof. apply Get_other. Qed.

Lemma not_held t i :
  table_ok t -> 0 <= i < max_entries_ t -> ref_at t i = 0 \/ segment_state_ t <= i ->
  forall obj, ~ holds t 0 (segment_state_ t) (iref_of t i) obj.
Proof.
  intros Ht Hi Hd obj (j & Hj & E & Hr & Ho). pose proof (top_bound t Ht).
  apply iref_of_inj in E as ->; [|done|lia..]. destruct Hd; [congruence|lia].
Qed.

Lemma added_iref t t' prev obj i s :
  added t t' prev obj i s -> iref_of t' i = EncodeIndirectRef (kind_ t) i s.
Proof. intros (_ & (Ek & _) & _ & _ & Es & _). unfold iref_of. by rewrite Ek, Es. Qed.

(** Live references keep their objects when one is added. *)
Lemma added_keeps t t' prev rest obj i s iref o :
  irt_ok t (prev :: rest) -> irt_ok t' (prev :: rest) -> added t t' prev obj i s ->
  holds t 0 (segment_state_ t) iref o -> holds t' 0 (segment_state_ t') iref o.
Proof.
  intros Hok Hok' (Hi & (Ek & _) & _ & _ & _ & Hwhere & Hkeep & _) (j & Hj & -> & <- & Ho).
  assert (j <> i) as Hne by (intros ->; destruct Hwhere as [[-> _]|(_ & Hz & _)]; [lia|congruence]).
  destruct (Hkeep j ltac:(lia) Hne) as [E1 E2]. exists j. unfold iref_of.
  rewrite E1, E2, Ek. split_and!; done || lia.
Qed.

(** A reference that is live is not the one added. *)
Lemma added_fresh t t' prev rest obj i s o :
  irt_ok t (prev :: rest) -> irt_ok t' (prev :: rest) -> added t t' prev obj i s ->
  ~ holds t 0 (segment_state_ t) (EncodeIndirectRef (kind_ t) i s) o.
Proof.
  intros Hok Hok' Hadd (j & Hj & E & Hr & Ho).
  pose proof (irt_table _ _ Hok) as Ht. pose proof (top_bound t Ht). pose proof (max_bound t Ht).
  pose proof (irt_table _ _ Hok') as Ht'. pose proof (top_bound t' Ht'). pose proof (max_bound t' Ht').
  pose proof (descending_nonneg _ _ (proj2 (irt_bases _ _ Hok))) as Hprev.
  destruct Hadd as (Hi & _ & Hs & _ & _ & Hwhere & _).
  unfold iref_of in E. apply EncodeIndirectRef_inj in E as [<- _]; [| lia | done | lia |].
  - destruct Hwhere as [[-> _]|(_ & Hz & _)]; [lia|congruence].
  - apply serial_at_range; done || lia.
Qed.

(** The objects a redirected entry leaves. *)
Lemma updated_holds t t' i obj :
  table_ok t -> 0 <= i < segment_state_ t -> obj <> 0 ->
  t' = with_table t (table_ t') (max_entries_ t) -> entry_changed t t' i obj (serial_at t i) ->
  table_ok t' /\ iref_of t' i = iref_of t i /\ holds t' 0 (segment_state_ t') (iref_of t i) obj.
Proof.
  intros Ht Hi Ho Et (Ht' & Hr & Hs & _).
  assert (iref_of t' i = iref_of t i) as Ei by (unfold iref_of; by rewrite Hs, Et).
  assert (segment_state_ t' = segment_state_ t) as Es by (by rewrite Et).
  split_and!; [done..|]. exists i. by rewrite Es, Ei.
Qed.

Lemma removed_dead t t' prev rest i :
  irt_ok t (prev :: rest) -> irt_ok t' (prev :: rest) -> 0 <= i < segment_state_ t ->
  removed t t' prev i -> dead (iref_of t i) t'.
Proof.
  intros Hok Hok' Hi (Htop & (Ek & _) & Hz & Hs & _).
  pose proof (irt_table _ _ Hok) as Ht. pose proof (irt_table _ _ Hok') as Ht'.
  pose proof (top_bound t Ht). apply not_held_dead; [done|].
  intros obj (j & Hj & E & Hr & Ho). unfold iref_of in E. rewrite Ek in E.
  pose proof (top_bound t' Ht'). pose proof (max_bound t Ht). pose proof (max_bound t' Ht').
  apply EncodeIndirectRef_inj in E as [-> _].
  - congruence.
  - lia.
  - apply serial_at_range; done || lia.
  - lia.
  - apply serial_at_range; done || lia.
Qed.

(** A slot is reused under another serial number. *)
Lemma reused_differs t t1 t2 prev rest obj i j s :
  irt_ok t (prev :: rest) -> irt_ok t1 (prev :: rest) -> irt_ok t2 (prev :: rest) ->
  prev <= i < segment_state_ t -> removed t t1 prev i -> added t1 t2 prev obj j s ->
  EncodeIndirectRef (kind_ t1) j s <> iref_of t i.
Proof.
  intros Hok Hok1 Hok2 Hi (_ & (Ek & _ & Em) & _ & Hs & _)
    (Hj & _ & Hsr & _ & _ & _ & _ & Hfresh) E.
  pose proof (irt_table _ _ Hok) as Ht. pose proof (irt_table _ _ Hok2) as Ht2.
  pose proof (top_bound t Ht). pose proof (max_bound t Ht).
  pose proof (top_bound t2 Ht2). pose proof (max_bound t2 Ht2).
  pose proof (descending_nonneg _ _ (proj2 (irt_bases _ _ Hok))) as Hprev.
  unfold iref_of in E. rewrite Ek in E.
  apply EncodeIndirectRef_inj in E as [-> ->]; [|lia|done|lia|apply serial_at_range; done || lia].
  apply Hfresh; [lia|done].
Qed.

(** C26. The life of an indirect reference.  [Add] on a well-formed table with room gives
    a reference that was not live; [Get] on it gives the object, and every reference
    that was live still gives its own.  [Update] redirects it.  [Remove] makes it dead,
    and the next [Add] never gives it again, even in the same slot: the serial number
    in the reference has moved on. *)
Theorem indirect_reference_lifetime (t : IRT) (prev : Z) (rest : list Z) (obj : Z) :
  irt_ok t (prev :: rest) -> obj <> 0 -> has_room t ->
  exists iref t1,
    Add prev obj t = Ok iref t1 /\ irt_ok t1 (prev :: rest) /\
    (forall o, ~ holds t 0 (segment_state_ t) iref o) /\ resolves iref obj t1 /\
    (forall r o, holds t 0 (segment_state_ t) r o -> resolves r o t1) /\
    (forall obj', obj' <> 0 -> exists t2, Update iref obj' t1 = Ok tt t2 /\ resolves iref obj' t2) /\
    exists t2, Remove prev iref t1 = Ok true t2 /\ irt_ok t2 (prev :: rest) /\ dead iref t2 /\
      forall obj' iref' t3, obj' <> 0 -> has_room t2 -> Add prev obj' t2 = Ok iref' t3 -> iref' <> iref.
Proof.
  intros Hok Hobj Hroom. destruct (Add_ok t prev rest obj Hok Hobj Hroom) as (t1 & i & s & E & Hadd & Hok1).
  pose proof (irt_table _ _ Hok1) as Ht1.
  pose proof (descending_nonneg _ _ (proj2 (irt_bases _ _ Hok))) as Hprev.
  exists (EncodeIndirectRef (kind_ t) i s), t1. split; [done|]. split; [done|].
  split; [by intros o; eapply added_fresh|].
  pose proof (added_iref _ _ _ _ _ _ Hadd) as Ei. rewrite <- Ei.
  pose proof Hadd as (Hi & _ & _ & Hr & _).
  assert (ref_at t1 i <> 0) as Hn by congruence.
  split; [unfold resolves; rewrite <- Hr; apply Get_live; done || lia|].
  split; [intros r o Hh; apply holds_resolves; [done|exact (added_keeps _ _ _ _ _ _ _ _ _ Hok Hok1 Hadd Hh)]|]. split.
  - intros obj' Ho. destruct (Update_live t1 i obj' Ht1 ltac:(lia) Hn) as (t2 & E2 & Et2 & Hc).
    destruct (updated_holds t1 t2 i obj' Ht1 ltac:(lia) Ho Et2 Hc) as (Ht2 & _ & Hh).
    exists t2. split; [done|by apply holds_resolves].
  - destruct (Remove_live t1 prev rest i Hok1 Hi Hn) as (t2 & E2 & Hrem & Hok2).
    exists t2. split; [done|]. split; [done|]. split; [eapply removed_dead; done || lia|].
    intros obj' iref' t3 Ho' Hroom2 E3.
    destruct (Add_ok t2 prev rest obj' Hok2 Ho' Hroom2) as (t3' & j & s' & E3' & Hadd' & Hok3).
    rewrite E3' in E3. injection E3 as <- <-. exact (reused_differs _ _ _ _ _ _ _ _ _ Hok1 Hok2 Hok3 Hi Hrem Hadd').
Qed.

(** ** The invariant *)

#[export] Instance has_room_dec t : Decision (has_room t).
Proof. unfold has_room. apply _. Defined.

(** A call keeps the invariant, or aborts because of [why]; it never reads outside
    the table. *)
Definition keeps {A} (bases : list Z) (why : Prop) (r : Result A) : Prop :=
  match r with Ok _ t' => irt_ok t' bases | Abort => why | Fault => False end.

(** Redirecting a live entry to another object leaves the holes as they are. *)
Lemma updated_irt_ok t t' bases i obj s :
  irt_ok t bases -> 0 <= i < segment_state_ t -> ref_at t i <> 0 -> obj <> 0 ->
  t' = with_table t (table_ t') (max_entries_ t) -> entry_changed t t' i obj s -> irt_ok t' bases.
Proof.
  intros [Ht Hd Hti Hh] Hi Hn Ho Et (Ht' & Hr & _ & Hkeep).
  assert (forall j, 0 <= j -> (ref_at t' j = 0 <-> ref_at t j = 0)) as Hsame.
  { intros j Hj. destruct (Z.eq_dec j i) as [->|Hne]; [by rewrite Hr|].
    by rewrite (proj1 (Hkeep j Hj Hne)). }
  assert (segment_state_ t' = segment_state_ t) as Es by (by rewrite Et).
  split; [done|by rewrite Es|rewrite Es|].
  - apply Forall_forall. intros [lo hi] Hin%list_elem_of_In Hlt. rewrite Forall_forall in Hti.
    specialize (Hti (lo, hi) (proj1 (list_elem_of_In _ _) Hin) Hlt). simpl in *.
    apply segments_bounds in Hin; [|done]. by rewrite Hsame by lia.
  - unfold holes_known. rewrite Es, Et. cbn [last_known_previous_state_ current_num_holes_ with_table].
    destruct Hh as [Hh|(lo & hi & Hin & Hlt & Hl & Hh)]; [by left|right].
    exists lo, hi. split_and!; [done..|]. rewrite Hh, <- Et.
    pose proof (segments_bounds _ _ _ _ Hd Hin) as Hb.
    destruct (decide (lo <= i < hi)) as [Hin'|Hout].
    + rewrite (nulls_update (ref_at t) (ref_at t') lo hi i), Hr by (intros; try apply Hkeep; lia).
      rewrite !(proj2 (Z.eqb_neq _ 0)) by done. lia.
    + apply nulls_ext. intros j Hj. symmetry. apply Hkeep; lia.
Qed.

(** A reference is live or not. *)
Lemma holds_dec t lo hi iref :
  table_ok t -> 0 <= lo -> hi <= max_entries_ t ->
  (exists i, lo <= i < hi /\ iref = iref_of t i /\ ref_at t i <> 0) \/
  (forall obj, ~ holds t lo hi iref obj).
Proof.
  intros Ht Hlo Hhi. set (i := ExtractIndex iref).
  destruct (decide (lo <= i < hi /\ iref = iref_of t i /\ ref_at t i <> 0)) as [H|H].
  - left. by exists i.
  - right. intros obj (j & Hj & E & Hr & Ho). apply H.
    assert (i = j) as -> by (unfold i; rewrite E; apply iref_of_decode; done || lia).
    split_and!; congruence || lia.
Qed.

Lemma Update_keeps t bases iref obj :
  irt_ok t bases -> obj <> 0 -> keeps bases (IsCheckJniEnabled = false) (Update iref obj t).
Proof.
  intros Hok Ho. pose proof (irt_table _ _ Hok) as Ht.
  destruct (holds_dec t 0 (segment_state_ t) iref Ht ltac:(lia) ltac:(apply Ht))
    as [(i & Hi & -> & Hn)|Hdead].
  - destruct (Update_live t i obj Ht Hi Hn) as (t' & -> & Et & Hc).
    exact (updated_irt_ok _ _ _ _ _ _ Hok Hi Hn Ho Et Hc).
  - unfold Update. destruct (GetChecked_other t iref Ht Hdead) as [E|[E Hj]].
    + by rewrite (T_bind_ok _ _ _ _ _ E).
    + unfold mbind, T_bind. by rewrite E.
Qed.

Lemma Remove_keeps t prev rest iref :
  irt_ok t (prev :: rest) ->
  keeps (prev :: rest) (IsCheckJniEnabled = false) (Remove prev iref t).
Proof.
  intros Hok. pose proof (irt_table _ _ Hok) as Ht.
  pose proof (descending_nonneg _ _ (proj2 (irt_bases _ _ Hok))) as Hprev.
  destruct (holds_dec t prev (segment_state_ t) iref Ht ltac:(lia) ltac:(apply Ht))
    as [(i & Hi & -> & Hn)|Hdead].
  - by destruct (Remove_live t prev rest i Hok Hi Hn) as (t' & -> & _ & Hok').
  - destruct (Remove_other t prev rest iref Hok Hdead) as [(t' & Ht' & ->)|[-> Hj]]; [|done].
    destruct Ht' as [-> | ->]; [done|by apply recovered_irt_ok].
Qed.

Lemma Add_keeps t prev rest obj :
  irt_ok t (prev :: rest) -> keeps (prev :: rest) (obj = 0 \/ ~ has_room t) (Add prev obj t).
Proof.
  intros Hok. destruct (Z.eq_dec obj 0) as [->|Ho]; [by left|].
  destruct (decide (has_room t)) as [Hroom|Hroom].
  - by destruct (Add_ok t prev rest obj Hok Ho Hroom) as (t' & i & s & -> & _ & Hok').
  - rewrite (Add_full t prev rest obj Hok Hroom). by right.
Qed.


(** The collector sees every object a table keeps alive: [VisitRoots] hands over
    exactly the objects the live references give. *)
Theorem visit_roots_complete (t : IRT) (bases : list Z) :
  irt_ok t bases ->
  exists roots, VisitRoots t = Ok roots t /\
    forall o, o ∈ roots <-> o <> 0 /\ exists iref, resolves iref o t.
Proof.
  intros Hok. pose proof (irt_table _ _ Hok) as Ht. destruct (VisitRoots_ok t (irt_table _ _ Hok)) as (l & E & Hl).
  exists l. split; [done|]. intros o. rewrite Hl. split.
  - intros (j & Hj & <- & Ho). split; [done|]. exists (iref_of t j). by apply Get_live.
  - intros (Ho & iref & Hres). unfold resolves in Hres.
    destruct (holds_dec t 0 (segment_state_ t) iref Ht ltac:(lia) ltac:(apply Ht))
      as [(i & Hi & -> & Hn)|Hdead].
    + rewrite Get_live in Hres by done. injection Hres as <-. by exists i.
    + destruct (Get_other t iref Ht Hdead) as [E'|[E' _]]; congruence.
Qed.
End Promises.

(** ** A concrete table *)

(** A 64-bit release build without CheckJNI, where memory can be mapped. *)
Definition sample_config : IrtConfig :=
  {| kIsDebugBuild := false; pointer_bits := 64; IsCheckJniEnabled := false;
     MapAnonymous := fun _ => true; HandleScopeContains := fun _ => false;
     pointer_bits_ok := or_intror eq_refl |}.

Definition sample_table : IRT :=
  Eval vm_compute in
  match @IndirectReferenceTable sample_config 2 kGlobal true with
  | Some t => match @Add sample_config 0 7000 t with Ok _ t' => t' | _ => t end
  | None => {| segment_state_ := 0; table_ := []; kind_ := kGlobal; max_entries_ := 0;
               current_num_holes_ := 0; last_known_previous_state_ := 0; resizable_ := false |}
  end.

Lemma sample_table_ok : @irt_ok sample_config sample_table [kIRTFirstSegment].
Proof.
  destruct (@IndirectReferenceTable sample_config 2 kGlobal true) as [t|] eqn:E;
    [|by vm_compute in E].
  destruct (@new_table_ok sample_config 2 kGlobal true t ltac:(lia) E) as [Hok _].
  pose proof (@Add_keeps sample_config t kIRTFirstSegment [] 7000 Hok) as H.
  assert (@Add sample_config kIRTFirstSegment 7000 t = Ok 6 sample_table) as Ea
    by (vm_compute in E; injection E as <-; vm_compute; reflexivity).
  rewrite Ea in H. exact H.
Qed.

Lemma sample_has_room : @has_room sample_config sample_table.
Proof. left. reflexivity. Qed.

Lemma indirect_reference_lifetime_witness :
  exists iref t1 t2, @Add sample_config 0 8000 sample_table = Ok iref t1 /\
    @resolves sample_config iref 8000 t1 /\ @resolves sample_config 6 7000 t1 /\
    @Remove sample_config 0 iref t1 = Ok true t2 /\ @dead sample_config iref t2.
Proof.
  destruct (@indirect_reference_lifetime sample_config sample_table 0 [] 8000
              sample_table_ok ltac:(lia) sample_has_room)
    as (iref & t1 & E & _ & _ & Hres & Hold & _ & t2 & Erem & _ & Hdead & _).
  exists iref, t1, t2. split_and!; try done. apply Hold. exists 0. split_and!; vm_compute; done.
Defined.


Lemma visit_roots_complete_witness :
  exists roots, VisitRoots sample_table = Ok roots sample_table /\ 7000 ∈ roots.
Proof.
  destruct (@visit_roots_complete sample_config sample_table _ sample_table_ok) as (l & E & H).
  exists l. split; [done|]. apply H. split; [done|]. exists 6. by vm_compute.
Defined.
