(* ===== verification/JniEnv.v ===== *)
(** * JNI local references ([runtime/jni_env_ext.cc], [runtime/jni_internal.cc])

    The environment native code runs in: a table of local references, the cookie of the
    current frame and the cookies of the enclosing ones.  The abstract machine is a stack
    of finite maps from references to objects; the environment refines it. *)
From stdpp Require Import gmap.
From S2P Require Import Prelude IndirectReferenceTable IndirectReferenceTableFacts.

(** ** The environment *)

Definition kLocalsInitial : Z := 512.
Definition JNI_OK : Z := 0.
Definition JNI_ERR : Z := -1.

(** [stacked_local_ref_cookies] is a vector used at its back, here the head. *)
Record JNIEnvExt := {
  locals : IRT;
  local_ref_cookie : Z;
  stacked_local_ref_cookies : list Z
}.

(** [EnvFault] is a use the source leaves undefined. *)
Inductive EnvResult (A : Type) := EnvOk (a : A) (env : JNIEnvExt) | EnvAbort | EnvFault.
Arguments EnvOk {A} a env.
Arguments EnvAbort {A}.
Arguments EnvFault {A}.

Definition E (A : Type) : Type := JNIEnvExt -> EnvResult A.
#[export] Instance E_ret : MRet E := fun A a env => EnvOk a env.
#[export] Instance E_bind : MBind E := fun A B k c env =>
  match c env with EnvOk a env => k a env | EnvAbort => EnvAbort | EnvFault => EnvFault end.

(** An operation of the table. *)
Definition on_locals {A} (c : T A) : E A := fun env =>
  match c (locals env) with
  | Ok a t =>
      EnvOk a {| locals := t; local_ref_cookie := local_ref_cookie env;
                 stacked_local_ref_cookies := stacked_local_ref_cookies env |}
  | Abort => EnvAbort
  | Fault => EnvFault
  end.
Definition get_env : E JNIEnvExt := fun env => EnvOk env env.
Definition env_abort {A} : E A := fun _ => EnvAbort.

Section Env.
Context `{Cfg : IrtConfig}.

(** References that are not local (handles, globals) are decoded elsewhere; [None]
    is an abort there. *)
Context (decode_other : Z -> option Z).

Definition JNIEnvExt_Create : option JNIEnvExt :=
  match IndirectReferenceTable kLocalsInitial kLocal true with
  | Some t => Some {| locals := t; local_ref_cookie := kIRTFirstSegment;
                      stacked_local_ref_cookies := [] |}
  | None => None
  end.

Definition NewLocalRef (obj : Z) : E Z :=
  if obj =? 0 then mret 0
  else env ← get_env; on_locals (Add (local_ref_cookie env) obj).

Definition DeleteLocalRef (obj : Z) : E unit :=
  if obj =? 0 then mret tt
  else
    env ← get_env;
    _ ← on_locals (Remove (local_ref_cookie env) obj);
    mret tt.

Definition push_cookie : E unit := fun env =>
  EnvOk tt {| locals := locals env; local_ref_cookie := segment_state_ (locals env);
              stacked_local_ref_cookies :=
                local_ref_cookie env :: stacked_local_ref_cookies env |}.

Definition PushFrame (capacity : Z) : E unit :=
  on_locals (dcheck (free ← FreeCapacity; mret (capacity <=? free)));;
  push_cookie.

Definition pop_cookie : E unit := fun env =>
  match stacked_local_ref_cookies env with
  | [] => EnvFault
  | c :: rest =>
      EnvOk tt {| locals := locals env; local_ref_cookie := c;
                  stacked_local_ref_cookies := rest |}
  end.

Definition PopFrame : E unit :=
  env ← get_env;
  on_locals (SetSegmentState (local_ref_cookie env));;
  pop_cookie.

(** [Thread::DecodeJObject]: a reference that is not live aborts. *)
Definition DecodeJObject (obj : Z) : E Z :=
  if obj =? 0 then mret 0
  else if bool_decide (GetIndirectRefKind obj = kLocal) then
    result ← on_locals (Get obj);
    if result =? 0 then env_abort else mret result
  else match decode_other obj with Some o => mret o | None => env_abort end.

(** [soa.AddLocalReference<jobject>(obj)] *)
Definition AddLocalReference (obj : Z) : E Z :=
  if obj =? 0 then mret 0
  else env ← get_env; on_locals (Add (local_ref_cookie env) obj).

Definition EnsureLocalCapacityInternal (desired_capacity : Z) : E Z :=
  if desired_capacity <? 0 then mret JNI_ERR
  else
    ok ← on_locals (EnsureFreeCapacity desired_capacity);
    mret (if ok : bool then JNI_OK else JNI_ERR).

Definition PushLocalFrame (capacity : Z) : E Z :=
  r ← EnsureLocalCapacityInternal capacity;
  if negb (r =? JNI_OK) then mret JNI_ERR
  else PushFrame capacity;; mret JNI_OK.

Definition PopLocalFrame (java_survivor : Z) : E Z :=
  survivor ← DecodeJObject java_survivor;
  PopFrame;;
  AddLocalReference survivor.

(** The functions of the JNI interface on local references. *)
Definition JNI_NewLocalRef (obj : Z) : E Z :=
  decoded_obj ← DecodeJObject obj;
  if decoded_obj =? 0 then mret 0 else AddLocalReference decoded_obj.
Definition JNI_DeleteLocalRef (obj : Z) : E unit := DeleteLocalRef obj.
Definition JNI_EnsureLocalCapacity (desired_capacity : Z) : E Z :=
  EnsureLocalCapacityInternal desired_capacity.

(** ** The abstract machine *)

Definition Frames : Type := list (gmap Z Z).

(** The object a local reference names in any frame. *)
Fixpoint lookup_frames (frames : Frames) (r : Z) : option Z :=
  match frames with
  | [] => None
  | m :: rest => match m !! r with Some o => Some o | None => lookup_frames rest r end
  end.

(** What decoding gives. *)
Definition decoded (frames : Frames) (r : Z) : option Z :=
  if r =? 0 then Some 0
  else if bool_decide (GetIndirectRefKind r = kLocal) then lookup_frames frames r
  else decode_other r.

(** The calls native code makes. *)
Inductive JniCall :=
| CallNewRef (r : Z)
| CallDeleteRef (r : Z)
| CallPush (capacity : Z)
| CallPop (survivor : Z)
| CallEnsure (capacity : Z)
| CallDecode (r : Z).

Definition run_call (c : JniCall) : E Z :=
  match c with
  | CallNewRef r => JNI_NewLocalRef r
  | CallDeleteRef r => JNI_DeleteLocalRef r;; mret 0
  | CallPush n => PushLocalFrame n
  | CallPop s => PopLocalFrame s
  | CallEnsure n => JNI_EnsureLocalCapacity n
  | CallDecode r => DecodeJObject r
  end.

(** A new reference to [o] in the top frame, unlike all live ones; none for null. *)
Inductive spec_new (o : Z) : Frames -> Z -> Frames -> Prop :=
| spec_new_null frames : o = 0 -> spec_new o frames 0 frames
| spec_new_ref m rest r :
    o <> 0 -> r <> 0 -> lookup_frames (m :: rest) r = None ->
    spec_new o (m :: rest) r (<[r := o]> m :: rest).

Inductive spec_call : JniCall -> Frames -> Z -> Frames -> Prop :=
| spec_NewRef r o frames r' frames' :
    decoded frames r = Some o -> spec_new o frames r' frames' ->
    spec_call (CallNewRef r) frames r' frames'
| spec_DeleteRef r m rest :
    spec_call (CallDeleteRef r) (m :: rest) 0 (delete r m :: rest)
| spec_Push n frames : 0 <= n -> spec_call (CallPush n) frames JNI_OK (∅ :: frames)
| spec_Push_fails n frames : spec_call (CallPush n) frames JNI_ERR frames
| spec_Pop s o m frames r frames' :
    decoded (m :: frames) s = Some o -> spec_new o frames r frames' ->
    spec_call (CallPop s) (m :: frames) r frames'
| spec_Ensure n frames : 0 <= n -> spec_call (CallEnsure n) frames JNI_OK frames
| spec_Ensure_fails n frames : spec_call (CallEnsure n) frames JNI_ERR frames
| spec_Decode r o frames :
    decoded frames r = Some o -> spec_call (CallDecode r) frames o frames.
End Env.
