(* ===== verification/JniEnvRefinement.v ===== *)
(** * The JNI environment refines the stack of frames *)
From stdpp Require Import gmap.
From S2P Require Import Prelude IndirectReferenceTable IndirectReferenceTableFacts.
From S2P Require Import IndirectReferenceTableSpec JniEnv.

Section Refinement.
Context `{Cfg : IrtConfig} (decode_other : Z -> option Z).

(** A frame holds the live references of its segment. *)
Definition seg_rel (t : IRT) (seg : Z * Z) (m : gmap Z Z) : Prop :=
  forall r o, m !! r = Some o <-> holds t (fst seg) (snd seg) r o.

Definition env_bases (env : JNIEnvExt) : list Z :=
  local_ref_cookie env :: stacked_local_ref_cookies env.

Record env_rel (env : JNIEnvExt) (frames : Frames) : Prop := {
  rel_ok : irt_ok (locals env) (env_bases env);
  rel_kind : kind_ (locals env) = kLocal;
  rel_frames : Forall2 (seg_rel (locals env))
                 (segments (segment_state_ (locals env)) (env_bases env)) frames
}.

(** ** Segments and maps *)

Lemma holds_ext t t' lo hi r o :
  kind_ t' = kind_ t ->
  (forall j, lo <= j < hi -> ref_at t' j = ref_at t j /\ serial_at t' j = serial_at t j) ->
  holds t lo hi r o <-> holds t' lo hi r o.
Proof.
  intros Ek H. unfold holds, iref_of. rewrite Ek.
  split; intros (i & Hi & Hr & Ho); exists i; destruct (H i Hi) as [E1 E2].
  - by rewrite E1, E2.
  - by rewrite <- E1, <- E2.
Qed.

Lemma seg_rels_ext t t' hi bases frames :
  descending hi bases -> kind_ t' = kind_ t ->
  (forall j, 0 <= j < hi -> ref_at t' j = ref_at t j /\ serial_at t' j = serial_at t j) ->
  Forall2 (seg_rel t) (segments hi bases) frames ->
  Forall2 (seg_rel t') (segments hi bases) frames.
Proof.
  intros Hd Ek H HF. revert hi Hd H HF. revert frames.
  induction bases as [|lo rest IH]; intros frames hi Hd H HF; simpl in *.
  - by apply Forall2_nil_inv_l in HF as ->.
  - apply Forall2_cons_inv_l in HF as (m & ms & Hm & Hms & ->). destruct Hd as [Hle Hd].
    pose proof (descending_nonneg _ _ Hd). constructor.
    + intros r o. rewrite (Hm r o). simpl. apply holds_ext; [done|]. intros j Hj. apply H. lia.
    + apply IH; [done| |done]. intros j Hj. apply H. lia.
Qed.

Lemma holds_unique t lo hi lo' hi' r o o' :
  table_ok t -> 0 <= lo -> hi <= max_entries_ t -> 0 <= lo' -> hi' <= max_entries_ t ->
  holds t lo hi r o -> holds t lo' hi' r o' ->
  exists i, lo <= i < hi /\ lo' <= i < hi' /\ o = o'.
Proof.
  intros Ht H1 H2 H3 H4 (i & Hi & E & Ho & _) (j & Hj & E' & Ho' & _). rewrite E in E'.
  apply iref_of_inj in E' as ->; [|done|lia..]. exists j. split_and!; lia.
Qed.

Lemma lookup_frames_holds t hi bases frames r o :
  table_ok t -> descending hi bases -> hi <= max_entries_ t ->
  Forall2 (seg_rel t) (segments hi bases) frames ->
  lookup_frames frames r = Some o <-> holds t 0 hi r o.
Proof.
  intros Ht. revert hi frames. induction bases as [|lo rest IH]; intros hi frames Hd Hhi HF.
  - simpl in *. apply Forall2_nil_inv_l in HF as ->. split; [done|].
    intros (i & Hi & _). unfold kIRTFirstSegment in Hd. lia.
  - simpl in HF. apply Forall2_cons_inv_l in HF as (m & ms & Hm & Hms & ->).
    destruct Hd as [Hle Hd]. pose proof (descending_nonneg _ _ Hd) as H0. simpl.
    specialize (IH lo ms Hd ltac:(lia) Hms). destruct (m !! r) as [o'|] eqn:Er.
    + apply Hm in Er. simpl in Er. split.
      * intros [= ->]. destruct Er as (i & Hi & ?). exists i. split; [lia|done].
      * intros H. destruct (holds_unique t lo hi 0 hi r o' o Ht H0 Hhi (Z.le_refl 0) Hhi Er H)
          as (_ & _ & _ & ->). done.
    + rewrite IH. split; intros (i & Hi & Hr); exists i; (split; [|done]); [lia|].
      destruct (Z.lt_ge_cases i lo); [lia|]. exfalso.
      assert (m !! r = Some o) as E by (apply Hm; exists i; split; [simpl; lia|done]). congruence.
Qed.

Lemma rel_lookup env frames r o :
  env_rel env frames ->
  lookup_frames frames r = Some o <-> holds (locals env) 0 (segment_state_ (locals env)) r o.
Proof.
  intros [Hok _ HF]. pose proof (irt_table _ _ Hok) as Ht.
  eapply lookup_frames_holds; [done|apply Hok|apply Ht|done].
Qed.

(** The top frame. *)
Lemma rel_top env frames :
  env_rel env frames ->
  exists m rest, frames = m :: rest /\
    seg_rel (locals env) (local_ref_cookie env, segment_state_ (locals env)) m /\
    Forall2 (seg_rel (locals env))
      (segments (local_ref_cookie env) (stacked_local_ref_cookies env)) rest.
Proof.
  intros [_ _ HF]. simpl in HF. apply Forall2_cons_inv_l in HF as (m & ms & ? & ? & ->). eauto.
Qed.

Lemma rel_cookie env frames :
  env_rel env frames ->
  0 <= local_ref_cookie env <= segment_state_ (locals env) /\
  segment_state_ (locals env) <= max_entries_ (locals env) <= kMaxEntries /\
  descending (local_ref_cookie env) (stacked_local_ref_cookies env).
Proof.
  intros [Hok _ _]. pose proof (irt_bases _ _ Hok) as [H1 H2].
  pose proof (descending_nonneg _ _ H2). pose proof (irt_table _ _ Hok) as Ht.
  pose proof (top_bound _ Ht). pose proof (max_bound _ Ht). split_and!; done || lia.
Qed.

(** ** The operations of the table on frames *)

Definition with_locals (env : JNIEnvExt) (t : IRT) : JNIEnvExt :=
  {| locals := t; local_ref_cookie := local_ref_cookie env;
     stacked_local_ref_cookies := stacked_local_ref_cookies env |}.

Lemma on_locals_ok {A} (c : T A) env a t :
  c (locals env) = Ok a t -> on_locals c env = EnvOk a (with_locals env t).
Proof. unfold on_locals. by intros ->. Qed.

Lemma E_bind_ok {A B} (c : E A) (k : A -> E B) env a env' :
  c env = EnvOk a env' -> (c ≫= k) env = k a env'.
Proof. unfold mbind, E_bind. by intros ->. Qed.

Lemma E_bind_abort {A B} (c : E A) (k : A -> E B) env :
  c env = EnvAbort -> (c ≫= k) env = EnvAbort.
Proof. unfold mbind, E_bind. by intros ->. Qed.

(** Adding a reference. *)
Lemma added_seg_rel t t' prev obj i s m :
  table_ok t' -> 0 <= prev -> segment_state_ t' <= max_entries_ t' -> obj <> 0 ->
  added t t' prev obj i s -> seg_rel t (prev, segment_state_ t) m ->
  seg_rel t' (prev, segment_state_ t') (<[iref_of t' i := obj]> m).
Proof.
  intros Ht' Hp Hmax Hobj (Hi & [Ek _] & Hs & Hr & Hsi & Hc & Hkeep & _) Hm r o. simpl.
  destruct (decide (iref_of t' i = r)) as [<-|Hne].
  - rewrite lookup_insert_eq. split.
    + intros [= <-]. by exists i.
    + intros (j & Hj & E & Ho & _). apply iref_of_inj in E as <-; [by rewrite <- Ho, Hr|done|lia..].
  - rewrite lookup_insert_ne by done. rewrite (Hm r o). simpl.
    split; intros (j & Hj & E & Ho & Hno); exists j.
    + assert (j <> i) by (intros ->; destruct Hc as [[-> ?]|(? & Hz & ?)]; [lia|congruence]).
      destruct (Hkeep j) as [E1 E2]; [lia|done|]. unfold iref_of in *. rewrite E1, E2, Ek.
      split_and!; done || lia.
    + assert (j <> i) by (by intros ->).
      destruct (Hkeep j) as [E1 E2]; [lia|done|]. unfold iref_of in *. rewrite E1, E2, Ek in *.
      split_and!; done || lia.
Qed.

Lemma add_step env frames o :
  env_rel env frames -> o <> 0 -> has_room (locals env) ->
  exists r env' frames', on_locals (Add (local_ref_cookie env) o) env = EnvOk r env' /\
    spec_new o frames r frames' /\ env_rel env' frames'.
Proof.
  intros Hrel Ho Hroom. pose proof (rel_ok _ _ Hrel) as Hok. pose proof (rel_kind _ _ Hrel) as Ekl.
  destruct (rel_top _ _ Hrel) as (m & rest & -> & Hm & Hrest).
  destruct (rel_cookie _ _ Hrel) as (Hc & Hmax & Hd).
  destruct (Add_ok _ _ _ o Hok Ho Hroom) as (t' & i & s & E & Ha & Hok').
  pose proof (irt_table _ _ Hok') as Ht'. pose proof (top_bound _ Ht') as Hb'.
  pose proof (max_bound _ Ht') as Hm'.
  pose proof Ha as (Hi & [Ek _] & Hs & Hr & Hsi & Hcase & Hkeep & _).
  assert (EncodeIndirectRef (kind_ (locals env)) i s = iref_of t' i) as Er
    by (unfold iref_of; by rewrite Ek, Hsi).
  rewrite Er in E. eexists _, _, _. split; [by apply on_locals_ok|]. split.
  - apply spec_new_ref; [done| |].
    + assert (0 < iref_of t' i); [|lia].
      apply EncodeIndirectRef_nonzero; [lia|by rewrite Hsi|apply Ht'].
    + apply eq_None_not_Some. intros [o' H]. apply (rel_lookup _ _ _ _ Hrel) in H.
      destruct H as (j & Hj & E' & Hoj & Hno). rewrite <- Er in E'. unfold iref_of in E'.
      apply EncodeIndirectRef_inj in E' as [<- _]; [|lia|done|lia|].
      * destruct Hcase as [[-> ?]|(? & Hz & ?)]; [lia|congruence].
      * apply serial_at_range; [apply Hok|lia].
  - split; [exact Hok'|simpl; congruence|]. simpl. constructor.
    + eapply added_seg_rel; try done; lia.
    + eapply seg_rels_ext; [done|done| |done]. intros j Hj. apply Hkeep; lia.
Qed.

(** Removing a reference. *)
Lemma removed_seg_rel t t' prev i m :
  table_ok t -> 0 <= prev -> segment_state_ t <= max_entries_ t -> prev <= i < segment_state_ t ->
  removed t t' prev i -> seg_rel t (prev, segment_state_ t) m ->
  seg_rel t' (prev, segment_state_ t') (delete (iref_of t i) m).
Proof.
  intros Ht Hp Hmax Hi (Hb & [Ek _] & Hz & Hsi & Hkeep & Hdead) Hm r o. simpl.
  assert (forall j, 0 <= j -> j <> i -> iref_of t' j = iref_of t j) as Hir.
  { intros j H1 H2. unfold iref_of. by rewrite Ek, (proj2 (Hkeep j H1 H2)). }
  rewrite lookup_delete_Some, (Hm r o). simpl. split.
  - intros [Hne (j & Hj & -> & Ho & Hno)]. exists j.
    assert (j <> i) by (by intros ->). rewrite (proj1 (Hkeep j ltac:(lia) ltac:(lia))), Hir by lia.
    split_and!; try done; [lia|]. destruct (Z.lt_ge_cases j (segment_state_ t')); [done|].
    exfalso. apply Hno. rewrite <- Ho, <- (proj1 (Hkeep j ltac:(lia) ltac:(lia))). apply Hdead. lia.
  - intros (j & Hj & -> & Ho & Hno). assert (j <> i) by (intros ->; congruence).
    rewrite Hir by lia. rewrite (proj1 (Hkeep j ltac:(lia) ltac:(lia))) in Ho. split.
    + intros E. apply iref_of_inj in E; [lia|done|lia..].
    + exists j. split_and!; done || lia.
Qed.

(** A table with the same live part holds the same frames. *)
Lemma rel_same_live env frames t' :
  env_rel env frames -> irt_ok t' (env_bases env) -> same_live (locals env) t' ->
  env_rel (with_locals env t') frames.
Proof.
  intros Hrel Hok' (Es & Ek & Hsame). split; [done|simpl; rewrite Ek; apply Hrel|].
  cbn [locals with_locals]. rewrite Es.
  eapply seg_rels_ext; [apply Hrel|done|done|apply Hrel].
Qed.

Lemma rel_recovered env frames :
  env_rel env frames ->
  env_rel (with_locals env (recovered (locals env) (local_ref_cookie env))) frames.
Proof. intros Hrel. apply rel_same_live; [done|apply recovered_irt_ok, Hrel|done]. Qed.

Lemma rel_grown env frames t' :
  env_rel env frames -> grown (locals env) t' -> env_rel (with_locals env t') frames.
Proof.
  intros Hrel Hg. apply rel_same_live; [done|by eapply grown_irt_ok; [apply Hrel|]|].
  destruct (rel_cookie _ _ Hrel) as (_ & Hm & _). destruct Hg as (_ & -> & _ & Hsame).
  split_and!; [done..|]. intros j Hj. apply Hsame. lia.
Qed.

Lemma delete_step env m rest r :
  env_rel env (m :: rest) ->
  (exists env', DeleteLocalRef r env = EnvOk tt env' /\ env_rel env' (delete r m :: rest)) \/
  DeleteLocalRef r env = EnvAbort /\ IsCheckJniEnabled = false /\ m !! r = None /\ r <> 0.
Proof.
  intros Hrel. destruct (rel_top _ _ Hrel) as (m' & rest' & [= <- <-] & Hm & Hrest).
  destruct (rel_cookie _ _ Hrel) as (Hc & Hmax & Hd). pose proof (rel_ok _ _ Hrel) as Hok.
  pose proof (irt_table _ _ Hok) as Ht. unfold DeleteLocalRef.
  assert (m !! r = None -> delete r m = m) as Hdel by apply delete_id.
  destruct (Z.eqb_spec r 0) as [->|Hr0].
  { left. exists env. split; [done|]. rewrite Hdel; [done|]. apply eq_None_not_Some.
    intros [o (i & Hi & E & _)%Hm]. simpl in Hi.
    assert (0 < iref_of (locals env) i); [|lia].
    apply EncodeIndirectRef_nonzero; [lia|apply serial_at_range; done || lia|apply Ht]. }
  rewrite (E_bind_ok _ _ _ env env) by done. destruct (m !! r) as [o|] eqn:Er.
  - pose proof (proj1 (Hm r o) Er) as (i & Hi & E & Ho & Hno). simpl in Hi. left.
    destruct (Remove_live _ _ _ i Hok Hi) as (t' & E' & Hrem & Hok'); [congruence|].
    rewrite <- E in E'. exists (with_locals env t'). split.
    + by rewrite (E_bind_ok _ _ _ _ _ (on_locals_ok _ _ _ _ E')).
    + pose proof Hrem as (Hb & [Ek _] & _ & _ & Hkeep & _).
      split; [done|simpl; rewrite Ek; apply Hrel|]. simpl. constructor.
      * rewrite E. eapply removed_seg_rel; try done; lia.
      * eapply seg_rels_ext; [done|done| |done]. intros j Hj. apply Hkeep; lia.
  - rewrite (Hdel eq_refl).
    destruct (Remove_other _ _ _ r Hok) as [(t' & Ht' & E')|[E' Hj]].
    + intros o Ho. apply (Hm r o) in Ho. congruence.
    + left. exists (with_locals env t'). split.
      * by rewrite (E_bind_ok _ _ _ _ _ (on_locals_ok _ _ _ _ E')).
      * destruct Ht' as [-> | ->]; [by destruct env|by apply rel_recovered].
    + right. split; [|done]. apply E_bind_abort. unfold on_locals. by rewrite E'.
Qed.

Lemma decode_step env frames r :
  env_rel env frames ->
  match decoded decode_other frames r with
  | Some o => DecodeJObject decode_other r env = EnvOk o env
  | None => DecodeJObject decode_other r env = EnvAbort
  end.
Proof.
  intros Hrel. pose proof (irt_table _ _ (rel_ok _ _ Hrel)) as Ht.
  unfold decoded, DecodeJObject. destruct (r =? 0); [done|].
  destruct (bool_decide _); [|by destruct (decode_other r)].
  destruct (lookup_frames frames r) as [o|] eqn:El.
  - apply (rel_lookup _ _ _ _ Hrel) in El as (i & Hi & -> & Ho & Hno).
    assert (Get (iref_of (locals env) i) (locals env) = Ok o (locals env)) as E
      by (rewrite <- Ho; apply Get_live; [done..|congruence]).
    rewrite (E_bind_ok _ _ _ _ _ (on_locals_ok _ _ _ _ E)), (proj2 (Z.eqb_neq o 0)) by done.
    by destruct env.
  - destruct (Get_other (locals env) r Ht) as [E|[E _]].
    + intros o Ho. apply (rel_lookup _ _ _ _ Hrel) in Ho. congruence.
    + by rewrite (E_bind_ok _ _ _ _ _ (on_locals_ok _ _ _ _ E)).
    + apply E_bind_abort. unfold on_locals. by rewrite E.
Qed.

Lemma new_step env frames o :
  env_rel env frames -> (o <> 0 -> has_room (locals env)) ->
  exists r env' frames', AddLocalReference o env = EnvOk r env' /\
    spec_new o frames r frames' /\ env_rel env' frames'.
Proof.
  intros Hrel Hroom. unfold AddLocalReference. destruct (Z.eqb_spec o 0) as [->|Ho].
  - exists 0, env, frames. by split_and!; [|constructor|].
  - rewrite (E_bind_ok _ _ _ env env) by done. by apply add_step; auto.
Qed.

Lemma new_full env frames o :
  env_rel env frames -> o <> 0 -> ~ has_room (locals env) -> AddLocalReference o env = EnvAbort.
Proof.
  intros Hrel Ho Hroom. unfold AddLocalReference. rewrite (proj2 (Z.eqb_neq o 0)) by done.
  rewrite (E_bind_ok _ _ _ env env) by done. unfold on_locals.
  by rewrite (Add_full _ _ _ o (rel_ok _ _ Hrel) Hroom).
Qed.

Lemma ensure_step env frames n :
  env_rel env frames -> n < 2 ^ 31 ->
  (exists env', EnsureLocalCapacityInternal n env = EnvOk JNI_OK env' /\ 0 <= n /\
     env_rel env' frames /\
     segment_state_ (locals env') + n <= max_entries_ (locals env') /\
     stacked_local_ref_cookies env' = stacked_local_ref_cookies env) \/
  EnsureLocalCapacityInternal n env = EnvOk JNI_ERR env \/
  EnsureLocalCapacityInternal n env = EnvAbort /\ n = 0 /\
    segment_state_ (locals env) = max_entries_ (locals env).
Proof.
  intros Hrel Hn. unfold EnsureLocalCapacityInternal.
  destruct (Z.ltb_spec n 0); [by right; left|].
  pose proof (irt_table _ _ (rel_ok _ _ Hrel)) as Ht.
  destruct (EnsureFreeCapacity_ok (locals env) n Ht ltac:(lia))
    as [(t' & E & Hg & Hcap)|[E|(E & Hfull & Hz & _)]].
  - left. exists (with_locals env t').
    rewrite (E_bind_ok _ _ _ _ _ (on_locals_ok _ _ _ _ E)). split; [done|]. split; [done|].
    split; [by apply rel_grown|]. split; [|done]. simpl. destruct Hg as (_ & -> & _). done.
  - right; left. rewrite (E_bind_ok _ _ _ _ _ (on_locals_ok _ _ _ _ E)). by destruct env.
  - right; right. split; [|done]. apply E_bind_abort. unfold on_locals. by rewrite E.
Qed.

Lemma push_step env frames n :
  env_rel env frames -> 0 <= n -> segment_state_ (locals env) + n <= max_entries_ (locals env) ->
  exists env', PushFrame n env = EnvOk tt env' /\ env_rel env' (∅ :: frames).
Proof.
  intros Hrel Hn Hcap. destruct (rel_cookie _ _ Hrel) as (Hc & Hmax & _).
  pose proof kMaxEntries_range. unfold PushFrame.
  rewrite (E_bind_ok _ _ _ tt env).
  - eexists. split; [reflexivity|]. split; [by apply push_segment, Hrel|apply Hrel|].
    simpl. constructor; [|apply Hrel]. intros r o. rewrite lookup_empty. split; [done|].
    intros (i & Hi & _). simpl in Hi. lia.
  - unfold on_locals. rewrite dcheck_ok; [by destruct env|].
    unfold FreeCapacity, mbind, T_bind, get, mret, T_ret.
    rewrite wrap_u_id by (unfold in_u; destruct pointer_bits_ok as [-> | ->]; pows; lia).
    by rewrite (proj2 (Z.leb_le _ _)) by lia.
Qed.

Lemma pop_step env m frames :
  env_rel env (m :: frames) -> stacked_local_ref_cookies env <> [] ->
  exists env', PopFrame env = EnvOk tt env' /\ env_rel env' frames /\
    locals env' = with_top (locals env) (local_ref_cookie env).
Proof.
  intros Hrel Hne. destruct (rel_top _ _ Hrel) as (m' & rest' & [= <- <-] & _ & Hrest).
  pose proof (rel_ok _ _ Hrel) as Hok. unfold env_bases in Hok.
  destruct (stacked_local_ref_cookies env) as [|c rest] eqn:Es; [done|].
  unfold PopFrame. rewrite (E_bind_ok _ _ _ env env) by done.
  rewrite (E_bind_ok _ _ _ tt (with_locals env (with_top (locals env) (local_ref_cookie env)))) by done.
  unfold pop_cookie. simpl. rewrite Es. eexists. split; [reflexivity|]. split; [|done].
  split; [by apply pop_segment in Hok|apply Hrel|]. exact Hrest.
Qed.

(** Why a call may abort the runtime: a reference that is not live, no memory for a
    new one, or no capacity asked of a full table. *)
Definition abort_reason (c : JniCall) (env : JNIEnvExt) (frames : Frames) : Prop :=
  match c with
  | CallNewRef r =>
      decoded decode_other frames r = None \/ ~ has_room (locals env)
  | CallDeleteRef r =>
      IsCheckJniEnabled = false /\ r <> 0 /\ forall m rest, frames = m :: rest -> m !! r = None
  | CallPush n | CallEnsure n =>
      n = 0 /\ segment_state_ (locals env) = max_entries_ (locals env)
  | CallPop s =>
      decoded decode_other frames s = None \/
      ~ has_room (with_top (locals env) (local_ref_cookie env))
  | CallDecode r => decoded decode_other frames r = None
  end.

(** The arguments of the calls have the type [jint]. *)
Definition call_ok (c : JniCall) : Prop :=
  match c with CallPush n | CallEnsure n => in_s 32 n | _ => True end.

(** A call is done as the frames say, aborts for a reason, or pops the last frame. *)
Definition call_refines (c : JniCall) (env : JNIEnvExt) (frames : Frames) : Prop :=
  match run_call decode_other c env with
  | EnvOk r env' => exists frames', spec_call decode_other c frames r frames' /\ env_rel env' frames'
  | EnvAbort => abort_reason c env frames
  | EnvFault => (exists s, c = CallPop s) /\ length frames = 1%nat
  end.

Lemma refines_NewRef env frames r : env_rel env frames -> call_refines (CallNewRef r) env frames.
Proof.
  intros Hrel. unfold call_refines, run_call, JNI_NewLocalRef.
  pose proof (decode_step env frames r Hrel) as Hd.
  destruct (decoded decode_other frames r) as [o|] eqn:Ed.
  2: { rewrite (E_bind_abort _ _ _ Hd). by left. }
  rewrite (E_bind_ok _ _ _ _ _ Hd). destruct (Z.eqb_spec o 0) as [->|Ho].
  - simpl. exists frames. split; [|done]. econstructor; [done|]. by constructor.
  - destruct (decide (has_room (locals env))) as [Hroom|Hroom].
    + destruct (new_step env frames o Hrel) as (r' & env' & frames' & -> & Hs & Hr'); [done|].
      exists frames'. split; [by econstructor|done].
    + rewrite (new_full env frames o Hrel Ho Hroom). by right.
Qed.

Lemma refines_DeleteRef env frames r : env_rel env frames -> call_refines (CallDeleteRef r) env frames.
Proof.
  intros Hrel. destruct (rel_top _ _ Hrel) as (m & rest & -> & _).
  unfold call_refines, run_call, JNI_DeleteLocalRef.
  destruct (delete_step env m rest r Hrel) as [(env' & E & Hr')|(E & Hj & Hm & Hr0)].
  - rewrite (E_bind_ok _ _ _ _ _ E). exists (delete r m :: rest). split; [constructor|done].
  - rewrite (E_bind_abort _ _ _ E). split_and!; [done..|]. by intros m' rest' [= <- <-].
Qed.

Lemma refines_Ensure env frames n :
  env_rel env frames -> in_s 32 n -> call_refines (CallEnsure n) env frames.
Proof.
  intros Hrel Hn. unfold call_refines, run_call, JNI_EnsureLocalCapacity.
  destruct (ensure_step env frames n Hrel) as [(env' & -> & H0 & Hr' & _)|[-> |(-> & Hz & Hf)]].
  - unfold in_s in Hn. change (32 - 1) with 31 in Hn. lia.
  - exists frames. split; [by constructor|done].
  - exists frames. split; [constructor|done].
  - done.
Qed.

Lemma refines_Push env frames n :
  env_rel env frames -> in_s 32 n -> call_refines (CallPush n) env frames.
Proof.
  intros Hrel Hn. unfold call_refines, run_call, PushLocalFrame.
  destruct (ensure_step env frames n Hrel) as [(env1 & E & H0 & Hr1 & Hcap & _)|[E|(E & Hz & Hf)]].
  - unfold in_s in Hn. change (32 - 1) with 31 in Hn. lia.
  - rewrite (E_bind_ok _ _ _ _ _ E). cbn [negb Z.eqb JNI_OK].
    destruct (push_step env1 frames n Hr1 H0 Hcap) as (env2 & E2 & Hr2).
    simpl. rewrite (E_bind_ok _ _ _ _ _ E2). exists (∅ :: frames). split; [by constructor|done].
  - rewrite (E_bind_ok _ _ _ _ _ E). exists frames. split; [constructor|done].
  - by rewrite (E_bind_abort _ _ _ E).
Qed.

Lemma refines_Pop env frames s : env_rel env frames -> call_refines (CallPop s) env frames.
Proof.
  intros Hrel. unfold call_refines, run_call, PopLocalFrame.
  pose proof (decode_step env frames s Hrel) as Hd.
  destruct (decoded decode_other frames s) as [o|] eqn:Ed.
  2: { rewrite (E_bind_abort _ _ _ Hd). by left. }
  rewrite (E_bind_ok _ _ _ _ _ Hd).
  destruct (rel_top _ _ Hrel) as (m & rest & -> & _ & Hrest).
  destruct (stacked_local_ref_cookies env) as [|c cs] eqn:Es.
  { unfold PopFrame, mbind at 1, E_bind at 1. unfold mbind at 1, E_bind at 1. simpl.
    unfold mbind, E_bind, pop_cookie. simpl. rewrite Es. split; [by exists s|].
    simpl in Hrest. apply Forall2_nil_inv_l in Hrest as ->. done. }
  destruct (pop_step env m rest Hrel) as (env1 & E1 & Hr1 & Hl1); [by rewrite Es|].
  rewrite (E_bind_ok _ _ _ _ _ E1). destruct (decide (has_room (locals env1))) as [Hroom|Hroom].
  - destruct (new_step env1 rest o Hr1) as (r' & env' & frames' & -> & Hs & Hr'); [done|].
    exists frames'. split; [by econstructor|done].
  - destruct (Z.eq_dec o 0) as [->|Ho].
    + simpl. exists rest. split; [|done]. econstructor; [done|]. by constructor.
    + rewrite (new_full env1 rest o Hr1 Ho Hroom). right. by rewrite <- Hl1.
Qed.

Lemma call_step c env frames : env_rel env frames -> call_ok c -> call_refines c env frames.
Proof.
  intros Hrel Hc. destruct c as [r|r|n|s|n|r].
  - by apply refines_NewRef.
  - by apply refines_DeleteRef.
  - by apply refines_Push.
  - by apply refines_Pop.
  - by apply refines_Ensure.
  - unfold call_refines, run_call. pose proof (decode_step env frames r Hrel) as Hd.
    destruct (decoded decode_other frames r) as [o|] eqn:Ed; rewrite Hd; [|done].
    exists frames. split; [by constructor|done].
Qed.

(** ** Sequences of calls *)

Fixpoint run_calls (cs : list JniCall) : E (list Z) :=
  match cs with
  | [] => mret []
  | c :: cs =>
      r ← run_call decode_other c;
      rs ← run_calls cs;
      mret (r :: rs)
  end.

Inductive spec_calls : list JniCall -> Frames -> list Z -> Frames -> Prop :=
| spec_calls_nil frames : spec_calls [] frames [] frames
| spec_calls_cons c cs frames r frames1 rs frames2 :
    spec_call decode_other c frames r frames1 -> spec_calls cs frames1 rs frames2 ->
    spec_calls (c :: cs) frames (r :: rs) frames2.

(** The calls before [c] were done as the frames say, and [c] stops for the reason [why]. *)
Definition stops_at (why : JniCall -> JNIEnvExt -> Frames -> Prop)
    (cs : list JniCall) (env : JNIEnvExt) (frames : Frames) : Prop :=
  exists pre c post rs env1 frames1,
    cs = pre ++ c :: post /\ run_calls pre env = EnvOk rs env1 /\
    spec_calls pre frames rs frames1 /\ env_rel env1 frames1 /\ why c env1 frames1.

Definition pops_last_frame (c : JniCall) (env : JNIEnvExt) (frames : Frames) : Prop :=
  (exists s, c = CallPop s) /\ length frames = 1%nat.

Lemma stops_at_head why c cs env frames :
  env_rel env frames -> why c env frames -> stops_at why (c :: cs) env frames.
Proof.
  intros Hrel Hw. exists [], c, cs, [], env, frames. split_and!; try done. constructor.
Qed.

Lemma stops_at_tail why c cs env frames r env1 frames1 :
  run_call decode_other c env = EnvOk r env1 -> spec_call decode_other c frames r frames1 ->
  stops_at why cs env1 frames1 -> stops_at why (c :: cs) env frames.
Proof.
  intros E Hs (pre & c' & post & rs & env2 & frames2 & -> & Er & Hs' & Hr & Hw).
  exists (c :: pre), c', post, (r :: rs), env2, frames2. split_and!; try done.
  - cbn [run_calls]. by rewrite (E_bind_ok _ _ _ _ _ E), (E_bind_ok _ _ _ _ _ Er).
  - by econstructor.
Qed.

Lemma run_step cs : forall env frames,
  env_rel env frames -> Forall call_ok cs ->
  match run_calls cs env with
  | EnvOk rs env' => exists frames', spec_calls cs frames rs frames' /\ env_rel env' frames'
  | EnvAbort => stops_at abort_reason cs env frames
  | EnvFault => stops_at pops_last_frame cs env frames
  end.
Proof.
  induction cs as [|c cs IH]; intros env frames Hrel Hcs.
  { exists frames. split; [constructor|done]. }
  pose proof (call_step c env frames Hrel (Forall_inv Hcs)) as Hc. unfold call_refines in Hc.
  cbn [run_calls]. destruct (run_call decode_other c env) as [r env1| |] eqn:Ec.
  - destruct Hc as (frames1 & Hs & Hr1). rewrite (E_bind_ok _ _ _ _ _ Ec).
    specialize (IH env1 frames1 Hr1 (Forall_inv_tail Hcs)).
    destruct (run_calls cs env1) as [rs env2| |] eqn:Er.
    + destruct IH as (frames2 & Hs2 & Hr2). rewrite (E_bind_ok _ _ _ _ _ Er).
      exists frames2. split; [by econstructor|done].
    + rewrite (E_bind_abort _ _ _ Er). by eapply stops_at_tail.
    + unfold mbind, E_bind. rewrite Er. by eapply stops_at_tail.
  - rewrite (E_bind_abort _ _ _ Ec). by apply stops_at_head.
  - unfold mbind, E_bind. rewrite Ec. by apply stops_at_head.
Qed.

Lemma created_rel env : JNIEnvExt_Create = Some env -> env_rel env [∅].
Proof.
  unfold JNIEnvExt_Create.
  destruct (IndirectReferenceTable kLocalsInitial kLocal true) as [t|] eqn:Et; [|done].
  intros [= <-]. destruct (new_table_ok kLocalsInitial _ _ _ ltac:(done) Et) as (Hok & Hk & Hs).
  split; simpl; [done|done|]. rewrite Hs. constructor; [|constructor]. intros r o.
  rewrite lookup_empty. split; [done|]. intros (i & Hi & _). simpl in Hi. unfold kIRTFirstSegment in Hi. lia.
Qed.

(** C13. The functions of the JNI interface on local references refine a stack of finite
    maps.  In a new environment any sequence of NewLocalRef, DeleteLocalRef,
    PushLocalFrame, PopLocalFrame, EnsureLocalCapacity and decodings either returns what
    the stack of maps allows, call by call (a new reference is unlike all live ones, a
    decoded reference gives the object it was made for, a popped frame loses its
    references), or the runtime aborts at a call that has a reason to: a reference that
    is not live, no room for another one, or a capacity of zero asked of a full table.
    Nothing else is undefined but popping the last frame. *)
Theorem jni_local_references_refine (cs : list JniCall) (env : JNIEnvExt) :
  JNIEnvExt_Create = Some env -> Forall call_ok cs ->
  match run_calls cs env with
  | EnvOk rs env' => exists frames', spec_calls cs [∅] rs frames' /\ env_rel env' frames'
  | EnvAbort => stops_at abort_reason cs env [∅]
  | EnvFault => stops_at pops_last_frame cs env [∅]
  end.
Proof. intros H Hcs. apply run_step; [by apply created_rel|done]. Qed.
End Refinement.

(** Handles decode to objects: 4096 is a handle to the object 77. *)
Definition sample_handles (r : Z) : option Z := if r =? 4096 then Some 77 else None.

(** A frame is pushed, a reference made, decoded and popped into the first frame. *)
Definition sample_calls : list JniCall :=
  [CallPush 4; CallNewRef 4096; CallDecode 5; CallPop 5; CallDecode 9; CallDeleteRef 9].

Lemma jni_local_references_refine_witness :
  exists env rs env' frames',
    @JNIEnvExt_Create sample_config = Some env /\ Forall call_ok sample_calls /\
    @run_calls sample_config sample_handles sample_calls env = EnvOk rs env' /\
    rs = [0; 5; 77; 9; 77; 0] /\
    spec_calls sample_handles sample_calls [∅] rs frames' /\
    @env_rel sample_config env' frames'.
Proof.
  destruct (@JNIEnvExt_Create sample_config) as [env|] eqn:Ee; [|by vm_compute in Ee].
  assert (Forall call_ok sample_calls) as Hok by (repeat constructor; by vm_compute).
  pose proof (@jni_local_references_refine sample_config sample_handles sample_calls env Ee Hok) as H.
  destruct (@run_calls sample_config sample_handles sample_calls env) as [rs env'| |] eqn:Er.
  - destruct H as (frames' & Hs & Hr). exists env, rs, env', frames'. split_and!; try done.
    vm_compute in Ee. injection Ee as <-. vm_compute in Er. congruence.
  - vm_compute in Ee. injection Ee as <-. vm_compute in Er. congruence.
  - vm_compute in Ee. injection Ee as <-. vm_compute in Er. congruence.
Defined.
