(* ===== verification/MagicDivision.v ===== *)
(** * Division by multiplication ([compiler/optimizing/code_generator_utils.cc])

    [CalculateMagicAndShiftForDivRem] and why multiplying by its result divides. *)
From S2P Require Import Prelude.

(** ** The computation *)

(** One turn of the loop: [quotient1], [remainder1], [quotient2] and [remainder2]. *)
Record MagicState := { quotient1 : Z; remainder1 : Z; quotient2 : Z; remainder2 : Z }.

(** [q = 2 * q; r = 2 * r; if (r >= d) { q++; r = r - d; }] *)
Definition double (d q r : Z) : Z * Z :=
  let q := u64 (2 * q) in
  let r := u64 (2 * r) in
  if d <=? r then (u64 (q + 1), u64 (r - d)) else (q, r).

Definition magic_step (abs_nc abs_d : Z) (s : MagicState) : MagicState :=
  let '(q1, r1) := double abs_nc (quotient1 s) (remainder1 s) in
  let '(q2, r2) := double abs_d (quotient2 s) (remainder2 s) in
  {| quotient1 := q1; remainder1 := r1; quotient2 := q2; remainder2 := r2 |}.

(** [quotient1 < delta || (quotient1 == delta && remainder1 == 0)] *)
Definition magic_continue (abs_d : Z) (s : MagicState) : bool :=
  let delta := u64 (abs_d - remainder2 s) in
  (quotient1 s <? delta) || ((quotient1 s =? delta) && (remainder1 s =? 0)).

(** The [do] loop: the final [p] and [quotient2]. *)
Fixpoint magic_loop (fuel : nat) (abs_nc abs_d p : Z) (s : MagicState) : option (Z * Z) :=
  match fuel with
  | O => None
  | S fuel =>
      let p := p + 1 in
      let s := magic_step abs_nc abs_d s in
      if magic_continue abs_d s then magic_loop fuel abs_nc abs_d p s
      else Some (p, quotient2 s)
  end.

Definition width (is_long : bool) : Z := if is_long then 64 else 32.

(** [magic] and [shift]; the loop ends within 64 turns. *)
Definition CalculateMagicAndShiftForDivRem (divisor : Z) (is_long : bool) : option (Z * Z) :=
  let p := if is_long then 63 else 31 in
  let exp := if is_long then 1 << 63 else 1 << 31 in
  let abs_d := if 0 <=? divisor then divisor else u64 (- divisor) in
  let sign_bit := if is_long then u64 divisor >> 63 else u32 divisor >> 31 in
  let tmp := u64 (exp + sign_bit) in
  let abs_nc := u64 (u64 (tmp - 1) - tmp mod abs_d) in
  let s := {| quotient1 := exp / abs_nc; remainder1 := exp mod abs_nc;
              quotient2 := exp / abs_d; remainder2 := exp mod abs_d |} in
  match magic_loop 64 abs_nc abs_d p s with
  | Some (p, quotient2) =>
      let magic := s64 (if 0 <? divisor then quotient2 + 1 else u64 (u64 (- quotient2) - 1)) in
      Some (if is_long then magic else s32 magic, if is_long then p - 64 else p - 32)
  | None => None
  end.

(** ** What the loop looks for *)

Definition delta_at (D p : Z) : Z := D - 2 ^ p mod D.

(** [2 ^ p > nc * (D - 2 ^ p mod D)] *)
Definition enough (nc D p : Z) : Prop := nc * delta_at D p < 2 ^ p.

(** The least [p] from [w] on. *)
Definition least_enough (w nc D p : Z) : Prop :=
  w <= p /\ enough nc D p /\ forall p', w <= p' < p -> ~ enough nc D p'.

(** The magnitude of the magic number. *)
Definition magic_of (D p : Z) : Z := (2 ^ p + delta_at D p) / D.

(** The largest numerator that is [-1] modulo [D], up to [N]. *)
Definition nc_of (N D : Z) : Z := N - (N + 1) mod D.

Lemma nc_of_facts N D :
  2 <= D <= N + 1 ->
  nc_of N D <= N < nc_of N D + D /\ D - 1 <= nc_of N D /\ (nc_of N D + 1) mod D = 0.
Proof.
  intros H. unfold nc_of. pose proof (Z.mod_pos_bound (N + 1) D ltac:(lia)).
  pose proof (Z.div_mod (N + 1) D ltac:(lia)) as E.
  assert (1 <= (N + 1) / D) by (apply Z.div_le_lower_bound; lia).
  split; [lia|]. split; [nia|].
  replace (N - (N + 1) mod D + 1) with ((N + 1) / D * D) by lia. apply Z.mod_mul. lia.
Qed.

(** *** One doubling *)

Lemma double_spec d q r P :
  0 < d <= 2 ^ 63 -> q = P / d -> r = P mod d -> 0 <= P -> P / d < 2 ^ 63 ->
  double d q r = ((2 * P) / d, (2 * P) mod d).
Proof.
  intros Hd -> -> HP Hq. pose proof (Z.mod_pos_bound P d ltac:(lia)) as Hr.
  pose proof (Z.div_mod P d ltac:(lia)) as E. pose proof (Z.div_pos P d HP ltac:(lia)).
  unfold double. rewrite !(wrap_u_id 64 (2 * _)) by (unfold in_u; pows; lia).
  destruct (Z.leb_spec d (2 * (P mod d))) as [Hc|Hc].
  - assert ((2 * P) / d = 2 * (P / d) + 1 /\ (2 * P) mod d = 2 * (P mod d) - d) as [-> ->].
    { split; symmetry; [apply Z.div_unique_pos with (2 * (P mod d) - d)
                       |apply Z.mod_unique_pos with (2 * (P / d) + 1)]; lia. }
    by rewrite !wrap_u_id by (unfold in_u; pows; lia).
  - assert ((2 * P) / d = 2 * (P / d) /\ (2 * P) mod d = 2 * (P mod d)) as [-> ->]; [|done].
    split; symmetry; [apply Z.div_unique_pos with (2 * (P mod d))
                     |apply Z.mod_unique_pos with (2 * (P / d))]; lia.
Qed.

(** The state after [p] doublings of one. *)
Definition state_at (nc D p : Z) : MagicState :=
  {| quotient1 := 2 ^ p / nc; remainder1 := 2 ^ p mod nc;
     quotient2 := 2 ^ p / D; remainder2 := 2 ^ p mod D |}.

Lemma magic_step_spec nc D p :
  0 <= p -> 0 < nc <= 2 ^ 63 -> 0 < D <= 2 ^ 63 -> 2 ^ p / nc < 2 ^ 63 -> 2 ^ p / D < 2 ^ 63 ->
  magic_step nc D (state_at nc D p) = state_at nc D (p + 1).
Proof.
  intros Hp Hn HD H1 H2. unfold magic_step, state_at. cbn [quotient1 remainder1 quotient2 remainder2].
  rewrite !(double_spec _ _ _ (2 ^ p)) by (done || lia).
  by rewrite <- Z.pow_succ_r, Z.add_1_r by lia.
Qed.

Lemma magic_continue_spec nc D p :
  0 <= p -> 0 < nc -> 0 < D <= 2 ^ 63 ->
  magic_continue D (state_at nc D p) = true <-> ~ enough nc D p.
Proof.
  intros Hp Hn HD. unfold magic_continue, enough, delta_at. simpl.
  pose proof (Z.mod_pos_bound (2 ^ p) D ltac:(lia)) as Hr.
  rewrite (wrap_u_id 64) by (unfold in_u; pows; lia).
  pose proof (Z.div_mod (2 ^ p) nc ltac:(lia)) as E.
  pose proof (Z.mod_pos_bound (2 ^ p) nc ltac:(lia)) as Hr1.
  set (delta := D - 2 ^ p mod D) in *. set (q := 2 ^ p / nc) in *. set (r := 2 ^ p mod nc) in *.
  rewrite orb_true_iff, andb_true_iff, Z.ltb_lt, !Z.eqb_eq, E. split.
  - intros [H|[-> ->]]; nia.
  - intros H. destruct (Z.lt_trichotomy q delta) as [|[->|]]; [by left|right; split; nia|nia].
Qed.

(** An odd number divides a power of two only if it divides one. *)
Lemma odd_divides_pow2 D p : 0 <= p -> ~ (2 | D) -> (D | 2 ^ p) -> (D | 1).
Proof.
  intros Hp Hodd. revert p Hp. apply (natlike_ind (fun p => (D | 2 ^ p) -> (D | 1))); [done|].
  intros p Hp IH Hd. rewrite Z.pow_succ_r in Hd by done. apply IH, (Z.gauss D 2); [done|].
  pose proof (Z.gcd_nonneg D 2). pose proof (Z.gcd_divide_r D 2) as H2.
  assert (Z.gcd D 2 <> 2) by (intros E; apply Hodd; rewrite <- E; apply Z.gcd_divide_l).
  assert (Z.gcd D 2 <> 0) by (intros [_ ?]%Z.gcd_eq_0; lia).
  apply Z.divide_pos_le in H2; lia.
Qed.

(** ** Divisors

    [D] is the magnitude of a divisor and [N] the largest magnitude of a numerator whose
    quotient is rounded down; [H] is [2 ^ (w - 1)]. *)
Section Divisor.
Context (w D N : Z).
Let H := 2 ^ (w - 1).
Let nc := nc_of N D.
Hypothesis Hw : w = 32 \/ w = 64.
Hypothesis HD : 2 <= D.
Hypothesis HN : (N = H - 1 /\ D <= H - 1) \/ (N = H /\ D <= H).

Lemma half_facts : 2 ^ w = 2 * H /\ 2 ^ 31 <= H /\ H = 2 * 2 ^ (w - 2).
Proof. unfold H. destruct Hw as [-> | ->]; pows; lia. Qed.

Lemma nc_facts :
  nc <= N < nc + D /\ D - 1 <= nc /\ (nc + 1) mod D = 0 /\ 2 ^ (w - 2) <= nc <= H.
Proof.
  pose proof half_facts as (_ & ? & ?).
  destruct (nc_of_facts N D) as (E1 & E2 & E3); [lia|]. fold nc in E1, E2, E3. split_and!; try done; lia.
Qed.

Lemma delta_range p : 0 <= p -> 0 < delta_at D p <= D.
Proof. intros. unfold delta_at. pose proof (Z.mod_pos_bound (2 ^ p) D ltac:(lia)). lia. Qed.

(** The largest [nc] is [H] only when [D] divides [H + 1], and then it is odd. *)
Lemma nc_top_delta p : 0 <= p -> nc = H -> delta_at D p < D.
Proof.
  intros Hp E. pose proof (delta_range p Hp) as Hd. unfold delta_at in *.
  destruct (Z.eq_dec (2 ^ p mod D) 0) as [Hz|]; [|pose proof (Z.mod_pos_bound (2 ^ p) D); lia].
  exfalso. pose proof nc_facts as (_ & _ & Hm & _). rewrite E in Hm.
  apply Z.mod_divide in Hz, Hm; [|lia..].
  assert (~ (2 | D)) as Hodd.
  { intros H2. pose proof half_facts as (_ & _ & Hh). destruct (Z.divide_trans _ _ _ H2 Hm) as [k Hk].
    lia. }
  apply (odd_divides_pow2 D p Hp Hodd), Z.divide_1_r_nonneg in Hz; lia.
Qed.

Lemma enough_at_last : enough nc D (2 * w - 2).
Proof.
  pose proof nc_facts as (_ & _ & Hm & _ & Hn). pose proof (delta_range (2 * w - 2) ltac:(lia)) as Hd.
  pose proof half_facts as (_ & Hbig & _). unfold enough.
  replace (2 ^ (2 * w - 2)) with (H * H) by (unfold H; rewrite <- Z.pow_add_r by lia; f_equal; lia).
  destruct (Z.eq_dec nc H) as [E|]; [|nia].
  pose proof (nc_top_delta (2 * w - 2) ltac:(lia) E). rewrite E. nia.
Qed.

(** While the loop goes on nothing overflows. *)
Lemma not_enough_bounds p :
  w <= p < 2 * w - 2 -> ~ enough nc D p -> 2 ^ p / nc < H /\ 2 ^ p / D < H.
Proof.
  intros Hp Hne. unfold enough in Hne. pose proof nc_facts as (Hnc & HDn & Hm & Hlow & Hn).
  pose proof (delta_range p ltac:(lia)) as Hd. pose proof half_facts as (_ & Hbig & Hh).
  split; apply Z.div_lt_upper_bound; try lia.
  - assert (2 ^ p <= nc * D) by nia. destruct (Z.eq_dec D H) as [E|]; [|nia].
    assert (nc <> 2 ^ (w - 2)) by lia.
    assert (2 ^ p <= 2 ^ (2 * w - 3)) by (apply Z.pow_le_mono_r; lia).
    replace (2 ^ (2 * w - 3)) with (2 ^ (w - 2) * H) in *
      by (unfold H; rewrite <- Z.pow_add_r by lia; f_equal; lia). nia.
  - destruct (Z.eq_dec nc H) as [E|]; [|nia].
    pose proof (nc_top_delta p ltac:(lia) E). nia.
Qed.

Lemma start_bounds : 2 ^ (w - 1) / nc < H /\ 2 ^ (w - 1) / D < H.
Proof.
  pose proof nc_facts as (_ & _ & _ & Hlow & _). pose proof half_facts as (_ & Hbig & Hh).
  fold H. split; apply Z.div_lt_upper_bound; nia.
Qed.

(** The loop from a [p] that is not enough. *)
Lemma magic_loop_spec fuel : forall p,
  2 * w - 2 <= p + Z.of_nat fuel -> w - 1 <= p < 2 * w - 2 ->
  (p = w - 1 \/ ~ enough nc D p) -> (forall p', w <= p' <= p -> ~ enough nc D p') ->
  exists p', magic_loop fuel nc D p (state_at nc D p) = Some (p', 2 ^ p' / D) /\
    least_enough w nc D p' /\ p' <= 2 * w - 2.
Proof.
  pose proof nc_facts as (_ & _ & _ & Hlow & Hn). pose proof half_facts as (_ & Hbig & Hh).
  assert (H <= 2 ^ 63) by (unfold H; destruct Hw as [-> | ->]; pows; lia).
  assert (D <= 2 ^ 63) by lia.
  induction fuel as [|fuel IH]; intros p Hf Hp Hstart Hmin; [lia|].
  assert (2 ^ p / nc < H /\ 2 ^ p / D < H) as [Hb1 Hb2].
  { destruct Hstart as [-> |Hne]; [apply start_bounds|]. destruct (Z.eq_dec p (w - 1)) as [->|];
      [apply start_bounds|apply not_enough_bounds; done || lia]. }
  cbn [magic_loop]. cbv zeta. rewrite magic_step_spec by lia.
  destruct (magic_continue D (state_at nc D (p + 1))) eqn:Ec.
  - apply (magic_continue_spec nc D (p + 1)) in Ec; [|lia..].
    assert (p + 1 <> 2 * w - 2) by (intros E; rewrite E in Ec; apply Ec, enough_at_last).
    apply IH; [lia|lia|by right|]. intros p' Hp'.
    destruct (Z.eq_dec p' (p + 1)) as [->|]; [done|apply Hmin; lia].
  - exists (p + 1). split; [done|]. split; [|lia]. split; [lia|]. split.
    + destruct (Z.lt_ge_cases (nc * delta_at D (p + 1)) (2 ^ (p + 1))); [done|].
      assert (~ enough nc D (p + 1)) as Hne by (unfold enough; lia).
      apply (magic_continue_spec nc D (p + 1)) in Hne; [congruence|lia..].
    + intros p' Hp'. apply Hmin. lia.
Qed.

(** ** Multiplying divides *)

Context (p : Z).
Hypothesis Hp : least_enough w nc D p.
Let delta := delta_at D p.
Let M := magic_of D p.

Lemma magic_times : M * D = 2 ^ p + delta /\ M = 2 ^ p / D + 1.
Proof.
  destruct Hp as (Hwp & _). unfold M, magic_of. fold delta.
  pose proof (Z.div_mod (2 ^ p) D ltac:(lia)) as E.
  assert (2 ^ p + delta = (2 ^ p / D + 1) * D) as Ed by (unfold delta, delta_at; lia).
  rewrite Ed, Z.div_mul by lia. lia.
Qed.

Lemma magic_bound : 0 < M < 2 ^ w.
Proof.
  pose proof magic_times as [E _]. destruct Hp as (Hwp & He & Hmin). pose proof half_facts as (Hww & Hbig & _).
  pose proof (delta_range p ltac:(lia)) as Hd. fold delta in Hd.
  pose proof nc_facts as (_ & _ & _ & _ & Hn).
  assert (0 < 2 ^ p) by lia. split; [nia|].
  destruct (Z.eq_dec p w) as [->|]; [nia|].
  assert (~ enough nc D (p - 1)) as Hne by (apply Hmin; lia). unfold enough in Hne.
  assert (2 ^ p = 2 * 2 ^ (p - 1)) as E2 by (rewrite <- Z.pow_succ_r by lia; f_equal; lia).
  pose proof (delta_range (p - 1) ltac:(lia)) as Hd'.
  destruct (Z.eq_dec nc H) as [En|]; [|nia].
  pose proof (nc_top_delta (p - 1) ltac:(lia) En). nia.
Qed.

Lemma magic_upper m r :
  0 <= m -> r = m mod D -> delta * m < 2 ^ p * (D - r) -> M * m < (m / D + 1) * 2 ^ p.
Proof.
  intros Hm -> Hlt. pose proof magic_times as [E _]. pose proof (Z.div_mod m D ltac:(lia)) as Em.
  apply (Z.mul_lt_mono_pos_r D); [lia|]. nia.
Qed.

Lemma magic_lower m : 0 < m -> m / D * 2 ^ p < M * m.
Proof.
  intros Hm. pose proof magic_times as [E _]. pose proof (Z.div_mod m D ltac:(lia)) as Em.
  pose proof (Z.mod_pos_bound m D ltac:(lia)). destruct Hp as (Hwp & _).
  pose proof (delta_range p ltac:(lia)) as Hd. fold delta in Hd.
  assert (0 < 2 ^ p) by lia. apply (Z.mul_lt_mono_pos_r D); [lia|]. nia.
Qed.

(** Above [nc] the remainders stay below [D - 1]. *)
Lemma above_nc m : nc < m < nc + D -> m mod D = m - nc - 1.
Proof.
  intros Hm. pose proof nc_facts as (_ & _ & Hz & _). apply Z.mod_divide in Hz as [k Hk]; [|lia].
  symmetry. apply Z.mod_unique_pos with k; lia.
Qed.

Lemma magic_quotient m : 0 <= m < nc + D -> M * m < (m / D + 1) * 2 ^ p.
Proof.
  intros Hm. pose proof nc_facts as (_ & HDn & _). destruct Hp as (Hwp & He & _).
  unfold enough in He. fold delta in He. pose proof (delta_range p ltac:(lia)) as Hd. fold delta in Hd.
  assert (0 < 2 ^ p) by lia. pose proof (Z.mod_pos_bound m D ltac:(lia)) as Hr.
  eapply magic_upper; [lia|reflexivity|].
  destruct (Z.le_gt_cases m nc) as [Hle|Hgt]; [nia|].
  rewrite (above_nc m) in * by lia. assert (delta * m <= delta * (2 * nc)) by nia. nia.
Qed.

(** The numerator of magnitude [H] that is [-1] modulo [D]. *)
Lemma magic_top : N = H - 1 -> (H + 1) mod D = 0 -> M * H = (H / D + 1) * 2 ^ p.
Proof.
  intros EN Hz. pose proof half_facts as (Hww & Hbig & Hh). pose proof nc_facts as (Hn & _).
  apply Z.mod_divide in Hz as [k Hk]; [|lia].
  assert (D <> 2) by lia.
  assert (delta_at D w = 2) as Ed.
  { unfold delta_at. rewrite <- (Z.mod_unique_pos (2 ^ w) D (2 * k - 1) (D - 2)); lia. }
  assert (p = w) as Ep.
  { destruct Hp as (Hwp & _ & Hmin). destruct (Z.eq_dec p w) as [|Hne]; [done|].
    exfalso. apply (Hmin w); [lia|]. unfold enough. rewrite Ed. lia. }
  pose proof magic_times as [E _]. unfold delta in E. rewrite Ep, Ed in E.
  assert (H / D = k - 1) as -> by (symmetry; apply Z.div_unique_pos with (D - 1); lia).
  assert (M = 2 * k) as -> by (apply (Z.mul_reg_r _ _ D); lia). rewrite Ep, Hww. lia.
Qed.

(** Rounding down: [floor (M m / 2 ^ p)] is the quotient. *)
Lemma magic_floor m : 0 <= m <= N -> M * m / 2 ^ p = m / D.
Proof.
  intros Hm. pose proof nc_facts as (Hn & _). destruct Hp as (Hwp & _).
  assert (0 < 2 ^ p) by lia. pose proof (magic_quotient m ltac:(lia)) as Hu.
  assert (m / D * 2 ^ p <= M * m) as Hl.
  { destruct (Z.eq_dec m 0) as [->|]; [by rewrite Z.div_0_l, Z.mul_0_r by lia|].
    pose proof (magic_lower m ltac:(lia)). lia. }
  symmetry. apply Z.div_unique_pos with (M * m - m / D * 2 ^ p); lia.
Qed.

(** Rounding down the negation: [floor (- M m / 2 ^ p)] is one below the negated quotient. *)
Lemma magic_floor_neg m : 0 < m <= H -> (N = H -> m < H) -> (- (M * m)) / 2 ^ p = - (m / D) - 1.
Proof.
  intros Hm Htop. pose proof nc_facts as (Hn & _). destruct Hp as (Hwp & _).
  assert (0 < 2 ^ p) by lia. pose proof (magic_lower m ltac:(lia)) as Hl.
  assert (M * m <= (m / D + 1) * 2 ^ p) as Hu.
  { destruct (decide (m < nc + D)) as [Hlt|Hge]; [pose proof (magic_quotient m ltac:(lia)); lia|].
    assert (N = H - 1 /\ m = H) as [EN ->] by lia.
    rewrite magic_top; [done|done|]. pose proof nc_facts as (_ & _ & Hz & _).
    replace (H + 1) with (nc + 1 + 1 * D) by lia. rewrite Z.mod_add by lia. done. }
  symmetry. apply Z.div_unique_pos with ((m / D + 1) * 2 ^ p - M * m); lia.
Qed.
End Divisor.

(** ** The function *)

(** The largest numerator rounded down for a divisor, in magnitude. *)
Definition top_numerator (w divisor : Z) : Z :=
  if 0 <? divisor then 2 ^ (w - 1) - 1 else 2 ^ (w - 1).

Lemma width_cases is_long : width is_long = 32 \/ width is_long = 64.
Proof. destruct is_long; [by right|by left]. Qed.

Lemma divisor_ok w divisor :
  w = 32 \/ w = 64 -> in_s w divisor -> 2 <= Z.abs divisor ->
  top_numerator w divisor = 2 ^ (w - 1) - 1 /\ Z.abs divisor <= 2 ^ (w - 1) - 1 \/
  top_numerator w divisor = 2 ^ (w - 1) /\ Z.abs divisor <= 2 ^ (w - 1).
Proof.
  intros Hw Hd H2. unfold top_numerator, in_s in *. destruct (Z.ltb_spec 0 divisor); lia.
Qed.

(** The values the loop starts from. *)
Lemma magic_start divisor is_long :
  let w := width is_long in
  let D := Z.abs divisor in
  in_s w divisor -> 2 <= D ->
  (if 0 <=? divisor then divisor else u64 (- divisor)) = D /\
  (if is_long then 1 << 63 else 1 << 31) = 2 ^ (w - 1) /\
  let tmp := u64 (2 ^ (w - 1) + (if is_long then u64 divisor >> 63 else u32 divisor >> 31)) in
  tmp = top_numerator w divisor + 1 /\
  u64 (u64 (tmp - 1) - tmp mod D) = nc_of (top_numerator w divisor) D.
Proof.
  intros w D Hd HD. pose proof (width_cases is_long) as Hw. fold w in Hw.
  assert (D <= 2 ^ (w - 1)) as HDw by (unfold in_s in Hd; lia).
  assert (2 ^ (w - 1) <= 2 ^ 63) by (destruct Hw as [-> | ->]; pows; lia).
  split; [|split].
  - destruct (Z.leb_spec 0 divisor); [lia|]. rewrite wrap_u_id; unfold in_u; pows; lia.
  - unfold w. by destruct is_long.
  - cbv zeta.
    assert (u64 (2 ^ (w - 1) + (if is_long then u64 divisor >> 63 else u32 divisor >> 31)) =
            top_numerator w divisor + 1) as ->.
    { unfold top_numerator, w, width. destruct is_long; bits_arith; unfold in_s, width in Hd; subst w;
        pows; destruct (Z.ltb_spec 0 divisor); wraps. }
    split; [done|]. unfold nc_of. pose proof (divisor_ok w divisor Hw Hd HD) as HN. fold D in HN.
    set (N := top_numerator w divisor) in *.
    pose proof (Z.mod_pos_bound (N + 1) D ltac:(lia)) as Hb. rewrite Z.add_simpl_r.
    rewrite (wrap_u_id 64 N) by (unfold in_u; pows; lia). by rewrite wrap_u_id by (unfold in_u; pows; lia).
Qed.

Lemma magic_and_shift_spec divisor is_long :
  let w := width is_long in
  let D := Z.abs divisor in
  in_s w divisor -> 2 <= D ->
  exists p, least_enough w (nc_of (top_numerator w divisor) D) D p /\ p <= 2 * w - 2 /\
    CalculateMagicAndShiftForDivRem divisor is_long =
    Some (wrap_s w (Z.sgn divisor * magic_of D p), p - w).
Proof.
  intros w D Hd HD. destruct (magic_start divisor is_long Hd HD) as (E1 & E2 & E3 & E4).
  fold w D in E1, E2, E3, E4. pose proof (width_cases is_long) as Hw. fold w in Hw.
  pose proof (divisor_ok w divisor Hw Hd HD) as HN.
  set (N := top_numerator w divisor) in *.
  destruct (magic_loop_spec w D N Hw HD HN 64 (w - 1)) as (p & E & Hp & Hle);
    [lia|lia|by left|lia|].
  exists p. split; [done|]. split; [done|]. unfold CalculateMagicAndShiftForDivRem.
  rewrite E1, E2, E4. cbv zeta.
  assert ((if is_long then 63 else 31) = w - 1) as -> by (unfold w; by destruct is_long).
  unfold state_at in E. rewrite E. destruct (magic_times w D N Hw HD p Hp) as [_ EM].
  replace (2 ^ p / D) with (magic_of D p - 1) by lia.
  assert (Z.sgn divisor = if 0 <? divisor then 1 else -1) as -> by (destruct (Z.ltb_spec 0 divisor); lia).
  f_equal. f_equal; [|unfold w; by destruct is_long].
  assert (s64 (if 0 <? divisor then magic_of D p - 1 + 1 else u64 (u64 (- (magic_of D p - 1)) - 1)) =
          s64 ((if 0 <? divisor then 1 else -1) * magic_of D p)) as ->.
  { destruct (0 <? divisor); [f_equal; lia|].
    rewrite wrap_s_wrap_u by lia. apply wrap_s_congr; [lia|].
    unfold wrap_u. rewrite Zminus_mod_idemp_l. f_equal. lia. }
  unfold w. destruct is_long; [done|]. by rewrite wrap_s_narrow by (simpl; lia).
Qed.


