(* ===== verification/X86Division.v ===== *)
(** * Integer division on x86-64 ([compiler/optimizing/code_generator_x86_64.cc])

    The instructions the code generator emits for [HDiv] and [HRem] on integers, what
    they do to the registers, and that they divide. *)
From S2P Require Import Prelude BitUtils MagicDivision.

(** ** The machine *)

Inductive Register :=
  RAX | RCX | RDX | RBX | RSP | RBP | RSI | RDI | R8 | R9 | R10 | R11 | R12 | R13 | R14 | R15.

#[export] Instance Register_eq_dec : EqDecision Register.
Proof. solve_decision. Defined.

(** The instructions used, by their assembler names; [w] is 32 for the [l] forms and 64
    for the [q] forms. *)
Inductive Insn :=
| mov (w : Z) (dst src : Register)
| mov_imm (w : Z) (dst : Register) (imm : Z)
| add (w : Z) (dst src : Register)
| sub (w : Z) (dst src : Register)
| neg (w : Z) (reg : Register)
| xor (w : Z) (dst src : Register)
| sar (w : Z) (reg : Register) (imm : Z)
| shr (w : Z) (reg : Register) (imm : Z)
| imul (w : Z) (reg : Register)
| imul_imm (w : Z) (reg : Register) (imm : Z)
| lea (w : Z) (dst base : Register) (disp : Z)
| test (w : Z) (reg1 reg2 : Register)
| cmov_ge (dst src : Register)
| cmp_imm (w : Z) (reg : Register) (imm : Z)
| sign_extend (w : Z)
| idiv (w : Z) (reg : Register).

(** Registers hold 64-bit words.  The flags are known after a comparison only: the other
    instructions that set them leave values no emitted code reads. *)
Record Flags := { ZF : bool; SF : bool; OF : bool }.
Record Machine := { regs : Register -> Z; flags : option Flags }.

(** The low [w] bits of a register, as a signed number. *)
Definition read (w : Z) (m : Machine) (r : Register) : Z := wrap_s w (regs m r).

(** A write of 32 bits clears the upper half. *)
Definition write (w : Z) (m : Machine) (r : Register) (v : Z) : Machine :=
  {| regs := fun r' => if decide (r' = r) then wrap_u w v else regs m r'; flags := flags m |}.
Definition lose_flags (m : Machine) : Machine := {| regs := regs m; flags := None |}.
Definition set_flags (m : Machine) (f : Flags) : Machine := {| regs := regs m; flags := Some f |}.

(** [None] is a divide error, or flags that are not known. *)
Definition exec1 (i : Insn) (m : Machine) : option Machine :=
  match i with
  | mov w dst src => Some (write w m dst (read w m src))
  | mov_imm w dst imm => Some (write w m dst imm)
  | add w dst src => Some (lose_flags (write w m dst (read w m dst + read w m src)))
  | sub w dst src => Some (lose_flags (write w m dst (read w m dst - read w m src)))
  | neg w reg => Some (lose_flags (write w m reg (- read w m reg)))
  | xor w dst src => Some (lose_flags (write w m dst (read w m dst ^^^ read w m src)))
  | sar w reg imm => Some (lose_flags (write w m reg (read w m reg >> imm)))
  | shr w reg imm => Some (lose_flags (write w m reg (wrap_u w (regs m reg) >> imm)))
  | imul w reg =>
      let product := read w m RAX * read w m reg in
      Some (lose_flags (write w (write w m RAX product) RDX (product >> w)))
  | imul_imm w reg imm => Some (lose_flags (write w m reg (read w m reg * imm)))
  | lea w dst base disp => Some (write w m dst (read w m base + disp))
  | test w reg1 reg2 =>
      let v := wrap_s w (read w m reg1 &&& read w m reg2) in
      Some (set_flags m {| ZF := v =? 0; SF := v <? 0; OF := false |})
  | cmov_ge dst src =>
      match flags m with
      | Some f => Some (if eqb (SF f) (OF f) then write 64 m dst (regs m src) else m)
      | None => None
      end
  | cmp_imm w reg imm =>
      let d := read w m reg - imm in
      Some (set_flags m {| ZF := wrap_s w d =? 0; SF := wrap_s w d <? 0;
                           OF := negb (wrap_s w d =? d) |})
  | sign_extend w => Some (write w m RDX (read w m RAX >> (w - 1)))
  | idiv w reg =>
      let dividend := read w m RDX * 2 ^ w + wrap_u w (regs m RAX) in
      let divisor := read w m reg in
      let q := Z.quot dividend divisor in
      if (divisor =? 0) || negb (wrap_s w q =? q) then None
      else Some (lose_flags (write w (write w m RAX q) RDX (Z.rem dividend divisor)))
  end.

Fixpoint exec (code : list Insn) (m : Machine) : option Machine :=
  match code with
  | [] => Some m
  | i :: code => match exec1 i m with Some m => exec code m | None => None end
  end.

(** ** The code generator *)

(** [Primitive::kPrimInt] and [Primitive::kPrimLong] *)
Inductive IntType := kPrimInt | kPrimLong.
Definition is_long (type : IntType) : bool :=
  match type with kPrimInt => false | kPrimLong => true end.
Definition bits (type : IntType) : Z := width (is_long type).

(** The locations of [VisitDiv] and [VisitRem]: the numerator in [RAX], the result in
    [RAX] or [RDX], and a register [temp] the allocator chooses when the divisor is a
    constant. *)
Definition out (is_div : bool) : Register := if is_div then RAX else RDX.

Definition AbsOrMin (value : Z) : Z :=
  if value =? - 2 ^ 63 then value else Z.abs value.

(** [IsPowerOfTwo<int64_t>]: the least value less one wraps to the greatest. *)
Definition IsPowerOfTwo_int64 (x : Z) : bool := x &&& s64 (x - 1) =? 0.

Definition Load64BitValue (dest : Register) (value : Z) : list Insn :=
  if value =? 0 then [xor 32 dest dest]
  else if (0 <=? value) && (value <? 2 ^ 32) then [mov_imm 32 dest (s32 value)]
  else [mov_imm 64 dest value].

Definition DivRemOneOrMinusOne (is_div : bool) (type : IntType) (imm : Z) : list Insn :=
  let output_register := out is_div in
  let input_register := RAX in
  match type with
  | kPrimInt =>
      if negb is_div then [xor 32 output_register output_register]
      else mov 32 output_register input_register
           :: (if imm =? -1 then [neg 32 output_register] else [])
  | kPrimLong =>
      if negb is_div then [xor 32 output_register output_register]
      else mov 64 output_register input_register
           :: (if imm =? -1 then [neg 64 output_register] else [])
  end.

Definition DivByPowerOfTwo (type : IntType) (imm : Z) : list Insn :=
  let output_register := RAX in
  let numerator := RAX in
  let abs_imm := u64 (AbsOrMin imm) in
  let shift := CTZ 64 (u64 imm) in
  match type with
  | kPrimInt =>
      let tmp := RDX in
      [lea 32 tmp numerator (s32 (u64 (abs_imm - 1))); test 32 numerator numerator;
       cmov_ge tmp numerator; sar 32 tmp shift]
      ++ (if imm <? 0 then [neg 32 tmp] else [])
      ++ [mov 32 output_register tmp]
  | kPrimLong =>
      let rdx := RDX in
      Load64BitValue rdx (s64 (u64 (abs_imm - 1)))
      ++ [add 64 rdx numerator; test 64 numerator numerator; cmov_ge rdx numerator;
          sar 64 rdx shift]
      ++ (if imm <? 0 then [neg 64 rdx] else [])
      ++ [mov 64 output_register rdx]
  end.

Definition GenerateDivRemWithAnyConstant (is_div : bool) (type : IntType) (temp : Register)
    (imm : Z) : option (list Insn) :=
  let numerator := temp in
  let eax := RAX in
  let edx := RDX in
  match type with
  | kPrimInt =>
      '(magic, shift) ← CalculateMagicAndShiftForDivRem imm false;
      Some
        ([mov 32 numerator eax; mov_imm 32 eax magic; imul 32 numerator]
         ++ (if (0 <? imm) && (magic <? 0) then [add 32 edx numerator]
             else if (imm <? 0) && (0 <? magic) then [sub 32 edx numerator] else [])
         ++ (if negb (shift =? 0) then [sar 32 edx shift] else [])
         ++ [mov 32 eax edx; shr 32 edx 31; add 32 edx eax]
         ++ (if negb is_div
             then [mov 32 eax numerator; imul_imm 32 edx imm; sub 32 eax edx; mov 32 edx eax]
             else [mov 32 eax edx]))
  | kPrimLong =>
      '(magic, shift) ← CalculateMagicAndShiftForDivRem imm true;
      Some
        ([mov 64 numerator eax]
         ++ Load64BitValue eax magic
         ++ [imul 64 numerator]
         ++ (if (0 <? imm) && (magic <? 0) then [add 64 edx numerator]
             else if (imm <? 0) && (0 <? magic) then [sub 64 edx numerator] else [])
         ++ (if negb (shift =? 0) then [sar 64 edx shift] else [])
         ++ [mov 64 eax edx; shr 64 edx 63; add 64 edx eax]
         ++ (if negb is_div
             then [mov 64 eax numerator; imul_imm 64 edx imm; sub 64 eax edx; mov 64 edx eax]
             else [mov 64 eax edx]))
  end.

(** The divisor as the instruction has it. *)
Inductive Divisor := ConstantDivisor (imm : Z) | RegisterDivisor (second : Register).

(** Code with one conditional jump to a slow path, which jumps back to its end. *)
Record Emitted := { main : list Insn; slow : option (list Insn * list Insn) }.

Definition straight (code : list Insn) : Emitted := {| main := code; slow := None |}.

(** [DivRemMinusOneSlowPathX86_64::EmitNativeCode] *)
Definition DivRemMinusOneSlowPath (reg : Register) (type : IntType) (is_div : bool) : list Insn :=
  match type with
  | kPrimInt => if is_div then [neg 32 reg] else [xor 32 reg reg]
  | kPrimLong => if is_div then [neg 64 reg] else [xor 32 reg reg]
  end.

Definition GenerateDivRemIntegral (is_div : bool) (type : IntType) (temp : Register)
    (second : Divisor) : option Emitted :=
  match second with
  | ConstantDivisor imm =>
      if imm =? 0 then Some (straight [])
      else if (imm =? 1) || (imm =? -1) then Some (straight (DivRemOneOrMinusOne is_div type imm))
      else if is_div && IsPowerOfTwo_int64 (AbsOrMin imm) then Some (straight (DivByPowerOfTwo type imm))
      else straight <$> GenerateDivRemWithAnyConstant is_div type temp imm
  | RegisterDivisor second_reg =>
      let slow_path := DivRemMinusOneSlowPath (out is_div) type is_div in
      let w := match type with kPrimInt => 32 | kPrimLong => 64 end in
      Some {| main := [cmp_imm w second_reg (-1)];
              slow := Some (slow_path, [sign_extend w; idiv w second_reg]) |}
  end.

(** Running emitted code: [j(kEqual, slow_path)] follows [main]. *)
Definition run (e : Emitted) (m : Machine) : option Machine :=
  m ← exec (main e) m;
  match slow e with
  | None => Some m
  | Some (slow_path, rest) =>
      f ← flags m;
      exec (if ZF f then slow_path else rest) m
  end.

(** ** Registers *)

Lemma read_same w m r v : 0 < w -> read w (write w m r v) r = wrap_s w v.
Proof. intros. unfold read, write. simpl. rewrite decide_True by done. by apply wrap_s_wrap_u. Qed.
Lemma regs_diff w m r r' v : r' <> r -> regs (write w m r v) r' = regs m r'.
Proof. intros. simpl. by rewrite decide_False. Qed.
Lemma read_diff w w' m r r' v : r' <> r -> read w (write w' m r v) r' = read w m r'.
Proof. intros. unfold read. by rewrite regs_diff. Qed.
Lemma read_lose w m r : read w (lose_flags m) r = read w m r.
Proof. done. Qed.
Lemma read_set_flags w m f r : read w (set_flags m f) r = read w m r.
Proof. done. Qed.
Lemma read_range w m r : 0 < w -> in_s w (read w m r).
Proof. intros. by apply wrap_s_range. Qed.
Lemma read_unsigned w m r : 0 < w -> wrap_u w (regs m r) = wrap_u w (read w m r).
Proof. intros. unfold read. by rewrite wrap_u_wrap_s. Qed.

Lemma exec_app c1 c2 m : exec (c1 ++ c2) m = match exec c1 m with Some m => exec c2 m | None => None end.
Proof. revert m. induction c1 as [|i c1 IH]; intros m; simpl; [done|]. by destruct (exec1 i m). Qed.

(** Reads through the writes of straight-line code. *)
Ltac reads :=
  repeat first
    [ rewrite read_lose | rewrite read_set_flags | rewrite read_same by lia
    | rewrite read_diff by (done || congruence) ].

(** ** The arithmetic of the emitted code *)

Lemma quotient_range w imm n :
  w = 32 \/ w = 64 -> in_s w imm -> 2 <= Z.abs imm -> in_s w n -> in_s w (Z.quot n imm).
Proof.
  intros Hw Himm H2 Hn. assert (2 ^ 31 <= 2 ^ (w - 1)) by (destruct Hw as [-> | ->]; pows; lia). unfold in_s in *. rewrite Z.quot_div by lia.
  assert (0 <= Z.abs n / Z.abs imm <= 2 ^ (w - 1) / 2) as Hq.
  { split; [apply Z.div_pos; lia|]. transitivity (2 ^ (w - 1) / Z.abs imm).
    - apply Z.div_le_mono; lia.
    - apply Z.div_le_compat_l; lia. }
  assert (2 ^ (w - 1) / 2 < 2 ^ (w - 1)) by (apply Z.div_lt; lia).
  destruct (Z.sgn_spec n) as [[_ ->]|[[_ ->]|[_ ->]]], (Z.sgn_spec imm) as [[_ ->]|[[_ ->]|[_ ->]]]; lia.
Qed.
Section Value.
Context (w imm n p : Z).
Hypothesis Hw : w = 32 \/ w = 64.
Hypothesis Himm : in_s w imm.
Hypothesis H2 : 2 <= Z.abs imm.
Hypothesis Hn : in_s w n.
Hypothesis Hp : least_enough w (nc_of (top_numerator w imm) (Z.abs imm)) (Z.abs imm) p.
Let M := magic_of (Z.abs imm) p.
Let V := Z.sgn imm * M.
Let magic := wrap_s w V.

Lemma w_facts : 2 ^ w = 2 * 2 ^ (w - 1) /\ 2 ^ 31 <= 2 ^ (w - 1).
Proof. destruct Hw as [-> | ->]; pows; lia. Qed.

Lemma M_bound : 0 < M < 2 ^ w.
Proof. eapply magic_bound; [done..|by apply divisor_ok|done]. Qed.

(** The high word after the correction by the numerator. *)
Definition high_word : Z :=
  let hi := (magic * n) >> w in
  if (0 <? imm) && (magic <? 0) then wrap_s w (hi + n)
  else if (imm <? 0) && (0 <? magic) then wrap_s w (hi - n)
  else hi.

Lemma product_range : in_s w (V * n / 2 ^ w).
Proof.
  pose proof w_facts as [E _]. pose proof M_bound as HM. unfold in_s in *.
  assert (V = M \/ V = - M) as HV by (unfold V; destruct (Z.sgn_spec imm) as [[_ ->]|[[? _]|[_ ->]]]; lia).
  split; [apply Z.div_le_lower_bound|apply Z.div_lt_upper_bound]; destruct HV as [-> | ->]; nia.
Qed.

Lemma high_word_spec : high_word = V * n / 2 ^ w.
Proof.
  pose proof w_facts as [E _]. pose proof M_bound as HM. pose proof product_range as Hr.
  unfold high_word. rewrite Z.shiftr_div_pow2 by lia. cbv zeta.
  assert (0 < w) as Hw0 by lia.
  assert (imm < 0 /\ V = - M \/ 0 < imm /\ V = M) as HV
    by (unfold V; destruct (Z.sgn_spec imm) as [[? ->]|[[? _]|[? ->]]]; lia).
  assert (magic = V \/ magic = V - 2 ^ w /\ 0 < imm \/ magic = V + 2 ^ w /\ imm < 0) as Hm.
  { unfold magic. rewrite wrap_s_alt by done. unfold wrap_u.
    destruct HV as [[? ->]|[? ->]].
    - rewrite (Z.mod_opp_l_nz M), (Z.mod_small M) by (rewrite ?Z.mod_small; lia).
      case_if; lia.
    - rewrite (Z.mod_small M) by lia. case_if; lia. }
  pose proof (wrap_s_range w V Hw0) as Hmr. fold magic in Hmr. unfold in_s in Hmr.
  destruct Hm as [Em|[[Em Hi]|[Em Hi]]].
  - destruct (Z.ltb_spec 0 imm), (Z.ltb_spec imm 0), (Z.ltb_spec magic 0), (Z.ltb_spec 0 magic);
      simpl; rewrite ?Em; done || lia.
  - rewrite (proj2 (Z.ltb_lt 0 imm)), (proj2 (Z.ltb_lt magic 0)) by lia. simpl.
    rewrite Em. replace ((V - 2 ^ w) * n) with (V * n + (- n) * 2 ^ w) by lia.
    rewrite Z.div_add by lia. rewrite wrap_s_id; [lia|done|]. unfold in_s in *. lia.
  - rewrite (proj2 (Z.ltb_ge 0 imm)), (proj2 (Z.ltb_lt imm 0)), (proj2 (Z.ltb_lt 0 magic)) by lia. simpl.
    rewrite Em. replace ((V + 2 ^ w) * n) with (V * n + n * 2 ^ w) by lia.
    rewrite Z.div_add by lia. rewrite wrap_s_id; [lia|done|]. unfold in_s in *. lia.
Qed.

(** Shifted and rounded towards zero it is the quotient. *)
Definition shifted : Z := high_word >> (p - w).

Lemma shifted_spec : shifted = V * n / 2 ^ p.
Proof.
  destruct Hp as (Hwp & _). unfold shifted. rewrite Z.shiftr_div_pow2, high_word_spec by lia.
  rewrite Z.div_div by lia. rewrite <- Z.pow_add_r by lia. do 2 f_equal. lia.
Qed.

Lemma quotient_spec : shifted + (if shifted <? 0 then 1 else 0) = Z.quot n imm.
Proof.
  rewrite shifted_spec, Z.quot_div by lia. set (D := Z.abs imm) in *.
  pose proof (divisor_ok w imm Hw Himm H2) as HN. fold D in HN.
  assert (forall m, 0 <= m -> 0 <= m / D) as Hpos by (intros; apply Z.div_pos; lia).
  assert (forall m, 0 <= m <= top_numerator w imm -> M * m / 2 ^ p = m / D) as Hfloor
    by (intros m Hm; by apply (magic_floor w D (top_numerator w imm) Hw H2 HN p Hp)).
  assert (forall m, 0 < m <= 2 ^ (w - 1) -> (top_numerator w imm = 2 ^ (w - 1) -> m < 2 ^ (w - 1)) ->
            (- (M * m)) / 2 ^ p = - (m / D) - 1) as Hneg
    by (intros m Hm Ht; by apply (magic_floor_neg w D (top_numerator w imm) Hw H2 HN p Hp)).
  assert (0 < 2 ^ p) as Hpow by (destruct Hp as (? & _); lia).
  unfold in_s in *. unfold V, top_numerator in *.
  destruct (Z.sgn_spec imm) as [[Hi ->]|[[? _]|[Hi ->]]]; [|lia|];
    destruct (Z.sgn_spec n) as [[Hs ->]|[[Hs ->]|[Hs ->]]]; [| | | | |].
  all: try change (Z.opp 1) with (-1). all: destruct (Z.ltb_spec 0 imm); try lia.
  - replace (1 * M * n) with (M * n) by lia. rewrite Hfloor, Z.abs_eq by lia.
    pose proof (Hpos n ltac:(lia)). case_if; bools; lia.
  - rewrite <- Hs, Z.mul_0_r, Z.div_0_l by lia. case_if; bools; lia.
  - replace (1 * M * n) with (- (M * (- n))) by lia. rewrite Hneg, Z.abs_neq by lia.
    pose proof (Hpos (- n) ltac:(lia)). case_if; bools; lia.
  - replace (-1 * M * n) with (- (M * n)) by lia. rewrite Hneg, Z.abs_eq by lia.
    pose proof (Hpos n ltac:(lia)). case_if; bools; lia.
  - rewrite <- Hs, Z.mul_0_r, Z.div_0_l by lia. case_if; bools; lia.
  - replace (-1 * M * n) with (M * (- n)) by lia. rewrite Hfloor, Z.abs_neq by lia.
    pose proof (Hpos (- n) ltac:(lia)). case_if; bools; lia.
Qed.

End Value.

(** ** Running the emitted code *)

(** [code] leaves [v] in [RAX] and the other registers alone. *)
Definition loads (w : Z) (code : list Insn) (v : Z) : Prop :=
  forall m, exists m', exec code m = Some m' /\ read w m' RAX = v /\
    forall r, r <> RAX -> regs m' r = regs m r.

Lemma load_imm w v : 0 < w -> in_s w v -> loads w [mov_imm w RAX v] v.
Proof.
  intros Hw Hv m. eexists. split; [reflexivity|]. split; [reads; by apply wrap_s_id|].
  intros r Hr. by apply regs_diff.
Qed.

Lemma Load64BitValue_spec dest v m :
  in_s 64 v ->
  exists m', exec (Load64BitValue dest v) m = Some m' /\ read 64 m' dest = v /\
    forall r, r <> dest -> regs m' r = regs m r.
Proof.
  intros Hv. unfold Load64BitValue. destruct (Z.eqb_spec v 0) as [->|Hz].
  - eexists. split; [reflexivity|]. split; [|intros r Hr; by apply regs_diff].
    unfold read, lose_flags, write. simpl. rewrite decide_True by done. by rewrite Z.lxor_nilpotent.
  - destruct ((0 <=? v) && (v <? 2 ^ 32)) eqn:E.
    + bools. eexists. split; [reflexivity|]. split; [|intros r Hr; by apply regs_diff].
      unfold read, write. simpl. rewrite decide_True, wrap_u_wrap_s, wrap_u_id by (done || lia).
      by apply wrap_s_id.
    + eexists. split; [reflexivity|]. split; [reads; by apply wrap_s_id|].
      intros r Hr. by apply regs_diff.
Qed.

(** The common part of both widths. *)
Definition multiply (w : Z) (temp : Register) (imm magic shift : Z) : list Insn :=
  [imul w temp]
  ++ (if (0 <? imm) && (magic <? 0) then [add w RDX temp]
      else if (imm <? 0) && (0 <? magic) then [sub w RDX temp] else [])
  ++ (if negb (shift =? 0) then [sar w RDX shift] else []).
Definition round (w : Z) : list Insn := [mov w RAX RDX; shr w RDX (w - 1); add w RDX RAX].
Definition finish (w : Z) (is_div : bool) (temp : Register) (imm : Z) : list Insn :=
  if negb is_div
  then [mov w RAX temp; imul_imm w RDX imm; sub w RAX RDX; mov w RDX RAX]
  else [mov w RAX RDX].

Section Run.
Context (w : Z) (temp : Register) (imm n p : Z).
Hypothesis Hw : w = 32 \/ w = 64.
Hypothesis Htemp : temp <> RAX /\ temp <> RDX.
Hypothesis Himm : in_s w imm.
Hypothesis H2 : 2 <= Z.abs imm.
Hypothesis Hn : in_s w n.
Hypothesis Hp : least_enough w (nc_of (top_numerator w imm) (Z.abs imm)) (Z.abs imm) p.
Let magic := wrap_s w (Z.sgn imm * magic_of (Z.abs imm) p).

Lemma multiply_spec m :
  read w m RAX = magic -> read w m temp = n ->
  exists m', exec (multiply w temp imm magic (p - w)) m = Some m' /\
    read w m' RDX = shifted w imm n p /\ read w m' temp = n.
Proof.
  intros Ha Ht. assert (0 < w) as Hw0 by lia. destruct Htemp as [Ht1 Ht2].
  pose proof (high_word_spec w imm n p Hw Himm H2 Hn Hp) as Hh.
  pose proof (product_range w imm n p Hw Himm H2 Hn Hp) as Hr. rewrite <- Hh in Hr.
  unfold multiply. rewrite exec_app. cbn [exec exec1].
  set (m1 := lose_flags _). rewrite exec_app.
  assert (read w m1 RDX = wrap_s w ((magic * n) >> w) /\ read w m1 temp = n) as [Hd1 Ht1'].
  { unfold m1. reads. by rewrite Ha, Ht. }
  assert (exists m2, exec (if (0 <? imm) && (magic <? 0) then [add w RDX temp]
      else if (imm <? 0) && (0 <? magic) then [sub w RDX temp] else []) m1 = Some m2 /\
      read w m2 RDX = high_word w imm n p /\ read w m2 temp = n) as (m2 & -> & Hd2 & Ht2').
  { unfold high_word in Hr |- *. fold magic in Hr |- *. cbv zeta in Hr |- *.
    destruct ((0 <? imm) && (magic <? 0)); [|destruct ((imm <? 0) && (0 <? magic))];
      (eexists; split; [reflexivity|]; split; [|by reads]).
    - reads. by rewrite Hd1, Ht1', wrap_s_add_l.
    - reads. by rewrite Hd1, Ht1', wrap_s_sub_l.
    - rewrite Hd1. by apply wrap_s_id. }
  destruct (Z.eqb_spec (p - w) 0) as [E0|E0]; cbn [negb exec exec1].
  - eexists. split; [reflexivity|]. split; [|done]. unfold shifted. by rewrite E0, Z.shiftr_0_r.
  - eexists. split; [reflexivity|]. split; [|by reads]. reads. rewrite Hd2. apply wrap_s_id; [done|]. unfold shifted.
    destruct Hp as (Hwp & _). rewrite Z.shiftr_div_pow2 by lia. unfold in_s in *.
    assert (0 < 2 ^ (p - w)) by lia. split; [apply Z.div_le_lower_bound|apply Z.div_lt_upper_bound]; nia.
Qed.

Lemma round_spec m t :
  in_s w t -> in_s w (t + (if t <? 0 then 1 else 0)) -> read w m RDX = t -> read w m temp = n ->
  exists m', exec (round w) m = Some m' /\
    read w m' RDX = t + (if t <? 0 then 1 else 0) /\ read w m' temp = n.
Proof.
  intros Ht Hr Hd Hm. assert (0 < w) as Hw0 by lia. destruct Htemp as [Ht1 Ht2].
  unfold round. cbn [exec exec1]. eexists. split; [reflexivity|]. split; [|by reads]. reads.
  rewrite regs_diff, read_unsigned, Hd by done.
  rewrite (wrap_s_id w t) by done.
  assert (wrap_u w t >> (w - 1) = if t <? 0 then 1 else 0) as ->; [|].
  { rewrite Z.shiftr_div_pow2 by lia. unfold in_s in Ht. unfold wrap_u.
    assert (2 ^ w = 2 * 2 ^ (w - 1)) as Ew by (destruct Hw as [-> | ->]; done).
    assert (0 < 2 ^ (w - 1)) by lia. destruct (Z.ltb_spec t 0).
    - rewrite <- (Z.mod_unique_pos t (2 ^ w) (-1) (t + 2 ^ w)) by lia.
      symmetry. apply Z.div_unique_pos with (t + 2 ^ w - 2 ^ (w - 1)); lia.
    - rewrite Z.mod_small, Z.div_small; lia. }
  rewrite (wrap_s_id w (if t <? 0 then 1 else 0)) by (destruct Hw as [-> | ->], (t <? 0); unfold in_s; pows; lia).
  rewrite Z.add_comm. by apply wrap_s_id.
Qed.

Lemma finish_spec m is_div :
  read w m RDX = Z.quot n imm -> read w m temp = n ->
  exists m', exec (finish w is_div temp imm) m = Some m' /\
    read w m' (out is_div) = if is_div then Z.quot n imm else Z.rem n imm.
Proof.
  intros Hd Hm. assert (0 < w) as Hw0 by lia. destruct Htemp as [Ht1 Ht2].
  unfold finish. destruct is_div; cbn [negb out exec exec1]; eexists; (split; [reflexivity|]); reads.
  - rewrite <- Hd. by apply wrap_s_id, read_range.
  - rewrite Hd, Hm. rewrite (wrap_s_id w n) by done.
    assert (in_s w (Z.rem n imm)) as Hr.
    { unfold in_s in *. pose proof (Z.rem_bound_abs n imm ltac:(lia)). lia. }
    rewrite <- (wrap_s_id w (Z.rem n imm)) by done.
    rewrite Z.rem_eq by lia. rewrite !wrap_s_wrap_s, wrap_s_sub_r by done. f_equal. lia.
Qed.

(** The code for any constant, from the load of the magic number on. *)
Lemma any_constant_spec load is_div m :
  loads w load magic -> read w m RAX = n ->
  exists m', exec ([mov w temp RAX] ++ load ++ multiply w temp imm magic (p - w) ++ round w
                   ++ finish w is_div temp imm) m = Some m' /\
    read w m' (out is_div) = if is_div then Z.quot n imm else Z.rem n imm.
Proof.
  intros Hload Ha. assert (0 < w) as Hw0 by lia. destruct Htemp as [Ht1 Ht2].
  rewrite exec_app. cbn [exec exec1]. set (m1 := write _ _ _ _).
  assert (read w m1 temp = n) as Hm1 by (unfold m1; reads; rewrite Ha; by apply wrap_s_id).
  rewrite exec_app. destruct (Hload m1) as (m2 & -> & Ha2 & Hkeep).
  assert (read w m2 temp = n) as Hm2 by (unfold read; rewrite Hkeep by done; exact Hm1).
  rewrite exec_app. destruct (multiply_spec m2 Ha2 Hm2) as (m3 & -> & Hd3 & Hm3).
  pose proof (quotient_spec w imm n p Hw Himm H2 Hn Hp) as Hq.
  pose proof (quotient_range w imm n Hw Himm H2 Hn) as Hr.
  rewrite exec_app. destruct (round_spec m3 (shifted w imm n p)) as (m4 & -> & Hd4 & Hm4); [|by rewrite Hq|done..|].
  - rewrite <- Hd3. by apply read_range.
  - apply finish_spec; [|done]. by rewrite Hd4.
Qed.
End Run.

(** ** The cases of [GenerateDivRemIntegral] *)

(** What Java division and remainder give at a type. *)
Definition java_result (is_div : bool) (type : IntType) (n d : Z) : Z :=
  if is_div then wrap_s (bits type) (Z.quot n d) else Z.rem n d.

Lemma bits_cases type : bits type = 32 \/ bits type = 64.
Proof. apply width_cases. Qed.

Lemma any_constant_correct is_div type temp imm m :
  temp <> RAX /\ temp <> RDX -> in_s (bits type) imm -> 2 <= Z.abs imm ->
  exists code m', GenerateDivRemWithAnyConstant is_div type temp imm = Some code /\
    exec code m = Some m' /\
    read (bits type) m' (out is_div) = java_result is_div type (read (bits type) m RAX) imm.
Proof.
  intros Htemp Himm H2. pose proof (bits_cases type) as Hw. set (w := bits type) in *.
  assert (0 < w) as Hw0 by lia. set (n := read w m RAX).
  assert (in_s w n) as Hn by (by apply read_range).
  destruct (magic_and_shift_spec imm (is_long type) Himm H2) as (p & Hp & _ & E). fold w in Hp, E.
  change (width (is_long type)) with w in E, Hp.
  set (magic := wrap_s w _) in E.
  assert (in_s w magic) as Hmagic by (by apply wrap_s_range).
  destruct (any_constant_spec w temp imm n p Hw Htemp Himm H2 Hn Hp
              (if is_long type then Load64BitValue RAX magic else [mov_imm 32 RAX magic]) is_div m)
    as (m' & Ec & Er).
  { unfold w, bits in *. destruct type; simpl in *; [by apply load_imm|].
    intros m0. by apply Load64BitValue_spec. }
  { done. }
  assert (java_result is_div type n imm = if is_div then Z.quot n imm else Z.rem n imm) as ->.
  { unfold java_result. destruct is_div; [|done]. fold w. by apply wrap_s_id, quotient_range. }
  unfold GenerateDivRemWithAnyConstant. fold magic in Ec. unfold w, bits in *.
  destruct type; cbn [is_long width] in *; rewrite E; eexists; exists m';
    (split; [reflexivity|]; split; [|exact Er]); rewrite <- Ec; f_equal;
    unfold multiply, round, finish; rewrite <- ?app_assoc; reflexivity.
Qed.

Lemma one_or_minus_one_correct is_div type imm m :
  imm = 1 \/ imm = -1 ->
  exists m', exec (DivRemOneOrMinusOne is_div type imm) m = Some m' /\
    read (bits type) m' (out is_div) = java_result is_div type (read (bits type) m RAX) imm.
Proof.
  intros Himm. set (n := read (bits type) m RAX).
  assert (forall w, (w = 32 \/ w = 64) -> read w (lose_flags (write 32 m RDX
            (read 32 m RDX ^^^ read 32 m RDX))) RDX = 0) as Hxor.
  { intros w Hw. unfold read at 1, lose_flags, write. simpl.
    rewrite Z.lxor_nilpotent. by destruct Hw as [-> | ->]. }
  assert (Z.rem n imm = 0) as Hrem by (destruct Himm as [-> | ->]; [apply Z.rem_1_r|zdiv]).
  assert (in_s (bits type) n) as Hn by (apply read_range; destruct type; done).
  unfold DivRemOneOrMinusOne, java_result.
  destruct is_div; cbn [negb out].
  - destruct Himm as [-> | ->]; cbn [Z.eqb]; destruct type; cbn [exec exec1 bits is_long width] in *;
      eexists; (split; [reflexivity|]); reads; fold n.
    all: rewrite ?Z.quot_1_r, ?(wrap_s_id _ n) by done; try done.
    all: by replace (Z.quot n (-1)) with (- n) by zdiv.
  - rewrite Hrem. destruct type; cbn [exec exec1 bits is_long width]; eexists; (split; [reflexivity|]).
    + apply Hxor. by left.
    + apply Hxor. by right.
Qed.

(** Powers of two. *)
Lemma power_of_two_magnitude imm :
  in_s 64 imm -> imm <> 0 -> IsPowerOfTwo_int64 (AbsOrMin imm) = true ->
  exists k, 0 <= k < 64 /\ Z.abs imm = 2 ^ k.
Proof.
  intros Hi H0 Hp. unfold AbsOrMin in Hp. destruct (Z.eqb_spec imm (- 2 ^ 63)) as [->|Hne].
  - exists 63. split; [lia|done].
  - unfold in_s in Hi. change (64 - 1) with 63 in Hi.
    unfold IsPowerOfTwo_int64 in Hp. rewrite wrap_s_id in Hp by (unfold in_s; pows; lia).
    pose proof (IsPowerOfTwo_spec (Z.abs imm) ltac:(lia) Hp) as E.
    exists (Z.log2 (Z.abs imm)). split; [|done].
    split; [apply Z.log2_nonneg|]. apply Z.log2_lt_pow2; [lia|]. pows. lia.
Qed.

Definition ctz_of_negated (k : nat) : bool := CTZ 64 (u64 (- 2 ^ Z.of_nat k)) =? Z.of_nat k.

Lemma CTZ_power_of_two imm k : 0 <= k < 64 -> Z.abs imm = 2 ^ k -> CTZ 64 (u64 imm) = k.
Proof.
  intros Hk E. assert (0 < 2 ^ k < 2 ^ 64) as Hb by (split; [lia|apply Z.pow_lt_mono_r; lia]).
  assert (imm = 2 ^ k \/ imm = - 2 ^ k) as [-> | ->] by lia.
  - rewrite wrap_u_id by (unfold in_u; lia). apply builtin_ctz_pow2. lia.
  - assert (forallb ctz_of_negated (seq 0 64) = true) as H by (by vm_compute).
    rewrite forallb_forall in H. specialize (H (Z.to_nat k)). unfold ctz_of_negated in H.
    rewrite Z2Nat.id in H by lia. apply Z.eqb_eq, H, list_elem_of_In, elem_of_seq. lia.
Qed.

Lemma AbsOrMin_unsigned imm : in_s 64 imm -> u64 (AbsOrMin imm) = Z.abs imm.
Proof.
  intros Hi. unfold AbsOrMin. destruct (Z.eqb_spec imm (- 2 ^ 63)) as [->|]; [done|].
  apply wrap_u_id. unfold in_s, in_u in *. change (64 - 1) with 63 in Hi. pows. lia.
Qed.

(** The biased numerator shifted and negated is the quotient. *)
Lemma biased_shift n imm k :
  0 <= k -> Z.abs imm = 2 ^ k -> imm <> 0 ->
  let t := (if 0 <=? n then n else n + (2 ^ k - 1)) >> k in
  (if imm <? 0 then - t else t) = Z.quot n imm.
Proof.
  intros Hk E H0. cbv zeta. rewrite Z.shiftr_div_pow2, Z.quot_div, E by lia.
  assert (0 < 2 ^ k) as Hb by lia. generalize dependent (2 ^ k). intros d E Hb.
  assert ((if 0 <=? n then n else n + (d - 1)) / d = Z.sgn n * (Z.abs n / d)) as ->.
  { destruct (Z.leb_spec 0 n).
    - destruct (Z.eq_dec n 0) as [->|]; [done|]. rewrite Z.sgn_pos, Z.abs_eq by lia. lia.
    - rewrite Z.sgn_neg, Z.abs_neq by lia.
      pose proof (Z.div_mod (- n) d ltac:(lia)). pose proof (Z.mod_pos_bound (- n) d Hb).
      symmetry. apply Z.div_unique_pos with (d - 1 - (- n) mod d); lia. }
  destruct (Z.ltb_spec imm 0); [rewrite (Z.sgn_neg imm)|rewrite (Z.sgn_pos imm)]; lia.
Qed.

(** The code after the bias is in [RDX], at either width. *)
Definition shift_code (w : Z) (imm shift : Z) : list Insn :=
  [test w RAX RAX; cmov_ge RDX RAX; sar w RDX shift]
  ++ (if imm <? 0 then [neg w RDX] else []) ++ [mov w RAX RDX].

Lemma shift_code_spec w imm k m :
  w = 32 \/ w = 64 -> in_s w imm -> imm <> 0 -> 0 <= k < w -> Z.abs imm = 2 ^ k ->
  (read w m RAX < 0 -> read w m RDX = read w m RAX + (2 ^ k - 1)) ->
  exists m', exec (shift_code w imm k) m = Some m' /\
    read w m' RAX = wrap_s w (Z.quot (read w m RAX) imm).
Proof.
  intros Hw Himm H0 Hk E Hd. assert (0 < w) as Hw0 by lia. set (n := read w m RAX) in *.
  assert (in_s w n) as Hn by (by apply read_range).
  rewrite <- (biased_shift n imm k) by (done || lia). cbv zeta.
  set (b := if 0 <=? n then n else n + (2 ^ k - 1)).
  unfold shift_code. rewrite exec_app. cbn [exec exec1].
  set (m1 := set_flags m _). cbn [flags m1 set_flags SF OF].
  fold n. rewrite Z.land_diag, wrap_s_id by done.
  set (m2 := if eqb (n <? 0) false then write 64 m1 RDX (regs m1 RAX) else m1).
  assert (read w m2 RDX = b) as Hm2.
  { unfold m2, b. destruct (Z.ltb_spec n 0), (Z.leb_spec 0 n); try lia; cbn [eqb].
    - unfold m1. reads. by apply Hd.
    - unfold read, write. simpl. destruct Hw as [-> | ->]; [|by rewrite wrap_s_wrap_u].
      fold n. unfold n, read. apply wrap_s_congr; [lia|]. unfold wrap_u.
      by rewrite <- (Znumtheory.Zmod_div_mod (2 ^ 32) (2 ^ 64)) by (try lia; by exists (2 ^ 32)). }
  set (m3 := lose_flags _).
  assert (read w m3 RDX = wrap_s w (b >> k)) as Hm3 by (unfold m3; reads; by rewrite Hm2).
  rewrite exec_app. destruct (imm <? 0); cbn [exec exec1]; (eexists; split; [reflexivity|]).
  - reads. rewrite Hm3, wrap_s_wrap_s, <- (Z.sub_0_l (wrap_s _ _)), wrap_s_sub_r by done.
    f_equal.
  - reads. by rewrite Hm3, wrap_s_wrap_s.
Qed.

Lemma power_of_two_correct type imm m :
  in_s (bits type) imm -> imm <> 0 -> IsPowerOfTwo_int64 (AbsOrMin imm) = true ->
  exists m', exec (DivByPowerOfTwo type imm) m = Some m' /\
    read (bits type) m' RAX = java_result true type (read (bits type) m RAX) imm.
Proof.
  intros Himm H0 Hp. pose proof (bits_cases type) as Hw. set (w := bits type) in *.
  assert (in_s 64 imm) as Hi by (unfold in_s in *; destruct Hw as [Ew|Ew]; rewrite Ew in *; pows; lia).
  destruct (power_of_two_magnitude imm Hi H0 Hp) as (k & Hk & Ek).
  assert (0 <= k < w) as Hkw.
  { split; [lia|]. apply (Z.pow_lt_mono_r_iff 2); [lia..|]. rewrite <- Ek. unfold in_s in Himm.
    destruct Hw as [Ew|Ew]; rewrite Ew in *; pows; lia. }
  assert (2 ^ k <= 2 ^ (w - 1)) as Hkb by (apply Z.pow_le_mono_r; lia).
  unfold DivByPowerOfTwo. rewrite (AbsOrMin_unsigned imm Hi), (CTZ_power_of_two imm k Hk Ek), Ek.
  assert (0 < 2 ^ k) by lia.
  assert (u64 (2 ^ k - 1) = 2 ^ k - 1) as ->
    by (apply wrap_u_id; unfold in_u; destruct Hw as [Ew|Ew]; rewrite Ew in *; pows; lia).
  unfold java_result. fold w. set (n := read w m RAX) in *.
  assert (in_s w n) as Hn by (apply read_range; lia).
  assert (wrap_s w (2 ^ k - 1) = 2 ^ k - 1) as Hbias by (apply wrap_s_id; [lia|]; unfold in_s; lia).
  unfold w, bits in *. destruct type; cbn [is_long width] in *.
  - change ([lea 32 RDX RAX (s32 (2 ^ k - 1)); test 32 RAX RAX; cmov_ge RDX RAX; sar 32 RDX k]
            ++ (if imm <? 0 then [neg 32 RDX] else []) ++ [mov 32 RAX RDX])
      with ([lea 32 RDX RAX (s32 (2 ^ k - 1))] ++ shift_code 32 imm k).
    rewrite exec_app. cbn [exec exec1].
    destruct (shift_code_spec 32 imm k (write 32 m RDX (read 32 m RAX + s32 (2 ^ k - 1))))
      as (m' & -> & Er); try done.
    + reads. fold n. intros Hneg. rewrite Hbias. apply wrap_s_id; [lia|]. unfold in_s in *. lia.
    + exists m'. split; [done|]. rewrite Er. by reads.
  - change (Load64BitValue RDX (s64 (2 ^ k - 1))
            ++ [add 64 RDX RAX; test 64 RAX RAX; cmov_ge RDX RAX; sar 64 RDX k]
            ++ (if imm <? 0 then [neg 64 RDX] else []) ++ [mov 64 RAX RDX])
      with (Load64BitValue RDX (s64 (2 ^ k - 1)) ++ [add 64 RDX RAX] ++ shift_code 64 imm k).
    destruct (Load64BitValue_spec RDX (s64 (2 ^ k - 1)) m) as (m1 & E1 & Hd1 & Hkeep);
      [by apply wrap_s_range|].
    assert (read 64 m1 RAX = n) as Ha1 by (unfold read; by rewrite Hkeep).
    rewrite exec_app, E1, exec_app. cbn [exec exec1].
    destruct (shift_code_spec 64 imm k (lose_flags (write 64 m1 RDX (read 64 m1 RDX + read 64 m1 RAX))))
      as (m' & -> & Er); try done.
    + reads. rewrite Ha1, Hd1, Hbias. intros Hneg. rewrite Z.add_comm. apply wrap_s_id; [lia|].
      unfold in_s in *. lia.
    + exists m'. split; [done|]. rewrite Er. reads. by rewrite Ha1.
Qed.

(** Division by a register. *)
Lemma sign_extended_dividend w n :
  w = 32 \/ w = 64 -> in_s w n -> wrap_s w (n >> (w - 1)) * 2 ^ w + wrap_u w n = n.
Proof.
  intros Hw Hn. rewrite Z.shiftr_div_pow2 by lia. unfold in_s, wrap_u in *.
  assert (2 ^ w = 2 * 2 ^ (w - 1) /\ 2 ^ 31 <= 2 ^ (w - 1)) as [Ew Hbig]
    by (destruct Hw as [-> | ->]; pows; lia).
  destruct (Z.lt_ge_cases n 0).
  - assert (n / 2 ^ (w - 1) = -1) as ->
      by (symmetry; apply Z.div_unique_pos with (n + 2 ^ (w - 1)); lia).
    rewrite wrap_s_id by (unfold in_s; lia).
    rewrite <- (Z.mod_unique_pos n (2 ^ w) (-1) (n + 2 ^ w)); lia.
  - rewrite Z.div_small, Z.mod_small by lia. rewrite wrap_s_id by (unfold in_s; lia). lia.
Qed.

Lemma quotient_fits w d n :
  w = 32 \/ w = 64 -> in_s w n -> in_s w d -> d <> 0 -> d <> -1 -> in_s w (Z.quot n d).
Proof.
  intros Hw Hn Hd H0 H1. destruct (Z.eq_dec d 1) as [->|]; [by rewrite Z.quot_1_r|].
  apply quotient_range; done || lia.
Qed.

Lemma register_correct is_div type second m :
  second <> RAX /\ second <> RDX -> read (bits type) m second <> 0 ->
  exists m', run {| main := [cmp_imm (bits type) second (-1)];
                    slow := Some (DivRemMinusOneSlowPath (out is_div) type is_div,
                                  [sign_extend (bits type); idiv (bits type) second]) |} m = Some m' /\
    read (bits type) m' (out is_div) =
    java_result is_div type (read (bits type) m RAX) (read (bits type) m second).
Proof.
  intros [Hs1 Hs2] H0. pose proof (bits_cases type) as Hw. unfold java_result.
  set (w := bits type) in *. assert (0 < w) as Hw0 by lia.
  set (n := read w m RAX). set (d := read w m second) in *.
  assert (in_s w n /\ in_s w d) as [Hn Hd] by (split; by apply read_range).
  unfold run. cbn [main slow exec exec1 mbind option_bind flags set_flags ZF].
  set (m1 := set_flags m _). fold d.
  assert ((wrap_s w (d - -1) =? 0) = (d =? -1)) as ->.
  { assert (2 ^ 31 <= 2 ^ (w - 1)) by (destruct Hw as [-> | ->]; pows; lia).
    destruct (Z.eq_dec d (2 ^ (w - 1) - 1)) as [E|].
    - rewrite wrap_s_alt by done. unfold wrap_u. assert (2 ^ w = 2 * 2 ^ (w - 1)) by (destruct Hw as [-> | ->]; done).
      rewrite Z.mod_small by lia. case_if; bools; rewrite E; destruct (Z.eqb_spec (2 ^ (w - 1) - 1) (-1)); lia.
    - rewrite wrap_s_id by (unfold in_s in *; lia).
      destruct (Z.eqb_spec (d - -1) 0), (Z.eqb_spec d (-1)); lia. }
  destruct (Z.eqb_spec d (-1)) as [-> |H1].
  - destruct (one_or_minus_one_correct is_div type (-1) m1 (or_intror eq_refl)) as (m' & E & Er).
    destruct is_div.
    + unfold DivRemMinusOneSlowPath, out. unfold w, bits in *.
      destruct type; cbn [exec exec1 is_long width] in *; eexists; (split; [reflexivity|]); reads;
        change (read _ m1 RAX) with n; by replace (Z.quot n (-1)) with (- n) by zdiv.
    + exists m'. split; [|exact Er]. rewrite <- E. by destruct type.
  - cbn [exec exec1]. reads. change (read w m1 RAX) with n. change (read w m1 second) with d.
    rewrite regs_diff, (read_unsigned w m1) by done. change (read w m1 RAX) with n.
    rewrite sign_extended_dividend by done. pose proof (quotient_fits w d n Hw Hn Hd H0 H1) as Hq.
    rewrite (proj2 (Z.eqb_neq d 0)), (wrap_s_id w (Z.quot n d)), Z.eqb_refl by done. cbn [orb negb].
    eexists. split; [reflexivity|]. destruct is_div; cbn [out]; reads; [by apply wrap_s_id|].
    apply wrap_s_id; [done|]. unfold in_s in *. pose proof (Z.rem_bound_abs n d ltac:(lia)). lia.
Qed.

(** ** The theorem *)

(** The divisor's value, and that its location is one the allocator gives. *)
Definition divisor_value (type : IntType) (m : Machine) (second : Divisor) : Z :=
  match second with ConstantDivisor imm => imm | RegisterDivisor r => read (bits type) m r end.
Definition divisor_located (type : IntType) (second : Divisor) : Prop :=
  match second with
  | ConstantDivisor imm => in_s (bits type) imm
  | RegisterDivisor r => r <> RAX /\ r <> RDX
  end.

(** C14. The code emitted for integer division and remainder divides.  For every [int] or
    [long] numerator in [RAX] and every divisor but zero, constant or in a register, the
    instructions emitted by [GenerateDivRemIntegral] run without a divide error and leave
    Java's quotient in [RAX] or remainder in [RDX]: by negation for one and minus one, by
    shifts for powers of two, by the magic number for other constants, and by [idiv] with
    a slow path for minus one otherwise.  The least integer divided by minus one wraps to
    itself, as in Java. *)
Theorem integer_division_correct is_div type temp second m :
  temp <> RAX /\ temp <> RDX -> divisor_located type second -> divisor_value type m second <> 0 ->
  exists e m', GenerateDivRemIntegral is_div type temp second = Some e /\ run e m = Some m' /\
    read (bits type) m' (out is_div) =
    java_result is_div type (read (bits type) m RAX) (divisor_value type m second).
Proof.
  intros Htemp Hloc H0. destruct second as [imm|r]; cbn [divisor_located divisor_value] in *.
  2: { destruct (register_correct is_div type r m Hloc H0) as (m' & E & Er).
       eexists. exists m'. split; [|by split]. unfold GenerateDivRemIntegral. f_equal.
       unfold bits. destruct type; reflexivity. }
  assert (forall code m', exec code m = Some m' -> run (straight code) m = Some m') as Hrun
    by (intros code m' E; unfold run; simpl; by rewrite E).
  unfold GenerateDivRemIntegral. rewrite (proj2 (Z.eqb_neq imm 0)) by done.
  destruct ((imm =? 1) || (imm =? -1)) eqn:E1.
  { apply orb_true_iff in E1. rewrite !Z.eqb_eq in E1.
    destruct (one_or_minus_one_correct is_div type imm m E1) as (m' & E & Er).
    eexists. exists m'. split; [reflexivity|]. split; [by apply Hrun|done]. }
  apply orb_false_iff in E1 as [E1 E2]. bools.
  destruct (is_div && IsPowerOfTwo_int64 (AbsOrMin imm)) eqn:Ep.
  { apply andb_true_iff in Ep as [-> Ep].
    destruct (power_of_two_correct type imm m Hloc H0 Ep) as (m' & E & Er).
    eexists. exists m'. split; [reflexivity|]. split; [by apply Hrun|done]. }
  destruct (any_constant_correct is_div type temp imm m Htemp Hloc ltac:(lia))
    as (code & m' & E & Ec & Er).
  rewrite E. eexists. exists m'. split; [reflexivity|]. split; [by apply Hrun|done].
Qed.

(** -100 / 7 and the remainder of the least [long] by -10. *)
Lemma integer_division_correct_witness :
  let m n := {| regs := fun r => if decide (r = RAX) then n else 0; flags := None |} in
  (exists e m', GenerateDivRemIntegral true kPrimInt RCX (ConstantDivisor 7) = Some e /\
     run e (m (2 ^ 32 - 100)) = Some m' /\ read 32 m' RAX = -14) /\
  (exists e m', GenerateDivRemIntegral false kPrimLong RCX (ConstantDivisor (-10)) = Some e /\
     run e (m (2 ^ 63)) = Some m' /\ read 64 m' RDX = -8).
Proof.
  intros m. split.
  - destruct (integer_division_correct true kPrimInt RCX (ConstantDivisor 7) (m (2 ^ 32 - 100)))
      as (e & m' & E1 & E2 & E3); [done|by vm_compute|done|].
    exists e, m'. split; [done|]. split; [done|]. etransitivity; [exact E3|by vm_compute].
  - destruct (integer_division_correct false kPrimLong RCX (ConstantDivisor (-10)) (m (2 ^ 63)))
      as (e & m' & E1 & E2 & E3); [done|by vm_compute|done|].
    exists e, m'. split; [done|]. split; [done|]. etransitivity; [exact E3|by vm_compute].
Defined.
