(* ===== verification/ParallelMove.v ===== *)
(** * Parallel moves ([compiler/optimizing/parallel_move_resolver.cc], [locations.h])

    The resolver that orders a set of moves done at once, breaking cycles by swaps, and
    what the moves and swaps it emits on x86-64 do to registers and stack slots. *)
From S2P Require Import Prelude.

(** ** Locations *)

Inductive HConstant :=
| IntConstant (value : Z)
| NullConstant
| LongConstant (value : Z)
| FloatConstant (value_bits : Z)
| DoubleConstant (value_bits : Z).

(** [Location] by its kinds; an unallocated one never reaches the resolver. *)
Inductive Location :=
| NoLocation
| ConstantLocation (constant : HConstant)
| StackSlot (stack_index : Z)
| DoubleStackSlot (stack_index : Z)
| RegisterLocation (reg : Z)
| FpuRegisterLocation (reg : Z)
| RegisterPairLocation (low high : Z)
| FpuRegisterPairLocation (low high : Z)
| SIMDStackSlot (stack_index : Z).

#[export] Instance HConstant_eq_dec : EqDecision HConstant.
Proof. solve_decision. Defined.
#[export] Instance Location_eq_dec : EqDecision Location.
Proof. solve_decision. Defined.

Definition IsConstant (l : Location) : bool :=
  match l with ConstantLocation _ => true | _ => false end.
Definition IsInvalid (l : Location) : bool :=
  match l with NoLocation => true | _ => false end.
Definition IsStackSlot (l : Location) : bool :=
  match l with StackSlot _ => true | _ => false end.
Definition IsDoubleStackSlot (l : Location) : bool :=
  match l with DoubleStackSlot _ => true | _ => false end.
Definition IsPair (l : Location) : bool :=
  match l with RegisterPairLocation _ _ | FpuRegisterPairLocation _ _ => true | _ => false end.
Definition Equals (l l' : Location) : bool := bool_decide (l = l').

(** [ToLow], [ToHigh], and [LowOf] and [HighOf] of the resolver, which give no location
    for one without halves. *)
Definition LowOf (l : Location) : Location :=
  match l with
  | RegisterPairLocation low _ => RegisterLocation low
  | FpuRegisterPairLocation low _ => FpuRegisterLocation low
  | DoubleStackSlot i => StackSlot i
  | _ => NoLocation
  end.
Definition HighOf (l : Location) : Location :=
  match l with
  | RegisterPairLocation _ high => RegisterLocation high
  | FpuRegisterPairLocation _ high => FpuRegisterLocation high
  | DoubleStackSlot i => StackSlot (i + 4)
  | _ => NoLocation
  end.

Definition Contains (l other : Location) : bool :=
  if Equals l other then true
  else if IsPair l || IsDoubleStackSlot l
  then Equals (LowOf l) other || Equals (HighOf l) other
  else false.
Definition OverlapsWith (l other : Location) : bool := Contains l other || Contains other l.

(** ** Moves *)

Record MoveOperands := { source_ : Location; destination_ : Location; Is64BitMove : bool }.

Definition SetSource (m : MoveOperands) (l : Location) : MoveOperands :=
  {| source_ := l; destination_ := destination_ m; Is64BitMove := Is64BitMove m |}.
Definition SetDestination (m : MoveOperands) (l : Location) : MoveOperands :=
  {| source_ := source_ m; destination_ := l; Is64BitMove := Is64BitMove m |}.
(** [MarkPending] clears the destination and [ClearPending] puts it back. *)
Definition MarkPending (m : MoveOperands) : MoveOperands := SetDestination m NoLocation.
Definition ClearPending (m : MoveOperands) (dest : Location) : MoveOperands := SetDestination m dest.
Definition Eliminate (m : MoveOperands) : MoveOperands :=
  {| source_ := NoLocation; destination_ := NoLocation; Is64BitMove := Is64BitMove m |}.
Definition IsEliminated (m : MoveOperands) : bool := IsInvalid (source_ m).
Definition IsPending (m : MoveOperands) : bool :=
  IsInvalid (destination_ m) && negb (IsInvalid (source_ m)).
Definition Blocks (m : MoveOperands) (loc : Location) : bool :=
  negb (IsEliminated m) && OverlapsWith (source_ m) loc.
Definition IsRedundant (m : MoveOperands) : bool :=
  IsEliminated m || IsInvalid (destination_ m) || Equals (source_ m) (destination_ m).

(** ** What is emitted *)

(** A swap of two stack slots goes through a scratch register, [None] when it is saved
    and restored around the swap. *)
Inductive Emitted :=
| EmittedMove (source destination : Location)
| EmittedSwap (source destination : Location) (scratch : option Z).

Record Resolver := { moves_ : list MoveOperands; code : list Emitted }.

(** [Fatal] is a kind of move or swap the code generator does not implement; [Stuck] is
    an index out of range or no fuel. *)
Inductive Outcome (A : Type) := Done (a : A) | Fatal | Stuck.
Arguments Done {A} a.
Arguments Fatal {A}.
Arguments Stuck {A}.

#[export] Instance Outcome_ret : MRet Outcome := fun A a => Done a.
#[export] Instance Outcome_bind : MBind Outcome := fun A B k c =>
  match c with Done a => k a | Fatal => Fatal | Stuck => Stuck end.

Definition with_moves (st : Resolver) (ms : list MoveOperands) : Resolver :=
  {| moves_ := ms; code := code st |}.
Definition set_move (st : Resolver) (i : nat) (m : MoveOperands) : Resolver :=
  with_moves st (<[i := m]> (moves_ st)).
Definition get_move (st : Resolver) (i : nat) : Outcome MoveOperands :=
  match moves_ st !! i with Some m => Done m | None => Stuck end.

(** *** The code generator for x86-64 *)

Definition TMP : Z := 11.
Definition RAX : Z := 0.
Definition kNumberOfCpuRegisters : nat := 16.

(** The branches of [EmitMove]; a combination it has no branch for fails its [DCHECK]. *)
Definition can_move (source destination : Location) : bool :=
  match source, destination with
  | RegisterLocation _, (RegisterLocation _ | StackSlot _ | DoubleStackSlot _) => true
  | StackSlot _, (RegisterLocation _ | FpuRegisterLocation _ | StackSlot _) => true
  | DoubleStackSlot _, (RegisterLocation _ | FpuRegisterLocation _ | DoubleStackSlot _) => true
  | SIMDStackSlot _, FpuRegisterLocation _ => true
  | ConstantLocation (IntConstant _ | NullConstant), (RegisterLocation _ | StackSlot _) => true
  | ConstantLocation (LongConstant _), (RegisterLocation _ | DoubleStackSlot _) => true
  | ConstantLocation (FloatConstant _), (FpuRegisterLocation _ | StackSlot _) => true
  | ConstantLocation (DoubleConstant _), (FpuRegisterLocation _ | DoubleStackSlot _) => true
  | FpuRegisterLocation _,
    (FpuRegisterLocation _ | StackSlot _ | DoubleStackSlot _ | SIMDStackSlot _) => true
  | _, _ => false
  end.

(** The branches of [EmitSwap]. *)
Definition can_swap (source destination : Location) : bool :=
  match source, destination with
  | RegisterLocation _, (RegisterLocation _ | StackSlot _ | DoubleStackSlot _) => true
  | StackSlot _, (RegisterLocation _ | StackSlot _ | FpuRegisterLocation _) => true
  | DoubleStackSlot _, (RegisterLocation _ | DoubleStackSlot _ | FpuRegisterLocation _) => true
  | FpuRegisterLocation _, (FpuRegisterLocation _ | StackSlot _ | DoubleStackSlot _) => true
  | _, _ => false
  end.

Definition IsScratchLocation (st : Resolver) (loc : Location) : bool :=
  if existsb (fun m => Blocks m loc) (moves_ st) then false
  else existsb (fun m => Equals (destination_ m) loc) (moves_ st).

(** [AllocateScratchRegister]: a register, or none when [if_scratch] has to be spilled. *)
Definition AllocateScratchRegister (st : Resolver) (blocked : Z) (register_count : nat) : option Z :=
  List.find
    (fun reg => negb (blocked =? reg) && IsScratchLocation st (RegisterLocation reg))
    (Z.of_nat <$> seq 0 register_count).

Definition is_slot (l : Location) : bool := IsStackSlot l || IsDoubleStackSlot l.

Definition EmitMove (st : Resolver) (index : nat) : Outcome Resolver :=
  move ← get_move st index;
  if can_move (source_ move) (destination_ move)
  then Done {| moves_ := moves_ st;
               code := code st ++ [EmittedMove (source_ move) (destination_ move)] |}
  else Fatal.

Definition EmitSwap (st : Resolver) (index : nat) : Outcome Resolver :=
  move ← get_move st index;
  let source := source_ move in
  let destination := destination_ move in
  if can_swap source destination
  then
    let scratch :=
      if is_slot source && is_slot destination
      then AllocateScratchRegister st TMP kNumberOfCpuRegisters
      else None in
    Done {| moves_ := moves_ st; code := code st ++ [EmittedSwap source destination scratch] |}
  else Fatal.

(** ** The resolver *)

Definition UpdateSourceOf (move : MoveOperands) (updated_location new_source : Location)
    : MoveOperands :=
  let source := source_ move in
  if Equals (LowOf updated_location) source then SetSource move (LowOf new_source)
  else if Equals (HighOf updated_location) source then SetSource move (HighOf new_source)
  else SetSource move new_source.

(** The sources after a swap. *)
Definition swap_sources (source swap_destination : Location) (other : MoveOperands) : MoveOperands :=
  if Blocks other source then UpdateSourceOf other source swap_destination
  else if Blocks other swap_destination then UpdateSourceOf other swap_destination source
  else other.

(** How the loop over the blocking moves ends: the loop ran through, this move has to
    swap, or a move further back does. *)
Inductive LoopExit := NoSwap | SwapThis | SwapOther (required_swap : nat).

(** The loop from [i]; [perform] is [PerformMove]. *)
Fixpoint perform_blocking (perform : nat -> Resolver -> Outcome (Resolver * option nat))
    (fuel index : nat) (destination : Location) (i : nat) (st : Resolver)
    : Outcome (Resolver * LoopExit) :=
  match fuel with
  | O => Stuck
  | S fuel =>
      match moves_ st !! i with
      | None => Done (st, NoSwap)
      | Some other_move =>
          if Blocks other_move destination && negb (IsPending other_move) then
            '(st, required_swap) ← perform i st;
            match required_swap with
            | None => perform_blocking perform fuel index destination (S i) st
            | Some r =>
                if Nat.eqb r index then Done (st, SwapThis)
                else if Nat.eqb r i then perform_blocking perform fuel index destination 0 st
                else Done (st, SwapOther r)
            end
          else perform_blocking perform fuel index destination (S i) st
      end
  end.

(** The first move that blocks [destination]. *)
Fixpoint first_blocking (destination : Location) (i : nat) (ms : list MoveOperands)
    : option (nat * MoveOperands) :=
  match ms with
  | [] => None
  | m :: ms =>
      if Blocks m destination then Some (i, m) else first_blocking destination (S i) ms
  end.

Definition do_swap (st : Resolver) (index : nat) : Outcome Resolver :=
  st ← EmitSwap st index;
  move ← get_move st index;
  let source := source_ move in
  let swap_destination := destination_ move in
  let st := set_move st index (Eliminate move) in
  Done (with_moves st (swap_sources source swap_destination <$> moves_ st)).

Definition do_move (st : Resolver) (index : nat) : Outcome Resolver :=
  st ← EmitMove st index;
  move ← get_move st index;
  Done (set_move st index (Eliminate move)).

(** [PerformMove] after the loop, [required] when this move has to swap. *)
Definition resolve_move (st : Resolver) (index : nat) (destination : Location) (required : bool)
    : Outcome (Resolver * option nat) :=
  move ← get_move st index;
  if Equals (source_ move) destination then Done (set_move st index (Eliminate move), None)
  else if required then st ← do_swap st index; Done (st, Some index)
  else
    match first_blocking destination 0 (moves_ st) with
    | Some (i, other_move) =>
        if negb (Is64BitMove move) && Is64BitMove other_move then Done (st, Some i)
        else st ← do_swap st index; Done (st, None)
    | None => st ← do_move st index; Done (st, None)
    end.

(** The loop starts over once for each move it sees swapped. *)
Definition loop_fuel (st : Resolver) : nat := S (length (moves_ st)) * S (length (moves_ st)).

(** The move that is required to swap, if any.  Every call in progress has its move
    pending, so the calls nest at most as deep as there are moves. *)
Fixpoint PerformMove (fuel index : nat) (st : Resolver) : Outcome (Resolver * option nat) :=
  match fuel with
  | O => Stuck
  | S fuel =>
      move ← get_move st index;
      if IsRedundant move then Done (set_move st index (Eliminate move), None)
      else
        let destination := destination_ move in
        let st := set_move st index (MarkPending move) in
        '(st, exit) ← perform_blocking (PerformMove fuel) (loop_fuel st) index destination 0 st;
        move ← get_move st index;
        let st := set_move st index (ClearPending move destination) in
        match exit with
        | SwapOther r => Done (st, Some r)
        | SwapThis => resolve_move st index destination true
        | NoSwap => resolve_move st index destination false
        end
  end.

(** [for (i = 0; i < moves_.size(); ++i) { if (which(moves_[i])) body(i); }] from [i]. *)
Fixpoint for_moves (which : MoveOperands -> bool) (body : nat -> Resolver -> Outcome Resolver)
    (n i : nat) (st : Resolver) : Outcome Resolver :=
  match n with
  | O => Done st
  | S n =>
      move ← get_move st i;
      st ← (if which move then body i st else Done st);
      for_moves which body n (S i) st
  end.

Definition perform (fuel i : nat) (st : Resolver) : Outcome Resolver :=
  '(st, _) ← PerformMove fuel i st; Done st.

Definition slot_to_slot (m : MoveOperands) : bool :=
  negb (IsEliminated m || IsConstant (source_ m))
  && (is_slot (source_ m) && is_slot (destination_ m)).
Definition not_constant (m : MoveOperands) : bool :=
  negb (IsEliminated m) && negb (IsConstant (source_ m)).

Definition BuildInitialMoveList (parallel_move : list MoveOperands) : list MoveOperands :=
  filter (fun m => negb (IsRedundant m) = true) parallel_move.

(** [EmitNativeCode]: the code emitted. *)
Definition EmitNativeCode (parallel_move : list MoveOperands) : Outcome (list Emitted) :=
  let ms := BuildInitialMoveList parallel_move in
  let n := length ms in
  st ← for_moves slot_to_slot (perform (S n)) n 0 {| moves_ := ms; code := [] |};
  st ← for_moves not_constant (perform (S n)) n 0 st;
  st ← for_moves (fun m => negb (IsEliminated m)) (fun i st => do_move st i) n 0 st;
  Done (code st).

(** ** What the emitted code does *)

Definition Store : Type := Location -> Z.

(** The bits a location holds. *)
Definition slot_bits (l : Location) : Z := match l with StackSlot _ => 32 | _ => 64 end.

Definition constant_value (c : HConstant) : Z :=
  match c with
  | IntConstant v => u32 v
  | NullConstant => 0
  | LongConstant v => u64 v
  | FloatConstant b => u32 b
  | DoubleConstant b => u64 b
  end.
Definition value_of (s : Store) (l : Location) : Z :=
  match l with ConstantLocation c => constant_value c | _ => s l end.

Definition put (s : Store) (l : Location) (v : Z) : Store :=
  fun l' => if decide (l' = l) then v else s l'.

Definition exec_emitted (e : Emitted) (s : Store) : Store :=
  match e with
  | EmittedMove src dst =>
      let v := wrap_u (Z.min (slot_bits src) (slot_bits dst)) (value_of s src) in
      let s := if is_slot src && is_slot dst then put s (RegisterLocation TMP) v else s in
      put s dst v
  | EmittedSwap src dst scratch =>
      let w := Z.min (slot_bits src) (slot_bits dst) in
      let v_src := wrap_u w (s src) in
      let v_dst := wrap_u w (s dst) in
      let s := put s (RegisterLocation TMP) (if is_slot dst then v_dst else v_src) in
      let s := match scratch with Some r => put s (RegisterLocation r) v_src | None => s end in
      put (put s dst v_src) src v_dst
  end.

Fixpoint exec_code (c : list Emitted) (s : Store) : Store :=
  match c with [] => s | e :: c => exec_code c (exec_emitted e s) end.
