(* ===== verification/ParallelMoveFacts.v ===== *)
(** * The parallel move resolver performs the moves at once *)
From S2P Require Import Prelude ParallelMove.

(** ** Well-formed sets of moves *)

(** A location that can hold a value of the move's size. *)
Definition fits (is64 : bool) (l : Location) : Prop :=
  match l with
  | RegisterLocation _ | FpuRegisterLocation _ => True
  | StackSlot _ => is64 = false
  | DoubleStackSlot _ => is64 = true
  | _ => False
  end.

(** The locations moves read or write. *)
Definition place (ms : list MoveOperands) (l : Location) : Prop :=
  exists m, m ∈ ms /\ (l = destination_ m \/ l = source_ m /\ IsConstant l = false).

(** What the register allocator gives: sizes that fit, destinations that differ, no two
    locations that overlap without being the same, none of them the register the code
    generator keeps for itself, and one size for the value in a location. *)
Record moves_ok (ms : list MoveOperands) : Prop := {
  ok_dst : forall m, m ∈ ms -> fits (Is64BitMove m) (destination_ m);
  ok_src : forall m, m ∈ ms ->
    if IsConstant (source_ m) then can_move (source_ m) (destination_ m) = true
    else fits (Is64BitMove m) (source_ m);
  ok_distinct : NoDup (destination_ <$> ms);
  ok_overlap : forall l l', place ms l -> place ms l' -> OverlapsWith l l' = true -> l = l';
  ok_tmp : ~ place ms (RegisterLocation TMP);
  ok_sizes : forall m m', m ∈ ms -> m' ∈ ms -> source_ m = source_ m' ->
    IsConstant (source_ m) = false -> Is64BitMove m = Is64BitMove m'
}.

(** Both core and floating point registers are used. *)
Definition both_banks (ms : list MoveOperands) : Prop :=
  (exists r, place ms (RegisterLocation r)) /\ (exists r, place ms (FpuRegisterLocation r)).

(** The bits a move moves. *)
Definition move_bits (m : MoveOperands) : Z := if Is64BitMove m then 64 else 32.

(** ** Stores *)

Lemma put_same s l v : put s l v l = v.
Proof. unfold put. by rewrite decide_True. Qed.
Lemma put_diff s l v l' : l' <> l -> put s l v l' = s l'.
Proof. intros. unfold put. by rewrite decide_False. Qed.

Lemma fits_valid b l : fits b l -> l <> NoLocation /\ IsConstant l = false.
Proof. by destruct l. Qed.

Lemma value_of_place s l : IsConstant l = false -> value_of s l = s l.
Proof. by destruct l. Qed.

(** A copy between locations that fit keeps the bits of the move. *)
Lemma copied_bits b src dst v :
  (b = true -> IsStackSlot src = false) -> (b = true -> IsStackSlot dst = false) ->
  let w := if b then 64 else 32 in
  wrap_u w (wrap_u (Z.min (slot_bits src) (slot_bits dst)) v) = wrap_u w v.
Proof.
  intros Hs Hd. cbv zeta.
  assert (Z.min (slot_bits src) (slot_bits dst) = 64 \/
          Z.min (slot_bits src) (slot_bits dst) = 32 /\ b = false) as [-> |[-> ->]].
  { destruct b; [left|].
    - specialize (Hs eq_refl). specialize (Hd eq_refl). by destruct src, dst.
    - destruct src, dst; simpl; auto. }
  - destruct b; [by apply wrap_u_wrap_u|]. unfold wrap_u. symmetry. apply Znumtheory.Zmod_div_mod; [lia..|].
    by exists (2 ^ 32).
  - by apply wrap_u_wrap_u.
Qed.

Lemma can_move_fits b src dst :
  fits b src -> fits b dst -> can_move src dst = false ->
  (exists r r', src = RegisterLocation r /\ dst = FpuRegisterLocation r') \/
  (exists r r', src = FpuRegisterLocation r /\ dst = RegisterLocation r').
Proof. destruct src, dst; simpl; try done; try congruence; eauto. Qed.

Lemma can_swap_fits b src dst :
  fits b src -> fits b dst -> can_swap src dst = false ->
  (exists r r', src = RegisterLocation r /\ dst = FpuRegisterLocation r') \/
  (exists r r', src = FpuRegisterLocation r /\ dst = RegisterLocation r').
Proof. destruct src, dst; simpl; try done; try congruence; eauto. Qed.

Section Resolve.
Context (orig : list MoveOperands) (init : Store).
Hypothesis Hok : moves_ok orig.

Definition dest (o : MoveOperands) : Location := destination_ o.
Definition wanted (o : MoveOperands) : Z := wrap_u (move_bits o) (value_of init (source_ o)).

Lemma orig_in i o : orig !! i = Some o -> o ∈ orig.
Proof. apply list_elem_of_lookup_2. Qed.

Lemma dest_place i o : orig !! i = Some o -> place orig (dest o).
Proof. intros H. exists o. split; [by eapply orig_in|by left]. Qed.

Lemma dest_inj i j oi oj :
  orig !! i = Some oi -> orig !! j = Some oj -> dest oi = dest oj -> i = j.
Proof.
  intros Hi Hj E. eapply (NoDup_lookup (destination_ <$> orig)); [apply Hok|..].
  - by rewrite list_lookup_fmap, Hi.
  - rewrite list_lookup_fmap, Hj. simpl. unfold dest in E. by rewrite E.
Qed.

(** ** The view of a state

    [cur i] is the current source of move [i], none once it is eliminated; the moves
    in [stack] are pending. *)
Definition mk (o : MoveOperands) (c : option Location) (is_pending : bool) : MoveOperands :=
  match c with
  | None => Eliminate o
  | Some l => {| source_ := l; destination_ := if is_pending then NoLocation else dest o;
                 Is64BitMove := Is64BitMove o |}
  end.

Definition view (st : Resolver) (stack : list nat) (cur : nat -> option Location) : Prop :=
  length (moves_ st) = length orig /\
  forall i o, orig !! i = Some o -> moves_ st !! i = Some (mk o (cur i) (bool_decide (i ∈ stack))).

Definition upd (cur : nat -> option Location) (i : nat) (c : option Location)
    : nat -> option Location :=
  fun j => if decide (j = i) then c else cur j.

(** ** The values *)

Record holding (cur : nat -> option Location) (s : Store) : Prop := {
  h_place : forall i o l, orig !! i = Some o -> cur i = Some l ->
    if IsConstant (source_ o) then l = source_ o else place orig l /\ IsConstant l = false;
  h_value : forall i o l, orig !! i = Some o -> cur i = Some l ->
    wrap_u (move_bits o) (value_of s l) = wanted o;
  h_done : forall i o, orig !! i = Some o -> cur i = None ->
    wrap_u (move_bits o) (s (dest o)) = wanted o;
  h_frame : forall l, l <> RegisterLocation TMP ->
    (forall o, o ∈ orig -> l <> dest o) -> s l = init l;
  h_sizes : forall i j oi oj l, orig !! i = Some oi -> orig !! j = Some oj ->
    cur i = Some l -> cur j = Some l -> IsConstant l = false -> Is64BitMove oi = Is64BitMove oj
}.

(** All current sources fit but perhaps that of [exc]. *)
Definition fit_but (exc : option nat) (cur : nat -> option Location) : Prop :=
  forall i o l, orig !! i = Some o -> cur i = Some l -> IsConstant l = false ->
    exc <> Some i -> fits (Is64BitMove o) l.

Lemma upd_same cur i c : upd cur i c i = c.
Proof. unfold upd. by rewrite decide_True. Qed.
Lemma upd_diff cur i c j : j <> i -> upd cur i c j = cur j.
Proof. intros. unfold upd. by rewrite decide_False. Qed.
Lemma upd_none cur i j l : upd cur i None j = Some l -> j <> i /\ cur j = Some l.
Proof. unfold upd. by case_decide. Qed.

Lemma dest_fits i o : orig !! i = Some o -> fits (Is64BitMove o) (dest o).
Proof. intros H. apply Hok. by eapply orig_in. Qed.

Lemma dest_not_constant i o : orig !! i = Some o -> IsConstant (dest o) = false.
Proof. intros H. by apply (fits_valid (Is64BitMove o)), (dest_fits i). Qed.

Lemma place_not_tmp l : place orig l -> l <> RegisterLocation TMP.
Proof. intros Hl ->. by apply (ok_tmp _ Hok). Qed.

Lemma dest_not_tmp i o : orig !! i = Some o -> dest o <> RegisterLocation TMP.
Proof. intros H. by eapply place_not_tmp, dest_place. Qed.

(** A source that is already the destination. *)
Lemma holding_elim cur s i o :
  orig !! i = Some o -> holding cur s -> cur i = Some (dest o) -> holding (upd cur i None) s.
Proof.
  intros Ho [Hp Hv Hd Hf Hs] Hc. split.
  - intros j oj l Hj [_ H]%upd_none. by apply (Hp j).
  - intros j oj l Hj [_ H]%upd_none. by apply (Hv j).
  - intros j oj Hj. destruct (decide (j = i)) as [->|Hne'].
    + intros _. rewrite Ho in Hj. injection Hj as <-. rewrite <- (Hv i o _ Ho Hc).
      by rewrite value_of_place by by eapply dest_not_constant.
    + rewrite upd_diff by done. by apply Hd.
  - done.
  - intros j k oj ok l Hj Hk [_ H1]%upd_none [_ H2]%upd_none. by apply (Hs j k).
Qed.

(** The value a current source has in another store. *)
Lemma holding_value cur s s' i o l :
  holding cur s -> orig !! i = Some o -> cur i = Some l -> s' l = s l ->
  wrap_u (move_bits o) (value_of s' l) = wanted o.
Proof.
  intros H Hi Hc E. rewrite <- (h_value _ _ H i o l Hi Hc).
  pose proof (h_place _ _ H i o l Hi Hc) as Hl. destruct l; simpl in *; try done; by rewrite E.
Qed.

(** A current source is not the code generator's register. *)
Lemma cur_not_tmp cur s i o l :
  holding cur s -> orig !! i = Some o -> cur i = Some l -> l <> RegisterLocation TMP.
Proof.
  intros H Hi Hc. pose proof (h_place _ _ H i o l Hi Hc) as Hl.
  destruct (IsConstant (source_ o)) eqn:E; [by intros ->; destruct (source_ o)|].
  apply place_not_tmp, Hl.
Qed.

(** A move whose destination no current source is. *)
Lemma holding_move cur s i o l :
  orig !! i = Some o -> holding cur s -> cur i = Some l ->
  (forall j, cur j <> Some (dest o)) -> (Is64BitMove o = true -> IsStackSlot l = false) ->
  holding (upd cur i None) (exec_emitted (EmittedMove l (dest o)) s).
Proof.
  intros Ho H Hc Hfree Hfit. set (s' := exec_emitted _ s).
  assert (forall l', l' <> dest o -> l' <> RegisterLocation TMP -> s' l' = s l') as Hkeep.
  { intros l' H1 H2. unfold s'. simpl. rewrite put_diff by done. case_match; [|done]. by rewrite put_diff. }
  split.
  - intros j oj l' Hj [_ H']%upd_none. by apply (h_place _ _ H j).
  - intros j oj l' Hj [_ H']%upd_none. eapply holding_value; [done..|].
    apply Hkeep; [congruence|]. by eapply cur_not_tmp.
  - intros j oj Hj. destruct (decide (j = i)) as [->|Hne'].
    + intros _. rewrite Ho in Hj. injection Hj as <-. unfold s'. simpl. rewrite put_same.
      rewrite <- (h_value _ _ H i o l Ho Hc). apply copied_bits; [done|].
      intros Hb. pose proof (dest_fits i o Ho) as Hdf. rewrite Hb in Hdf. by destruct (dest o).
    + rewrite upd_diff by done. intros Hn. rewrite Hkeep; [by apply (h_done _ _ H j)|..].
      * intros E. by apply Hne', (dest_inj j i oj o).
      * by eapply dest_not_tmp.
  - intros l' H1 H2. rewrite Hkeep; [by apply (h_frame _ _ H)| |done]. apply H2. by eapply orig_in.
  - intros j k oj ok l' Hj Hk [_ H1]%upd_none [_ H2]%upd_none. by apply (h_sizes _ _ H j k).
Qed.

(** The current sources after a swap. *)
Definition swapped (l d : Location) (c : option Location) : option Location :=
  if decide (c = Some l) then Some d else if decide (c = Some d) then Some l else c.

Lemma swapped_inj l d c c' : swapped l d c = swapped l d c' -> c = c'.
Proof. unfold swapped. repeat case_decide; congruence. Qed.

Lemma swapped_none l d c : swapped l d c = None <-> c = None.
Proof. unfold swapped. repeat case_decide; subst; split; congruence. Qed.

Definition swap_cur (cur : nat -> option Location) (i : nat) (l d : Location)
    : nat -> option Location :=
  fun j => swapped l d (upd cur i None j).

Lemma swap_cur_some cur i l d j l' :
  swap_cur cur i l d j = Some l' ->
  j <> i /\ (cur j = Some l /\ l' = d \/ cur j = Some d /\ cur j <> Some l /\ l' = l \/
             cur j = Some l' /\ l' <> l /\ l' <> d).
Proof.
  unfold swap_cur, swapped, upd. destruct (decide (j = i)); [repeat case_decide; congruence|].
  intros H. split; [done|]. repeat case_decide; [left|right; left|right; right]; split_and!; congruence.
Qed.

Lemma swap_cur_none cur i l d j : swap_cur cur i l d j = None -> j = i \/ cur j = None.
Proof.
  unfold swap_cur. rewrite swapped_none. unfold upd. case_decide; auto.
Qed.

(** A scratch register is the destination of a move still to come, and nobody's source. *)
Definition scratch_ok (cur : nat -> option Location) (i : nat) (scratch : option Z) : Prop :=
  forall r, scratch = Some r ->
    (forall k, cur k <> Some (RegisterLocation r)) /\
    exists k o, orig !! k = Some o /\ cur k <> None /\ k <> i /\ dest o = RegisterLocation r.

Lemma swap_store l d scratch s :
  l <> d ->
  (forall r, scratch = Some r -> RegisterLocation r <> l /\ RegisterLocation r <> d) ->
  let s' := exec_emitted (EmittedSwap l d scratch) s in
  let w := Z.min (slot_bits l) (slot_bits d) in
  s' d = wrap_u w (s l) /\ s' l = wrap_u w (s d) /\
  forall l', l' <> l -> l' <> d -> l' <> RegisterLocation TMP ->
    (forall r, scratch = Some r -> l' <> RegisterLocation r) -> s' l' = s l'.
Proof.
  intros Hld Hs. cbv zeta. simpl. split; [|split].
  - rewrite put_diff, put_same by done. done.
  - by rewrite put_same.
  - intros l' H1 H2 H3 H4. rewrite !put_diff by done.
    destruct scratch as [r|]; rewrite ?put_diff; try done. by apply H4.
Qed.

(** Equal sources stay equal. *)
Lemma swap_sizes cur s i l d :
  holding cur s -> IsConstant l = false -> IsConstant d = false ->
  forall k k' ok ok' l', orig !! k = Some ok -> orig !! k' = Some ok' ->
    swap_cur cur i l d k = Some l' -> swap_cur cur i l d k' = Some l' -> IsConstant l' = false ->
    Is64BitMove ok = Is64BitMove ok'.
Proof.
  intros H Hl Hd k k' ok ok' l' Hk Hk' E1 E2 Hl'.
  assert (cur k = cur k') as Ekk.
  { pose proof (proj1 (swap_cur_some _ _ _ _ _ _ E1)). pose proof (proj1 (swap_cur_some _ _ _ _ _ _ E2)).
    unfold swap_cur in E1, E2. rewrite upd_diff in E1, E2 by done.
    eapply swapped_inj. by rewrite E1, E2. }
  apply swap_cur_some in E1 as (_ & [[E _]|[(E & _)|(E & _)]]); eapply (h_sizes _ _ H k k'); eauto; congruence.
Qed.

(** Move [i] swaps with the location of move [j], which is still to come. *)
Lemma holding_swap cur s i j o oj l scratch :
  orig !! i = Some o -> orig !! j = Some oj -> j <> i -> cur j <> None ->
  holding cur s -> cur i = Some l -> l = dest oj ->
  (Is64BitMove o = true -> IsStackSlot l = false) ->
  (Is64BitMove o = false -> forall k ok, orig !! k = Some ok -> cur k = Some (dest o) ->
     Is64BitMove ok = false) ->
  scratch_ok cur i scratch ->
  holding (swap_cur cur i l (dest o)) (exec_emitted (EmittedSwap l (dest o) scratch) s).
Proof.
  intros Ho Hj Hji Hjn H Hc El Hfit Hsize Hscr. set (d := dest o).
  assert (l <> d) as Hld by (intros E; apply Hji, (dest_inj j i oj o); [done..|by rewrite <- El]).
  assert (IsConstant l = false) as Hlc by (rewrite El; by eapply dest_not_constant).
  assert (IsConstant d = false) as Hdc by (by eapply dest_not_constant).
  destruct (swap_store l d scratch s Hld) as (Ed & El' & Hkeep).
  { intros r Hr. destruct (Hscr r Hr) as (Hfree & k & ok & Hk & _ & Hki & Ek). split.
    - intros E. apply (Hfree i). congruence.
    - intros E. apply Hki, (dest_inj k i ok o); [done..|]. by rewrite Ek. }
  set (s' := exec_emitted _ s) in *.
  assert (forall b v, Is64BitMove o = b \/ b = false /\ Is64BitMove o = true ->
            let w := if b then 64 else 32 in
            wrap_u w (wrap_u (Z.min (slot_bits l) (slot_bits d)) v) = wrap_u w v) as Hbits.
  { intros b v Hb. apply copied_bits.
    - intros ->. destruct Hb as [Hb|[Hb _]]; [by apply Hfit|done].
    - intros ->. destruct Hb as [Hb|[Hb _]]; [|done]. pose proof (dest_fits i o Ho) as Hdf.
      rewrite Hb in Hdf. fold d in Hdf. by destruct d. }
  split.
  - intros k ok l' Hk (_ & Hl')%swap_cur_some. destruct Hl' as [[E ->]|[(E & _ & ->)|(E & _)]].
    + pose proof (h_place _ _ H k ok l Hk E) as Hp. destruct (IsConstant (source_ ok)) eqn:Es; [exfalso; rewrite <- Hp in Es; congruence|].
      split; [by eapply dest_place|done].
    + pose proof (h_place _ _ H k ok d Hk E) as Hp. destruct (IsConstant (source_ ok)) eqn:Es; [exfalso; rewrite <- Hp in Es; congruence|].
      split; [rewrite El; by eapply dest_place|done].
    + by apply (h_place _ _ H k).
  - intros k ok l' Hk (Hki & Hl')%swap_cur_some. destruct Hl' as [[E ->]|[(E & _ & ->)|(E & N1 & N2)]].
    + rewrite value_of_place, Ed by done. rewrite <- (h_value _ _ H k ok l Hk E), (value_of_place s l Hlc).
      apply Hbits. left. by eapply (h_sizes _ _ H i k).
    + rewrite value_of_place, El' by done. rewrite <- (h_value _ _ H k ok d Hk E), (value_of_place s d Hdc).
      apply Hbits. destruct (Is64BitMove o) eqn:Eo, (Is64BitMove ok) eqn:Ek; auto.
      rewrite (Hsize eq_refl k ok Hk E) in Ek. congruence.
    + eapply holding_value; [done..|]. apply Hkeep; [done..| |].
      * by eapply cur_not_tmp.
      * intros r Hr ->. by apply (proj1 (Hscr r Hr) k).
  - intros k ok Hk [->|Hn]%swap_cur_none.
    + rewrite Ho in Hk. injection Hk as <-. fold d. rewrite Ed.
      rewrite <- (h_value _ _ H i o l Ho Hc), (value_of_place s l Hlc). apply Hbits. by left.
    + rewrite Hkeep; [by apply (h_done _ _ H k)|..].
      * rewrite El. intros E. apply Hjn. by rewrite <- (dest_inj k j ok oj Hk Hj E).
      * intros E. apply (dest_inj k i ok o Hk Ho) in E as ->. congruence.
      * by eapply dest_not_tmp.
      * intros r Hr E. destruct (Hscr r Hr) as (_ & k' & ok' & Hk' & Hn' & _ & Ek').
        apply Hn'. rewrite <- Ek' in E. by rewrite <- (dest_inj k k' ok ok' Hk Hk' E).
  - intros l' H1 H2. rewrite Hkeep; [by apply (h_frame _ _ H)|..].
    + rewrite El. apply H2. by eapply orig_in.
    + apply H2. by eapply orig_in.
    + done.
    + intros r Hr ->. destruct (Hscr r Hr) as (_ & k & ok & Hk & _ & _ & Ek).
      by apply (H2 ok); [eapply orig_in|].
  - by apply (swap_sizes cur s).
Qed.

(** ** The operations on the view *)

Lemma overlap_refl l : OverlapsWith l l = true.
Proof. unfold OverlapsWith, Contains, Equals. by rewrite bool_decide_true. Qed.

Lemma overlap_constant c l : place orig l -> OverlapsWith (ConstantLocation c) l = false.
Proof.
  intros (m & Hm & [->|[-> Hc]]); unfold OverlapsWith, Contains, Equals.
  - pose proof (ok_dst _ Hok m Hm) as Hf. destruct (destination_ m); try done; simpl;
      by rewrite !bool_decide_false.
  - pose proof (ok_src _ Hok m Hm) as Hf. rewrite Hc in Hf.
    destruct (source_ m); try done; simpl; by rewrite !bool_decide_false.
Qed.

Lemma cur_overlap cur s k o c l :
  holding cur s -> orig !! k = Some o -> cur k = Some c -> place orig l ->
  OverlapsWith c l = bool_decide (c = l).
Proof.
  intros H Hk Hc Hl. pose proof (h_place _ _ H k o c Hk Hc) as Hp.
  destruct (IsConstant (source_ o)) eqn:Es.
  - destruct (source_ o) as [|k0| | | | | | |]; try done. subst c. rewrite overlap_constant by done.
    symmetry. apply bool_decide_eq_false. intros <-. destruct Hl as (m & Hm & [E|[_ E]]); [|done].
    pose proof (ok_dst _ Hok m Hm) as Hf. by rewrite <- E in Hf.
  - destruct Hp as [Hp _]. apply eq_bool_prop_intro. rewrite bool_decide_spec. split.
    + intros Ho%Is_true_eq_true. by apply (ok_overlap _ Hok).
    + intros ->. apply Is_true_eq_left, overlap_refl.
Qed.

Lemma cur_valid cur s k o c :
  holding cur s -> orig !! k = Some o -> cur k = Some c -> c <> NoLocation.
Proof.
  intros H Hk Hc. pose proof (h_place _ _ H k o c Hk Hc) as Hp.
  destruct (IsConstant (source_ o)) eqn:Es; [by intros ->; destruct (source_ o)|].
  destruct Hp as [(m & Hm & [->|[-> Hc']]) _].
  - by apply (fits_valid (Is64BitMove m)), Hok.
  - pose proof (ok_src _ Hok m Hm) as Hf. rewrite Hc' in Hf. by apply (fits_valid (Is64BitMove m)).
Qed.

Lemma mk_blocks cur s k o p l :
  holding cur s -> orig !! k = Some o -> place orig l ->
  Blocks (mk o (cur k) p) l = bool_decide (cur k = Some l).
Proof.
  intros H Hk Hl. destruct (cur k) as [c|] eqn:Hc; [|done]. unfold Blocks, IsEliminated. simpl.
  pose proof (cur_valid _ _ _ _ _ H Hk Hc). rewrite (cur_overlap _ _ _ _ _ _ H Hk Hc Hl).
  replace (IsInvalid c) with false by (by destruct c). simpl.
  apply bool_decide_ext. split; [by intros ->|congruence].
Qed.

Lemma mk_pending cur s k o p :
  holding cur s -> orig !! k = Some o -> cur k <> None -> IsPending (mk o (cur k) p) = p.
Proof.
  intros H Hk Hc. destruct (cur k) as [c|] eqn:E; [|done]. unfold IsPending. simpl.
  pose proof (cur_valid _ _ _ _ _ H Hk E). pose proof (dest_fits k o Hk) as Hf.
  destruct p, c, (dest o); done.
Qed.

Lemma view_get st stack cur i o :
  view st stack cur -> orig !! i = Some o ->
  get_move st i = Done (mk o (cur i) (bool_decide (i ∈ stack))).
Proof. intros [_ H] Hi. unfold get_move. by rewrite (H i o Hi). Qed.

Lemma view_set st stack stack' cur i o c :
  view st stack cur -> orig !! i = Some o -> (forall j, j <> i -> j ∈ stack' <-> j ∈ stack) ->
  view (set_move st i (mk o c (bool_decide (i ∈ stack')))) stack' (upd cur i c).
Proof.
  intros [Hl H] Hi Hs. split; simpl; [by rewrite length_insert|].
  intros j oj Hj. destruct (decide (j = i)) as [->|Hne'].
  - rewrite Hi in Hj. injection Hj as <-. rewrite list_lookup_insert_eq.
    + by rewrite upd_same.
    + rewrite Hl. by eapply lookup_lt_Some.
  - rewrite list_lookup_insert_ne, upd_diff, (H j oj Hj) by done.
    do 2 f_equal. apply bool_decide_ext. symmetry. by apply Hs.
Qed.

Lemma view_ext st stack cur cur' :
  view st stack cur -> (forall i o, orig !! i = Some o -> cur' i = cur i) -> view st stack cur'.
Proof. intros [Hl H] E. split; [done|]. intros i o Hi. rewrite (E i o Hi). by apply H. Qed.

Lemma do_move_spec st stack cur i o l :
  view st stack cur -> orig !! i = Some o -> i ∉ stack -> cur i = Some l ->
  if can_move l (dest o) then
    exists st', do_move st i = Done st' /\ view st' stack (upd cur i None) /\
      code st' = code st ++ [EmittedMove l (dest o)]
  else do_move st i = Fatal.
Proof.
  intros Hv Hi Hs Hc. unfold do_move, EmitMove. pose proof (view_get _ _ _ _ _ Hv Hi) as Hg.
  rewrite Hc, bool_decide_false in Hg by done. rewrite Hg. cbn [mbind Outcome_bind mk source_ destination_].
  destruct (can_move l (dest o)); [|done]. cbn [mbind Outcome_bind]. unfold get_move in *. cbn [moves_].
  destruct (moves_ st !! i) as [m|]; [|done]. injection Hg as ->.
  eexists. split; [reflexivity|]. split; [|done].
  pose proof (view_set st stack stack cur i o None Hv Hi ltac:(done)) as Hv'. by destruct Hv'.
Qed.

Lemma view_lookup st stack cur k m :
  view st stack cur -> moves_ st !! k = Some m ->
  exists o, orig !! k = Some o /\ m = mk o (cur k) (bool_decide (k ∈ stack)).
Proof.
  intros [Hl H] Hm. destruct (lookup_lt_is_Some_2 orig k) as [o Ho].
  - rewrite <- Hl. by eapply lookup_lt_Some.
  - exists o. split; [done|]. rewrite (H k o Ho) in Hm. congruence.
Qed.

(** Whether some move in the list blocks a place. *)
Lemma view_unblocked st stack cur s l :
  view st stack cur -> holding cur s -> place orig l ->
  existsb (fun m => Blocks m l) (moves_ st) = false ->
  forall k o, orig !! k = Some o -> cur k <> Some l.
Proof.
  intros Hv H Hl Hb k o Hk E. destruct Hv as [_ Hv]. specialize (Hv k o Hk).
  assert (existsb (fun m => Blocks m l) (moves_ st) = true) as Hb'; [|congruence].
  apply existsb_exists. eexists. split; [by apply list_elem_of_In, (list_elem_of_lookup_2 _ k)|].
  rewrite (mk_blocks cur s k o _ l H Hk Hl). by apply bool_decide_true.
Qed.

Lemma scratch_register st stack cur s i o :
  view st stack cur -> holding cur s -> (forall k l, cur k = Some l -> is_Some (orig !! k)) ->
  orig !! i = Some o -> is_slot (dest o) = true ->
  scratch_ok cur i (AllocateScratchRegister st TMP kNumberOfCpuRegisters).
Proof.
  intros Hv H Hdom Hi Hslot r Hr. unfold AllocateScratchRegister in Hr.
  apply find_some in Hr as [_ [_ Hr]%andb_true_iff]. unfold IsScratchLocation in Hr.
  destruct (existsb _ (moves_ st)) eqn:Hb; [done|].
  apply existsb_exists in Hr as (m & Hm & He%bool_decide_eq_true).
  apply list_elem_of_In, list_elem_of_lookup_1 in Hm as [k Hk].
  destruct (view_lookup _ _ _ _ _ Hv Hk) as (ok & Hok' & ->).
  destruct (cur k) as [c|] eqn:Hc; [|done]. simpl in He.
  case_bool_decide as Hp; [done|]. split.
  - intros k' E. destruct (Hdom k' _ E) as [o' Ho'].
    apply (view_unblocked st stack cur s (RegisterLocation r) Hv H) with (k := k') (o := o'); try done.
    rewrite <- He. by eapply dest_place.
  - exists k, ok. split_and!; try done; [congruence|]. intros ->. rewrite Hi in Hok'.
    injection Hok' as <-. by rewrite He in Hslot.
Qed.

Lemma swap_sources_mk cur s i l d k o p :
  holding cur s -> orig !! k = Some o -> place orig l -> place orig d -> l <> d ->
  swap_sources l d (mk o (upd cur i None k) p) = mk o (swap_cur cur i l d k) p.
Proof.
  intros H Hk Hl Hd Hld. unfold swap_cur, upd.
  destruct (decide (k = i)) as [->|Hki]; [done|].
  unfold swap_sources. rewrite !(mk_blocks cur s k o p) by done.
  assert (forall l, place orig l -> forall new, cur k = Some l ->
            UpdateSourceOf (mk o (cur k) p) l new = mk o (Some new) p) as Hup.
  { clear -Hok. intros l Hl new ->. unfold UpdateSourceOf. simpl.
    assert (Equals (LowOf l) l = false /\ Equals (HighOf l) l = false) as [-> ->]; [|done].
    unfold Equals. rewrite !bool_decide_eq_false.
    destruct Hl as (m & Hm & [->|[-> Hc]]).
    - pose proof (ok_dst _ Hok m Hm). by destruct (destination_ m).
    - pose proof (ok_src _ Hok m Hm) as Hs. rewrite Hc in Hs. by destruct (source_ m). }
  unfold swapped. case_bool_decide as E1; [rewrite Hup by done; by rewrite decide_True|].
  rewrite decide_False by done.
  case_bool_decide as E2; [rewrite Hup by done; by rewrite decide_True|]. by rewrite decide_False.
Qed.

Lemma do_swap_spec st stack cur s i o l :
  view st stack cur -> holding cur s -> (forall k l, cur k = Some l -> is_Some (orig !! k)) ->
  orig !! i = Some o -> i ∉ stack -> cur i = Some l -> place orig l -> l <> dest o ->
  if can_swap l (dest o) then
    exists st' scratch, do_swap st i = Done st' /\ view st' stack (swap_cur cur i l (dest o)) /\
      code st' = code st ++ [EmittedSwap l (dest o) scratch] /\ scratch_ok cur i scratch
  else do_swap st i = Fatal.
Proof.
  intros Hv H Hdom Hi Hs Hc Hl Hld. unfold do_swap, EmitSwap.
  pose proof (view_get _ _ _ _ _ Hv Hi) as Hg. rewrite Hc, bool_decide_false in Hg by done.
  rewrite Hg. cbn [mbind Outcome_bind mk source_ destination_].
  destruct (can_swap l (dest o)); [|done]. cbn [mbind Outcome_bind]. unfold get_move in *. cbn [moves_].
  destruct (moves_ st !! i) as [m|] eqn:Em; [|done]. injection Hg as ->.
  eexists _, _. split; [reflexivity|]. split; [|split; [done|]].
  - destruct (view_set st stack stack cur i o None Hv Hi ltac:(done)) as [Hlen Hv'].
    split; [simpl in *; by rewrite length_fmap|]. intros k ok Hk. simpl.
    specialize (Hv' k ok Hk). simpl in Hv'. rewrite list_lookup_fmap.
    etransitivity; [apply (f_equal (fmap (swap_sources l (dest o)))); exact Hv'|]. simpl. f_equal.
    eapply swap_sources_mk; try done. by eapply dest_place.
  - destruct (is_slot l && is_slot (dest o)) eqn:Esl; [|by intros r].
    apply andb_true_iff in Esl as [_ Esl]. by eapply scratch_register.
Qed.

(** ** The calls in progress *)

Definition sem (st : Resolver) : Store := exec_code (code st) init.

Lemma exec_code_snoc c e s : exec_code (c ++ [e]) s = exec_emitted e (exec_code c s).
Proof. revert s. induction c as [|e' c IH]; intros s; simpl; [done|apply IH]. Qed.

(** The source of each pending move is the destination of the one it blocks. *)
Fixpoint chain (cur : nat -> option Location) (stack : list nat) : Prop :=
  match stack with
  | c :: (p :: _) as rest =>
      (exists o, orig !! p = Some o /\ cur c = Some (dest o)) /\ chain cur rest
  | _ => True
  end.

Record ready (st : Resolver) (stack : list nat) (cur : nat -> option Location) : Prop := {
  r_view : view st stack cur;
  r_hold : holding cur (sem st);
  r_dom : forall k l, cur k = Some l -> is_Some (orig !! k);
  r_nodup : NoDup stack;
  r_live : forall k, k ∈ stack ->
    exists o l, orig !! k = Some o /\ cur k = Some l /\ IsConstant l = false;
  r_chain : chain cur stack
}.

(** The first move pending. *)
Fixpoint bottom (i : nat) (stack : list nat) : nat :=
  match stack with [] => i | p :: rest => bottom p rest end.
Definition root (stack : list nat) : option nat :=
  match stack with [] => None | i :: rest => Some (bottom i rest) end.

(** A swap has given the first pending move the destination of the last one as its
    source: their cycle is about to close. *)
Definition displaced (stack : list nat) (cur : nat -> option Location) : Prop :=
  exists top rest r otop o, stack = top :: rest /\ root stack = Some r /\
    orig !! top = Some otop /\ orig !! r = Some o /\ cur r = Some (dest otop) /\
    (forall k, k ∉ stack -> cur k <> Some (dest otop)) /\ fit_but (Some r) cur /\
    (Is64BitMove o = true -> IsStackSlot (dest otop) = false).

(** The first pending move has to swap, with a register another move waits for. *)
Definition required (stack : list nat) (cur : nat -> option Location) (r : nat) : Prop :=
  root stack = Some r /\
  exists o j oj, orig !! r = Some o /\ Is64BitMove o = true /\ orig !! j = Some oj /\
    j ∉ stack /\ cur j <> None /\ cur r = Some (dest oj) /\ is_slot (dest oj) = false /\
    fit_but (Some r) cur.

(** Moves stay eliminated, and the source of a move that is not pending changes only to
    the destination of one that is done. *)
Definition evolves (stack : list nat) (cur cur' : nat -> option Location) : Prop :=
  (forall k, cur k = None -> cur' k = None) /\
  forall k l, k ∉ stack -> cur' k = Some l ->
    cur k = Some l \/ exists e o, orig !! e = Some o /\ cur' e = None /\ l = dest o.

Lemma evolves_refl stack cur : evolves stack cur cur.
Proof. split; [done|]. intros k l _ H. by left. Qed.

Lemma evolves_trans stack cur cur1 cur2 :
  evolves stack cur cur1 -> evolves stack cur1 cur2 -> evolves stack cur cur2.
Proof.
  intros [H1 E1] [H2 E2]. split; [auto|]. intros k l Hk H.
  destruct (E2 k l Hk H) as [H'|He]; [|by right].
  destruct (E1 k l Hk H') as [|(e & o & Ho & He & ->)]; [by left|]. right. exists e, o. auto.
Qed.

Lemma evolves_push stack i cur cur' o :
  evolves (i :: stack) cur cur' -> cur' i = None \/ cur' i = cur i -> orig !! i = Some o ->
  evolves stack cur cur'.
Proof.
  intros [H E] Hi Ho. split; [done|]. intros k l Hk Hc. destruct (decide (k = i)) as [->|Hne'].
  - destruct Hi as [Hi|Hi]; [congruence|]. left. congruence.
  - apply E; [|done]. by apply not_elem_of_cons.
Qed.

(** A source that changed is not the destination of a move that is not done. *)
Lemma evolves_not_dest stack cur cur' k i o :
  evolves stack cur cur' -> k ∉ stack -> orig !! i = Some o -> cur' i <> None ->
  cur k <> Some (dest o) -> cur' k <> Some (dest o).
Proof.
  intros [_ E] Hk Hi Hn Hc H. destruct (E k _ Hk H) as [|(e & oe & He & Hn' & Ed)]; [done|].
  apply (dest_inj i e o oe Hi He) in Ed as ->. done.
Qed.

Lemma root_in stack r : root stack = Some r -> r ∈ stack.
Proof.
  destruct stack as [|i stack]; [done|]. intros [= <-]. revert i.
  induction stack as [|p rest IH]; intros i; simpl; [by left|]. right. apply IH.
Qed.

Lemma root_push i stack : stack <> [] -> root (i :: stack) = root stack.
Proof. by destruct stack. Qed.

Lemma chain_next cur stack k :
  chain cur stack -> k ∈ stack ->
  root stack = Some k \/
  exists p o, p ∈ tail stack /\ orig !! p = Some o /\ cur k = Some (dest o).
Proof.
  induction stack as [|c rest IH]; intros Hch Hk; [by apply not_elem_of_nil in Hk|].
  destruct rest as [|p rest]; [apply list_elem_of_singleton in Hk as ->; by left|].
  destruct Hch as [(o & Ho & Ec) Hch]. apply elem_of_cons in Hk as [->|Hk].
  - right. exists p, o. split; [by left|done].
  - destruct (IH Hch Hk) as [Hr|(p' & o' & Hp & H')]; [by left|]. right. exists p', o'.
    split; [by right|done].
Qed.

(** Only the first pending move can have the destination of the last as its source. *)
Lemma chain_sources cur i stack o k :
  chain cur (i :: stack) -> NoDup (i :: stack) -> orig !! i = Some o ->
  k ∈ i :: stack -> cur k = Some (dest o) -> root (i :: stack) = Some k.
Proof.
  intros Hch Hnd Hi Hk Hc. destruct (chain_next _ _ _ Hch Hk) as [|(p & op & Hp & Hop & E)]; [done|].
  rewrite Hc in E. injection E as E. apply (dest_inj i p o op Hi Hop) in E as ->.
  by apply list.NoDup_cons in Hnd as [Hnd _].
Qed.

(** The chain does not depend on the sources of other moves, nor on the first one's. *)
Lemma chain_ext cur cur' stack :
  NoDup stack -> (forall k, k ∈ stack -> root stack <> Some k -> cur' k = cur k) ->
  chain cur stack -> chain cur' stack.
Proof.
  induction stack as [|c rest IH]; intros Hnd H Hch; [done|]. destruct rest as [|p rest]; [done|].
  destruct Hch as [(o & Ho & Ec) Hch]. apply list.NoDup_cons in Hnd as [Hc Hnd]. split.
  - exists o. split; [done|]. rewrite H; [done|by left|]. intros Hr. by apply (root_in (p :: rest)) in Hr.
  - apply IH; [done| |done]. intros k Hk Hr. apply H; [by right|done].
Qed.

(** *** What the calls give *)

Definition performed (index : nat) (stack : list nat) (cur : nat -> option Location)
    (out : Outcome (Resolver * option nat)) : Prop :=
  match out with
  | Stuck => False
  | Fatal => both_banks orig
  | Done (st', ret) =>
      exists cur', ready st' stack cur' /\ (forall k, cur k = None -> cur' k = None) /\
        (stack <> [] -> evolves stack cur cur') /\
        match ret with
        | None => cur' index = None /\ (fit_but None cur' \/ displaced stack cur')
        | Some r =>
            stack = [] /\ r = index /\ cur' index = None /\ fit_but None cur' \/
            stack <> [] /\ required stack cur' r /\ cur' index <> None
        end
  end.

Definition looped (index : nat) (stack : list nat) (o : MoveOperands)
    (cur : nat -> option Location) (out : Outcome (Resolver * LoopExit)) : Prop :=
  match out with
  | Stuck => False
  | Fatal => both_banks orig
  | Done (st', exit) =>
      exists cur', ready st' (index :: stack) cur' /\ evolves (index :: stack) cur cur' /\
        match exit with
        | NoSwap => (forall k, k ∉ index :: stack -> cur' k <> Some (dest o)) /\
                    (fit_but None cur' \/ displaced (index :: stack) cur')
        | SwapThis => stack = [] /\ required [index] cur' index
        | SwapOther r => stack <> [] /\ required (index :: stack) cur' r
        end
  end.

(** ** Pending moves *)

Lemma ready_lookup st stack cur i o :
  ready st stack cur -> orig !! i = Some o ->
  get_move st i = Done (mk o (cur i) (bool_decide (i ∈ stack))).
Proof. intros H. apply view_get, H. Qed.

Lemma pend st stack cur i o l :
  ready st stack cur -> orig !! i = Some o -> i ∉ stack -> cur i = Some l -> IsConstant l = false ->
  (forall p rest op, stack = p :: rest -> orig !! p = Some op -> l = dest op) ->
  ready (set_move st i (MarkPending (mk o (cur i) false))) (i :: stack) cur.
Proof.
  intros [Hv Hh Hdom Hnd Hlive Hch] Hi Hs Hc Hl Hp. split; try done.
  - pose proof (view_set st stack (i :: stack) cur i o (Some l) Hv Hi) as Hv'.
    rewrite bool_decide_true in Hv' by (by left). rewrite Hc. eapply view_ext; [apply Hv'|].
    + intros j Hj. rewrite elem_of_cons. split; auto. by intros [->|].
    + intros j oj Hj. unfold upd. case_decide; congruence.
  - by apply list.NoDup_cons.
  - intros k [->|Hk]%elem_of_cons; [by exists o, l|by apply Hlive].
  - destruct stack as [|p rest]; [done|]. split; [|done].
    destruct (Hlive p) as (op & lp & Hop & _); [by left|]. exists op. split; [done|].
    by rewrite Hc, (Hp p rest op).
Qed.

Lemma unpend st stack cur i o :
  ready st (i :: stack) cur -> orig !! i = Some o ->
  exists m, get_move st i = Done m /\ ready (set_move st i (ClearPending m (dest o))) stack cur.
Proof.
  intros H Hi. pose proof (ready_lookup _ _ _ _ _ H Hi) as Hg.
  destruct H as [Hv Hh Hdom Hnd Hlive Hch]. apply list.NoDup_cons in Hnd as [Hni Hnd].
  destruct (Hlive i) as (o' & l & Hi' & Hc & Hl); [by left|].
  rewrite Hc, bool_decide_true in Hg by (by left). eexists. split; [exact Hg|]. split; try done.
  - pose proof (view_set st (i :: stack) stack cur i o (Some l) Hv Hi) as Hv'.
    rewrite bool_decide_false in Hv' by done. eapply view_ext; [apply Hv'|].
    + intros j Hj. rewrite elem_of_cons. split; auto. by intros [->|].
    + intros j oj Hj. unfold upd. case_decide; congruence.
  - intros k Hk. apply Hlive. by right.
  - by destruct stack; [|destruct Hch].
Qed.

(** ** One move resolved *)

Section Resolved.
Context (st : Resolver) (stack : list nat) (cur : nat -> option Location).
Context (i : nat) (o : MoveOperands) (l : Location).
Hypothesis Hr : ready st stack cur.
Hypothesis Hi : orig !! i = Some o.
Hypothesis Hs : i ∉ stack.
Hypothesis Hc : cur i = Some l.
Hypothesis Hl : IsConstant l = false.
Hypothesis Hch : chain cur (i :: stack).

Lemma stack_keeps cur' :
  (forall k, k ∈ stack -> cur' k = cur k) ->
  (forall k, k ∈ stack -> exists o l, orig !! k = Some o /\ cur' k = Some l /\ IsConstant l = false) /\
  chain cur' stack.
Proof.
  intros E. split.
  - intros k Hk. rewrite (E k Hk). by apply (r_live _ _ _ Hr).
  - eapply chain_ext; [apply Hr| |apply Hr]. intros k Hk _. by apply E.
Qed.

Lemma upd_keeps k : k ∈ stack -> upd cur i None k = cur k.
Proof. intros Hk. apply upd_diff. intros ->. done. Qed.

Lemma upd_dom k l' : upd cur i None k = Some l' -> is_Some (orig !! k).
Proof. intros [_ H]%upd_none. by eapply (r_dom _ _ _ Hr). Qed.

Lemma upd_fit exc : fit_but exc cur -> fit_but exc (upd cur i None).
Proof. intros H k ok l' Hk [_ Hc']%upd_none. by apply (H k). Qed.

Lemma upd_evolves : evolves stack cur (upd cur i None).
Proof.
  split; [|intros k l' _ [_ H]%upd_none; by left]. intros k H. unfold upd. by case_decide.
Qed.

Lemma place_of_source : place orig l.
Proof.
  pose proof (h_place _ _ (r_hold _ _ _ Hr) i o l Hi Hc) as H.
  destruct (IsConstant (source_ o)) eqn:E; [congruence|]. apply H.
Qed.

(** The source is the destination already. *)
Lemma resolved_elim :
  l = dest o -> ready (set_move st i (Eliminate (mk o (cur i) false))) stack (upd cur i None).
Proof.
  intros El. destruct (stack_keeps (upd cur i None) upd_keeps) as [Hlive Hchain]. split; try done.
  - pose proof (view_set st stack stack cur i o None (r_view _ _ _ Hr) Hi ltac:(done)) as Hv.
    rewrite Hc. exact Hv.
  - apply (holding_elim cur (sem st) i o); [done|apply Hr|congruence].
  - apply upd_dom.
  - apply Hr.
Qed.

Lemma banks_of r r' a b :
  place orig a -> place orig b ->
  a = RegisterLocation r /\ b = FpuRegisterLocation r' \/ a = FpuRegisterLocation r /\ b = RegisterLocation r' ->
  both_banks orig.
Proof. intros Ha Hb [[-> ->]|[-> ->]]; split; eauto. Qed.

(** Nothing reads the destination. *)
Lemma resolved_move :
  fits (Is64BitMove o) l -> (forall j, cur j <> Some (dest o)) ->
  match do_move st i with
  | Done st' => ready st' stack (upd cur i None)
  | Fatal => both_banks orig
  | Stuck => False
  end.
Proof.
  intros Hf Hfree. pose proof (do_move_spec st stack cur i o l (r_view _ _ _ Hr) Hi Hs Hc) as Hd.
  destruct (can_move l (dest o)) eqn:Ec.
  - destruct Hd as (st' & -> & Hv & Ecode). destruct (stack_keeps (upd cur i None) upd_keeps).
    split; try done; [|apply upd_dom|apply Hr]. unfold sem. rewrite Ecode, exec_code_snoc.
    apply holding_move; try done; [apply Hr|]. intros Hb. rewrite Hb in Hf. by destruct l.
  - rewrite Hd. destruct (can_move_fits _ _ _ Hf (dest_fits i o Hi) Ec) as [(r & r' & E1 & E2)|(r & r' & E1 & E2)];
      eapply (banks_of r r' l (dest o)); eauto using place_of_source, dest_place.
Qed.

(** The move swaps with the location another one waits for. *)
Lemma resolved_swap j oj :
  orig !! j = Some oj -> j <> i -> cur j <> None -> l = dest oj ->
  (Is64BitMove o = true -> IsStackSlot l = false) ->
  (Is64BitMove o = false -> forall k ok, orig !! k = Some ok -> cur k = Some (dest o) ->
     Is64BitMove ok = false) ->
  (can_swap l (dest o) = false -> both_banks orig) ->
  match do_swap st i with
  | Done st' =>
      view st' stack (swap_cur cur i l (dest o)) /\ holding (swap_cur cur i l (dest o)) (sem st')
  | Fatal => both_banks orig
  | Stuck => False
  end.
Proof.
  intros Hj Hji Hjn El Hslot Hsize Hbanks.
  assert (l <> dest o) as Hld by (intros E; apply Hji, (dest_inj j i oj o); [done..|congruence]).
  pose proof (do_swap_spec st stack cur (sem st) i o l (r_view _ _ _ Hr) (r_hold _ _ _ Hr) (r_dom _ _ _ Hr)
    Hi Hs Hc place_of_source Hld) as Hd.
  destruct (can_swap l (dest o)); [|rewrite Hd; by apply Hbanks].
  destruct Hd as (st' & scratch & -> & Hv & Ecode & Hscr). split; [done|].
  unfold sem. rewrite Ecode, exec_code_snoc. apply (holding_swap cur (sem st) i j o oj); try done. apply Hr.
Qed.

Lemma swap_cur_monotone k d : cur k = None -> swap_cur cur i l d k = None.
Proof. intros H. unfold swap_cur. apply swapped_none. unfold upd. by case_decide. Qed.

Lemma swap_cur_dom d k l' : swap_cur cur i l d k = Some l' -> is_Some (orig !! k).
Proof.
  intros (_ & [[H _]|[(H & _)|(H & _)]])%swap_cur_some; by eapply (r_dom _ _ _ Hr).
Qed.

Lemma swap_cur_self d : swap_cur cur i l d i = None.
Proof. unfold swap_cur. by rewrite upd_same. Qed.
End Resolved.

(** ** The end of a call *)

Lemma first_blocking_some d n ms k m :
  first_blocking d n ms = Some (k, m) ->
  exists k', k = (n + k')%nat /\ ms !! k' = Some m /\ Blocks m d = true.
Proof.
  revert n. induction ms as [|m' ms IH]; intros n; simpl; [done|]. destruct (Blocks m' d) eqn:E.
  - intros [= <- <-]. exists 0%nat. split; [lia|done].
  - intros (k' & -> & H)%IH. exists (S k'). split; [lia|done].
Qed.

Lemma first_blocking_none d n ms :
  first_blocking d n ms = None -> existsb (fun m => Blocks m d) ms = false.
Proof. revert n. induction ms as [|m ms IH]; intros n; simpl; [done|]. destruct (Blocks m d); [done|apply IH]. Qed.

Section Frame.
Context (st : Resolver) (stack : list nat) (cur : nat -> option Location).
Context (i : nat) (o : MoveOperands) (l : Location).
Hypothesis Hr : ready st stack cur.
Hypothesis Hi : orig !! i = Some o.
Hypothesis Hs : i ∉ stack.
Hypothesis Hc : cur i = Some l.
Hypothesis Hl : IsConstant l = false.
Hypothesis Hch : chain cur (i :: stack).

Lemma frame_nodup : NoDup (i :: stack).
Proof. apply list.NoDup_cons. split; [done|apply Hr]. Qed.

Lemma chain_top p rest : stack = p :: rest -> exists op, orig !! p = Some op /\ l = dest op.
Proof.
  intros E. pose proof Hch as H. rewrite E in H. destruct H as [(op & Hop & Ec) _].
  exists op. split; [done|]. congruence.
Qed.

(** Below the last pending move the chain does not mention its destination. *)
Lemma chain_below p rest op k :
  stack = p :: rest -> orig !! p = Some op -> k ∈ stack -> root stack <> Some k ->
  cur k <> Some (dest op) /\ cur k <> Some (dest o).
Proof.
  intros E Hop Hk Hroot. pose proof (r_nodup _ _ _ Hr) as Hnd.
  destruct (chain_next _ _ _ (r_chain _ _ _ Hr) Hk) as [|(p' & op' & Hp' & Hop' & Ec)]; [done|].
  rewrite E in Hp', Hnd. simpl in Hp'. apply list.NoDup_cons in Hnd as [Hnp _]. rewrite Ec. split.
  - intros [= Ed]. apply (dest_inj p' p op' op Hop' Hop) in Ed as ->. done.
  - intros [= Ed]. apply (dest_inj p' i op' o Hop' Hi) in Ed as ->. apply Hs. rewrite E. by right.
Qed.

(** The state after a swap inside a cycle: the first pending move is displaced. *)
Lemma inner_swapped st' p rest op r or :
  stack = p :: rest -> orig !! p = Some op -> l = dest op ->
  root stack = Some r -> orig !! r = Some or -> cur r = Some (dest o) ->
  (forall k, k ∉ i :: stack -> cur k <> Some (dest o)) ->
  fit_but (Some r) cur -> (Is64BitMove or = true -> IsStackSlot l = false) ->
  let cur' := swap_cur cur i l (dest o) in
  view st' stack cur' -> holding cur' (sem st') ->
  ready st' stack cur' /\ evolves stack cur cur' /\ displaced stack cur'.
Proof.
  intros E Hop El Hroot Hor Hcr Hfree Hfits Hslot cur' Hv Hh.
  pose proof (root_in _ _ Hroot) as Hrin.
  assert (p <> i) as Hpi by (intros ->; apply Hs; rewrite E; by left).
  assert (l <> dest o) as Hld by (rewrite El; intros Ed; by apply Hpi, (dest_inj p i op o)).
  assert (cur' r = Some l) as Hcr'.
  { unfold cur', swap_cur. rewrite upd_diff by (intros ->; done). rewrite Hcr. unfold swapped.
    rewrite decide_False by congruence. by rewrite decide_True. }
  assert (forall k, k ∈ stack -> root stack <> Some k -> cur' k = cur k) as Hkeep.
  { intros k Hk Hkr. destruct (chain_below p rest op k E Hop Hk Hkr) as [H1 H2].
    unfold cur', swap_cur. rewrite upd_diff by (intros ->; done). unfold swapped.
    by rewrite !decide_False by congruence. }
  split; [|split].
  - split; try done.
    + intros k l'. apply (swap_cur_dom st stack cur i l Hr).
    + apply Hr.
    + intros k Hk. destruct (decide (k = r)) as [->|Hkr]; [by exists or, l|].
      rewrite Hkeep; [by apply Hr|done|congruence].
    + eapply chain_ext; [apply Hr|done|apply Hr].
  - split; [intros k; apply swap_cur_monotone|]. intros k l' Hk (Hki & Hl')%swap_cur_some.
    destruct Hl' as [[Hck ->]|[(Hck & _)|(Hck & _)]].
    + right. exists i, o. split; [done|]. split; [apply swap_cur_self|done].
    + exfalso. apply (Hfree k); [by apply not_elem_of_cons|done].
    + by left.
  - exists p, rest, r, op, or. split; [done|]. split; [done|]. split; [done|]. split; [done|].
    split; [by rewrite Hcr', El|]. split; [|split; [|by rewrite <- El]].
    + intros k Hk. rewrite <- El. intros (Hki & Hl')%swap_cur_some.
      destruct Hl' as [[_ Hld']|[(Hck & _)|(_ & Hn & _)]]; [done| |done].
      apply (Hfree k); [by apply not_elem_of_cons|done].
    + intros k ok l' Hk (Hki & Hl')%swap_cur_some Hcl Hex.
      destruct Hl' as [[Hck ->]|[(Hck & _)|(Hck & _)]].
      * rewrite (h_sizes _ _ (r_hold _ _ _ Hr) k i ok o l Hk Hi Hck Hc Hl). by apply (dest_fits i).
      * exfalso. destruct (decide (k ∈ stack)) as [Hin|]; [|by apply (Hfree k); [apply not_elem_of_cons|]].
        destruct (chain_below p rest op k E Hop Hin) as [_ H2]; [congruence|done].
      * by apply (Hfits k).
Qed.

Lemma inner_swap p rest r or :
  stack = p :: rest -> root stack = Some r -> orig !! r = Some or -> cur r = Some (dest o) ->
  (forall k, k ∉ i :: stack -> cur k <> Some (dest o)) ->
  fits (Is64BitMove o) l -> fit_but (Some r) cur ->
  Is64BitMove o = true \/ Is64BitMove or = false ->
  performed i stack cur (st' ← do_swap st i; Done (st', None)).
Proof.
  intros E Hroot Hor Hcr Hfree Hf Hfits Hsz. destruct (chain_top p rest E) as (op & Hop & El).
  assert (p <> i /\ cur p <> None) as [Hpi Hpn].
  { split; [intros ->; apply Hs; rewrite E; by left|].
    destruct (r_live _ _ _ Hr p) as (? & ? & _ & Ec & _); [rewrite E; by left|]. by rewrite Ec. }
  assert (Is64BitMove o = true -> IsStackSlot l = false) as Hslot
    by (intros Hb; rewrite Hb in Hf; by destruct l).
  assert (Is64BitMove o = false -> forall k ok, orig !! k = Some ok -> cur k = Some (dest o) ->
            Is64BitMove ok = false) as Hsize.
  { intros Hb k ok Hk Hck. destruct Hsz as [|Hsz]; [congruence|]. rewrite <- Hsz.
    by apply (h_sizes _ _ (r_hold _ _ _ Hr) k r ok or (dest o)); try done; eapply dest_not_constant. }
  pose proof (resolved_swap st stack cur i o l Hr Hi Hs Hc Hl p op Hop Hpi Hpn El Hslot Hsize) as Hsw.
  assert (can_swap l (dest o) = false -> both_banks orig) as Hbanks.
  { intros Hcs. destruct (can_swap_fits _ _ _ Hf (dest_fits i o Hi) Hcs) as [(a & b & E1 & E2)|(a & b & E1 & E2)];
      eapply (banks_of a b l (dest o)); eauto using place_of_source, dest_place. }
  specialize (Hsw Hbanks). destruct (do_swap st i) as [st'| |]; cbn [mbind Outcome_bind]; [|done..].
  destruct Hsw as [Hv Hh]. destruct (inner_swapped st' p rest op r or) as (Hr' & Hev & Hdis); try done.
  - intros Hb. apply Hslot. destruct Hsz; [done|congruence].
  - exists (swap_cur cur i l (dest o)). split; [done|]. split; [apply Hev|]. split; [done|].
    split; [apply swap_cur_self|by right].
Qed.

Lemma stack_cases : stack = [] \/ exists p rest, stack = p :: rest.
Proof. destruct stack; eauto. Qed.

(** Only the outermost call can find its source in place. *)
Lemma in_place_outermost : l = dest o -> stack = [].
Proof.
  intros El. destruct stack_cases as [|(p & rest & E)]; [done|]. exfalso.
  destruct (chain_top p rest E) as (op & Hop & El'). apply Hs. rewrite E.
  rewrite (dest_inj i p o op Hi Hop); [by left|congruence].
Qed.

(** All sources but the first pending move's fit, and its own when it is not displaced. *)
Lemma fits_but_root :
  fit_but None cur \/ displaced (i :: stack) cur -> fit_but (Some (bottom i stack)) cur.
Proof.
  intros [Hf|(top & rest & r & otop & or & _ & [= <-] & _ & _ & _ & _ & Hf & _)]; [|done].
  intros k ok l' Hk Hck Hcl _. by apply (Hf k).
Qed.

Lemma resolve_in_place :
  fit_but None cur \/ displaced (i :: stack) cur -> l = dest o ->
  performed i stack cur (Done (set_move st i (Eliminate (mk o (cur i) false)), None)).
Proof.
  intros Hfd El. pose proof (in_place_outermost El) as Estack. exists (upd cur i None).
  split; [by apply (resolved_elim st stack cur i o l)|].
  split; [intros k Hk; unfold upd; by case_decide|].
  split; [done|]. split; [apply upd_same|]. left.
  intros k ok l' Hk [Hki Hck]%upd_none Hcl _. apply (fits_but_root Hfd k); [done..|].
  rewrite Estack. simpl. congruence.
Qed.

(** The move that blocks a call in the end is the first one pending. *)
Lemma blocked_by_root k m :
  (forall k, k ∉ i :: stack -> cur k <> Some (dest o)) -> l <> dest o ->
  first_blocking (dest o) 0 (moves_ st) = Some (k, m) ->
  exists p rest ok, stack = p :: rest /\ root stack = Some k /\ orig !! k = Some ok /\
    cur k = Some (dest o) /\ Is64BitMove m = Is64BitMove ok.
Proof.
  intros Hfree Hld (k' & -> & Hm & Hb)%first_blocking_some. simpl.
  destruct (view_lookup _ _ _ _ _ (r_view _ _ _ Hr) Hm) as (ok & Hk & ->).
  rewrite (mk_blocks cur (sem st)) in Hb by (apply Hr || done || by eapply dest_place).
  apply bool_decide_eq_true in Hb.
  destruct (decide (k' ∈ i :: stack)) as [Hin|]; [|by destruct (Hfree k')].
  pose proof (chain_sources cur i stack o k' Hch frame_nodup Hi Hin Hb) as Hroot.
  destruct stack_cases as [E|(p & rest & E)].
  - rewrite E in Hroot. injection Hroot as <-. congruence.
  - exists p, rest, ok. rewrite root_push in Hroot by (by rewrite E). split_and!; try done.
    by rewrite Hb.
Qed.

(** The destination a longer move waits for is a register. *)
Lemma required_register k ok :
  fit_but None cur \/ displaced (i :: stack) cur -> Is64BitMove o = false ->
  orig !! k = Some ok -> cur k = Some (dest o) -> Is64BitMove ok = true ->
  root (i :: stack) = Some k -> is_slot (dest o) = false.
Proof.
  intros Hfd Ho Hk Hck Hok' Hroot. pose proof (dest_fits i o Hi) as Hdf. rewrite Ho in Hdf.
  assert (IsStackSlot (dest o) = false) as Hns; [|by destruct (dest o)].
  destruct Hfd as [Hf|(top & rest & r & otop & or & [= <- <-] & Hroot' & Ht & Hor & _ & _ & _ & Hs')].
  - pose proof (Hf k ok _ Hk Hck (dest_not_constant i o Hi) ltac:(done)) as Hff. rewrite Hok' in Hff.
    by destruct (dest o).
  - rewrite Hroot in Hroot'. injection Hroot' as <-. rewrite Hi in Ht. injection Ht as <-.
    rewrite Hk in Hor. injection Hor as <-. by apply Hs'.
Qed.

(** The call ends when no move that is not pending reads the destination. *)
Lemma resolve_done :
  (forall k, k ∉ i :: stack -> cur k <> Some (dest o)) ->
  fit_but None cur \/ displaced (i :: stack) cur ->
  performed i stack cur (resolve_move st i (dest o) false).
Proof.
  intros Hfree Hfd. unfold resolve_move. rewrite (ready_lookup _ _ _ _ _ Hr Hi), bool_decide_false by done.
  cbn [mbind Outcome_bind]. pose proof (fits_but_root Hfd) as Hfits.
  rewrite Hc. cbn [mk source_ Is64BitMove]. unfold Equals.
  case_bool_decide as El.
  { pose proof (resolve_in_place Hfd El) as H. by rewrite Hc in H. }
  destruct (first_blocking (dest o) 0 (moves_ st)) as [[k m]|] eqn:Efb.
  - destruct (blocked_by_root k m Hfree El Efb) as (p & rest & ok & E & Hroot & Hk & Hck & ->).
    assert (bottom i stack = k) as Ebot by (rewrite E in Hroot |- *; by injection Hroot).
    rewrite Ebot in Hfits.
    assert (k <> i) as Hki by (intros ->; apply Hs; by apply root_in).
    assert (fits (Is64BitMove o) l) as Hf by (apply (Hfits i); [done..|congruence]).
    destruct (negb (Is64BitMove o) && Is64BitMove ok) eqn:Eb.
    + apply andb_true_iff in Eb as [Eb1%negb_true_iff Eb2]. exists cur. split; [done|].
      split; [done|]. split; [intros _; apply evolves_refl|]. right. split; [by rewrite E|].
      split; [|congruence]. split; [done|]. exists ok, i, o. split_and!; try done; [congruence|].
      apply (required_register k ok); try done. by rewrite root_push by (by rewrite E).
    + apply (inner_swap p rest k ok); try done.
      destruct (Is64BitMove o), (Is64BitMove ok); auto.
  - assert (forall j, cur j <> Some (dest o)) as Hnone.
    { intros j Hj. destruct (r_dom _ _ _ Hr j _ Hj) as [oj Hoj].
      apply (view_unblocked st stack cur (sem st) (dest o)) with (k := j) (o := oj); try done.
      - apply Hr.
      - apply Hr.
      - by eapply dest_place.
      - by eapply first_blocking_none. }
    assert (fit_but None cur) as Hf.
    { destruct Hfd as [Hf|(top & rest & r & otop & or & [= <- <-] & _ & Ht & _ & Hcr & _)]; [done|].
      rewrite Hi in Ht. injection Ht as <-. by destruct (Hnone r). }
    pose proof (resolved_move st stack cur i o l Hr Hi Hs Hc Hl (Hf i o l Hi Hc Hl ltac:(done)) Hnone) as Hm.
    destruct (do_move st i) as [st'| |]; cbn [mbind Outcome_bind]; [|done..].
    exists (upd cur i None). split; [done|]. split; [intros j Hj; unfold upd; by case_decide|].
    split; [intros _; apply upd_evolves|]. split; [apply upd_same|]. left. by apply upd_fit.
Qed.
End Frame.

(** The outermost call when its move is required to swap. *)
Lemma resolve_required st cur i o l :
  ready st [] cur -> orig !! i = Some o -> cur i = Some l -> IsConstant l = false ->
  required [i] cur i -> performed i [] cur (resolve_move st i (dest o) true).
Proof.
  intros Hr Hi Hc Hl (_ & o' & j & oj & Hi' & Hb & Hj & Hji & Hjn & Hcj & Hslot & Hfit).
  rewrite Hi in Hi'. injection Hi' as <-. rewrite Hc in Hcj. injection Hcj as El.
  assert (j <> i) as Hne' by (intros ->; apply Hji; by left).
  assert (i ∉ []) as Hs by apply not_elem_of_nil.
  unfold resolve_move. rewrite (ready_lookup _ _ _ _ _ Hr Hi), bool_decide_false by done.
  cbn [mbind Outcome_bind]. rewrite Hc. cbn [mk source_]. unfold Equals.
  rewrite bool_decide_false by (rewrite El; intros E; by apply Hne', (dest_inj j i oj o)).
  assert (fits true l) as Hf by (pose proof (dest_fits j oj Hj); rewrite El in *; by destruct (dest oj)).
  pose proof (dest_fits i o Hi) as Hdf. rewrite Hb in Hdf.
  pose proof (resolved_swap st [] cur i o l Hr Hi Hs Hc Hl j oj Hj Hne' Hjn El) as Hsw.
  assert (can_swap l (dest o) = false -> both_banks orig) as Hbanks.
  { intros Hcs. destruct (can_swap_fits _ _ _ Hf Hdf Hcs) as [(a & b & E1 & E2)|(a & b & E1 & E2)];
      eapply (banks_of a b l (dest o)); eauto using place_of_source, dest_place. }
  specialize (Hsw ltac:(intros _; by destruct l) ltac:(congruence) Hbanks).
  destruct (do_swap st i) as [st'| |]; cbn [mbind Outcome_bind]; [|done..]. destruct Hsw as [Hv Hh].
  exists (swap_cur cur i l (dest o)).
  split; [split; try done; [apply (swap_cur_dom st [] cur i l Hr)|constructor|by intros k ?%not_elem_of_nil]|].
  split; [intros k; apply swap_cur_monotone|]. split; [done|]. left.
  split; [done|]. split; [done|]. split; [apply swap_cur_self|].
  intros k ok l' Hk (Hki & Hl')%swap_cur_some Hcl _. destruct Hl' as [[Hck ->]|[(Hck & _ & ->)|(Hck & _)]].
  - rewrite (h_sizes _ _ (r_hold _ _ _ Hr) k i ok o l Hk Hi Hck Hc Hl). by rewrite Hb.
  - rewrite El in *. by destruct (dest oj).
  - apply (Hfit k); [done..|]. congruence.
Qed.

(** ** The loop over the blocking moves *)

(** What a nested call needs and gives. *)
Definition performs (fuel : nat) : Prop :=
  forall index stack st cur o l,
    (length orig < fuel + length stack)%nat -> ready st stack cur -> fit_but None cur ->
    orig !! index = Some o -> index ∉ stack -> cur index = Some l -> IsConstant l = false ->
    (forall p rest op, stack = p :: rest -> orig !! p = Some op -> l = dest op) ->
    performed index stack cur (PerformMove fuel index st).

Lemma looped_trans index stack o cur cur1 out :
  evolves (index :: stack) cur cur1 -> looped index stack o cur1 out -> looped index stack o cur out.
Proof.
  intros He H. destruct out as [[st' exit]| |]; [|done..]. destruct H as (cur' & Hr & He' & H).
  exists cur'. split; [done|]. split; [by eapply evolves_trans|done].
Qed.

Section Loop.
Context (fuel index : nat) (stack : list nat) (o : MoveOperands).
Hypothesis IH : performs fuel.
Hypothesis Ho : orig !! index = Some o.
Hypothesis Hfuel : (length orig < fuel + S (length stack))%nat.

Lemma loop_spec lfuel : forall i st cur,
  (i <= length orig < i + lfuel)%nat -> ready st (index :: stack) cur ->
  fit_but None cur \/ displaced (index :: stack) cur ->
  (forall k, (k < i)%nat -> k ∉ index :: stack -> cur k <> Some (dest o)) ->
  looped index stack o cur (perform_blocking (PerformMove fuel) lfuel index (dest o) i st).
Proof.
  induction lfuel as [|lfuel IHl]; intros i st cur Hlf Hr Hfd Hseen.
  { lia. }
  cbn [perform_blocking]. destruct (moves_ st !! i) as [m|] eqn:Em.
  2: { exists cur. split; [done|]. split; [apply evolves_refl|]. split; [|done].
       intros k Hk E. destruct (r_dom _ _ _ Hr k _ E) as [ok Hok'].
       apply (Hseen k); [|done..]. apply lookup_ge_None in Em. apply lookup_lt_Some in Hok'.
       destruct (r_view _ _ _ Hr) as [Hlen _]. lia. }
  destruct (view_lookup _ _ _ _ _ (r_view _ _ _ Hr) Em) as (om & Hom & ->).
  rewrite (mk_blocks cur (sem st)) by (apply Hr || done || by eapply dest_place).
  assert (forall cur', (forall k, (k < i)%nat -> k ∉ index :: stack -> cur' k <> Some (dest o)) ->
            (i ∉ index :: stack -> cur' i <> Some (dest o)) ->
            forall k, (k < S i)%nat -> k ∉ index :: stack -> cur' k <> Some (dest o)) as Hnext.
  { intros cur' H1 H2 k Hk Hk'. destruct (decide (k = i)) as [->|]; [by apply H2|apply H1; [lia|done]]. }
  assert (i < length orig)%nat as Hi by (by eapply lookup_lt_Some).
  destruct (decide (cur i = Some (dest o))) as [Eb|Eb];
    [rewrite (bool_decide_true (cur i = _)) by done|rewrite (bool_decide_false (cur i = _)) by done];
    cbn [andb].
  2: { apply IHl; [lia|done..|]. by apply Hnext. }
  rewrite (mk_pending cur (sem st)) by (apply Hr || congruence).
  case_bool_decide as Ep; cbn [negb].
  { apply IHl; [lia|done..|]. by apply Hnext. }
  assert (fit_but None cur) as Hf.
  { destruct Hfd as [|(top & rest & r & otop & or & [= <- <-] & _ & Ht & _ & _ & Hnr & _)]; [done|].
    rewrite Ho in Ht. injection Ht as <-. by destruct (Hnr i Ep). }
  pose proof (IH i (index :: stack) st cur om (dest o) ltac:(simpl; lia) Hr Hf Hom Ep Eb
                (dest_not_constant index o Ho)) as Hperf.
  specialize (Hperf ltac:(intros p rest op [= <- <-] Hop; congruence)).
  destruct (PerformMove fuel i st) as [[st1 ret]| |]; cbn [mbind Outcome_bind]; [|done..].
  destruct Hperf as (cur1 & Hr1 & _ & Hev & Hret). specialize (Hev ltac:(done)).
  apply (looped_trans _ _ _ cur cur1); [done|].
  assert (cur1 index <> None) as Hlive.
  { destruct (r_live _ _ _ Hr1 index) as (? & ? & _ & E & _); [by left|]. by rewrite E. }
  destruct ret as [r|].
  - destruct Hret as [[? _]|(_ & Hreq & Hin)]; [done|]. pose proof (proj1 Hreq) as Hroot.
    destruct (Nat.eqb_spec r index) as [->|Hri].
    + exists cur1. split; [done|]. split; [apply evolves_refl|].
      assert (stack = []) as ->; [|done].
      destruct stack as [|p rest] eqn:Es; [done|]. exfalso.
      pose proof (r_nodup _ _ _ Hr1) as Hnd. apply list.NoDup_cons in Hnd as [Hnd _].
      apply Hnd, root_in. exact Hroot.
    + destruct (Nat.eqb_spec r i) as [->|Hrr].
      * exfalso. by apply Ep, root_in.
      * exists cur1. split; [done|]. split; [apply evolves_refl|]. split; [|done].
        intros ->. by injection Hroot as <-.
  - destruct Hret as [Hn Hfd1]. apply IHl; [lia|done..|].
    apply Hnext; [|congruence]. intros k Hk Hk'.
    eapply evolves_not_dest; [done..|by apply Hseen].
Qed.
End Loop.

(** ** The calls *)

Lemma performed_trans index stack o cur cur1 out :
  orig !! index = Some o -> evolves (index :: stack) cur cur1 ->
  (stack <> [] -> cur1 index = cur index) ->
  performed index stack cur1 out -> performed index stack cur out.
Proof.
  intros Ho He Hc H. destruct out as [[st' ret]| |]; [|done..].
  destruct H as (cur' & Hr & Hn & Hev & H). exists cur'. split; [done|].
  split; [intros k Hk; by apply Hn, He|]. split; [|done]. intros Hs.
  eapply evolves_trans; [|by apply Hev]. eapply evolves_push; [done| |done]. right. by apply Hc.
Qed.

Lemma stack_bounded st stack cur : ready st stack cur -> (length stack <= length orig)%nat.
Proof.
  intros Hr. rewrite <- (length_seq (length orig) 0).
  apply submseteq_length, NoDup_submseteq; [apply Hr|]. intros k Hk.
  destruct (r_live _ _ _ Hr k Hk) as (o & _ & Ho & _). apply lookup_lt_Some in Ho.
  apply elem_of_seq. lia.
Qed.

Lemma required_pop index stack cur r :
  stack <> [] -> required (index :: stack) cur r -> required stack cur r.
Proof.
  intros Hs (Hroot & o & j & oj & Hr & Hb & Hj & Hjs & H). rewrite root_push in Hroot by done.
  split; [done|]. exists o, j, oj. apply not_elem_of_cons in Hjs as [_ Hjs].
  split; [done|]. split; [done|]. split; [done|]. by split.
Qed.

(** After the loop, on each of its exits. *)
Lemma exit_performed st stack cur index o l exit :
  ready st stack cur -> orig !! index = Some o -> index ∉ stack -> cur index = Some l ->
  IsConstant l = false -> chain cur (index :: stack) ->
  match exit with
  | NoSwap => (forall k, k ∉ index :: stack -> cur k <> Some (dest o)) /\
              (fit_but None cur \/ displaced (index :: stack) cur)
  | SwapThis => stack = [] /\ required [index] cur index
  | SwapOther r => stack <> [] /\ required (index :: stack) cur r
  end ->
  performed index stack cur
    match exit with
    | SwapOther r => Done (st, Some r)
    | SwapThis => resolve_move st index (dest o) true
    | NoSwap => resolve_move st index (dest o) false
    end.
Proof.
  intros Hr Ho Hs Hc Hl Hch Hexit. destruct exit as [| |r].
  - destruct Hexit as [Hfree Hfd]. by eapply resolve_done.
  - destruct Hexit as [-> Hreq]. by eapply resolve_required.
  - destruct Hexit as [Hstack Hreq]. exists cur. split; [done|]. split; [done|].
    split; [intros _; apply evolves_refl|]. right. split; [done|]. split; [|congruence].
    by eapply required_pop.
Qed.

Lemma mk_redundant cur s k o l :
  holding cur s -> orig !! k = Some o -> cur k = Some l ->
  IsRedundant (mk o (cur k) false) = bool_decide (l = dest o).
Proof.
  intros H Hk Hc. pose proof (cur_valid _ _ _ _ _ H Hk Hc). pose proof (dest_fits k o Hk).
  rewrite Hc. unfold IsRedundant, IsEliminated, Equals. cbn [mk source_ destination_].
  replace (IsInvalid l) with false by (by destruct l).
  by replace (IsInvalid (dest o)) with false by (by destruct (dest o)).
Qed.

Lemma PerformMove_spec fuel : performs fuel.
Proof.
  induction fuel as [|fuel IH]; intros index stack st cur o l Hfuel Hr Hf Ho Hs Hc Hl Htop.
  { apply stack_bounded in Hr. lia. }
  pose proof (pend st stack cur index o l Hr Ho Hs Hc Hl Htop) as Hr0.
  cbn [PerformMove]. rewrite (ready_lookup _ _ _ _ _ Hr Ho), bool_decide_false by done.
  cbn [mbind Outcome_bind].
  rewrite (mk_redundant _ _ _ _ _ (r_hold _ _ _ Hr) Ho Hc).
  replace (destination_ (mk o (cur index) false)) with (dest o) by (by rewrite Hc).
  case_bool_decide as El.
  { eapply resolve_in_place; eauto. apply Hr0. }
  pose proof (loop_spec fuel index stack o IH Ho ltac:(lia)
    (loop_fuel (set_move st index (MarkPending (mk o (cur index) false)))) 0
    (set_move st index (MarkPending (mk o (cur index) false))) cur) as Hloop.
  specialize (Hloop ltac:(unfold loop_fuel; cbn; rewrite length_insert, (proj1 (r_view _ _ _ Hr)); lia)
    Hr0 (or_introl Hf) ltac:(lia)).
  destruct (perform_blocking _ _ _ _ _ _) as [[st1 exit]| |]; cbn [mbind Outcome_bind]; [|done..].
  destruct Hloop as (cur1 & Hr1 & Hev & Hexit).
  destruct (unpend _ _ _ _ _ Hr1 Ho) as (m & -> & Hr2). cbn [mbind Outcome_bind].
  destruct (r_live _ _ _ Hr1 index) as (o' & l1 & _ & Hc1 & Hl1); [by left|].
  apply (performed_trans _ _ o _ cur1); [done..| |by eapply exit_performed; eauto; apply Hr1].
  intros Hne'. pose proof (r_chain _ _ _ Hr1) as Hch1. destruct stack as [|p rest]; [done|].
  destruct Hch1 as [(op & Hop & ->) _]. by rewrite Hc, (Htop p rest op).
Qed.

(** ** The three passes *)

(** Between the calls no move is pending and all sources fit. *)
Definition between (st : Resolver) (cur : nat -> option Location) : Prop :=
  ready st [] cur /\ fit_but None cur.

Lemma perform_spec st cur i o l :
  between st cur -> orig !! i = Some o -> cur i = Some l -> IsConstant l = false ->
  match perform (S (length orig)) i st with
  | Done st' => exists cur', between st' cur' /\ cur' i = None /\ forall k, cur k = None -> cur' k = None
  | Fatal => both_banks orig
  | Stuck => False
  end.
Proof.
  intros [Hr Hf] Hi Hc Hl. unfold perform.
  pose proof (PerformMove_spec (S (length orig)) i [] st cur o l ltac:(simpl; lia) Hr Hf Hi
    ltac:(apply not_elem_of_nil) Hc Hl ltac:(done)) as H.
  destruct (PerformMove _ _ _) as [[st' ret]| |]; cbn [mbind Outcome_bind]; [|done..].
  destruct H as (cur' & Hr' & Hn & _ & H). exists cur'. destruct ret as [r|].
  - destruct H as [(_ & _ & Hi' & Hf')|[? _]]; [|done]. by split_and!.
  - destruct H as [Hi' [Hf'|(top & rest & r & ? & ? & ? & _)]]; [|done]. by split_and!.
Qed.

(** A pass keeps what each of its steps keeps. *)
Lemma for_moves_spec (P : nat -> Resolver -> Prop) (which : MoveOperands -> bool)
    (body : nat -> Resolver -> Outcome Resolver) n :
  (forall i st, P i st -> (i < length orig)%nat ->
     match (move ← get_move st i; if which move then body i st else Done st) with
     | Done st' => P (S i) st'
     | Fatal => both_banks orig
     | Stuck => False
     end) ->
  forall i st, P i st -> (i + n = length orig)%nat ->
  match for_moves which body n i st with
  | Done st' => P (length orig) st'
  | Fatal => both_banks orig
  | Stuck => False
  end.
Proof.
  intros Hstep. induction n as [|n IH]; intros i st HP Hn; cbn [for_moves].
  { replace (length orig) with i by lia. done. }
  pose proof (Hstep i st HP ltac:(lia)) as H.
  destruct (get_move st i) as [m| |]; cbn [mbind Outcome_bind] in *; [|done..].
  destruct (if which m then _ else _) as [st'| |]; cbn [mbind Outcome_bind]; [|done..].
  apply IH; [done|lia].
Qed.

(** The step of one of the first two passes. *)
Lemma pass_step (which : MoveOperands -> bool) st cur i o :
  (forall m, which m = true -> IsEliminated m = false /\ IsConstant (source_ m) = false) ->
  between st cur -> orig !! i = Some o ->
  match (move ← get_move st i; if which move then perform (S (length orig)) i st else Done st) with
  | Done st' => exists cur', between st' cur' /\ (forall k, cur k = None -> cur' k = None) /\
      (which (mk o (cur i) false) = true -> cur' i = None)
  | Fatal => both_banks orig
  | Stuck => False
  end.
Proof.
  intros Hw [Hr Hf] Hi. rewrite (ready_lookup _ _ _ _ _ Hr Hi), bool_decide_false by apply not_elem_of_nil.
  cbn [mbind Outcome_bind]. destruct (which _) eqn:E; [|by exists cur].
  destruct (Hw _ E) as [He Hcst]. destruct (cur i) as [l|] eqn:Hc; [|done].
  pose proof (perform_spec st cur i o l (conj Hr Hf) Hi Hc Hcst) as H.
  destruct (perform _ _ _); [|done..]. destruct H as (cur' & Hb & Hn & Hm). by exists cur'.
Qed.

(** After the second pass only constants are left. *)
Definition constants_left (i : nat) (cur : nat -> option Location) : Prop :=
  forall k o, (k < i)%nat -> orig !! k = Some o -> IsConstant (source_ o) = false -> cur k = None.

Lemma first_pass st cur :
  between st cur ->
  match for_moves slot_to_slot (perform (S (length orig))) (length orig) 0 st with
  | Done st' => exists cur', between st' cur'
  | Fatal => both_banks orig
  | Stuck => False
  end.
Proof.
  intros Hb. apply (for_moves_spec (fun _ st => exists cur, between st cur)); [|by exists cur|done].
  clear st cur Hb. intros i st [cur Hb] [o Hi]%lookup_lt_is_Some_2.
  pose proof (pass_step slot_to_slot st cur i o) as H.
  specialize (H ltac:(intros m [Hm _]%andb_true_iff; by apply negb_true_iff, orb_false_iff in Hm) Hb Hi).
  destruct (_ ≫= _); [|done..]. destruct H as (cur' & H & _). by exists cur'.
Qed.

Lemma second_pass st cur :
  between st cur ->
  match for_moves not_constant (perform (S (length orig))) (length orig) 0 st with
  | Done st' => exists cur', between st' cur' /\ constants_left (length orig) cur'
  | Fatal => both_banks orig
  | Stuck => False
  end.
Proof.
  intros Hb. apply (for_moves_spec (fun i st => exists cur, between st cur /\ constants_left i cur));
    [|exists cur; split; [done|intros k o ?; lia]|done].
  clear st cur Hb. intros i st (cur & Hb & Hleft) [o Hi]%lookup_lt_is_Some_2.
  pose proof (pass_step not_constant st cur i o) as H.
  specialize (H ltac:(by intros m [?%negb_true_iff ?%negb_true_iff]%andb_true_iff) Hb Hi).
  destruct (_ ≫= _); [|done..]. destruct H as (cur' & H & Hm & Hi'). exists cur'. split; [done|].
  intros k ok Hk Hok' Hcst. destruct (decide (k = i)) as [->|]; [|apply Hm, (Hleft k ok); [lia|done..]].
  rewrite Hi in Hok'. injection Hok' as <-. destruct (cur i) as [l|] eqn:Hc; [|by apply Hm].
  apply Hi'. destruct Hb as [Hr _]. pose proof (cur_valid _ _ _ _ _ (r_hold _ _ _ Hr) Hi Hc).
  pose proof (h_place _ _ (r_hold _ _ _ Hr) i o l Hi Hc) as Hp. rewrite Hcst in Hp.
  destruct Hp as [_ Hp]. unfold not_constant, IsEliminated. cbn [mk source_]. rewrite Hp. by destruct l.
Qed.

(** A constant is moved: nothing reads registers or slots any more. *)
Lemma constant_step st cur i o l :
  ready st [] cur -> constants_left (length orig) cur -> orig !! i = Some o -> cur i = Some l ->
  exists st', do_move st i = Done st' /\ ready st' [] (upd cur i None).
Proof.
  intros Hr Hleft Hi Hc.
  assert (forall k ok lk, orig !! k = Some ok -> cur k = Some lk ->
            IsConstant (source_ ok) = true /\ lk = source_ ok) as Hcst.
  { intros k ok lk Hk Hck. pose proof (h_place _ _ (r_hold _ _ _ Hr) k ok lk Hk Hck) as Hp.
    destruct (IsConstant (source_ ok)) eqn:E; [done|].
    rewrite (Hleft k ok) in Hck by (done || by eapply lookup_lt_Some). done. }
  destruct (Hcst i o l Hi Hc) as [Hs ->].
  pose proof (do_move_spec st [] cur i o _ (r_view _ _ _ Hr) Hi ltac:(apply not_elem_of_nil) Hc) as Hd.
  pose proof (ok_src _ Hok o (orig_in i o Hi)) as Hsrc. rewrite Hs in Hsrc. fold (dest o) in Hsrc.
  rewrite Hsrc in Hd. destruct Hd as (st' & -> & Hv & Ecode). exists st'. split; [done|].
  split; try done; [|by apply (upd_dom st [] cur i)|constructor|by intros k ?%not_elem_of_nil].
  unfold sem. rewrite Ecode, exec_code_snoc. apply holding_move; try done; [apply Hr| |by destruct (source_ o)].
  intros k Hk. destruct (r_dom _ _ _ Hr k _ Hk) as [ok Hok'].
  destruct (Hcst k ok _ Hok' Hk) as [E1 E2]. rewrite <- E2 in E1.
  by rewrite (dest_not_constant i o Hi) in E1.
Qed.

Lemma third_pass st cur :
  ready st [] cur -> constants_left (length orig) cur ->
  match for_moves (fun m => negb (IsEliminated m)) (fun i st => do_move st i) (length orig) 0 st with
  | Done st' => exists cur', ready st' [] cur' /\ forall k, cur' k = None
  | Fatal => both_banks orig
  | Stuck => False
  end.
Proof.
  intros Hr Hleft.
  pose proof (for_moves_spec (fun i st => exists cur, ready st [] cur /\
    constants_left (length orig) cur /\ forall k, (k < i)%nat -> cur k = None)
    (fun m => negb (IsEliminated m)) (fun i st => do_move st i) (length orig)) as H.
  match type of H with ?A -> _ => assert A as Hstep end; [|specialize (H Hstep 0%nat st)].
  { clear st cur Hr Hleft H. intros i st (cur & Hr & Hleft & Hdone) [o Hi]%lookup_lt_is_Some_2.
    rewrite (ready_lookup _ _ _ _ _ Hr Hi), bool_decide_false by apply not_elem_of_nil.
    cbn [mbind Outcome_bind]. destruct (cur i) as [l|] eqn:Hc; cbn [mk].
    - pose proof (cur_valid _ _ _ _ _ (r_hold _ _ _ Hr) Hi Hc). unfold IsEliminated. cbn [source_].
      replace (IsInvalid l) with false by (by destruct l). cbn [negb].
      destruct (constant_step st cur i o l Hr Hleft Hi Hc) as (st' & -> & Hr').
      exists (upd cur i None). split; [done|]. unfold upd. split.
      + intros k ok Hk Hok' Hcst. case_decide; [done|]. by apply (Hleft k ok).
      + intros k Hk. case_decide; [done|]. apply Hdone. lia.
    - exists cur. split; [done|]. split; [done|]. intros k Hk. destruct (decide (k = i)) as [->|]; [done|].
      apply Hdone. lia. }
  specialize (H ltac:(exists cur; split; [done|split; [done|lia]]) ltac:(lia)).
  destruct (for_moves _ _ _ _ _); [|done..]. destruct H as (cur' & Hr' & _ & Hd). exists cur'.
  split; [done|]. intros k. destruct (cur' k) eqn:E; [|done]. destruct (r_dom _ _ _ Hr' k _ E) as [ok Hk].
  rewrite Hd in E; [done|]. by eapply lookup_lt_Some.
Qed.

Definition sources (i : nat) : option Location := source_ <$> orig !! i.

Lemma initial : between {| moves_ := orig; code := [] |} sources.
Proof.
  assert (forall i o l, orig !! i = Some o -> sources i = Some l -> l = source_ o) as Hsrc.
  { unfold sources. intros i o l -> [= <-]. done. }
  split; [split|].
  - split; [done|]. intros i o Hi. unfold sources. rewrite bool_decide_false by apply not_elem_of_nil.
    rewrite Hi. simpl. by destruct o.
  - split.
    + intros i o l Hi ->%(Hsrc i o); [|done]. destruct (IsConstant (source_ o)) eqn:E; [done|].
      split; [|done]. exists o. split; [by eapply orig_in|by right].
    + by intros i o l Hi ->%(Hsrc i o).
    + unfold sources. intros i o ->. done.
    + done.
    + intros i j oi oj l Hi Hj E1%(Hsrc i oi) E2%(Hsrc j oj) Hl; [|done..].
      apply (ok_sizes _ Hok); eauto using orig_in; congruence.
  - unfold sources. intros k l H. destruct (orig !! k); [by eexists|done].
  - constructor.
  - by intros k ?%not_elem_of_nil.
  - done.
  - intros i o l Hi ->%(Hsrc i o) Hl _; [|done].
    pose proof (ok_src _ Hok o (orig_in i o Hi)) as H. by rewrite Hl in H.
Qed.

(** What the three passes leave in the store. *)
Lemma passes_spec :
  let n := length orig in
  match (st ← for_moves slot_to_slot (perform (S n)) n 0 {| moves_ := orig; code := [] |};
         st ← for_moves not_constant (perform (S n)) n 0 st;
         st ← for_moves (fun m => negb (IsEliminated m)) (fun i st => do_move st i) n 0 st;
         Done (code st)) with
  | Done c =>
      (forall o, o ∈ orig -> wrap_u (move_bits o) (exec_code c init (dest o)) = wanted o) /\
      (forall l, l <> RegisterLocation TMP -> (forall o, o ∈ orig -> l <> dest o) ->
         exec_code c init l = init l)
  | Fatal => both_banks orig
  | Stuck => False
  end.
Proof.
  cbv zeta. pose proof (first_pass _ _ initial) as H1.
  destruct (for_moves slot_to_slot _ _ _ _) as [st1| |]; cbn [mbind Outcome_bind]; [|done..].
  destruct H1 as [cur1 H1]. pose proof (second_pass _ _ H1) as H2.
  destruct (for_moves not_constant _ _ _ _) as [st2| |]; cbn [mbind Outcome_bind]; [|done..].
  destruct H2 as (cur2 & [H2 _] & Hleft). pose proof (third_pass _ _ H2 Hleft) as H3.
  destruct (for_moves _ _ _ _ _) as [st3| |]; cbn [mbind Outcome_bind]; [|done..].
  destruct H3 as (cur3 & H3 & Hnone). pose proof (r_hold _ _ _ H3) as Hh. split; [|apply Hh].
  intros o [i Hi]%list_elem_of_lookup. by apply (h_done _ _ Hh i).
Qed.

End Resolve.

(** ** The whole resolver *)

Lemma place_incl ms ms' l : ms ⊆ ms' -> place ms l -> place ms' l.
Proof. intros Hs (m & Hm & H). exists m. split; [by apply Hs|done]. Qed.

Lemma sublist_incl (ms ms' : list MoveOperands) : sublist ms ms' -> ms ⊆ ms'.
Proof. intros H m Hm. eapply elem_of_submseteq; [exact Hm|by apply sublist_submseteq]. Qed.

Lemma destination_inj ms m m' :
  moves_ok ms -> m ∈ ms -> m' ∈ ms -> destination_ m = destination_ m' -> m = m'.
Proof.
  intros Hok [i Hi]%list_elem_of_lookup [j Hj]%list_elem_of_lookup E.
  pose proof (dest_inj ms Hok i j m m' Hi Hj E) as ->. congruence.
Qed.

Lemma sublist_moves_ok ms ms' : sublist ms ms' -> moves_ok ms' -> moves_ok ms.
Proof.
  intros Hs [H1 H2 H3 H4 H5 H6]. pose proof (sublist_incl _ _ Hs) as Hincl.
  assert (forall m, m ∈ ms -> m ∈ ms') as Hin by exact Hincl.
  split; [intros m Hm; by apply H1, Hin|intros m Hm; by apply H2, Hin| | | |by auto].
  - apply (sublist_NoDup _ _ H3). by apply fmap_sublist.
  - intros l l' Hl Hl'. apply H4; by apply (place_incl ms ms').
  - intros Hl. by apply H5, (place_incl ms ms').
Qed.

Lemma initial_moves ms m :
  moves_ok ms -> m ∈ ms -> m ∈ BuildInitialMoveList ms \/ source_ m = destination_ m.
Proof.
  intros Hok Hm. destruct (decide (source_ m = destination_ m)) as [|Hne]; [by right|left].
  apply list_elem_of_filter. split; [|done]. apply negb_true_iff. unfold IsRedundant, IsEliminated, Equals.
  pose proof (ok_dst _ Hok m Hm). pose proof (ok_src _ Hok m Hm) as Hs.
  rewrite bool_decide_false by done.
  destruct (IsConstant (source_ m)) eqn:E; [by destruct (source_ m), (destination_ m)|].
  by destruct (source_ m), (destination_ m).
Qed.

Lemma initial_not_redundant ms m : m ∈ BuildInitialMoveList ms -> source_ m <> destination_ m.
Proof.
  intros [H _]%list_elem_of_filter E. apply negb_true_iff in H. unfold IsRedundant, Equals in H.
  rewrite E, bool_decide_true in H by done. by rewrite orb_true_r in H.
Qed.

(** *** Checking a set of moves *)

Definition places (ms : list MoveOperands) : list Location :=
  (destination_ <$> ms) ++ filter (fun l => IsConstant l = false) (source_ <$> ms).

Definition fits_check (is64 : bool) (l : Location) : bool :=
  match l with
  | RegisterLocation _ | FpuRegisterLocation _ => true
  | StackSlot _ => negb is64
  | DoubleStackSlot _ => is64
  | _ => false
  end.

Definition moves_check (ms : list MoveOperands) : bool :=
  forallb (fun m => fits_check (Is64BitMove m) (destination_ m)
    && (if IsConstant (source_ m) then can_move (source_ m) (destination_ m)
        else fits_check (Is64BitMove m) (source_ m))) ms
  && bool_decide (NoDup (destination_ <$> ms))
  && forallb (fun l => forallb (fun l' => implb (OverlapsWith l l') (Equals l l')) (places ms)) (places ms)
  && negb (existsb (Equals (RegisterLocation TMP)) (places ms))
  && forallb (fun m => forallb (fun m' =>
       implb (Equals (source_ m) (source_ m') && negb (IsConstant (source_ m)))
         (Bool.eqb (Is64BitMove m) (Is64BitMove m'))) ms) ms.

Lemma place_places ms l : place ms l -> In l (places ms).
Proof.
  intros (m & Hm & H). apply list_elem_of_In, elem_of_app. destruct H as [->|[-> Hc]]; [left|right].
  - apply list_elem_of_fmap. by exists m.
  - apply list_elem_of_filter. split; [done|]. apply list_elem_of_fmap. by exists m.
Qed.

Lemma fits_check_fits b l : fits_check b l = true -> fits b l.
Proof. by destruct l, b. Qed.

Lemma moves_check_ok ms : moves_check ms = true -> moves_ok ms.
Proof.
  unfold moves_check. rewrite !andb_true_iff, negb_true_iff, !forallb_forall.
  intros ((((Hfit & Hnd) & Hov) & Htmp) & Hsz). split.
  - intros m Hm%list_elem_of_In. by apply Hfit, andb_true_iff in Hm as [?%fits_check_fits _].
  - intros m Hm%list_elem_of_In. apply Hfit, andb_true_iff in Hm as [_ H].
    destruct (IsConstant (source_ m)); [done|by apply fits_check_fits].
  - by apply bool_decide_eq_true in Hnd.
  - intros l l' Hl%place_places%Hov Hl'%place_places Ho. rewrite forallb_forall in Hl.
    apply Hl in Hl'. rewrite Ho in Hl'. by apply bool_decide_eq_true in Hl'.
  - intros Ht%place_places. assert (existsb (Equals (RegisterLocation TMP)) (places ms) = true); [|congruence].
    apply existsb_exists. eexists. split; [exact Ht|]. by apply bool_decide_eq_true.
  - intros m m' Hm%list_elem_of_In%Hsz Hm'%list_elem_of_In Es Hc. rewrite forallb_forall in Hm.
    apply Hm in Hm'. rewrite Hc in Hm'. unfold Equals in Hm'. rewrite bool_decide_true in Hm' by done.
    by apply eqb_prop.
Qed.

(** C3. [ParallelMoveResolverWithSwap::EmitNativeCode] performs the moves of a parallel
    move at once.  For every set of moves the register allocator can hand over (sizes
    that fit, distinct destinations, no partial overlaps, [TMP] unused) the resolver
    terminates; the code it emits, run from any store, leaves in the destination of each
    move the value its source had before the first instruction, and changes nothing but
    the destinations and [TMP].  It gives up with [LOG(FATAL)] only when the moves use
    both core and floating point registers. *)
Theorem parallel_move_performed (parallel_move : list MoveOperands) :
  moves_ok parallel_move ->
  match EmitNativeCode parallel_move with
  | Done emitted => forall s,
      (forall m, m ∈ parallel_move ->
         wrap_u (move_bits m) (exec_code emitted s (destination_ m)) =
         wrap_u (move_bits m) (value_of s (source_ m))) /\
      (forall l, l <> RegisterLocation TMP -> l ∉ (destination_ <$> parallel_move) ->
         exec_code emitted s l = s l)
  | Fatal => both_banks parallel_move
  | Stuck => False
  end.
Proof.
  intros Hok. set (ms := BuildInitialMoveList parallel_move).
  assert (sublist ms parallel_move) as Hsub by apply sublist_filter.
  assert (ms ⊆ parallel_move) as Hincl by (by apply sublist_incl).
  pose proof (fun s => passes_spec ms s (sublist_moves_ok _ _ Hsub Hok)) as H.
  unfold EmitNativeCode. fold ms. cbv zeta in H.
  destruct (_ ≫= _) as [emitted| |];
    [|destruct (H (fun _ => 0)) as [[r1 ?] [r2 ?]]; split; eauto using place_incl
     |by destruct (H (fun _ => 0))].
  intros s. destruct (H s) as [Hmove Hframe]. split.
  - intros m Hm. destruct (initial_moves _ m Hok Hm) as [Hin|E]; [by apply Hmove|].
    pose proof (ok_dst _ Hok m Hm) as Hd. rewrite E, (value_of_place s) by (by eapply fits_valid).
    f_equal. apply Hframe.
    + intros Et. apply (ok_tmp _ Hok). exists m. split; [done|]. by left.
    + intros o Ho Ed. apply (initial_not_redundant _ _ Ho).
      by rewrite <- (destination_inj _ m o Hok Hm (Hincl _ Ho) Ed).
  - intros l Hl Hnot. apply Hframe; [done|]. intros o Ho ->. apply Hnot.
    apply list_elem_of_fmap. exists o. split; [done|]. by apply Hincl.
Qed.

(** Three registers rotated, one of them also spilled, and a constant. *)
Definition rotation : list MoveOperands :=
  [{| source_ := RegisterLocation 0; destination_ := RegisterLocation 1; Is64BitMove := true |};
   {| source_ := RegisterLocation 1; destination_ := RegisterLocation 2; Is64BitMove := true |};
   {| source_ := RegisterLocation 2; destination_ := RegisterLocation 0; Is64BitMove := true |};
   {| source_ := RegisterLocation 2; destination_ := DoubleStackSlot 16; Is64BitMove := true |};
   {| source_ := ConstantLocation (IntConstant 7); destination_ := StackSlot 8; Is64BitMove := false |}].

Lemma parallel_move_performed_witness :
  moves_ok rotation /\ exists emitted, EmitNativeCode rotation = Done emitted /\
  forall s, wrap_u 64 (exec_code emitted s (RegisterLocation 2)) = wrap_u 64 (s (RegisterLocation 1)).
Proof.
  assert (moves_ok rotation) as Hok by (apply moves_check_ok; vm_compute; reflexivity).
  split; [exact Hok|]. pose proof (parallel_move_performed rotation Hok) as H. revert H.
  destruct (EmitNativeCode rotation) as [emitted| |] eqn:E; [|discriminate E..].
  intros H. exists emitted. split; [reflexivity|]. intros s.
  apply (proj1 (H s) {| source_ := RegisterLocation 1; destination_ := RegisterLocation 2;
                        Is64BitMove := true |}).
  right. left.
Defined.

(** A cycle through both kinds of registers and slots of both sizes, with sizes that fit. *)
Definition mixed_cycle : list MoveOperands :=
  [{| source_ := DoubleStackSlot 0; destination_ := RegisterLocation 0; Is64BitMove := true |};
   {| source_ := RegisterLocation 0; destination_ := StackSlot 8; Is64BitMove := false |};
   {| source_ := StackSlot 8; destination_ := FpuRegisterLocation 0; Is64BitMove := false |};
   {| source_ := FpuRegisterLocation 0; destination_ := DoubleStackSlot 0; Is64BitMove := true |}].

(** The resolver asks for a swap of a core and a floating point register there, which
    [EmitSwap] does not implement. *)
Lemma mixed_cycle_fatal : moves_ok mixed_cycle /\ EmitNativeCode mixed_cycle = Fatal.
Proof. split; [apply moves_check_ok; vm_compute; reflexivity|vm_compute; reflexivity]. Qed.
