(* ===== verification/Monitor.v ===== *)
(** * Monitors: locking, waiting and identity hash codes of one object

    Models [runtime/monitor.cc] with the lock word of one object, the monitors inflated
    for it and the threads that use it, together with [Object::IdentityHashCode] and
    [Thread::Interrupt].  A thread is where it stands in the code; a step runs one thread
    to its next access to something another thread can change: a load, a store or a
    compare-and-swap of the lock word, or a section that holds [monitor_lock_] or a
    [wait_mutex_].  A label says which thread steps and what the environment chooses. *)
From stdpp Require Import gmap.
From S2P Require Import Prelude LockWord.

(** ** State *)

(** [Monitor]; threads are named by their ids and [wait_set_] is the list linked through
    [Thread::wait_next_]. *)
Record Monitor := {
  num_waiters_ : Z;
  owner_ : option Z;
  lock_count_ : Z;
  wait_set_ : list Z;
  hash_code_ : Z
}.

Inductive ThreadState := kTimedWaiting | kSleeping | kWaiting.

#[export] Instance ThreadState_eq_dec : EqDecision ThreadState.
Proof. solve_decision. Defined.

Record WaitArgs := { ms : Z; ns : Z; interruptShouldThrow : bool; why : ThreadState }.

(** Where [Inflate] and [InflateThinLocked] return to. *)
Inductive InflateReturn :=
| ToEnter (trylock : bool) (contention_count : Z)
| ToWait (args : WaitArgs)
| ToHash.

(** Where [Lock] returns to: [MonitorEnter], or [Wait] with what it has to restore. *)
Inductive LockReturn :=
| AfterEnter
| AfterWait (prev_lock_count : Z) (thrown : bool).

(** Where a thread stands. *)
Inductive Pc :=
| Running
| EnterRead (trylock : bool) (contention_count : Z)
| EnterCas (trylock : bool) (contention_count lock_word thin_locked : Z)
| EnterStore (trylock : bool) (contention_count lock_word thin_locked : Z)
| TryLockFat (m : Z)
| LockFat (m : Z) (again : bool) (k : LockReturn)
| LockBlocked (m : Z) (k : LockReturn)
| LockSleep (m : Z) (k : LockReturn)
| LockAwake (m : Z) (k : LockReturn)
| ExitRead
| ExitStore (lock_word new_lw : Z)
| UnlockFat (m : Z)
| WaitRead (args : WaitArgs)
| WaitFat (m : Z) (args : WaitArgs)
| WaitSleep (m prev_lock_count : Z) (throws timed : bool)
| WaitAwake (m prev_lock_count : Z) (throws was_interrupted : bool)
| WaitClear (m prev_lock_count : Z) (throws was_interrupted : bool)
| WaitInterrupted (m prev_lock_count : Z)
| WaitThrow (m prev_lock_count : Z)
| WaitRestore (m prev_lock_count : Z)
| NotifyRead (notify_all : bool)
| NotifyFat (m : Z) (notify_all : bool)
| HashRead
| HashCas (lw hash_word h : Z)
| HashFat (m : Z)
| InflateSuspend (owner : Z) (hash_code : Z) (k : InflateReturn)
| InflateSuspended (owner : Z) (hash_code : Z) (k : InflateReturn)
| Inflate (owner : option Z) (hash_code : Z) (resume : option Z) (k : InflateReturn)
| Install (m : Z) (resume : option Z) (k : InflateReturn)
| InstallCas (m lw : Z) (resume : option Z) (k : InflateReturn)
| InflateCheck (resume : option Z) (k : InflateReturn)
| InflateResume (owner : Z) (k : InflateReturn).

(** [signalled] tells whether the condition variable the thread sleeps on was signalled. *)
Record Thread := {
  pc : Pc;
  interrupted_ : bool;
  wait_monitor_ : option Z;
  signalled : bool
}.

Record Sys := {
  lock_word : Z;
  monitors : gmap Z Monitor;
  threads : gmap Z Thread;
  hash_code_seed : Z
}.

(** What a call returns, seen by the program. *)
Inductive Event :=
| Entered (t : Z)
| TryFailed (t : Z)
| Exited (t : Z)
| ExitFailed (t : Z)
| WaitBegan (t : Z)
| WaitRefused (t : Z)
| WaitBadTimeout (t : Z)
| WaitEnded (t : Z) (thrown : bool)
| Notified (t : Z)
| NotifyRefused (t : Z)
| Hashed (t h : Z).

(** [Abort] is a failed [CHECK] or [LOG(FATAL)], [Undefined] a signed overflow;
    [Blocked] a step that cannot be taken now. *)
Inductive Outcome := Next (s : Sys) (e : option Event) | Blocked | Abort | Undefined.

Inductive Call :=
| CallEnter (trylock : bool)
| CallExit
| CallWait (args : WaitArgs)
| CallNotify (notify_all : bool)
| CallHash.

(** What the environment chooses: a call, a compare-and-swap that fails or a wake-up
    without reason, the id of a new monitor, the contender a signal wakes, a timeout,
    a suspension that is given up. *)
Inductive Choice :=
| Go
| DoCall (c : Call)
| Spurious
| NewMonitor (m : Z)
| Wake (u : Z)
| TimeOut
| SuspendFails.

Inductive Label :=
| Run (t : Z) (c : Choice)
| Interrupt (t : Z)
| MarkBit (b : Z)
| ReadBarrierBit (b : Z)
| DeflateMonitors.

(** *** Updates *)

Definition set_lock_word (s : Sys) (w : Z) : Sys :=
  {| lock_word := w; monitors := monitors s; threads := threads s;
     hash_code_seed := hash_code_seed s |}.
Definition set_monitors (s : Sys) (ms : gmap Z Monitor) : Sys :=
  {| lock_word := lock_word s; monitors := ms; threads := threads s;
     hash_code_seed := hash_code_seed s |}.
Definition set_threads (s : Sys) (ts : gmap Z Thread) : Sys :=
  {| lock_word := lock_word s; monitors := monitors s; threads := ts;
     hash_code_seed := hash_code_seed s |}.
Definition set_seed (s : Sys) (seed : Z) : Sys :=
  {| lock_word := lock_word s; monitors := monitors s; threads := threads s;
     hash_code_seed := seed |}.
Definition put_monitor (s : Sys) (m : Z) (M : Monitor) : Sys :=
  set_monitors s (<[m := M]> (monitors s)).
Definition ReleaseMonitor (s : Sys) (m : Z) : Sys := set_monitors s (delete m (monitors s)).

Definition with_pc (th : Thread) (p : Pc) : Thread :=
  {| pc := p; interrupted_ := interrupted_ th; wait_monitor_ := wait_monitor_ th;
     signalled := signalled th |}.
Definition with_interrupted (th : Thread) (b : bool) : Thread :=
  {| pc := pc th; interrupted_ := b; wait_monitor_ := wait_monitor_ th;
     signalled := signalled th |}.
Definition SetWaitMonitor (th : Thread) (m : option Z) : Thread :=
  {| pc := pc th; interrupted_ := interrupted_ th; wait_monitor_ := m;
     signalled := signalled th |}.
Definition with_signalled (th : Thread) (b : bool) : Thread :=
  {| pc := pc th; interrupted_ := interrupted_ th; wait_monitor_ := wait_monitor_ th;
     signalled := b |}.

Definition update_thread (f : Thread -> Thread) (t : Z) (s : Sys) : Sys :=
  set_threads s (alter f t (threads s)).
Definition goto (s : Sys) (t : Z) (p : Pc) : Sys := update_thread (fun th => with_pc th p) t s.

Definition with_owner (M : Monitor) (o : option Z) (count : Z) : Monitor :=
  {| num_waiters_ := num_waiters_ M; owner_ := o; lock_count_ := count;
     wait_set_ := wait_set_ M; hash_code_ := hash_code_ M |}.
Definition with_waiters (M : Monitor) (n : Z) : Monitor :=
  {| num_waiters_ := n; owner_ := owner_ M; lock_count_ := lock_count_ M;
     wait_set_ := wait_set_ M; hash_code_ := hash_code_ M |}.
Definition with_wait_set (M : Monitor) (l : list Z) : Monitor :=
  {| num_waiters_ := num_waiters_ M; owner_ := owner_ M; lock_count_ := lock_count_ M;
     wait_set_ := l; hash_code_ := hash_code_ M |}.
Definition with_hash (M : Monitor) (h : Z) : Monitor :=
  {| num_waiters_ := num_waiters_ M; owner_ := owner_ M; lock_count_ := lock_count_ M;
     wait_set_ := wait_set_ M; hash_code_ := h |}.

(** ** Suspension *)

(** The thread that the code at [p] keeps suspended. *)
Definition holds_suspended (p : Pc) : option Z :=
  match p with
  | InflateSuspended o _ _ | InflateResume o _ => Some o
  | Inflate _ _ resume _ | Install _ resume _ | InstallCas _ _ resume _ | InflateCheck resume _ => resume
  | _ => None
  end.

Definition suspended (s : Sys) (o : Z) : bool :=
  existsb (fun kv => bool_decide (holds_suspended (pc kv.2) = Some o)) (map_to_list (threads s)).

(** The places where a thread can be suspended: Java code, and the scopes of
    [ScopedThreadSuspension] and of allocations. *)
Definition safepoint (p : Pc) : bool :=
  match p with
  | Running | LockBlocked _ _ | LockSleep _ _ | LockAwake _ _
  | WaitSleep _ _ _ _ | WaitAwake _ _ _ _ | WaitThrow _ _ | InflateSuspend _ _ _ => true
  | _ => false
  end.

(** ** Identity hash codes *)

Definition next_seed (seed : Z) : Z := u32 (seed * 1103515245 + 12345).

(** [GenerateIdentityHashCode]: the code and the next seed.  The seed after one whose low
    bits are all zero has other low bits, so the loop runs at most twice. *)
Definition GenerateIdentityHashCode (seed : Z) : Z * Z :=
  if seed &&& kHashMask =? 0
  then (next_seed seed &&& kHashMask, next_seed (next_seed seed))
  else (seed &&& kHashMask, next_seed seed).

(** ** Wait sets and signals *)

Definition AppendToWaitSet (M : Monitor) (t : Z) : Monitor := with_wait_set M (wait_set_ M ++ [t]).

Fixpoint remove_first (t : Z) (l : list Z) : list Z :=
  match l with
  | [] => []
  | u :: l => if u =? t then l else u :: remove_first t l
  end.
Definition RemoveFromWaitSet (M : Monitor) (t : Z) : Monitor :=
  with_wait_set M (remove_first t (wait_set_ M)).

(** [wait_cond_->Signal] wakes the thread when it sleeps. *)
Definition signal_waiter (th : Thread) : Thread :=
  match pc th with WaitSleep _ _ _ _ => with_signalled th true | _ => th end.

(** [Thread::NotifyLocked]. *)
Definition NotifyLocked (th : Thread) : Thread :=
  match wait_monitor_ th with Some _ => signal_waiter th | None => th end.

Definition Thread_Interrupt (th : Thread) : Thread :=
  if interrupted_ th then th else NotifyLocked (with_interrupted th true).

Definition asleep_on (m : Z) (th : Thread) : bool :=
  match pc th with LockSleep m' _ => (m' =? m) && negb (signalled th) | _ => false end.

(** [monitor_contenders_.Signal]: some thread that sleeps on it wakes up, if there is one. *)
Definition signal_contender (c : Choice) (m : Z) (s : Sys) : option Sys :=
  match c with
  | Wake u =>
      match threads s !! u with
      | Some th => if asleep_on m th then Some (update_thread (fun th => with_signalled th true) u s)
                   else None
      | None => None
      end
  | _ => if existsb (fun kv => asleep_on m kv.2) (map_to_list (threads s)) then None else Some s
  end.

(** The loop of [Notify], down the wait set: the threads left in it and the state. *)
Fixpoint notify_first (l : list Z) (s : Sys) : list Z * Sys :=
  match l with
  | [] => ([], s)
  | u :: l =>
      match threads s !! u with
      | Some th =>
          match wait_monitor_ th with
          | Some _ => (l, update_thread signal_waiter u s)
          | None => notify_first l s
          end
      | None => notify_first l s
      end
  end.
(** The loop of [NotifyAll]. *)
Fixpoint notify_each (l : list Z) (s : Sys) : Sys :=
  match l with [] => s | u :: l => notify_each l (update_thread NotifyLocked u s) end.

(** ** Locking a monitor *)

Inductive LockResult := Locked (M : Monitor) | Contended | LockCheckFails | LockOverflows.

Definition TryLockLocked (self : Z) (M : Monitor) : LockResult :=
  match owner_ M with
  | None => if lock_count_ M =? 0 then Locked (with_owner M (Some self) 0) else LockCheckFails
  | Some o =>
      if o =? self then
        if lock_count_ M =? 2 ^ 31 - 1 then LockOverflows
        else Locked (with_owner M (Some self) (lock_count_ M + 1))
      else Contended
  end.

Definition next (s : Sys) (t : Z) (p : Pc) : Outcome := Next (goto s t p) None.
Definition return_ (s : Sys) (t : Z) (e : Event) : Outcome := Next (goto s t Running) (Some e).

(** The monitor a thread works on; there is none to read once it is released. *)
Definition on_monitor (s : Sys) (m : Z) (f : Monitor -> Outcome) : Outcome :=
  match monitors s !! m with Some M => f M | None => Abort end.

Definition TryLock (t m : Z) (s : Sys) : Outcome :=
  on_monitor s m (fun M =>
    match TryLockLocked t M with
    | Locked M => return_ (put_monitor s m M) t (Entered t)
    | Contended => return_ s t (TryFailed t)
    | LockCheckFails => Abort
    | LockOverflows => Undefined
    end).

(** [Lock], from each place where it takes [monitor_lock_]. *)
Definition Lock_locked (t m : Z) (again : bool) (k : LockReturn) (s : Sys) : Outcome :=
  on_monitor s m (fun M =>
    let M := if again then with_waiters M (num_waiters_ M - 1) else M in
    match TryLockLocked t M with
    | Locked M =>
        let s := put_monitor s m M in
        match k with
        | AfterEnter => return_ s t (Entered t)
        | AfterWait prev thrown => Next (goto s t (WaitRestore m prev)) (Some (WaitEnded t thrown))
        end
    | Contended => next (put_monitor s m (with_waiters M (num_waiters_ M + 1))) t (LockBlocked m k)
    | LockCheckFails => Abort
    | LockOverflows => Undefined
    end).
Definition Lock_blocked (t m : Z) (k : LockReturn) (s : Sys) : Outcome :=
  on_monitor s m (fun M =>
    match owner_ M with
    | Some _ => next (update_thread (fun th => with_signalled th false) t s) t (LockSleep m k)
    | None => next s t (LockAwake m k)
    end).

Definition Unlock (t m : Z) (c : Choice) (s : Sys) : Outcome :=
  on_monitor s m (fun M =>
    if bool_decide (owner_ M = Some t) then
      if lock_count_ M =? 0 then
        match signal_contender c m (put_monitor s m (with_owner M None 0)) with
        | Some s => return_ s t (Exited t)
        | None => Blocked
        end
      else return_ (put_monitor s m (with_owner M (Some t) (lock_count_ M - 1))) t (Exited t)
    else return_ s t (ExitFailed t)).

(** ** Waiting *)

(** [Wait] until it sleeps. *)
Definition Wait_locked (t m : Z) (args : WaitArgs) (c : Choice) (s : Sys) : Outcome :=
  on_monitor s m (fun M =>
    if bool_decide (owner_ M = Some t) then
      let why := if bool_decide (why args = kTimedWaiting) && ((ms args =? 0) && (ns args =? 0))
                 then kWaiting else why args in
      if (ms args <? 0) || (ns args <? 0) || (999999 <? ns args) then return_ s t (WaitBadTimeout t)
      else
        let M' := AppendToWaitSet M t in
        let M' := with_owner (with_waiters M' (num_waiters_ M' + 1)) None 0 in
        let s := update_thread (fun th => with_signalled (SetWaitMonitor th (Some m)) false) t s in
        match signal_contender c m (put_monitor s m M') with
        | None => Blocked
        | Some s =>
            match threads s !! t with
            | None => Blocked
            | Some th =>
                let p := if interrupted_ th
                         then WaitAwake m (lock_count_ M) (interruptShouldThrow args) true
                         else WaitSleep m (lock_count_ M) (interruptShouldThrow args)
                                (negb (bool_decide (why = kWaiting))) in
                Next (goto s t p) (Some (WaitBegan t))
            end
        end
    else return_ s t (WaitRefused t)).

Definition Wait_wakes (c : Choice) (th : Thread) (timed : bool) : bool :=
  signalled th || match c with Spurious => true | TimeOut => timed | _ => false end.

Definition Wait_restore (t m prev_lock_count : Z) (s : Sys) : Outcome :=
  on_monitor s m (fun M =>
    let M := with_owner M (Some t) prev_lock_count in
    let M := RemoveFromWaitSet (with_waiters M (num_waiters_ M - 1)) t in
    next (put_monitor s m M) t Running).

(** ** Notification *)

Definition Notify (t m : Z) (notify_all : bool) (s : Sys) : Outcome :=
  on_monitor s m (fun M =>
    if bool_decide (owner_ M = Some t) then
      let '(l, s) := if notify_all then ([], notify_each (wait_set_ M) s)
                     else notify_first (wait_set_ M) s in
      return_ (put_monitor s m (with_wait_set M l)) t (Notified t)
    else return_ s t (NotifyRefused t)).

Section Steps.
Context (kUseReadBarrier : bool) (max_spins_before_thin_lock_inflation : Z).

Definition state_of (w : Z) : LockState := GetState kUseReadBarrier w.

(** A compare-and-swap of the lock word, weak: it may fail without reason. *)
Definition cas (c : Choice) (s : Sys) (expected new : Z) : option Sys :=
  match c with
  | Spurious => None
  | _ => if lock_word s =? expected then Some (set_lock_word s new) else None
  end.

(** ** Inflation *)

Definition after_inflate (resume : option Z) (k : InflateReturn) : Pc :=
  match resume, k with
  | Some o, _ => InflateResume o k
  | None, ToEnter trylock n => EnterRead trylock n
  | None, ToWait args => WaitRead args
  | None, ToHash => HashRead
  end.

Definition InflateThinLocked (s : Sys) (t w hash_code : Z) (k : InflateReturn) : Outcome :=
  let owner := ThinLockOwner w in
  if owner =? t then next s t (Inflate (Some t) hash_code None k)
  else next s t (InflateSuspend owner hash_code k).

(** The constructor's and [Install]'s check of the owner. *)
Definition owner_checked (s : Sys) (t : Z) (owner : option Z) : bool :=
  match owner with None => true | Some o => (o =? t) || suspended s o end.

Definition CreateMonitor (s : Sys) (t : Z) (c : Choice) (owner : option Z) (hash_code : Z)
    (resume : option Z) (k : InflateReturn) : Outcome :=
  match c with
  | NewMonitor m =>
      if bool_decide (monitors s !! m = None) && (0 <=? m) && (m <=? kMaxMonitorId) then
        if owner_checked s t owner then
          next (put_monitor s m {| num_waiters_ := 0; owner_ := owner; lock_count_ := 0;
                                   wait_set_ := []; hash_code_ := hash_code |})
               t (Install m resume k)
        else Abort
      else Blocked
  | _ => Blocked
  end.

Definition Install_read (s : Sys) (t m : Z) (resume : option Z) (k : InflateReturn) : Outcome :=
  on_monitor s m (fun M =>
    if negb (owner_checked s t (owner_ M)) then Abort
    else
      let w := lock_word s in
      match state_of w with
      | kThinLocked =>
          if bool_decide (owner_ M = Some (ThinLockOwner w)) then
            next (put_monitor s m (with_owner M (owner_ M) (ThinLockCount w)))
                 t (InstallCas m w resume k)
          else Abort
      | kHashCode =>
          if hash_code_ M =? GetHashCode w then next s t (InstallCas m w resume k) else Abort
      | kFatLocked => next (ReleaseMonitor s m) t (after_inflate resume k)
      | _ => Abort
      end).

Definition Install_cas (s : Sys) (t m w : Z) (c : Choice) (resume : option Z) (k : InflateReturn)
    : Outcome :=
  match cas c s w (FromMonitorId m (GCState w)) with
  | Some s => next s t (InflateCheck resume k)
  | None => next (ReleaseMonitor s m) t (after_inflate resume k)
  end.

(** ** The operations on an object, from each place where they load the lock word *)

Definition MonitorEnter (s : Sys) (t : Z) (trylock : bool) (contention_count : Z) : Outcome :=
  let w := lock_word s in
  match state_of w with
  | kUnlocked =>
      match FromThinLockId t 0 (GCState w) with
      | Some thin_locked => next s t (EnterCas trylock contention_count w thin_locked)
      | None => Abort
      end
  | kThinLocked =>
      if ThinLockOwner w =? t then
        let new_count := ThinLockCount w + 1 in
        if new_count <=? kThinLockMaxCount then
          match FromThinLockId t new_count (GCState w) with
          | Some thin_locked => next s t (EnterStore trylock contention_count w thin_locked)
          | None => Abort
          end
        else InflateThinLocked s t w 0 (ToEnter trylock contention_count)
      else if trylock then return_ s t (TryFailed t)
      else
        let contention_count := contention_count + 1 in
        if contention_count <=? max_spins_before_thin_lock_inflation
        then next s t (EnterRead trylock contention_count)
        else InflateThinLocked s t w 0 (ToEnter trylock 0)
  | kFatLocked =>
      let m := FatLockMonitorId w in
      next s t (if trylock then TryLockFat m else LockFat m false AfterEnter)
  | kHashCode => next s t (Inflate None (GetHashCode w) None (ToEnter trylock contention_count))
  | kForwardingAddress => Abort
  end.

Definition MonitorExit (s : Sys) (t : Z) : Outcome :=
  let w := lock_word s in
  match state_of w with
  | kHashCode | kUnlocked => return_ s t (ExitFailed t)
  | kThinLocked =>
      if ThinLockOwner w =? t then
        if ThinLockCount w =? 0 then next s t (ExitStore w (FromDefault (GCState w)))
        else
          match FromThinLockId t (ThinLockCount w - 1) (GCState w) with
          | Some new_lw => next s t (ExitStore w new_lw)
          | None => Abort
          end
      else return_ s t (ExitFailed t)
  | kFatLocked => next s t (UnlockFat (FatLockMonitorId w))
  | kForwardingAddress => Abort
  end.

(** The store of a recursive lock or of an unlock: plain, or by compare-and-swap when
    the collector may change its bits. *)
Definition store_own (c : Choice) (s : Sys) (w new : Z) : option Sys :=
  if kUseReadBarrier then cas c s w new else Some (set_lock_word s new).

Definition Wait (s : Sys) (t : Z) (args : WaitArgs) : Outcome :=
  let w := lock_word s in
  match state_of w with
  | kHashCode | kUnlocked => return_ s t (WaitRefused t)
  | kThinLocked =>
      if ThinLockOwner w =? t then next s t (Inflate (Some t) 0 None (ToWait args))
      else return_ s t (WaitRefused t)
  | kFatLocked => next s t (WaitFat (FatLockMonitorId w) args)
  | kForwardingAddress => Abort
  end.

Definition DoNotify (s : Sys) (t : Z) (notify_all : bool) : Outcome :=
  let w := lock_word s in
  match state_of w with
  | kHashCode | kUnlocked => return_ s t (NotifyRefused t)
  | kThinLocked => return_ s t (if ThinLockOwner w =? t then Notified t else NotifyRefused t)
  | kFatLocked => next s t (NotifyFat (FatLockMonitorId w) notify_all)
  | kForwardingAddress => Abort
  end.

Definition IdentityHashCode (s : Sys) (t : Z) : Outcome :=
  let w := lock_word s in
  match state_of w with
  | kUnlocked =>
      let '(h, seed) := GenerateIdentityHashCode (hash_code_seed s) in
      match FromHashCode h (GCState w) with
      | Some hash_word => next (set_seed s seed) t (HashCas w hash_word h)
      | None => Abort
      end
  | kThinLocked =>
      let '(h, seed) := GenerateIdentityHashCode (hash_code_seed s) in
      InflateThinLocked (set_seed s seed) t w h ToHash
  | kFatLocked => next s t (HashFat (FatLockMonitorId w))
  | kHashCode => return_ s t (Hashed t (GetHashCode w))
  | kForwardingAddress => Abort
  end.

(** [Monitor::GetHashCode]. *)
Definition Monitor_GetHashCode (s : Sys) (t m : Z) (c : Choice) : Outcome :=
  on_monitor s m (fun M =>
    if negb (hash_code_ M =? 0) then return_ s t (Hashed t (hash_code_ M))
    else
      let '(h, seed) := GenerateIdentityHashCode (hash_code_seed s) in
      match c with
      | Spurious => next (set_seed s seed) t (HashFat m)
      | _ => return_ (put_monitor (set_seed s seed) m (with_hash M h)) t (Hashed t h)
      end).

(** ** Deflation *)

(** [Deflate] with all threads suspended, and the release of the monitor. *)
Definition Deflate (s : Sys) : Outcome :=
  let w := lock_word s in
  match state_of w with
  | kFatLocked =>
      let m := FatLockMonitorId w in
      on_monitor s m (fun M =>
        let deflated new_lw :=
          match new_lw with
          | Some new_lw => Next (ReleaseMonitor (set_lock_word s new_lw) m) None
          | None => Abort
          end in
        if 0 <? num_waiters_ M then Next s None
        else
          match owner_ M with
          | Some owner =>
              if negb (hash_code_ M =? 0) then Next s None
              else if kThinLockMaxCount <? u32 (lock_count_ M) then Next s None
              else deflated (FromThinLockId owner (lock_count_ M) (GCState w))
          | None =>
              if negb (hash_code_ M =? 0) then deflated (FromHashCode (hash_code_ M) (GCState w))
              else deflated (Some (FromDefault (GCState w)))
          end)
  | _ => Next s None
  end.

(** ** Steps *)

Definition call_pc (c : Call) : Pc :=
  match c with
  | CallEnter trylock => EnterRead trylock 0
  | CallExit => ExitRead
  | CallWait args => WaitRead args
  | CallNotify notify_all => NotifyRead notify_all
  | CallHash => HashRead
  end.

(** Suspending a thread succeeds once it is at a safepoint. *)
Definition SuspendThreadByThreadId (s : Sys) (t owner hash_code : Z) (c : Choice) (k : InflateReturn)
    : Outcome :=
  match c with
  | SuspendFails => next s t (after_inflate None k)
  | _ =>
      match threads s !! owner with
      | Some th => if safepoint (pc th) then next s t (InflateSuspended owner hash_code k) else Blocked
      | None => next s t (after_inflate None k)
      end
  end.

(** The steps a thread takes without the mutator lock, suspended or not. *)
Definition native_step (t : Z) (c : Choice) (th : Thread) (s : Sys) : Outcome :=
  match pc th with
  | LockBlocked m k => Lock_blocked t m k s
  | LockSleep m k =>
      if signalled th || match c with Spurious => true | _ => false end
      then next s t (LockAwake m k) else Blocked
  | WaitSleep m prev throws timed =>
      if Wait_wakes c th timed then next s t (WaitAwake m prev throws (interrupted_ th)) else Blocked
  | _ => Blocked
  end.

(** The steps a thread takes when it is not suspended. *)
Definition runnable_step (t : Z) (c : Choice) (th : Thread) (s : Sys) : Outcome :=
  match pc th with
  | Running => match c with DoCall call => next s t (call_pc call) | _ => Blocked end
  | EnterRead trylock n => MonitorEnter s t trylock n
  | EnterCas trylock n w new =>
      match cas c s w new with
      | Some s => return_ s t (Entered t)
      | None => next s t (EnterRead trylock n)
      end
  | EnterStore trylock n w new =>
      match store_own c s w new with
      | Some s => return_ s t (Entered t)
      | None => next s t (EnterRead trylock n)
      end
  | TryLockFat m => TryLock t m s
  | LockFat m again k => Lock_locked t m again k s
  | LockAwake m k => next s t (LockFat m true k)
  | ExitRead => MonitorExit s t
  | ExitStore w new =>
      match store_own c s w new with
      | Some s => return_ s t (Exited t)
      | None => next s t ExitRead
      end
  | UnlockFat m => Unlock t m c s
  | WaitRead args => Wait s t args
  | WaitFat m args => Wait_locked t m args c s
  | WaitAwake m prev throws was_interrupted => next s t (WaitClear m prev throws was_interrupted)
  | WaitClear m prev throws was_interrupted =>
      next (update_thread (fun th => SetWaitMonitor th None) t s) t
        (if was_interrupted && throws then WaitInterrupted m prev
         else LockFat m false (AfterWait prev false))
  | WaitInterrupted m prev =>
      next (update_thread (fun th => with_interrupted th false) t s) t (WaitThrow m prev)
  | WaitThrow m prev => next s t (LockFat m false (AfterWait prev true))
  | WaitRestore m prev => Wait_restore t m prev s
  | NotifyRead notify_all => DoNotify s t notify_all
  | NotifyFat m notify_all => Notify t m notify_all s
  | HashRead => IdentityHashCode s t
  | HashCas w new h =>
      match cas c s w new with
      | Some s => return_ s t (Hashed t h)
      | None => next s t HashRead
      end
  | HashFat m => Monitor_GetHashCode s t m c
  | InflateSuspend owner h k => SuspendThreadByThreadId s t owner h c k
  | InflateSuspended owner h k =>
      let w := lock_word s in
      if bool_decide (state_of w = kThinLocked) && (ThinLockOwner w =? owner)
      then next s t (Inflate (Some owner) h (Some owner) k)
      else next s t (InflateResume owner k)
  | Inflate owner h resume k => CreateMonitor s t c owner h resume k
  | Install m resume k => Install_read s t m resume k
  | InstallCas m w resume k => Install_cas s t m w c resume k
  | InflateCheck resume k =>
      if bool_decide (state_of (lock_word s) = kFatLocked) then next s t (after_inflate resume k)
      else Abort
  | InflateResume _ k => next s t (after_inflate None k)
  | LockBlocked _ _ | LockSleep _ _ | WaitSleep _ _ _ _ => Blocked
  end.

Definition native (p : Pc) : bool :=
  match p with LockBlocked _ _ | LockSleep _ _ | WaitSleep _ _ _ _ => true | _ => false end.

Definition bit (b : Z) : bool := (b =? 0) || (b =? 1).

Definition step (l : Label) (s : Sys) : Outcome :=
  match l with
  | Run t c =>
      match threads s !! t with
      | None => Blocked
      | Some th =>
          if native (pc th) then native_step t c th s
          else if suspended s t then Blocked
          else runnable_step t c th s
      end
  | Interrupt t => Next (update_thread Thread_Interrupt t s) None
  | MarkBit b =>
      if kUseReadBarrier && bit b
      then Next (set_lock_word s (SetMarkBitState (lock_word s) b)) None else Blocked
  | ReadBarrierBit b =>
      if kUseReadBarrier && bit b
      then Next (set_lock_word s (SetReadBarrierState (lock_word s) b)) None else Blocked
  | DeflateMonitors =>
      if forallb (fun kv => safepoint (pc kv.2)) (map_to_list (threads s)) then Deflate s else Blocked
  end.

(** Runs, with what the calls returned. *)
Inductive run : Sys -> list Event -> Sys -> Prop :=
| run_done s : run s [] s
| run_step l s s' e es s'' :
    step l s = Next s' e -> run s' es s'' ->
    run s (match e with Some e => e :: es | None => es end) s''.

(** An object nobody has locked, and threads that run Java code. *)
Definition fresh_thread : Thread :=
  {| pc := Running; interrupted_ := false; wait_monitor_ := None; signalled := false |}.
Definition initial (ids : list Z) (seed : Z) : Sys :=
  {| lock_word := Default; monitors := ∅;
     threads := list_to_map ((fun t => (t, fresh_thread)) <$> ids); hash_code_seed := seed |}.

(** The same runs as a function, for concrete schedules. *)
Fixpoint run_schedule (ls : list Label) (s : Sys) : option (list Event * Sys) :=
  match ls with
  | [] => Some ([], s)
  | l :: ls =>
      match step l s with
      | Next s' e =>
          '(es, s'') ← run_schedule ls s';
          Some (match e with Some e => e :: es | None => es end, s'')
      | _ => None
      end
  end.

End Steps.
