(* ===== verification/MonitorInvariant.v ===== *)
(** * The invariant of the monitors of an object

    Which lock word, monitors and positions of threads a run can reach: a lock word is
    replaced only by the thread it belongs to, or while that thread is suspended, and a
    monitor is released only when no thread refers to it. *)
From stdpp Require Import gmap.
From S2P Require Import Prelude LockWord Monitor.

(** ** Lock words *)

(** What a lock word says. *)
Inductive View := VUnlocked | VThin (t c : Z) | VFat (m : Z) | VHash (h : Z) | VForward.

Section Invariant.
Context (rb : bool).

Definition view (w : Z) : View :=
  match state_of rb w with
  | kUnlocked => VUnlocked
  | kThinLocked => VThin (ThinLockOwner w) (ThinLockCount w)
  | kFatLocked => VFat (FatLockMonitorId w)
  | kHashCode => VHash (GetHashCode w)
  | kForwardingAddress => VForward
  end.

Definition word_ok (w : Z) : Prop :=
  in_u 32 w /\ (rb = false -> GCState w = 0) /\ view w <> VForward.

Lemma word_ok_fields w :
  word_ok w -> exists st gc p, w = compose st gc p /\ 0 <= st < 3 /\ 0 <= gc < 4 /\ 0 <= p < 2 ^ 28 /\
    (rb = false -> gc = 0).
Proof.
  intros (Hw & Hgc & Hv). destruct (word_fields w Hw) as (st & gc & p & -> & Hst & Hg & Hp).
  destruct (compose_fields st gc p Hst Hg Hp) as (_ & _ & _ & _ & Egc & _). rewrite Egc in Hgc.
  exists st, gc, p. split; [done|]. split; [|done]. split; [lia|].
  assert (st <> 3); [|lia]. intros ->. apply Hv. unfold view, state_of.
  by rewrite compose_GetState by (intros; lia).
Qed.

Lemma view_compose st gc p :
  0 <= st < 3 -> 0 <= gc < 4 -> 0 <= p < 2 ^ 28 -> (rb = false -> gc = 0) ->
  word_ok (compose st gc p) /\ GCState (compose st gc p) = gc /\
  view (compose st gc p) =
    (if st =? 0 then if p =? 0 then VUnlocked else VThin (p mod 2 ^ 16) (p / 2 ^ 16)
     else if st =? 2 then VHash p else VFat p).
Proof.
  intros Hst Hg Hp Hrb.
  destruct (compose_fields st gc p ltac:(lia) Hg Hp) as (E1 & E2 & E3 & E4 & E5 & _).
  assert (view (compose st gc p) =
    (if st =? 0 then if p =? 0 then VUnlocked else VThin (p mod 2 ^ 16) (p / 2 ^ 16)
     else if st =? 2 then VHash p else VFat p)) as Ev.
  { unfold view, state_of. rewrite compose_GetState by (lia || auto).
    rewrite E1, E2, E3, E4. destruct (Z.eqb_spec st 0), (Z.eqb_spec p 0), (Z.eqb_spec st 2), (Z.eqb_spec st 3);
      simpl; lia || done. }
  split; [|by split]. split; [apply compose_range; lia|]. split; [by rewrite E5|].
  rewrite Ev. by repeat case_match.
Qed.

Lemma gc_range w : word_ok w -> 0 <= GCState w < 4 /\ (rb = false -> GCState w = 0).
Proof.
  intros (st & gc & p & -> & Hst & Hg & Hp & Hrb)%word_ok_fields.
  by destruct (view_compose st gc p Hst Hg Hp Hrb) as (_ & -> & _).
Qed.

Lemma thin_word w t c :
  word_ok w -> 1 <= t <= kThinLockMaxOwner -> 0 <= c <= kThinLockMaxCount ->
  exists new, FromThinLockId t c (GCState w) = Some new /\ word_ok new /\ view new = VThin t c.
Proof.
  intros [Hg Hrb]%gc_range Ht Hc. change kThinLockMaxOwner with 65535 in *.
  change kThinLockMaxCount with 4095 in *.
  rewrite FromThinLockId_compose by lia. change kThinLockMaxOwner with 65535.
  change kThinLockMaxCount with 4095. rewrite !(proj2 (Z.leb_le _ _)) by lia.
  destruct (view_compose 0 (GCState w) (t + c * 2 ^ 16)) as (Hok & _ & Hv); [lia|lia|pows; lia|done|].
  eexists. split; [reflexivity|]. split; [done|]. rewrite Hv. simpl.
  rewrite (proj2 (Z.eqb_neq _ _)) by (pows; lia). f_equal; pows; zdiv.
Qed.

Lemma hash_word w h :
  word_ok w -> 0 <= h <= kMaxHash ->
  exists new, FromHashCode h (GCState w) = Some new /\ word_ok new /\ view new = VHash h.
Proof.
  intros [Hg Hrb]%gc_range Hh. change kMaxHash with 268435455 in *.
  rewrite FromHashCode_compose by lia. change kMaxHash with 268435455.
  rewrite (proj2 (Z.leb_le _ _)) by lia.
  destruct (view_compose 2 (GCState w) h) as (Hok & _ & Hv); [lia|lia|pows; lia|done|]. eauto.
Qed.

Lemma fat_word w m :
  word_ok w -> 0 <= m <= kMaxMonitorId ->
  word_ok (FromMonitorId m (GCState w)) /\ view (FromMonitorId m (GCState w)) = VFat m.
Proof.
  intros [Hg Hrb]%gc_range Hm. rewrite FromMonitorId_compose by lia.
  change kMaxMonitorId with 268435455 in *.
  by destruct (view_compose 1 (GCState w) m) as (Hok & _ & Hv); [lia|lia|pows; lia|done|].
Qed.

Lemma default_word w :
  word_ok w -> word_ok (FromDefault (GCState w)) /\ view (FromDefault (GCState w)) = VUnlocked.
Proof.
  intros [Hg Hrb]%gc_range. rewrite FromDefault_compose by lia.
  by destruct (view_compose 0 (GCState w) 0) as (Hok & _ & Hv); [lia|lia|pows; lia|done|].
Qed.

Lemma thin_ranges w t c :
  word_ok w -> view w = VThin t c -> 0 <= t <= kThinLockMaxOwner /\ 0 <= c <= kThinLockMaxCount.
Proof.
  intros (st & gc & p & -> & Hst & Hg & Hp & Hrb)%word_ok_fields.
  destruct (view_compose st gc p Hst Hg Hp Hrb) as (_ & _ & ->).
  change kThinLockMaxOwner with 65535. change kThinLockMaxCount with 4095.
  repeat case_match; try done. intros [= <- <-]. pows. zdiv.
Qed.

(** The collector's bits do not change what a word says. *)
Lemma mark_bit_view w b :
  rb = true -> word_ok w -> bit b = true ->
  (word_ok (SetMarkBitState w b) /\ view (SetMarkBitState w b) = view w) /\
  (word_ok (SetReadBarrierState w b) /\ view (SetReadBarrierState w b) = view w).
Proof.
  intros Hrb (st & gc & p & -> & Hst & Hg & Hp & Hrb')%word_ok_fields Hb.
  assert (0 <= b < 2) by (unfold bit in Hb; bools; lia).
  rewrite SetMarkBitState_compose, SetReadBarrierState_compose by lia.
  destruct (view_compose st gc p Hst Hg Hp Hrb') as (_ & _ & ->).
  split.
  - destruct (view_compose st (b * 2 + gc mod 2) p Hst) as (? & _ & ->); [zdiv|done|congruence|done].
  - destruct (view_compose st (gc / 2 * 2 + b) p Hst) as (? & _ & ->); [zdiv|done|congruence|done].
Qed.

(** ** Threads *)

(** The positions of the threads. *)
Definition pcs (s : Sys) : gmap Z Pc := pc <$> threads s.

Lemma lookup_pcs s t th : threads s !! t = Some th -> pcs s !! t = Some (pc th).
Proof. intros H. unfold pcs. by rewrite lookup_fmap, H. Qed.

Lemma pcs_lookup s t p : pcs s !! t = Some p -> exists th, threads s !! t = Some th /\ pc th = p.
Proof. unfold pcs. rewrite lookup_fmap. destruct (threads s !! t) as [th|]; [|done]. intros [= <-]. eauto. Qed.

Lemma pcs_update f t s : (forall th, pc (f th) = pc th) -> pcs (update_thread f t s) = pcs s.
Proof.
  intros H. apply map_eq. intros u. unfold pcs, update_thread. simpl. rewrite !lookup_fmap.
  destruct (decide (u = t)) as [->|]; [|by rewrite lookup_alter_ne].
  rewrite lookup_alter_eq. destruct (threads s !! t); simpl; [|done]. by rewrite H.
Qed.

Lemma pcs_goto s t p q : pcs s !! t = Some q -> pcs (goto s t p) = <[t := p]> (pcs s).
Proof.
  intros (th & Ht & _)%pcs_lookup. apply map_eq. intros u. unfold pcs, goto, update_thread. simpl.
  rewrite lookup_fmap. destruct (decide (u = t)) as [->|].
  - by rewrite lookup_alter_eq, Ht, lookup_insert_eq.
  - by rewrite lookup_alter_ne, lookup_insert_ne, lookup_fmap.
Qed.

(** No thread keeps [o] suspended. *)
Definition free_running (P : gmap Z Pc) (o : Z) : Prop :=
  forall u p, P !! u = Some p -> holds_suspended p <> Some o.

Lemma suspended_spec s o :
  suspended s o = true <-> exists u p, pcs s !! u = Some p /\ holds_suspended p = Some o.
Proof.
  unfold suspended. rewrite existsb_exists. split.
  - intros ([u th] & Hin%list_elem_of_In%elem_of_map_to_list & H%bool_decide_eq_true).
    exists u, (pc th). split; [by apply lookup_pcs|done].
  - intros (u & p & (th & Hu & <-)%pcs_lookup & H). exists (u, th).
    split; [by apply list_elem_of_In, elem_of_map_to_list|by apply bool_decide_eq_true].
Qed.

Lemma not_suspended s o : suspended s o = false -> free_running (pcs s) o.
Proof.
  intros H u p Hu Hp. assert (suspended s o = true); [|congruence]. apply suspended_spec. eauto.
Qed.

Definition at_safepoint (P : gmap Z Pc) (o : Z) : Prop :=
  exists p, P !! o = Some p /\ safepoint p = true.

(** *** Counting waiters *)

Definition after_weight (k : LockReturn) : Z := match k with AfterEnter => 0 | AfterWait _ _ => 1 end.

(** How often a thread at [p] is counted in [num_waiters_] of [m]. *)
Definition weight (m : Z) (p : Pc) : Z :=
  match p with
  | LockFat m' again k => if m' =? m then Z.b2z again + after_weight k else 0
  | LockBlocked m' k | LockSleep m' k | LockAwake m' k => if m' =? m then 1 + after_weight k else 0
  | WaitSleep m' _ _ _ | WaitAwake m' _ _ _ | WaitClear m' _ _ _ | WaitInterrupted m' _
  | WaitThrow m' _ | WaitRestore m' _ => if m' =? m then 1 else 0
  | _ => 0
  end.

Lemma weight_nonneg m p : 0 <= weight m p.
Proof. destruct p; simpl; try lia; case_match; try lia; destruct k; simpl; try lia; by destruct again. Qed.

Definition waiters (m : Z) (P : gmap Z Pc) : Z := map_fold (fun _ p n => weight m p + n) 0 P.

Lemma waiters_insert_new m P t p : P !! t = None -> waiters m (<[t := p]> P) = weight m p + waiters m P.
Proof. intros H. unfold waiters. rewrite map_fold_insert_L; [done|intros; lia|done]. Qed.

Lemma waiters_insert m P t p q :
  P !! t = Some q -> waiters m (<[t := p]> P) = waiters m P - weight m q + weight m p.
Proof.
  intros H. pose proof (lookup_delete_eq P t) as Hd.
  rewrite <- (insert_delete_eq P t p), (waiters_insert_new m _ t p Hd).
  replace (waiters m P) with (weight m q + waiters m (delete t P)); [lia|].
  rewrite <- (waiters_insert_new m _ t q Hd). by rewrite insert_delete_id.
Qed.

Lemma waiters_nonneg m P : 0 <= waiters m P.
Proof.
  induction P as [|t p P Ht IH] using map_ind; [done|]. rewrite waiters_insert_new by done.
  pose proof (weight_nonneg m p). lia.
Qed.

Lemma waiters_ge m P t p : P !! t = Some p -> weight m p <= waiters m P.
Proof.
  intros H. rewrite <- (insert_delete_id P t p H), (waiters_insert_new _ _ _ _ (lookup_delete_eq P t)).
  pose proof (waiters_nonneg m (delete t P)). lia.
Qed.

Lemma waiters_zero m P : (forall t p, P !! t = Some p -> weight m p = 0) -> waiters m P = 0.
Proof.
  induction P as [|t p P Ht IH] using map_ind; intros H; [done|]. rewrite waiters_insert_new by done.
  rewrite (H t p) by apply lookup_insert_eq. rewrite IH; [done|].
  intros u q Hu. apply (H u q). rewrite lookup_insert_ne; congruence.
Qed.

(** ** The invariant *)

Definition count_ok (c : Z) : Prop := 0 <= c < 2 ^ 31.
Definition hash_ok (h : Z) : Prop := 0 <= h <= kMaxHash.

(** [o] does not own the monitor. *)
Definition not_owner (Ms : gmap Z Monitor) (m o : Z) : Prop :=
  forall M, Ms !! m = Some M -> owner_ M <> Some o.

(** A thread in [Wait] that does not own the monitor any more. *)
Definition waits (w : Z) (Ms : gmap Z Monitor) (t m prev : Z) : Prop :=
  view w = VFat m /\ count_ok prev /\ not_owner Ms m t.

Definition locks (w : Z) (Ms : gmap Z Monitor) (t m : Z) (k : LockReturn) : Prop :=
  match k with AfterEnter => view w = VFat m | AfterWait prev _ => waits w Ms t m prev end.

(** The other thread is kept suspended. *)
Definition keeps_suspended (P : gmap Z Pc) (t : Z) (resume : option Z) : Prop :=
  forall o, resume = Some o -> o <> t /\ at_safepoint P o.

(** The lock word can be inflated by [t] for [owner]. *)
Definition inflatable (w : Z) (P : gmap Z Pc) (t : Z) (owner : option Z) (h : Z) (resume : option Z)
    : Prop :=
  hash_ok h /\ keeps_suspended P t resume /\
  match owner with
  | Some o => ((exists c, view w = VThin o c) \/ exists m, view w = VFat m) /\
              (o = t /\ resume = None \/ resume = Some o)
  | None => resume = None /\ 0 < h /\ (view w = VHash h \/ exists m, view w = VFat m)
  end.

(** A monitor that belongs to the thread that made it. *)
Definition private_monitor (p : Pc) : option Z :=
  match p with Install m _ _ | InstallCas m _ _ _ => Some m | _ => None end.

Definition pc_ok (w : Z) (Ms : gmap Z Monitor) (P : gmap Z Pc) (t : Z) (p : Pc) : Prop :=
  match p with
  | EnterCas _ _ w' new => view w' = VUnlocked /\ word_ok new /\ view new = VThin t 0
  | EnterStore _ _ _ new => exists c, view w = VThin t c /\ word_ok new /\ view new = VThin t (c + 1)
  | ExitStore _ new =>
      exists c, view w = VThin t c /\ word_ok new /\
        view new = if c =? 0 then VUnlocked else VThin t (c - 1)
  | HashCas w' new h => view w' = VUnlocked /\ word_ok new /\ view new = VHash h /\ 0 < h /\ hash_ok h
  | TryLockFat m | UnlockFat m | HashFat m | NotifyFat m _ | WaitFat m _ => view w = VFat m
  | LockFat m _ k | LockBlocked m k | LockSleep m k | LockAwake m k => locks w Ms t m k
  | WaitSleep m prev _ _ | WaitAwake m prev _ _ | WaitClear m prev _ _
  | WaitInterrupted m prev | WaitThrow m prev => waits w Ms t m prev
  | WaitRestore m prev =>
      view w = VFat m /\ count_ok prev /\
      exists M, Ms !! m = Some M /\ owner_ M = Some t /\ lock_count_ M = 0
  | InflateSuspend o h _ => o <> t /\ hash_ok h
  | InflateSuspended o h _ => hash_ok h /\ keeps_suspended P t (Some o)
  | InflateResume o _ => keeps_suspended P t (Some o)
  | Inflate owner h resume _ => inflatable w P t owner h resume
  | Install m resume _ =>
      view w <> VFat m /\
      exists M, Ms !! m = Some M /\ lock_count_ M = 0 /\
        inflatable w P t (owner_ M) (hash_code_ M) resume
  | InstallCas m w' resume _ =>
      view w <> VFat m /\
      exists M, Ms !! m = Some M /\ inflatable w P t (owner_ M) (hash_code_ M) resume /\ word_ok w' /\
        match view w' with
        | VThin o c => owner_ M = Some o /\ lock_count_ M = c
        | VHash h => owner_ M = None /\ lock_count_ M = 0 /\ hash_code_ M = h
        | _ => False
        end
  | InflateCheck resume _ => (exists m, view w = VFat m) /\ keeps_suspended P t resume
  | Running | EnterRead _ _ | ExitRead | WaitRead _ | NotifyRead _ | HashRead => True
  end.

Record monitor_ok (P : gmap Z Pc) (m : Z) (M : Monitor) : Prop := {
  mon_id : 0 <= m <= kMaxMonitorId;
  mon_hash : hash_ok (hash_code_ M);
  mon_count : count_ok (lock_count_ M);
  mon_free : owner_ M = None -> lock_count_ M = 0;
  mon_owner : forall o, owner_ M = Some o -> is_Some (P !! o);
  mon_waiters : num_waiters_ M = waiters m P
}.

Definition view_ok (Ms : gmap Z Monitor) (P : gmap Z Pc) (v : View) : Prop :=
  match v with
  | VThin o _ => is_Some (P !! o)
  | VFat m => is_Some (Ms !! m)
  | VHash h => 0 < h /\ hash_ok h
  | VUnlocked => True
  | VForward => False
  end.

Record core (w : Z) (Ms : gmap Z Monitor) (P : gmap Z Pc) : Prop := {
  c_word : word_ok w;
  c_view : view_ok Ms P (view w);
  c_ids : forall t p, P !! t = Some p -> 1 <= t <= kThinLockMaxOwner;
  c_monitors : forall m M, Ms !! m = Some M -> monitor_ok P m M;
  c_pcs : forall t p, P !! t = Some p -> pc_ok w Ms P t p;
  c_private : forall t u p q m, P !! t = Some p -> P !! u = Some q ->
    private_monitor p = Some m -> private_monitor q = Some m -> t = u
}.

Definition inv (s : Sys) : Prop := core (lock_word s) (monitors s) (pcs s).

(** ** What other threads keep *)

(** How a step of [t] may change the lock word. *)
Definition changes (P : gmap Z Pc) (t : Z) (v v' : View) : Prop :=
  v' = v \/
  (free_running P t /\ (v = VUnlocked \/ exists c, v = VThin t c) /\
   (v' = VUnlocked \/ (exists c, v' = VThin t c) \/ exists h, v' = VHash h)) \/
  exists m p, v' = VFat m /\ P !! t = Some p /\ private_monitor p = Some m /\
    ((exists h, v = VHash h) \/ exists o c, v = VThin o c /\ (o = t \/ at_safepoint P o)).

(** What a step of [t] may change in monitors. *)
Record mframe (w : Z) (P : gmap Z Pc) (t : Z) (Ms Ms' : gmap Z Monitor) : Prop := {
  f_private : forall u q m, u <> t -> P !! u = Some q -> private_monitor q = Some m -> Ms' !! m = Ms !! m;
  f_owner : forall u m M', u <> t -> view w = VFat m -> Ms' !! m = Some M' -> owner_ M' = Some u ->
    exists M, Ms !! m = Some M /\ owner_ M = Some u;
  f_kept : forall u m M, u <> t -> view w = VFat m -> Ms !! m = Some M -> owner_ M = Some u -> lock_count_ M = 0 ->
    exists M', Ms' !! m = Some M' /\ owner_ M' = Some u /\ lock_count_ M' = 0
}.

Section Frame.
Context (w w' : Z) (Ms Ms' : gmap Z Monitor) (P : gmap Z Pc) (t : Z) (p' : Pc).
Hypothesis Hcore : core w Ms P.
Hypothesis Hchg : changes P t (view w) (view w').
Hypothesis Hframe : mframe w P t Ms Ms'.
Hypothesis Hsafe : safepoint p' = true \/ free_running P t.
Let P' := <[t := p']> P.

Lemma fat_kept m : view w = VFat m -> view w' = VFat m.
Proof.
  intros Hv. destruct Hchg as [->|[(_ & [E|[c E]] & _)|(m' & p & _ & _ & _ & [[h E]|(o & c & E & _)])]]; congruence.
Qed.

Lemma waits_kept u m prev : u <> t -> waits w Ms u m prev -> waits w' Ms' u m prev.
Proof.
  intros Hu (Hv & Hc & Hn). split; [by apply fat_kept|]. split; [done|]. intros M' HM' Ho.
  destruct (f_owner _ _ _ _ _ Hframe u m M' Hu Hv HM' Ho) as (M & HM & E). by apply (Hn M).
Qed.

Lemma locks_kept u m k : u <> t -> locks w Ms u m k -> locks w' Ms' u m k.
Proof. destruct k; simpl; [intros _; apply fat_kept|apply waits_kept]. Qed.

(** Whoever is kept suspended stays at a safepoint. *)
Lemma suspended_kept u q resume :
  P !! u = Some q -> holds_suspended q = resume -> keeps_suspended P u resume ->
  keeps_suspended P' u resume.
Proof.
  intros Hq Hh Hk o Ho. destruct (Hk o Ho) as [Hne (p & Hp & Hsp)]. split; [done|].
  destruct (decide (o = t)) as [->|Hot].
  - exists p'. unfold P'. rewrite lookup_insert_eq. split; [done|].
    destruct Hsafe as [|Hf]; [done|]. exfalso. apply (Hf u q Hq). congruence.
  - exists p. unfold P'. by rewrite lookup_insert_ne.
Qed.

Lemma thin_kept u c q :
  u <> t -> P !! u = Some q -> safepoint q = false -> view w = VThin u c -> view w' = VThin u c.
Proof.
  intros Hu Hq Hsp Hv. destruct Hchg as [->|[(_ & [E|[c' E]] & _)|(m & p & _ & _ & _ & [[h E]|(o & c' & E & Ho)])]];
    [done|congruence..|].
  rewrite Hv in E. injection E as <- <-. destruct Ho as [->|(q' & Hq' & Hs)]; [done|]. congruence.
Qed.

Lemma inflatable_kept u q owner h resume :
  u <> t -> P !! u = Some q -> holds_suspended q = resume -> safepoint q = false ->
  inflatable w P u owner h resume -> inflatable w' P' u owner h resume.
Proof.
  intros Hu Hq Hh Hsp (Hhash & Hk & Ho). split; [done|]. split; [by eapply suspended_kept|].
  destruct owner as [o|].
  - destruct Ho as [[[c Hv]|[m Hv]] Hor]; (split; [|done]); [|right; exists m; by apply fat_kept].
    destruct Hchg as [->|[(Hf & [E|[c' E]] & _)|(m & p & E & _)]]; [eauto|congruence| |eauto].
    exfalso. rewrite Hv in E. injection E as -> ->. destruct Hor as [[? _]|Hor]; [done|].
    apply (Hf u q Hq). congruence.
  - destruct Ho as (Hr & Hpos & [Hv|[m Hv]]); (split; [done|]; split; [done|]); [|right; exists m; by apply fat_kept].
    destruct Hchg as [->|[(_ & [E|[c' E]] & _)|(m & p & E & _)]]; [by left|congruence..|eauto].
Qed.

Lemma not_installed u q m :
  u <> t -> P !! u = Some q -> private_monitor q = Some m -> view w <> VFat m -> view w' <> VFat m.
Proof.
  intros Hu Hq Hpm Hv. destruct Hchg as [->|[(_ & _ & [E|[[c' E]|[h E]]])|(m' & p & E & Hp & Hpm' & _)]];
    [done|congruence..|].
  intros E'. assert (m' = m) as -> by congruence. apply Hu.
  by eapply (c_private _ _ _ Hcore).
Qed.

Lemma pc_kept u q : u <> t -> P !! u = Some q -> pc_ok w Ms P u q -> pc_ok w' Ms' P' u q.
Proof.
  intros Hu Hq. pose proof (f_private _ _ _ _ _ Hframe u q) as Hpriv.
  destruct q; cbn [pc_ok]; try done; try (by apply fat_kept); try (by apply waits_kept); try (by apply locks_kept);
    try (by eapply inflatable_kept); try (by eapply suspended_kept).
  - intros (c & Hv & H). exists c. split; [by eapply thin_kept|done].
  - intros (c & Hv & H). exists c. split; [by eapply thin_kept|done].
  - intros (Hv & Hc & M & HM & Ho & Hl). split; [by apply fat_kept|]. split; [done|].
    by eapply (f_kept _ _ _ _ _ Hframe).
  - intros [Hh Hk]. split; [done|by eapply suspended_kept].
  - intros (Hv & M & HM & Hc & Hinf). split; [by eapply not_installed|]. exists M.
    rewrite (Hpriv m) by done. split; [done|]. split; [done|by eapply inflatable_kept].
  - intros (Hv & M & HM & Hinf & H). split; [by eapply not_installed|]. exists M.
    rewrite (Hpriv m) by done. split; [done|]. split; [by eapply inflatable_kept|done].
  - intros [[m Hv] Hk]. split; [exists m; by apply fat_kept|by eapply suspended_kept].
Qed.

End Frame.

(** ** Steps keep the invariant *)

Lemma insert_is_Some (P : gmap Z Pc) (t : Z) (p p' : Pc) (o : Z) :
  P !! t = Some p -> is_Some (P !! o) -> is_Some (<[t := p']> P !! o).
Proof. intros Ht Ho. destruct (decide (o = t)) as [->|]; [by rewrite lookup_insert_eq|by rewrite lookup_insert_ne]. Qed.

Lemma view_ok_insert Ms P t p p' v :
  P !! t = Some p -> view_ok Ms P v -> view_ok Ms (<[t := p']> P) v.
Proof. intros Ht. destruct v; simpl; try done. by apply (insert_is_Some P t p). Qed.

Lemma monitor_ok_insert P t p p' m M M' :
  P !! t = Some p -> monitor_ok P m M -> hash_ok (hash_code_ M') -> count_ok (lock_count_ M') ->
  (owner_ M' = None -> lock_count_ M' = 0) ->
  (forall o, owner_ M' = Some o -> owner_ M = Some o \/ o = t) ->
  num_waiters_ M' = num_waiters_ M - weight m p + weight m p' ->
  monitor_ok (<[t := p']> P) m M'.
Proof.
  intros Ht [H1 H2 H3 H4 H5 H6] Hh Hc Hf Ho Hw. split; try done.
  - intros o Eo. apply (insert_is_Some P t p); [done|]. destruct (Ho o Eo) as [?| ->]; [by apply H5|by eexists].
  - by rewrite (waiters_insert m P t p' p), Hw, H6.
Qed.

Lemma core_update w w' Ms Ms' P t p p' :
  core w Ms P -> P !! t = Some p -> changes P t (view w) (view w') -> mframe w P t Ms Ms' ->
  safepoint p' = true \/ free_running P t ->
  word_ok w' -> view_ok Ms' P (view w') ->
  (forall m M', Ms' !! m = Some M' -> monitor_ok (<[t := p']> P) m M') ->
  pc_ok w' Ms' (<[t := p']> P) t p' ->
  (forall m, private_monitor p' = Some m -> private_monitor p = Some m \/ Ms !! m = None) ->
  core w' Ms' (<[t := p']> P).
Proof.
  intros Hcore Ht Hchg Hframe Hsafe Hw Hview Hmon Hpc Hpriv. split.
  - done.
  - by eapply view_ok_insert.
  - intros u q Hq. destruct (decide (u = t)) as [->|]; [by eapply (c_ids _ _ _ Hcore)|].
    rewrite lookup_insert_ne in Hq by done. by eapply (c_ids _ _ _ Hcore).
  - done.
  - intros u q Hq. destruct (decide (u = t)) as [->|Hu].
    + rewrite lookup_insert_eq in Hq. by injection Hq as <-.
    + rewrite lookup_insert_ne in Hq by done. eapply (pc_kept w w' Ms Ms'); try done. by apply Hcore.
  - assert (forall u q m, u <> t -> P !! u = Some q -> private_monitor q = Some m ->
              private_monitor p' = Some m -> False) as Hno.
    { intros u q m Hu Hq Hm Hm'. destruct (Hpriv m Hm') as [Hp|Hn].
      - by apply Hu, (c_private _ _ _ Hcore u t q p m).
      - pose proof (c_pcs _ _ _ Hcore u q Hq) as Hok. destruct q; try done; injection Hm as ->;
          destruct Hok as (_ & M & HM & _); congruence. }
    intros u v q r m Hq Hr Hm Hm'.
    destruct (decide (u = t)) as [->|Hu], (decide (v = t)) as [->|Hv]; try done; simplify_map_eq.
    + by destruct (Hno v r m).
    + by destruct (Hno u q m).
    + by apply (c_private _ _ _ Hcore u v q r m).
Qed.

Lemma mframe_refl w P t Ms : mframe w P t Ms Ms.
Proof. split; try done; intros; eauto. Qed.

Lemma monitor_ok_same w Ms P t p p' m M :
  core w Ms P -> P !! t = Some p -> Ms !! m = Some M -> weight m p' = weight m p ->
  monitor_ok (<[t := p']> P) m M.
Proof.
  intros Hcore Ht HM Hw. pose proof (c_monitors _ _ _ Hcore m M HM) as Hm.
  apply (monitor_ok_insert P t p p' m M M Ht Hm); try apply Hm; [by left|]. lia.
Qed.

(** A step that changes nothing but where the thread stands. *)
Lemma core_goto w Ms P t p p' :
  core w Ms P -> P !! t = Some p -> safepoint p' = true \/ free_running P t ->
  (forall m, weight m p' = weight m p) -> private_monitor p' = None ->
  pc_ok w Ms (<[t := p']> P) t p' -> core w Ms (<[t := p']> P).
Proof.
  intros Hcore Ht Hs Hw Hpriv Hpc. eapply (core_update w w Ms Ms P t p p'); try done.
  - by left.
  - apply mframe_refl.
  - apply Hcore.
  - apply Hcore.
  - intros m M HM. by eapply monitor_ok_same.
  - intros m Hm. congruence.
Qed.

(** A step on the lock word alone. *)
Lemma core_word w w' Ms P t p p' :
  core w Ms P -> P !! t = Some p -> free_running P t -> word_ok w' ->
  (view w = VUnlocked \/ exists c, view w = VThin t c) ->
  (view w' = VUnlocked \/ (exists c, view w' = VThin t c) \/ exists h, view w' = VHash h /\ 0 < h /\ hash_ok h) ->
  (forall m, weight m p' = weight m p) -> private_monitor p' = None ->
  pc_ok w' Ms (<[t := p']> P) t p' -> core w' Ms (<[t := p']> P).
Proof.
  intros Hcore Ht Hf Hw Hv Hv' Hwt Hpriv Hpc. eapply (core_update w w' Ms Ms P t p p'); try done.
  - right. left. split; [done|]. split; [done|]. destruct Hv' as [?|[?|(h & ? & _)]]; eauto.
  - apply mframe_refl.
  - by right.
  - destruct Hv' as [-> |[[c ->]|(h & -> & ?)]]; simpl; [done|by eexists|done].
  - intros m M HM. by eapply monitor_ok_same.
  - intros m Hm. congruence.
Qed.

(** A step on the monitor the lock word names. *)
Lemma core_monitor w Ms P t p p' m M M' :
  core w Ms P -> P !! t = Some p -> safepoint p' = true \/ free_running P t ->
  view w = VFat m -> Ms !! m = Some M ->
  (forall u, u <> t -> owner_ M' = Some u -> owner_ M = Some u) ->
  (forall u, u <> t -> owner_ M = Some u -> lock_count_ M = 0 -> owner_ M' = Some u /\ lock_count_ M' = 0) ->
  monitor_ok (<[t := p']> P) m M' -> (forall m', m' <> m -> weight m' p' = weight m' p) ->
  private_monitor p' = None ->
  pc_ok w (<[m := M']> Ms) (<[t := p']> P) t p' -> core w (<[m := M']> Ms) (<[t := p']> P).
Proof.
  intros Hcore Ht Hs Hv HM Ho Hk Hm Hw Hpriv Hpc.
  eapply (core_update w w Ms (<[m := M']> Ms) P t p p'); try done.
  - by left.
  - split.
    + intros u q m0 Hu Hq Hpm. rewrite lookup_insert_ne; [done|]. intros <-.
      pose proof (c_pcs _ _ _ Hcore u q Hq) as Hok. destruct q; try done; injection Hpm as ->; by destruct Hok.
    + intros u m0 M0 Hu _ HM0 Eo. destruct (decide (m0 = m)) as [->|].
      * rewrite lookup_insert_eq in HM0. injection HM0 as <-. exists M. split; [done|by apply Ho].
      * rewrite lookup_insert_ne in HM0 by done. eauto.
    + intros u m0 M0 Hu _ HM0 Eo Hl. destruct (decide (m0 = m)) as [->|].
      * rewrite lookup_insert_eq. assert (M0 = M) as -> by congruence. exists M'. split; [done|by apply Hk].
      * rewrite lookup_insert_ne by done. eauto.
  - apply Hcore.
  - rewrite Hv. simpl. rewrite lookup_insert_eq. by eexists.
  - intros m0 M0 HM0. destruct (decide (m0 = m)) as [->|].
    + rewrite lookup_insert_eq in HM0. by injection HM0 as <-.
    + rewrite lookup_insert_ne in HM0 by done. eapply monitor_ok_same; try done. by apply Hw.
  - intros m0 Hm0. congruence.
Qed.

(** Threads that count on a monitor have it in the lock word. *)
Lemma weight_view w Ms P m t p : core w Ms P -> P !! t = Some p -> view w <> VFat m -> weight m p = 0.
Proof.
  intros Hcore Hp Hv. pose proof (c_pcs _ _ _ Hcore t p Hp) as Hok.
  assert (forall m' k, locks w Ms t m' k -> view w = VFat m') as Hl
    by (intros m' []; simpl; [done|by intros [? _]]).
  destruct p; simpl in *; try done;
    (rewrite (proj2 (Z.eqb_neq _ _)); [done|]; intros ->; apply Hv; first [by eapply Hl|by destruct Hok]).
Qed.

Lemma waiters_view w Ms P m : core w Ms P -> view w <> VFat m -> waiters m P = 0.
Proof. intros Hcore Hv. apply waiters_zero. intros t p Hp. by eapply weight_view. Qed.

Lemma inflatable_self w P t owner h resume p' :
  inflatable w P t owner h resume -> inflatable w (<[t := p']> P) t owner h resume.
Proof.
  intros (Hh & Hk & Ho). split; [done|]. split; [|done]. intros o Er. destruct (Hk o Er) as [Hne (q & Hq & Hs)].
  split; [done|]. exists q. by rewrite lookup_insert_ne.
Qed.

(** A step on a monitor of the thread's own. *)
Lemma core_private w Ms Ms' P t p p' m :
  core w Ms P -> P !! t = Some p -> free_running P t -> view w <> VFat m ->
  Ms !! m = None \/ private_monitor p = Some m ->
  (forall m', m' <> m -> Ms' !! m' = Ms !! m') ->
  (forall M', Ms' !! m = Some M' -> monitor_ok (<[t := p']> P) m M') ->
  (forall m', weight m' p' = weight m' p) ->
  (forall m', private_monitor p' = Some m' -> m' = m) ->
  pc_ok w Ms' (<[t := p']> P) t p' -> core w Ms' (<[t := p']> P).
Proof.
  intros Hcore Ht Hf Hv Hown Hsame Hm Hw Hpriv Hpc.
  eapply (core_update w w Ms Ms' P t p p'); try done.
  - by left.
  - split.
    + intros u q m' Hu Hq Hpm. apply Hsame. intros ->. destruct Hown as [Hn|Hp].
      * pose proof (c_pcs _ _ _ Hcore u q Hq) as Hok. destruct q; try done; injection Hpm as ->;
          destruct Hok as (_ & M & HM & _); congruence.
      * by apply Hu, (c_private _ _ _ Hcore u t q p m).
    + intros u m' M' Hu Hv' HM' Eo. rewrite Hsame in HM' by congruence. eauto.
    + intros u m' M' Hu Hv' HM' Eo Hl. rewrite Hsame by congruence. eauto.
  - by right.
  - apply Hcore.
  - pose proof (c_view _ _ _ Hcore) as H. destruct (view w); try done. simpl in *. rewrite Hsame by congruence. done.
  - intros m' M' HM'. destruct (decide (m' = m)) as [->|Hne]; [by apply Hm|].
    rewrite Hsame in HM' by done. by eapply monitor_ok_same.
  - intros m' Em. rewrite (Hpriv m' Em). destruct Hown; auto.
Qed.

End Invariant.
