(* ===== verification/MonitorRefinement.v ===== *)
(** * The monitors of an object refine an abstract monitor

    The abstract monitor has an owner with a nesting depth, the depths of the threads
    that wait, and an identity hash code that is chosen once.  Every step of the code,
    whoever takes it and whatever the environment chooses, is a step of it or none. *)
From stdpp Require Import gmap.
From S2P Require Import Prelude LockWord Monitor MonitorInvariant.

(** ** The abstract monitor *)

Record Abs := {
  a_owner : option (Z * Z);
  a_waiting : gmap Z Z;
  a_hash : option Z
}.

Definition owned_by (a : Abs) (t : Z) : Prop := exists n, a_owner a = Some (t, n).

(** One level less. *)
Definition released (t n : Z) : option (Z * Z) := if n =? 1 then None else Some (t, n - 1).

Inductive abs_step : option Event -> Abs -> Abs -> Prop :=
| abs_silent a : abs_step None a a
| abs_choose_hash a h :
    a_hash a = None -> 0 < h ->
    abs_step None a {| a_owner := a_owner a; a_waiting := a_waiting a; a_hash := Some h |}
| abs_enter a t :
    a_owner a = None -> a_waiting a !! t = None ->
    abs_step (Some (Entered t)) a
      {| a_owner := Some (t, 1); a_waiting := a_waiting a; a_hash := a_hash a |}
| abs_enter_again a t n :
    a_owner a = Some (t, n) ->
    abs_step (Some (Entered t)) a
      {| a_owner := Some (t, n + 1); a_waiting := a_waiting a; a_hash := a_hash a |}
| abs_try_fails a t o n :
    a_owner a = Some (o, n) -> o <> t -> abs_step (Some (TryFailed t)) a a
| abs_exit a t n :
    a_owner a = Some (t, n) ->
    abs_step (Some (Exited t)) a
      {| a_owner := released t n; a_waiting := a_waiting a; a_hash := a_hash a |}
| abs_exit_fails a t : ~ owned_by a t -> abs_step (Some (ExitFailed t)) a a
| abs_wait a t n :
    a_owner a = Some (t, n) -> a_waiting a !! t = None ->
    abs_step (Some (WaitBegan t)) a
      {| a_owner := None; a_waiting := <[t := n]> (a_waiting a); a_hash := a_hash a |}
| abs_wait_refused a t : ~ owned_by a t -> abs_step (Some (WaitRefused t)) a a
| abs_wait_timeout a t : owned_by a t -> abs_step (Some (WaitBadTimeout t)) a a
| abs_wait_ends a t n thrown :
    a_owner a = None -> a_waiting a !! t = Some n ->
    abs_step (Some (WaitEnded t thrown)) a
      {| a_owner := Some (t, n); a_waiting := delete t (a_waiting a); a_hash := a_hash a |}
| abs_notify a t : owned_by a t -> abs_step (Some (Notified t)) a a
| abs_notify_refused a t : ~ owned_by a t -> abs_step (Some (NotifyRefused t)) a a
| abs_hashed a t h : a_hash a = Some h -> abs_step (Some (Hashed t h)) a a
| abs_hash a t h :
    a_hash a = None -> 0 < h ->
    abs_step (Some (Hashed t h)) a
      {| a_owner := a_owner a; a_waiting := a_waiting a; a_hash := Some h |}.

(** Its runs, with what the calls return. *)
Inductive abs_run : Abs -> list Event -> Abs -> Prop :=
| abs_run_done a : abs_run a [] a
| abs_run_step a a' a'' e es :
    abs_step e a a' -> abs_run a' es a'' ->
    abs_run a (match e with Some e => e :: es | None => es end) a''.

Definition abs_initial : Abs := {| a_owner := None; a_waiting := ∅; a_hash := None |}.

(** ** The abstraction *)

(** The depth a waiting thread gets back. *)
Definition saved_of (p : Pc) : option Z :=
  match p with
  | LockFat _ _ (AfterWait prev _) | LockBlocked _ (AfterWait prev _)
  | LockSleep _ (AfterWait prev _) | LockAwake _ (AfterWait prev _)
  | WaitSleep _ prev _ _ | WaitAwake _ prev _ _ | WaitClear _ prev _ _
  | WaitInterrupted _ prev | WaitThrow _ prev => Some (prev + 1)
  | _ => None
  end.

(** The count a thread is about to restore. *)
Definition restoring (p : Pc) : option Z :=
  match p with WaitRestore _ prev => Some prev | _ => None end.

Section Refinement.
Context (rb : bool) (spins : Z).

Definition owner_of (w : Z) (Ms : gmap Z Monitor) : option (Z * Z) :=
  match view rb w with
  | VThin o c => Some (o, c)
  | VFat m => M ← Ms !! m; o ← owner_ M; Some (o, lock_count_ M)
  | _ => None
  end.

Definition hash_of (w : Z) (Ms : gmap Z Monitor) : option Z :=
  match view rb w with
  | VHash h => Some h
  | VFat m => M ← Ms !! m; if hash_code_ M =? 0 then None else Some (hash_code_ M)
  | _ => None
  end.

Definition depth_of (P : gmap Z Pc) (oc : Z * Z) : Z * Z :=
  (oc.1, default oc.2 (P !! oc.1 ≫= restoring) + 1).

Definition waiting_of (P : gmap Z Pc) : gmap Z Z := omap saved_of P.

Definition abs_of (w : Z) (Ms : gmap Z Monitor) (P : gmap Z Pc) : Abs :=
  {| a_owner := depth_of P <$> owner_of w Ms; a_waiting := waiting_of P; a_hash := hash_of w Ms |}.

Definition abs (s : Sys) : Abs := abs_of (lock_word s) (monitors s) (pcs s).

(** A place where the thread neither waits nor restores. *)
Definition plain (p : Pc) : Prop := saved_of p = None /\ restoring p = None.

Lemma waiting_insert (P : gmap Z Pc) (t : Z) p :
  waiting_of (<[t := p]> P) =
  match saved_of p with Some n => <[t := n]> (waiting_of P) | None => delete t (waiting_of P) end.
Proof. unfold waiting_of. rewrite omap_insert. by destruct (saved_of p). Qed.

Lemma waiting_same P t p p' :
  P !! t = Some p -> saved_of p' = saved_of p -> waiting_of (<[t := p']> P) = waiting_of P.
Proof.
  intros Ht Hs. rewrite waiting_insert, Hs. destruct (saved_of p) as [n|] eqn:E.
  - apply insert_id. unfold waiting_of. by rewrite lookup_omap, Ht.
  - apply delete_id. unfold waiting_of. by rewrite lookup_omap, Ht.
Qed.

Lemma depth_same P t p p' oc :
  P !! t = Some p -> restoring p' = restoring p -> depth_of (<[t := p']> P) oc = depth_of P oc.
Proof.
  intros Ht Hr. unfold depth_of. destruct oc as [o c]. simpl.
  destruct (decide (o = t)) as [->|].
  - rewrite lookup_insert_eq, Ht. simpl. by rewrite Hr.
  - by rewrite lookup_insert_ne.
Qed.

(** What a step of a thread that neither waits nor restores does to the abstraction. *)
Lemma abs_of_plain w Ms P t p p' :
  P !! t = Some p -> plain p -> plain p' ->
  abs_of w Ms (<[t := p']> P) =
  {| a_owner := depth_of P <$> owner_of w Ms; a_waiting := waiting_of P; a_hash := hash_of w Ms |}.
Proof.
  intros Ht [Hs Hr] [Hs' Hr']. unfold abs_of. rewrite (waiting_same P t p p') by congruence. f_equal.
  destruct (owner_of w Ms) as [oc|]; [|done]. simpl. f_equal. apply (depth_same P t p p'); congruence.
Qed.

Lemma abs_of_same w Ms P t p p' :
  P !! t = Some p -> saved_of p' = saved_of p -> restoring p' = restoring p ->
  abs_of w Ms (<[t := p']> P) = abs_of w Ms P.
Proof.
  intros Ht Hs Hr. unfold abs_of. rewrite (waiting_same P t p p') by done. f_equal.
  destruct (owner_of w Ms) as [oc|]; [|done]. simpl. f_equal. by apply (depth_same P t p p').
Qed.

Lemma depth_plain P t p c : P !! t = Some p -> restoring p = None -> depth_of P (t, c) = (t, c + 1).
Proof. intros Ht Hr. unfold depth_of. simpl. rewrite Ht. simpl. by rewrite Hr. Qed.

Lemma not_waiting P t p : P !! t = Some p -> saved_of p = None -> waiting_of P !! t = None.
Proof. intros Ht Hs. unfold waiting_of. by rewrite lookup_omap, Ht. Qed.

Lemma waiting_lookup P t p n : P !! t = Some p -> saved_of p = Some n -> waiting_of P !! t = Some n.
Proof. intros Ht Hs. unfold waiting_of. by rewrite lookup_omap, Ht. Qed.

Lemma owned_iff w Ms P t : owned_by (abs_of w Ms P) t <-> exists c, owner_of w Ms = Some (t, c).
Proof.
  unfold owned_by. simpl. destruct (owner_of w Ms) as [[o c]|]; simpl.
  - split; [intros [n [= -> _]]; eauto|intros [c' [= -> ->]]; eauto].
  - split; [by intros []|by intros []].
Qed.

(** ** What a step has to give *)

Definition ok (s : Sys) (out : Outcome) : Prop :=
  match out with
  | Next s' e => inv rb s' /\ abs_step e (abs s) (abs s')
  | Blocked => True
  | Abort => False
  | Undefined => exists t, a_owner (abs s) = Some (t, 2 ^ 31)
  end.

(** The same lock word, monitors and positions. *)
Definition alike (s s' : Sys) : Prop :=
  lock_word s' = lock_word s /\ monitors s' = monitors s /\ pcs s' = pcs s.

Lemma alike_refl s : alike s s.
Proof. done. Qed.
Lemma alike_seed s seed : alike s (set_seed s seed).
Proof. done. Qed.
Lemma alike_update f t s : (forall th, pc (f th) = pc th) -> alike s (update_thread f t s).
Proof. intros H. split; [done|]. split; [done|by apply pcs_update]. Qed.

Lemma alike_trans s1 s2 s3 : alike s1 s2 -> alike s2 s3 -> alike s1 s3.
Proof. unfold alike. intuition congruence. Qed.

Lemma signal_alike c m s s' : signal_contender c m s = Some s' -> alike s s'.
Proof.
  unfold signal_contender. destruct c; try (case_if; [done|intros [= <-]; apply alike_refl]).
  destruct (threads s !! u); [|done]. case_if; [|done]. intros [= <-]. by apply alike_update.
Qed.

Lemma signal_waiter_pc th : pc (signal_waiter th) = pc th.
Proof. unfold signal_waiter. destruct (pc th) eqn:E; simpl; done. Qed.

Lemma NotifyLocked_pc th : pc (NotifyLocked th) = pc th.
Proof. unfold NotifyLocked. destruct (wait_monitor_ th); [apply signal_waiter_pc|done]. Qed.

Lemma notify_first_alike l s : alike s (notify_first l s).2.
Proof.
  revert s. induction l as [|u l IH]; intros s; simpl; [apply alike_refl|].
  destruct (threads s !! u) as [th|]; [|apply IH]. destruct (wait_monitor_ th); [|apply IH].
  apply alike_update, signal_waiter_pc.
Qed.

Lemma notify_each_alike l s : alike s (notify_each l s).
Proof.
  revert s. induction l as [|u l IH]; intros s; simpl; [apply alike_refl|].
  eapply alike_trans; [|apply IH]. apply alike_update, NotifyLocked_pc.
Qed.

Section Op.
Context (s : Sys) (t : Z) (p : Pc).
Hypothesis Hinv : inv rb s.
Hypothesis Hp : pcs s !! t = Some p.

Lemma next_shape s' p' :
  pcs s' = pcs s -> pcs (goto s' t p') = <[t := p']> (pcs s).
Proof. intros E. rewrite (pcs_goto s' t p' p); by rewrite E. Qed.

(** A step that only moves the thread. *)
Lemma ok_next s' p' :
  alike s s' -> safepoint p' = true \/ free_running (pcs s) t ->
  (forall m, weight m p' = weight m p) -> private_monitor p' = None ->
  saved_of p' = saved_of p -> restoring p' = restoring p ->
  pc_ok rb (lock_word s) (monitors s) (<[t := p']> (pcs s)) t p' ->
  ok s (next s' t p').
Proof.
  intros (Ew & Em & Ep) Hsafe Hw Hpriv Hs Hr Hpc. unfold ok, next.
  unfold inv, abs. cbn [lock_word monitors goto update_thread set_threads].
  rewrite next_shape, Ew, Em by done. split.
  - by apply (core_goto rb _ _ _ t p).
  - rewrite (abs_of_same _ _ _ t p p') by done. constructor.
Qed.

(** A call that returns without changing anything. *)
Lemma ok_return s' e :
  alike s s' -> (forall m, weight m p = 0) -> plain p -> abs_step (Some e) (abs s) (abs s) ->
  ok s (return_ s' t e).
Proof.
  intros (Ew & Em & Ep) Hw [Hs Hr] Habs. unfold ok, return_.
  unfold inv, abs in *. cbn [lock_word monitors goto update_thread set_threads].
  rewrite next_shape, Ew, Em by done. split.
  - apply (core_goto rb _ _ _ t p); try done. by left.
  - rewrite (abs_of_same _ _ _ t p Running) by done. done.
Qed.

Lemma view_of_state :
  view rb (lock_word s) =
  match state_of rb (lock_word s) with
  | kUnlocked => VUnlocked
  | kThinLocked => VThin (ThinLockOwner (lock_word s)) (ThinLockCount (lock_word s))
  | kFatLocked => VFat (FatLockMonitorId (lock_word s))
  | kHashCode => VHash (GetHashCode (lock_word s))
  | kForwardingAddress => VForward
  end.
Proof. done. Qed.

Lemma never_forward : state_of rb (lock_word s) <> kForwardingAddress.
Proof. intros E. destruct (c_word _ _ _ _ Hinv) as (_ & _ & Hv). apply Hv. by rewrite view_of_state, E. Qed.

Lemma own_id : 1 <= t <= kThinLockMaxOwner.
Proof. by eapply (c_ids _ _ _ _ Hinv). Qed.

Lemma word_is_ok : word_ok rb (lock_word s).
Proof. apply Hinv. Qed.

Section Runnable.
Hypothesis Hfree : free_running (pcs s) t.
Hypothesis Hweight : forall m, weight m p = 0.
Hypothesis Hplain : plain p.

Lemma next_plain s' p' :
  alike s s' -> (forall m, weight m p' = 0) -> private_monitor p' = None -> plain p' ->
  pc_ok rb (lock_word s) (monitors s) (<[t := p']> (pcs s)) t p' -> ok s (next s' t p').
Proof.
  intros Ha Hw Hpriv [Hs Hr] Hpc. destruct Hplain as [Hs0 Hr0].
  apply ok_next; [done|by right| |done|congruence|congruence|done]. intros m. by rewrite Hw, Hweight.
Qed.

Lemma InflateThinLocked_ok s' h k :
  alike s s' -> state_of rb (lock_word s) = kThinLocked -> hash_ok h ->
  ok s (InflateThinLocked s' t (lock_word s) h k).
Proof.
  intros Ha Es Hh. unfold InflateThinLocked. case_if; bools.
  - apply next_plain; try done. cbn [pc_ok]. split; [done|]. split; [done|].
    split; [left; exists (ThinLockCount (lock_word s)); rewrite view_of_state, Es; congruence|by left].
  - apply next_plain; done.
Qed.

Lemma MonitorEnter_ok trylock n : ok s (MonitorEnter rb spins s t trylock n).
Proof.
  pose proof view_of_state as Hv. unfold MonitorEnter. destruct (state_of rb (lock_word s)) eqn:Es.
  - destruct (thin_word rb (lock_word s) t 0) as (new & -> & Hnew & Hv'); [apply word_is_ok|apply own_id|done|].
    by apply next_plain.
  - destruct (thin_ranges _ _ _ _ word_is_ok Hv) as [_ Hc]. case_if; bools; [|case_if].
    + case_if; bools; [|by apply InflateThinLocked_ok].
      destruct (thin_word rb (lock_word s) t (ThinLockCount (lock_word s) + 1)) as (new & -> & Hnew & Hv');
        [apply word_is_ok|apply own_id|lia|].
      apply next_plain; try done. exists (ThinLockCount (lock_word s)). split; [congruence|done].
    + apply ok_return; try done. eapply abs_try_fails; [unfold abs; simpl; unfold owner_of; by rewrite Hv|done].
    + case_if; [by apply next_plain|by apply InflateThinLocked_ok].
  - case_if; apply next_plain; try done. intros m. simpl. by case_match.
  - apply next_plain; try done. cbn [pc_ok]. pose proof (c_view _ _ _ _ Hinv) as H. rewrite Hv in H.
    destruct H as [Hpos Hh]. split; [done|]. split; [done|]. split; [done|]. split; [done|by left].
  - by apply never_forward.
Qed.

(** The lock word says that [t] is not the owner. *)
Lemma not_owned v :
  view rb (lock_word s) = v -> match v with VThin o _ => o <> t | VFat _ => False | _ => True end ->
  ~ owned_by (abs s) t.
Proof.
  intros Hv Hne [c Ho]%owned_iff. unfold owner_of in Ho. rewrite Hv in Ho. destruct v; try done.
  by injection Ho as ->.
Qed.

Lemma MonitorExit_ok : ok s (MonitorExit rb s t).
Proof.
  pose proof view_of_state as Hv. unfold MonitorExit. destruct (state_of rb (lock_word s)) eqn:Es.
  - apply ok_return; try done. constructor. by apply (not_owned _ Hv).
  - destruct (thin_ranges _ _ _ _ word_is_ok Hv) as [_ Hc]. case_if; bools; [case_if; bools|].
    + destruct (default_word rb (lock_word s) word_is_ok) as [Hnew Hv'].
      apply next_plain; try done. exists 0. split; [congruence|done].
    + destruct (thin_word rb (lock_word s) t (ThinLockCount (lock_word s) - 1)) as (new & -> & Hnew & Hv');
        [apply word_is_ok|apply own_id|lia|].
      apply next_plain; try done. exists (ThinLockCount (lock_word s)). split; [congruence|]. split; [done|].
      by rewrite (proj2 (Z.eqb_neq _ _)).
    + apply ok_return; try done. constructor. by apply (not_owned _ Hv).
  - by apply next_plain.
  - apply ok_return; try done. constructor. by apply (not_owned _ Hv).
  - by apply never_forward.
Qed.

Lemma Wait_ok args : ok s (Wait rb s t args).
Proof.
  pose proof view_of_state as Hv. unfold Wait. destruct (state_of rb (lock_word s)) eqn:Es.
  - apply ok_return; try done. constructor. by apply (not_owned _ Hv).
  - case_if; bools.
    + apply next_plain; try done. cbn [pc_ok]. split; [done|]. split; [done|].
      split; [left; exists (ThinLockCount (lock_word s)); congruence|by left].
    + apply ok_return; try done. constructor. by apply (not_owned _ Hv).
  - by apply next_plain.
  - apply ok_return; try done. constructor. by apply (not_owned _ Hv).
  - by apply never_forward.
Qed.

Lemma DoNotify_ok all : ok s (DoNotify rb s t all).
Proof.
  pose proof view_of_state as Hv. unfold DoNotify. destruct (state_of rb (lock_word s)) eqn:Es.
  - apply ok_return; try done. constructor. by apply (not_owned _ Hv).
  - apply ok_return; try done. case_if; bools; constructor; [|by apply (not_owned _ Hv)].
    apply owned_iff. unfold owner_of. rewrite Hv. exists (ThinLockCount (lock_word s)). congruence.
  - by apply next_plain.
  - apply ok_return; try done. constructor. by apply (not_owned _ Hv).
  - by apply never_forward.
Qed.

Lemma generated_hash seed : 0 < (GenerateIdentityHashCode seed).1 <= kMaxHash.
Proof.
  assert (forall x, 0 <= x &&& kHashMask <= kMaxHash) as Hr.
  { intros x. change kHashMask with (2 ^ 28 - 1). rewrite land_ones_mod by lia.
    change kMaxHash with 268435455. pows. zdiv. }
  unfold GenerateIdentityHashCode. case_if; bools; simpl.
  - pose proof (Hr (next_seed seed)). assert (next_seed seed &&& kHashMask <> 0); [|lia].
    revert E. change kHashMask with (2 ^ 28 - 1). rewrite !land_ones_mod by lia. intros E.
    unfold next_seed, wrap_u.
    assert ((seed * 1103515245 + 12345) mod 2 ^ 32 mod 2 ^ 28 = 12345) as ->; [|done].
    rewrite <- Znumtheory.Zmod_div_mod by (lia || by exists 16).
    rewrite Z.add_mod, Z.mul_mod, E by lia. done.
  - pose proof (Hr seed). lia.
Qed.

Lemma IdentityHashCode_ok : ok s (IdentityHashCode rb s t).
Proof.
  pose proof view_of_state as Hv. unfold IdentityHashCode.
  pose proof (generated_hash (hash_code_seed s)) as Hh.
  destruct (GenerateIdentityHashCode (hash_code_seed s)) as [h seed]. simpl in Hh.
  destruct (state_of rb (lock_word s)) eqn:Es.
  - destruct (hash_word rb (lock_word s) h) as (new & -> & Hnew & Hv'); [apply word_is_ok|lia|].
    apply next_plain; try done. split; [done|]. split; [done|]. split; [done|]. unfold hash_ok. lia.
  - apply InflateThinLocked_ok; [apply alike_seed|done|unfold hash_ok; lia].
  - by apply next_plain.
  - apply ok_return; try done. constructor. unfold abs. simpl. unfold hash_of. by rewrite Hv.
  - by apply never_forward.
Qed.

(** *** Stores to the lock word *)

Lemma ok_word new e :
  word_ok rb new -> (view rb (lock_word s) = VUnlocked \/ exists c, view rb (lock_word s) = VThin t c) ->
  (view rb new = VUnlocked \/ (exists c, view rb new = VThin t c) \/
   exists h, view rb new = VHash h /\ 0 < h /\ hash_ok h) ->
  abs_step (Some e) (abs s)
    {| a_owner := depth_of (pcs s) <$> owner_of new (monitors s); a_waiting := waiting_of (pcs s);
       a_hash := hash_of new (monitors s) |} ->
  ok s (return_ (set_lock_word s new) t e).
Proof.
  intros Hnew Hv Hv' Habs. unfold ok, return_, inv, abs. cbn [lock_word monitors goto update_thread set_threads].
  rewrite next_shape by done. split.
  - by apply (core_word rb (lock_word s) new (monitors s) (pcs s) t p).
  - by rewrite (abs_of_plain _ _ _ t p).
Qed.

Lemma cas_spec c w new s' : cas c s w new = Some s' -> s' = set_lock_word s new /\ lock_word s = w.
Proof. unfold cas. destruct c; try done; case_if; bools; intros [= <-]; done. Qed.

Lemma store_own_spec c w new s' : store_own rb c s w new = Some s' -> s' = set_lock_word s new.
Proof. unfold store_own. destruct rb; [by intros [-> _]%cas_spec|]. by intros [= <-]. Qed.

Lemma EnterCas_ok c trylock n w new :
  view rb w = VUnlocked -> word_ok rb new -> view rb new = VThin t 0 ->
  ok s (match cas c s w new with Some s => return_ s t (Entered t) | None => next s t (EnterRead trylock n) end).
Proof.
  intros Hw Hnew Hv'. destruct (cas c s w new) as [s'|] eqn:E; [|by apply next_plain].
  apply cas_spec in E as [-> <-]. apply ok_word; eauto. unfold owner_of, hash_of. rewrite Hv'. simpl.
  rewrite (depth_plain _ t p) by (done || apply Hplain).
  replace (0 + 1) with 1 by lia.
  replace None with (a_hash (abs s)) by (unfold abs; simpl; unfold hash_of; by rewrite Hw). constructor.
  - unfold abs. simpl. unfold owner_of. by rewrite Hw.
  - apply (not_waiting _ t p); [done|apply Hplain].
Qed.

Lemma EnterStore_ok c trylock n w new d :
  view rb (lock_word s) = VThin t d -> word_ok rb new -> view rb new = VThin t (d + 1) ->
  ok s (match store_own rb c s w new with
        | Some s => return_ s t (Entered t)
        | None => next s t (EnterRead trylock n)
        end).
Proof.
  intros Hw Hnew Hv'. destruct (store_own rb c s w new) as [s'|] eqn:E; [|by apply next_plain].
  apply store_own_spec in E as ->. apply ok_word; eauto. unfold owner_of, hash_of. rewrite Hv'. simpl.
  rewrite (depth_plain _ t p) by (done || apply Hplain).
  replace None with (a_hash (abs s)) by (unfold abs; simpl; unfold hash_of; by rewrite Hw). constructor.
  unfold abs. simpl. unfold owner_of. rewrite Hw. simpl. by rewrite (depth_plain _ t p) by (done || apply Hplain).
Qed.

Lemma ExitStore_ok c w new d :
  view rb (lock_word s) = VThin t d -> word_ok rb new ->
  view rb new = (if d =? 0 then VUnlocked else VThin t (d - 1)) ->
  ok s (match store_own rb c s w new with Some s => return_ s t (Exited t) | None => next s t ExitRead end).
Proof.
  intros Hw Hnew Hv'. destruct (store_own rb c s w new) as [s'|] eqn:E; [|by apply next_plain].
  apply store_own_spec in E as ->.
  apply ok_word; eauto; [destruct (d =? 0); eauto|].
  replace (hash_of new (monitors s)) with (a_hash (abs s))
    by (unfold abs; simpl; unfold hash_of; rewrite Hw, Hv'; by destruct (d =? 0)).
  replace (depth_of (pcs s) <$> owner_of new (monitors s)) with (released t (d + 1)); [constructor|].
  - unfold abs. simpl. unfold owner_of. rewrite Hw. simpl. by rewrite (depth_plain _ t p) by (done || apply Hplain).
  - unfold owner_of, released. rewrite Hv'. destruct (Z.eqb_spec d 0) as [->|]; [done|].
    rewrite (proj2 (Z.eqb_neq _ _)) by lia. simpl.
    rewrite (depth_plain _ t p) by (done || apply Hplain). do 2 f_equal. lia.
Qed.

Lemma HashCas_ok c w new h :
  view rb w = VUnlocked -> word_ok rb new -> view rb new = VHash h -> 0 < h -> hash_ok h ->
  ok s (match cas c s w new with Some s => return_ s t (Hashed t h) | None => next s t HashRead end).
Proof.
  intros Hw Hnew Hv' Hh Hok. destruct (cas c s w new) as [s'|] eqn:E; [|by apply next_plain].
  apply cas_spec in E as [-> <-]. apply ok_word; eauto 10. unfold owner_of, hash_of. rewrite Hv'. simpl.
  replace None with (a_owner (abs s)) by (unfold abs; simpl; unfold owner_of; by rewrite Hw). constructor; [|done].
  unfold abs. simpl. unfold hash_of. by rewrite Hw.
Qed.
End Runnable.

(** *** Steps on the monitor *)

Section OnMonitor.
Context (m : Z) (M : Monitor).
Hypothesis Hview : view rb (lock_word s) = VFat m.
Hypothesis HM : monitors s !! m = Some M.

Lemma the_monitor_ok : monitor_ok (pcs s) m M.
Proof. by apply Hinv. Qed.

Lemma owner_fat : owner_of (lock_word s) (monitors s) = (fun o => (o, lock_count_ M)) <$> owner_ M.
Proof. unfold owner_of. rewrite Hview, HM. simpl. by destruct (owner_ M). Qed.

Lemma owner_fat_insert M' :
  owner_of (lock_word s) (<[m := M']> (monitors s)) = (fun o => (o, lock_count_ M')) <$> owner_ M'.
Proof. unfold owner_of. rewrite Hview, lookup_insert_eq. simpl. by destruct (owner_ M'). Qed.

Lemma hash_fat : hash_of (lock_word s) (monitors s) = if hash_code_ M =? 0 then None else Some (hash_code_ M).
Proof. unfold hash_of. by rewrite Hview, HM. Qed.

Lemma hash_fat_insert M' :
  hash_of (lock_word s) (<[m := M']> (monitors s)) =
  if hash_code_ M' =? 0 then None else Some (hash_code_ M').
Proof. unfold hash_of. by rewrite Hview, lookup_insert_eq. Qed.

(** A step that replaces the monitor. *)
Lemma ok_monitor s' M' p' e :
  lock_word s' = lock_word s -> monitors s' = <[m := M']> (monitors s) -> pcs s' = pcs s ->
  safepoint p' = true \/ free_running (pcs s) t ->
  (forall u, u <> t -> owner_ M' = Some u -> owner_ M = Some u) ->
  (forall u, u <> t -> owner_ M = Some u -> owner_ M' = Some u /\ lock_count_ M' = lock_count_ M) ->
  hash_ok (hash_code_ M') -> count_ok (lock_count_ M') -> (owner_ M' = None -> lock_count_ M' = 0) ->
  num_waiters_ M' = num_waiters_ M - weight m p + weight m p' ->
  (forall m', m' <> m -> weight m' p' = weight m' p) -> private_monitor p' = None ->
  pc_ok rb (lock_word s) (<[m := M']> (monitors s)) (<[t := p']> (pcs s)) t p' ->
  abs_step e (abs s) (abs_of (lock_word s) (<[m := M']> (monitors s)) (<[t := p']> (pcs s))) ->
  ok s (Next (goto s' t p') e).
Proof.
  intros Ew Em Ep Hsafe Ho1 Ho2 Hh Hc Hf Hn Hw Hpriv Hpc Habs. unfold ok, inv, abs in *.
  cbn [lock_word monitors goto update_thread set_threads]. rewrite next_shape, Ew, Em by done.
  split; [|done]. eapply core_monitor; try done.
  - intros u Hu Eo Hl. destruct (Ho2 u Hu Eo) as [? ->]. done.
  - apply (monitor_ok_insert _ t p p' m M M'); try done; [apply the_monitor_ok|].
    intros o Eo. destruct (decide (o = t)); [by right|left; by apply Ho1].
Qed.

Lemma TryLockLocked_spec M0 :
  owner_ M0 = owner_ M -> lock_count_ M0 = lock_count_ M ->
  match TryLockLocked t M0 with
  | Locked M' => exists c, M' = with_owner M0 (Some t) c /\ count_ok c /\
      (owner_ M = None /\ c = 0 \/ owner_ M = Some t /\ c = lock_count_ M + 1)
  | Contended => exists o, owner_ M = Some o /\ o <> t
  | LockCheckFails => False
  | LockOverflows => owner_ M = Some t /\ lock_count_ M = 2 ^ 31 - 1
  end.
Proof.
  intros Eo Ec. destruct the_monitor_ok as [_ _ Hc Hf _ _]. unfold TryLockLocked. rewrite Eo, Ec.
  destruct (owner_ M) as [o|] eqn:E; [case_if; bools; subst; [case_if; bools|]|].
  - done.
  - eexists. split; [done|]. unfold count_ok in *. split; [lia|by right].
  - eauto.
  - rewrite Hf by done. simpl. exists 0. split; [done|]. split; [done|by left].
Qed.

Section Running.
Hypothesis Hfree : free_running (pcs s) t.
Hypothesis Hweight : forall m, weight m p = 0.
Hypothesis Hplain : plain p.

(** A call that returns after it replaced the monitor. *)
Lemma ok_monitor_return s' M' e :
  lock_word s' = lock_word s -> monitors s' = <[m := M']> (monitors s) -> pcs s' = pcs s ->
  (forall u, u <> t -> owner_ M' = Some u -> owner_ M = Some u) ->
  (forall u, u <> t -> owner_ M = Some u -> owner_ M' = Some u /\ lock_count_ M' = lock_count_ M) ->
  hash_ok (hash_code_ M') -> count_ok (lock_count_ M') -> (owner_ M' = None -> lock_count_ M' = 0) ->
  num_waiters_ M' = num_waiters_ M ->
  abs_step (Some e) (abs s)
    {| a_owner := (fun o => depth_of (pcs s) (o, lock_count_ M')) <$> owner_ M'; a_waiting := waiting_of (pcs s);
       a_hash := if hash_code_ M' =? 0 then None else Some (hash_code_ M') |} ->
  ok s (return_ s' t e).
Proof.
  intros Ew Em Ep Ho1 Ho2 Hh Hc Hf Hn Habs. apply (ok_monitor s' M'); try done.
  - by left.
  - rewrite Hweight. simpl. lia.
  - rewrite (abs_of_plain _ _ _ t p) by done. rewrite owner_fat_insert, hash_fat_insert.
    by rewrite <- option_fmap_compose.
Qed.

Lemma abs_owner_fat : a_owner (abs s) = (fun o => depth_of (pcs s) (o, lock_count_ M)) <$> owner_ M.
Proof. unfold abs. simpl. rewrite owner_fat. by rewrite <- option_fmap_compose. Qed.

Lemma abs_hash_fat : a_hash (abs s) = if hash_code_ M =? 0 then None else Some (hash_code_ M).
Proof. apply hash_fat. Qed.

Lemma owned_fat : owned_by (abs s) t <-> owner_ M = Some t.
Proof.
  unfold owned_by. rewrite abs_owner_fat. destruct (owner_ M) as [o|]; simpl.
  - split; [intros [n [= -> _]]; done|intros [= ->]; eauto].
  - split; [by intros []|done].
Qed.

Lemma TryLock_ok : ok s (TryLock t m s).
Proof.
  unfold TryLock, on_monitor. rewrite HM. pose proof (TryLockLocked_spec M eq_refl eq_refl) as H.
  pose proof the_monitor_ok as Hm. destruct (TryLockLocked t M) as [M'| | |].
  - destruct H as (c & -> & Hc & Hor). apply (ok_monitor_return _ (with_owner M (Some t) c)); try done.
    + intros u Hu [= ->]. done.
    + intros u Hu Eo. destruct Hor as [[? _]|[? _]]; congruence.
    + apply Hm.
    + simpl. rewrite (depth_plain _ t p) by (done || apply Hplain). rewrite <- abs_hash_fat.
      destruct Hor as [[Eo ->]|[Eo ->]].
      * apply abs_enter; [by rewrite abs_owner_fat, Eo|]. apply (not_waiting _ t p); [done|apply Hplain].
      * apply abs_enter_again. rewrite abs_owner_fat, Eo. simpl. by rewrite (depth_plain _ t p) by (done || apply Hplain).
  - destruct H as (o & Eo & Hne). apply ok_return; try done.
    eapply abs_try_fails; [|done]. by rewrite abs_owner_fat, Eo.
  - done.
  - destruct H as [Eo El]. exists t. rewrite abs_owner_fat, Eo. simpl.
    rewrite (depth_plain _ t p) by (done || apply Hplain). by rewrite El.
Qed.

Lemma Unlock_ok c : ok s (Unlock t m c s).
Proof.
  unfold Unlock, on_monitor. rewrite HM. pose proof the_monitor_ok as Hm. case_bool_decide as E.
  2: { apply ok_return; try done. constructor. by rewrite owned_fat. }
  assert (a_owner (abs s) = Some (t, lock_count_ M + 1)) as Ha.
  { rewrite abs_owner_fat, E. simpl. by rewrite (depth_plain _ t p) by (done || apply Hplain). }
  pose proof (abs_exit (abs s) t _ Ha) as Hexit. rewrite abs_hash_fat in Hexit. unfold released in Hexit.
  case_if; bools.
  - destruct (signal_contender c m _) as [s'|] eqn:Es; [|done]. destruct (signal_alike _ _ _ _ Es) as (Ew & Em & Ep).
    apply (ok_monitor_return _ (with_owner M None 0)); try done.
    + intros u Hu Eo. congruence.
    + apply Hm.
    + rewrite E0 in Hexit. exact Hexit.
  - apply (ok_monitor_return _ (with_owner M (Some t) (lock_count_ M - 1))); try done.
    + intros u Hu [= ->]. done.
    + intros u Hu Eo. congruence.
    + apply Hm.
    + destruct Hm as [_ _ Hc _ _ _]. unfold count_ok in *. simpl. lia.
    + rewrite (proj2 (Z.eqb_neq _ _)) in Hexit by lia. simpl.
      rewrite (depth_plain _ t p) by (done || apply Hplain).
      replace (lock_count_ M - 1 + 1) with (lock_count_ M + 1 - 1) by lia. exact Hexit.
Qed.

Lemma unchanged_owner e :
  abs_step (Some e) (abs s) (abs s) ->
  abs_step (Some e) (abs s)
    {| a_owner := (fun o => depth_of (pcs s) (o, lock_count_ M)) <$> owner_ M; a_waiting := waiting_of (pcs s);
       a_hash := if hash_code_ M =? 0 then None else Some (hash_code_ M) |}.
Proof. rewrite <- abs_owner_fat, <- abs_hash_fat. by destruct (abs s) eqn:E; injection E as <- <- <-. Qed.

Lemma Notify_ok all : ok s (Notify t m all s).
Proof.
  unfold Notify, on_monitor. rewrite HM. pose proof the_monitor_ok as Hm. case_bool_decide as E.
  2: { apply ok_return; try done. constructor. by rewrite owned_fat. }
  assert (forall l s', alike s s' -> ok s (return_ (put_monitor s' m (with_wait_set M l)) t (Notified t))) as Hret.
  { intros l s' (Ew & Em & Ep). apply (ok_monitor_return _ (with_wait_set M l)); try done; try apply Hm.
    - simpl. by rewrite Em.
    - apply unchanged_owner. constructor. by apply owned_fat. }
  destruct all; [apply Hret, notify_each_alike|].
  pose proof (notify_first_alike (wait_set_ M) s) as Ha. destruct (notify_first _ _) as [l s']. by apply Hret.
Qed.

Lemma Monitor_GetHashCode_ok c : ok s (Monitor_GetHashCode s t m c).
Proof.
  unfold Monitor_GetHashCode, on_monitor. rewrite HM. pose proof the_monitor_ok as Hm.
  case_if; bools.
  - apply ok_return; try done. constructor. by rewrite abs_hash_fat, (proj2 (Z.eqb_neq _ _)).
  - pose proof (generated_hash (hash_code_seed s)) as Hh.
    destruct (GenerateIdentityHashCode (hash_code_seed s)) as [h seed]. simpl in Hh.
    assert (ok s (return_ (put_monitor (set_seed s seed) m (with_hash M h)) t (Hashed t h))) as Hret.
    { apply (ok_monitor_return _ (with_hash M h)); try done; try apply Hm.
      - unfold hash_ok. simpl. lia.
      - simpl. rewrite <- abs_owner_fat, (proj2 (Z.eqb_neq h 0)) by lia.
        apply (abs_hash (abs s) t h); [|lia]. by rewrite abs_hash_fat, E. }
    destruct c; try exact Hret. by apply next_plain.
Qed.
End Running.

Lemma weight_other m' p' : m' <> m ->
  match p' with
  | LockFat m0 _ _ | LockBlocked m0 _ | LockSleep m0 _ | LockAwake m0 _ | WaitSleep m0 _ _ _
  | WaitAwake m0 _ _ _ | WaitClear m0 _ _ _ | WaitInterrupted m0 _ | WaitThrow m0 _ | WaitRestore m0 _ => m0 = m
  | _ => True
  end -> weight m' p' = 0.
Proof. intros Hm. destruct p'; simpl; try done; intros ->; by rewrite (proj2 (Z.eqb_neq _ _)). Qed.

(** **** [Lock], holding [monitor_lock_] *)

Section Locking.
Context (again : bool) (k : LockReturn) (M0 : Monitor).
Hypothesis Ep : p = LockFat m again k.
Hypothesis Hfree : free_running (pcs s) t.
Hypothesis E1 : owner_ M0 = owner_ M.
Hypothesis E2 : lock_count_ M0 = lock_count_ M.
Hypothesis E3 : hash_code_ M0 = hash_code_ M.
Hypothesis E4 : num_waiters_ M0 = num_waiters_ M - Z.b2z again.

Lemma locking_weight : weight m p = Z.b2z again + after_weight k.
Proof. rewrite Ep. simpl. by rewrite Z.eqb_refl. Qed.

Lemma locking_weight_other m' : m' <> m -> weight m' p = 0.
Proof. intros. rewrite Ep. by apply weight_other. Qed.

Lemma locked_enter c :
  k = AfterEnter -> count_ok c -> owner_ M = None /\ c = 0 \/ owner_ M = Some t /\ c = lock_count_ M + 1 ->
  ok s (return_ (put_monitor s m (with_owner M0 (Some t) c)) t (Entered t)).
Proof.
  intros Ek Hc Hor. pose proof the_monitor_ok as Hm. pose proof locking_weight as Hw. rewrite Ek in Hw. simpl in Hw.
  assert (plain p) as Hplain by (rewrite Ep, Ek; done).
  apply (ok_monitor _ (with_owner M0 (Some t) c)); try done; simpl; try lia.
  - intros u Hu [= ->]. done.
  - intros u Hu Eo. destruct Hor as [[? _]|[? _]]; congruence.
  - rewrite E3. apply Hm.
  - intros m' Hm'. by rewrite locking_weight_other.
  - rewrite (abs_of_plain _ _ _ t p) by done.
    rewrite owner_fat_insert, hash_fat_insert. simpl. rewrite E3, <- abs_hash_fat.
    rewrite (depth_plain _ t p) by (done || apply Hplain). destruct Hor as [[Eo ->]|[Eo ->]].
    + apply abs_enter; [by rewrite abs_owner_fat, Eo|]. apply (not_waiting _ t p); [done|apply Hplain].
    + apply abs_enter_again. rewrite abs_owner_fat, Eo. simpl. by rewrite (depth_plain _ t p) by (done || apply Hplain).
Qed.

Lemma locked_wait prev thrown :
  k = AfterWait prev thrown -> count_ok prev -> owner_ M = None ->
  ok s (Next (goto (put_monitor s m (with_owner M0 (Some t) 0)) t (WaitRestore m prev)) (Some (WaitEnded t thrown))).
Proof.
  intros Ek Hprev Eo. pose proof the_monitor_ok as Hm. pose proof locking_weight as Hw. rewrite Ek in Hw. simpl in Hw.
  apply (ok_monitor _ (with_owner M0 (Some t) 0)); try done; simpl.
  - by right.
  - intros u Hu [= ->]. done.
  - intros u Hu Eo'. congruence.
  - rewrite E3. apply Hm.
  - rewrite Z.eqb_refl, E4, Hw. lia.
  - intros m' Hm'. rewrite locking_weight_other by done. by apply (weight_other m' (WaitRestore m prev)).
  - split; [done|]. split; [done|]. exists (with_owner M0 (Some t) 0). by rewrite lookup_insert_eq.
  - unfold abs_of. rewrite owner_fat_insert, hash_fat_insert, waiting_insert. simpl. rewrite E3, <- abs_hash_fat.
    unfold depth_of. simpl. rewrite lookup_insert_eq. simpl.
    apply (abs_wait_ends (abs s) t); [by rewrite abs_owner_fat, Eo|].
    apply (waiting_lookup _ t p); [done|by rewrite Ep, Ek].
Qed.

Lemma contended :
  locks rb (lock_word s) (monitors s) t m k ->
  ok s (next (put_monitor s m (with_waiters M0 (num_waiters_ M0 + 1))) t (LockBlocked m k)).
Proof.
  intros Hk. pose proof the_monitor_ok as Hm.
  apply (ok_monitor _ (with_waiters M0 (num_waiters_ M0 + 1))); try done; simpl.
  - by left.
  - intros u Hu. by rewrite E1.
  - intros u Hu. by rewrite E1, E2.
  - rewrite E3. apply Hm.
  - rewrite E2. apply Hm.
  - rewrite E1, E2. apply Hm.
  - rewrite Z.eqb_refl, E4, locking_weight. lia.
  - intros m' Hm'. rewrite locking_weight_other by done. by apply (weight_other m' (LockBlocked m k)).
  - destruct k as [|prev thrown]; [done|]. destruct Hk as (_ & Hprev & Hn). split; [done|]. split; [done|].
    intros M1. rewrite lookup_insert_eq. intros [= <-]. simpl. rewrite E1. by apply Hn.
  - rewrite (abs_of_same _ _ _ t p) by (done || rewrite Ep; by destruct k).
    unfold abs_of. rewrite owner_fat_insert, hash_fat_insert. simpl. rewrite E1, E2, E3.
    rewrite <- owner_fat, <- hash_fat. apply abs_silent.
Qed.
End Locking.

Lemma Lock_locked_ok again k :
  p = LockFat m again k -> free_running (pcs s) t -> locks rb (lock_word s) (monitors s) t m k ->
  ok s (Lock_locked t m again k s).
Proof.
  intros Ep Hfree Hk. unfold Lock_locked, on_monitor. rewrite HM. set (M0 := if again then _ else M).
  assert (owner_ M0 = owner_ M /\ lock_count_ M0 = lock_count_ M /\ hash_code_ M0 = hash_code_ M /\
          num_waiters_ M0 = num_waiters_ M - Z.b2z again) as (E1 & E2 & E3 & E4)
    by (unfold M0; destruct again; simpl; repeat split; lia).
  pose proof (TryLockLocked_spec M0 E1 E2) as H. destruct (TryLockLocked t M0) as [M'| | |].
  - destruct H as (c & -> & Hc & Hor). destruct k as [|prev thrown] eqn:Ek; [by eapply locked_enter|].
    destruct Hk as (_ & Hprev & Hn). destruct Hor as [[Eo ->]|[Eo _]]; [|by destruct (Hn M HM)].
    by eapply locked_wait.
  - by eapply contended.
  - done.
  - destruct H as [Eo El]. destruct k as [|prev thrown]; [|by destruct Hk as (_ & _ & Hn); destruct (Hn M HM)].
    exists t. rewrite abs_owner_fat, Eo. simpl. rewrite (depth_plain _ t p) by (done || rewrite Ep; done). by rewrite El.
Qed.

Lemma Lock_blocked_ok k :
  p = LockBlocked m k -> locks rb (lock_word s) (monitors s) t m k -> ok s (Lock_blocked t m k s).
Proof.
  intros Ep Hk. unfold Lock_blocked, on_monitor. rewrite HM.
  destruct (owner_ M); (apply ok_next;
    [first [by apply alike_update|done]|by left|by rewrite Ep|done|rewrite Ep; by destruct k|by rewrite Ep|exact Hk]).
Qed.

(** **** [Wait], holding [monitor_lock_] *)

Lemma wait_begins s' p' prev :
  alike (put_monitor s m (with_owner (with_waiters (AppendToWaitSet M t) (num_waiters_ M + 1)) None 0)) s' ->
  free_running (pcs s) t -> (forall m, weight m p = 0) -> plain p ->
  owner_ M = Some t -> prev = lock_count_ M ->
  (exists throws b, p' = WaitAwake m prev throws b \/ p' = WaitSleep m prev throws b) ->
  ok s (Next (goto s' t p') (Some (WaitBegan t))).
Proof.
  intros (Ew & Em & Epc) Hfree Hw Hplain Eo -> Hp'. pose proof the_monitor_ok as Hm.
  set (M' := with_owner _ None 0) in *.
  assert (weight m p' = 1 /\ (forall m', m' <> m -> weight m' p' = 0) /\ private_monitor p' = None /\
          safepoint p' = true /\ saved_of p' = Some (lock_count_ M + 1)) as (H1 & H2 & H3 & H4 & H5).
  { destruct Hp' as (throws & b & [-> | ->]); simpl; rewrite Z.eqb_refl;
      (split; [done|]; split; [|done]; intros m' Hm'; by rewrite (proj2 (Z.eqb_neq _ _))). }
  assert (a_owner (abs s) = Some (t, lock_count_ M + 1)) as Ha.
  { rewrite abs_owner_fat, Eo. simpl. by rewrite (depth_plain _ t p) by (done || apply Hplain). }
  apply (ok_monitor _ M'); try done.
  - by left.
  - intros u Hu Eo'. congruence.
  - apply Hm.
  - rewrite H1, Hw. simpl. lia.
  - intros m' Hm'. by rewrite Hw, H2.
  - assert (waits rb (lock_word s) (<[m := M']> (monitors s)) t m (lock_count_ M)) as Hwaits.
    { split; [done|]. split; [apply Hm|]. intros M1. rewrite lookup_insert_eq. by intros [= <-]. }
    by destruct Hp' as (throws & b & [-> | ->]).
  - unfold abs_of. rewrite owner_fat_insert, hash_fat_insert, waiting_insert, H5. simpl. rewrite <- abs_hash_fat.
    apply (abs_wait (abs s) t (lock_count_ M + 1)); [done|]. apply (not_waiting _ t p); [done|apply Hplain].
Qed.

Lemma Wait_locked_ok args c :
  free_running (pcs s) t -> (forall m, weight m p = 0) -> plain p -> ok s (Wait_locked t m args c s).
Proof.
  intros Hfree Hw Hplain. unfold Wait_locked, on_monitor. rewrite HM. case_bool_decide as Eo.
  2: { apply ok_return; try done. constructor. by rewrite owned_fat. }
  case_if; [apply ok_return; try done; constructor; by apply owned_fat|].
  destruct (signal_contender c m _) as [s'|] eqn:Es; [|done].
  apply signal_alike in Es. destruct (threads s' !! t) as [th|]; [|done].
  eapply (wait_begins s' _ (lock_count_ M)); try done.
  - eapply alike_trans; [|exact Es]. split; [done|]. split; [done|].
    exact (pcs_update (fun th => with_signalled (SetWaitMonitor th (Some m)) false) t s (fun _ => eq_refl)).
  - destruct (interrupted_ th); eauto.
Qed.

Lemma Wait_restore_ok prev :
  p = WaitRestore m prev -> count_ok prev -> owner_ M = Some t -> ok s (Wait_restore t m prev s).
Proof.
  intros Ep Hprev Eo. unfold Wait_restore, on_monitor. rewrite HM. pose proof the_monitor_ok as Hm.
  set (M' := RemoveFromWaitSet _ t).
  apply (ok_monitor _ M'); try done.
  - by left.
  - intros u Hu [= ->]. done.
  - intros u Hu Eo'. congruence.
  - apply Hm.
  - rewrite Ep. simpl. rewrite Z.eqb_refl. lia.
  - intros m' Hm'. rewrite Ep. symmetry. by apply (weight_other m' (WaitRestore m prev)).
  - replace (abs_of _ _ _) with (abs s); [apply abs_silent|].
    unfold abs, abs_of. rewrite owner_fat_insert, owner_fat, hash_fat_insert, hash_fat, Eo. simpl.
    rewrite (waiting_same _ t p) by (done || by rewrite Ep). f_equal. unfold depth_of. simpl.
    by rewrite Hp, Ep, lookup_insert_eq.
Qed.
End OnMonitor.

(** *** Inflation *)

Lemma owner_of_other w Ms Ms' m :
  view rb w <> VFat m -> (forall m', m' <> m -> Ms' !! m' = Ms !! m') ->
  owner_of w Ms' = owner_of w Ms /\ hash_of w Ms' = hash_of w Ms.
Proof.
  intros Hv Hs. unfold owner_of, hash_of. destruct (view rb w); try done. rewrite Hs by congruence. done.
Qed.

Section Inflating.
Hypothesis Hfree : free_running (pcs s) t.
Hypothesis Hweight : forall m, weight m p = 0.
Hypothesis Hplain : plain p.

(** A step on a monitor that is not installed. *)
Lemma ok_private s' m p' :
  lock_word s' = lock_word s -> pcs s' = pcs s -> view rb (lock_word s) <> VFat m ->
  monitors s !! m = None \/ private_monitor p = Some m ->
  (forall m', m' <> m -> monitors s' !! m' = monitors s !! m') ->
  (forall M', monitors s' !! m = Some M' -> monitor_ok (<[t := p']> (pcs s)) m M') ->
  (forall m', weight m' p' = 0) -> plain p' -> (forall m', private_monitor p' = Some m' -> m' = m) ->
  pc_ok rb (lock_word s) (monitors s') (<[t := p']> (pcs s)) t p' ->
  ok s (next s' t p').
Proof.
  intros Ew Ep Hv Hown Hsame Hm Hw Hpl Hpriv Hpc. unfold ok, next, inv, abs in *.
  cbn [lock_word monitors goto update_thread set_threads]. rewrite next_shape, Ew by done. split.
  - eapply (core_private rb _ (monitors s)); try done. intros m'. by rewrite Hw, Hweight.
  - rewrite (abs_of_plain _ _ _ t p) by done.
    destruct (owner_of_other (lock_word s) (monitors s) (monitors s') m Hv Hsame) as [-> ->]. apply abs_silent.
Qed.

Lemma after_inflate_plain resume k :
  (forall m, weight m (after_inflate resume k) = 0) /\ plain (after_inflate resume k) /\
  private_monitor (after_inflate resume k) = None /\
  forall P, keeps_suspended P t resume ->
    pc_ok rb (lock_word s) (monitors s) P t (after_inflate resume k).
Proof. destruct resume as [o|], k; simpl; done. Qed.

Lemma release_ok m resume k :
  view rb (lock_word s) <> VFat m -> private_monitor p = Some m -> keeps_suspended (pcs s) t resume ->
  ok s (next (ReleaseMonitor s m) t (after_inflate resume k)).
Proof.
  intros Hv Hpriv Hk. destruct (after_inflate_plain resume k) as (H1 & H2 & H3 & H4).
  apply (ok_private _ m); try done.
  - by right.
  - intros m' Hm'. simpl. by rewrite lookup_delete_ne.
  - intros M'. simpl. by rewrite lookup_delete_eq.
  - intros m' E. congruence.
  - assert (keeps_suspended (<[t := after_inflate resume k]> (pcs s)) t resume) as Hk'.
    { intros o Er. destruct (Hk o Er) as [Hne (q & Hq & Hs)]. split; [done|]. exists q. by rewrite lookup_insert_ne. }
    specialize (H4 _ Hk'). by destruct resume as [o|], k.
Qed.

Lemma owner_checked_ok owner h resume :
  holds_suspended p = resume -> inflatable rb (lock_word s) (pcs s) t owner h resume ->
  owner_checked s t owner = true.
Proof.
  intros Hh (_ & _ & Ho). destruct owner as [o|]; [|done]. simpl. destruct Ho as [_ [[-> _]|Er]].
  - by rewrite Z.eqb_refl.
  - apply orb_true_iff. right. apply suspended_spec. exists t, p. split; [done|congruence].
Qed.

Lemma inflatable_cases owner h resume :
  inflatable rb (lock_word s) (pcs s) t owner h resume ->
  match view rb (lock_word s) with
  | VThin o _ => owner = Some o
  | VHash h' => owner = None /\ h = h'
  | VFat _ => True
  | _ => False
  end.
Proof.
  intros (_ & _ & Ho). destruct owner as [o|].
  - by destruct Ho as [[[c ->]|[m ->]] _].
  - by destruct Ho as (_ & _ & [-> |[m ->]]).
Qed.

Lemma CreateMonitor_ok c owner h resume k :
  holds_suspended p = resume -> inflatable rb (lock_word s) (pcs s) t owner h resume ->
  ok s (CreateMonitor s t c owner h resume k).
Proof.
  intros Hh Hinf. unfold CreateMonitor. destruct c as [| | |m| | |]; try done. case_if; [|done].
  rewrite !andb_true_iff, bool_decide_eq_true in E. destruct E as [[Hn H0] H1]. bools.
  rewrite (owner_checked_ok owner h resume) by done.
  assert (view rb (lock_word s) <> VFat m) as Hv.
  { intros E. pose proof (c_view _ _ _ _ Hinv) as H. rewrite E in H. destruct H as [M H]. congruence. }
  set (M := {| num_waiters_ := 0 |}). apply (ok_private _ m); try done.
  - by left.
  - intros m' Hm'. simpl. by rewrite lookup_insert_ne.
  - intros M'. simpl. rewrite lookup_insert_eq. intros [= <-]. destruct Hinf as (Hhash & Hk & Ho). split; try done.
    + intros o Eo. simpl in Eo. subst owner. destruct Ho as [_ [[-> _]|Er]]; [rewrite lookup_insert_eq; by eexists|].
      destruct (Hk o Er) as [_ (q & Hq & _)]. apply (insert_is_Some _ t p); [done|by eexists].
    + rewrite (waiters_insert m _ t _ p), (waiters_view rb _ _ _ m Hinv Hv), Hweight; done.
  - intros m' [= ->]. done.
  - split; [done|]. exists M. simpl. rewrite lookup_insert_eq. split; [done|]. split; [done|].
    by apply inflatable_self.
Qed.

Lemma Install_read_ok m resume k M :
  p = Install m resume k -> view rb (lock_word s) <> VFat m -> monitors s !! m = Some M ->
  lock_count_ M = 0 -> inflatable rb (lock_word s) (pcs s) t (owner_ M) (hash_code_ M) resume ->
  ok s (Install_read rb s t m resume k).
Proof.
  intros Ep Hv HM Hl Hinf. unfold Install_read, on_monitor. rewrite HM.
  assert (holds_suspended p = resume /\ private_monitor p = Some m) as [Hh Hpm] by (by rewrite Ep).
  rewrite (owner_checked_ok _ _ _ Hh Hinf). simpl. pose proof view_of_state as Hview.
  pose proof (c_monitors _ _ _ _ Hinv m M HM) as Hm. pose proof Hinf as (_ & Hk & _).
  pose proof (inflatable_cases _ _ _ Hinf) as Hcases. rewrite Hview in Hcases.
  destruct (state_of rb (lock_word s)) eqn:Es.
  - done.
  - destruct (thin_ranges _ _ _ _ word_is_ok Hview) as [_ Hc].
    rewrite bool_decide_true by done. apply (ok_private _ m); try done.
    + by right.
    + intros m' Hm'. simpl. by rewrite lookup_insert_ne.
    + intros M'. simpl. rewrite lookup_insert_eq. intros [= <-].
      apply (monitor_ok_insert _ t p _ m M); simpl; try done; try apply Hm.
      * unfold count_ok. change kThinLockMaxCount with 4095 in Hc. lia.
      * congruence.
      * by left.
      * rewrite Hweight. lia.
    + intros m' [= ->]. done.
    + split; [done|]. eexists. simpl. rewrite lookup_insert_eq. split; [done|]. split; [by apply inflatable_self|].
      split; [apply word_is_ok|]. by rewrite Hview.
  - by apply release_ok.
  - destruct Hcases as [Eo Eh]. rewrite Eh, Z.eqb_refl. apply (ok_private _ m); try done.
    + by right.
    + intros M'. rewrite HM. intros [= <-]. by eapply monitor_ok_same.
    + intros m' [= ->]. done.
    + split; [done|]. exists M. split; [done|]. split; [by apply inflatable_self|].
      split; [apply word_is_ok|]. by rewrite Hview.
  - by apply never_forward.
Qed.

(** The monitor is published. *)
Lemma installed_ok m resume k M :
  p = InstallCas m (lock_word s) resume k -> monitors s !! m = Some M ->
  inflatable rb (lock_word s) (pcs s) t (owner_ M) (hash_code_ M) resume ->
  match view rb (lock_word s) with
  | VThin o c => owner_ M = Some o /\ lock_count_ M = c
  | VHash h => owner_ M = None /\ lock_count_ M = 0 /\ hash_code_ M = h
  | _ => False
  end ->
  ok s (next (set_lock_word s (FromMonitorId m (GCState (lock_word s)))) t (InflateCheck resume k)).
Proof.
  intros Ep HM Hinf Hcase. pose proof (c_monitors _ _ _ _ Hinv m M HM) as Hm.
  destruct (fat_word rb (lock_word s) m word_is_ok (mon_id _ _ _ Hm)) as [Hnew Hv'].
  set (new := FromMonitorId _ _) in *. unfold ok, next, inv, abs.
  cbn [lock_word monitors goto update_thread set_threads set_lock_word]. rewrite next_shape by done.
  pose proof Hinf as (_ & Hk & Ho). split.
  - eapply (core_update rb (lock_word s) new (monitors s) (monitors s) (pcs s) t p); try done.
    + right. right. exists m, p. split; [done|]. split; [done|]. split; [by rewrite Ep|].
      destruct (view rb (lock_word s)) as [|o c| |h|] eqn:Hv; try done; [right|left; eauto].
      exists o, c. split; [done|]. destruct Hcase as [Eo _]. rewrite Eo in Ho.
      destruct Ho as [_ [[-> _]|Er]]; [by left|right; by apply (Hk o)].
    + apply mframe_refl.
    + by right.
    + rewrite Hv'. by exists M.
    + intros m' M' HM'. by eapply monitor_ok_same.
    + split; [eauto|]. intros o Er. destruct (Hk o Er) as [Hne (q & Hq & Hs)]. split; [done|].
      exists q. by rewrite lookup_insert_ne.
  - rewrite (abs_of_plain _ _ _ t p) by done. unfold abs_of, owner_of, hash_of. rewrite Hv', HM. simpl.
    destruct (view rb (lock_word s)) as [|o c| |h|] eqn:Hv; try done.
    + destruct Hcase as [-> ->]. simpl. destruct (Z.eqb_spec (hash_code_ M) 0); [apply abs_silent|].
      pose proof (mon_hash _ _ _ Hm) as Hh. unfold hash_ok in Hh.
      apply (abs_choose_hash {| a_owner := _; a_waiting := _; a_hash := None |}); [done|lia].
    + destruct Hcase as (Eo & _ & <-). rewrite Eo in *. simpl. destruct Ho as (_ & Hpos & _).
      rewrite (proj2 (Z.eqb_neq _ _)) by lia. apply abs_silent.
Qed.

Lemma Install_cas_ok m w c resume k M :
  p = InstallCas m w resume k -> view rb (lock_word s) <> VFat m -> monitors s !! m = Some M ->
  inflatable rb (lock_word s) (pcs s) t (owner_ M) (hash_code_ M) resume ->
  match view rb w with
  | VThin o c => owner_ M = Some o /\ lock_count_ M = c
  | VHash h => owner_ M = None /\ lock_count_ M = 0 /\ hash_code_ M = h
  | _ => False
  end ->
  ok s (Install_cas s t m w c resume k).
Proof.
  intros Ep Hv HM Hinf Hcase. unfold Install_cas. destruct (cas c s w _) as [s'|] eqn:E.
  - apply cas_spec in E as [-> <-]. by eapply installed_ok.
  - apply release_ok; [done|by rewrite Ep|apply Hinf].
Qed.

Lemma return_ok resume k :
  keeps_suspended (pcs s) t resume -> ok s (next s t (after_inflate resume k)).
Proof.
  intros Hk. destruct (after_inflate_plain resume k) as (H1 & H2 & H3 & H4). apply next_plain; try done.
  apply H4. intros o Er. destruct (Hk o Er) as [Hne (q & Hq & Hs)]. split; [done|]. exists q. by rewrite lookup_insert_ne.
Qed.

Lemma Suspend_ok o h k c :
  o <> t -> hash_ok h -> ok s (SuspendThreadByThreadId s t o h c k).
Proof.
  intros Hne Hh. assert (ok s (next s t (after_inflate None k))) as Hret by (by apply return_ok).
  assert (ok s (match threads s !! o with
                | Some th => if safepoint (pc th) then next s t (InflateSuspended o h k) else Blocked
                | None => next s t (after_inflate None k)
                end)) as Hgo.
  { destruct (threads s !! o) as [th|] eqn:Eo; [|done]. case_if; [|done]. apply next_plain; try done.
    split; [done|]. intros o' [= <-]. split; [done|]. exists (pc th).
    rewrite lookup_insert_ne by done. split; [by apply lookup_pcs|done]. }
  by destruct c.
Qed.

Lemma Suspended_ok o h k :
  hash_ok h -> keeps_suspended (pcs s) t (Some o) ->
  ok s (if bool_decide (state_of rb (lock_word s) = kThinLocked) && (ThinLockOwner (lock_word s) =? o)
        then next s t (Inflate (Some o) h (Some o) k) else next s t (InflateResume o k)).
Proof.
  intros Hh Hk. case_if; [|by apply (return_ok (Some o))].
  apply andb_true_iff in E as [Es%bool_decide_eq_true Eo]. bools. apply next_plain; try done.
  apply inflatable_self. split; [done|]. split; [done|]. split; [left|by right].
  exists (ThinLockCount (lock_word s)). rewrite view_of_state, Es. congruence.
Qed.

Lemma InflateCheck_ok resume k :
  (exists m, view rb (lock_word s) = VFat m) -> keeps_suspended (pcs s) t resume ->
  ok s (if bool_decide (state_of rb (lock_word s) = kFatLocked) then next s t (after_inflate resume k) else Abort).
Proof.
  intros [m Hv] Hk. rewrite bool_decide_true; [by apply return_ok|].
  rewrite view_of_state in Hv. by destruct (state_of rb (lock_word s)).
Qed.
End Inflating.

Lemma fat_monitor m : view rb (lock_word s) = VFat m -> exists M, monitors s !! m = Some M.
Proof. intros Hv. pose proof (c_view _ _ _ _ Hinv) as H. by rewrite Hv in H. Qed.

Lemma locks_view m k : locks rb (lock_word s) (monitors s) t m k -> view rb (lock_word s) = VFat m.
Proof. destruct k; simpl; [done|by intros [? _]]. Qed.
End Op.

(** *** All steps of a thread *)

(** Steps that move the thread and nothing else; [H] says where it stands. *)
Ltac just_moves H := eapply (ok_next _ _ _ ltac:(eassumption) H); try done.

Lemma runnable_step_ok s t c th :
  inv rb s -> threads s !! t = Some th -> free_running (pcs s) t -> ok s (runnable_step rb spins t c th s).
Proof.
  intros Hinv Ht%lookup_pcs Hfree. pose proof (c_pcs _ _ _ _ Hinv t _ Ht) as Hok. unfold runnable_step.
  destruct (pc th) eqn:E; cbn [pc_ok] in Hok;
    try (destruct (fat_monitor s Hinv m ltac:(first [exact Hok|eapply locks_view; exact Hok|apply Hok])) as [M HM]).
  - destruct c as [|call| | | | |]; try done. eapply next_plain; try done; by destruct call.
  - by eapply MonitorEnter_ok.
  - destruct Hok as (H1 & H2 & H3). by eapply EnterCas_ok.
  - destruct Hok as (d & H1 & H2 & H3). by eapply EnterStore_ok.
  - by eapply TryLock_ok.
  - eapply Lock_locked_ok; try done. by eapply locks_view.
  - done.
  - done.
  - just_moves Ht. by right.
  - by eapply MonitorExit_ok.
  - destruct Hok as (d & H1 & H2 & H3). by eapply ExitStore_ok.
  - by eapply Unlock_ok.
  - by eapply Wait_ok.
  - by eapply Wait_locked_ok.
  - done.
  - just_moves Ht. by right.
  - destruct (was_interrupted && throws); just_moves Ht; try (by apply alike_update); by right.
  - just_moves Ht; [by apply alike_update|by left].
  - just_moves Ht. by right.
  - destruct Hok as (Hv & Hc & M' & HM' & Eo & El). assert (M' = M) as -> by congruence. by eapply Wait_restore_ok.
  - by eapply DoNotify_ok.
  - by eapply Notify_ok.
  - by eapply IdentityHashCode_ok.
  - destruct Hok as (H1 & H2 & H3 & H4 & H5). by eapply HashCas_ok.
  - by eapply Monitor_GetHashCode_ok.
  - destruct Hok. by eapply Suspend_ok.
  - destruct Hok. by eapply Suspended_ok.
  - by eapply CreateMonitor_ok.
  - destruct Hok as (Hv & M & HM & Hl & Hinf). by eapply Install_read_ok.
  - destruct Hok as (Hv & M & HM & Hinf & _ & Hcase). by eapply Install_cas_ok.
  - destruct Hok. by eapply InflateCheck_ok.
  - by eapply return_ok.
Qed.

Lemma native_step_ok s t c th :
  inv rb s -> threads s !! t = Some th -> native (pc th) = true -> ok s (native_step t c th s).
Proof.
  intros Hinv Ht%lookup_pcs Hn. pose proof (c_pcs _ _ _ _ Hinv t _ Ht) as Hok. unfold native_step.
  destruct (pc th) eqn:E; try done; cbn [pc_ok] in Hok.
  - pose proof (locks_view _ _ _ _ Hok) as Hv. destruct (fat_monitor s Hinv m Hv) as [M HM]. by eapply Lock_blocked_ok.
  - case_if; [|done]. just_moves Ht. by left.
  - case_if; [|done]. just_moves Ht. by left.
Qed.

(** *** Deflation *)

(** Where a thread is that neither runs nor counts on the monitor. *)
Definition idle (t : Z) (p : Pc) : Prop :=
  p = Running \/ exists o h k, p = InflateSuspend o h k /\ o <> t /\ hash_ok h.

Lemma idle_at_safepoint s m M t p :
  inv rb s -> view rb (lock_word s) = VFat m -> monitors s !! m = Some M -> num_waiters_ M <= 0 ->
  pcs s !! t = Some p -> safepoint p = true -> idle t p.
Proof.
  intros Hinv Hv HM Hn Hp Hs. pose proof (mon_waiters _ _ _ (c_monitors _ _ _ _ Hinv m M HM)) as Hw.
  pose proof (waiters_ge m _ t p Hp) as Hge. pose proof (c_pcs _ _ _ _ Hinv t p Hp) as Hok.
  assert (forall m' k, locks rb (lock_word s) (monitors s) t m' k -> m' = m) as Hl.
  { intros m' k H%locks_view. congruence. }
  assert (forall m' n, waits rb (lock_word s) (monitors s) t m' n -> m' = m) as Hwt.
  { intros m' n [H _]. congruence. }
  destruct p; try done; cbn [pc_ok weight] in *; [by left|..|destruct Hok; right; eauto 10];
    (first [apply Hl in Hok|apply Hwt in Hok]); subst m0; rewrite Z.eqb_refl in Hge;
    try (destruct k; simpl in Hge); lia.
Qed.

Lemma core_deflate w w' m Ms P :
  core rb w Ms P -> (forall t p, P !! t = Some p -> idle t p) ->
  word_ok rb w' -> view_ok (delete m Ms) P (view rb w') -> core rb w' (delete m Ms) P.
Proof.
  intros Hcore Hidle Hw Hv. split; try done.
  - apply Hcore.
  - intros m' M HM. apply Hcore. by apply lookup_delete_Some in HM as [_ HM].
  - intros t p Hp. destruct (Hidle t p Hp) as [-> |(o & h & k & -> & H)]; done.
  - intros t u p q m' Hp _ Hpm. destruct (Hidle t p Hp) as [-> |(o & h & k & -> & _)]; done.
Qed.

Lemma deflated_ok s m w' :
  inv rb s -> (forall t p, pcs s !! t = Some p -> idle t p) -> word_ok rb w' ->
  view_ok (delete m (monitors s)) (pcs s) (view rb w') ->
  owner_of w' (delete m (monitors s)) = owner_of (lock_word s) (monitors s) ->
  hash_of w' (delete m (monitors s)) = hash_of (lock_word s) (monitors s) ->
  ok s (Next (ReleaseMonitor (set_lock_word s w') m) None).
Proof.
  intros Hinv Hidle Hw Hv Eo Eh. split.
  - by apply (core_deflate (lock_word s)).
  - replace (abs (ReleaseMonitor (set_lock_word s w') m)) with (abs s); [constructor|].
    unfold abs, abs_of. simpl. by rewrite Eo, Eh.
Qed.

Lemma Deflate_ok s :
  inv rb s -> (forall t p, pcs s !! t = Some p -> safepoint p = true) -> ok s (Deflate rb s).
Proof.
  intros Hinv Hsafe. assert (ok s (Next s None)) as Hskip by (split; [done|constructor]).
  unfold Deflate. pose proof (view_of_state s) as Hv. destruct (state_of rb (lock_word s)) eqn:Es; try done.
  destruct (fat_monitor s Hinv _ Hv) as [M HM]. unfold on_monitor. rewrite HM.
  set (m := FatLockMonitorId (lock_word s)) in *. pose proof (c_monitors _ _ _ _ Hinv m M HM) as Hm.
  pose proof (owner_fat s m M Hv HM) as Eo. pose proof (hash_fat s m M Hv HM) as Eh.
  pose proof (c_word _ _ _ _ Hinv) as Hw.
  case_if; [done|]. bools.
  assert (forall t p, pcs s !! t = Some p -> idle t p) as Hidle by (intros t p Hp; eapply idle_at_safepoint; eauto).
  destruct (owner_ M) as [o|] eqn:EM.
  - case_if; [done|]. bools. destruct (mon_owner _ _ _ Hm o EM) as [po Hpo].
    pose proof (c_ids _ _ _ _ Hinv o po Hpo) as Hid. pose proof (mon_count _ _ _ Hm) as Hc. unfold count_ok in Hc.
    rewrite wrap_u_id by (unfold in_u; lia). case_if; [done|]. bools.
    destruct (thin_word rb (lock_word s) o (lock_count_ M)) as (new & -> & Hnew & Hv'); [done..|lia|].
    apply deflated_ok; try done.
    + rewrite Hv'. by exists po.
    + rewrite Eo. unfold owner_of. by rewrite Hv'.
    + rewrite Eh, E0. unfold hash_of. by rewrite Hv'.
  - case_if; bools.
    + pose proof (mon_hash _ _ _ Hm) as Hh.
      destruct (hash_word rb (lock_word s) (hash_code_ M)) as (new & -> & Hnew & Hv'); [done..|].
      apply deflated_ok; try done.
      * rewrite Hv'. unfold hash_ok in *. split; [lia|done].
      * rewrite Eo. unfold owner_of. by rewrite Hv'.
      * rewrite Eh, (proj2 (Z.eqb_neq _ _)) by done. unfold hash_of. by rewrite Hv'.
    + destruct (default_word rb (lock_word s) Hw) as [Hnew Hv'].
      apply deflated_ok; try done.
      * by rewrite Hv'.
      * rewrite Eo. unfold owner_of. by rewrite Hv'.
      * rewrite Eh, E0. unfold hash_of. by rewrite Hv'.
Qed.

(** ** Every step *)

Lemma ok_view s w :
  inv rb s -> word_ok rb w -> view rb w = view rb (lock_word s) -> ok s (Next (set_lock_word s w) None).
Proof.
  intros [H1 H2 H3 H4 H5 H6] Hw Hv. split.
  - split; try done; simpl; [by rewrite Hv|]. intros t p Hp. specialize (H5 t p Hp).
    destruct p; cbn [pc_ok] in *; unfold inflatable, locks, waits in *; try done; rewrite ?Hv; try done.
  - replace (abs (set_lock_word s w)) with (abs s); [constructor|].
    unfold abs, abs_of, owner_of, hash_of. simpl. by rewrite Hv.
Qed.

Lemma Thread_Interrupt_pc th : pc (Thread_Interrupt th) = pc th.
Proof. unfold Thread_Interrupt. case_if; [done|]. by rewrite NotifyLocked_pc. Qed.

Lemma step_ok l s : inv rb s -> ok s (step rb spins l s).
Proof.
  intros Hinv. destruct l as [t c|t|b|b|]; cbn [step].
  - destruct (threads s !! t) as [th|] eqn:Ht; [|done]. case_if; [by apply native_step_ok|].
    case_if; [done|]. apply runnable_step_ok; try done. by apply not_suspended.
  - split.
    + unfold inv. rewrite pcs_update by apply Thread_Interrupt_pc. done.
    + unfold abs. rewrite pcs_update by apply Thread_Interrupt_pc. constructor.
  - case_if; [|done]. apply andb_true_iff in E as [Erb Eb].
    destruct (mark_bit_view rb (lock_word s) b) as [[Hw Hv] _]; [done|apply Hinv|done|]. by apply ok_view.
  - case_if; [|done]. apply andb_true_iff in E as [Erb Eb].
    destruct (mark_bit_view rb (lock_word s) b) as [_ [Hw Hv]]; [done|apply Hinv|done|]. by apply ok_view.
  - case_if; [|done]. apply Deflate_ok; [done|]. intros t p (th & Ht & <-)%pcs_lookup.
    rewrite forallb_forall in E. apply (E (t, th)). by apply list_elem_of_In, elem_of_map_to_list.
Qed.

Lemma initial_ok ids seed :
  Forall (fun t => 1 <= t <= kThinLockMaxOwner) ids ->
  inv rb (initial ids seed) /\ abs (initial ids seed) = abs_initial.
Proof.
  intros Hids.
  assert (forall t p, pcs (initial ids seed) !! t = Some p -> p = Running /\ 1 <= t <= kThinLockMaxOwner) as Hp.
  { intros t p (th & Ht & <-)%pcs_lookup. simpl in Ht. apply elem_of_list_to_map_2 in Ht.
    apply list_elem_of_fmap in Ht as (u & [= -> ->] & Hu). split; [done|].
    rewrite Forall_forall in Hids. by apply Hids, list_elem_of_In. }
  destruct (view_compose rb 0 0 0) as (Hw & _ & Hv); [done..|]. change (compose 0 0 0) with Default in *.
  split.
  - split; simpl; try done.
    + by rewrite Hv.
    + intros t p H. by apply (Hp t p).
    + intros t p H. by destruct (Hp t p H) as [-> _].
    + intros t u p q m H _. by destruct (Hp t p H) as [-> _].
  - unfold abs, abs_of, owner_of, hash_of, abs_initial. simpl. rewrite Hv. simpl. f_equal.
    apply map_eq. intros t. unfold waiting_of. rewrite lookup_omap, lookup_empty.
    destruct (pcs (initial ids seed) !! t) as [p|] eqn:E; [|done]. by destruct (Hp t p E) as [-> _].
Qed.

Lemma run_ok s es s' : run rb spins s es s' -> inv rb s -> inv rb s' /\ abs_run (abs s) es (abs s').
Proof.
  induction 1 as [|l s s' e es s'' Hstep Hrun IH]; intros Hinv; [split; [done|constructor]|].
  pose proof (step_ok l s Hinv) as Hok. rewrite Hstep in Hok. destruct Hok as [Hinv' Ha].
  destruct (IH Hinv') as [H1 H2]. split; [done|]. by econstructor.
Qed.

(** C2. The locks of Java objects refine an abstract monitor.  Threads with ids that fit
    a lock word call [MonitorEnter] (with and without [trylock]), [MonitorExit],
    [Object.wait], [notify], [notifyAll] and [IdentityHashCode] on an object, interleaved
    in any way with each other, interrupts, timeouts, spurious wake-ups and failures of
    compare-and-swap, and with the collector setting its bits and deflating monitors.
    Whatever they returned, a reentrant monitor with one owner could have returned: at
    most one thread is inside, nesting is counted, [wait] gives the monitor up and has it
    back at the same depth before it ends, calls by other threads are refused, and the
    identity hash code is chosen once and kept through inflation and deflation.  No
    [CHECK] fails in any step, and the nesting count overflows only at depth [2 ^ 31]. *)
Theorem monitor_refines_spec (ids : list Z) (seed : Z) es s :
  Forall (fun t => 1 <= t <= kThinLockMaxOwner) ids -> run rb spins (initial ids seed) es s ->
  exists a, abs_run abs_initial es a /\
    forall l, match step rb spins l s with
              | Abort => False
              | Undefined => exists t, a_owner a = Some (t, 2 ^ 31)
              | _ => True
              end.
Proof.
  intros Hids Hrun. destruct (initial_ok ids seed Hids) as [Hinv Ha].
  destruct (run_ok _ _ _ Hrun Hinv) as [Hinv' Habs]. rewrite Ha in Habs. exists (abs s). split; [done|].
  intros l. pose proof (step_ok l s Hinv') as Hok. by destruct (step rb spins l s).
Qed.

Lemma run_schedule_run ls s es : fst <$> run_schedule rb spins ls s = Some es -> exists s', run rb spins s es s'.
Proof.
  revert s es. induction ls as [|l ls IH]; intros s es; simpl; [intros [= <-]; eexists; constructor|].
  destruct (step rb spins l s) as [s1 e| | |] eqn:E; try done.
  destruct (run_schedule rb spins ls s1) as [[es1 s2]|] eqn:E1; [|done]. simpl. intros [= <-].
  destruct (IH s1 es1) as [s' Hs]; [by rewrite E1|]. exists s'. by eapply run_step.
Qed.

End Refinement.

(** Thread 1 locks the object; thread 2 contends, suspends it, inflates the lock and goes
    to sleep; thread 1 asks for the hash code and unlocks, and thread 2 is inside. *)
Definition contention : list Label :=
  [Run 1 (DoCall (CallEnter false)); Run 1 Go; Run 1 Go; Run 2 (DoCall (CallEnter false)); Run 2 Go; Run 2 Go;
   Run 2 Go; Run 2 (NewMonitor 5); Run 2 Go; Run 2 Go; Run 2 Go; Run 2 Go; Run 2 Go; Run 2 Go; Run 2 Go;
   Run 1 (DoCall CallHash); Run 1 Go; Run 1 Go; Run 1 (DoCall CallExit); Run 1 Go; Run 1 (Wake 2);
   Run 2 Go; Run 2 Go; Run 2 Go; Run 2 (DoCall CallExit); Run 2 Go; Run 2 Go; DeflateMonitors;
   Run 1 (DoCall CallHash); Run 1 Go].
Definition contention_events : list Event :=
  [Entered 1; Hashed 1 99; Exited 1; Entered 2; Exited 2; Hashed 1 99].

Lemma contention_run : fst <$> run_schedule true 0 contention (initial [1; 2] 99) = Some contention_events.
Proof. vm_compute. reflexivity. Qed.

Lemma monitor_refines_spec_witness :
  exists s a, run true 0 (initial [1; 2] 99) contention_events s /\ abs_run abs_initial contention_events a.
Proof.
  destruct (run_schedule_run true 0 _ _ _ contention_run) as [s Hs].
  destruct (monitor_refines_spec true 0 [1; 2] 99 contention_events s) as (a & Ha & _); [by repeat constructor|exact Hs|].
  exists s, a. split; [exact Hs|exact Ha].
Defined.
