(* ===== verification/MonitorLiveness.v ===== *)
(** * Wake-ups: contenders and waiters of an inflated lock

    A thread that contends for an inflated lock sleeps on [monitor_contenders_], one that
    waits sleeps on its own condition variable.  The invariants here say who is
    responsible for waking it; the theorems say that a free lock does not stay free while
    somebody sleeps for it, and whom a notification wakes. *)
From stdpp Require Import gmap.
From S2P Require Import Prelude LockWord Monitor MonitorInvariant MonitorRefinement.

(** A contender that is about to look at the owner again. *)
Definition in_flight (m : Z) (th : Thread) : bool :=
  match pc th with
  | LockBlocked m' _ | LockAwake m' _ | LockFat m' true _ => m' =? m
  | LockSleep m' _ => (m' =? m) && signalled th
  | _ => false
  end.

(** A waiter nobody has woken yet. *)
Definition waits_for (m : Z) (th : Thread) : bool :=
  match pc th with WaitSleep m' _ _ _ => (m' =? m) && negb (signalled th) | _ => false end.

(** Neither of them, nor a contender that sleeps. *)
Definition dull (p : Pc) : bool :=
  match p with
  | LockBlocked _ _ | LockAwake _ _ | LockFat _ true _ | LockSleep _ _ | WaitSleep _ _ _ _ => false
  | _ => true
  end.

Lemma dull_thread m th : dull (pc th) = true -> asleep_on m th = false /\ in_flight m th = false /\ waits_for m th = false.
Proof. unfold asleep_on, in_flight, waits_for. by destruct (pc th) as [| | | | |? [] ?| | | | | | | | | | | | | | | | | | | | | | | | | |]. Qed.

#[export] Instance View_eq_dec : EqDecision View.
Proof. solve_decision. Defined.

Section Liveness.
Context (rb : bool) (spins : Z).

(** ** The invariant *)

Record live (s : Sys) : Prop := {
  l_wake : forall m M u th, view rb (lock_word s) = VFat m -> monitors s !! m = Some M -> owner_ M = None ->
    threads s !! u = Some th -> asleep_on m th = true ->
    exists v th', threads s !! v = Some th' /\ in_flight m th' = true;
  l_wait : forall m u th, threads s !! u = Some th -> waits_for m th = true ->
    wait_monitor_ th = Some m /\ exists M, monitors s !! m = Some M /\ u ∈ wait_set_ M;
  l_used : forall m, is_Some (monitors s !! m) ->
    view rb (lock_word s) = VFat m \/ exists t p, pcs s !! t = Some p /\ private_monitor p = Some m
}.

(** What a step may do to the other threads: wake them up. *)
Definition calm (th th' : Thread) : Prop :=
  pc th' = pc th /\ wait_monitor_ th' = wait_monitor_ th /\ (signalled th = true -> signalled th' = true).

Lemma calm_refl th : calm th th.
Proof. done. Qed.
Lemma calm_trans th1 th2 th3 : calm th1 th2 -> calm th2 th3 -> calm th1 th3.
Proof. unfold calm. intuition congruence. Qed.

Lemma calm_flags m th th' :
  calm th th' -> (asleep_on m th' = true -> asleep_on m th = true) /\
    (in_flight m th = true -> in_flight m th' = true) /\ (waits_for m th' = true -> waits_for m th = true).
Proof.
  intros (Ep & _ & Hs). unfold asleep_on, in_flight, waits_for. rewrite Ep.
  destruct (pc th); try done; destruct (m0 =? m); try done; destruct (signalled th), (signalled th'); simpl; auto;
    by specialize (Hs eq_refl).
Qed.

(** The threads of [s'], but for [t], are those of [s]. *)
Definition others (t : Z) (s s' : Sys) : Prop :=
  forall u, u <> t -> match threads s !! u, threads s' !! u with
                      | Some th, Some th' => calm th th'
                      | None, None => True
                      | _, _ => False
                      end.

Lemma others_refl t s : others t s s.
Proof. intros u _. destruct (threads s !! u); [apply calm_refl|done]. Qed.
Lemma others_trans t s1 s2 s3 : others t s1 s2 -> others t s2 s3 -> others t s1 s3.
Proof.
  intros H1 H2 u Hu. specialize (H1 u Hu). specialize (H2 u Hu).
  destruct (threads s1 !! u), (threads s2 !! u), (threads s3 !! u); try done. by eapply calm_trans.
Qed.
Lemma others_update t f s : others t s (update_thread f t s).
Proof. intros u Hu. simpl. rewrite lookup_alter_ne by done. destruct (threads s !! u); [apply calm_refl|done]. Qed.
Lemma others_calm t f u s : (forall th, calm th (f th)) -> others t s (update_thread f u s).
Proof.
  intros Hf v Hv. simpl. destruct (decide (v = u)) as [->|].
  - rewrite lookup_alter_eq. destruct (threads s !! u); [apply Hf|done].
  - rewrite lookup_alter_ne by done. destruct (threads s !! v); [apply calm_refl|done].
Qed.
Lemma others_same t s s' : threads s' = threads s -> others t s s'.
Proof. intros E u _. rewrite E. destruct (threads s !! u); [apply calm_refl|done]. Qed.

Lemma others_back t s s' u th' :
  others t s s' -> u <> t -> threads s' !! u = Some th' -> exists th, threads s !! u = Some th /\ calm th th'.
Proof. intros H Hu E. specialize (H u Hu). rewrite E in H. destruct (threads s !! u); [eauto|done]. Qed.
Lemma others_forth t s s' u th :
  others t s s' -> u <> t -> threads s !! u = Some th -> exists th', threads s' !! u = Some th' /\ calm th th'.
Proof. intros H Hu E. specialize (H u Hu). rewrite E in H. destruct (threads s' !! u); [eauto|done]. Qed.

(** ** Steps *)

Section Step.
Context (s s' : Sys) (t : Z) (th th' : Thread).
Hypothesis Hlive : live s.
Hypothesis Ht : threads s !! t = Some th.
Hypothesis Ht' : threads s' !! t = Some th'.
Hypothesis Hothers : others t s s'.

(** Somebody will see that [m] is free. *)
Definition seen (m : Z) : Prop :=
  (exists v thv, threads s' !! v = Some thv /\ in_flight m thv = true) \/
  (forall u thu, threads s' !! u = Some thu -> asleep_on m thu = false) \/
  (view rb (lock_word s) = VFat m /\ (exists M, monitors s !! m = Some M /\ owner_ M = None) /\
   asleep_on m th' = false /\ in_flight m th = false).

Lemma seen_wakes m u thu :
  seen m -> threads s' !! u = Some thu -> asleep_on m thu = true ->
  exists v thv, threads s' !! v = Some thv /\ in_flight m thv = true.
Proof.
  intros [H|[H|(Hv & (M & HM & Ho) & Hn & Hf)]] Hu Ha; [done|by rewrite (H u thu) in Ha|].
  assert (u <> t) as Hut by congruence. destruct (others_back t s s' u thu) as (th0 & H0 & Hc); [done..|].
  destruct (l_wake s Hlive m M u th0) as (v & thv & Hvt & Hin); [done..|by apply (calm_flags m _ _ Hc)|].
  assert (v <> t) as Hvt0 by congruence. destruct (others_forth t s s' v thv) as (th1 & H1 & Hc1); [done..|].
  exists v, th1. split; [done|by apply (calm_flags m _ _ Hc1)].
Qed.

Lemma live_step :
  (forall m M', view rb (lock_word s') = VFat m -> monitors s' !! m = Some M' -> owner_ M' = None -> seen m) ->
  (forall m M u thu, u <> t -> threads s' !! u = Some thu -> waits_for m thu = true ->
     monitors s !! m = Some M -> u ∈ wait_set_ M -> exists M', monitors s' !! m = Some M' /\ u ∈ wait_set_ M') ->
  (forall m, waits_for m th' = true ->
     wait_monitor_ th' = Some m /\ exists M', monitors s' !! m = Some M' /\ t ∈ wait_set_ M') ->
  (forall m, is_Some (monitors s' !! m) ->
     view rb (lock_word s') = VFat m \/ private_monitor (pc th') = Some m \/
     is_Some (monitors s !! m) /\ view rb (lock_word s) <> VFat m /\ private_monitor (pc th) <> Some m) ->
  live s'.
Proof.
  intros Hwake Hwait Hown Hused. split.
  - intros m M u thu Hv HM Ho Hu Ha. eapply seen_wakes; [by eapply Hwake|done|done].
  - intros m u thu Hu Hw. destruct (decide (u = t)) as [->|Hne].
    + replace thu with th' in * by congruence. by apply Hown.
    + destruct (others_back t s s' u thu) as (th0 & H0 & Hc); [done..|].
      destruct (l_wait s Hlive m u th0) as (Em & M & HM & Hin); [done|by apply (calm_flags m _ _ Hc)|].
      split; [by destruct Hc as (_ & -> & _)|by eapply Hwait].
  - intros m Hm. destruct (Hused m Hm) as [?|[?|(H & Hv & Hp)]]; [by left| |].
    + right. exists t, (pc th'). split; [by apply lookup_pcs|done].
    + destruct (l_used s Hlive m H) as [?|(u & p & (thu & Hu & <-)%pcs_lookup & Hpm)]; [done|].
      assert (u <> t) as Hut by congruence. destruct (others_forth t s s' u thu) as (th1 & H1 & (Ep & _)); [done..|].
      right. exists u, (pc th1). split; [by apply lookup_pcs|congruence].
Qed.

(** The thread moves from one place to another where it neither sleeps nor was woken. *)
Lemma live_dull :
  dull (pc th) = true -> dull (pc th') = true -> private_monitor (pc th) = None ->
  monitors s' = monitors s ->
  (forall m, view rb (lock_word s') = VFat m <-> view rb (lock_word s) = VFat m) ->
  live s'.
Proof.
  intros Hd Hd' Hpm Em Hv. apply live_step; rewrite ?Em.
  - intros m M' Hvm HM Ho. right. right. split; [by apply Hv|]. split; [eauto|].
    split; [by apply dull_thread|by apply dull_thread].
  - eauto.
  - intros m Hw. destruct (dull_thread m th' Hd') as (_ & _ & E). congruence.
  - intros m Hm. destruct (l_used s Hlive m Hm) as [?|H]; [left; by apply Hv|].
    destruct (decide (view rb (lock_word s) = VFat m)); [left; by apply Hv|]. right. right. rewrite Hpm. done.
Qed.

(** A step on the monitor the lock word names. *)
Lemma live_monitor m M M' :
  monitors s !! m = Some M -> monitors s' = <[m := M']> (monitors s) ->
  view rb (lock_word s) = VFat m -> lock_word s' = lock_word s -> private_monitor (pc th) = None ->
  (owner_ M' = None -> seen m) ->
  (forall u thu, u <> t -> threads s' !! u = Some thu -> waits_for m thu = true ->
     u ∈ wait_set_ M -> u ∈ wait_set_ M') ->
  (forall m', waits_for m' th' = true -> m' = m /\ wait_monitor_ th' = Some m /\ t ∈ wait_set_ M') ->
  live s'.
Proof.
  intros HM Em Hv Ew Hpm Hseen Hset Hown. apply live_step; rewrite ?Em, ?Ew.
  - intros m0 M0 Hv0 HM0 Ho. assert (m0 = m) as -> by congruence. rewrite lookup_insert_eq in HM0.
    injection HM0 as <-. by apply Hseen.
  - intros m0 M0 u thu Hu Hthu Hw HM0 Hin. destruct (decide (m0 = m)) as [->|]; simplify_map_eq; eauto.
  - intros m0 Hw. destruct (Hown m0 Hw) as (-> & Hwm & Hin). split; [done|]. exists M'. by rewrite lookup_insert_eq.
  - intros m0 Hm0. destruct (decide (m0 = m)) as [->|]; [by left|]. right. right.
    rewrite lookup_insert_ne in Hm0 by done. rewrite Hpm. split; [done|]. split; congruence.
Qed.
End Step.

Definition lives (out : Outcome) : Prop := match out with Next s' _ => live s' | _ => True end.

Section Op.
Context (s : Sys) (t : Z) (th : Thread).
Hypothesis Hinv : inv rb s.
Hypothesis Hlive : live s.
Hypothesis Ht : threads s !! t = Some th.
Hypothesis Hok : pc_ok rb (lock_word s) (monitors s) (pcs s) t (pc th).

(** [s1] is [s] but for the lock word, the monitors, the seed, signals and what [t] keeps
    about itself. *)
Definition near (s1 : Sys) : Prop := others t s s1 /\ exists th1, threads s1 !! t = Some th1.

Lemma near_same s1 : threads s1 = threads s -> near s1.
Proof. intros E. split; [by apply others_same|]. rewrite E. eauto. Qed.
Lemma near_update f : near (update_thread f t s).
Proof. split; [apply others_update|]. simpl. rewrite lookup_alter_eq, Ht. simpl. eauto. Qed.

Lemma goto_own s1 th1 p' : threads s1 !! t = Some th1 -> threads (goto s1 t p') !! t = Some (with_pc th1 p').
Proof. intros E. simpl. by rewrite lookup_alter_eq, E. Qed.
Lemma goto_others s1 p' : others t s s1 -> others t s (goto s1 t p').
Proof. intros H. eapply others_trans; [exact H|apply others_update]. Qed.

Section Dull.
Hypothesis Hdull : dull (pc th) = true.
Hypothesis Hpriv : private_monitor (pc th) = None.

Lemma move_word s1 p' :
  near s1 -> monitors s1 = monitors s -> dull p' = true ->
  (forall m, view rb (lock_word s1) = VFat m <-> view rb (lock_word s) = VFat m) -> live (goto s1 t p').
Proof.
  intros (Ho & th1 & E1) Em Hd Hv. apply (live_dull s (goto s1 t p') t th (with_pc th1 p')); try done.
  - by apply goto_own.
  - by apply goto_others.
Qed.

Lemma move s1 p' : near s1 -> monitors s1 = monitors s -> lock_word s1 = lock_word s -> dull p' = true ->
  live (goto s1 t p').
Proof. intros H1 H2 H3 H4. apply move_word; try done. by rewrite H3. Qed.

Lemma InflateThinLocked_live s1 w h k :
  threads s1 = threads s -> monitors s1 = monitors s -> lock_word s1 = lock_word s ->
  lives (InflateThinLocked s1 t w h k).
Proof. intros. unfold InflateThinLocked. case_if; by apply move; [apply near_same|..]. Qed.

Ltac moves := repeat case_match; try done; try (by apply InflateThinLocked_live); by apply move; [apply near_same|..].

Lemma MonitorEnter_live trylock n : lives (MonitorEnter rb spins s t trylock n).
Proof. unfold MonitorEnter. moves. Qed.
Lemma MonitorExit_live : lives (MonitorExit rb s t).
Proof. unfold MonitorExit. moves. Qed.
Lemma Wait_live args : lives (Wait rb s t args).
Proof. unfold Wait. moves. Qed.
Lemma DoNotify_live all : lives (DoNotify rb s t all).
Proof. unfold DoNotify. moves. Qed.
Lemma IdentityHashCode_live : lives (IdentityHashCode rb s t).
Proof. unfold IdentityHashCode. moves. Qed.
Lemma Suspend_live o h c k : lives (SuspendThreadByThreadId s t o h c k).
Proof. unfold SuspendThreadByThreadId. repeat case_match; try done; destruct k; by apply move; [apply near_same|..]. Qed.

(** Stores of lock words that are not fat. *)
Lemma store_live new s1 p' :
  s1 = set_lock_word s new -> (forall m, view rb (lock_word s) <> VFat m) -> (forall m, view rb new <> VFat m) ->
  dull p' = true -> live (goto s1 t p').
Proof.
  intros -> H1 H2 Hd. apply move_word; try done; [by apply near_same|]. intros m. simpl. split; intros E; exfalso; [by apply (H2 m)|by apply (H1 m)].
Qed.
End Dull.

(** *** Steps on the monitor of the object *)

Section Fat.
Context (m : Z) (M : Monitor).
Hypothesis Hv : view rb (lock_word s) = VFat m.
Hypothesis HM : monitors s !! m = Some M.
Hypothesis Hpriv : private_monitor (pc th) = None.

Definition sleeps_not (p : Pc) : bool := match p with WaitSleep _ _ _ _ => false | _ => true end.

Lemma sleeps_not_waits m' th0 p' : sleeps_not p' = true -> waits_for m' (with_pc th0 p') = false.
Proof. unfold waits_for. by destruct p'. Qed.

(** The monitor has an owner afterwards. *)
Lemma live_owned_by s1 M' o p' :
  near s1 -> monitors s1 = <[m := M']> (monitors s) -> lock_word s1 = lock_word s ->
  owner_ M' = Some o ->
  (forall u thu, u <> t -> threads s1 !! u = Some thu -> waits_for m thu = true -> u ∈ wait_set_ M -> u ∈ wait_set_ M') ->
  sleeps_not p' = true -> live (goto s1 t p').
Proof.
  intros (Hoth & th1 & E1) Em Ew Eo Hset Hp'.
  apply (live_monitor s (goto s1 t p') t th (with_pc th1 p')) with m M M'; try done.
  - by apply goto_own.
  - by apply goto_others.
  - congruence.
  - intros u thu Hu. simpl. rewrite lookup_alter_ne by done. eauto.
  - intros m' Hw. by rewrite sleeps_not_waits in Hw.
Qed.

Lemma live_owned s1 M' o p' :
  near s1 -> monitors s1 = <[m := M']> (monitors s) -> lock_word s1 = lock_word s ->
  owner_ M' = Some o -> (forall u, u <> t -> u ∈ wait_set_ M -> u ∈ wait_set_ M') -> sleeps_not p' = true ->
  live (goto s1 t p').
Proof. intros H1 H2 H3 H4 H5 H6. eapply live_owned_by; eauto. Qed.

Lemma TryLockLocked_owner M0 M1 :
  TryLockLocked t M0 = Locked M1 -> owner_ M1 = Some t /\ wait_set_ M1 = wait_set_ M0.
Proof. unfold TryLockLocked. intros E. repeat case_match; try done; by injection E as <-. Qed.

Lemma TryLockLocked_contended M0 : TryLockLocked t M0 = Contended -> exists o, owner_ M0 = Some o.
Proof. unfold TryLockLocked. intros E. repeat case_match; try done. eauto. Qed.

Lemma TryLock_live : dull (pc th) = true -> lives (TryLock t m s).
Proof.
  intros Hd. unfold TryLock, on_monitor. rewrite HM. destruct (TryLockLocked t M) as [M1| | |] eqn:E; try done.
  - destruct (TryLockLocked_owner _ _ E) as [Eo Ew]. eapply (live_owned (put_monitor s m M1)); try done; [by apply near_same|].
    by rewrite Ew.
  - by apply move; [..|apply near_same| | |].
Qed.

Lemma Lock_locked_live again k : lives (Lock_locked t m again k s).
Proof.
  unfold Lock_locked, on_monitor. rewrite HM.
  set (M0 := if again then with_waiters M (num_waiters_ M - 1) else M).
  assert (wait_set_ M0 = wait_set_ M) as E0 by (by unfold M0; destruct again).
  destruct (TryLockLocked t M0) as [M1| | |] eqn:E; try done.
  - destruct (TryLockLocked_owner _ _ E) as [Eo Ew]. destruct k;
      (eapply (live_owned (put_monitor s m M1)); try done; [by apply near_same|]; by rewrite Ew, E0).
  - destruct (TryLockLocked_contended _ E) as [o Eo].
    eapply (live_owned (put_monitor s m (with_waiters M0 (num_waiters_ M0 + 1)))); try done; [by apply near_same|]. simpl. by rewrite E0.
Qed.

Lemma Wait_restore_live prev : lives (Wait_restore t m prev s).
Proof.
  unfold Wait_restore, on_monitor. rewrite HM.
  eapply (live_owned (put_monitor s m _)); try done; [by apply near_same|]. simpl. intros u Hu.
  induction (wait_set_ M) as [|w l IH]; [done|]. simpl. rewrite elem_of_cons. intros [-> |Hin].
  - rewrite (proj2 (Z.eqb_neq w t)) by done. by left.
  - case_if; [done|]. right. by apply IH.
Qed.

Lemma Monitor_GetHashCode_live c : dull (pc th) = true -> lives (Monitor_GetHashCode s t m c).
Proof.
  intros Hd. unfold Monitor_GetHashCode, on_monitor. rewrite HM. case_if; [by apply move; [..|apply near_same| | |]|].
  destruct (GenerateIdentityHashCode (hash_code_seed s)) as [h seed].
  assert (live (goto (put_monitor (set_seed s seed) m (with_hash M h)) t Running)).
  { apply (live_monitor s _ t th (with_pc th Running)) with m M (with_hash M h); try done.
    - by apply goto_own.
    - by apply goto_others, others_same.
    - intros Ho. right. right. split; [done|]. split; [eauto|]. split; by apply dull_thread. }
  destruct c; try done. by apply move; [..|apply near_same| | |].
Qed.

(** The thread looks at the owner next. *)
Lemma live_flight p' :
  (forall th0, in_flight m (with_pc th0 p') = true) -> sleeps_not p' = true -> live (goto s t p').
Proof.
  intros Hf Hp'. apply (live_monitor s (goto s t p') t th (with_pc th p')) with m M M; try done.
  - by apply goto_own.
  - by apply goto_others, others_same.
  - by rewrite insert_id.
  - intros _. left. exists t, (with_pc th p'). split; [by apply goto_own|done].
  - intros m' Hw. by rewrite sleeps_not_waits in Hw.
Qed.

Lemma Lock_blocked_live k : lives (Lock_blocked t m k s).
Proof.
  unfold Lock_blocked, on_monitor. rewrite HM. destruct (owner_ M) eqn:Eo.
  - eapply (live_owned _ M); try done; [apply near_update|]. simpl. by rewrite insert_id.
  - apply live_flight; [|done]. intros th0. unfold in_flight. simpl. by rewrite Z.eqb_refl.
Qed.

(** A signal on [monitor_contenders_]. *)
Lemma signal_spec c s1 s2 :
  signal_contender c m s1 = Some s2 ->
  others t s1 s2 /\ lock_word s2 = lock_word s1 /\ monitors s2 = monitors s1 /\
  ((exists v thv, threads s1 !! v = Some thv /\ asleep_on m thv = true /\
      threads s2 = alter (fun th => with_signalled th true) v (threads s1)) \/
   threads s2 = threads s1 /\ forall u thu, threads s1 !! u = Some thu -> asleep_on m thu = false).
Proof.
  assert ((if existsb (fun kv => asleep_on m kv.2) (map_to_list (threads s1)) then None else Some s1) = Some s2 ->
    s2 = s1 /\ forall u thu, threads s1 !! u = Some thu -> asleep_on m thu = false) as Hnone.
  { case_if; [done|]. intros [= ->]. split; [done|]. intros u thu Hu.
    destruct (asleep_on m thu) eqn:Ea; [|done]. rewrite <- E. symmetry. apply existsb_exists. exists (u, thu).
    split; [by apply list_elem_of_In, elem_of_map_to_list|done]. }
  unfold signal_contender. destruct c;
    try (intros [-> H]%Hnone; split; [apply others_refl|]; do 2 (split; [done|]); by right).
  destruct (threads s1 !! u) as [thu|] eqn:Eu; [|done]. case_if; [|done]. intros [= <-].
  split; [by apply others_calm|]. do 2 (split; [done|]). left. eauto.
Qed.

(** The monitor is given up. *)
Lemma live_released c s1 s2 M' p' :
  near s1 -> monitors s1 = <[m := M']> (monitors s) -> lock_word s1 = lock_word s ->
  (forall u, u <> t -> u ∈ wait_set_ M -> u ∈ wait_set_ M') ->
  (forall th1, threads s1 !! t = Some th1 -> forall m', waits_for m' (with_pc th1 p') = true ->
     m' = m /\ wait_monitor_ th1 = Some m /\ t ∈ wait_set_ M') ->
  dull (pc th) = true -> (forall th1, asleep_on m (with_pc th1 p') = false) ->
  (forall th1, threads s1 !! t = Some th1 -> pc th1 = pc th) ->
  signal_contender c m s1 = Some s2 -> live (goto s2 t p').
Proof.
  intros (Hoth & th1 & E1) Em Ew Hset Hown Hd Hna Hpc1 (Ho2 & Ew2 & Em2 & Hsig)%signal_spec.
  assert (threads s2 !! t = Some th1) as E2.
  { destruct Hsig as [(v & thv & Hv1 & Ha & ->)|[-> _]]; [|done]. rewrite lookup_alter_ne; [done|]. intros ->.
    destruct (dull_thread m thv) as [Hz _]; [|congruence]. assert (thv = th1) as -> by congruence. by rewrite (Hpc1 th1). }
  assert (others t s (goto s2 t p')) as Ho3 by (by apply goto_others, (others_trans t s s1 s2)).
  apply (live_monitor s (goto s2 t p') t th (with_pc th1 p')) with m M M'; try done.
  - by apply (goto_own s2 th1).
  - cbn. congruence.
  - cbn. congruence.
  - intros _. destruct Hsig as [(v & thv & Hv1 & Ha & E)|[E Hno]].
    + left. assert (v <> t) as Hvt.
      { intros ->. destruct (dull_thread m thv) as [Hz _]; [|congruence]. by rewrite (Hpc1 thv). }
      exists v, (with_signalled thv true). simpl. rewrite lookup_alter_ne, E, lookup_alter_eq, Hv1 by done.
      split; [done|]. unfold asleep_on in Ha. unfold in_flight. simpl. destruct (pc thv); try done.
      apply andb_true_iff in Ha as [-> _]. done.
    + right. left. intros u thu. simpl. rewrite E. destruct (decide (u = t)) as [->|].
      * rewrite lookup_alter_eq, E1. intros [= <-]. apply Hna.
      * rewrite lookup_alter_ne by done. apply Hno.
  - eauto.
  - exact (Hown th1 E1).
Qed.

Lemma Unlock_live c : dull (pc th) = true -> lives (Unlock t m c s).
Proof.
  intros Hd. unfold Unlock, on_monitor. rewrite HM. case_bool_decide; [|by apply move; [..|apply near_same| | |]].
  case_if; [|by eapply (live_owned (put_monitor s m _)); try done; apply near_same].
  destruct (signal_contender _ _ _) as [s2|] eqn:Es; [|done].
  eapply (live_released c (put_monitor s m (with_owner M None 0)) s2 _ Running); try done; [by apply near_same|].
  simpl. congruence.
Qed.

Lemma Wait_locked_live args c : dull (pc th) = true -> lives (Wait_locked t m args c s).
Proof.
  intros Hd. unfold Wait_locked, on_monitor. rewrite HM.
  case_bool_decide; [|by apply move; [..|apply near_same| | |]].
  case_if; [by apply move; [..|apply near_same| | |]|]. cbv zeta.
  destruct (signal_contender _ _ _) as [s2|] eqn:Es; [|done]. destruct (threads s2 !! t) as [th2|] eqn:E2; [|done].
  eapply live_released; [| | | | | | | |exact Es]; try done.
  - apply near_update.
  - simpl. intros u Hu Hin. apply elem_of_app. by left.
  - simpl. rewrite lookup_alter_eq, Ht. intros th1 [= <-] m' Hw. unfold waits_for in Hw. simpl in Hw.
    destruct (interrupted_ th2); simpl in Hw; [done|]. rewrite andb_true_r in Hw. bools. split; [done|]. split; [done|].
    apply elem_of_app. right. by left.
  - intros th1. by destruct (interrupted_ th2).
  - simpl. rewrite lookup_alter_eq, Ht. by intros th1 [= <-].
Qed.

(** Notifications. *)
Lemma signal_waiter_calm th0 : calm th0 (signal_waiter th0).
Proof. unfold signal_waiter. by destruct (pc th0) eqn:E. Qed.
Lemma NotifyLocked_calm th0 : calm th0 (NotifyLocked th0).
Proof. unfold NotifyLocked. destruct (wait_monitor_ th0); [apply signal_waiter_calm|apply calm_refl]. Qed.

(** A thread with [wait_monitor_] set that does not sleep, or was woken. *)
Definition woken (th0 : Thread) : Prop := wait_monitor_ th0 = None \/ forall m', waits_for m' th0 = false.

Lemma woken_calm th0 th1 : woken th0 -> calm th0 th1 -> woken th1.
Proof.
  intros [H|H] Hc; [left; by destruct Hc as (_ & -> & _)|]. right. intros m'.
  destruct (waits_for m' th1) eqn:E; [|done]. apply (calm_flags m' _ _ Hc) in E. by rewrite H in E.
Qed.
Lemma signal_woken th0 : woken (signal_waiter th0).
Proof.
  right. intros m'. unfold signal_waiter, waits_for. destruct (pc th0) eqn:E; rewrite ?E; try done. simpl. rewrite E. simpl.
  apply andb_false_r.
Qed.
Lemma Notify_woken th0 : woken (NotifyLocked th0).
Proof. unfold NotifyLocked. destruct (wait_monitor_ th0) eqn:E; [apply signal_woken|by left]. Qed.

Lemma notify_each_calm x l s0 : others x s0 (notify_each l s0).
Proof.
  revert s0. induction l as [|u l IH]; intros s0; [apply others_refl|]. simpl.
  eapply others_trans; [by apply (others_calm x NotifyLocked u), NotifyLocked_calm|apply IH].
Qed.

(** [notify_each] keeps a thread [u] that is woken so, also when [u] is any thread. *)
Lemma notify_each_thread l s0 u th0 :
  threads s0 !! u = Some th0 -> exists th1, threads (notify_each l s0) !! u = Some th1 /\ calm th0 th1.
Proof. intros H. eapply (others_forth (u + 1)); [apply notify_each_calm|lia|done]. Qed.

Lemma notify_each_woken l s0 u th1 :
  u ∈ l -> threads (notify_each l s0) !! u = Some th1 -> woken th1.
Proof.
  revert s0. induction l as [|v l IH]; intros s0 Hin H1; [by apply elem_of_nil in Hin|]. simpl in H1.
  apply elem_of_cons in Hin as [->|Hin]; [|by eapply IH].
  destruct (threads s0 !! v) as [th0|] eqn:E.
  - destruct (notify_each_thread l (update_thread NotifyLocked v s0) v (NotifyLocked th0)) as (th2 & E2 & Hc).
    { simpl. by rewrite lookup_alter_eq, E. }
    assert (th2 = th1) as -> by congruence. eapply woken_calm; [apply Notify_woken|exact Hc].
  - exfalso. destruct (others_back (v + 1) _ _ v th1 (notify_each_calm (v + 1) l (update_thread NotifyLocked v s0)))
      as (th0 & E0 & _); [lia|done|]. simpl in E0. by rewrite lookup_alter_eq, E in E0.
Qed.

Lemma notify_first_calm x l s0 : others x s0 (notify_first l s0).2.
Proof.
  revert s0. induction l as [|u l IH]; intros s0; [apply others_refl|]. simpl.
  destruct (threads s0 !! u) as [th0|]; [|apply IH]. destruct (wait_monitor_ th0); [|apply IH].
  by apply others_calm, signal_waiter_calm.
Qed.

Lemma notify_first_woken l s0 u th1 :
  u ∈ l -> threads (notify_first l s0).2 !! u = Some th1 -> u ∈ (notify_first l s0).1 \/ woken th1.
Proof.
  intros Hin H1. destruct (others_back (u + 1) _ _ u th1 (notify_first_calm (u + 1) l s0)) as (th0 & E0 & Hc); [lia|done|].
  revert Hin H1. induction l as [|v l IH]; intros Hin; [by apply elem_of_nil in Hin|]. simpl.
  apply elem_of_cons in Hin as [<-|Hin].
  - rewrite E0. destruct (wait_monitor_ th0) eqn:Ew.
    + simpl. rewrite lookup_alter_eq, E0. intros [= <-]. right. apply signal_woken.
    + intros _. right. left. by destruct Hc as (_ & -> & _).
  - destruct (threads s0 !! v) as [thv|]; [|by apply IH]. destruct (wait_monitor_ thv); [by left|by apply IH].
Qed.

Lemma waits_not_woken u thu s1 : others t s s1 -> u <> t ->
  threads s1 !! u = Some thu -> waits_for m thu = true -> ~ woken thu.
Proof.
  intros Ho Hu E Hw [Hn|Hn]; [|congruence]. destruct (others_back t s s1 u thu) as (th0 & E0 & Hc); [done..|].
  destruct (l_wait s Hlive m u th0 E0) as [Em _]; [by apply (calm_flags m _ _ Hc)|].
  destruct Hc as (_ & Ewm & _). congruence.
Qed.

Lemma Notify_live all : dull (pc th) = true -> lives (Notify t m all s).
Proof.
  intros Hd. unfold Notify, on_monitor. rewrite HM.
  case_bool_decide as Eo; [|by apply move; [..|apply near_same| | |]]. destruct all.
  - destruct (notify_each_thread (wait_set_ M) s t th Ht) as (th1 & E1 & _).
    pose proof (notify_each_calm t (wait_set_ M) s) as Hc.
    destruct (notify_each_alike (wait_set_ M) s) as (Ew & Em & _).
    eapply (live_owned_by _ (with_wait_set M [])); simpl; try done; [by split; [|eauto]|by rewrite Em|].
    intros u thu Hu E Hw Hin. exfalso. eapply waits_not_woken; try done. by eapply notify_each_woken.
  - destruct (notify_first (wait_set_ M) s) as [l s1] eqn:En.
    pose proof (notify_first_calm t (wait_set_ M) s) as Hc. pose proof (notify_first_alike (wait_set_ M) s) as Ha.
    pose proof (notify_first_woken (wait_set_ M) s) as Hw. rewrite En in Hc, Ha, Hw. simpl in Hc, Ha, Hw.
    destruct Ha as (Ew & Em & _).
    destruct (others_forth (t + 1) s s1 t th) as (th1 & E1 & _); [|lia|done|].
    { pose proof (notify_first_calm (t + 1) (wait_set_ M) s) as H. by rewrite En in H. }
    eapply (live_owned_by _ (with_wait_set M l)); simpl; try done; [by split; [|eauto]|by rewrite Em|].
    intros u thu Hu E Hwt Hin. destruct (Hw u thu Hin E) as [?|Hwk]; [done|]. exfalso. by eapply waits_not_woken.
Qed.

Lemma wake_up_live p' : sleeps_not p' = true -> (forall th0 m', asleep_on m' (with_pc th0 p') = false) ->
  in_flight m th = false -> live (goto s t p').
Proof.
  intros Hp' Hna Hf. apply (live_monitor s (goto s t p') t th (with_pc th p')) with m M M; try done.
  - by apply goto_own.
  - by apply goto_others, others_same.
  - by rewrite insert_id.
  - intros Ho. right. right. split; [done|]. split; [eauto|]. by split.
  - intros m' Hw. by rewrite sleeps_not_waits in Hw.
Qed.
End Fat.

(** *** Inflation *)

Lemma waits_view m u thu : threads s !! u = Some thu -> waits_for m thu = true -> view rb (lock_word s) = VFat m.
Proof.
  intros E%lookup_pcs Hw. pose proof (c_pcs _ _ _ _ Hinv u _ E) as H. unfold waits_for in Hw.
  destruct (pc thu); try done. apply andb_true_iff in Hw as [Hm _]. bools. destruct H as [H _]. congruence.
Qed.
Lemma asleep_view m u thu : threads s !! u = Some thu -> asleep_on m thu = true -> view rb (lock_word s) = VFat m.
Proof.
  intros E%lookup_pcs Hw. pose proof (c_pcs _ _ _ _ Hinv u _ E) as H. unfold asleep_on in Hw.
  destruct (pc thu); try done. apply andb_true_iff in Hw as [Hm _]. bools. apply locks_view in H. congruence.
Qed.

Section Private.
Context (m : Z).
Hypothesis Hv : view rb (lock_word s) <> VFat m.
Hypothesis Hdull : dull (pc th) = true.
Hypothesis Honly : forall m', private_monitor (pc th) = Some m' -> m' = m.

Lemma live_private Ms p' :
  (forall m', m' <> m -> Ms !! m' = monitors s !! m') -> dull p' = true ->
  (is_Some (Ms !! m) -> private_monitor p' = Some m) -> live (goto (set_monitors s Ms) t p').
Proof.
  intros Hsame Hd' Hpm.
  assert (forall m0, view rb (lock_word s) = VFat m0 -> Ms !! m0 = monitors s !! m0) as Hfat.
  { intros m0 Hv0. apply Hsame. congruence. }
  apply (live_step s _ t th (with_pc th p')); try done.
  - by apply goto_own.
  - by apply goto_others, others_same.
  - intros m0 M0 Hv0 HM0 Ho. simpl in *. rewrite Hfat in HM0 by done. right. right. split; [done|]. split; [eauto|].
    split; by apply dull_thread.
  - intros m0 M0 u thu Hu Hthu Hw HM0 Hin. simpl in *. rewrite lookup_alter_ne in Hthu by done.
    exists M0. split; [|done]. rewrite Hfat; [done|]. by eapply waits_view.
  - intros m0 Hw. destruct (dull_thread m0 (with_pc th p') Hd') as (_ & _ & E). congruence.
  - intros m0 Hm0. simpl in *. destruct (decide (m0 = m)) as [->|Hne]; [right; left; by apply Hpm|].
    rewrite Hsame in Hm0 by done. destruct (decide (view rb (lock_word s) = VFat m0)); [by left|]. right. right.
    split; [done|]. split; [done|]. intros Hp. by apply Hne, Honly.
Qed.

Lemma release_live resume k : lives (next (ReleaseMonitor s m) t (after_inflate resume k)).
Proof.
  apply live_private.
  - intros m' Hm'. by rewrite lookup_delete_ne.
  - by destruct resume, k.
  - rewrite lookup_delete_eq. by intros [].
Qed.

Lemma put_live M p' : dull p' = true -> private_monitor p' = Some m -> live (goto (put_monitor s m M) t p').
Proof. intros Hd Hp. apply live_private; [|done|done]. intros m' Hm'. by rewrite lookup_insert_ne. Qed.

(** The lock word names the monitor from now on. *)
Lemma installed_live w p' :
  view rb w = VFat m -> private_monitor (pc th) = Some m -> dull p' = true -> (forall m0, view rb (lock_word s) <> VFat m0) ->
  live (goto (set_lock_word s w) t p').
Proof.
  intros Hw Hpm Hd' Hnf. apply (live_step s _ t th (with_pc th p')); try done.
  - by apply goto_own.
  - by apply goto_others, others_same.
  - intros m0 M0 Hv0 HM0 Ho. right. left. intros u thu Hu. simpl in *. assert (m0 = m) as -> by congruence.
    destruct (asleep_on m thu) eqn:Ea; [|done]. exfalso. destruct (decide (u = t)) as [->|].
    + rewrite lookup_alter_eq, Ht in Hu. injection Hu as <-.
      destruct (dull_thread m (with_pc th p') Hd') as [E _]. congruence.
    + rewrite lookup_alter_ne in Hu by done. by apply (Hnf m), (asleep_view m u thu).
  - intros m0 M0 u thu Hu Hthu Hwt HM0 Hin. simpl in *. eauto.
  - intros m0 Hw0. destruct (dull_thread m0 (with_pc th p') Hd') as (_ & _ & E). congruence.
  - intros m0 Hm0. simpl in *. destruct (decide (m0 = m)) as [->|Hne]; [by left|]. right. right.
    split; [done|]. split; [done|]. intros Hp. by apply Hne, Honly.
Qed.
End Private.

Lemma CreateMonitor_live c owner h resume k :
  pc th = Inflate owner h resume k -> lives (CreateMonitor s t c owner h resume k).
Proof.
  intros Ep. unfold CreateMonitor. destruct c; try done. case_if; [|done]. case_if; [|done].
  apply andb_true_iff in E as [[En _]%andb_true_iff _]. apply bool_decide_eq_true in En.
  apply put_live; rewrite ?Ep; try done.
  intros Hv. destruct (fat_monitor rb s Hinv m Hv) as [M HM]. congruence.
Qed.

Lemma Install_read_live m resume k : pc th = Install m resume k -> lives (Install_read rb s t m resume k).
Proof.
  intros Ep. assert (view rb (lock_word s) <> VFat m) as Hv by (rewrite Ep in Hok; apply Hok).
  unfold Install_read, on_monitor. destruct (monitors s !! m) as [M|] eqn:EM; [|done].
  repeat case_match; try done.
  - apply put_live; rewrite ?Ep; try done. simpl. congruence.
  - apply release_live; rewrite ?Ep; try done. simpl. congruence.
  - replace s with (put_monitor s m M) at 1; [apply put_live; rewrite ?Ep; try done; simpl; congruence|].
    unfold put_monitor. rewrite insert_id by done. by destruct s.
Qed.

Lemma Install_cas_live m w c resume k : pc th = InstallCas m w resume k -> lives (Install_cas s t m w c resume k).
Proof.
  intros Ep. rewrite Ep in Hok. destruct Hok as (Hv & M & HM & Hinf & Hw & Hcase).
  unfold Install_cas. destruct (cas c s w _) as [s1|] eqn:Ec.
  - apply cas_spec in Ec as [-> Ew]. apply (installed_live m); rewrite ?Ep; try done.
    + intros m' [= ->]. done.
    + rewrite <- Ew. apply fat_word; [apply Hinv|]. apply (mon_id _ _ _ (c_monitors _ _ _ _ Hinv m M HM)).
    + rewrite Ew. intros m0 E. by rewrite E in Hcase.
  - apply release_live; rewrite ?Ep; try done. simpl. congruence.
Qed.
End Op.

(** *** All steps *)

Lemma runnable_step_live s t c th :
  inv rb s -> live s -> threads s !! t = Some th -> native (pc th) = false -> lives (runnable_step rb spins t c th s).
Proof.
  intros Hinv Hlive Ht Hnat. pose proof (c_pcs _ _ _ _ Hinv t _ (lookup_pcs _ _ _ Ht)) as Hok. unfold runnable_step.
  assert (forall s1 p', near s t s1 -> monitors s1 = monitors s -> lock_word s1 = lock_word s -> dull (pc th) = true ->
    private_monitor (pc th) = None -> dull p' = true -> live (goto s1 t p')) as Hmove by (intros; by eapply move).
  assert (forall new s1 p', s1 = set_lock_word s new -> dull (pc th) = true -> private_monitor (pc th) = None ->
    (forall m, view rb (lock_word s) <> VFat m) -> (forall m, view rb new <> VFat m) -> dull p' = true -> live (goto s1 t p'))
    as Hstore by (intros; by eapply store_live).
  pose proof (near_same s t th Ht s eq_refl) as Hnear.
  destruct (pc th) eqn:E; try done; cbn [pc_ok] in Hok;
    try (destruct (fat_monitor rb s Hinv m ltac:(first [exact Hok|eapply locks_view; exact Hok|apply Hok])) as [M HM]).
  - destruct c as [|call| | | | |]; try done. apply Hmove; try done. by destruct call.
  - by apply (MonitorEnter_live s t th); rewrite ?E.
  - destruct (cas c s lock_word thin_locked) as [s1|] eqn:Ec; [|by apply Hmove].
    apply cas_spec in Ec as [-> <-]. destruct Hok as (H1 & _ & H2).
    apply (Hstore thin_locked); try done; intros m; congruence.
  - destruct (store_own rb c s lock_word thin_locked) as [s1|] eqn:Ec; [|by apply Hmove].
    apply store_own_spec in Ec; [|done]. destruct Hok as (d & H1 & _ & H2).
    apply (Hstore thin_locked); try done; intros m; congruence.
  - by apply (TryLock_live s t th) with M; rewrite ?E.
  - apply (Lock_locked_live s t th) with M; rewrite ?E; try done. by eapply locks_view.
  - apply (live_flight s t th) with m M; rewrite ?E; try done; [by eapply locks_view|].
    intros th0. unfold in_flight. simpl. apply Z.eqb_refl.
  - by apply (MonitorExit_live s t th); rewrite ?E.
  - destruct (store_own rb c s lock_word new_lw) as [s1|] eqn:Ec; [|by apply Hmove].
    apply store_own_spec in Ec; [|done]. destruct Hok as (d & H1 & _ & H2).
    apply (Hstore new_lw); try done; intros m; [congruence|]. rewrite H2. by case_match.
  - by apply (Unlock_live s t th) with M; rewrite ?E.
  - by apply (Wait_live s t th); rewrite ?E.
  - by apply (Wait_locked_live s t th) with M; rewrite ?E.
  - by apply Hmove.
  - apply Hmove; try done; [by eapply near_update|by case_match].
  - apply Hmove; try done. by eapply near_update.
  - by apply Hmove.
  - by apply (Wait_restore_live s t th) with M; rewrite ?E; try apply Hok.
  - by apply (DoNotify_live s t th); rewrite ?E.
  - by apply (Notify_live s t th) with M; rewrite ?E.
  - by apply (IdentityHashCode_live s t th); rewrite ?E.
  - destruct (cas c s lw hash_word) as [s1|] eqn:Ec; [|by apply Hmove].
    apply cas_spec in Ec as [-> <-]. destruct Hok as (H1 & _ & H2 & _).
    apply (Hstore hash_word); try done; intros m; congruence.
  - by apply (Monitor_GetHashCode_live s t th) with M; rewrite ?E.
  - by apply (Suspend_live s t th); rewrite ?E.
  - case_if; by apply Hmove.
  - by apply (CreateMonitor_live s t th).
  - apply (Install_read_live s t th); try done. by rewrite E.
  - apply (Install_cas_live s t th); try done. by rewrite E.
  - case_if; [|done]. apply Hmove; try done. by destruct resume, k.
  - apply Hmove; try done. by destruct k.
Qed.

Lemma native_step_live s t c th :
  inv rb s -> live s -> threads s !! t = Some th -> lives (native_step t c th s).
Proof.
  intros Hinv Hlive Ht. pose proof (c_pcs _ _ _ _ Hinv t _ (lookup_pcs _ _ _ Ht)) as Hok. unfold native_step.
  destruct (pc th) eqn:E; try done; cbn [pc_ok] in Hok;
    (destruct (fat_monitor rb s Hinv m ltac:(first [exact Hok|eapply locks_view; exact Hok|apply Hok])) as [M HM]).
  - apply (Lock_blocked_live s t th) with M; rewrite ?E; try done. by eapply locks_view.
  - case_if; [|done]. apply (live_flight s t th) with m M; rewrite ?E; try done; [by eapply locks_view|].
    intros th0. unfold in_flight. simpl. apply Z.eqb_refl.
  - case_if; [|done]. apply (wake_up_live s t th) with m M; rewrite ?E; try done; [by destruct Hok|].
    unfold in_flight. by rewrite E.
Qed.

Lemma deflated_live s m w :
  live s -> view rb (lock_word s) = VFat m -> (forall t p, pcs s !! t = Some p -> idle t p) ->
  inv rb (ReleaseMonitor (set_lock_word s w) m) -> live (ReleaseMonitor (set_lock_word s w) m).
Proof.
  intros Hlive Hv Hidle Hinv'.
  assert (forall m', ~ is_Some (delete m (monitors s) !! m')) as Hnone.
  { intros m0 [M HM]. apply lookup_delete_Some in HM as [Hne HM].
    destruct (l_used s Hlive m0) as [E|(t & p & Hp & Hpm)]; [by rewrite HM|congruence|].
    destruct (Hidle t p Hp) as [->|(o & h & k & -> & _)]; done. }
  split; simpl.
  - intros m0 M u th _ HM. destruct (Hnone m0). by rewrite HM.
  - intros m0 u th Hu%lookup_pcs Hwt. unfold waits_for in Hwt.
    destruct (Hidle u _ Hu) as [E|(o & h & k & E & _)]; by rewrite E in Hwt.
  - intros m0 Hm0. by destruct (Hnone m0).
Qed.

Lemma Deflate_live s :
  inv rb s -> live s -> (forall t p, pcs s !! t = Some p -> safepoint p = true) -> lives (Deflate rb s).
Proof.
  intros Hinv Hlive Hsafe. pose proof (Deflate_ok rb s Hinv Hsafe) as Hok. unfold Deflate in *.
  pose proof (view_of_state rb s) as Hv. destruct (state_of rb (lock_word s)) eqn:Es; try done.
  unfold on_monitor in *. destruct (monitors s !! _) as [M|] eqn:HM; [|done].
  destruct (0 <? num_waiters_ M) eqn:En; [done|]. bools.
  assert (forall t p, pcs s !! t = Some p -> idle t p) as Hidle by (intros t p Hp; eapply idle_at_safepoint; eauto).
  destruct (owner_ M), (hash_code_ M =? 0); simpl in *; repeat case_match; try done; apply deflated_live; try done; apply Hok.
Qed.

(** Signals, and the collector's bits. *)
Lemma live_all s s' :
  live s -> (forall t, others t s s') -> monitors s' = monitors s -> pcs s' = pcs s ->
  view rb (lock_word s') = view rb (lock_word s) -> live s'.
Proof.
  intros Hlive Ho Em Ep Ev.
  assert (forall u thu, threads s' !! u = Some thu -> exists th, threads s !! u = Some th /\ calm th thu) as Hback.
  { intros u thu Hu. eapply (others_back (u + 1)); [apply Ho|lia|done]. }
  split; rewrite ?Em, ?Ev, ?Ep; [..|apply Hlive].
  - intros m M u thu Hv HM Hn Hu Ha. destruct (Hback u thu Hu) as (th & Hth & Hc).
    destruct (l_wake s Hlive m M u th) as (v & thv & Hvt & Hin); [done..|by apply (calm_flags m _ _ Hc)|].
    destruct (others_forth (v + 1) s s' v thv) as (th1 & H1 & Hc1); [done|lia|done|].
    exists v, th1. split; [done|by apply (calm_flags m _ _ Hc1)].
  - intros m u thu Hu Hw. destruct (Hback u thu Hu) as (th & Hth & Hc).
    destruct (l_wait s Hlive m u th Hth) as [E H]; [by apply (calm_flags m _ _ Hc)|].
    split; [|done]. by destruct Hc as (_ & -> & _).
Qed.

Lemma Thread_Interrupt_calm th : calm th (Thread_Interrupt th).
Proof. unfold Thread_Interrupt. case_if; [apply calm_refl|]. apply (NotifyLocked_calm (with_interrupted th true)). Qed.

Lemma step_live l s : inv rb s -> live s -> lives (step rb spins l s).
Proof.
  intros Hinv Hlive. destruct l as [t c|t|b|b|]; cbn [step].
  - destruct (threads s !! t) as [th|] eqn:Ht; [|done]. case_if; [by apply native_step_live|].
    case_if; [done|]. by apply runnable_step_live.
  - apply (live_all s); try done; [intros u; apply others_calm, Thread_Interrupt_calm|].
    apply pcs_update, Thread_Interrupt_pc.
  - case_if; [|done]. apply andb_true_iff in E as [Erb Eb].
    destruct (mark_bit_view rb (lock_word s) b) as [[Hw Hv] _]; [done|apply Hinv|done|].
    apply (live_all s); try done. intros u. by apply others_same.
  - case_if; [|done]. apply andb_true_iff in E as [Erb Eb].
    destruct (mark_bit_view rb (lock_word s) b) as [_ [Hw Hv]]; [done|apply Hinv|done|].
    apply (live_all s); try done. intros u. by apply others_same.
  - case_if; [|done]. apply Deflate_live; [done..|]. intros t p (th & Ht & <-)%pcs_lookup.
    rewrite forallb_forall in E. apply (E (t, th)). by apply list_elem_of_In, elem_of_map_to_list.
Qed.

Lemma initial_live ids seed : live (initial ids seed).
Proof.
  assert (forall u th, threads (initial ids seed) !! u = Some th -> th = fresh_thread) as Hf.
  { intros u th Hu. simpl in Hu. apply elem_of_list_to_map_2 in Hu. by apply list_elem_of_fmap in Hu as (v & [= -> ->] & _). }
  split.
  - intros m M u th _ HM. done.
  - intros m u th ->%Hf. done.
  - intros m [M HM]. done.
Qed.

(** ** A free monitor *)

Definition free (s : Sys) (m : Z) : Prop :=
  view rb (lock_word s) = VFat m /\ exists M, monitors s !! m = Some M /\ owner_ M = None.
Definition owned (s : Sys) (m : Z) : Prop := exists M o, monitors s !! m = Some M /\ owner_ M = Some o.

(** How far a thread is from the end of an inflation. *)
Definition inflation (p : Pc) : nat :=
  match p with
  | InflateSuspend _ _ _ => 7
  | InflateSuspended _ _ _ => 6
  | Inflate _ _ _ _ => 5
  | Install _ _ _ => 4
  | InstallCas _ _ _ _ => 3
  | InflateCheck _ _ => 2
  | InflateResume _ _ => 1
  | _ => 0
  end.

(** How far a contender is from trying to lock. *)
Definition distance (p : Pc) : nat :=
  match p with
  | LockBlocked _ _ | LockSleep _ _ => 3
  | LockAwake _ _ => 2
  | LockFat _ true _ => 1
  | _ => 0
  end.

Definition advances (p p' : Pc) : Prop :=
  ((inflation p' < inflation p)%nat \/ inflation p = 0%nat /\ inflation p' = 0%nat) /\
  (distance p = 0%nat \/ (0 < distance p' < distance p)%nat).

Section Free.
Context (s : Sys) (m t : Z) (th : Thread).
Hypothesis Hinv : inv rb s.
Hypothesis Hfree : free s m.
Hypothesis Ht : threads s !! t = Some th.

(** The monitor is taken, or still free and [t] has moved on. *)
Definition progress (out : Outcome) : Prop :=
  match out with
  | Next s' _ => owned s' m \/
      free s' m /\ others t s s' /\
      exists p', pcs s' = <[t := p']> (pcs s) /\ advances (pc th) p' /\
        (in_flight m th = true -> exists th', threads s' !! t = Some th' /\ in_flight m th' = true)
  | _ => True
  end.

Lemma progress_next s1 p' e :
  near s t s1 -> pcs s1 = pcs s -> lock_word s1 = lock_word s -> monitors s1 !! m = monitors s !! m ->
  advances (pc th) p' -> distance (pc th) = 0%nat -> progress (Next (goto s1 t p') e).
Proof.
  intros (Ho & th1 & E1) Ep Ew Em Ha Hd. right. split; [|split].
  - destruct Hfree as [Hv HM]. unfold free. simpl. by rewrite Ew, Em.
  - by apply goto_others.
  - exists p'. split; [by rewrite (next_shape s t (pc th) (lookup_pcs _ _ _ Ht))|]. split; [done|].
    unfold in_flight. by destruct (pc th) as [| | | | |? [] ?| | | | | | | | | | | | | | | | | | | | | | | | | |].
Qed.

Lemma progress_move p' e :
  advances (pc th) p' -> distance (pc th) = 0%nat -> progress (Next (goto s t p') e).
Proof. intros. by apply progress_next; try done; eapply near_same. Qed.

Lemma state_fat : state_of rb (lock_word s) = kFatLocked /\ FatLockMonitorId (lock_word s) = m.
Proof.
  destruct Hfree as [Hv _]. unfold view in Hv. destruct (state_of rb (lock_word s)); try done. by injection Hv.
Qed.

Lemma no_cas c w new : view rb w <> VFat m -> cas c s w new = None.
Proof.
  intros Hw. unfold cas. destruct c; try done; (case_if; [|done]; bools; destruct Hfree; congruence).
Qed.

Lemma other_monitor m' : view rb (lock_word s) <> VFat m' -> m' <> m.
Proof. destruct Hfree as [Hv _]. congruence. Qed.

(** From a place where the thread neither contends nor inflates to another one. *)
Lemma progress_idle p' e :
  inflation (pc th) = 0%nat -> distance (pc th) = 0%nat -> inflation p' = 0%nat -> progress (Next (goto s t p') e).
Proof. intros H1 H2 H3. apply progress_move; [|done]. split; [by right|by left]. Qed.

Lemma progress_inflation p' e :
  (inflation p' < inflation (pc th))%nat -> distance (pc th) = 0%nat -> progress (Next (goto s t p') e).
Proof. intros H1 H2. apply progress_move; [|done]. split; [by left|by left]. Qed.

Lemma locked_progress M M1 e p' :
  TryLockLocked t M = Locked M1 -> progress (Next (goto (put_monitor s m M1) t p') e).
Proof.
  intros E. left. exists M1, t. simpl. rewrite lookup_insert_eq. split; [done|]. by eapply TryLockLocked_owner.
Qed.

Lemma TryLockLocked_free M : owner_ M = None -> TryLockLocked t M <> Contended.
Proof. intros Ho E. apply TryLockLocked_contended in E as [o Eo]. congruence. Qed.

(** Calls on the monitor. *)
Lemma fat_progress c :
  match pc th with
  | TryLockFat m' => progress (TryLock t m' s)
  | LockFat m' again k => progress (Lock_locked t m' again k s)
  | UnlockFat m' => progress (Unlock t m' c s)
  | WaitFat m' args => progress (Wait_locked t m' args c s)
  | WaitRestore m' prev => progress (Wait_restore t m' prev s)
  | NotifyFat m' all => progress (Notify t m' all s)
  | HashFat m' => progress (Monitor_GetHashCode s t m' c)
  | _ => True
  end.
Proof.
  pose proof (c_pcs _ _ _ _ Hinv t _ (lookup_pcs _ _ _ Ht)) as Hok.
  destruct Hfree as [Hv (M & HM & Ho)].
  assert (forall m', view rb (lock_word s) = VFat m' -> m' = m) as Hm by (intros; congruence).
  destruct (pc th) eqn:E; try done; cbn [pc_ok] in Hok;
    (assert (m0 = m) as -> by (apply Hm; first [exact Hok|eapply locks_view; exact Hok|apply Hok])).
  - unfold TryLock, on_monitor. rewrite HM. destruct (TryLockLocked t M) as [M1| | |] eqn:El; try done; [by eapply locked_progress|].
    by apply TryLockLocked_free in El.
  - unfold Lock_locked, on_monitor. rewrite HM. destruct (TryLockLocked t _) as [M1| | |] eqn:El; try done; [destruct k; by eapply locked_progress|].
    apply TryLockLocked_free in El; [done|]. by destruct again.
  - unfold Unlock, on_monitor. rewrite HM, bool_decide_false by congruence. by apply progress_idle; rewrite ?E.
  - unfold Wait_locked, on_monitor. rewrite HM, bool_decide_false by congruence. by apply progress_idle; rewrite ?E.
  - destruct Hok as (_ & _ & M' & HM' & Eo & _). congruence.
  - unfold Notify, on_monitor. rewrite HM, bool_decide_false by congruence. by apply progress_idle; rewrite ?E.
  - unfold Monitor_GetHashCode, on_monitor. rewrite HM. case_if; [by apply progress_idle; rewrite ?E|].
    destruct (GenerateIdentityHashCode (hash_code_seed s)) as [h seed].
    assert (progress (Next (goto (set_seed s seed) t (HashFat m)) None)) as Hsp.
    { apply progress_next; rewrite ?E; try done; [by eapply near_same|]. split; [by right|by left]. }
    assert (progress (Next (goto (put_monitor (set_seed s seed) m (with_hash M h)) t Running) (Some (Hashed t h)))) as Hput.
    { right. split; [split; [done|]; exists (with_hash M h); simpl; by rewrite lookup_insert_eq|].
      split; [by apply goto_others, others_same|]. exists Running.
      split; [by rewrite (next_shape s t (pc th) (lookup_pcs _ _ _ Ht))|]. rewrite E.
      split; [split; [by right|by left]|]. unfold in_flight. by rewrite E. }
    by destruct c.
Qed.

(** Inflations that come too late. *)
Lemma inflate_progress c :
  match pc th with
  | InflateSuspend o h k => progress (SuspendThreadByThreadId s t o h c k)
  | Inflate owner h resume k => progress (CreateMonitor s t c owner h resume k)
  | Install m' resume k => progress (Install_read rb s t m' resume k)
  | InstallCas m' w resume k => progress (Install_cas s t m' w c resume k)
  | _ => True
  end.
Proof.
  pose proof (c_pcs _ _ _ _ Hinv t _ (lookup_pcs _ _ _ Ht)) as Hok.
  destruct state_fat as [Es Em]. destruct (pc th) eqn:E; try done; cbn [pc_ok] in Hok.
  - unfold SuspendThreadByThreadId. repeat case_match; try done; apply progress_inflation; rewrite ?E; try done;
      destruct k; simpl; lia.
  - unfold CreateMonitor. destruct c; try done. case_if; [|done]. case_if; [|done].
    apply andb_true_iff in E0 as [[En _]%andb_true_iff _]. apply bool_decide_eq_true in En.
    apply progress_next; rewrite ?E; try done; [by eapply near_same| |split; [left; simpl; lia|by left]].
    simpl. rewrite lookup_insert_ne; [done|]. destruct Hfree as [_ (M & HM & _)]. congruence.
  - destruct Hok as (Hv & M & HM & _). unfold Install_read, on_monitor. rewrite HM. case_if; [done|]. rewrite Es.
    apply progress_next; rewrite ?E; try done; [by eapply near_same| |split; [left; destruct resume, k; simpl; lia|by left]].
    simpl. rewrite lookup_delete_ne; [done|]. by apply other_monitor.
  - destruct Hok as (Hv & M & HM & _ & _ & Hcase). unfold Install_cas. rewrite no_cas; [|intros Ew; by rewrite Ew in Hcase].
    apply progress_next; rewrite ?E; try done; [by eapply near_same| |split; [left; destruct resume, k; simpl; lia|by left]].
    simpl. rewrite lookup_delete_ne; [done|]. by apply other_monitor.
Qed.

(** A contender that is awake comes nearer. *)
Lemma contender_progress p' e :
  inflation (pc th) = 0%nat -> inflation p' = 0%nat -> (0 < distance p' < distance (pc th))%nat ->
  (in_flight m th = true -> forall th0, in_flight m (with_pc th0 p') = true) -> progress (Next (goto s t p') e).
Proof.
  intros H1 H2 H3 H4. right. split; [exact Hfree|]. split; [by apply goto_others, others_same|]. exists p'.
  split; [by rewrite (next_shape s t (pc th) (lookup_pcs _ _ _ Ht))|]. split; [split; [by right|by right]|].
  intros Hf. exists (with_pc th p'). split; [by apply goto_own|by apply H4].
Qed.

Lemma runnable_progress c : native (pc th) = false -> progress (runnable_step rb spins t c th s).
Proof.
  intros Hnat. pose proof (c_pcs _ _ _ _ Hinv t _ (lookup_pcs _ _ _ Ht)) as Hok.
  pose proof (fat_progress c) as Hfat. pose proof (inflate_progress c) as Hinf.
  destruct state_fat as [Es Em]. destruct (Hfree) as [Hv _]. unfold runnable_step.
  destruct (pc th) eqn:E; try done; cbn [pc_ok] in Hok.
  - destruct c as [|call| | | | |]; try done. apply progress_idle; rewrite ?E; try done. by destruct call.
  - unfold MonitorEnter. rewrite Es. apply progress_idle; rewrite ?E; try done. by destruct trylock.
  - rewrite no_cas by (intros Ew; destruct Hok; congruence). by apply progress_idle; rewrite ?E.
  - destruct Hok as (d & H1 & _). congruence.
  - apply contender_progress; rewrite ?E; simpl; try done; [lia|]. unfold in_flight. rewrite E. by simpl.
  - unfold MonitorExit. rewrite Es. by apply progress_idle; rewrite ?E.
  - destruct Hok as (d & H1 & _). congruence.
  - unfold Wait. rewrite Es. by apply progress_idle; rewrite ?E.
  - by apply progress_idle; rewrite ?E.
  - apply progress_next; rewrite ?E; try done; [by eapply near_update|by apply pcs_update|split; [right|left]; try done].
    by destruct (was_interrupted && throws).
  - apply progress_next; rewrite ?E; try done; [by eapply near_update|by apply pcs_update|split; [by right|by left]].
  - by apply progress_idle; rewrite ?E.
  - unfold DoNotify. rewrite Es. by apply progress_idle; rewrite ?E.
  - unfold IdentityHashCode. rewrite Es. by apply progress_idle; rewrite ?E.
  - rewrite no_cas by (intros Ew; destruct Hok; congruence). by apply progress_idle; rewrite ?E.
  - rewrite Es, bool_decide_false by done. cbn [andb]. apply progress_inflation; rewrite ?E; [simpl; lia|done].
  - rewrite Es, bool_decide_true by done. apply progress_inflation; rewrite ?E; [destruct resume, k; simpl; lia|done].
  - apply progress_inflation; rewrite ?E; [destruct k; simpl; lia|done].
Qed.

Lemma native_progress c : progress (native_step t c th s).
Proof.
  pose proof (c_pcs _ _ _ _ Hinv t _ (lookup_pcs _ _ _ Ht)) as Hok.
  destruct (Hfree) as [Hv (M & HM & Ho)]. unfold native_step. destruct (pc th) eqn:E; try done; cbn [pc_ok] in Hok.
  - assert (m0 = m) as -> by (apply locks_view in Hok; congruence).
    unfold Lock_blocked, on_monitor. rewrite HM, Ho.
    apply contender_progress; rewrite ?E; simpl; try done; [lia|]. intros _ th0. apply Z.eqb_refl.
  - case_if; [|done]. apply contender_progress; rewrite ?E; simpl; try done; [lia|]. unfold in_flight. rewrite E. simpl.
    by intros [-> _]%andb_true_iff.
  - case_if; [|done]. by apply progress_idle; rewrite ?E.
Qed.
End Free.

(** ** What is left to do *)

Definition inflations (P : gmap Z Pc) : nat := map_fold (fun _ p n => inflation p + n)%nat 0%nat P.

Lemma inflations_insert P t p q :
  P !! t = Some q -> (inflations (<[t := p]> P) + inflation q = inflations P + inflation p)%nat.
Proof.
  assert (forall P p, P !! t = None -> inflations (<[t := p]> P) = inflation p + inflations P)%nat as Hnew.
  { intros P0 p0 H0. unfold inflations. rewrite map_fold_insert_L; [done|intros; lia|done]. }
  intros H. rewrite <- (insert_delete_id P t q H) at 2. rewrite <- (insert_delete_eq P t p).
  rewrite !Hnew by apply lookup_delete_eq. lia.
Qed.

Definition left_to_do (v : Z) (s : Sys) : nat :=
  (inflations (pcs s) + default 0 (distance <$> pcs s !! v))%nat.

(** [v] looks at the owner of [m] soon. *)
Definition flies (v m : Z) (s : Sys) : Prop :=
  exists th, threads s !! v = Some th /\ in_flight m th = true.

Lemma in_flight_distance m th : in_flight m th = true -> (0 < distance (pc th))%nat.
Proof. unfold in_flight. destruct (pc th) as [| | | | |? [] ?| | | | | | | | | | | | | | | | | | | | | | | | | |]; simpl; try done; lia. Qed.

Definition busy (v x : Z) (s : Sys) : Prop := x = v \/ exists p, pcs s !! x = Some p /\ inflation p <> 0%nat.

(** What a step leaves of a free monitor and a contender on its way. *)
Record onward (v m : Z) (l : Label) (s s' : Sys) : Prop := {
  o_free : free s' m;
  o_flies : flies v m s';
  o_least : (left_to_do v s' <= left_to_do v s)%nat;
  o_less : forall x c, l = Run x c -> busy v x s -> (left_to_do v s' < left_to_do v s)%nat;
  o_stay : forall x, (forall c, l <> Run x c) -> pcs s' !! x = pcs s !! x
}.

Lemma progress_onward v m t c th s s' e :
  free s m -> flies v m s -> threads s !! t = Some th ->
  progress s m t th (Next s' e) -> owned s' m \/ onward v m (Run t c) s s'.
Proof.
  intros Hfree (thv & Hv & Hfl) Ht [H|(Hf & Ho & p' & Ep & [Hinf Hdist] & Hkeep)]; [by left|right].
  pose proof (lookup_pcs _ _ _ Ht) as Hp. pose proof (inflations_insert (pcs s) t p' _ Hp) as Hsum.
  pose proof (in_flight_distance m thv Hfl) as Hpos. pose proof (lookup_pcs _ _ _ Hv) as Hpv.
  assert (left_to_do v s' + inflation (pc th) + (if decide (v = t) then distance (pc th) else 0) =
          left_to_do v s + inflation p' + (if decide (v = t) then distance p' else 0))%nat as Hl.
  { unfold left_to_do. rewrite Ep. destruct (decide (v = t)) as [->|].
    - rewrite lookup_insert_eq, Hp. simpl. lia.
    - rewrite lookup_insert_ne by done. lia. }
  assert (v = t -> 0 < distance (pc th))%nat as Hvt by (intros ->; congruence).
  split; try done.
  - destruct (decide (v = t)) as [->|Hne].
    + assert (thv = th) as -> by congruence. destruct (Hkeep Hfl) as (th' & ?). by exists th'.
    + destruct (others_forth t s s' v thv) as (th' & H' & Hc); [done..|]. exists th'. split; [done|by apply (calm_flags m _ _ Hc)].
  - destruct (decide (v = t)) as [E|]; [specialize (Hvt E)|]; lia.
  - intros x c' [= -> _] [-> |(p & Ex & Hi)].
    + rewrite !decide_True in Hl by done. specialize (Hvt eq_refl). lia.
    + rewrite Hp in Ex. injection Ex as <-. destruct (decide (v = x)) as [E|]; [specialize (Hvt E)|]; lia.
  - intros x Hx. rewrite Ep, lookup_insert_ne; [done|]. intros <-. by destruct (Hx c).
Qed.

Lemma flies_weight v m s : flies v m s -> 0 < waiters m (pcs s).
Proof.
  intros (th & Hv%lookup_pcs & Hf). eapply Z.lt_le_trans; [|by eapply waiters_ge]. unfold in_flight in Hf.
  destruct (pc th) as [| | | | |? [] ?| | | | | | | | | | | | | | | | | | | | | | | | | |]; simpl in *; try done;
    try (apply andb_true_iff in Hf as [Hf _]); rewrite Hf; destruct k; simpl; lia.
Qed.

Lemma free_step v m l s s' e :
  inv rb s -> free s m -> flies v m s -> step rb spins l s = Next s' e -> owned s' m \/ onward v m l s s'.
Proof.
  intros Hinv Hfree Hfl Hstep.
  assert (forall s1, (forall x, others x s s1) -> pcs s1 = pcs s -> view rb (lock_word s1) = view rb (lock_word s) ->
    monitors s1 = monitors s -> (forall t c, l <> Run t c) -> onward v m l s s1) as Hquiet.
  { intros s1 Ho Ep Ev Em Hl. split; try done.
    - unfold free. by rewrite Ev, Em.
    - destruct Hfl as (th & Hv & Hf). destruct (others_forth (v + 1) s s1 v th) as (th' & H' & Hc); [done|lia|done|].
      exists th'. split; [done|by apply (calm_flags m _ _ Hc)].
    - unfold left_to_do. by rewrite Ep.
    - intros x c E. by destruct (Hl x c).
    - intros x _. by rewrite Ep. }
  destruct l as [t c|t|b|b|]; cbn [step] in Hstep.
  - destruct (threads s !! t) as [th|] eqn:Ht; [|done]. apply (progress_onward v m t c th s s' e); try done.
    rewrite <- Hstep. case_if; [by apply native_progress|]. case_if; [done|]. by apply runnable_progress.
  - injection Hstep as <- <-. right. apply Hquiet; try done; [intros u; apply others_calm, Thread_Interrupt_calm|].
    apply pcs_update, Thread_Interrupt_pc.
  - destruct (rb && bit b) eqn:E; [|done]. injection Hstep as <- <-. apply andb_true_iff in E as [Erb Eb].
    destruct (mark_bit_view rb (lock_word s) b) as [[Hw Hv] _]; [done|apply Hinv|done|].
    right. apply Hquiet; try done. intros u. by apply others_same.
  - destruct (rb && bit b) eqn:E; [|done]. injection Hstep as <- <-. apply andb_true_iff in E as [Erb Eb].
    destruct (mark_bit_view rb (lock_word s) b) as [_ [Hw Hv]]; [done|apply Hinv|done|].
    right. apply Hquiet; try done. intros u. by apply others_same.
  - destruct (forallb _ _); [|done]. destruct (state_fat s m Hfree) as [Es Em]. destruct Hfree as [Hv (M & HM & Ho)].
    unfold Deflate, on_monitor in Hstep. rewrite Es, Em, HM in Hstep.
    pose proof (flies_weight v m s Hfl) as Hw. rewrite <- (mon_waiters _ _ _ (c_monitors _ _ _ _ Hinv m M HM)) in Hw.
    rewrite (proj2 (Z.ltb_lt _ _) Hw) in Hstep. injection Hstep as <- <-. right. apply Hquiet; try done. intros u. apply others_refl.
Qed.

(** ** Who can go on *)

(** A choice that is not left to luck: a step a thread takes when it is scheduled. *)
Definition obliged (c : Choice) : bool :=
  match c with Go | NewMonitor _ | Wake _ => true | _ => false end.

Definition enabled (t : Z) (s : Sys) : Prop :=
  exists c s' e, obliged c = true /\ step rb spins (Run t c) s = Next s' e.

(** On a free monitor a step that is not blocked succeeds. *)
Lemma enabled_not_blocked t c m s :
  inv rb s -> free s m -> obliged c = true -> step rb spins (Run t c) s <> Blocked -> enabled t s.
Proof.
  intros Hinv [Hv (M & HM & Ho)] Hc Hb. pose proof (step_ok rb spins (Run t c) s Hinv) as Hok.
  destruct (step rb spins (Run t c) s) as [s' e| | |] eqn:E; try done; [by exists c, s', e|].
  destruct Hok as [u Hu]. by rewrite (abs_owner_fat rb s m M Hv HM), Ho in Hu.
Qed.

Lemma enabled_flies v m s :
  inv rb s -> free s m -> flies v m s -> suspended s v = false -> enabled v s.
Proof.
  intros Hinv Hfree (th & Hv & Hf) Hs. apply (enabled_not_blocked v Go m); [done..|].
  pose proof (c_pcs _ _ _ _ Hinv v _ (lookup_pcs _ _ _ Hv)) as Hok. destruct Hfree as [Hw (M & HM & Ho)].
  cbn [step]. rewrite Hv, Hs. unfold in_flight in Hf. unfold native_step, runnable_step.
  destruct (pc th) as [| | | | |? [] ?| | | | | | | | | | | | | | | | | | | | | | | | | |]; try done;
    cbn [native pc_ok] in *; rewrite ?andb_true_iff in Hf; try (apply locks_view in Hok; assert (m0 = m) as -> by congruence).
  - unfold Lock_locked, on_monitor. rewrite HM. unfold TryLockLocked. simpl. rewrite Ho. by repeat case_match.
  - unfold Lock_blocked, on_monitor. by rewrite HM, Ho.
  - by destruct Hf as [_ ->].
Qed.

Lemma omap_length_le {A B : Type} (f : A -> option B) (l : list A) : (length (omap f l) <= length l)%nat.
Proof. induction l as [|x l IH]; csimpl; [lia|]. destruct (f x); csimpl; lia. Qed.

(** There are ids left for monitors: each of them is named by the lock word or is being
    installed by a thread. *)
Lemma few_threads s : inv rb s -> Z.of_nat (size (pcs s)) <= 65535.
Proof.
  intros Hinv. rewrite <- length_map_to_list, <- (length_fmap fst).
  assert (length (fst <$> map_to_list (pcs s)) <= length (seqZ 1 65535))%nat as H; [|rewrite length_seqZ in H; lia].
  apply submseteq_length, NoDup_submseteq; [apply NoDup_fst_map_to_list|].
  intros t Ht. apply list_elem_of_fmap in Ht as ([u p] & -> & Hin%elem_of_map_to_list). apply elem_of_seqZ. simpl.
  pose proof (c_ids _ _ _ _ Hinv u p Hin) as H. change kThinLockMaxOwner with 65535 in H. lia.
Qed.

Lemma fresh_id m s : inv rb s -> live s -> view rb (lock_word s) = VFat m ->
  exists m', monitors s !! m' = None /\ 0 <= m' <= kMaxMonitorId.
Proof.
  intros Hinv Hlive Hv.
  set (used := m :: omap (fun kv => private_monitor kv.2) (map_to_list (pcs s))).
  assert (Z.of_nat (length used) <= 65536) as Hlen.
  { unfold used. simpl. pose proof (few_threads s Hinv) as H. rewrite <- length_map_to_list in H.
    pose proof (omap_length_le (fun kv : Z * Pc => private_monitor kv.2) (map_to_list (pcs s))) as H'. lia. }
  assert (forall m', is_Some (monitors s !! m') -> m' ∈ used) as Hused.
  { intros m' Hm'. destruct (l_used s Hlive m' Hm') as [E|(t & p & Hp & Hpm)].
    - assert (m' = m) as -> by congruence. by left.
    - right. apply list_elem_of_omap. exists (t, p). split; [by apply elem_of_map_to_list|done]. }
  destruct (decide (Forall (fun m' => is_Some (monitors s !! m')) (seqZ 0 65537))) as [Hall|Hno].
  - exfalso. assert (length (seqZ 0 65537) <= length used)%nat as H; [|rewrite length_seqZ in H; lia].
    apply submseteq_length, NoDup_submseteq; [apply NoDup_seqZ|]. intros m' Hin. apply Hused.
    rewrite Forall_forall in Hall. by apply Hall, list_elem_of_In.
  - apply not_Forall_Exists in Hno; [|apply _]. apply Exists_exists in Hno as (m' & Hin & Hn).
    exists m'. split; [by apply eq_None_not_Some|]. apply list_elem_of_In, elem_of_seqZ in Hin. change kMaxMonitorId with 268435455. lia.
Qed.

Lemma suspender_keeps w Ms P x q u :
  pc_ok rb w Ms P x q -> holds_suspended q = Some u -> keeps_suspended P x (Some u).
Proof.
  destruct q; try done; cbn [holds_suspended pc_ok]; [by intros [_ H] [= ->]|..|by intros [_ H] ->|by intros H [= ->]].
  - by intros (_ & H & _) ->.
  - by intros (_ & M & _ & _ & _ & H & _) ->.
  - by intros (_ & M & _ & (_ & H & _) & _) ->.
Qed.

(** Whoever keeps a contender suspended can go on. *)
Lemma enabled_suspender u o p m s :
  inv rb s -> live s -> free s m -> pcs s !! u = Some p -> holds_suspended p = Some o -> enabled u s.
Proof.
  intros Hinv Hlive Hfree Hu Hp. destruct (fresh_id m s Hinv Hlive) as (m' & Hm' & Hr); [apply Hfree|].
  pose proof (c_pcs _ _ _ _ Hinv u p Hu) as Hok.
  assert (safepoint p = false) as Hsafe by (by destruct p).
  assert (suspended s u = false) as Hs.
  { destruct (suspended s u) eqn:E; [|done]. apply suspended_spec in E as (x & q & Hx & Hq).
    pose proof (c_pcs _ _ _ _ Hinv x q Hx) as Hk.
    destruct (suspender_keeps _ _ _ x q u Hk Hq u eq_refl) as [_ (q' & Hq' & Hs')]. congruence. }
  destruct (state_fat s m Hfree) as [Es _].
  destruct (pcs_lookup s u p Hu) as (th & Ht & Ep).
  assert (exists c, obliged c = true /\ step rb spins (Run u c) s <> Blocked) as (c & Hc & Hb); [|by eapply enabled_not_blocked].
  exists (match p with Inflate _ _ _ _ => NewMonitor m' | _ => Go end). split; [by destruct p|].
  cbn [step]. rewrite Ht, Ep, Hs. unfold runnable_step. rewrite Ep.
  destruct p; try done; cbn [native].
  - by case_if.
  - unfold CreateMonitor. rewrite bool_decide_true by done. rewrite !(proj2 (Z.leb_le _ _)) by lia. simpl. by case_if.
  - unfold Install_read, on_monitor. by repeat case_match.
  - unfold Install_cas. by case_match.
  - by case_if.
Qed.

(** ** Executions *)

Definition execution (trace : nat -> Sys) (labels : nat -> Label) : Prop :=
  forall i, exists e, step rb spins (labels i) (trace i) = Next (trace (S i)) e.

(** Every thread is from time to time unable to go on, or does. *)
Definition weakly_fair (trace : nat -> Sys) (labels : nat -> Label) : Prop :=
  forall t i, exists j, (i <= j)%nat /\ (~ enabled t (trace j) \/ exists c, labels j = Run t c).

Section Execution.
Context (trace : nat -> Sys) (labels : nat -> Label).
Hypothesis Hinv : forall i, inv rb (trace i).
Hypothesis Hlive : forall i, live (trace i).
Hypothesis Hexec : execution trace labels.
Hypothesis Hfair : weakly_fair trace labels.

Definition good (v m : Z) (i : nat) : Prop := free (trace i) m /\ flies v m (trace i).
Definition taken (m : Z) (i : nat) : Prop := exists j, (i <= j)%nat /\ owned (trace j) m.

Lemma taken_later m i j : (i <= j)%nat -> taken m j -> taken m i.
Proof. intros H (k & Hk & ?). exists k. split; [lia|done]. Qed.

Section Contender.
Context (v m : Z) (n : nat).
Hypothesis IH : forall i, good v m i -> (left_to_do v (trace i) < n)%nat -> taken m i.

(** A step by the contender or an inflation, if the monitor is not taken, is one less to do. *)
Lemma taken_by_step i x c :
  good v m i -> (left_to_do v (trace i) <= n)%nat -> labels i = Run x c -> busy v x (trace i) -> taken m i.
Proof.
  intros [Hf Hfl] Hn Hl Hb. destruct (Hexec i) as [e He].
  destruct (free_step v m _ _ _ _ (Hinv i) Hf Hfl He) as [Ho|[H1 H2 _ H4 _]].
  - exists (S i). split; [lia|done].
  - apply (taken_later m i (S i)); [lia|]. apply IH; [by split|]. specialize (H4 x c Hl Hb). lia.
Qed.

(** Until then it is as it was. *)
Lemma taken_or_waits i k x :
  (i <= k)%nat -> good v m i -> (left_to_do v (trace i) <= n)%nat -> busy v x (trace i) ->
  taken m i \/ good v m k /\ (left_to_do v (trace k) <= n)%nat /\ pcs (trace k) !! x = pcs (trace i) !! x.
Proof.
  intros Hik Hg Hn Hb. induction Hik as [|k Hik [Ht|(Hgk & Hnk & Ep)]]; [by right|by left|].
  assert (busy v x (trace k)) as Hbk by (destruct Hb as [->|(p & Hp & Hi)]; [by left|right; exists p; by rewrite Ep]).
  destruct (Hexec k) as [e He].
  assert (Decision (exists c, labels k = Run x c)) as [[c Hc]|Hnot].
  { destruct (labels k) as [y c| | | |]; try (right; by intros [c ?]).
    destruct (decide (y = x)) as [->|]; [left; by exists c|right; intros [c' ?]; congruence]. }
  - left. eapply taken_later; [exact Hik|]. by eapply taken_by_step.
  - destruct Hgk as [Hf Hfl]. destruct (free_step v m _ _ _ _ (Hinv k) Hf Hfl He) as [Ho|[H1 H2 H3 _ H5]].
    + left. exists (S k). split; [lia|done].
    + right. split; [by split|]. split; [lia|]. rewrite H5; [done|]. intros c Hc. apply Hnot. by exists c.
Qed.

(** A thread that is busy and can go on as long as it stays where it is. *)
Lemma taken_by_fairness i x :
  good v m i -> (left_to_do v (trace i) <= n)%nat -> busy v x (trace i) ->
  (forall k, (i <= k)%nat -> good v m k -> (left_to_do v (trace k) <= n)%nat -> pcs (trace k) !! x = pcs (trace i) !! x ->
     ~ enabled x (trace k) -> taken m k) ->
  taken m i.
Proof.
  intros Hg Hn Hb Hen. destruct (Hfair x i) as (k & Hik & Hk).
  destruct (taken_or_waits i k x Hik Hg Hn Hb) as [?|(Hgk & Hnk & Ep)]; [done|].
  apply (taken_later m i k Hik). destruct Hk as [Hno|[c Hc]]; [by apply Hen|].
  eapply taken_by_step; [done..|]. destruct Hb as [->|(p & Hp & Hi)]; [by left|right; exists p; by rewrite Ep].
Qed.

Lemma taken_eventually i : good v m i -> (left_to_do v (trace i) <= n)%nat -> taken m i.
Proof.
  intros Hg Hn. apply (taken_by_fairness i v); [done|done|by left|].
  intros k _ Hgk Hnk _ Hno. destruct (suspended (trace k) v) eqn:Es.
  - apply suspended_spec in Es as (u & p & Hu & Hp).
    assert (inflation p <> 0%nat) as Hi by (by destruct p).
    apply (taken_by_fairness k u); [done|done|right; eauto|]. intros j Hj Hgj Hnj Ep Hno'. destruct Hno'.
    rewrite Hu in Ep. apply (enabled_suspender u v p m); try done; apply Hgj.
  - destruct Hno. apply (enabled_flies v m); try done; apply Hgk.
Qed.
End Contender.

Lemma taken_from_flight v m i : good v m i -> taken m i.
Proof.
  remember (left_to_do v (trace i)) as n eqn:En. assert (left_to_do v (trace i) <= n)%nat as Hn by lia. clear En.
  revert i Hn. induction n as [n IH] using lt_wf_ind. intros i Hn Hg.
  apply (taken_eventually v m n); [|done|done]. intros k Hk Hl. by eapply (IH (left_to_do v (trace k))).
Qed.
End Execution.

Lemma run_inv s es s' : run rb spins s es s' -> inv rb s -> live s -> inv rb s' /\ live s'.
Proof.
  induction 1 as [|l s s' e es s'' Hstep _ IH]; intros Hinv Hlive; [done|].
  pose proof (step_ok rb spins l s Hinv) as Hok. pose proof (step_live l s Hinv Hlive) as Hl.
  rewrite Hstep in Hok, Hl. apply IH; [apply Hok|done].
Qed.

Lemma execution_inv ids seed trace labels i :
  Forall (fun t => 1 <= t <= kThinLockMaxOwner) ids -> trace 0%nat = initial ids seed ->
  execution trace labels -> inv rb (trace i) /\ live (trace i).
Proof.
  intros Hids H0 Hexec. induction i as [|i [Hinv Hlive]].
  - rewrite H0. split; [by apply initial_ok|apply initial_live].
  - destruct (Hexec i) as [e He]. pose proof (step_ok rb spins (labels i) _ Hinv) as Hok.
    pose proof (step_live (labels i) _ Hinv Hlive) as Hl. rewrite He in Hok, Hl. split; [apply Hok|done].
Qed.

(** C4. No contender is left asleep on a free lock.  In every fair execution, from the
    moment an inflated lock has no owner while some thread sleeps in [Monitor::Lock]
    waiting for it, some thread owns it later: whoever unlocks, or begins to wait, wakes
    a contender unless one is already on its way, contenders are suspended only by
    inflations that end, and a lock with contenders is not deflated.  Fair means that a
    thread that can go on by itself, not counting spurious wake-ups, timeouts and new
    calls, goes on at some point or cannot any more. *)
Theorem free_lock_is_taken ids seed trace labels i m u th k :
  Forall (fun t => 1 <= t <= kThinLockMaxOwner) ids -> trace 0%nat = initial ids seed ->
  execution trace labels -> weakly_fair trace labels ->
  free (trace i) m -> threads (trace i) !! u = Some th -> pc th = LockSleep m k ->
  exists j, (i <= j)%nat /\ owned (trace j) m.
Proof.
  intros Hids H0 Hexec Hfair Hfree Hu Hp.
  assert (forall n, inv rb (trace n) /\ live (trace n)) as Hall by (intros n; by eapply execution_inv).
  destruct (Hfree) as [Hv (M & HM & Ho)].
  assert (exists v, flies v m (trace i)) as [v Hfl].
  { destruct (signalled th) eqn:Es.
    - exists u, th. split; [done|]. unfold in_flight. by rewrite Hp, Es, Z.eqb_refl.
    - destruct (l_wake _ (proj2 (Hall i)) m M u th) as (v & thv & H); try done; [|by exists v, thv].
      unfold asleep_on. by rewrite Hp, Es, Z.eqb_refl. }
  apply (taken_from_flight trace labels (fun n => proj1 (Hall n)) (fun n => proj2 (Hall n)) Hexec Hfair v m i). by split.
Qed.


Lemma run_schedule_ends {A} (Q : Sys -> A) ls s es a :
  (fun r => (r.1, Q r.2)) <$> run_schedule rb spins ls s = Some (es, a) -> exists s', run rb spins s es s' /\ Q s' = a.
Proof.
  revert s es. induction ls as [|l ls IH]; intros s es; simpl; [intros [= <- <-]; eexists; split; [constructor|done]|].
  destruct (step rb spins l s) as [s1 e| | |] eqn:E; try done.
  destruct (run_schedule rb spins ls s1) as [[es1 s2]|] eqn:E1; [|done]. simpl. intros [= <- <-].
  destruct (IH s1 es1) as (s' & Hs & Hq); [by rewrite E1|]. exists s'. split; [by eapply run_step|done].
Qed.

End Liveness.

(** ** Examples *)

(** Thread 1 holds the lock, 2 and 3 contend for it and sleep; each gets it in turn. *)
Definition relay : list Label :=
  [Run 1 (DoCall (CallEnter false)); Run 1 Go; Run 1 Go;
   Run 2 (DoCall (CallEnter false)); Run 2 Go; Run 2 Go; Run 2 Go; Run 2 (NewMonitor 5); Run 2 Go; Run 2 Go; Run 2 Go;
   Run 2 Go; Run 2 Go; Run 2 Go; Run 2 Go;
   Run 3 (DoCall (CallEnter false)); Run 3 Go; Run 3 Go; Run 3 Go;
   Run 1 (DoCall CallExit); Run 1 Go; Run 1 (Wake 2);
   Run 2 Go; Run 2 Go; Run 2 Go; Run 2 (DoCall CallExit); Run 2 Go; Run 2 (Wake 3);
   Run 3 Go; Run 3 Go; Run 3 Go; Run 3 (DoCall CallExit); Run 3 Go; Run 3 Go].

(** Then nothing happens any more. *)
Definition relay_label (n : nat) : Label := nth n relay (Interrupt 9).
Fixpoint relay_trace (n : nat) : Sys :=
  match n with
  | O => initial [1; 2; 3] 99
  | S n => let s := relay_trace n in
           match step true 0 (relay_label n) s with Next s' _ => s' | _ => s end
  end.

Definition is_next (out : Outcome) : bool := match out with Next _ _ => true | _ => false end.

Definition is_running (p : Pc) : bool := match p with Running => true | _ => false end.

Lemma all_running (T : gmap Z Thread) :
  forallb (fun kv => is_running (pc kv.2)) (map_to_list T) = true -> forall t th, T !! t = Some th -> pc th = Running.
Proof.
  intros H t th Ht. rewrite forallb_forall in H. specialize (H (t, th)). simpl in H.
  rewrite <- list_elem_of_In, elem_of_map_to_list in H. specialize (H Ht). by destruct (pc th).
Qed.

Lemma relay_steps : forallb (fun i => is_next (step true 0 (relay_label i) (relay_trace i))) (seq 0 34) = true.
Proof. vm_compute. reflexivity. Qed.

Lemma relay_done :
  threads (relay_trace 34) !! 9 = None /\
  forallb (fun kv => is_running (pc kv.2)) (map_to_list (threads (relay_trace 34))) = true.
Proof. vm_compute. done. Qed.

Lemma relay_asleep :
  view true (lock_word (relay_trace 22)) = VFat 5 /\ owner_ <$> monitors (relay_trace 22) !! 5 = Some None /\
  pc <$> threads (relay_trace 22) !! 3 = Some (LockSleep 5 AfterEnter) /\ signalled <$> threads (relay_trace 22) !! 3 = Some false.
Proof. vm_compute. done. Qed.

Lemma relay_S n :
  relay_trace (S n) = match step true 0 (relay_label n) (relay_trace n) with Next s' _ => s' | _ => relay_trace n end.
Proof. reflexivity. Qed.
Lemma relay_O : relay_trace 0 = initial [1; 2; 3] 99.
Proof. reflexivity. Qed.

#[local] Opaque relay_trace.

Lemma relay_label_end n : (34 <= n)%nat -> relay_label n = Interrupt 9.
Proof. intros Hn. unfold relay_label. by rewrite nth_overflow. Qed.

Lemma relay_execution : execution true 0 relay_trace relay_label.
Proof.
  intros i. assert (is_next (step true 0 (relay_label i) (relay_trace i)) = true) as H.
  { destruct (decide (i < 34)%nat) as [Hi|Hi]; [|by rewrite relay_label_end by lia].
    pose proof relay_steps as Hs. rewrite forallb_forall in Hs. apply Hs, in_seq. lia. }
  rewrite relay_S. destruct (step true 0 (relay_label i) (relay_trace i)); try done. eauto.
Qed.

Lemma relay_rests n : (34 <= n)%nat -> relay_trace n = relay_trace 34.
Proof.
  intros Hn. induction Hn as [|n Hn IH]; [done|]. rewrite relay_S, relay_label_end, IH by lia. cbn [step]. unfold update_thread, set_threads.
  rewrite alter_id; [by destruct (relay_trace 34)|]. intros th E. destruct relay_done as [H _]. congruence.
Qed.

Lemma resting rb spins s t : (forall t th, threads s !! t = Some th -> pc th = Running) -> ~ enabled rb spins t s.
Proof.
  intros H (c & s' & e & Hc & Hstep). cbn [step] in Hstep. destruct (threads s !! t) as [th|] eqn:Ht; [|done].
  apply H in Ht as Hp. rewrite Hp in Hstep. cbn [native] in Hstep. destruct (suspended s t); [done|].
  unfold runnable_step in Hstep. rewrite Hp in Hstep. by destruct c.
Qed.

Lemma relay_fair : weakly_fair true 0 relay_trace relay_label.
Proof.
  intros t i. exists (Nat.max i 34). split; [lia|]. left. rewrite relay_rests by lia.
  apply resting, all_running, relay_done.
Qed.

Lemma free_lock_is_taken_witness : exists j, (22 <= j)%nat /\ owned (relay_trace j) 5.
Proof.
  destruct relay_asleep as (Hv & Ho & Hp & _).
  apply fmap_Some in Ho as (M & HM & Ho). apply fmap_Some in Hp as (th & Hth & Hp).
  eapply (free_lock_is_taken true 0 [1; 2; 3] 99 relay_trace relay_label 22 5 3 th AfterEnter).
  - by repeat constructor.
  - apply relay_O.
  - apply relay_execution.
  - apply relay_fair.
  - split; [exact Hv|]. exists M. split; [exact HM|by symmetry].
  - exact Hth.
  - by symmetry.
Defined.

Definition event_of (out : Outcome) : option Event := match out with Next _ e => e | _ => None end.

(** Threads 1 and 2 wait on the object and 3 holds its lock. *)
Definition forever : WaitArgs := {| ms := 0; ns := 0; interruptShouldThrow := true; why := kWaiting |}.
Definition two_waiters : list Label :=
  [Run 1 (DoCall (CallEnter false)); Run 1 Go; Run 1 Go; Run 1 (DoCall (CallWait forever)); Run 1 Go;
   Run 1 (NewMonitor 5); Run 1 Go; Run 1 Go; Run 1 Go; Run 1 Go; Run 1 Go;
   Run 2 (DoCall (CallEnter false)); Run 2 Go; Run 2 Go; Run 2 (DoCall (CallWait forever)); Run 2 Go; Run 2 Go;
   Run 3 (DoCall (CallEnter false)); Run 3 Go; Run 3 Go].
Definition two_waiters_events : list Event := [Entered 1; WaitBegan 1; Entered 2; WaitBegan 2; Entered 3].

Lemma about_to_notify_all : exists s, run true 0 (initial [1; 2; 3] 99) two_waiters_events s /\
  (pc <$> threads s !! 3, event_of (step true 0 (Run 3 Go) s)) = (Some (NotifyFat 5 true), Some (Notified 3)).
Proof.
  apply (run_schedule_ends true 0 _ (two_waiters ++ [Run 3 (DoCall (CallNotify true)); Run 3 Go])). vm_compute. reflexivity.
Qed.


(** Thread 1 is interrupted and has woken up, but is not running yet, when 3 notifies. *)
Definition interrupted_waiter : list Label :=
  two_waiters ++
  [Interrupt 1; Run 1 Go; Run 3 (DoCall (CallNotify false)); Run 3 Go; Run 3 Go; Run 3 (DoCall CallExit); Run 3 Go; Run 3 Go;
   Run 1 Go; Run 1 Go; Run 1 Go; Run 1 Go; Run 1 Go; Run 1 Go; Run 1 (DoCall CallExit); Run 1 Go; Run 1 Go].

(** A notification can be lost.  Two threads wait, one of them is interrupted, and the
    owner calls [notify] before the interrupted thread has reset its [wait_monitor_]: the
    signal goes to that thread, which no longer sleeps and leaves [wait] with an
    [InterruptedException], and the other thread goes on sleeping with the lock free and
    nobody in a call. *)
Theorem notification_lost :
  exists s, run true 0 (initial [1; 2; 3] 99)
    (two_waiters_events ++ [Notified 3; Exited 3; WaitEnded 1 true; Exited 1]) s /\
  (owner_ <$> monitors s !! 5, pc <$> threads s !! 1, waits_for 5 <$> threads s !! 2, pc <$> threads s !! 3) =
  (Some None, Some Running, Some true, Some Running).
Proof. apply (run_schedule_ends true 0 _ interrupted_waiter). vm_compute. reflexivity. Qed.
